(* ===== verification/_CoqProject ===== *)
-Q . S2P
Prelude.v
Sds.v
Partition.v
OtStr.v
ClassText.v
TextState.v
OtUfs.v
Graph.v
Sorts.v
UnionSplit.v
GraphText.v
Object.v
Space.v
Ladder.v
Commands.v
Query.v
Control.v
Replica.v
Init.v
Master.v
Protocol.v
Call.v
Locate.v
Grid.v
Views.v
Extend.v
Link.v
System.v
Converge.v
Util.v
SdsFmt.v
Args.v
Resp.v
Backlog.v
Dict.v
DictMap.v
Scan.v
Iter.v
Sample.v
Table.v
Gate.v
Output.v
Proxy.v
Handshake.v
Psync.v
Fdset.v
SyncMaster.v
Wait.v
Multi.v
Watch.v
Transaction.v
ExecUfs.v
Adlist.v
SdsHdr.v
