(* ===== verification/Prelude.v ===== *)
(** * Verification of UfsRedis

    UfsRedis is a Redis server with replicated union-find-split objects: a set of
    elements partitioned into classes, with commands to create an object (uinit),
    to unite the classes of elements (union), to split elements off (split) and to
    read classes (find, umembers).  Every slave executes the commands of its users
    at once and sends them to the master; the master transforms them against the
    commands it has already seen (operational transformation) and sends them on to
    the other slaves, which transform them against their own.  The code is in
    src/src/ufs.c, src/src/ot.c, and in changed parts of server.c, replication.c and
    networking.c; it is built on the lists (adlist.c) and strings (sds.c) of Redis.

    ** Parts and files

    - Prelude: outcomes [out] (a value or a fault such as an access outside an
      object), the bind notation, tactics ([bind_red], [concrete]), hints and lemmas
      on lists.  Every definition that models C code returns [out] when the code can
      go wrong, so that a theorem that it returns is a theorem of memory safety.
    - Sds, SdsHdr: sds.c and sds.h, first on contents and then with the headers of
      the five types, lengths at their widths and allocation.
    - Adlist: adlist.c over a heap of nodes with next and prev pointers.
    - Partition: partial equivalence relations, the abstract states; [aop] and
      [aapply] are the abstract union and split.
    - OtStr, ClassText: the string routines of ot.c, character by character
      (sdsDel, findstr, cpltClass, oidscmp, findOid, ...), and texts of classes such
      as "a,b/c".
    - TextState: updateVerticeUfsFromState, the operations on texts.
    - OtUfs: otUfs, the transformation function, with its property TP1.
    - Graph, Sorts, UnionSplit, GraphText: the graph of an object (struct cudGraph),
      the sorts, unionProc and splitProc on the graph, printing (updateVerticeUfs,
      itos).
    - Object: the class [UfsImpl] of implementations of the abstract operations,
      with the graph and the text as instances, and their bisimulation.
    - Space, Ladder: the two-dimensional state space (vertices with a left edge for
      a local and a right edge for a remote operation), the searches in it, and the
      transformation loop of controlAlg.
    - Commands, Query, Control, Init: the state of a server and the commands:
      argument checks, findCommand, umembersCommand, controlAlg with its three
      branches (local_process, remote_process, server_process), uinitCommand.
    - Replica, Master, Protocol: what the commands do to one server: a slave's
      replica stays consistent, the spaces of the master stay together.
    - Call: call, propagate and the feed routines of replication.c: where a command
      goes after it has run.
    - Locate, Grid, Views, Extend, Link: the argument that connects a slave with the
      master.  The grid of a slave has a point (i, j) for the state after i of its
      own and j of the others' operations; the space of the slave and the one the
      master keeps for it are two views of the grid, contexts name points of it,
      and the commands under way carry operations one view is missing.
    - System, Converge: the system of a master and its slaves with queues between
      them, and the theorems on its runs.
    - Util, Args, SdsFmt: util.c (numbers as text) and the quoting and formatting routines
      of sds.c.
    - Resp: the wire format of commands: the encoders for slaves, master, backlog and
      append only file, and the incremental parser of networking.c (query buffer,
      multi bulk and inline requests, reads of any size).
    - Backlog: the replication backlog of replication.c, a ring that refines the list
      of all bytes written, and the answer to PSYNC.
    - Output: the output buffers of networking.c, their limits, writing to sockets, and
      the feeding of slaves (all, or all but the origin of a command) and of the master.
    - Proxy: reading the stream of the master and handing it on to the backlog and to
      sub-slaves, for which the output routines refuse it.
    - Handshake: the replication state of a slave in replication.c: connecting, the
      handshake, PSYNC, receiving the snapshot, the cached master, SLAVEOF, clients
      closed later.
    - Psync: a slave and its master talking to each other, line by line.
    - Fdset: the rio target of rio.c that writes a snapshot to the sockets of many slaves,
      and the child process of rdb.c that uses it.
    - SyncMaster: the master's side of synchronizations in replication.c and rdb.c: SYNC,
      PSYNC, REPLCONF, snapshots and sending them, feeding the
      slaves with commands of the master and of slaves, the timer.
    - Wait: WAIT, clients that wait for acknowledgements of slaves.
    - Dict, DictMap: dict.c, the hash tables with incremental rehashing, and their
      refinement of finite maps.
    - Scan, Iter, Sample: dictScan with its reversed cursors; safe and unsafe iterators;
      random keys.
    - Table, Gate: the command table of server.c, the dictionary it becomes, and the
      guards of processCommand in front of call.
    - Multi, Watch, Transaction: multi.c (MULTI, EXEC, DISCARD, WATCH, UNWATCH); the index
      of watched keys; the specification of transactions and their refinement.
    - ExecUfs: EXEC of union-find commands on the instances of Call.

    ** What the theorems show

    - The system ([system_safe], [system_converges], [deliveries_terminate],
      [system_drains] in Converge): for any number of writable slaves and any
      interleaving of deliveries with queries and lower-case unions and splits of
      single elements of the object (the record [setting] has the whole list of
      conditions): no server faults, deliveries end, and whenever nothing is under way
      all replicas show the same classes.
    - Single commands (Protocol): local, remote and master branches of controlAlg
      integrate exactly the operation received, transformed along the states the ladder
      meets ([states_along], [transformed] in Ladder); uinit and the rejection of bad
      commands; [call_routes] for the propagation, to writable and read-only slaves.
    - The transformation: TP1 for the operations the protocol uses
      ([otUfs_TP1]); termination and soundness of the loop for chains of
      operations on single elements ([ladder_integrates]).
    - Refinement: graph and text implement the abstract operations
      ([union_graph_refines], [split_graph_refines],
      [updateVerticeUfsFromState_refines], [graph_text_bisimulation]).
    - Round trips: text to graph to text, contexts (theorem [context_roundtrip]), numbers, quoted arguments.
    - The wire: the encoders agree ([encoders_agree]); however a stream is cut into
      reads, exactly its commands are executed ([parser_reads_commands]); the backlog
      gives back what was written ([backlog_resync]); a slave puts
      into its backlog exactly what it has executed, and its sub-slaves get nothing of it
      ([master_stream_proxied]); a link with its output buffers and short writes is a queue
      of the commands fed, into which a reply gets only while the slave is left under
      feed ([link_is_queue]).
    - Synchronization: the replication states of a slave are consistent in every run
      ([replication_consistent]); the handshake says what the master then reads
      ([handshake_conversation]); a snapshot arrives whole, in reads of any sizes
      (theorem [snapshot_received]); a granted partial resynchronization leaves a gap
      ([partial_resync_gap]).  In any run of a master every slave that takes part in a full
      synchronization is sent a snapshot and exactly the commands executed since that
      did not come from itself ([full_sync_streams]), and the slave ends with
      this snapshot and reads these commands ([slave_follows]); clients in WAIT are let go
      when enough slaves have acknowledged ([wait_answered]).
    - Hash tables: they answer as finite maps while they are resized and rehashed
      ([dict_refines_map]), rehashing ends (lemma [dict_rehash_ends]), and a scan misses no
      key that stays, unless the table is made smaller ([scan_complete]); a walk with a
      safe iterator returns every entry, whatever the caller does in between
      ([safe_iteration]).
    - Admission: the table is accepted and searched without regard to case
      (theorem [command_table_lookup]); which guards apply to union-find commands
      ([union_find_admission]) and to transactions (theorem [refusal_flags_transaction]).
    - Transactions: the index of watched keys is exact, and runs of many clients refine
      a specification without it ([transactions_refine]); EXEC runs the queue exactly
      when no watched key was modified ([watch_guards_exec]); a transaction of union-find
      commands is executed and sent command by command ([exec_union_find]).
    - Support: sorts, string routines, lists and string headers against reference
      definitions, with bounds and overflow.
    - Lemmas named in the findings show where the code does something else than it
      means to.

    ** Modelling decisions, bounds and fuel

    Byte strings are lists of [ascii]; C strings end at NUL.  The fixed-size buffers
    of the code (ten bytes for the first element of a group in ot.c, five for numbers)
    are faults when exceeded, so the first element of a group has at most nine
    characters ([arg_ok]), ports are within 10000 of 6379 and a slave creates fewer
    than 10000 operations ([oid_range]).
    Loops that are not structural have fuel: the length of the string or array for
    scans, the number of vertices for walks in a state space (edges lead to later
    vertices), the length of the list for iterators, the length of the query buffer for
    the parser, [pending] for [drain]; the theorems show that this is enough.  The
    replication offsets are unbounded integers.  Memory is unbounded; allocation does not
    fail.  Users' operations in the system theorems are on single elements: for
    splits of groups the transformation does not satisfy TP1
    ([otUfs_group_split_diverges]).  Slaves are writable
    (slave-read-only no): on a read-only slave operations stay local
    ([readonly_slave_keeps]).  The queues between servers lose and reorder
    nothing: this is TCP and, for the buffers of the servers, [link_is_queue], and
    the branches of the master for unions and splits send no replies; the set of slaves
    does not change while an object is used.  Client ids are not used again.  The int
    counter of empty buckets in dictRehash is unbounded: its callers pass 1 and 100.

    ** Not modelled

    Sockets, the event loop, persistence and the contents of snapshots, timeouts, the
    data types of Redis, cluster, Sentinel, modules, scripting and the vendored libraries: they
    are I/O, unchanged from Redis, or third-party code, and objects of this kind do
    not depend on them.  Freeing memory is modelled only in Adlist and SdsHdr. *)
From Stdlib Require Import Ascii String.
From stdpp Require Export base list list_numbers numbers strings gmap sorting.

(** ** Bytes and C strings

    A [char] of the program is an [ascii] (eight booleans), a byte string is a
    list of them.  [NUL] terminates C strings. *)
Abbreviation bytes := (list ascii).

Definition NUL : ascii := "000"%char.
Definition COMMA : ascii := ","%char.
Definition SLASH : ascii := "/"%char.

(** Literals: [str "a,b"] is the byte string of a Rocq string literal. *)
Definition str (s : String.string) : bytes := String.list_ascii_of_string s.
Arguments str _%_string_scope.

(** ** Outcomes

    C code either returns a value or does something the language gives no
    meaning to.  [Fail] carries which: an access outside an object, a
    dereference of [NULL] or of a freed pointer, a write past a fixed-size local buffer, a failed
    [assert], or, for a loop modelled with fuel, that the fuel ran out. *)
Inductive fault :=
  | OutOfBounds
  | NullDeref
  | Dangling
  | BufferOverflow
  | AssertFail
  | OutOfFuel.

Inductive out (A : Type) : Type :=
  | Ret (a : A)
  | Fail (e : fault).
Arguments Ret {_} _.
Arguments Fail {_} _.

#[global] Instance fault_eq_dec : EqDecision fault.
Proof. solve_decision. Defined.

#[global] Instance out_eq_dec {A} `{!EqDecision A} : EqDecision (out A).
Proof. solve_decision. Defined.

#[global] Instance out_ret : MRet out := @Ret.
#[global] Instance out_bind : MBind out := λ A B f m,
  match m with Ret a => f a | Fail e => Fail e end.
#[global] Instance out_fmap : FMap out := λ A B f m,
  match m with Ret a => Ret (f a) | Fail e => Fail e end.

(** [returns m P]: the computation is defined and its result satisfies [P]. *)
Definition returns {A} (m : out A) (P : A → Prop) : Prop :=
  ∃ a, m = Ret a ∧ P a.

(** [faults_only m P]: whatever [m] does, a fault of it satisfies [P]. *)
Definition faults_only {A} (m : out A) (P : fault → Prop) : Prop :=
  ∀ e, m = Fail e → P e.

(** Left fold of an effectful step over a list, stopping at the first fault:
    a [for] or [while] loop over the nodes of a list. *)
Fixpoint out_fold {A B} (f : B → A → out B) (b : B) (l : list A) : out B :=
  match l with
  | [] => Ret b
  | a :: l' => b' ← f b a; out_fold f b' l'
  end.

(** ** Joining and splitting on a separator byte *)

(** [join c [t1; ..; tn]] is [t1 c t2 c .. tn]. *)
Fixpoint join (c : ascii) (l : list bytes) : bytes :=
  match l with
  | [] => []
  | [t] => t
  | t :: l' => t ++ c :: join c l'
  end.

(** [split_on c s] cuts [s] at every [c]; there is always at least one token. *)
Fixpoint split_on (c : ascii) (s : bytes) : list bytes :=
  match s with
  | [] => [[]]
  | a :: s' =>
    if bool_decide (a = c) then [] :: split_on c s'
    else match split_on c s' with
         | [] => [[a]]
         | t :: ts => (a :: t) :: ts
         end
  end.

(** ** Automation of the development *)

Declare Scope ufs_scope.
Delimit Scope ufs_scope with ufs.
Notation "m ⇓ a" := (m = Ret a) (at level 70, no associativity) : ufs_scope.
Open Scope ufs_scope.

Create HintDb ufs discriminated.

(** Case analysis on every [bool_decide], [decide] and [if] in sight, with the
    contradictory branches closed. *)
Ltac split_cases :=
  repeat first
    [ case_bool_decide
    | case_decide
    | match goal with
      | |- context [if ?b then _ else _] => destruct b eqn:?
      | |- context [match ?x with _ => _ end] => destruct x eqn:?
      end ];
  simplify_eq/=; try done.

(** Membership in an explicit list: unfold it and finish propositionally. *)
Ltac in_list :=
  rewrite ?elem_of_app, ?elem_of_cons, ?elem_of_app, ?elem_of_cons, ?elem_of_app in *; tauto.

(** A decidable fact about concrete data, by evaluating its decision. *)
Ltac concrete := first [apply (bool_decide_unpack _); vm_compute; exact I | set_solver].

(** Reduce a bind whose first computation is known. *)
Ltac out_step :=
  match goal with
  | H : ?m = Ret _ |- context [?m ≫= _] => rewrite H; simpl
  | H : ?m = Fail _ |- context [?m ≫= _] => rewrite H; simpl
  end.

(** Reduce binds only, leaving loops with fuel folded. *)
Ltac bind_red := cbn [mbind out_bind].

(** Take apart a hypothesis that a sequence of computations returned. *)
Ltac out_inv H :=
  repeat match type of H with
  | (?m ≫= _) = Ret _ =>
      let E := fresh "E" in
      destruct m eqn:E; simpl in H; [|discriminate H]
  end.

(** ** Lemmas on outcomes *)

Lemma returns_bind {A B} (m : out A) (k : A → out B) (P : A → Prop) (Q : B → Prop) :
  returns m P → (∀ a, P a → returns (k a) Q) → returns (m ≫= k) Q.
Proof. intros (a & -> & Ha) Hk. exact (Hk a Ha). Qed.

Lemma returns_mono {A} (m : out A) (P Q : A → Prop) :
  returns m P → (∀ a, P a → Q a) → returns m Q.
Proof. intros (a & -> & Ha) HPQ. exists a. auto. Qed.

Section folds.
Context {A B : Type}.

Lemma returns_fold (f : B → A → out B) (I : list A → B → Prop) b l :
  I [] b →
  (∀ seen a rest b', l = seen ++ a :: rest → I seen b' →
                     returns (f b' a) (I (seen ++ [a]))) →
  returns (out_fold f b l) (I l).
Proof.
  intros H0 Hstep.
  assert (∀ rest seen b', l = seen ++ rest → I seen b' →
            returns (out_fold f b' rest) (I l)) as Hgen.
  { induction rest as [|a rest IH]; intros seen b' -> HI; simpl.
    - exists b'. by rewrite app_nil_r.
    - apply returns_bind with (P := I (seen ++ [a])).
      + by apply (Hstep seen a rest).
      + intros b'' HI''. apply (IH (seen ++ [a])); [|done].
        by rewrite <-app_assoc. }
  by apply (Hgen l []).
Qed.

Lemma out_fold_app (f : B → A → out B) b l1 l2 :
  out_fold f b (l1 ++ l2) = (b' ← out_fold f b l1; out_fold f b' l2).
Proof.
  revert b. induction l1 as [|a l1 IH]; intros b; simpl; [done|].
  destruct (f b a); simpl; [apply IH|done].
Qed.
End folds.

Lemma returns_ret {A} (a : A) (P : A → Prop) : P a → returns (Ret a) P.
Proof. intros. by exists a. Qed.

#[export] Hint Resolve returns_ret : ufs.

(** ** Lemmas on [join] and [split_on] *)

Section join_split.
Implicit Types (c : ascii) (t : bytes) (l : list bytes).

Lemma join_cons c t l : l ≠ [] → join c (t :: l) = t ++ c :: join c l.
Proof. by destruct l. Qed.

Lemma split_on_ne c s : split_on c s ≠ [].
Proof. induction s; simpl; [done|]. split_cases. Qed.

Lemma split_on_free c t : c ∉ t → split_on c t = [t].
Proof.
  induction t as [|a t IH]; simpl; [done|].
  intros [Hne Hin]%not_elem_of_cons.
  rewrite bool_decide_eq_false_2 by congruence. by rewrite IH.
Qed.

Lemma split_on_app c t s :
  c ∉ t → split_on c (t ++ c :: s) = t :: split_on c s.
Proof.
  induction t as [|a t IH]; simpl.
  - by rewrite bool_decide_eq_true_2.
  - intros [Hne Hin]%not_elem_of_cons.
    rewrite bool_decide_eq_false_2 by congruence. by rewrite IH.
Qed.

Lemma split_join c l :
  l ≠ [] → Forall (λ t, c ∉ t) l → split_on c (join c l) = l.
Proof.
  induction l as [|t [|t' l] IH]; [done|..]; intros _ Hl;
    apply Forall_cons in Hl as [Ht Hl].
  - by apply split_on_free.
  - rewrite join_cons by done. rewrite split_on_app by done.
    by rewrite IH.
Qed.

Lemma join_split c s : join c (split_on c s) = s.
Proof.
  induction s as [|a s IH]; simpl; [done|].
  pose proof (split_on_ne c s).
  case_bool_decide; subst.
  - rewrite join_cons by done. simpl. by rewrite IH.
  - destruct (split_on c s) as [|t [|t' ts]]; [done|..]; simpl in *;
      by rewrite IH.
Qed.

Lemma split_on_tokens_free c s : Forall (λ t, c ∉ t) (split_on c s).
Proof.
  induction s as [|a s IH]; simpl.
  - repeat constructor. set_solver.
  - case_bool_decide.
    + constructor; [set_solver|done].
    + destruct (split_on c s) as [|t ts]; simpl.
      * repeat constructor. set_solver.
      * apply Forall_cons in IH as [??]. constructor; [set_solver|done].
Qed.

Lemma elem_of_join c x l :
  x ∈ join c l → x = c ∨ ∃ t, t ∈ l ∧ x ∈ t.
Proof.
  induction l as [|t [|t' l] IH]; [set_solver..|].
  rewrite join_cons by done. rewrite elem_of_app, elem_of_cons. naive_solver set_solver.
Qed.

(** The length of a joined string depends only on the tokens' total length
    and their number. *)
Lemma length_join c l :
  length (join c l) = sum_list_with length l + (length l - 1).
Proof.
  induction l as [|t [|t' l] IH]; [done|simpl; lia|].
  rewrite join_cons by done. rewrite length_app. simpl in *. lia.
Qed.

Lemma join_app c l1 l2 :
  l1 ≠ [] → l2 ≠ [] → join c (l1 ++ l2) = join c l1 ++ c :: join c l2.
Proof.
  intros H1 H2. induction l1 as [|t [|t' l1] IH]; [done|..].
  - simpl. by destruct l2.
  - rewrite <-app_comm_cons, !join_cons by done. rewrite IH by done.
    by rewrite <-app_assoc.
Qed.

Lemma join_nil_inv c l : Forall (λ t, t ≠ []) l → join c l = [] → l = [].
Proof.
  destruct l as [|t [|t' l]]; [done|..]; intros [Ht _]%Forall_cons.
  - done.
  - rewrite join_cons by done. by intros [_ ?]%app_eq_nil.
Qed.

Lemma join_inj c l1 l2 :
  l1 ≠ [] → l2 ≠ [] → Forall (λ t, c ∉ t) l1 → Forall (λ t, c ∉ t) l2 →
  join c l1 = join c l2 → l1 = l2.
Proof.
  intros ?? H1 H2 E. rewrite <-(split_join c l1), <-(split_join c l2) by done.
  by rewrite E.
Qed.
End join_split.

(** ** Further list lemmas *)

Lemma list_filter_ext_in {A} (P Q : A → Prop) `{!∀ x, Decision (P x), !∀ x, Decision (Q x)} (l : list A) :
  (∀ x, x ∈ l → P x ↔ Q x) → filter P l = filter Q l.
Proof.
  induction l as [|a l IH]; intros HPQ; [done|]. rewrite !filter_cons.
  rewrite IH by set_solver. assert (P a ↔ Q a) by set_solver.
  repeat case_decide; tauto || done.
Qed.

Lemma Forall_filter {A} (P Q : A → Prop) `{!∀ x, Decision (Q x)} (l : list A) :
  Forall P l → Forall P (filter Q l).
Proof.
  rewrite !Forall_forall. intros HP x [_ Hx]%list_elem_of_filter. by apply HP.
Qed.

Lemma elem_of_concat {A} (x : A) (ls : list (list A)) :
  x ∈ concat ls ↔ ∃ l, l ∈ ls ∧ x ∈ l.
Proof.
  induction ls as [|l ls IH]; simpl; [set_solver|].
  rewrite elem_of_app, IH. set_solver.
Qed.

Lemma NoDup_concat_class {A} (ls : list (list A)) l : NoDup (concat ls) → l ∈ ls → NoDup l.
Proof.
  intros Hnd (l1 & l2 & ->)%list_elem_of_split. rewrite concat_app in Hnd.
  by apply NoDup_app in Hnd as (_ & _ & (? & _ & _)%NoDup_app).
Qed.

Lemma NoDup_concat_fmap {A B} (f : A → list B) (l : list A) :
  NoDup l → (∀ x, x ∈ l → NoDup (f x)) →
  (∀ x y z, x ∈ l → y ∈ l → z ∈ f x → z ∈ f y → x = y) → NoDup (concat (f <$> l)).
Proof.
  induction 1 as [|a l Ha Hl IH]; intros Hf Hdis; simpl; [constructor|].
  apply NoDup_app. split_and!.
  - apply Hf. set_solver.
  - intros z Hz (c & (b & -> & Hb)%list_elem_of_fmap & Hzc)%elem_of_concat.
    assert (a = b) as -> by (apply (Hdis a b z); set_solver). done.
  - apply IH; intros; [apply Hf; set_solver|]. eapply Hdis; set_solver.
Qed.

Lemma concat_snoc_sep c (l : list bytes) :
  l ≠ [] → concat ((λ t, t ++ [c]) <$> l) = join c l ++ [c].
Proof.
  induction l as [|t [|t' l] IH]; [done|..]; intros _.
  - simpl. by rewrite app_nil_r.
  - rewrite fmap_cons. cbn [concat]. rewrite IH by done. rewrite (join_cons c t) by done.
    by rewrite <-!app_assoc.
Qed.

Lemma concat_sep_last c (l : list bytes) t :
  concat ((λ t, t ++ [c]) <$> l) ++ t = join c (l ++ [t]).
Proof.
  destruct l as [|t' l]; [done|]. rewrite concat_snoc_sep by done.
  rewrite (join_app c (t' :: l) [t]) by done. by rewrite <-app_assoc.
Qed.
