(* ===== verification/Sds.v ===== *)
(** * Sds: byte strings and the string primitives the program is written with

    The content level of [src/src/sds.c]: an [sds] is its binary-safe content, a
    [bytes] (the header that stores its length and capacity is [SdsHdr.v], which
    proves that the header-level operations have the content behaviour written
    here).  C strings are read through [cstr]: the bytes before the first NUL.

    The libc functions the sources use on strings ([strlen], [strcmp],
    [strchr], [strstr], [memcmp]) are the definitions at the top. *)
From Stdlib Require Import Ascii.
From S2P Require Import Prelude.

(** ** libc *)

(** The C string stored at the start of a NUL-terminated buffer. *)
Fixpoint cstr (s : bytes) : bytes :=
  match s with
  | [] => []
  | c :: s' => if bool_decide (c = NUL) then [] else c :: cstr s'
  end.

Definition strlen (s : bytes) : nat := length (cstr s).

(** [!strcmp(a,b)] *)
Definition streq (a b : bytes) : bool := bool_decide (cstr a = cstr b).

(** [strchr(s,c) != NULL] for a [c] other than NUL. *)
Definition strchr (s : bytes) (c : ascii) : bool := bool_decide (c ∈ cstr s).

Fixpoint is_prefix (p s : bytes) : bool :=
  match p, s with
  | [], _ => true
  | _ :: _, [] => false
  | a :: p', b :: s' => bool_decide (a = b) && is_prefix p' s'
  end.

Fixpoint occurs_in (n h : bytes) : bool :=
  is_prefix n h || match h with [] => false | _ :: h' => occurs_in n h' end.

(** [strstr(h,n) != NULL] *)
Definition strstr (h n : bytes) : bool := occurs_in (cstr n) (cstr h).

(** [memcmp] on the first bytes of two objects, as unsigned bytes. *)
Fixpoint memcmp (a b : bytes) : comparison :=
  match a, b with
  | x :: a', y :: b' =>
    match N.compare (N_of_ascii x) (N_of_ascii y) with
    | Eq => memcmp a' b'
    | r => r
    end
  | _, _ => Eq
  end.

(** Reading byte [i] of a buffer that holds [s] and its terminator: reading the
    terminator is defined, reading past it is not. *)
Definition rd (s : bytes) (i : nat) : out ascii :=
  match s !! i with
  | Some c => Ret c
  | None => if bool_decide (i = length s) then Ret NUL else Fail OutOfBounds
  end.

#[global] Arguments rd : simpl never.

(** ** sds.c, content level *)

Definition sdsnewlen (init : bytes) (initlen : nat) : bytes := take initlen init.

Definition sdsempty : bytes := [].

Definition sdsnew (init : bytes) : bytes := sdsnewlen init (strlen init).

Definition sdsdup (s : bytes) : bytes := sdsnewlen s (length s).

Definition sdsclear (s : bytes) : bytes := [].

(** [sdsgrowzero]: zero bytes up to the requested length, never shorter. *)
Definition sdsgrowzero (s : bytes) (len : nat) : bytes :=
  if bool_decide (len ≤ length s) then s
  else s ++ replicate (len - length s) NUL.

Definition sdscatlen (s t : bytes) (len : nat) : bytes := s ++ take len t.

Definition sdscat (s t : bytes) : bytes := sdscatlen s t (strlen t).

Definition sdscatsds (s t : bytes) : bytes := sdscatlen s t (length t).

Definition sdscpylen (s t : bytes) (len : nat) : bytes := take len t.

Definition sdscpy (s t : bytes) : bytes := sdscpylen s t (strlen t).

(** [strchr(cset,c)] as [sdstrim] calls it: [strchr] also finds the terminator
    of [cset], so a NUL byte of the string is trimmed too. *)
Definition in_cset (cset : bytes) (c : ascii) : bool :=
  bool_decide (c ∈ cstr cset) || bool_decide (c = NUL).

(** [while (sp <= end && strchr(cset,*sp)) sp++] *)
Fixpoint trim_left (cset s : bytes) : bytes :=
  match s with
  | [] => []
  | c :: s' => if in_cset cset c then trim_left cset s' else s
  end.

Definition sdstrim (s cset : bytes) : bytes :=
  reverse (trim_left cset (reverse (trim_left cset s))).

(** [sdsrange]: [start] and [end] are signed, negative values count from the
    end of the string. *)
Definition sdsrange (s : bytes) (start end_ : Z) : bytes :=
  let len := Z.of_nat (length s) in
  if bool_decide (len = 0)%Z then s else
  let start := if bool_decide (start < 0)%Z then Z.max 0 (len + start) else start in
  let end_ := if bool_decide (end_ < 0)%Z then Z.max 0 (len + end_) else end_ in
  let newlen := if bool_decide (start > end_)%Z then 0%Z else (end_ - start + 1)%Z in
  if bool_decide (newlen ≠ 0)%Z then
    if bool_decide (start >= len)%Z then []
    else
      let end_' := if bool_decide (end_ >= len)%Z then (len - 1)%Z else end_ in
      let newlen := if bool_decide (end_ >= len)%Z
                    then (if bool_decide (start > end_')%Z then 0%Z
                          else (end_' - start + 1)%Z)
                    else newlen in
      take (Z.to_nat newlen) (drop (Z.to_nat start) s)
  else [].

(** [sdscmp]: -1, 0 or 1; ties on the common prefix go to the longer string. *)
Definition sdscmp (s1 s2 : bytes) : Z :=
  match memcmp s1 s2 with
  | Eq => if bool_decide (length s2 < length s1) then 1%Z
          else if bool_decide (length s1 < length s2) then (-1)%Z else 0%Z
  | Lt => (-1)%Z
  | Gt => 1%Z
  end.

Definition slice (s : bytes) (start n : nat) : bytes := take n (drop start s).

(** The main loop of [sdssplitlen]; [s] is the buffer with its terminator. *)
Fixpoint split_loop (fuel : nat) (s : bytes) (len : nat) (sep : bytes) (seplen : nat)
    (start j : nat) (tokens : list bytes) : out (list bytes) :=
  match fuel with
  | 0 => Fail OutOfFuel
  | S fuel' =>
    if bool_decide (j + seplen ≤ len) then
      if bool_decide (slice s j seplen = take seplen sep) then
        split_loop fuel' s len sep seplen (j + seplen) (j + seplen)
          (tokens ++ [sdsnewlen (drop start s) (j - start)])
      else split_loop fuel' s len sep seplen start (j + 1) tokens
    else Ret (tokens ++ [sdsnewlen (drop start s) (len - start)])
  end.

(** [sdssplitlen(s,len,sep,seplen,&count)]: [None] is the NULL result; the count
    is the length of the list.  A [len] beyond the terminator reads past the
    buffer.  [S len] iterations are enough: [j] grows by at least one in each. *)
Definition sdssplitlen (s : bytes) (len : Z) (sep : bytes) (seplen : Z)
    : out (option (list bytes)) :=
  if bool_decide (seplen < 1 ∨ len < 0)%Z then Ret None
  else if bool_decide (len = 0)%Z then Ret (Some [])
  else if bool_decide (Z.of_nat (length s) + 1 < len)%Z then Fail OutOfBounds
  else tokens ← split_loop (S (Z.to_nat len)) (s ++ [NUL]) (Z.to_nat len) sep
                  (Z.to_nat seplen) 0 0 [];
       Ret (Some tokens).

(** [sdsjoinsds] and [sdsjoin]: the separator goes between, not after. *)
Fixpoint sdsjoinsds_loop (acc : bytes) (argv : list bytes) (sep : bytes) (seplen : nat)
    : bytes :=
  match argv with
  | [] => acc
  | a :: rest =>
    let acc := sdscatsds acc a in
    let acc := match rest with [] => acc | _ => sdscatlen acc sep seplen end in
    sdsjoinsds_loop acc rest sep seplen
  end.

Definition sdsjoinsds (argv : list bytes) (sep : bytes) (seplen : nat) : bytes :=
  sdsjoinsds_loop sdsempty argv sep seplen.

Fixpoint sdsjoin_loop (acc : bytes) (argv : list bytes) (sep : bytes) : bytes :=
  match argv with
  | [] => acc
  | a :: rest =>
    let acc := sdscat acc a in
    let acc := match rest with [] => acc | _ => sdscat acc sep end in
    sdsjoin_loop acc rest sep
  end.

Definition sdsjoin (argv : list bytes) (sep : bytes) : bytes :=
  sdsjoin_loop sdsempty argv sep.

(** ** Properties of the primitives *)

(** Strings without an embedded NUL: what the sources call C strings. *)
Definition nul_free (s : bytes) : Prop := NUL ∉ s.

Lemma cstr_nul_free s : nul_free (cstr s).
Proof.
  unfold nul_free. induction s as [|c s IH]; simpl; [set_solver|].
  case_bool_decide; set_solver.
Qed.

Lemma cstr_id s : nul_free s → cstr s = s.
Proof.
  unfold nul_free. induction s as [|c s IH]; simpl; [done|].
  intros [??]%not_elem_of_cons. rewrite bool_decide_eq_false_2 by congruence.
  by rewrite IH.
Qed.

Lemma nul_free_app s t : nul_free (s ++ t) ↔ nul_free s ∧ nul_free t.
Proof. unfold nul_free. set_solver. Qed.

Lemma nul_free_cons c s : nul_free (c :: s) ↔ c ≠ NUL ∧ nul_free s.
Proof. unfold nul_free. set_solver. Qed.

Lemma nul_free_nil : nul_free [].
Proof. unfold nul_free. set_solver. Qed.

Lemma nul_free_join c l :
  c ≠ NUL → Forall nul_free l → nul_free (join c l).
Proof.
  intros Hc Hl Hin. apply elem_of_join in Hin as [E|(t & Ht & Hin)]; [by destruct Hc|].
  rewrite Forall_forall in Hl. by apply (Hl t).
Qed.

Lemma nul_free_elem s t l : nul_free s → s = join COMMA l → t ∈ l → nul_free t.
Proof.
  intros Hs -> Ht Hin. apply Hs. clear Hs.
  induction l as [|u [|u' l] IH]; [set_solver|set_solver|].
  rewrite join_cons by done. apply elem_of_cons in Ht as [->|Ht]; [set_solver|].
  apply elem_of_app. right. apply elem_of_cons. right. by apply IH.
Qed.

Lemma streq_sym a b : streq a b = true → streq b a = true.
Proof. unfold streq. rewrite !bool_decide_eq_true. congruence. Qed.

Lemma streq_iff a b : nul_free a → nul_free b → streq a b = true ↔ a = b.
Proof.
  intros Ha Hb. unfold streq. rewrite !cstr_id by done. by rewrite bool_decide_eq_true.
Qed.

Lemma streq_neq a b : nul_free a → nul_free b → a ≠ b → streq a b = false.
Proof. intros Ha Hb Hne. apply not_true_iff_false. by rewrite streq_iff. Qed.

Lemma streq_refl a : streq a a = true.
Proof. unfold streq. by apply bool_decide_eq_true. Qed.

Lemma strchr_nul_free s c : nul_free s → strchr s c = bool_decide (c ∈ s).
Proof. intros. unfold strchr. by rewrite cstr_id. Qed.

Lemma strlen_nul_free s : nul_free s → strlen s = length s.
Proof. intros. unfold strlen. by rewrite cstr_id. Qed.

Lemma take_length_id {A} (l : list A) : take (length l) l = l.
Proof. by rewrite take_ge. Qed.

Lemma sdscat_nul_free s t : nul_free t → sdscat s t = s ++ t.
Proof.
  intros. unfold sdscat, sdscatlen. by rewrite strlen_nul_free, take_length_id.
Qed.

Lemma sdsnew_nul_free s : nul_free s → sdsnew s = s.
Proof. intros. unfold sdsnew, sdsnewlen. by rewrite strlen_nul_free, take_length_id. Qed.

Lemma memcmp_refl s : memcmp s s = Eq.
Proof. induction s as [|c s IH]; simpl; [done|]. by rewrite N.compare_refl. Qed.

Lemma memcmp_eq a b : length a = length b → memcmp a b = Eq → a = b.
Proof.
  revert b. induction a as [|x a IH]; intros [|y b]; simpl; try done.
  intros [= Hlen]. destruct (N.compare _ _) eqn:E; [|done..].
  apply N.compare_eq in E. intros H. f_equal; [|by apply IH].
  rewrite <-(ascii_N_embedding x), <-(ascii_N_embedding y). by rewrite E.
Qed.

(** [sdscmp] decides equality of binary strings. *)
Lemma sdscmp_zero s1 s2 : sdscmp s1 s2 = 0%Z ↔ s1 = s2.
Proof.
  unfold sdscmp. split.
  - destruct (memcmp s1 s2) eqn:E; [|done..].
    repeat case_bool_decide; try done. intros _. apply memcmp_eq; [lia|done].
  - intros ->. rewrite memcmp_refl. repeat case_bool_decide; (done || lia).
Qed.

Lemma rd_lt s i c : s !! i = Some c → rd s i = Ret c.
Proof. intros H. unfold rd. by rewrite H. Qed.

Lemma rd_end s : rd s (length s) = Ret NUL.
Proof.
  unfold rd. rewrite lookup_ge_None_2 by lia. by rewrite bool_decide_eq_true_2.
Qed.

Lemma rd_nil : rd [] 0 = Ret NUL.
Proof. reflexivity. Qed.

Lemma rd_cons_0 c s : rd (c :: s) 0 = Ret c.
Proof. reflexivity. Qed.

Lemma rd_app_r s t i : rd (s ++ t) (length s + i) = rd t i.
Proof.
  unfold rd. rewrite lookup_app_r by lia.
  replace (length s + i - length s) with i by lia.
  destruct (t !! i); [done|]. rewrite length_app.
  by rewrite (bool_decide_ext (length s + i = length s + length t) (i = length t)) by lia.
Qed.

Lemma rd_app_r0 s t : rd (s ++ t) (length s) = rd t 0.
Proof. rewrite <-(rd_app_r s t 0). f_equal. lia. Qed.

Lemma rd_app_l s t i : i < length s → rd (s ++ t) i = rd s i.
Proof.
  intros Hi. unfold rd. rewrite lookup_app_l by done.
  destruct (lookup_lt_is_Some_2 s i Hi) as [c Hc]. by rewrite Hc.
Qed.

Lemma rd_is_ret s i : i ≤ length s → ∃ c, rd s i = Ret c.
Proof.
  intros Hi. destruct (decide (i = length s)) as [->|].
  - exists NUL. apply rd_end.
  - destruct (lookup_lt_is_Some_2 s i) as [c Hc]; [lia|]. exists c. by apply rd_lt.
Qed.

Lemma rd_oob s i : length s < i → rd s i = Fail OutOfBounds.
Proof.
  intros Hi. unfold rd. rewrite lookup_ge_None_2 by lia.
  rewrite bool_decide_eq_false_2 by lia. done.
Qed.

Lemma rd_nonnul s i c : nul_free s → rd s i = Ret c → c ≠ NUL → s !! i = Some c.
Proof.
  unfold rd. destruct (s !! i) eqn:E; [congruence|].
  case_bool_decide; congruence.
Qed.

Lemma rd_nul_free s i : nul_free s → rd s i = Ret NUL → i = length s.
Proof.
  intros Hs. unfold rd. destruct (s !! i) as [c|] eqn:E.
  - intros [= ->]. destruct Hs. by eapply list_elem_of_lookup_2.
  - case_bool_decide; congruence.
Qed.

Section splitting.
Implicit Types (s : bytes) (c : ascii).

Lemma slice_split s start j len a :
  start ≤ j → j < len → s !! j = Some a →
  slice s start (len - start) =
    slice s start (j - start) ++ a :: slice s (S j) (len - S j).
Proof.
  intros Hsj Hjl Ha. unfold slice.
  replace (len - start) with ((j - start) + S (len - S j)) by lia.
  rewrite <-take_take_drop, drop_drop.
  replace (start + (j - start)) with j by lia.
  by rewrite (drop_S s a j Ha), firstn_cons.
Qed.

Lemma slice_snoc s start j a :
  start ≤ j → s !! j = Some a →
  slice s start (S j - start) = slice s start (j - start) ++ [a].
Proof.
  intros Hsj Ha. rewrite (slice_split s start j (S j) a) by (done || lia).
  do 2 f_equal. unfold slice. by rewrite Nat.sub_diag.
Qed.

Lemma slice_one s j a : s !! j = Some a → slice s j 1 = [a].
Proof. intros Ha. unfold slice. rewrite (drop_S s a j Ha). done. Qed.

Lemma split_loop_spec fuel s len c start j tokens :
  start ≤ j → j ≤ len → len ≤ length s → len - j < fuel →
  c ∉ slice s start (j - start) →
  split_loop fuel s len [c] 1 start j tokens =
    Ret (tokens ++ split_on c (slice s start (len - start))).
Proof.
  revert start j tokens. induction fuel as [|fuel IH]; intros start j tokens;
    [lia|]. intros Hsj Hjl Hls Hf Hfree. cbn [split_loop].
  case_bool_decide as Hcond.
  - destruct (lookup_lt_is_Some_2 s j) as [a Ha]; [lia|].
    rewrite (slice_one s j a Ha). case_bool_decide as Heq.
    + simpl in Heq. simplify_eq.
      rewrite IH by (try lia; rewrite Nat.sub_diag; apply not_elem_of_nil).
      rewrite (slice_split s start j len c), split_on_app by (done || lia).
      rewrite <-app_assoc, Nat.add_1_r. done.
    + simpl in Heq. rewrite Nat.add_1_r. rewrite IH; try lia; [done|].
      rewrite (slice_snoc s start j a) by done. set_solver.
  - assert (j = len) as -> by lia. by rewrite split_on_free.
Qed.
End splitting.

(** [sdssplitlen(s,sdslen(s),c,1,&n)] cuts a non-empty string at every [c]. *)
Lemma sdssplitlen_spec s c :
  s ≠ [] →
  sdssplitlen s (Z.of_nat (length s)) [c] 1 = Ret (Some (split_on c s)).
Proof.
  intros Hs. assert (0 < length s) by (destruct s; simpl in *; [done|lia]).
  unfold sdssplitlen. do 3 (rewrite bool_decide_eq_false_2 by lia).
  change (Z.to_nat 1) with 1. rewrite Nat2Z.id.
  rewrite split_loop_spec; rewrite ?length_app; simpl; try lia;
    [|by apply not_elem_of_nil].
  unfold slice. rewrite drop_0, Nat.sub_0_r. by rewrite take_app_length.
Qed.

Lemma sdssplitlen_empty c : sdssplitlen [] 0 [c] 1 = Ret (Some []).
Proof. reflexivity. Qed.

(** A length beyond the terminator is an out-of-bounds read. *)
Lemma sdssplitlen_oob s len c :
  (Z.of_nat (length s) + 1 < len)%Z → sdssplitlen s len [c] 1 = Fail OutOfBounds.
Proof.
  intros. unfold sdssplitlen.
  do 2 (rewrite bool_decide_eq_false_2 by lia).
  by rewrite bool_decide_eq_true_2.
Qed.

(** [sdsrange(s,0,sdslen(s)-2)] drops the last byte of a string of two bytes or
    more, and keeps a one-byte string: the [size_t] difference becomes -1. *)
Lemma sdsrange_chop s :
  2 ≤ length s → sdsrange s 0 (Z.of_nat (length s) - 2) = take (length s - 1) s.
Proof.
  intros Hs. unfold sdsrange. repeat (case_bool_decide; try lia).
  change (Z.to_nat 0) with 0. rewrite drop_0. f_equal. lia.
Qed.

Lemma sdsrange_chop_one a : sdsrange [a] 0 (Z.of_nat (length [a]) - 2) = [a].
Proof. reflexivity. Qed.

Lemma trim_left_id cset s :
  (∀ c, head s = Some c → in_cset cset c = false) → trim_left cset s = s.
Proof. destruct s as [|c s]; [done|]. intros H. simpl. by rewrite H. Qed.

(** Trimming a string that ends in one separator, as [updateVerticeUfs] does
    for a vertex with no neighbours. *)
Lemma sdstrim_trailing t c :
  t ≠ [] → nul_free t → c ∉ t → c ≠ NUL → sdstrim (t ++ [c]) [c] = t.
Proof.
  intros Hne Hnf Hc Hn.
  assert (∀ a, a ∈ t → in_cset [c] a = false) as Hkeep.
  { intros a Ha. unfold in_cset. rewrite (cstr_id [c]) by (unfold nul_free; set_solver).
    rewrite !bool_decide_eq_false_2; [done| |]; intros ?; subst; set_solver. }
  unfold sdstrim. destruct t as [|a t]; [done|].
  rewrite (trim_left_id [c] ((a :: t) ++ [c])).
  2:{ intros b [= <-]. apply Hkeep. set_solver. }
  rewrite reverse_snoc. simpl.
  assert (in_cset [c] c = true) as ->.
  { unfold in_cset. rewrite (cstr_id [c]) by (unfold nul_free; set_solver).
    rewrite bool_decide_eq_true_2 by set_solver. done. }
  rewrite trim_left_id; [by rewrite reverse_involutive|].
  intros b Hb. apply Hkeep. apply elem_of_reverse.
  destruct (reverse (a :: t)); simpl in *; [done|]. simplify_eq. set_solver.
Qed.

Lemma is_prefix_app p s : is_prefix p (p ++ s) = true.
Proof. induction p as [|a p IH]; simpl; [done|]. by rewrite bool_decide_eq_true_2. Qed.

(** [strstr] finds a string that is there. *)
Lemma strstr_infix a t b : nul_free (a ++ t ++ b) → strstr (a ++ t ++ b) t = true.
Proof.
  intros Hnf. unfold strstr.
  assert (nul_free t) by (unfold nul_free in *; set_solver).
  rewrite !cstr_id by done. clear. induction a as [|c a IH]; simpl.
  - pose proof (is_prefix_app t b) as E. destruct (t ++ b); simpl; by rewrite E.
  - rewrite IH. by destruct (is_prefix _ _).
Qed.
