(* ===== verification/Partition.v ===== *)
(** * Partition: the abstract union-find-split object

    What a client of UfsRedis sees: a set of named elements cut into
    equivalence classes, [union] merges the classes of two elements and
    [split] takes a group of elements out of their class.  The object is the
    relation "in the same class" on names (a partial equivalence relation: an
    unknown name is related to nothing).  The adjacency-list graph of ufs.c and
    the texts exchanged between the replicas both implement it. *)
From S2P Require Import Prelude.

(** A relation on element names; two are equivalent when they relate the same. *)
Definition prel : Type := bytes → bytes → Prop.

#[global] Instance prel_equiv : Equiv prel := λ R S, ∀ x y, R x y ↔ S x y.

#[global] Instance prel_equivalence : Equivalence (≡@{prel}).
Proof.
  split.
  - by intros R x y.
  - intros R S H x y. specialize (H x y). tauto.
  - intros R S T H1 H2 x y. specialize (H1 x y). specialize (H2 x y). tauto.
Qed.

(** Partial equivalence relations. *)
Record per (R : prel) : Prop := {
  per_sym : ∀ x y, R x y → R y x;
  per_trans : ∀ x y z, R x y → R y z → R x z;
}.

(** Merge the classes of [a] and [b]; no effect when either is unknown. *)
Definition urel (R : prel) (a b : bytes) : prel := λ x y,
  R x y ∨ (R x a ∧ R b y) ∨ (R x b ∧ R a y).

(** Take the elements of [L] out of their classes. *)
Definition srel (R : prel) (L : list bytes) : prel := λ x y,
  R x y ∧ (x ∈ L ↔ y ∈ L).

(** Operations; [None] is the argument "*", which stands for no element. *)
Inductive aop :=
  | AUnion (a b : option bytes)
  | ASplit (L : list bytes).

Definition aapply (o : aop) (R : prel) : prel :=
  match o with
  | AUnion (Some a) (Some b) => urel R a b
  | AUnion _ _ => R
  | ASplit L => srel R L
  end.

(** [shifted R L a a']: what the representative [a] of a union becomes when the
    group [L] has been split off first: an element of the same class outside
    [L], or nothing when the class has no such element. *)
Definition shifted (R : prel) (L : list bytes) (a : option bytes) (a' : option bytes) : Prop :=
  match a, a' with
  | None, _ => a' = None
  | Some a, Some r => R a r ∧ r ∉ L
  | Some a, None => ∀ r, R a r → r ∈ L
  end.

#[global] Instance urel_proper : Proper ((≡) ==> (=) ==> (=) ==> (≡)) urel.
Proof.
  intros R S H a ? <- b ? <- x y. unfold urel.
  pose proof (H x y). pose proof (H x a). pose proof (H x b).
  pose proof (H a y). pose proof (H b y). tauto.
Qed.

#[global] Instance srel_proper : Proper ((≡) ==> (=) ==> (≡)) srel.
Proof. intros R S H L ? <- x y. unfold srel. pose proof (H x y). tauto. Qed.

#[global] Instance aapply_proper o : Proper ((≡) ==> (≡)) (aapply o).
Proof.
  intros R S H. destruct o as [[a|] [b|]|L]; simpl; try done.
  - by rewrite H.
  - by rewrite H.
Qed.

#[global] Instance per_proper : Proper ((≡) ==> iff) per.
Proof.
  assert (∀ R S : prel, R ≡ S → per R → per S) as Himp.
  { intros R S H [Hs Ht]. split.
    - intros x y. rewrite <-(H x y), <-(H y x). apply Hs.
    - intros x y z. rewrite <-(H x y), <-(H y z), <-(H x z). apply Ht. }
  intros R S H. split; apply Himp; [done|by symmetry].
Qed.

(** Union and split keep an equivalence an equivalence. *)
Lemma urel_per R a b : per R → per (urel R a b).
Proof.
  intros [Hs Ht]. split; unfold urel.
  - naive_solver eauto.
  - intros x y z [?|[[??]|[??]]] [?|[[??]|[??]]]; naive_solver eauto.
Qed.

Lemma srel_per R L : per R → per (srel R L).
Proof. intros [Hs Ht]. split; unfold srel; naive_solver eauto. Qed.

Lemma aapply_per o R : per R → per (aapply o R).
Proof. destruct o as [[a|] [b|]|L]; simpl; auto using urel_per, srel_per. Qed.

Lemma urel_dom R a b x y : per R → urel R a b x y → R x x ∧ R y y.
Proof.
  intros [Hs Ht]. unfold urel. intros [?|[[??]|[??]]]; split; eauto.
Qed.

(** A union makes one class of everything related to either argument. *)
Lemma urel_alt R a b x y :
  per R → urel R a b x y ↔ R x y ∨ ((R x a ∨ R x b) ∧ (R y a ∨ R y b)).
Proof.
  intros [Hs Ht]. unfold urel. split.
  - intros [?|[[??]|[??]]]; auto 6.
  - intros [?|[[?|?] [?|?]]]; eauto 8.
Qed.

(** Unions commute. *)
Lemma urel_comm R a b c d :
  per R → urel (urel R a b) c d ≡ urel (urel R c d) a b.
Proof.
  intros HR.
  assert (∀ a b c d x y, urel (urel R a b) c d x y → urel (urel R c d) a b x y) as H.
  2:{ intros x y. split; apply H. }
  clear a b c d. intros a b c d x y.
  pose proof (urel_per _ a b (urel_per _ c d HR)) as [Hs2 Ht2].
  assert (∀ x y, urel R a b x y → urel (urel R c d) a b x y) as Hab
    by (unfold urel; naive_solver).
  assert (∀ x y, urel R a b x c → urel R a b d y → urel (urel R c d) a b c d) as Hcd.
  { intros u v [_ ?]%(urel_dom _ _ _ _ _ HR) [? _]%(urel_dom _ _ _ _ _ HR).
    unfold urel. naive_solver. }
  intros [H|[[H1 H2]|[H1 H2]]]; [by apply Hab|..].
  - eapply Ht2; [by apply Hab|]. eapply Ht2; [by eapply Hcd|by apply Hab].
  - eapply Ht2; [by apply Hab|]. eapply Ht2; [|by apply Hab].
    apply Hs2. pose proof (urel_per _ a b HR) as [Hs ?]. eapply Hcd; by apply Hs.
Qed.

(** Splits commute. *)
Lemma srel_comm R L M : srel (srel R L) M ≡ srel (srel R M) L.
Proof. intros x y. unfold srel. tauto. Qed.

(** The transformation of a union against a split is correct: splitting off [L]
    after the union is the same as splitting it off first and then executing
    the shifted union.  [L] is a group inside one class, as the program checks. *)
Lemma union_split_commute R a b L a' b' :
  per R → (∀ x y, x ∈ L → y ∈ L → R x y) →
  shifted R L (Some a) a' → shifted R L (Some b) b' →
  srel (urel R a b) L ≡ aapply (AUnion a' b') (srel R L).
Proof.
  intros [Hs Ht] HL Ha Hb x y. simpl in Ha, Hb.
  assert (x ∈ L ∨ x ∉ L) as Hx by (destruct (decide (x ∈ L)); auto).
  destruct a' as [r|], b' as [s|]; simpl; unfold srel, urel;
    [|split; [intros [[?|[[??]|[??]]] HxL]; [tauto|..]|tauto]..].
  - destruct Ha as [Har Hr], Hb as [Hbs Hsl]. split.
    + intros [[?|[[??]|[??]]] HxL]; [tauto|..]; destruct Hx.
      * left. split; [apply HL; tauto|done].
      * right; left. split; (split; [eauto|tauto]).
      * left. split; [apply HL; tauto|done].
      * right; right. split; (split; [eauto|tauto]).
    + intros [?|[[[??][??]]|[[??][??]]]]; [tauto|..]; (split; [|tauto]).
      * right; left. split; eauto.
      * right; right. split; eauto.
  - assert (y ∈ L) by eauto. split; [apply HL; tauto|done].
  - assert (x ∈ L) by eauto. split; [apply HL; tauto|done].
  - assert (x ∈ L) by eauto. split; [apply HL; tauto|done].
  - assert (y ∈ L) by eauto. split; [apply HL; tauto|done].
  - assert (x ∈ L) by eauto. split; [apply HL; tauto|done].
  - assert (x ∈ L) by eauto. split; [apply HL; tauto|done].
Qed.

(** A union with an argument "*" has no effect, before or after a split. *)
Lemma union_none_split R a b L a' b' :
  a = None ∨ b = None → shifted R L a a' → shifted R L b b' →
  srel (aapply (AUnion a b) R) L ≡ aapply (AUnion a' b') (srel R L).
Proof.
  intros [-> | ->] Ha Hb; simpl in *; subst; [done|].
  by destruct a as [a|], a' as [a'|].
Qed.
