(* ===== verification/OtStr.v ===== *)
(** * OtStr: the string routines of src/src/ot.c

    States of the replicated object travel as text: equivalence classes
    separated by '/', the elements of a class separated by ','.  ot.c searches
    and edits these texts byte by byte.  Each routine is translated with its
    loops: a C string is the [bytes] before its terminator, [rd] reads one byte
    and faults past the terminator, a loop takes fuel that is shown sufficient.
    The second half of the file proves what the routines compute on a rendered
    list of tokens. *)
From Stdlib Require Import Ascii.
From S2P Require Import Prelude Sds.

Definition ceq (a b : ascii) : bool := bool_decide (a = b).
#[global] Arguments ceq : simpl never.

(** Split an [sds] or C string on one byte; the sources always pass a valid
    length, so the NULL result is dereferenced where it would be used. *)
Definition split1 (s : bytes) (len : nat) (c : ascii) : out (list bytes) :=
  r ← sdssplitlen s (Z.of_nat len) [c] 1;
  match r with Some tokens => Ret tokens | None => Fail NullDeref end.

(** ** sdsDel *)

(** [for (k = i; k < len-1; k++) { sdsclear(a[k]); a[k] = sdscat(a[k],a[k+1]); }]
    followed by [len--]. *)
Definition shift_out (l : list bytes) (i : nat) : list bytes :=
  take i l ++ (cstr <$> drop (S i) l).

(** The inner loop: the first [j] with [!sdscmp(elements[i],del[j])]. *)
Fixpoint index_of (e : bytes) (del : list bytes) (j : nat) : option nat :=
  match del with
  | [] => None
  | d :: del' => if bool_decide (sdscmp e d = 0%Z) then Some j else index_of e del' (S j)
  end.

(** The two nested loops over [elements] and [del]; a match removes both and
    tests the same position again. *)
Fixpoint del_loop (fuel : nat) (elements del : list bytes) (i : nat) : out (list bytes) :=
  match fuel with
  | 0 => Fail OutOfFuel
  | S fuel' =>
    match elements !! i with
    | None => Ret elements
    | Some e =>
      match index_of e del 0 with
      | Some j => del_loop fuel' (shift_out elements i) (shift_out del j) i
      | None => del_loop fuel' elements del (S i)
      end
    end
  end.

(** Rebuilding the text, a comma after each element but the last. *)
Fixpoint cat_elements (acc : bytes) (l : list bytes) : bytes :=
  match l with
  | [] => acc
  | e :: rest =>
    let acc := if bool_decide (length e ≠ 0) then sdscat acc e else acc in
    let acc := match rest with [] => acc | _ => sdscat acc (str ",") end in
    cat_elements acc rest
  end.

Definition sdsDel (list t : bytes) : out bytes :=
  elements ← split1 list (length list) COMMA;
  del ← split1 t (strlen t) COMMA;
  elements ← del_loop (S (length elements)) elements del 0;
  Ret (cat_elements sdsempty elements).

(** As [sdsDel], but only the first non-empty remaining element is kept. *)
Fixpoint first_nonempty (l : list bytes) : bytes :=
  match l with
  | [] => sdsempty
  | e :: rest => if bool_decide (length e ≠ 0) then sdscat sdsempty e
                 else first_nonempty rest
  end.

Definition firstOfsdsDel (list t : bytes) : out bytes :=
  elements ← split1 list (length list) COMMA;
  del ← split1 t (strlen t) COMMA;
  elements ← del_loop (S (length elements)) elements del 0;
  Ret (first_nonempty elements).

(** ** find, findstr *)

(** [find(list,v,len)]: is [v] one of the tokens? *)
Definition find (list : list bytes) (v : bytes) : bool :=
  existsb (streq v) list.

(** Copying the first element of [v] into the local [char r[10] = {0}]; the
    buffer is its ten bytes, zero-initialised. *)
Definition first_elem (v : bytes) : bytes := hd [] (split_on COMMA (cstr v)).

Definition copy_first10 (v : bytes) : out bytes :=
  let r := first_elem v in
  if bool_decide (length r < 10) then Ret (r ++ replicate (9 - length r) NUL)
  else Fail BufferOverflow.

(** Result of the inner comparison loop of the scanners: a whole match accepted
    by the boundary test, or the index at which it stopped. *)
Inductive match_result := Found | Stopped (i : nat).

(** [while (buf[j+i]==s[i]) { i++; if (s[i]==0) { if (boundary) found; else break; } }].
    [bnd] is the boundary test on the byte before [j] and the byte after the match. *)
Fixpoint match_loop (fuel : nat) (buf s : bytes) (bnd : nat → ascii → out bool)
    (j i : nat) : out match_result :=
  match fuel with
  | 0 => Fail OutOfFuel
  | S fuel' =>
    a ← rd buf (j + i); b ← rd s i;
    if ceq a b then
      b' ← rd s (S i);
      if ceq b' NUL then
        after ← rd buf (j + S i);
        ok ← bnd j after;
        Ret (if ok : bool then Found else Stopped (S i))
      else match_loop fuel' buf s bnd j (S i)
    else Ret (Stopped i)
  end.

(** [(j==0||buf[j-1]==',') && (after==0||after==',')] *)
Definition bnd_comma (buf : bytes) (j : nat) (after : ascii) : out bool :=
  left ← (if bool_decide (j = 0) then Ret true
          else c ← rd buf (j - 1); Ret (ceq c COMMA));
  Ret ((left : bool) && (ceq after NUL || ceq after COMMA)).

(** [while (buf[j] != ',') { if (buf[j] != 0) j++; else return 0; }]:
    the position of the comma, or [None] at the end of the text. *)
Fixpoint skip_to_comma (fuel : nat) (buf : bytes) (j : nat) : out (option nat) :=
  match fuel with
  | 0 => Fail OutOfFuel
  | S fuel' =>
    c ← rd buf j;
    if ceq c COMMA then Ret (Some j)
    else if ceq c NUL then Ret None
    else skip_to_comma fuel' buf (S j)
  end.

Definition scan_fuel (buf s : bytes) : nat := length buf + length s + 2.

(** The [do .. while] of [findstr]. *)
Fixpoint findstr_loop (fuel : nat) (buf s : bytes) (j : nat) : out bool :=
  match fuel with
  | 0 => Fail OutOfFuel
  | S fuel' =>
    m ← match_loop (scan_fuel buf s) buf s (bnd_comma buf) j 0;
    match m with
    | Found => Ret true
    | Stopped i =>
      let j := if bool_decide (i = 0) then S j else j + i in
      c ← rd buf j;
      if ceq c NUL then Ret false
      else
        k ← skip_to_comma (scan_fuel buf s) buf j;
        match k with
        | None => Ret false
        | Some j =>
          c ← rd buf (S j);
          if ceq c NUL then Ret false else findstr_loop fuel' buf s (S j)
        end
    end
  end.

Definition findstr (buf v : bytes) : out bool :=
  s ← (if strchr v COMMA then copy_first10 v else Ret v);
  findstr_loop (S (length buf)) buf s 0.

(** ** Comparing sets of operation identifiers *)

(** [sdslistsds(list,v,len)]: find [v] in the first [len] slots, and clear the
    slot it was found in.  A slot past the tokens is outside the array. *)
Fixpoint sdslistsds_loop (n : nat) (list : list (option bytes)) (v : bytes) (i : nat)
    : out (bool * Datatypes.list (option bytes)) :=
  match n with
  | 0 => Ret (false, list)
  | S n' =>
    match list !! i with
    | None => Fail OutOfBounds
    | Some (Some e) =>
      if bool_decide (length e = length v) && bool_decide (memcmp v e = Eq)
      then Ret (true, <[i := None]> list)
      else sdslistsds_loop n' list v (S i)
    | Some None => sdslistsds_loop n' list v (S i)
    end
  end.

Definition sdslistsds (list : list (option bytes)) (v : bytes) (len : nat)
    : out (bool * Datatypes.list (option bytes)) :=
  sdslistsds_loop len list v 0.

(** The loop [for (i = 0; i < len1; i++) if (!sdslistsds(oids2,oids1[i],len1)) break]. *)
Fixpoint oids_loop (oids1 : list bytes) (oids2 : list (option bytes)) (len1 : nat)
    : out bool :=
  match oids1 with
  | [] => Ret true
  | o :: rest =>
    '(found, oids2) ← sdslistsds oids2 o len1;
    if found : bool then oids_loop rest oids2 len1 else Ret false
  end.

(** [countstr(s,t)] *)
Definition countstr (s : bytes) (t : ascii) : nat :=
  length (filter (λ c, c = t) (cstr s)).

(** [eqccmp(s1,s2) == 0]: the same elements, each as often. *)
Definition eqccmp (s1 s2 : bytes) : out Z :=
  let n1 := countstr s1 COMMA + 1 in
  let n2 := countstr s2 COMMA + 1 in
  if bool_decide (n1 ≠ n2) then Ret 1%Z
  else if bool_decide (n1 = 1) then Ret (if streq s1 s2 then 0%Z else 1%Z)
  else
    oids1 ← split1 s1 (strlen s1) COMMA;
    oids2 ← split1 s2 (strlen s2) COMMA;
    if bool_decide (length oids1 ≠ length oids2) then Ret 1%Z
    else r ← oids_loop oids1 (Some <$> oids2) (length oids1);
         Ret (if r : bool then 0%Z else 1%Z).

Definition oidscmp (s1 s2 : bytes) : out Z :=
  oids1 ← split1 s1 (length s1) COMMA;
  oids2 ← split1 s2 (length s2) COMMA;
  r ← oids_loop oids1 (Some <$> oids2) (length oids1);
  Ret (if r : bool then 0%Z else 1%Z).

(** [findOid(list,s)]: textual search of ",s". *)
Definition findOid (list s : bytes) : bool :=
  strstr list (sdscat (str ",") s).

(** [findSds(temp,s)] *)
Definition findSds (temp s : bytes) : out bool :=
  if strchr s COMMA then
    if strchr temp COMMA then
      let list := sdscat (sdscat (sdsnew (str ",")) temp) (str ",") in
      r ← copy_first10 s;
      Ret (strstr list (sdscat (sdscat (sdsnew (str ",")) r) (str ",")))
    else Ret false
  else if strchr temp COMMA then
    let list := sdscat (sdscat (sdsnew (str ",")) temp) (str ",") in
    Ret (strstr list (sdscat (sdscat (sdsnew (str ",")) s) (str ",")))
  else Ret (streq temp s).

(** ** findClass and sameClass: positions in a text of classes *)

Definition at_sep (c : ascii) : bool := ceq c COMMA || ceq c SLASH.

(** [(j==0||buf[j-1]==','||buf[j-1]=='/') && (after==0||after==','||after=='/')] *)
Definition bnd_sep (buf : bytes) (j : nat) (after : ascii) : out bool :=
  left ← (if bool_decide (j = 0) then Ret true
          else c ← rd buf (j - 1); Ret (at_sep c));
  Ret ((left : bool) && (ceq after NUL || at_sep after)).

(** [while (buf[j]!=',' && buf[j]!='/') j++]: no test for the terminator. *)
Fixpoint skip_to_sep (fuel : nat) (buf : bytes) (j : nat) : out nat :=
  match fuel with
  | 0 => Fail OutOfFuel
  | S fuel' =>
    c ← rd buf j;
    if at_sep c then Ret j else skip_to_sep fuel' buf (S j)
  end.

Fixpoint findClass_loop (fuel : nat) (buf s : bytes) (j : nat) (result : Z) : out Z :=
  match fuel with
  | 0 => Fail OutOfFuel
  | S fuel' =>
    m ← match_loop (scan_fuel buf s) buf s (bnd_sep buf) j 0;
    match m with
    | Found => Ret result
    | Stopped i =>
      j ← skip_to_sep (scan_fuel buf s) buf (if bool_decide (i = 0) then S j else j + i);
      c ← rd buf j;
      let result := if ceq c SLASH then (result + 1)%Z else result in
      c ← rd buf (S j);
      if ceq c NUL then Ret (-1)%Z else findClass_loop fuel' buf s (S j) result
    end
  end.

Definition findClass (buf s : bytes) : out Z :=
  findClass_loop (S (length buf)) buf s 0 0%Z.

(** First phase of [sameClass]: where the class that holds [s] starts. *)
Fixpoint class_start (fuel : nat) (buf s : bytes) (j start : nat) : out nat :=
  match fuel with
  | 0 => Fail OutOfFuel
  | S fuel' =>
    m ← match_loop (scan_fuel buf s) buf s (bnd_sep buf) j 0;
    match m with
    | Found => Ret start
    | Stopped i =>
      j ← skip_to_sep (scan_fuel buf s) buf (if bool_decide (i = 0) then S j else j + i);
      c ← rd buf j;
      let start := if ceq c SLASH then S j else start in
      c ← rd buf (S j);
      if ceq c NUL then Ret start else class_start fuel' buf s (S j) start
    end
  end.

(** [(j==start||buf[j-1]==',') && (after==0||after==','||after=='/')] *)
Definition bnd_in_class (buf : bytes) (start j : nat) (after : ascii) : out bool :=
  left ← (if bool_decide (j = start) then Ret true
          else c ← rd buf (j - 1); Ret (ceq c COMMA));
  Ret ((left : bool) && (ceq after NUL || at_sep after)).

(** Second phase: is [v] an element of that class? *)
Fixpoint in_class_loop (fuel : nat) (buf v : bytes) (start j : nat) : out bool :=
  match fuel with
  | 0 => Fail OutOfFuel
  | S fuel' =>
    c ← rd buf j;
    if ceq c SLASH || ceq c NUL then Ret false
    else
      m ← match_loop (scan_fuel buf v) buf v (bnd_in_class buf start) j 0;
      match m with
      | Found => Ret true
      | Stopped i =>
        in_class_loop fuel' buf v start (if bool_decide (i = 0) then S j else j + i)
      end
  end.

Definition sameClass (buf s v : bytes) : out bool :=
  start ← class_start (S (length buf)) buf s 0 0;
  in_class_loop (S (S (length buf))) buf v start start.

(** ** cpltClass *)

(** [while (buf[end+1] != '/' && buf[end+1] != 0) { if (buf[end]==',') comma_class++; end++; }] *)
Fixpoint class_end (fuel : nat) (buf : bytes) (end_ comma_class : nat) : out (nat * nat) :=
  match fuel with
  | 0 => Fail OutOfFuel
  | S fuel' =>
    c ← rd buf (S end_);
    if ceq c SLASH || ceq c NUL then Ret (end_, comma_class)
    else
      d ← rd buf end_;
      class_end fuel' buf (S end_) (if ceq d COMMA then S comma_class else comma_class)
  end.

(** The comparison loop of [cpltClass]: [k] runs on while the bytes agree, the
    boundary test is made when [k == len_s] only. *)
Fixpoint cplt_match (fuel : nat) (buf sub_s : bytes) (len_s start j k : nat) : out bool :=
  match fuel with
  | 0 => Fail OutOfFuel
  | S fuel' =>
    a ← rd buf (j + k); b ← rd sub_s k;
    if ceq a b then
      let k := S k in
      if bool_decide (k = len_s) then
        left ← (if bool_decide (j = start) then Ret true
                else c ← rd buf (j - 1); Ret (ceq c COMMA));
        after ← (if left : bool then rd buf (j + k) else Ret NUL);
        if (left : bool) && (ceq after NUL || at_sep after) then Ret true
        else cplt_match fuel' buf sub_s len_s start j k
      else cplt_match fuel' buf sub_s len_s start j k
    else Ret false
  end.

(** [for (j = start; j <= end-len_s+1; j++)]: signed arithmetic, so the bound
    may be below [start]. *)
Fixpoint cplt_scan (fuel : nat) (buf sub_s : bytes) (len_s start end_ j : nat) : out bool :=
  match fuel with
  | 0 => Fail OutOfFuel
  | S fuel' =>
    if bool_decide (j + len_s ≤ end_ + 1) then
      found ← cplt_match (scan_fuel buf sub_s) buf sub_s len_s start j 0;
      if found : bool then Ret true else cplt_scan fuel' buf sub_s len_s start end_ (S j)
    else Ret false
  end.

(** The loop over the classes of [buf]; the result text is empty when no class
    qualifies. *)
Fixpoint cplt_classes (fuel : nat) (buf s sub_s : bytes) (len_s comma_s : nat)
    (type start : nat) : out bytes :=
  match fuel with
  | 0 => Fail OutOfFuel
  | S fuel' =>
    c ← rd buf start;
    if ceq c NUL then Ret sdsempty
    else
      let start := if ceq c SLASH then S start else start in
      r ← class_end (S (S (length buf))) buf start 0;
      let '(end_, comma_class) := r in
      let len := end_ - start + 1 in
      let ls := strlen s in
      found ←
        (if (bool_decide (comma_s < comma_class) && bool_decide (ls < len)) ||
            (bool_decide (comma_s = comma_class) && bool_decide (len = ls))
         then cplt_scan (S (S (length buf))) buf sub_s len_s start end_ start
         else Ret false);
      if found : bool then
        if bool_decide (len = ls) then Ret (sdscat sdsempty (str "*"))
        else
          let temp := slice buf start len in
          let result := sdscat sdsempty temp in
          if bool_decide (type = 1) then sdsDel result s else firstOfsdsDel result s
      else cplt_classes fuel' buf s sub_s len_s comma_s type (S end_)
  end.

(** [cpltClass(buf,s,type)]; a NULL [s] is [None]. *)
Definition cpltClass (buf : bytes) (s : option bytes) (type : nat) : out bytes :=
  match s with
  | None => Ret (sdscat sdsempty (str "*"))
  | Some s =>
    if strchr s COMMA then
      r_s ← copy_first10 s;
      cplt_classes (S (length buf)) buf s r_s (length (first_elem s))
        (countstr s COMMA) type 0
    else cplt_classes (S (length buf)) buf s s (strlen s) 0 type 0
  end.

(** ** Specification of the scanners on token texts *)

(** [cbuf sb s]: the buffer [sb] holds the C string [s]. *)
Definition cbuf (sb s : bytes) : Prop := ∀ i, i ≤ length s → rd sb i = rd s i.

Lemma cbuf_refl s : cbuf s s.
Proof. by intros i _. Qed.

Lemma cbuf_pad s n : cbuf (s ++ replicate n NUL) s.
Proof.
  intros i Hi. destruct (decide (i = length s)) as [->|].
  - rewrite rd_app_r0, rd_end. by destruct n.
  - apply rd_app_l. lia.
Qed.

(** A token is non-empty and free of NUL and of the separators [sep]. *)
Definition token (sep : ascii → bool) (t : bytes) : Prop :=
  t ≠ [] ∧ Forall (λ c, c ≠ NUL ∧ sep c = false) t.

Definition comma_sep (c : ascii) : bool := ceq c COMMA.

(** The byte that follows a token: the terminator or a separator. *)
Definition ends_token (sep : ascii → bool) (rest : bytes) : Prop :=
  rest = [] ∨ ∃ c rest', rest = c :: rest' ∧ sep c = true ∧ c ≠ NUL.

Lemma token_nul_free sep t : token sep t → nul_free t.
Proof. intros [_ Ht] Hin. rewrite Forall_forall in Ht. by apply (Ht NUL). Qed.

Lemma ceq_true a b : ceq a b = true ↔ a = b.
Proof. apply bool_decide_eq_true. Qed.

Lemma ceq_false a b : ceq a b = false ↔ a ≠ b.
Proof. apply bool_decide_eq_false. Qed.

Lemma ceq_refl a : ceq a a = true.
Proof. by apply ceq_true. Qed.

Lemma ends_token_read sep rest :
  ends_token sep rest → ∃ c, rd rest 0 = Ret c ∧ (c = NUL ∨ sep c = true).
Proof.
  intros [->|(c & rest' & -> & Hc & ?)].
  - exists NUL. split; [apply rd_nil|by left].
  - exists c. split; [by apply rd_lt|by right].
Qed.

Lemma rd_past m b s : rd (m ++ b :: s) (length m) = Ret b ∧ rd (m ++ b :: s) (S (length m)) = rd s 0.
Proof.
  split; [by rewrite rd_app_r0|]. replace (S (length m)) with (length (m ++ [b])) by (rewrite length_app; simpl; lia).
  change (b :: s) with ([b] ++ s). by rewrite app_assoc, rd_app_r0.
Qed.

Section scanning.
Context (sep : ascii → bool) (buf : bytes) (bnd : nat → ascii → out bool).
Context (pre : bytes).
Hypothesis bnd_ok : ∀ after, bnd (length pre) after = Ret (ceq after NUL || sep after).

(** The comparison loop at the start of a token accepts exactly that token, and
    otherwise stops inside it. *)
Lemma match_loop_step fuel sb m s' t' rest :
  buf = pre ++ (m ++ t') ++ rest → s' ≠ [] → length s' ≤ fuel →
  cbuf sb (m ++ s') →
  Forall (λ c, c ≠ NUL ∧ sep c = false) s' →
  Forall (λ c, c ≠ NUL ∧ sep c = false) t' → ends_token sep rest →
  (s' = t' ∧ match_loop fuel buf sb bnd (length pre) (length m) = Ret Found) ∨
  (s' ≠ t' ∧ ∃ i, match_loop fuel buf sb bnd (length pre) (length m) = Ret (Stopped i) ∧
                  i ≤ length (m ++ t')).
Proof.
  revert m s' t'. induction fuel as [|fuel IH]; intros m s' t' Hbuf Hne Hlen Hsb Hs Ht Hrest.
  { destruct s'; simpl in *; [done|lia]. }
  destruct s' as [|b s'']; [done|]. apply Forall_cons in Hs as [[Hb0 Hb1] Hs].
  assert (rd sb (length m) = Ret b ∧ rd sb (S (length m)) = rd s'' 0) as [Hrb Hrb'].
  { rewrite !Hsb by (rewrite length_app; simpl; lia). apply rd_past. }
  assert (rd buf (length pre + length m) = rd (t' ++ rest) 0) as Hra.
  { rewrite Hbuf, <-app_assoc, rd_app_r. by rewrite rd_app_r0. }
  cbn [match_loop]. rewrite Hra, Hrb.
  destruct t' as [|a t''].
  - right. split; [done|]. destruct (ends_token_read _ _ Hrest) as (c & Hc & Hcs).
    simpl. rewrite Hc. simpl. assert (ceq c b = false) as ->.
    { apply ceq_false. intros ->. destruct Hcs; congruence. }
    exists (length m). split; [done|]. rewrite length_app. simpl. lia.
  - apply Forall_cons in Ht as [[Ha0 Ha1] Ht].
    rewrite <-app_comm_cons, rd_cons_0. simpl.
    destruct (ceq a b) eqn:Hab.
    2:{ right. apply ceq_false in Hab. split; [congruence|].
        exists (length m). split; [done|]. rewrite length_app. lia. }
    apply ceq_true in Hab as ->. rewrite Hrb'.
    destruct s'' as [|b' s3].
    + rewrite rd_nil. simpl.
      assert (rd buf (length pre + S (length m)) = rd (t'' ++ rest) 0) as ->.
      { rewrite Hbuf, rd_app_r, <-app_assoc. apply (rd_past m b (t'' ++ rest)). }
      destruct t'' as [|x t3].
      * left. split; [done|]. destruct (ends_token_read _ _ Hrest) as (c & Hc & Hcs).
        simpl. rewrite Hc. simpl. rewrite bnd_ok. simpl.
        destruct Hcs as [-> | ->]; [done|by rewrite orb_true_r].
      * right. split; [done|]. apply Forall_cons in Ht as [[Hx0 Hx1] _].
        rewrite <-app_comm_cons, rd_cons_0. simpl. rewrite bnd_ok. simpl.
        rewrite Hx1. assert (ceq x NUL = false) as -> by by apply ceq_false.
        exists (S (length m)). split; [done|]. rewrite length_app. simpl. lia.
    + rewrite rd_cons_0. simpl.
      assert (ceq b' NUL = false) as ->.
      { apply ceq_false. apply Forall_cons in Hs as [[??] _]. done. }
      destruct (IH (m ++ [b]) (b' :: s3) t'') as [[-> H]|[Hne' (i & H & Hi)]]; try done.
      * by rewrite Hbuf, <-!app_assoc.
      * simpl in *. lia.
      * by rewrite <-app_assoc.
      * left. split; [done|]. rewrite length_app in H. simpl in H.
        by rewrite Nat.add_1_r in H.
      * right. split; [congruence|]. exists i. rewrite length_app in H. simpl in H.
        rewrite Nat.add_1_r in H. split; [done|].
        by rewrite <-app_assoc in Hi.
Qed.

Lemma match_loop_token fuel sb s t rest :
  buf = pre ++ t ++ rest → length s ≤ fuel → cbuf sb s →
  token sep s → token sep t → ends_token sep rest →
  (s = t ∧ match_loop fuel buf sb bnd (length pre) 0 = Ret Found) ∨
  (s ≠ t ∧ ∃ i, match_loop fuel buf sb bnd (length pre) 0 = Ret (Stopped i) ∧ i ≤ length t).
Proof.
  intros Hbuf Hf Hsb [Hs Hs'] [Ht Ht'] Hrest.
  by apply (match_loop_step fuel sb [] s t rest).
Qed.
End scanning.

Lemma skip_to_comma_spec fuel buf pre w rest :
  buf = pre ++ w ++ rest → Forall (λ c, c ≠ NUL ∧ comma_sep c = false) w →
  ends_token comma_sep rest → length w < fuel →
  skip_to_comma fuel buf (length pre) =
    Ret (match rest with [] => None | _ => Some (length pre + length w) end).
Proof.
  revert pre w. induction fuel as [|fuel IH]; intros pre w Hbuf Hw Hrest Hf; [lia|].
  cbn [skip_to_comma].
  assert (rd buf (length pre) = rd (w ++ rest) 0) as -> by (rewrite Hbuf; apply rd_app_r0).
  destruct w as [|a w].
  - rewrite app_nil_l. destruct Hrest as [->|(c & rest' & -> & Hc & Hc0)]; [done|].
    rewrite rd_cons_0. simpl. unfold comma_sep in Hc. rewrite Hc. do 2 f_equal. lia.
  - apply Forall_cons in Hw as [[Ha0 Ha1] Hw]. rewrite <-app_comm_cons, rd_cons_0. simpl.
    unfold comma_sep in Ha1. rewrite Ha1.
    assert (ceq a NUL = false) as -> by by apply ceq_false.
    replace (S (length pre)) with (length (pre ++ [a])) by (rewrite length_app; simpl; lia).
    rewrite (IH (pre ++ [a]) w); try done.
    + destruct rest; [done|]. do 2 f_equal. rewrite length_app. simpl. lia.
    + by rewrite Hbuf, <-!app_assoc.
    + simpl in Hf. lia.
Qed.

(** [left_edge sep pre]: a token may start after [pre]. *)
Definition left_edge (sep : ascii → bool) (pre : bytes) : Prop :=
  pre = [] ∨ ∃ pre' c, pre = pre' ++ [c] ∧ sep c = true.

Lemma rd_last pre c rest : rd ((pre ++ [c]) ++ rest) (length (pre ++ [c]) - 1) = Ret c.
Proof.
  rewrite <-app_assoc. rewrite length_app. simpl.
  replace (length pre + 1 - 1) with (length pre) by lia.
  by rewrite rd_app_r0.
Qed.

Lemma bnd_comma_edge pre rest after :
  left_edge comma_sep pre →
  bnd_comma (pre ++ rest) (length pre) after = Ret (ceq after NUL || comma_sep after).
Proof.
  unfold bnd_comma, comma_sep. intros [->|(pre' & c & -> & Hc)]; [done|].
  rewrite bool_decide_eq_false_2 by (rewrite length_app; simpl; lia).
  rewrite rd_last. simpl. by rewrite Hc.
Qed.

Lemma join_tokens_split c t toks :
  join c (t :: toks) = t ++ match toks with [] => [] | _ => c :: join c toks end.
Proof. destruct toks; simpl; [by rewrite app_nil_r|done]. Qed.

Lemma ends_token_toks sep c (toks : list bytes) (tail : bytes) :
  sep c = true → c ≠ NUL → ends_token sep tail →
  ends_token sep (match toks with [] => tail | _ => c :: join c toks ++ tail end).
Proof. intros. destruct toks; [done|]. right. by eexists _, _. Qed.

Lemma token_drop sep t i : token sep t → Forall (λ c, c ≠ NUL ∧ sep c = false) (drop i t).
Proof. intros [_ Ht]. by apply Forall_drop. Qed.

(** From inside a token to the start of the next one. *)
Lemma to_next_token fuel buf pre t toks i (next : nat → out bool) :
  buf = pre ++ join COMMA (t :: toks) → Forall (token comma_sep) (t :: toks) → i ≤ length t → length t < fuel →
  (c ← rd buf (length pre + i);
   if ceq c NUL then Ret false
   else
     k ← skip_to_comma fuel buf (length pre + i);
     match k with
     | None => Ret false
     | Some j => c ← rd buf (S j); if ceq c NUL then Ret false else next (S j)
     end) = match toks with [] => Ret false | _ => next (length (pre ++ t ++ [COMMA])) end.
Proof.
  intros Hbuf [Ht Htoks]%Forall_cons Hi Hf. rewrite join_tokens_split in Hbuf.
  set (rest := match toks with [] => [] | _ => COMMA :: join COMMA toks end) in Hbuf.
  assert (ends_token comma_sep rest) as Hrest.
  { subst rest. destruct toks; [by left|]. right. eexists _, _. done. }
  assert (length pre + i = length (pre ++ take i t)) as -> by (rewrite length_app, length_take; lia).
  assert (buf = (pre ++ take i t) ++ drop i t ++ rest) as Hbuf'.
  { rewrite Hbuf, <-!app_assoc. f_equal. rewrite app_assoc. by rewrite take_drop. }
  assert (rd buf (length (pre ++ take i t)) = rd (drop i t ++ rest) 0) as ->.
  { rewrite Hbuf' at 1. by rewrite rd_app_r0. }
  pose proof (token_drop _ _ i Ht) as Hd.
  assert (∃ ys, ys = drop i t ++ rest) as [ys Hx] by eauto.
  rewrite <-Hx. destruct ys as [|x xs]; symmetry in Hx.
  { apply app_eq_nil in Hx as [_ Hr]. rewrite rd_nil. simpl. subst rest. by destruct toks. }
  rewrite rd_cons_0. simpl. assert (ceq x NUL = false) as ->.
  { apply ceq_false. destruct (drop i t) as [|y ys] eqn:Hy; simpl in Hx.
    - subst rest. destruct toks; simplify_eq. done.
    - simplify_eq. by apply Forall_cons in Hd as [[??] _]. }
  rewrite (skip_to_comma_spec _ buf (pre ++ take i t) (drop i t) rest) by (done || rewrite length_drop; lia).
  simpl. destruct toks as [|t2 toks]; subst rest; [done|]. simpl.
  assert (S (length (pre ++ take i t) + length (drop i t)) = length (pre ++ t ++ [COMMA])) as ->.
  { rewrite !length_app, length_take, length_drop. simpl. lia. }
  assert (rd buf (length (pre ++ t ++ [COMMA])) = rd (join COMMA (t2 :: toks)) 0) as ->.
  { assert (buf = (pre ++ t ++ [COMMA]) ++ join COMMA (t2 :: toks)) as -> by (by rewrite Hbuf, <-!app_assoc). by rewrite rd_app_r0. }
  apply Forall_cons in Htoks as [[Ht2 Ht2'] _]. rewrite (join_tokens_split COMMA t2 toks). destruct t2 as [|y t2]; [done|].
  rewrite <-app_comm_cons, rd_cons_0. simpl. apply Forall_cons in Ht2' as [[Hy _] _].
  by assert (ceq y NUL = false) as -> by by apply ceq_false.
Qed.

Lemma findstr_loop_spec fuel sb s buf pre toks :
  buf = pre ++ join COMMA toks → toks ≠ [] → Forall (token comma_sep) toks →
  token comma_sep s → cbuf sb s → length s ≤ length sb →
  left_edge comma_sep pre → length toks ≤ fuel →
  findstr_loop fuel buf sb (length pre) = Ret (bool_decide (s ∈ toks)).
Proof.
  revert pre toks. induction fuel as [|fuel IH];
    intros pre toks Hbuf Hne Htoks Hs Hsb Hlen Hedge Hf; (destruct toks as [|t toks]; [done|]);
    [simpl in Hf; lia|].
  pose proof Htoks as [Ht Htoks']%Forall_cons.
  cbn [findstr_loop].
  destruct (match_loop_token comma_sep buf (bnd_comma buf) pre) with
    (fuel := scan_fuel buf sb) (sb := sb) (s := s) (t := t)
    (rest := match toks with [] => [] | _ => COMMA :: join COMMA toks end)
    as [[-> ->]|[Hst (i & -> & Hi)]]; try done.
  { intros after. rewrite Hbuf. by apply bnd_comma_edge. }
  { by rewrite Hbuf, join_tokens_split. }
  { unfold scan_fuel. lia. }
  { destruct toks; [by left|]. right. eexists _, _. done. }
  { simpl. rewrite bool_decide_eq_true_2 by set_solver. done. }
  bind_red. replace (if bool_decide (i = 0) then S (length pre) else length pre + i)
    with (length pre + if bool_decide (i = 0) then 1 else i) by (case_bool_decide; lia).
  rewrite (to_next_token (scan_fuel buf sb) buf pre t toks _ (findstr_loop fuel buf sb) Hbuf Htoks).
  2: { destruct Ht as [Ht _]. case_bool_decide; [|done]. destruct t; simpl in *; [done|lia]. }
  2: { unfold scan_fuel. rewrite Hbuf, join_tokens_split, !length_app. lia. }
  assert (bool_decide (s ∈ t :: toks) = bool_decide (s ∈ toks)) as -> by (apply bool_decide_ext; set_solver).
  destruct toks as [|t2 toks]; [done|]. apply IH; try done.
  - by rewrite Hbuf, <-!app_assoc.
  - right. exists (pre ++ t), COMMA. by rewrite <-app_assoc.
  - simpl in *. lia.
Qed.

Lemma token_comma_free t : token comma_sep t → COMMA ∉ t.
Proof.
  intros [_ Ht] Hin. rewrite Forall_forall in Ht. destruct (Ht _ Hin) as [_ H].
  by apply ceq_false in H.
Qed.

Lemma tokens_comma_free l : Forall (token comma_sep) l → Forall (λ t, COMMA ∉ t) l.
Proof. intros. eapply Forall_impl; [done|]. apply token_comma_free. Qed.

Lemma tokens_nul_free sep l : Forall (token sep) l → Forall nul_free l.
Proof. intros. eapply Forall_impl; [done|]. apply token_nul_free. Qed.

Lemma nul_free_join_tokens sep c l :
  c ≠ NUL → Forall (token sep) l → nul_free (join c l).
Proof. intros ? Hl. apply nul_free_join; [done|]. by eapply tokens_nul_free. Qed.

Lemma length_join_tokens sep c l : Forall (token sep) l → length l ≤ length (join c l).
Proof.
  intros Hl. induction l as [|t l IH]; [done|].
  apply Forall_cons in Hl as [[Ht _] Hl]. specialize (IH Hl).
  destruct t as [|a t]; [done|]. destruct l; simpl in *; [lia|].
  rewrite length_app. simpl in *. lia.
Qed.

Lemma join_tokens_ne sep c l : l ≠ [] → Forall (token sep) l → join c l ≠ [].
Proof.
  intros Hne Hl Hj. apply Hne. apply (join_nil_inv c); [|done].
  eapply Forall_impl; [done|]. by intros t [? _].
Qed.

(** Splitting a joined list of tokens gives the tokens back. *)
Lemma split1_join l :
  l ≠ [] → Forall (token comma_sep) l →
  split1 (join COMMA l) (length (join COMMA l)) COMMA = Ret l.
Proof.
  intros Hne Hl. unfold split1.
  rewrite sdssplitlen_spec by by eapply join_tokens_ne.
  simpl. rewrite split_join; [done|done|by apply tokens_comma_free].
Qed.

Lemma split1_join_cstr l :
  l ≠ [] → Forall (token comma_sep) l →
  split1 (join COMMA l) (strlen (join COMMA l)) COMMA = Ret l.
Proof.
  intros Hne Hl. rewrite strlen_nul_free; [by apply split1_join|].
  by eapply nul_free_join_tokens.
Qed.

Lemma strchr_join l :
  Forall (token comma_sep) l →
  strchr (join COMMA l) COMMA = bool_decide (2 ≤ length l).
Proof.
  intros Hl. rewrite strchr_nul_free by by eapply nul_free_join_tokens.
  apply bool_decide_ext. destruct l as [|t [|t' l]].
  - simpl. split; [set_solver|lia].
  - apply Forall_cons in Hl as [Ht _]. apply token_comma_free in Ht. simpl. split; [done|lia].
  - rewrite join_cons by done. simpl. split; [lia|set_solver].
Qed.

Lemma first_elem_join x l :
  Forall (token comma_sep) (x :: l) → first_elem (join COMMA (x :: l)) = x.
Proof.
  intros Hl. unfold first_elem. rewrite cstr_id by by eapply nul_free_join_tokens.
  by rewrite split_join by (done || by apply tokens_comma_free).
Qed.

(** [findstr(buf,v)] on a class text decides whether the first element of [v]
    is an element of the class; a set argument needs its first element to fit
    the local buffer. *)
Lemma findstr_spec toks x vs :
  toks ≠ [] → Forall (token comma_sep) toks → Forall (token comma_sep) (x :: vs) →
  (vs = [] ∨ length x < 10) →
  findstr (join COMMA toks) (join COMMA (x :: vs)) = Ret (bool_decide (x ∈ toks)).
Proof.
  intros Hne Htoks Hvs Hx. unfold findstr. rewrite strchr_join by done.
  pose proof (length_join_tokens _ COMMA _ Htoks) as Hlen.
  assert (token comma_sep x) as Htx by by apply Forall_cons in Hvs as [? _].
  assert (∀ sb, cbuf sb x → length x ≤ length sb →
    findstr_loop (S (length (join COMMA toks))) (join COMMA toks) sb 0 =
      Ret (bool_decide (x ∈ toks))) as Hloop.
  { intros sb Hsb Hl. apply (findstr_loop_spec _ _ _ _ []); try done; [by left|lia]. }
  destruct vs as [|y vs].
  - rewrite (bool_decide_eq_false_2 (2 ≤ _)) by (simpl; lia). simpl. by apply Hloop.
  - rewrite (bool_decide_eq_true_2 (2 ≤ _)) by (simpl; lia).
    unfold copy_first10. rewrite first_elem_join by done.
    destruct Hx as [Hx|Hx]; [done|].
    rewrite bool_decide_eq_true_2 by done. simpl. apply Hloop; [apply cbuf_pad|].
    rewrite length_app. lia.
Qed.

(** ** sdsDel computes a difference *)

Lemma index_of_Some e del j0 j :
  index_of e del j0 = Some j → ∃ i, j = j0 + i ∧ del !! i = Some e.
Proof.
  revert j0. induction del as [|d del IH]; intros j0; simpl; [done|].
  case_bool_decide as Hd.
  - apply sdscmp_zero in Hd as ->. intros [= <-]. exists 0. split; [lia|done].
  - intros (i & -> & Hi)%IH. exists (S i). split; [lia|done].
Qed.

Lemma index_of_None e del j0 : index_of e del j0 = None → e ∉ del.
Proof.
  revert j0. induction del as [|d del IH]; intros j0; simpl; [set_solver|].
  case_bool_decide as Hd; [done|]. intros H%IH.
  rewrite sdscmp_zero in Hd. set_solver.
Qed.

Lemma shift_out_nul_free l i : Forall nul_free l → shift_out l i = take i l ++ drop (S i) l.
Proof.
  intros Hl. unfold shift_out. f_equal. assert (Forall nul_free (drop (S i) l)) as Hd
    by by apply Forall_drop.
  induction Hd as [|t l' Ht Hd IH]; [done|]. cbn. by rewrite cstr_id, IH.
Qed.

Lemma del_loop_spec fuel done_ l ds :
  Forall nul_free done_ → Forall nul_free l → Forall nul_free ds → NoDup l →
  length l < fuel →
  del_loop fuel (done_ ++ l) ds (length done_) = Ret (done_ ++ filter (λ e, e ∉ ds) l).
Proof.
  revert done_ l ds. induction fuel as [|fuel IH]; intros done_ l ds Hd Hl Hds Hnd Hf; [lia|].
  cbn [del_loop]. destruct l as [|e l].
  { rewrite lookup_ge_None_2 by (rewrite app_nil_r; lia). done. }
  rewrite list_lookup_middle by done.
  apply Forall_cons in Hl as [He Hl]. apply NoDup_cons in Hnd as [Hel Hnd].
  destruct (index_of e ds 0) as [j|] eqn:Hj.
  - apply index_of_Some in Hj as (i & -> & Hi). simpl.
    rewrite (shift_out_nul_free (done_ ++ e :: l)) by (apply Forall_app; split; [done|by constructor]).
    rewrite (shift_out_nul_free ds) by done.
    rewrite take_app_length. replace (S (length done_)) with (length (done_ ++ [e]))
      by (rewrite length_app; simpl; lia).
    change (e :: l) with ([e] ++ l). rewrite app_assoc, drop_app_length.
    rewrite IH; try done; [|by apply Forall_app; split; [apply Forall_take|apply Forall_drop]
      |simpl in Hf; lia].
    do 2 f_equal. simpl. rewrite filter_cons_False by (intros H; apply H; by eapply list_elem_of_lookup_2).
    apply list_filter_ext_in. intros x Hx. assert (x ≠ e) by set_solver.
    rewrite <-(take_drop_middle ds i e Hi) at 3. rewrite !elem_of_app, elem_of_cons. tauto.
  - apply index_of_None in Hj. rewrite filter_cons_True by done.
    change (e :: l) with ([e] ++ l). rewrite app_assoc.
    replace (S (length done_)) with (length (done_ ++ [e])) by (rewrite length_app; simpl; lia).
    rewrite IH; try done; [by rewrite <-app_assoc| |simpl in Hf; lia].
    apply Forall_app. by repeat constructor.
Qed.

Lemma cat_elements_spec acc l :
  Forall (token comma_sep) l → cat_elements acc l = acc ++ join COMMA l.
Proof.
  revert acc. induction l as [|t l IH]; intros acc Hl; simpl.
  { by rewrite app_nil_r. }
  apply Forall_cons in Hl as [Ht Hl]. pose proof (token_nul_free _ _ Ht).
  rewrite bool_decide_eq_true_2 by (destruct Ht as [Ht _]; destruct t; simpl; [done|lia]).
  rewrite sdscat_nul_free by done. rewrite IH by done.
  destruct l as [|t' l]; simpl; [by rewrite !app_nil_r|].
  rewrite sdscat_nul_free by (by apply nul_free_cons; split; [|apply nul_free_nil]).
  by rewrite <-!app_assoc.
Qed.

Lemma del_loop_start fuel l ds :
  Forall (token comma_sep) l → Forall (token comma_sep) ds → NoDup l → length l < fuel →
  del_loop fuel l ds 0 = Ret (filter (λ e, e ∉ ds) l).
Proof.
  intros. apply (del_loop_spec fuel []); try done; by eapply tokens_nul_free.
Qed.

(** [sdsDel] on a duplicate-free class text removes the listed elements and
    keeps the order of the others. *)
Lemma sdsDel_spec l ds :
  l ≠ [] → ds ≠ [] → Forall (token comma_sep) l → Forall (token comma_sep) ds → NoDup l →
  sdsDel (join COMMA l) (join COMMA ds) = Ret (join COMMA (filter (λ e, e ∉ ds) l)).
Proof.
  intros Hl Hds Htl Htd Hnd. unfold sdsDel.
  rewrite split1_join, split1_join_cstr by done. bind_red.
  rewrite del_loop_start by (done || lia). bind_red.
  rewrite cat_elements_spec; [done|]. by apply Forall_filter.
Qed.

Lemma firstOfsdsDel_spec l ds :
  l ≠ [] → ds ≠ [] → Forall (token comma_sep) l → Forall (token comma_sep) ds → NoDup l →
  firstOfsdsDel (join COMMA l) (join COMMA ds) = Ret (hd [] (filter (λ e, e ∉ ds) l)).
Proof.
  intros Hl Hds Htl Htd Hnd. unfold firstOfsdsDel.
  rewrite split1_join, split1_join_cstr by done. bind_red.
  rewrite del_loop_start by (done || lia). bind_red. f_equal.
  assert (Forall (token comma_sep) (filter (λ e, e ∉ ds) l)) as Hf by by apply Forall_filter.
  destruct (filter _ l) as [|t r]; simpl; [done|]. apply Forall_cons in Hf as [[Ht ?] _].
  rewrite bool_decide_eq_true_2 by (destruct t; simpl; [done|lia]).
  by rewrite sdscat_nul_free by (by eapply token_nul_free).
Qed.

(** ** oidscmp compares multisets of identifiers *)

(** The identifiers not yet matched. *)
Definition left_over (l : list (option bytes)) : list bytes := omap id l.

Lemma left_over_clear l k v :
  l !! k = Some (Some v) → left_over l ≡ₚ v :: left_over (<[k := None]> l).
Proof.
  intros Hk. rewrite <-(take_drop_middle l k _ Hk) at 1.
  rewrite insert_take_drop by by eapply lookup_lt_Some.
  unfold left_over. rewrite !omap_app. simpl. by rewrite Permutation_middle.
Qed.

Lemma sdslistsds_loop_spec n l v i :
  n + i = length l →
  (sdslistsds_loop n l v i = Ret (false, l) ∧ Some v ∉ drop i l) ∨
  (∃ k, sdslistsds_loop n l v i = Ret (true, <[k := None]> l) ∧ l !! k = Some (Some v)).
Proof.
  revert i. induction n as [|n IH]; intros i Hn; simpl.
  { left. rewrite drop_ge by lia. set_solver. }
  destruct (lookup_lt_is_Some_2 l i) as [[e|] Hi]; [lia|..]; rewrite Hi;
    rewrite (drop_S l _ i Hi).
  - destruct (bool_decide (length e = length v) && bool_decide (memcmp v e = Eq)) eqn:E.
    + right. exists i. apply andb_true_iff in E as [E1%bool_decide_eq_true E2%bool_decide_eq_true].
      split; [done|]. rewrite Hi. do 2 f_equal. symmetry. by apply memcmp_eq.
    + destruct (IH (S i)) as [[-> Hni]|(k & -> & Hk)]; [lia|left|right; by exists k].
      split; [done|]. intros [Hv|?]%elem_of_cons; [|done]. injection Hv as ->.
      by rewrite memcmp_refl, !bool_decide_eq_true_2 in E.
  - destruct (IH (S i)) as [[-> Hni]|(k & -> & Hk)]; [lia|left|right; by exists k].
    split; [done|]. set_solver.
Qed.

Lemma oids_loop_spec l1 l n :
  length l = n → oids_loop l1 l n = Ret (bool_decide (l1 ⊆+ left_over l)).
Proof.
  revert l. induction l1 as [|o l1 IH]; intros l Hn; cbn [oids_loop].
  { f_equal. }
  unfold sdslistsds.
  destruct (sdslistsds_loop_spec n l o 0) as [[-> Hni]|(k & -> & Hk)]; [lia|..]; bind_red.
  - f_equal. symmetry. apply bool_decide_eq_false_2. intros Hsub. apply Hni.
    assert (o ∈ left_over l) as Ho.
    { eapply elem_of_submseteq; [|exact Hsub]. set_solver. }
    apply list_elem_of_omap in Ho as (x & Hx & [= ->]). done.
  - rewrite IH by (by rewrite length_insert). f_equal. apply bool_decide_ext.
    rewrite (left_over_clear l k o Hk). split; [by apply submseteq_skip|].
    apply (submseteq_app_inv_l _ _ [o]).
Qed.

(** On identifier lists of the same length, [oidscmp] answers 0 exactly when
    they hold the same identifiers, each as often. *)
Lemma oidscmp_perm s1 s2 :
  s1 ≠ [] → s2 ≠ [] → length (split_on COMMA s1) = length (split_on COMMA s2) →
  oidscmp s1 s2 = Ret (if decide (split_on COMMA s1 ≡ₚ split_on COMMA s2) then 0%Z else 1%Z).
Proof.
  intros H1 H2 Hlen. unfold oidscmp, split1. rewrite !sdssplitlen_spec by done. bind_red.
  rewrite oids_loop_spec by (rewrite length_fmap; congruence). bind_red.
  assert (left_over (Some <$> split_on COMMA s2) = split_on COMMA s2) as ->.
  { unfold left_over. generalize (split_on COMMA s2). intros l. induction l as [|x l IH]; [done|]. simpl. f_equal. exact IH. }
  destruct (decide _) as [Hp|Hp].
  - rewrite bool_decide_eq_true_2; [done|]. by rewrite Hp.
  - rewrite bool_decide_eq_false_2; [done|]. intros Hs. apply Hp.
    apply submseteq_length_Permutation; [done|lia].
Qed.

(** ** Properties *)

(** on comma-separated lists of non-empty elements [findstr] answers whether
    the first element of the second list occurs in the first list, and never
    reads outside the strings; the element has to fit the buffer of ten bytes
    when the second list has more than one. *)
Theorem findstr_finds toks x vs :
  toks ≠ [] → Forall (token comma_sep) toks → Forall (token comma_sep) (x :: vs) →
  (vs = [] ∨ length x < 10) →
  findstr (join COMMA toks) (join COMMA (x :: vs)) = Ret (bool_decide (x ∈ toks)).
Proof. apply findstr_spec. Qed.

Lemma findstr_finds_witness : findstr (str "12,1,3") (str "1,3") = Ret true.
Proof.
  apply (findstr_finds [str "12"; str "1"; str "3"] (str "1") [str "3"]);
    [done|by repeat constructor|by repeat constructor|right; simpl; lia].
Defined.

(** [sdsDel] removes exactly the elements of the second list from the first
    and keeps the order of the others, and [firstOfsdsDel] returns the first
    element of that result. *)
Theorem sdsDel_deletes l ds :
  l ≠ [] → ds ≠ [] → Forall (token comma_sep) l → Forall (token comma_sep) ds → NoDup l →
  sdsDel (join COMMA l) (join COMMA ds) = Ret (join COMMA (filter (λ e, e ∉ ds) l))
  ∧ firstOfsdsDel (join COMMA l) (join COMMA ds) = Ret (hd [] (filter (λ e, e ∉ ds) l)).
Proof. intros. split; [by apply sdsDel_spec|by apply firstOfsdsDel_spec]. Qed.

Lemma sdsDel_deletes_witness :
  sdsDel (str "a,b,c,d") (str "c,a") = Ret (str "b,d")
  ∧ firstOfsdsDel (str "a,b,c,d") (str "c,a") = Ret (str "b").
Proof.
  apply (sdsDel_deletes [str "a"; str "b"; str "c"; str "d"] [str "c"; str "a"]);
    [done|done|by repeat constructor|by repeat constructor|].
  apply (bool_decide_unpack _). vm_compute. exact I.
Defined.

(** [oidscmp] compares contexts as multisets of operation identifiers: for
    contexts with the same number of identifiers the result is 0 exactly when
    one is a permutation of the other. *)
Theorem oidscmp_multiset s1 s2 :
  s1 ≠ [] → s2 ≠ [] → length (split_on COMMA s1) = length (split_on COMMA s2) →
  oidscmp s1 s2 = Ret (if decide (split_on COMMA s1 ≡ₚ split_on COMMA s2) then 0%Z else 1%Z).
Proof. apply oidscmp_perm. Qed.

Lemma oidscmp_multiset_witness :
  oidscmp (str "init,1_1,2_1") (str "init,2_1,1_1") = Ret 0%Z.
Proof.
  rewrite (oidscmp_multiset (str "init,1_1,2_1") (str "init,2_1,1_1")); [|done|done|done].
  by vm_compute.
Defined.

(** The context searched for an identifier is not split at the commas: an
    identifier that is a prefix of another one is found. *)
Lemma findOid_prefix : findOid (str "init,1_10") (str "1_1") = true.
Proof. by vm_compute. Qed.

(** An element that is in no class makes [findClass] read past the end of the text. *)
Lemma findClass_absent : findClass (str "a,x/b/c,d,e") (str "q") = Fail OutOfBounds.
Proof. by vm_compute. Qed.
