(* ===== verification/ClassText.v ===== *)
(** * ClassText: texts of partitions, and what cpltClass finds in them

    A replicated state is a text such as "jhon/joe,peter/sun".  [render] is the
    text of a list of classes, [rel_of] the relation the classes stand for.
    The main lemma is [cpltClass_spec]: on the text of a well-formed partition,
    [cpltClass] (src/src/ot.c) returns the complement of a group of elements in
    its class, its first element, or "*" when nothing is left. *)
From Stdlib Require Import Ascii.
From S2P Require Import Prelude Sds Partition OtStr.

(** ** Well-formed texts *)

Definition STAR : bytes := str "*".

(** An element name: non-empty, no NUL, ',' or '/', and not the reserved "*". *)
Definition name_ok (n : bytes) : Prop := token at_sep n ∧ n ≠ STAR.

Definition class_ok (c : list bytes) : Prop := c ≠ [] ∧ Forall name_ok c.

Definition part_ok (P : list (list bytes)) : Prop :=
  P ≠ [] ∧ Forall class_ok P ∧ NoDup (concat P).

#[global] Instance token_dec sep t : Decision (token sep t).
Proof. unfold token. apply _. Defined.
#[global] Instance name_ok_dec n : Decision (name_ok n).
Proof. unfold name_ok. apply _. Defined.
#[global] Instance class_ok_dec c : Decision (class_ok c).
Proof. unfold class_ok. apply _. Defined.
#[global] Instance part_ok_dec P : Decision (part_ok P).
Proof. unfold part_ok. apply _. Defined.

Definition render_class (c : list bytes) : bytes := join COMMA c.
Definition render (P : list (list bytes)) : bytes := join SLASH (render_class <$> P).

(** The relation a list of classes stands for. *)
Definition rel_of (P : list (list bytes)) : prel := λ x y,
  ∃ c, c ∈ P ∧ x ∈ c ∧ y ∈ c.

(** The class an element is in, by position. *)
Definition class_idx (P : list (list bytes)) (x : bytes) : option nat :=
  fst <$> list_find (λ c, x ∈ c) P.

(** ** Basic facts *)

Lemma token_weaken (sep sep' : ascii → bool) t :
  (∀ c, sep c = false → sep' c = false) → token sep t → token sep' t.
Proof.
  intros H [Hne Ht]. split; [done|]. eapply Forall_impl; [done|].
  intros c [??]. auto.
Qed.

Lemma at_sep_comma c : at_sep c = false → comma_sep c = false.
Proof. unfold at_sep, comma_sep. by intros [? _]%orb_false_iff. Qed.

Lemma name_token n : name_ok n → token comma_sep n.
Proof. intros [Hn _]. by eapply token_weaken; [apply at_sep_comma|]. Qed.

Lemma names_tokens c : Forall name_ok c → Forall (token comma_sep) c.
Proof. intros. eapply Forall_impl; [done|]. apply name_token. Qed.

Lemma name_nul_free n : name_ok n → nul_free n.
Proof. intros. by eapply token_nul_free, name_token. Qed.

Lemma token_not_in sep c t : token sep t → sep c = true → c ∉ t.
Proof.
  intros [_ Ht] Hc Hin. rewrite Forall_forall in Ht. destruct (Ht _ Hin). congruence.
Qed.

Lemma name_not_in n c : name_ok n → at_sep c = true → c ∉ n.
Proof. intros [Hn _]. by apply token_not_in. Qed.

Lemma render_class_no_slash c : Forall name_ok c → SLASH ∉ render_class c.
Proof.
  intros Hc Hin. apply elem_of_join in Hin as [?|(t & Ht & Hin)]; [done|].
  rewrite Forall_forall in Hc. by apply (name_not_in t SLASH (Hc _ Ht)) in Hin.
Qed.

Lemma render_class_nul_free c : Forall name_ok c → nul_free (render_class c).
Proof. intros. by eapply nul_free_join_tokens, names_tokens. Qed.

Lemma render_class_ne c : class_ok c → render_class c ≠ [].
Proof. intros [? ?]. by eapply join_tokens_ne, names_tokens. Qed.

Lemma classes_no_slash P :
  Forall class_ok P → Forall (λ t, SLASH ∉ t) (render_class <$> P).
Proof.
  intros HP. apply Forall_fmap. eapply Forall_impl; [done|].
  intros c [_ Hc]. by apply render_class_no_slash.
Qed.

Lemma render_nul_free P : Forall class_ok P → nul_free (render P).
Proof.
  intros HP. apply nul_free_join; [done|]. apply Forall_fmap.
  eapply Forall_impl; [done|]. intros c [_ Hc]. by apply render_class_nul_free.
Qed.

Lemma render_ne P : P ≠ [] → Forall class_ok P → render P ≠ [].
Proof.
  intros Hne HP Hr. apply Hne. destruct P; [done|].
  apply join_nil_inv in Hr; [done|]. apply Forall_fmap.
  eapply Forall_impl; [done|]. apply render_class_ne.
Qed.

(** Cutting a rendered state at '/' gives the class texts. *)
Lemma split_render P :
  P ≠ [] → Forall class_ok P → split_on SLASH (render P) = render_class <$> P.
Proof.
  intros Hne HP. apply split_join; [by destruct P|by apply classes_no_slash].
Qed.

Lemma split_render_class c : class_ok c → split_on COMMA (render_class c) = c.
Proof.
  intros [Hne Hc]. apply split_join; [done|]. by apply tokens_comma_free, names_tokens.
Qed.

(** Rendering is injective on well-formed partitions: a state text has one
    reading. *)
Lemma render_inj P Q : part_ok P → part_ok Q → render P = render Q → P = Q.
Proof.
  intros (HP & HP' & _) (HQ & HQ' & _) E.
  apply (f_equal (split_on SLASH)) in E. rewrite !split_render in E by done.
  apply (f_equal (fmap (split_on COMMA))) in E. rewrite <-!list_fmap_compose in E.
  assert (∀ R, Forall class_ok R → (split_on COMMA ∘ render_class) <$> R = R) as Hid.
  { induction 1 as [|c R Hc _ IH]; [done|]. cbn. by rewrite split_render_class, IH. }
  by rewrite !Hid in E.
Qed.

Lemma rel_of_refl P x : x ∈ concat P → rel_of P x x.
Proof. intros (c & Hx & Hc)%elem_of_concat. by exists c. Qed.

Lemma rel_of_per P : NoDup (concat P) → per (rel_of P).
Proof.
  intros Hnd. split; unfold rel_of.
  - naive_solver.
  - intros x y z (c & Hc & Hx & Hy) (d & Hd & Hy' & Hz).
    enough (c = d) as -> by eauto. clear x z Hx Hz.
    induction P as [|e P IH]; [set_solver|].
    simpl in Hnd. apply NoDup_app in Hnd as (He & HeP & Hnd).
    assert (∀ f, f ∈ P → y ∈ f → y ∈ concat P) as Hin.
    { intros f ??. apply elem_of_concat. eauto. }
    apply elem_of_cons in Hc as [->|Hc]; apply elem_of_cons in Hd as [->|Hd]; naive_solver.
Qed.

(** ** Occurrences of an element in a class text *)

Lemma split_on_app_gen c x y : split_on c (x ++ c :: y) = split_on c x ++ split_on c y.
Proof.
  induction x as [|a x IH]; simpl.
  - by rewrite bool_decide_eq_true_2.
  - case_bool_decide; [by rewrite IH|]. rewrite IH.
    pose proof (split_on_ne c x). by destruct (split_on c x).
Qed.

(** [occurrence w w1 s w3]: in the class text [w], [s] stands between [w1] and
    [w3] with an element boundary on both sides. *)
Definition occurrence (w w1 s w3 : bytes) : Prop :=
  w = w1 ++ s ++ w3 ∧ left_edge comma_sep w1 ∧ (w3 = [] ∨ ∃ w3', w3 = COMMA :: w3').

Lemma occurrence_elem toks w1 s w3 :
  toks ≠ [] → Forall (token comma_sep) toks → token comma_sep s →
  occurrence (join COMMA toks) w1 s w3 → s ∈ toks.
Proof.
  intros Hne Htoks Hs (Hw & Hl & Hr).
  rewrite <-(split_join COMMA toks) by (done || by apply tokens_comma_free).
  rewrite Hw. pose proof (token_comma_free _ Hs) as Hsc.
  assert (s ∈ split_on COMMA (s ++ w3)) as Hin.
  { destruct Hr as [->|[w3' ->]].
    - rewrite app_nil_r, split_on_free by done. set_solver.
    - rewrite split_on_app by done. set_solver. }
  destruct Hl as [->|(w1' & c & -> & Hc)]; [done|].
  apply ceq_true in Hc as ->. rewrite <-app_assoc. simpl.
  rewrite split_on_app_gen. set_solver.
Qed.

Lemma elem_occurrence toks s :
  s ∈ toks → ∃ w1 w3, occurrence (join COMMA toks) w1 s w3.
Proof.
  intros (l1 & l2 & ->)%list_elem_of_split.
  assert (∃ w3, join COMMA (s :: l2) = s ++ w3 ∧ (w3 = [] ∨ ∃ w3', w3 = COMMA :: w3'))
    as (w3 & Hw3 & Hr).
  { rewrite join_tokens_split. destruct l2; eauto. }
  destruct l1 as [|t l1].
  - exists [], w3. repeat split; [done|by left|done].
  - exists (join COMMA (t :: l1) ++ [COMMA]), w3.
    repeat split; [|right; eexists _, _; by split|done].
    rewrite join_app by done. rewrite Hw3. by rewrite <-app_assoc.
Qed.

(** What may follow a whole match. *)
Definition after_ok (w : bytes) : bool :=
  match w with [] => true | c :: _ => ceq c NUL || at_sep c end.

Section matching.
Context (sb s buf pre : bytes) (start : nat) (left : bool).
Hypothesis Hsb : cbuf sb s.
Hypothesis Hs : nul_free s.
Hypothesis Hleft :
  (if bool_decide (length pre = start) then Ret true
   else c ← rd buf (length pre - 1); Ret (ceq c COMMA)) = Ret left.

Lemma cplt_match_miss fuel m s' w2' rest :
  s = m ++ s' → buf = pre ++ (m ++ w2') ++ rest → length s' ≤ length w2' →
  ¬ s' `prefix_of` w2' → length s' ≤ fuel →
  cplt_match fuel buf sb (length s) start (length pre) (length m) = Ret false.
Proof.
  revert m s' w2'. induction fuel as [|fuel IH]; intros m s' w2' Es Eb Hlen Hnp Hf;
    (destruct s' as [|b s']; [by destruct Hnp; exists w2'|]); [simpl in Hf; lia|].
  destruct w2' as [|a w2']; [simpl in Hlen; lia|]. cbn [cplt_match].
  assert (rd buf (length pre + length m) = Ret a) as ->.
  { rewrite Eb, <-app_assoc, rd_app_r. by rewrite rd_app_r0. }
  assert (rd sb (length m) = Ret b) as ->.
  { rewrite Hsb by (rewrite Es, length_app; lia). by rewrite Es, rd_app_r0. }
  bind_red. destruct (ceq a b) eqn:Hab; [|done]. apply ceq_true in Hab as ->.
  destruct s' as [|b' s'].
  { destruct Hnp. by exists w2'. }
  rewrite bool_decide_eq_false_2
    by (rewrite Es, length_app; simpl; lia).
  replace (S (length m)) with (length (m ++ [b])) by (rewrite length_app; simpl; lia).
  apply (IH _ (b' :: s') w2').
  - by rewrite <-app_assoc.
  - by rewrite Eb, <-!app_assoc.
  - simpl in *. lia.
  - intros [k Hk]. destruct Hnp. exists k. by rewrite Hk.
  - simpl in *. lia.
Qed.

Lemma cplt_match_hit fuel m s' w3 rest :
  s = m ++ s' → buf = pre ++ (s ++ w3) ++ rest → nul_free buf → s' ≠ [] →
  (w3 ++ rest = [] → left = true) → S (length s') ≤ fuel →
  cplt_match fuel buf sb (length s) start (length pre) (length m) =
    Ret (left && after_ok (w3 ++ rest)).
Proof.
  revert m s'. induction fuel as [|fuel IH]; intros m s' Es Eb Hnf Hne Hend Hf;
    (destruct s' as [|b s']; [done|]); [simpl in Hf; lia|]. cbn [cplt_match].
  assert (rd buf (length pre + length m) = Ret b) as ->.
  { rewrite Eb, Es, <-!app_assoc, rd_app_r. by rewrite rd_app_r0. }
  assert (rd sb (length m) = Ret b) as ->.
  { rewrite Hsb by (rewrite Es, length_app; lia). by rewrite Es, rd_app_r0. }
  bind_red. rewrite ceq_refl. destruct s' as [|b' s'].
  - assert (S (length m) = length s) as Hk by (rewrite Es, length_app; simpl; lia).
    rewrite Hk. rewrite bool_decide_eq_true_2 by done.
    rewrite Hleft. bind_red.
    assert (rd buf (length pre + length s) = rd (w3 ++ rest) 0) as Hra.
    { rewrite Eb, <-!app_assoc, rd_app_r. by rewrite rd_app_r0. }
    assert (∃ c, rd (w3 ++ rest) 0 = Ret c ∧ after_ok (w3 ++ rest) = (ceq c NUL || at_sep c))
      as (c & Hc & Hok).
    { destruct (w3 ++ rest) as [|x xs]; [by exists NUL|by exists x]. }
    assert (left && after_ok (w3 ++ rest) = false →
            cplt_match fuel buf sb (length s) start (length pre) (length s) = Ret false)
      as Hcont.
    { intros Hf'. destruct fuel as [|fuel']; [simpl in Hf; lia|]. cbn [cplt_match].
      rewrite Hra, Hc, Hsb, rd_end by done. bind_red.
      assert (ceq c NUL = false) as ->; [|done]. apply ceq_false. intros ->.
      destruct (w3 ++ rest) as [|x xs] eqn:Hx.
      - rewrite Hend in Hf' by done. done.
      - rewrite rd_cons_0 in Hc. injection Hc as ->.
        apply Hnf. rewrite Eb, <-app_assoc, Hx. set_solver. }
    destruct left; bind_red; [|by apply Hcont].
    rewrite Hra, Hc. bind_red. rewrite Hok in *. simpl.
    destruct (ceq c NUL || at_sep c); [done|]. by apply Hcont.
  - rewrite bool_decide_eq_false_2
      by (rewrite Es, length_app; simpl; lia).
    replace (S (length m)) with (length (m ++ [b])) by (rewrite length_app; simpl; lia).
    apply (IH _ (b' :: s')); try done.
    + by rewrite <-app_assoc.
    + simpl in *. lia.
Qed.
End matching.

Lemma cbuf_length sb s : cbuf sb s → length s ≤ length sb.
Proof.
  intros H. destruct (decide (length s ≤ length sb)); [done|].
  specialize (H (length s)). rewrite rd_end, rd_oob in H by lia. naive_solver.
Qed.

Lemma left_edge_snoc w c : left_edge comma_sep (w ++ [c]) ↔ c = COMMA.
Proof.
  split.
  - intros [H|(w' & c' & E & Hc)]; [by apply app_nil in H as [_ ?]|].
    apply app_inj_tail in E as [_ ->]. by apply ceq_true.
  - intros ->. right. eexists _, _. done.
Qed.

Section class_scan.
Context (sb s buf cpre w rest : bytes).
Hypothesis Hsb : cbuf sb s.
Hypothesis Hs : token at_sep s.
Hypothesis Hbuf : buf = cpre ++ w ++ rest.
Hypothesis Hnf : nul_free buf.
Hypothesis Hw : SLASH ∉ w.
Hypothesis Hrest : rest = [] ∨ ∃ rest', rest = SLASH :: rest'.

Let start := length cpre.

Lemma after_ok_in_class w1 w3 :
  w = w1 ++ s ++ w3 → after_ok (w3 ++ rest) = true ↔ (w3 = [] ∨ ∃ w3', w3 = COMMA :: w3').
Proof.
  intros Ew. destruct w3 as [|c w3]; simpl.
  - split; [by left|]. intros _. destruct Hrest as [->|[rest' ->]]; done.
  - assert (c ≠ NUL) as Hc.
    { intros ->. apply Hnf. rewrite Hbuf, Ew. set_solver. }
    assert (c ≠ SLASH) as Hc' by (intros ->; apply Hw; rewrite Ew; set_solver).
    unfold at_sep. rewrite !orb_true_iff, !ceq_true. naive_solver.
Qed.

(** One position of the scan: the comparison loop accepts exactly the
    occurrences.  It would run past the end of the text only on an inner match
    that ends it. *)
Lemma cplt_match_at w1 w2 :
  w = w1 ++ w2 → length s ≤ length w2 →
  (w2 = s → rest = [] → left_edge comma_sep w1) →
  ∃ b : bool, cplt_match (scan_fuel buf sb) buf sb (length s) start (length (cpre ++ w1)) 0 = Ret b
    ∧ (b = true ↔ ∃ w3, occurrence w w1 s w3).
Proof.
  intros Ew Hlen Hsafe. pose proof (cbuf_length _ _ Hsb) as Hsl.
  pose proof (token_nul_free _ _ Hs) as Hsn.
  assert (∃ left : bool,
    (if bool_decide (length (cpre ++ w1) = start) then Ret true
     else c ← rd buf (length (cpre ++ w1) - 1); Ret (ceq c COMMA)) = Ret left ∧
    (left = true ↔ left_edge comma_sep w1)) as (left & Hleft & Hledge).
  { destruct w1 as [|c w1' _] using rev_ind.
    - exists true. rewrite app_nil_r, bool_decide_eq_true_2 by done.
      split; [done|]. split; [by left|done].
    - exists (ceq c COMMA). rewrite bool_decide_eq_false_2
        by (unfold start; rewrite !length_app; simpl; lia).
      split; [|by rewrite ceq_true, left_edge_snoc].
      assert (buf = ((cpre ++ w1') ++ [c]) ++ w2 ++ rest) as ->
        by by rewrite Hbuf, Ew, <-!app_assoc.
      by rewrite (app_assoc cpre w1' [c]), rd_last. }
  destruct (decide (s `prefix_of` w2)) as [[w3 ->]|Hnp].
  - exists (left && after_ok (w3 ++ rest)). split.
    + apply (cplt_match_hit sb s buf (cpre ++ w1) start left) with (m := []) (s' := s);
        try done.
      * by rewrite Hbuf, Ew, <-!app_assoc.
      * by destruct Hs.
      * intros [-> ->]%app_eq_nil. apply Hledge, Hsafe; [by rewrite app_nil_r|done].
      * unfold scan_fuel. lia.
    + rewrite andb_true_iff, Hledge, (after_ok_in_class w1 w3 Ew). split.
      * intros [??]. by exists w3.
      * intros (w3' & E & ? & Hr). rewrite Ew in E.
        apply app_inv_head, app_inv_head in E as ->. done.
  - exists false. split.
    + apply (cplt_match_miss sb s buf (cpre ++ w1) start) with (m := []) (s' := s)
        (w2' := w2) (rest := rest); try done.
      * by rewrite Hbuf, Ew, <-!app_assoc.
      * unfold scan_fuel. lia.
    + split; [done|]. intros (w3 & E & _ & _). rewrite Ew in E.
      apply app_inv_head in E as ->. destruct Hnp. by exists w3.
Qed.

Lemma cplt_scan_hit fuel w1 w2 u1 u3 :
  w = w1 ++ w2 → occurrence w u1 s u3 → length w1 ≤ length u1 →
  length u1 - length w1 < fuel →
  cplt_scan fuel buf sb (length s) start (start + length w - 1) (length (cpre ++ w1)) = Ret true.
Proof.
  revert w1 w2. induction fuel as [|fuel IH]; intros w1 w2 Ew Hocc Hle Hf; [lia|].
  pose proof Hocc as (Eu & Hlu & Hru).
  assert (length w = length u1 + length s + length u3) as Hl1
    by (rewrite Eu, !length_app; lia).
  assert (length w = length w1 + length w2) as Hl2 by (rewrite Ew, length_app; lia).
  assert (0 < length s) as Hs0 by (destruct Hs as [Hs' _]; destruct s; simpl; [done|lia]).
  cbn [cplt_scan]. rewrite bool_decide_eq_true_2 by (unfold start; rewrite length_app; lia).
  destruct (cplt_match_at w1 w2 Ew) as (b & -> & Hb).
  { lia. }
  { intros -> _. enough (u1 = w1) as -> by done.
    rewrite Ew in Eu. apply app_inj_1 in Eu as [-> _]; [done|lia]. }
  bind_red. destruct b; [done|].
  destruct (decide (length w1 = length u1)) as [Heq|Hneq].
  { enough (false = true) by done. apply Hb. exists u3.
    enough (w1 = u1) as -> by done. rewrite Ew in Eu.
    by apply app_inj_1 in Eu as [-> _]. }
  destruct w2 as [|a w2]; [simpl in *; lia|].
  replace (S (length (cpre ++ w1))) with (length (cpre ++ w1 ++ [a]))
    by (rewrite !length_app; simpl; lia).
  apply (IH _ w2); [by rewrite <-app_assoc|done|rewrite length_app; simpl; lia..].
Qed.

Lemma cplt_scan_miss fuel w1 w2 :
  w = w1 ++ w2 → w ≠ [] → rest ≠ [] → (∀ u1 u3, ¬ occurrence w u1 s u3) →
  length w2 < fuel →
  cplt_scan fuel buf sb (length s) start (start + length w - 1) (length (cpre ++ w1)) = Ret false.
Proof.
  revert w1 w2. induction fuel as [|fuel IH]; intros w1 w2 Ew Hne Hr Hno Hf; [lia|].
  assert (length w = length w1 + length w2) as Hl2 by (rewrite Ew, length_app; lia).
  assert (0 < length w) as Hw0 by (destruct w; simpl; [done|lia]).
  assert (0 < length s) as Hs0 by (destruct Hs as [Hs' _]; destruct s; simpl; [done|lia]).
  cbn [cplt_scan]. case_bool_decide as Hc; [|done].
  unfold start in Hc. rewrite length_app in Hc.
  destruct (cplt_match_at w1 w2 Ew) as (b & -> & Hb); [lia|done|].
  bind_red. destruct b.
  { destruct Hb as [Hb _]. destruct (Hb eq_refl) as [w3 H]. by apply Hno in H. }
  destruct w2 as [|a w2]; [simpl in *; lia|].
  replace (S (length (cpre ++ w1))) with (length (cpre ++ w1 ++ [a]))
    by (rewrite !length_app; simpl; lia).
  apply (IH _ w2); [by rewrite <-app_assoc|done..|simpl in *; lia].
Qed.
End class_scan.

(** ** The end of a class and its commas *)

Definition commas (w : bytes) : nat := length (filter (λ c, c = COMMA) w).

Lemma commas_app w1 w2 : commas (w1 ++ w2) = commas w1 + commas w2.
Proof. unfold commas. by rewrite filter_app, length_app. Qed.

Lemma commas_free w : COMMA ∉ w → commas w = 0.
Proof.
  intros H. unfold commas. induction w as [|c w IH]; [done|].
  rewrite filter_cons_False by set_solver. apply IH. set_solver.
Qed.

Lemma commas_comma w : commas (COMMA :: w) = S (commas w).
Proof. unfold commas. by rewrite filter_cons_True. Qed.

Lemma commas_join l :
  Forall (λ t, COMMA ∉ t) l → commas (join COMMA l) = length l - 1.
Proof.
  induction l as [|t [|t' l] IH]; intros Hl; [done|..];
    apply Forall_cons in Hl as [Ht Hl].
  - simpl. by rewrite commas_free.
  - rewrite join_cons by done. rewrite commas_app, commas_free by done.
    rewrite commas_comma, IH by done. simpl. lia.
Qed.

Lemma countstr_commas s : nul_free s → countstr s COMMA = commas s.
Proof. intros. unfold countstr. by rewrite cstr_id. Qed.

Lemma class_end_spec fuel buf cpre w1 a w2 rest n :
  buf = cpre ++ w1 ++ (w2 ++ [a]) ++ rest → nul_free buf → SLASH ∉ w2 ++ [a] →
  rest = [] ∨ (∃ rest', rest = SLASH :: rest') → length w2 < fuel →
  class_end fuel buf (length (cpre ++ w1)) n =
    Ret (length (cpre ++ w1 ++ w2), n + commas w2).
Proof.
  revert w1 w2 n. induction fuel as [|fuel IH]; intros w1 w2 n Eb Hnf Hsl Hrest Hf; [lia|].
  cbn [class_end].
  assert (∀ x y, w2 ++ [a] = x :: y → rd buf (length (cpre ++ w1)) = Ret x
            ∧ rd buf (S (length (cpre ++ w1))) = rd (y ++ rest) 0) as Hrd.
  { intros x y Exy. rewrite Eb, Exy, app_assoc. split; [by rewrite rd_app_r0|].
    change ((x :: y) ++ rest) with ([x] ++ (y ++ rest)). rewrite app_assoc.
    replace (S (length (cpre ++ w1))) with (length ((cpre ++ w1) ++ [x]))
      by (rewrite !length_app; simpl; lia).
    by rewrite rd_app_r0. }
  destruct w2 as [|b w2].
  - destruct (Hrd a []) as [_ ->]; [done|]. rewrite app_nil_l.
    assert (∃ c, rd rest 0 = Ret c ∧ ceq c SLASH || ceq c NUL = true) as (c & -> & Hc).
    { destruct Hrest as [->|[rest' ->]]; eexists; split; done. }
    bind_red. rewrite Hc. simpl. by rewrite app_nil_r, Nat.add_0_r.
  - destruct (Hrd b (w2 ++ [a])) as [Hb ->]; [done|].
    assert (∃ c, rd ((w2 ++ [a]) ++ rest) 0 = Ret c ∧ c ∈ w2 ++ [a]) as (c & -> & Hc).
    { destruct w2 as [|c w2]; simpl; eexists; (split; [apply rd_cons_0|set_solver]). }
    bind_red. assert (ceq c SLASH || ceq c NUL = false) as ->.
    { apply orb_false_iff. rewrite !ceq_false. split; intros ->.
      - apply Hsl. set_solver.
      - apply Hnf. rewrite Eb. set_solver. }
    rewrite Hb. bind_red.
    replace (S (length (cpre ++ w1))) with (length (cpre ++ w1 ++ [b]))
      by (rewrite !length_app; simpl; lia).
    rewrite (IH (w1 ++ [b]) w2); try done.
    + f_equal. f_equal; [by rewrite <-!app_assoc|].
      unfold commas. rewrite filter_cons. destruct (ceq b COMMA) eqn:E.
      * apply ceq_true in E. rewrite decide_True by done. simpl. lia.
      * apply ceq_false in E. by rewrite decide_False.
    + by rewrite Eb, <-!app_assoc.
    + set_solver.
    + simpl in Hf. lia.
Qed.

(** ** cpltClass *)

(** A duplicate-free group inside a class is the class, or is shorter both in
    elements and in bytes. *)
Lemma group_length L C :
  L ≠ [] → NoDup L → L ⊆ C → Forall name_ok C →
  (length L = length C ∧ length (render_class L) = length (render_class C) ∧ C ⊆ L) ∨
  (length L < length C ∧ length (render_class L) < length (render_class C)).
Proof.
  intros HL0 Hnd Hsub HC.
  destruct (submseteq_Permutation L C) as [k Hk]; [by apply NoDup_submseteq|].
  unfold render_class. rewrite !length_join. rewrite Hk, length_app, sum_list_with_app.
  destruct k as [|t k].
  - left. rewrite app_nil_r in Hk. simpl. split_and!; [lia..|]. set_solver.
  - right. simpl. assert (length t ≠ 0).
    { assert (name_ok t) as [[Ht _] _]; [|by destruct t].
      rewrite Forall_forall in HC. apply HC. rewrite Hk. set_solver. }
    destruct L; simpl; [done|]. lia.
Qed.

(** The answer of [cpltClass]: what is left of class [C] without the group [L]. *)
Definition cplt_result (C L : list bytes) (type : nat) : bytes :=
  if bool_decide (length L = length C) then STAR
  else if bool_decide (type = 1) then render_class (filter (λ e, e ∉ L) C)
  else hd [] (filter (λ e, e ∉ L) C).

Lemma render_cons c P :
  render (c :: P) = render_class c ++ match P with [] => [] | _ => SLASH :: render P end.
Proof. unfold render. destruct P; simpl; [by rewrite app_nil_r|done]. Qed.

Lemma last_not_comma c w a :
  class_ok c → render_class c = w ++ [a] → a ≠ COMMA ∧ commas w = length c - 1.
Proof.
  intros [Hne Hc] Hw.
  assert (commas (render_class c) = length c - 1) as Hcm
    by (by apply commas_join, tokens_comma_free, names_tokens).
  assert (a ≠ COMMA) as Ha.
  { intros ->. apply (f_equal (split_on COMMA)) in Hw.
    rewrite split_render_class, (split_on_app_gen COMMA w []) in Hw by done.
    rewrite Hw in Hc. apply Forall_app in Hc as [_ Hc]. simpl in Hc.
    apply Forall_cons in Hc as [[[Hn _] _] _]. done. }
  split; [done|]. rewrite Hw, commas_app in Hcm. rewrite (commas_free [a]) in Hcm by set_solver.
  lia.
Qed.

Section cplt.
Context (x : bytes) (xs C : list bytes) (sb : bytes) (type : nat).
Let L := x :: xs.
Hypothesis HL : Forall name_ok L.
Hypothesis HLnd : NoDup L.
Hypothesis HLC : L ⊆ C.
Hypothesis Hsb : cbuf sb x.

(** The condition under which [cpltClass] looks inside a class, and the outcome
    of the search there. *)
Lemma cplt_class_step buf cpre c rest w a :
  buf = cpre ++ render_class c ++ rest → nul_free buf → class_ok c →
  rest = [] ∨ (∃ rest', rest = SLASH :: rest') →
  render_class c = w ++ [a] →
  (x ∈ c → c = C) → (x ∉ c → rest ≠ []) →
  (if (bool_decide (length L - 1 < length c - 1)
        && bool_decide (length (render_class L) < length (render_class c))) ||
      (bool_decide (length L - 1 = length c - 1)
        && bool_decide (length (render_class c) = length (render_class L)))
   then cplt_scan (S (S (length buf))) buf sb (length x) (length cpre)
          (length cpre + length (render_class c) - 1) (length cpre)
   else Ret false) = Ret (bool_decide (x ∈ c)).
Proof.
  intros Eb Hnf Hc Hrest Hw HxC Hxn. pose proof Hc as [Hcne Hcn].
  pose proof (render_class_no_slash _ Hcn) as Hnsl.
  assert (token at_sep x) as Htx by by apply Forall_cons in HL as [[? _] _].
  assert (Forall (token comma_sep) c) as Htc by by apply names_tokens.
  assert (length buf = length cpre + length (render_class c) + length rest) as Hlb
    by (rewrite Eb, !length_app; lia).
  destruct (decide (x ∈ c)) as [Hx|Hx];
    [rewrite (bool_decide_eq_true_2 _ Hx)|rewrite (bool_decide_eq_false_2 _ Hx)].
  - specialize (HxC Hx) as ->.
    assert (Hcond : (bool_decide (length L - 1 < length C - 1)
        && bool_decide (length (render_class L) < length (render_class C))) ||
      (bool_decide (length L - 1 = length C - 1)
        && bool_decide (length (render_class C) = length (render_class L))) = true).
    { destruct (group_length L C) as [(H1 & H2 & _)|[H1 H2]]; try done.
      - rewrite orb_true_iff. right. rewrite !bool_decide_eq_true_2 by lia. done.
      - rewrite !(bool_decide_eq_true_2 (_ < _)) by (simpl in *; lia). done. }
    rewrite Hcond. destruct (elem_occurrence _ _ Hx) as (u1 & u3 & Hocc).
    rewrite <-(app_nil_r cpre) at 3.
    eapply (cplt_scan_hit sb x buf cpre (render_class C) rest); try done; [simpl; lia|].
    destruct Hocc as [E _]. apply (f_equal length) in E. rewrite !length_app in E.
    unfold render_class in *. simpl. lia.
  - match goal with |- (if ?b then _ else _) = _ => destruct b; [|done] end.
    rewrite <-(app_nil_r cpre) at 3.
    eapply (cplt_scan_miss sb x buf cpre (render_class c) rest); try done.
    + by apply render_class_ne.
    + by apply Hxn.
    + intros u1 u3 Hocc. apply Hx. eapply occurrence_elem; try done.
      by eapply token_weaken; [apply at_sep_comma|].
    + rewrite <-Hw. lia.
Qed.

(** Reading at the start of a class, or at the slash in front of it. *)
Lemma class_start buf pre sl c rest :
  buf = pre ++ sl ++ render_class c ++ rest → nul_free buf → class_ok c → (sl = [] ∧ pre = []) ∨ sl = [SLASH] →
  ∃ ch, rd buf (length pre) = Ret ch ∧ ceq ch NUL = false ∧
    (if ceq ch SLASH then S (length pre) else length pre) = length (pre ++ sl).
Proof.
  intros Eb Hnf Hc Hsl. pose proof (render_class_ne c Hc) as Hne. pose proof Hc as [_ Hcn]. destruct Hsl as [[-> ->] | ->].
  - destruct (render_class c) as [|b w'] eqn:Er; [done|].
    exists b. rewrite Eb. split; [done|]. split.
    + apply ceq_false. intros ->. apply Hnf. rewrite Eb. set_solver.
    + assert (ceq b SLASH = false) as ->; [|done]. apply ceq_false. intros ->.
      apply (render_class_no_slash c Hcn). rewrite Er. set_solver.
  - exists SLASH. rewrite Eb, rd_app_r0. split; [done|]. split; [done|].
    rewrite length_app. simpl. lia.
Qed.

Lemma class_end_render buf cpre c rest w a :
  buf = cpre ++ render_class c ++ rest → nul_free buf → class_ok c → rest = [] ∨ (∃ rest', rest = SLASH :: rest') →
  render_class c = w ++ [a] →
  class_end (S (S (length buf))) buf (length cpre) 0 = Ret (length cpre + length (render_class c) - 1, length c - 1).
Proof.
  intros Eb Hnf Hc Hrest Hw. pose proof Hc as [_ Hcn]. destruct (last_not_comma c w a Hc Hw) as [_ Hcm].
  rewrite <-(app_nil_r cpre) at 1. rewrite (class_end_spec _ buf cpre [] a w rest); try done.
  - rewrite Hcm, Hw, !length_app. simpl. do 2 f_equal. lia.
  - by rewrite Eb, Hw.
  - rewrite <-Hw. by apply render_class_no_slash.
  - apply (f_equal length) in Eb. rewrite Hw, !length_app in Eb. lia.
Qed.

(** The answer once the class is found. *)
Lemma cplt_found buf cpre rest :
  buf = cpre ++ render_class C ++ rest → class_ok C → NoDup C →
  (if bool_decide (length (render_class C) = length (render_class L)) then Ret (sdscat sdsempty (str "*"))
   else
     let result := sdscat sdsempty (slice buf (length cpre) (length (render_class C))) in
     if bool_decide (type = 1) then sdsDel result (render_class L) else firstOfsdsDel result (render_class L))
  = Ret (cplt_result C L type).
Proof.
  intros Eb Hc Hnd. pose proof Hc as [Hcne Hcn]. unfold cplt_result.
  destruct (group_length L C) as [(H1 & H2 & _)|[H1 H2]]; try done.
  - by rewrite !bool_decide_eq_true_2 by lia.
  - rewrite (bool_decide_eq_false_2 (length (render_class C) = _)),
      (bool_decide_eq_false_2 (length L = length C)) by lia. cbv zeta.
    assert (slice buf (length cpre) (length (render_class C)) = render_class C) as ->.
    { unfold slice. by rewrite Eb, drop_app_length, take_app_length. }
    rewrite sdscat_nul_free by by apply render_class_nul_free.
    assert (type ≠ 1 ∨ type = 1) as [Ht|Ht] by lia.
    + rewrite bool_decide_eq_false_2 by done. apply firstOfsdsDel_spec; try done; by apply names_tokens.
    + rewrite bool_decide_eq_true_2 by done. apply sdsDel_spec; try done; by apply names_tokens.
Qed.

Lemma cplt_classes_spec fuel buf pre sl P :
  buf = pre ++ sl ++ render P → nul_free buf → Forall class_ok P → NoDup (concat P) →
  C ∈ P → (sl = [] ∧ pre = []) ∨ sl = [SLASH] → length P ≤ fuel →
  cplt_classes fuel buf (render_class L) sb (length x) (length L - 1) type (length pre) =
    Ret (cplt_result C L type).
Proof.
  revert pre sl P. induction fuel as [|fuel IH]; intros pre sl P Eb Hnf HP Hnd HC Hsl Hf;
    (destruct P as [|c P]; [set_solver|]); [simpl in Hf; lia|].
  apply Forall_cons in HP as [Hc HP]. pose proof Hc as [Hcne Hcn].
  rewrite render_cons in Eb.
  set (rest := match P with [] => [] | _ => SLASH :: render P end) in Eb.
  assert (rest = [] ∨ (∃ rest', rest = SLASH :: rest')) as Hrest
    by (subst rest; destruct P; eauto).
  assert (∃ w a, render_class c = w ++ [a]) as (w & a & Hw).
  { pose proof (render_class_ne c Hc). destruct (render_class c) as [|a w _] using rev_ind; [done|by eexists _, _]. }
  destruct (class_start buf pre sl c rest Eb Hnf Hc Hsl) as (ch & Hch & Hch0 & Hstart).
  cbn [cplt_classes]. rewrite Hch. bind_red. rewrite Hch0, Hstart.
  assert (nul_free (render_class L)) as HLn by by apply render_class_nul_free.
  rewrite strlen_nul_free by done.
  assert (buf = (pre ++ sl) ++ render_class c ++ rest) as Eb' by by rewrite Eb, <-!app_assoc.
  rewrite (class_end_render buf (pre ++ sl) c rest w a Eb' Hnf Hc Hrest Hw). bind_red.
  assert (0 < length (render_class c)) as Hlc by (rewrite Hw, length_app; simpl; lia).
  replace (length (pre ++ sl) + length (render_class c) - 1 - length (pre ++ sl) + 1)
    with (length (render_class c)) by lia.
  simpl in Hnd. apply NoDup_app in Hnd as (Hndc & Hdisj & HndP).
  assert (x ∈ c → c = C) as HxC.
  { intros Hx. apply elem_of_cons in HC as [->|HC]; [done|].
    destruct (Hdisj x Hx). apply elem_of_concat. exists C. split; [done|]. apply HLC. set_solver. }
  assert (x ∉ c → C ∈ P) as HxP.
  { intros Hx. apply elem_of_cons in HC as [->|HC]; [|done]. destruct Hx. apply HLC. set_solver. }
  rewrite (cplt_class_step buf (pre ++ sl) c rest w a) by
    (done || intros Hx%HxP; subst rest; by destruct P; [set_solver|]).
  bind_red. case_bool_decide as Hx.
  - specialize (HxC Hx) as ->. by apply (cplt_found buf (pre ++ sl) rest).
  - specialize (HxP Hx). destruct P as [|c' P]; [set_solver|].
    replace (S (length (pre ++ sl) + length (render_class c) - 1))
      with (length (pre ++ sl ++ render_class c)) by (rewrite !length_app in *; lia).
    apply (IH (pre ++ sl ++ render_class c) [SLASH] (c' :: P)); try done.
    + by rewrite Eb, <-!app_assoc.
    + by right.
    + simpl in *. lia.
Qed.
End cplt.

Lemma length_render P : Forall class_ok P → length P ≤ length (render P).
Proof.
  intros HP. unfold render. rewrite length_join, length_fmap. destruct P as [|c P]; [done|].
  apply Forall_cons in HP as [Hc _]. pose proof (render_class_ne c Hc).
  destruct (render_class c) eqn:E; [done|]. simpl. rewrite E. simpl. lia.
Qed.

(** On the text of a well-formed partition and a group of elements of one class
    [C], [cpltClass] returns "*" when the group is the whole class, and otherwise
    the text of the rest of the class ([type] 1) or the first element of it. *)
Lemma cpltClass_spec P C x xs type :
  part_ok P → C ∈ P → Forall name_ok (x :: xs) → NoDup (x :: xs) → (x :: xs) ⊆ C →
  (xs = [] ∨ length x < 10) →
  cpltClass (render P) (Some (render_class (x :: xs))) type = Ret (cplt_result C (x :: xs) type).
Proof.
  intros (Hne & HP & Hnd) HC HL HLnd HLC Hx. unfold cpltClass.
  pose proof (length_render P HP) as Hlen.
  assert (Forall (token comma_sep) (x :: xs)) as Ht by by apply names_tokens.
  assert (∀ sb, cbuf sb x →
    cplt_classes (S (length (render P))) (render P) (render_class (x :: xs)) sb (length x)
      (length (x :: xs) - 1) type 0 = Ret (cplt_result C (x :: xs) type)) as Hgo.
  { intros sb Hsb. apply (cplt_classes_spec x xs C sb type HL HLnd HLC Hsb) with
      (pre := []) (sl := []) (P := P); try done.
    - by apply render_nul_free.
    - by left.
    - lia. }
  unfold render_class at 1. rewrite strchr_join by done. destruct xs as [|y xs].
  - rewrite bool_decide_eq_false_2 by (simpl; lia).
    rewrite strlen_nul_free by by apply render_class_nul_free.
    apply Hgo, cbuf_refl.
  - rewrite bool_decide_eq_true_2 by (simpl; lia).
    destruct Hx as [Hx|Hx]; [done|].
    assert (first_elem (render_class (x :: y :: xs)) = x) as Hfe by by apply first_elem_join.
    unfold copy_first10. rewrite Hfe.
    rewrite bool_decide_eq_true_2 by done. bind_red.
    rewrite countstr_commas by by apply render_class_nul_free.
    unfold render_class at 2. rewrite commas_join by by apply tokens_comma_free.
    apply Hgo, cbuf_pad.
Qed.

(** ** Properties *)

(** on the text of well-formed classes and a group of elements of one class,
    [cpltClass] returns the rest of that class (its first element for the other
    type), "*" when nothing is left. *)
Theorem cpltClass_complement P C x xs type :
  part_ok P → C ∈ P → Forall name_ok (x :: xs) → NoDup (x :: xs) → (x :: xs) ⊆ C →
  (xs = [] ∨ length x < 10) →
  cpltClass (render P) (Some (render_class (x :: xs))) type =
    Ret (if bool_decide (length (x :: xs) = length C) then STAR
         else if bool_decide (type = 1) then render_class (filter (λ e, e ∉ x :: xs) C)
         else hd [] (filter (λ e, e ∉ x :: xs) C)).
Proof. apply cpltClass_spec. Qed.

Lemma cpltClass_complement_witness :
  cpltClass (str "a/b,c,d/e") (Some (str "c,b")) 1 = Ret (str "d").
Proof.
  apply (cpltClass_complement [[str "a"]; [str "b"; str "c"; str "d"]; [str "e"]]
    [str "b"; str "c"; str "d"] (str "c") [str "b"] 1); [concrete..|right; simpl; lia].
Defined.

(** A group that is not inside a class makes [cpltClass] read past the end of the
    text when its first element ends the last one of the text. *)
Lemma cpltClass_absent : cpltClass (str "a/b,c,xa") (Some (str "a,b")) 1 = Fail OutOfBounds.
Proof. by vm_compute. Qed.
