(* ===== verification/TextState.v ===== *)
(** * TextState: executing an operation on a state text

    [updateVerticeUfsFromState] (src/src/ufs.c) computes the text of a vertex of
    the 2D state space from the text of its predecessor and the operation on the
    edge between them.  The definitions translate its loops; the theorems give
    the exact resulting text for a well-formed state, relate it to the abstract
    object and show that the length the caller caches in [len_ufs] is kept. *)
From Stdlib Require Import Ascii.
From S2P Require Import Prelude Sds Partition OtStr ClassText.

Definition OPTYPE_UNION : Z := 1.
Definition OPTYPE_SPLIT : Z := 2.

(** ** The routine *)

(** Reading a [char *] argument that may be NULL. *)
Definition deref (p : option bytes) : out bytes :=
  match p with Some s => Ret s | None => Fail NullDeref end.

(** The search for the classes of both arguments of a union; -1 is "not found". *)
Fixpoint union_classes (elements : list bytes) (i c1 c2 : Z) (argv1 argv2 : bytes)
    : out (Z * Z) :=
  match elements with
  | [] => Ret (c1, c2)
  | e :: rest =>
    c1 ← (if bool_decide (c1 = -1)%Z then
            b ← findstr e argv1; Ret (if b : bool then i else c1) else Ret c1);
    c2 ← (if bool_decide (c2 = -1)%Z then
            b ← findstr e argv2; Ret (if b : bool then i else c2) else Ret c2);
    if bool_decide (c1 ≠ -1 ∧ c2 ≠ -1)%Z then Ret (c1, c2)
    else union_classes rest (i + 1)%Z c1 c2 argv1 argv2
  end.

(** [elements[i]] for an index that may be -1. *)
Definition elem_at (elements : list bytes) (i : Z) : out bytes :=
  if bool_decide (i < 0)%Z then Fail OutOfBounds
  else match elements !! Z.to_nat i with Some e => Ret e | None => Fail OutOfBounds end.

(** The rebuilding loop of a union: class [high] is skipped, class [low] is
    replaced by [temp]. *)
Fixpoint union_cat (elements : list bytes) (i low high len : Z) (temp v_ufs : bytes) : bytes :=
  match elements with
  | [] => v_ufs
  | e :: rest =>
    if bool_decide (i = high) then union_cat rest (i + 1)%Z low high len temp v_ufs
    else
      let v_ufs := if bool_decide (i = low) then sdscat v_ufs temp else sdscat v_ufs e in
      let v_ufs :=
        if bool_decide (high ≠ len - 1)%Z
        then if bool_decide (i ≠ len - 1)%Z then sdscat v_ufs (str "/") else v_ufs
        else if bool_decide (i ≠ len - 2)%Z then sdscat v_ufs (str "/") else v_ufs in
      union_cat rest (i + 1)%Z low high len temp v_ufs
  end.

(** The search loop of a split: the first class that holds the first element of
    the argument, unless the class text has the argument's length. *)
Fixpoint split_class (elements : list bytes) (i : Z) (argv1 : bytes) : out Z :=
  match elements with
  | [] => Ret (-1)%Z
  | e :: rest =>
    b ← findstr e argv1;
    if b : bool then
      Ret (if bool_decide (length e ≠ strlen argv1) then i else (-1)%Z)
    else split_class rest (i + 1)%Z argv1
  end.

Fixpoint split_cat (elements : list bytes) (i argvclass len : Z) (temp argv1 v_ufs : bytes)
    : bytes :=
  match elements with
  | [] => v_ufs
  | e :: rest =>
    let v_ufs :=
      if bool_decide (i ≠ argvclass) then
        let v_ufs := sdscat v_ufs e in
        if bool_decide (i ≠ len - 1)%Z then sdscat v_ufs (str "/") else v_ufs
      else
        let v_ufs := sdscat (sdscat (sdscat v_ufs temp) (str "/")) argv1 in
        if bool_decide (argvclass ≠ len - 1)%Z then sdscat v_ufs (str "/") else v_ufs in
    split_cat rest (i + 1)%Z argvclass len temp argv1 v_ufs
  end.

(** The new content: the old text itself when nothing was rebuilt. *)
Definition updateVerticeUfsFromState (u : bytes) (type : Z) (argv1 argv2 : option bytes)
    (len_u : nat) : out bytes :=
  elements ← split1 u len_u SLASH;
  let len := Z.of_nat (length elements) in
  v_ufs ←
    (if bool_decide (type = OPTYPE_UNION) then
       a1 ← deref argv1;
       star ← (if streq a1 STAR then Ret true
               else a2 ← deref argv2; Ret (streq a2 STAR));
       if star : bool then Ret sdsempty
       else
         a2 ← deref argv2;
         '(c1, c2) ← union_classes elements 0 (-1) (-1) a1 a2;
         if bool_decide (c1 ≠ c2) then
           let low := Z.min c1 c2 in
           let high := Z.max c1 c2 in
           el ← elem_at elements low;
           eh ← elem_at elements high;
           let temp := sdscat (sdscat (sdsnew el) (str ",")) eh in
           Ret (union_cat elements 0 low high len temp sdsempty)
         else Ret sdsempty
     else
       a1 ← deref argv1;
       if streq a1 STAR then Ret sdsempty
       else
         c ← split_class elements 0 a1;
         if bool_decide (c ≠ -1)%Z then
           e ← elem_at elements c;
           temp ← sdsDel (sdsnew e) a1;
           Ret (split_cat elements 0 c len temp a1 sdsempty)
         else Ret sdsempty);
  Ret (if bool_decide (length v_ufs = 0) then u else v_ufs).

(** ** Finding classes *)

(** An argument of an operation: one element, or a group whose first element
    fits the ten-byte buffer of [findstr]. *)
Definition arg_ok (x : bytes) (xs : list bytes) : Prop :=
  Forall name_ok (x :: xs) ∧ (xs = [] ∨ length x < 10).

#[global] Instance arg_ok_dec x xs : Decision (arg_ok x xs).
Proof. unfold arg_ok. apply _. Defined.

Lemma findstr_class c x xs :
  class_ok c → arg_ok x xs →
  findstr (render_class c) (render_class (x :: xs)) = Ret (bool_decide (x ∈ c)).
Proof.
  intros [Hc Hcn] [Hx Hlen]. apply findstr_spec; [done|by apply names_tokens..|done].
Qed.

(** Position of an element, -1 when absent. *)
Definition pos (P : list (list bytes)) (x : bytes) : Z :=
  match class_idx P x with Some i => Z.of_nat i | None => -1 end.

Lemma class_idx_cons c P x :
  class_idx (c :: P) x = if bool_decide (x ∈ c) then Some 0 else S <$> class_idx P x.
Proof.
  unfold class_idx. simpl. case_decide; case_bool_decide; try done.
  by destruct (list_find _ P) as [[]|].
Qed.

Lemma class_idx_mid P1 c P2 x :
  (∀ d, d ∈ P1 → x ∉ d) → x ∈ c → class_idx (P1 ++ c :: P2) x = Some (length P1).
Proof.
  intros H Hx. induction P1 as [|d P1 IH]; simpl; rewrite class_idx_cons.
  - by rewrite bool_decide_eq_true_2.
  - rewrite bool_decide_eq_false_2 by (apply H; set_solver).
    rewrite IH; [done|]. intros d' ?. apply H. set_solver.
Qed.

Definition found_at (n c : Z) (P : list (list bytes)) (x : bytes) : Z :=
  if bool_decide (c = -1)%Z
  then match class_idx P x with Some i => (n + Z.of_nat i)%Z | None => (-1)%Z end
  else c.

Lemma found_at_step n c d P x :
  (0 ≤ n)%Z →
  found_at n c (d :: P) x =
    found_at (n + 1) (if bool_decide (c = -1)%Z then if bool_decide (x ∈ d) then n else c else c) P x.
Proof.
  intros Hn. unfold found_at. rewrite class_idx_cons.
  destruct (class_idx P x); repeat (case_bool_decide; simpl); lia || congruence.
Qed.

Lemma union_classes_spec P n c1 c2 a aa b bb :
  Forall class_ok P → arg_ok a aa → arg_ok b bb → (0 ≤ n)%Z →
  union_classes (render_class <$> P) n c1 c2 (render_class (a :: aa)) (render_class (b :: bb)) =
    Ret (found_at n c1 P a, found_at n c2 P b).
Proof.
  intros HP Ha Hb. revert n c1 c2. induction HP as [|d P Hd HP IH]; intros n c1 c2 Hn.
  { simpl. unfold found_at. simpl. repeat case_bool_decide; by subst. }
  rewrite fmap_cons. cbn [union_classes]. rewrite !findstr_class by done. bind_red.
  rewrite !found_at_step by done.
  assert (∀ c x, (if bool_decide (c = -1)%Z
     then Ret (if bool_decide (x ∈ d) then n else c) else Ret c) =
     Ret (if bool_decide (c = -1)%Z then if bool_decide (x ∈ d) then n else c else c)) as Hif
    by (intros; by case_bool_decide).
  rewrite !Hif. bind_red.
  generalize (if bool_decide (c1 = -1)%Z then if bool_decide (a ∈ d) then n else c1 else c1).
  generalize (if bool_decide (c2 = -1)%Z then if bool_decide (b ∈ d) then n else c2 else c2).
  clear c1 c2 Hif. intros c2 c1. case_bool_decide as Hboth; [|by rewrite IH by lia].
  destruct Hboth as [H1 H2]. unfold found_at. by rewrite !bool_decide_eq_false_2.
Qed.

Lemma split_class_spec P n x xs :
  Forall class_ok P → arg_ok x xs →
  split_class (render_class <$> P) n (render_class (x :: xs)) =
    Ret (match class_idx P x with
         | Some i => if bool_decide (length (render_class (P !!! i)) ≠ length (render_class (x :: xs)))
                     then (n + Z.of_nat i)%Z else (-1)%Z
         | None => (-1)%Z end).
Proof.
  intros HP Hx. revert n. induction HP as [|d P Hd HP IH]; intros n; [done|].
  rewrite fmap_cons. cbn [split_class]. rewrite findstr_class by done. bind_red.
  rewrite class_idx_cons. case_bool_decide.
  - rewrite strlen_nul_free by (apply render_class_nul_free; by destruct Hx).
    simpl. case_bool_decide; f_equal; lia.
  - rewrite IH. destruct (class_idx P x) as [i|]; simpl; [|done].
    case_bool_decide; f_equal; lia.
Qed.

(** ** The rebuilding loops *)

Lemma sdscat_slash s : sdscat s (str "/") = s ++ [SLASH].
Proof. reflexivity. Qed.

Fixpoint union_out (elements : list bytes) (i low high : Z) (temp : bytes) : list bytes :=
  match elements with
  | [] => []
  | e :: rest =>
    if bool_decide (i = high) then union_out rest (i + 1)%Z low high temp
    else (if bool_decide (i = low) then temp else e) :: union_out rest (i + 1)%Z low high temp
  end.

Lemma union_cat_out elements i low high len temp v :
  Forall nul_free elements → nul_free temp →
  (i + Z.of_nat (length elements) = len)%Z → (low < high < len)%Z →
  union_cat elements i low high len temp v =
    v ++ join SLASH (union_out elements i low high temp).
Proof.
  intros Hel Ht. revert i v. induction Hel as [|e rest He Hrest IH]; intros i v Hlen Hlh; simpl.
  { by rewrite app_nil_r. }
  simpl in Hlen. case_bool_decide as Hih; [rewrite IH by lia; done|].
  rewrite IH by lia. clear IH.
  assert ((if bool_decide (i = low) then sdscat v temp else sdscat v e) =
          v ++ (if bool_decide (i = low) then temp else e)) as ->
    by (case_bool_decide; by rewrite sdscat_nul_free).
  set (t := if bool_decide (i = low) then temp else e).
  rewrite !sdscat_slash. destruct rest as [|e' rest]; simpl in Hlen.
  - assert (high ≠ len - 1)%Z by lia. rewrite bool_decide_eq_true_2 by done.
    rewrite bool_decide_eq_false_2 by lia. simpl. by rewrite app_nil_r.
  - assert (∀ l : list bytes, l ≠ [] →
      ((v ++ t) ++ [SLASH]) ++ join SLASH l = v ++ join SLASH (t :: l)) as Hcons.
    { intros l Hl. rewrite join_cons by done. by rewrite <-!app_assoc. }
    assert (∀ l1 l2 : list bytes, l1 ≠ [] → l1 ++ l2 ≠ []) as Happ by (by intros []).
    simpl. destruct (decide (i + 1 = high)%Z) as [Hh|Hh].
    + rewrite (bool_decide_eq_true_2 (i + 1 = high)%Z) by done.
      destruct rest as [|e'' rest]; simpl in Hlen.
      * rewrite bool_decide_eq_false_2 by lia. rewrite bool_decide_eq_false_2 by lia.
        simpl. by rewrite app_nil_r.
      * rewrite bool_decide_eq_true_2 by lia. rewrite bool_decide_eq_true_2 by lia.
        apply Hcons. simpl. rewrite bool_decide_eq_false_2 by lia. done.
    + rewrite (bool_decide_eq_false_2 (i + 1 = high)%Z) by done.
      case_bool_decide; rewrite bool_decide_eq_true_2 by lia; by apply Hcons.
Qed.

Lemma union_out_app l1 l2 i low high temp :
  union_out (l1 ++ l2) i low high temp =
    union_out l1 i low high temp ++ union_out l2 (i + Z.of_nat (length l1)) low high temp.
Proof.
  revert i. induction l1 as [|e l1 IH]; intros i; simpl.
  - f_equal. lia.
  - rewrite IH. replace (i + Z.of_nat (S (length l1)))%Z with (i + 1 + Z.of_nat (length l1))%Z by lia.
    by case_bool_decide.
Qed.

Lemma union_out_id l i low high temp :
  (∀ k, i ≤ k < i + Z.of_nat (length l) → k ≠ low ∧ k ≠ high)%Z →
  union_out l i low high temp = l.
Proof.
  revert i. induction l as [|e l IH]; intros i H; simpl; [done|].
  destruct (H i) as [Hl Hh]; [simpl; lia|].
  rewrite !bool_decide_eq_false_2 by done. rewrite IH; [done|].
  intros k Hk. apply H. simpl. lia.
Qed.

Lemma union_out_merge E1 e1 E2 e2 E3 temp :
  union_out (E1 ++ e1 :: E2 ++ e2 :: E3) 0 (Z.of_nat (length E1))
    (Z.of_nat (length E1) + 1 + Z.of_nat (length E2)) temp = E1 ++ temp :: E2 ++ E3.
Proof.
  rewrite union_out_app, union_out_id by lia. f_equal. simpl.
  rewrite (bool_decide_eq_false_2 (0 + Z.of_nat (length E1) = _)%Z) by lia.
  rewrite (bool_decide_eq_true_2 (0 + Z.of_nat (length E1) = _)%Z) by lia. f_equal.
  rewrite union_out_app, union_out_id by lia. f_equal. simpl.
  rewrite bool_decide_eq_true_2 by lia. apply union_out_id. lia.
Qed.

Fixpoint split_out (elements : list bytes) (i argvclass : Z) (temp argv1 : bytes) : list bytes :=
  match elements with
  | [] => []
  | e :: rest =>
    (if bool_decide (i ≠ argvclass) then [e] else [temp; argv1])
      ++ split_out rest (i + 1)%Z argvclass temp argv1
  end.

Lemma split_cat_out elements i c len temp argv1 v :
  Forall nul_free elements → nul_free temp → nul_free argv1 →
  (i + Z.of_nat (length elements) = len)%Z →
  split_cat elements i c len temp argv1 v =
    v ++ join SLASH (split_out elements i c temp argv1).
Proof.
  intros Hel Ht Ha. revert i v. induction Hel as [|e rest He Hrest IH]; intros i v Hlen; simpl.
  { by rewrite app_nil_r. }
  simpl in Hlen. rewrite IH by lia. clear IH. rewrite !sdscat_slash, !sdscat_nul_free by done.
  assert (rest ≠ [] → split_out rest (i + 1) c temp argv1 ≠ []) as Hne.
  { destruct rest; [done|]. simpl. case_bool_decide; done. }
  case_bool_decide as Hic.
  - destruct rest as [|e' rest].
    + rewrite bool_decide_eq_false_2 by (simpl in *; lia). simpl. by rewrite app_nil_r.
    + rewrite bool_decide_eq_true_2 by (simpl in *; lia).
      rewrite (join_app SLASH [e]) by (done || by apply Hne). simpl. by rewrite <-!app_assoc.
  - destruct rest as [|e' rest].
    + rewrite bool_decide_eq_false_2 by (simpl in *; lia). simpl.
      by rewrite app_nil_r, <-!app_assoc.
    + rewrite bool_decide_eq_true_2 by (simpl in *; lia).
      rewrite (join_app SLASH [temp; argv1]) by (done || by apply Hne).
      simpl. by rewrite <-!app_assoc.
Qed.

Lemma split_out_app l1 l2 i c temp argv1 :
  split_out (l1 ++ l2) i c temp argv1 =
    split_out l1 i c temp argv1 ++ split_out l2 (i + Z.of_nat (length l1)) c temp argv1.
Proof.
  revert i. induction l1 as [|e l1 IH]; intros i; simpl.
  - f_equal. lia.
  - rewrite IH, <-app_assoc.
    by replace (i + Z.of_nat (S (length l1)))%Z with (i + 1 + Z.of_nat (length l1))%Z by lia.
Qed.

Lemma split_out_id l i c temp argv1 :
  (c < i ∨ i + Z.of_nat (length l) ≤ c)%Z → split_out l i c temp argv1 = l.
Proof.
  revert i. induction l as [|e l IH]; intros i H; simpl; [done|]. simpl in H.
  rewrite bool_decide_eq_true_2 by lia. simpl. rewrite IH; [done|lia].
Qed.

Lemma split_out_at E1 e E2 temp argv1 :
  split_out (E1 ++ e :: E2) 0 (Z.of_nat (length E1)) temp argv1 = E1 ++ temp :: argv1 :: E2.
Proof.
  rewrite split_out_app, split_out_id by lia. f_equal. simpl.
  rewrite bool_decide_eq_false_2 by lia. simpl. do 2 f_equal. apply split_out_id. lia.
Qed.

(** ** The resulting text, exactly *)

Lemma elem_at_lookup l i e : l !! i = Some e → elem_at l (Z.of_nat i) = Ret e.
Proof.
  intros H. unfold elem_at. rewrite bool_decide_eq_false_2 by lia. by rewrite Nat2Z.id, H.
Qed.

Lemma split1_render P :
  P ≠ [] → Forall class_ok P →
  split1 (render P) (length (render P)) SLASH = Ret (render_class <$> P).
Proof.
  intros Hne HP. unfold split1. rewrite sdssplitlen_spec by by apply render_ne.
  bind_red. by rewrite split_render.
Qed.

Lemma classes_nul_free P : Forall class_ok P → Forall nul_free (render_class <$> P).
Proof.
  intros HP. apply Forall_fmap. eapply Forall_impl; [done|].
  intros c [_ Hc]. by apply render_class_nul_free.
Qed.

Lemma arg_not_star x xs : arg_ok x xs → streq (render_class (x :: xs)) STAR = false.
Proof.
  intros [Hx _]. apply streq_neq.
  - by apply render_class_nul_free.
  - by apply (bool_decide_unpack _).
  - intros E. destruct xs as [|y xs].
    + apply Forall_cons in Hx as [[_ ?] _]. done.
    + assert (COMMA ∈ STAR) as H; [|vm_compute in H; by apply list_elem_of_In in H as [|[]]].
      rewrite <-E. unfold render_class. rewrite join_cons by done. set_solver.
Qed.

Lemma distinct_classes (P1 P2 : list (list bytes)) (c1 : list bytes) x :
  NoDup (concat (P1 ++ c1 :: P2)) → x ∈ c1 → ∀ d, d ∈ P1 → x ∉ d.
Proof.
  rewrite concat_app. simpl. intros (_ & H & _)%NoDup_app Hx d Hd Hxd.
  apply (H x); [apply elem_of_concat; eauto|set_solver].
Qed.

Lemma render_length_nz P : P ≠ [] → Forall class_ok P → length (render P) ≠ 0.
Proof. intros ?? H%nil_length_inv. by apply render_ne in H. Qed.

Lemma pos_mid (P1 P2 : list (list bytes)) c x :
  NoDup (concat (P1 ++ c :: P2)) → x ∈ c →
  found_at 0 (-1) (P1 ++ c :: P2) x = Z.of_nat (length P1).
Proof.
  intros Hnd Hx. unfold found_at. rewrite bool_decide_eq_true_2 by done.
  rewrite class_idx_mid; [lia| |done]. by eapply distinct_classes.
Qed.

(** A class is its group and the rest. *)
Lemma group_rest (C L : list bytes) :
  NoDup C → NoDup L → L ⊆ C → filter (λ e, e ∉ L) C ++ L ≡ₚ C.
Proof.
  intros HC HL Hsub. apply NoDup_Permutation; [|done|].
  - apply NoDup_app. split_and!; [by apply NoDup_filter| |done].
    intros x [? _]%list_elem_of_filter. done.
  - intros x. rewrite elem_of_app, list_elem_of_filter.
    destruct (decide (x ∈ L)); [|tauto]. split; [|auto]. intros _. by apply Hsub.
Qed.

Lemma splitted_ok P1 C P2 L :
  part_ok (P1 ++ C :: P2) → L ≠ [] → Forall name_ok L → NoDup L → L ⊆ C → length L < length C →
  part_ok (P1 ++ filter (λ e, e ∉ L) C :: L :: P2) ∧
  concat (P1 ++ filter (λ e, e ∉ L) C :: L :: P2) ≡ₚ concat (P1 ++ C :: P2).
Proof.
  intros (_ & HP & Hnd) HL0 HLn HLnd HLC Hlen.
  assert (NoDup C) as HCnd.
  { rewrite concat_app in Hnd. simpl in Hnd. by apply NoDup_app in Hnd as (_ & _ & [? _]%NoDup_app). }
  pose proof (group_rest C L HCnd HLnd HLC) as Hperm.
  assert (concat (P1 ++ filter (λ e, e ∉ L) C :: L :: P2) ≡ₚ concat (P1 ++ C :: P2)) as Hcc.
  { rewrite !concat_app. simpl. apply Permutation_app_head. by rewrite app_assoc, Hperm. }
  split; [|done]. split; [by destruct P1|]. split; [|by rewrite Hcc].
  rewrite Forall_app, Forall_cons in HP. destruct HP as (? & [HCne HCn] & ?).
  rewrite Forall_app, !Forall_cons. split_and!; try done.
  split; [|by apply Forall_filter]. intros Hf. rewrite Hf in Hperm. simpl in Hperm.
  rewrite Hperm in Hlen. lia.
Qed.

Section exact_texts.
Context (a b : bytes) (aa bb : list bytes).
Hypothesis Ha : arg_ok a aa.
Hypothesis Hb : arg_ok b bb.

(** Where the search loop finds the arguments. *)
Lemma union_positions P1 c1 P2 c2 P3 :
  NoDup (concat (P1 ++ c1 :: P2 ++ c2 :: P3)) →
  (a ∈ c1 ∧ b ∈ c2) ∨ (a ∈ c2 ∧ b ∈ c1) →
  let P := P1 ++ c1 :: P2 ++ c2 :: P3 in
  let pa := found_at 0 (-1) P a in let pb := found_at 0 (-1) P b in
  Z.min pa pb = Z.of_nat (length P1) ∧
  Z.max pa pb = Z.of_nat (length (P1 ++ c1 :: P2)) ∧ pa ≠ pb.
Proof.
  intros Hnd Hab P pa pb.
  assert (P = (P1 ++ c1 :: P2) ++ c2 :: P3) as HPe by by (subst P; rewrite <-app_assoc).
  assert (∀ x, x ∈ c1 → found_at 0 (-1) P x = Z.of_nat (length P1)) as Hp1
    by (intros; by apply pos_mid).
  assert (∀ x, x ∈ c2 → found_at 0 (-1) P x = Z.of_nat (length (P1 ++ c1 :: P2))) as Hp2.
  { intros x Hx. subst P. rewrite HPe in *. by rewrite pos_mid. }
  assert (length P1 < length (P1 ++ c1 :: P2)) by (rewrite length_app; simpl; lia).
  subst pa pb. destruct Hab as [[H1 H2]|[H1 H2]];
    [rewrite (Hp1 _ H1), (Hp2 _ H2)|rewrite (Hp2 _ H1), (Hp1 _ H2)]; lia.
Qed.

(** The rebuilt text of a merge. *)
Lemma merge_text P1 c1 P2 c2 P3 :
  let P := P1 ++ c1 :: P2 ++ c2 :: P3 in
  Forall class_ok P →
  union_cat (render_class <$> P) 0 (Z.of_nat (length P1)) (Z.of_nat (length (P1 ++ c1 :: P2)))
    (Z.of_nat (length (render_class <$> P)))
    (sdscat (sdscat (sdsnew (render_class c1)) (str ",")) (render_class c2)) sdsempty
  = render (P1 ++ (c1 ++ c2) :: P2 ++ P3).
Proof.
  intros P HP. assert (class_ok c1 ∧ class_ok c2) as [[H1 Hc1] [H2 Hc2]].
  { rewrite Forall_forall in HP. split; apply HP; subst P; set_solver. }
  rewrite sdsnew_nul_free by by apply render_class_nul_free.
  rewrite (sdscat_nul_free _ (render_class c2)) by by apply render_class_nul_free.
  change (sdscat (render_class c1) (str ",")) with (render_class c1 ++ [COMMA]).
  assert ((render_class c1 ++ [COMMA]) ++ render_class c2 = render_class (c1 ++ c2)) as ->.
  { unfold render_class. rewrite join_app, <-app_assoc by done. done. }
  rewrite union_cat_out;
    [|by apply classes_nul_free|by apply render_class_nul_free, Forall_app|done
     |rewrite length_fmap; subst P; rewrite !length_app; simpl; rewrite length_app; simpl; lia].
  unfold render. simpl. f_equal. subst P.
  rewrite !fmap_app, !fmap_cons, !fmap_app, fmap_cons.
  replace (Z.of_nat (length (P1 ++ c1 :: P2)))
    with (Z.of_nat (length P1) + 1 + Z.of_nat (length P2))%Z by (rewrite length_app; simpl; lia).
  rewrite <-(length_fmap render_class P1), <-(length_fmap render_class P2).
  apply union_out_merge.
Qed.

Lemma merged_ok P1 c1 P2 c2 P3 :
  part_ok (P1 ++ c1 :: P2 ++ c2 :: P3) → part_ok (P1 ++ (c1 ++ c2) :: P2 ++ P3).
Proof.
  intros (_ & HP & Hnd). split; [by destruct P1|]. split.
  - rewrite !Forall_app, !Forall_cons, !Forall_app, Forall_cons in HP.
    rewrite !Forall_app, Forall_cons, Forall_app. destruct HP as (? & [? ?] & ? & [? ?] & ?).
    split_and!; try done. split; [by destruct c1|by apply Forall_app].
  - revert Hnd. apply NoDup_Permutation_proper.
    rewrite !concat_app. simpl. rewrite !concat_app. simpl.
    apply Permutation_app_head. rewrite <-!app_assoc. apply Permutation_app_head.
    by rewrite Permutation_app_swap_app.
Qed.

(** Union of elements of two different classes: the later class is appended to
    the earlier one. *)
Lemma union_text_diff P1 c1 P2 c2 P3 :
  part_ok (P1 ++ c1 :: P2 ++ c2 :: P3) →
  (a ∈ c1 ∧ b ∈ c2) ∨ (a ∈ c2 ∧ b ∈ c1) →
  updateVerticeUfsFromState (render (P1 ++ c1 :: P2 ++ c2 :: P3)) OPTYPE_UNION
    (Some (render_class (a :: aa))) (Some (render_class (b :: bb)))
    (length (render (P1 ++ c1 :: P2 ++ c2 :: P3)))
  = Ret (render (P1 ++ (c1 ++ c2) :: P2 ++ P3)).
Proof.
  intros HPok Hab. pose proof (merged_ok _ _ _ _ _ HPok) as (Hne' & HP' & _).
  pose proof HPok as (Hne & HP & Hnd).
  pose proof (union_positions _ _ _ _ _ Hnd Hab) as (Hmin & Hmax & Hdiff).
  set (P := P1 ++ c1 :: P2 ++ c2 :: P3) in *.
  unfold updateVerticeUfsFromState. rewrite split1_render by done. bind_red.
  rewrite bool_decide_eq_true_2 by done. cbn [deref mbind out_bind].
  rewrite !arg_not_star by done. bind_red.
  rewrite union_classes_spec by done. bind_red.
  rewrite bool_decide_eq_true_2 by done. rewrite Hmin, Hmax.
  rewrite (elem_at_lookup _ (length P1) (render_class c1))
    by (subst P; rewrite list_lookup_fmap, list_lookup_middle by done; done).
  bind_red. rewrite (elem_at_lookup _ _ (render_class c2))
    by (subst P; rewrite app_comm_cons, app_assoc, list_lookup_fmap, list_lookup_middle
          by done; done).
  bind_red. subst P. rewrite merge_text by done.
  rewrite bool_decide_eq_false_2; [done|]. by apply render_length_nz.
Qed.

(** Union inside one class leaves the text alone. *)
Lemma union_text_same P c :
  part_ok P → c ∈ P → a ∈ c → b ∈ c →
  updateVerticeUfsFromState (render P) OPTYPE_UNION
    (Some (render_class (a :: aa))) (Some (render_class (b :: bb))) (length (render P))
  = Ret (render P).
Proof.
  intros (Hne & HP & Hnd) (P1 & P2 & ->)%list_elem_of_split Hac Hbc.
  unfold updateVerticeUfsFromState. rewrite split1_render by done. bind_red.
  rewrite bool_decide_eq_true_2 by done. cbn [deref mbind out_bind].
  rewrite !arg_not_star by done. bind_red.
  rewrite union_classes_spec by done. bind_red. rewrite !pos_mid by done.
  by rewrite bool_decide_eq_false_2 by (intros H; by apply H).
Qed.

End exact_texts.

Section exact_splits.
Context (a : bytes) (aa : list bytes).
Hypothesis Ha : arg_ok a aa.

(** The group is the whole class: the split leaves the text alone. *)
Lemma split_text_whole P C argv2 :
  part_ok P → C ∈ P → NoDup (a :: aa) → (a :: aa) ⊆ C → length (a :: aa) = length C →
  updateVerticeUfsFromState (render P) OPTYPE_SPLIT
    (Some (render_class (a :: aa))) argv2 (length (render P)) = Ret (render P).
Proof.
  intros (Hne & HP & Hnd) HC HLnd HLC Hlen.
  assert (class_ok C) as [_ HCn] by (rewrite Forall_forall in HP; by apply HP).
  destruct (group_length (a :: aa) C) as [(_ & Hl & _)|[Hl _]]; try done; [|lia].
  apply list_elem_of_split in HC as (P1 & P2 & ->).
  assert (a ∈ C) as HaC by (apply HLC; set_solver).
  unfold updateVerticeUfsFromState. rewrite split1_render by done. bind_red.
  rewrite bool_decide_eq_false_2 by done. cbn [deref mbind out_bind].
  rewrite arg_not_star by done. bind_red. rewrite split_class_spec by done. bind_red.
  rewrite class_idx_mid by (done || by eapply distinct_classes).
  rewrite list_lookup_total_middle by done.
  rewrite (bool_decide_eq_false_2 (length _ ≠ _)) by (rewrite Hl; intros H; by apply H).
  done.
Qed.

(** The group is a proper part of class [C]: the class becomes what is left of
    it, followed by the group as a class of its own. *)
Lemma split_text_part P1 C P2 argv2 :
  part_ok (P1 ++ C :: P2) → NoDup (a :: aa) → (a :: aa) ⊆ C → length (a :: aa) < length C →
  updateVerticeUfsFromState (render (P1 ++ C :: P2)) OPTYPE_SPLIT
    (Some (render_class (a :: aa))) argv2 (length (render (P1 ++ C :: P2)))
  = Ret (render (P1 ++ filter (λ e, e ∉ a :: aa) C :: (a :: aa) :: P2)).
Proof.
  intros (Hne & HP & Hnd) HLnd HLC Hlen. set (L := a :: aa) in *.
  assert (class_ok C) as [HCne HCn] by (rewrite Forall_forall in HP; apply HP; set_solver).
  destruct (group_length L C) as [(? & _)|[_ Hl]]; try done; [lia|].
  assert (a ∈ C) as HaC by (apply HLC; set_solver).
  assert (NoDup C) as HCnd.
  { rewrite concat_app in Hnd. simpl in Hnd. by apply NoDup_app in Hnd as (_ & _ & [? _]%NoDup_app). }
  unfold updateVerticeUfsFromState. rewrite split1_render by done. bind_red.
  rewrite bool_decide_eq_false_2 by done. cbn [deref mbind out_bind].
  subst L. rewrite arg_not_star by done. bind_red. rewrite split_class_spec by done. bind_red.
  rewrite class_idx_mid by (done || by eapply distinct_classes).
  rewrite list_lookup_total_middle by done.
  rewrite (bool_decide_eq_true_2 (length _ ≠ _)) by lia.
  rewrite bool_decide_eq_true_2 by lia.
  rewrite Z.add_0_l, (elem_at_lookup _ _ (render_class C))
    by (rewrite list_lookup_fmap, list_lookup_middle by done; done).
  bind_red. rewrite sdsnew_nul_free by by apply render_class_nul_free.
  destruct Ha as [Han _]. unfold render_class at 2 3.
  rewrite sdsDel_spec by (done || by apply names_tokens). bind_red.
  assert (Forall name_ok (filter (λ e, e ∉ a :: aa) C)) as HRn by by apply Forall_filter.
  rewrite split_cat_out; [|by apply classes_nul_free|by apply (render_class_nul_free (filter _ C))
    |by apply (render_class_nul_free (a :: aa))|done].
  rewrite fmap_app, fmap_cons. rewrite <-(length_fmap render_class P1), split_out_at.
  rewrite bool_decide_eq_false_2.
  - simpl. unfold render. by rewrite fmap_app, !fmap_cons.
  - destruct (splitted_ok P1 C P2 (a :: aa)) as [(Hne' & HP' & _) _]; try done.
    apply render_length_nz in HP'; [|done]. unfold render in HP'.
    by rewrite fmap_app, !fmap_cons in HP'.
Qed.
End exact_splits.

(** ** What the texts mean *)

Lemma same_class (P : list (list bytes)) c d x :
  NoDup (concat P) → c ∈ P → d ∈ P → x ∈ c → x ∈ d → c = d.
Proof.
  intros Hnd Hc Hd Hxc Hxd. induction P as [|e P IH]; [set_solver|].
  simpl in Hnd. apply NoDup_app in Hnd as (_ & He & Hnd).
  assert (∀ f, f ∈ P → x ∈ f → x ∈ concat P) by (intros; apply elem_of_concat; eauto).
  apply elem_of_cons in Hc as [->|Hc]; apply elem_of_cons in Hd as [->|Hd]; naive_solver.
Qed.

Lemma rel_of_in (P : list (list bytes)) c a x :
  NoDup (concat P) → c ∈ P → a ∈ c → rel_of P x a ↔ x ∈ c.
Proof.
  intros Hnd Hc Ha. split.
  - intros (d & Hd & Hx & Ha'). by rewrite (same_class P c d a).
  - intros Hx. by exists c.
Qed.

Lemma rel_of_in_l (P : list (list bytes)) c a x :
  NoDup (concat P) → c ∈ P → a ∈ c → rel_of P a x ↔ x ∈ c.
Proof.
  intros Hnd Hc Ha. rewrite <-(rel_of_in P c a x) by done.
  split; apply per_sym, rel_of_per, Hnd.
Qed.

Lemma merged_rel P1 c1 P2 c2 P3 a b :
  let P := P1 ++ c1 :: P2 ++ c2 :: P3 in
  NoDup (concat P) → (a ∈ c1 ∧ b ∈ c2) ∨ (a ∈ c2 ∧ b ∈ c1) →
  rel_of (P1 ++ (c1 ++ c2) :: P2 ++ P3) ≡ urel (rel_of P) a b.
Proof.
  intros P Hnd Hab x y. unfold urel.
  assert (c1 ∈ P ∧ c2 ∈ P) as [H1 H2] by (subst P; in_list).
  assert (rel_of (P1 ++ (c1 ++ c2) :: P2 ++ P3) x y ↔
    rel_of P x y ∨ (x ∈ c1 ∧ y ∈ c2) ∨ (x ∈ c2 ∧ y ∈ c1)) as ->.
  { split.
    - intros (c & Hc & Hx & Hy). destruct (decide (c ∈ P)); [left; by exists c|].
      assert (c = c1 ++ c2) as -> by (subst P; in_list).
      apply elem_of_app in Hx as [Hx|Hx], Hy as [Hy|Hy]; [|tauto..|];
        left; [by exists c1|by exists c2].
    - intros Hxy. destruct (decide (x ∈ c1 ++ c2 ∧ y ∈ c1 ++ c2)) as [[Hx Hy]|Hn].
      { exists (c1 ++ c2). split; [in_list|done]. }
      destruct Hxy as [(c & Hc & Hx & Hy)|Hxy]; [|in_list].
      exists c. split; [|done]. assert (c ≠ c1 ∧ c ≠ c2) as [??] by (split; intros ->; in_list).
      subst P. in_list. }
  destruct Hab as [[Ha Hb]|[Ha Hb]].
  - rewrite (rel_of_in P c1 a x), (rel_of_in_l P c2 b y), (rel_of_in P c2 b x),
      (rel_of_in_l P c1 a y) by done. tauto.
  - rewrite (rel_of_in P c2 a x), (rel_of_in_l P c1 b y), (rel_of_in P c1 b x),
      (rel_of_in_l P c2 a y) by done. tauto.
Qed.

Lemma other_class (P1 P2 : list (list bytes)) C d z :
  NoDup (concat (P1 ++ C :: P2)) → d ∈ P1 ++ P2 → z ∈ d → z ∉ C.
Proof.
  rewrite concat_app. simpl. intros (_ & H1 & (_ & H2 & _)%NoDup_app)%NoDup_app Hd Hz HC.
  apply elem_of_app in Hd as [Hd|Hd].
  - apply (H1 z); [apply elem_of_concat; eauto|set_solver].
  - apply (H2 z); [done|]. apply elem_of_concat; eauto.
Qed.

Lemma splitted_rel P1 C P2 L :
  let P := P1 ++ C :: P2 in
  NoDup (concat P) → L ⊆ C →
  rel_of (P1 ++ filter (λ e, e ∉ L) C :: L :: P2) ≡ srel (rel_of P) L.
Proof.
  intros P Hnd HL x y. unfold srel.
  assert (∀ d z, d ∈ P1 ++ P2 → z ∈ d → z ∉ L) as Hout.
  { intros d z Hd Hz HzL. apply (other_class P1 P2 C d z); try done. by apply HL. }
  split.
  - intros (c & Hc & Hx & Hy).
    assert (c ∈ P1 ++ P2 ∨ c = filter (λ e, e ∉ L) C ∨ c = L) as [Hc'|[-> | ->]] by in_list.
    + split; [exists c; subst P; in_list|].
      pose proof (Hout c x Hc' Hx). pose proof (Hout c y Hc' Hy). tauto.
    + apply list_elem_of_filter in Hx as [??], Hy as [??].
      split; [exists C; subst P; in_list|tauto].
    + split; [|tauto]. exists C. subst P. split; [in_list|]. split; by apply HL.
  - intros [(c & Hc & Hx & Hy) HxyL].
    destruct (decide (c = C)) as [->|Hne]; [|exists c; subst P; in_list].
    destruct (decide (x ∈ L)).
    + exists L. split; [in_list|tauto].
    + exists (filter (λ e, e ∉ L) C). rewrite !list_elem_of_filter.
      split; [in_list|tauto].
Qed.

(** The length of a state text is a function of its elements. *)
Lemma length_render_elements P :
  Forall class_ok P →
  length (render P) = sum_list_with length (concat P) + (length (concat P) - 1).
Proof.
  intros HP. unfold render. rewrite length_join, length_fmap.
  induction HP as [|c P [Hc Hcn] HP IH]; simpl; [done|].
  rewrite length_app, sum_list_with_app. unfold render_class at 1. rewrite length_join.
  assert (length c ≠ 0) by (by destruct c).
  destruct P as [|d P]; simpl in *; [lia|].
  assert (length (d ++ concat P) ≠ 0).
  { rewrite length_app. apply Forall_cons in HP as [[??] _]. by destruct d. }
  lia.
Qed.

(** ** Refinement of the abstract object *)

(** [denotes P type argv1 argv2 o]: on a state with classes [P], the operation
    of an edge is the abstract operation [o]. *)
Inductive denotes (P : list (list bytes)) : Z → option bytes → option bytes → aop → Prop :=
  | den_union a aa b bb :
      arg_ok a aa → arg_ok b bb → a ∈ concat P → b ∈ concat P →
      denotes P OPTYPE_UNION (Some (render_class (a :: aa))) (Some (render_class (b :: bb)))
        (AUnion (Some a) (Some b))
  | den_union_star_l argv2 :
      denotes P OPTYPE_UNION (Some STAR) argv2 (AUnion None None)
  | den_union_star_r argv1 :
      denotes P OPTYPE_UNION (Some argv1) (Some STAR) (AUnion None None)
  | den_split a aa C argv2 :
      arg_ok a aa → NoDup (a :: aa) → C ∈ P → (a :: aa) ⊆ C →
      denotes P OPTYPE_SPLIT (Some (render_class (a :: aa))) argv2 (ASplit (a :: aa))
  | den_split_star argv2 :
      denotes P OPTYPE_SPLIT (Some STAR) argv2 (ASplit []).

Lemma srel_nil R : srel R [] ≡ R.
Proof. intros x y. unfold srel. split; [tauto|]. split; [done|]. set_solver. Qed.

Lemma srel_whole P C L :
  NoDup (concat P) → C ∈ P → L ⊆ C → C ⊆ L → srel (rel_of P) L ≡ rel_of P.
Proof.
  intros Hnd HC HL HL' x y. unfold srel. split; [tauto|]. intros (c & Hc & Hx & Hy).
  split; [by exists c|]. split; intros Hin; apply HL'.
  - by rewrite (same_class P C c x) by (done || by apply HL).
  - by rewrite (same_class P C c y) by (done || by apply HL).
Qed.

Lemma urel_same R a b : per R → R a b → urel R a b ≡ R.
Proof.
  intros [Hs Ht] Hab x y. unfold urel. split; [|tauto].
  intros [?|[[??]|[??]]]; eauto 6.
Qed.

Lemma update_star u a1 a2 ty :
  (ty = OPTYPE_UNION ∧ (a1 = Some STAR ∨ (is_Some a1 ∧ a2 = Some STAR))) ∨
  (ty = OPTYPE_SPLIT ∧ a1 = Some STAR) →
  nul_free u →
  updateVerticeUfsFromState u ty a1 a2 (length u) = Ret u.
Proof.
  intros H Hu. unfold updateVerticeUfsFromState, split1.
  assert (∃ l, sdssplitlen u (Z.of_nat (length u)) [SLASH] 1 = Ret (Some l)) as [l ->].
  { destruct u as [|c u]; [by exists []|]. rewrite sdssplitlen_spec by done. eauto. }
  bind_red. destruct H as [[-> [->|[[x ->] ->]]]|[-> ->]]; cbn [deref mbind out_bind];
    try (case_bool_decide; [|done]); rewrite ?streq_refl; bind_red; try done.
  by destruct (streq x STAR).
Qed.

Lemma two_classes {A} (P : list A) c d :
  c ∈ P → d ∈ P → c ≠ d →
  ∃ P1 c1 P2 c2 P3, P = P1 ++ c1 :: P2 ++ c2 :: P3 ∧
    ((c = c1 ∧ d = c2) ∨ (c = c2 ∧ d = c1)).
Proof.
  intros (P1 & P2 & ->)%list_elem_of_split Hd Hne.
  apply elem_of_app in Hd as [Hd|[->|Hd]%elem_of_cons]; [|done|];
    apply list_elem_of_split in Hd as (Q1 & Q2 & ->).
  - exists Q1, d, Q2, c, P2. split; [by rewrite <-app_assoc|tauto].
  - exists P1, c, Q1, d, Q2. tauto.
Qed.

(** The outcome of an operation on a text, against the abstract one. *)
Definition refines (P : list (list bytes)) (r : out bytes) (R' : prel) : Prop :=
  ∃ P', r = Ret (render P') ∧ part_ok P' ∧ rel_of P' ≡ R' ∧ concat P' ≡ₚ concat P
    ∧ length (render P') = length (render P).

Lemma refines_intro P P' r R' :
  part_ok P → part_ok P' → r = Ret (render P') → rel_of P' ≡ R' → concat P' ≡ₚ concat P →
  refines P r R'.
Proof.
  intros (_ & HP & _) HP' -> HR Hcc. exists P'. split_and!; try done.
  destruct HP' as (_ & HP' & _). by rewrite !length_render_elements, Hcc.
Qed.

Lemma union_refines P a aa b bb :
  part_ok P → arg_ok a aa → arg_ok b bb → a ∈ concat P → b ∈ concat P →
  refines P (updateVerticeUfsFromState (render P) OPTYPE_UNION
    (Some (render_class (a :: aa))) (Some (render_class (b :: bb))) (length (render P)))
    (urel (rel_of P) a b).
Proof.
  intros HPok Ha Hb HaP HbP. pose proof HPok as (Hne & HP & Hnd).
  apply elem_of_concat in HaP as (c & Hc & Hac), HbP as (d & Hd & Hbd).
  destruct (decide (c = d)) as [<-|Hcd].
  - apply (refines_intro P P); try done; [by eapply union_text_same|].
    symmetry. apply urel_same; [by apply rel_of_per|]. by exists c.
  - destruct (two_classes P c d) as (P1 & c1 & P2 & c2 & P3 & -> & Hcases); try done.
    assert ((a ∈ c1 ∧ b ∈ c2) ∨ (a ∈ c2 ∧ b ∈ c1)) as Hab by naive_solver.
    apply (refines_intro _ (P1 ++ (c1 ++ c2) :: P2 ++ P3)); try done.
    + by apply merged_ok.
    + by apply union_text_diff.
    + by apply merged_rel.
    + rewrite !concat_app. simpl. rewrite !concat_app. simpl.
      apply Permutation_app_head. rewrite <-!app_assoc. apply Permutation_app_head.
      by rewrite Permutation_app_swap_app.
Qed.

Lemma split_refines P a aa C argv2 :
  part_ok P → arg_ok a aa → NoDup (a :: aa) → C ∈ P → (a :: aa) ⊆ C →
  refines P (updateVerticeUfsFromState (render P) OPTYPE_SPLIT
    (Some (render_class (a :: aa))) argv2 (length (render P)))
    (srel (rel_of P) (a :: aa)).
Proof.
  intros HPok Ha HLnd HC HLC. pose proof HPok as (Hne & HP & Hnd).
  assert (class_ok C) as [HCne HCn] by (rewrite Forall_forall in HP; by apply HP).
  destruct (group_length (a :: aa) C) as [(Hl & _ & HCL)|[Hl _]]; try done.
  - apply (refines_intro P P); try done; [by eapply split_text_whole|].
    symmetry. by eapply srel_whole.
  - apply list_elem_of_split in HC as (P1 & P2 & ->).
    destruct (splitted_ok P1 C P2 (a :: aa)) as [Hok Hcc]; try done; [by destruct Ha|].
    eapply refines_intro; [done|exact Hok|by apply split_text_part| |done].
    by apply splitted_rel.
Qed.

(** Executing an edge's operation on the text of a well-formed partition is
    defined, yields the text of a well-formed partition of the same elements
    whose relation is the abstract operation applied to the old relation, and
    keeps the length of the text. *)
Lemma update_refines_gen P ty a1 a2 o :
  part_ok P → denotes P ty a1 a2 o →
  refines P (updateVerticeUfsFromState (render P) ty a1 a2 (length (render P)))
    (aapply o (rel_of P)).
Proof.
  intros HPok Hden. pose proof HPok as (Hne & HP & Hnd).
  pose proof (render_nul_free P HP) as Hnf.
  destruct Hden as [a aa b bb Ha Hb HaP HbP|argv2|argv1|a aa C argv2 Ha HLnd HC HLC|argv2].
  - by apply union_refines.
  - apply (refines_intro P P); try done. apply update_star; auto.
  - apply (refines_intro P P); try done. apply update_star; eauto 10.
  - by eapply split_refines.
  - apply (refines_intro P P); try done; [apply update_star; auto|].
    symmetry. apply srel_nil.
Qed.

(** ** Properties *)

(** C13: [updateVerticeUfsFromState] implements the abstract operations on the
    texts of states: for an operation with a meaning on the classes (a union of
    two groups by their first elements, a split of a group, or an operation with
    "*", which does nothing) it succeeds, and the new text has the same elements
    and the same length and the classes of the operation applied to the old. *)
Theorem updateVerticeUfsFromState_refines P ty a1 a2 o :
  part_ok P → denotes P ty a1 a2 o →
  refines P (updateVerticeUfsFromState (render P) ty a1 a2 (length (render P)))
    (aapply o (rel_of P)).
Proof. apply update_refines_gen. Qed.

Lemma updateVerticeUfsFromState_refines_witness :
  refines [[str "a"; str "b"]; [str "c"]]
    (updateVerticeUfsFromState (str "a,b/c") OPTYPE_UNION (Some (str "b")) (Some (str "c")) 5)
    (aapply (AUnion (Some (str "b")) (Some (str "c"))) (rel_of [[str "a"; str "b"]; [str "c"]])).
Proof.
  apply (updateVerticeUfsFromState_refines [[str "a"; str "b"]; [str "c"]] OPTYPE_UNION
    (Some (str "b")) (Some (str "c")) (AUnion (Some (str "b")) (Some (str "c")))); [concrete|].
  apply (den_union _ (str "b") [] (str "c") []); concrete.
Defined.
