(* ===== verification/OtUfs.v ===== *)
(** * OtUfs: the operational transformation function

    [otUfs(ufs,op1,op2,e1,e2,flag)] (src/src/ot.c) transforms two concurrent
    operations defined on the state text [ufs] against each other: [e1] becomes
    the form of [op1] to execute after [op2], and [e2] the form of [op2] to
    execute after [op1].  Flag [OT_UNION] rewrites unions, flag [OT_SPLIT]
    rewrites splits; the control algorithm passes [OT_UNION].

    The main theorem is the transformation property TP1 for [OT_UNION]: both
    orders of execution reach the same equivalence classes. *)
From Stdlib Require Import Ascii.
From S2P Require Import Prelude Sds Partition OtStr ClassText TextState.

Definition OT_SPLIT : nat := 1.
Definition OT_UNION : nat := 2.

(** The operation on an edge of the state space: the fields [optype], [argv1]
    and [argv2] of [dedge] (src/src/server.h); [None] is a NULL pointer. *)
Record op := mk_op { optype : Z; argv1 : option bytes; argv2 : option bytes }.

#[global] Instance op_eq_dec : EqDecision op.
Proof. solve_decision. Defined.

(** [strchr(s,',')==NULL?1:2] *)
Definition arglen (s : bytes) : nat := if strchr s COMMA then 2 else 1.

(** [cpltClass_sargv] is computed at most once: reuse it when it is set. *)
Definition cplt_once (cached : option bytes) (ufs sargv : bytes) (flag : nat) : out bytes :=
  match cached with Some c => Ret c | None => cpltClass ufs (Some sargv) flag end.

(** Flag [OT_UNION], a union against a split: the transformed arguments of the
    union (the same code appears once per order of the operations). *)
Definition ot_change_union (ufs uargv1 uargv2 sargv : bytes) (flag : nat)
    : out (option bytes * option bytes) :=
  match arglen uargv1, arglen uargv2 with
  | 1, 1 =>
    if streq uargv1 uargv2 then Ret (Some uargv1, Some uargv2)
    else if streq uargv1 STAR || streq uargv2 STAR then Ret (Some uargv1, Some uargv2)
    else if streq uargv1 sargv then
      c ← cpltClass ufs (Some sargv) flag; Ret (Some c, Some uargv2)
    else if streq uargv2 sargv then
      c ← cpltClass ufs (Some sargv) flag; Ret (Some uargv1, Some c)
    else Ret (Some uargv1, Some uargv2)
  | _, 1 =>
    f ← findstr uargv1 sargv;
    cached ← (if f : bool then c ← cpltClass ufs (Some sargv) flag; Ret (Some c) else Ret None);
    let a1 := default uargv1 cached in
    a2 ← (if streq uargv2 sargv then cplt_once cached ufs sargv flag else Ret uargv2);
    Ret (Some a1, Some a2)
  | 1, _ =>
    f ← findstr uargv2 sargv;
    cached ← (if f : bool then c ← cpltClass ufs (Some sargv) flag; Ret (Some c) else Ret None);
    let a2 := default uargv2 cached in
    a1 ← (if streq uargv1 sargv then cplt_once cached ufs sargv flag else Ret uargv1);
    Ret (Some a1, Some a2)
  | _, _ =>
    f ← findstr uargv1 sargv;
    cached ← (if f : bool then c ← cpltClass ufs (Some sargv) flag; Ret (Some c) else Ret None);
    let a1 := default uargv1 cached in
    g ← findstr uargv2 sargv;
    a2 ← (if g : bool then cplt_once cached ufs sargv flag else Ret uargv2);
    Ret (Some a1, Some a2)
  end.

(** The body of the [flag == 2] block. *)
Definition ot_flag_union (ufs : bytes) (op1 op2 : op) (flag : nat) : out (op * op) :=
  if bool_decide (optype op1 = OPTYPE_UNION ∧ optype op2 = OPTYPE_SPLIT) then
    uargv1 ← deref (argv1 op1); uargv2 ← deref (argv2 op1); sargv ← deref (argv1 op2);
    '(a1, a2) ← ot_change_union ufs uargv1 uargv2 sargv flag;
    Ret (mk_op OPTYPE_UNION a1 a2, mk_op OPTYPE_SPLIT (Some sargv) None)
  else if bool_decide (optype op1 = OPTYPE_SPLIT ∧ optype op2 = OPTYPE_UNION) then
    uargv1 ← deref (argv1 op2); uargv2 ← deref (argv2 op2); sargv ← deref (argv1 op1);
    '(a1, a2) ← ot_change_union ufs uargv1 uargv2 sargv flag;
    Ret (mk_op OPTYPE_SPLIT (Some sargv) None, mk_op OPTYPE_UNION a1 a2)
  else if bool_decide (optype op1 = OPTYPE_UNION ∧ optype op2 = OPTYPE_UNION) then
    Ret (mk_op OPTYPE_UNION (argv1 op1) (argv2 op1), mk_op OPTYPE_UNION (argv1 op2) (argv2 op2))
  else if bool_decide (optype op1 = OPTYPE_SPLIT ∧ optype op2 = OPTYPE_SPLIT) then
    Ret (mk_op OPTYPE_SPLIT (argv1 op1) None, mk_op OPTYPE_SPLIT (argv1 op2) None)
  else Ret (mk_op 0 None None, mk_op 0 None None).

(** Flag [OT_SPLIT], a union against a split: the transformed argument of the
    split. *)
Definition ot_change_split (ufs uargv1 uargv2 sargv : bytes) (flag : nat) : out bytes :=
  if streq uargv1 uargv2 then Ret sargv
  else if bool_decide (arglen sargv = 1) then
    if streq sargv STAR then Ret sargv
    else
      same ← sameClass ufs uargv1 uargv2;
      if same : bool then
        Ret (if streq uargv1 sargv || streq uargv2 sargv then STAR else sargv)
      else if streq uargv1 sargv || streq uargv2 sargv
           then cpltClass ufs (Some sargv) flag else Ret sargv
  else
    same ← sameClass ufs uargv1 uargv2;
    f1 ← findstr sargv uargv1;
    if same : bool then
      f2 ← findstr sargv uargv2;
      Ret (if (f1 : bool) && (f2 : bool) then sargv
           else if (f1 : bool) || (f2 : bool) then STAR else sargv)
    else
      hit ← (if f1 : bool then Ret true else findstr sargv uargv2);
      if hit : bool then cpltClass ufs (Some sargv) flag else Ret sargv.

(** Appending an element to a comma-separated accumulator that starts as NULL. *)
Definition cat_opt (acc : option bytes) (e : bytes) : option bytes :=
  match acc with
  | None => Some (sdscat sdsempty e)
  | Some a => Some (sdscat (sdscat a (str ",")) e)
  end.

(** Splitting the elements of [s1] into those in [s2] (counted) and the others. *)
Fixpoint overlap_loop (elements1 : list bytes) (s2 : bytes) (n : nat) (rest : option bytes)
    : out (nat * option bytes) :=
  match elements1 with
  | [] => Ret (n, rest)
  | e :: l =>
    f ← findstr s2 e;
    if f : bool then overlap_loop l s2 (S n) rest else overlap_loop l s2 n (cat_opt rest e)
  end.

(** The first token of a text: [e[0]] after [sdssplitlen]. *)
Definition first_token (s : bytes) : out bytes :=
  l ← split1 s (length s) COMMA;
  match l with e :: _ => Ret e | [] => Fail OutOfBounds end.

(** Flag [OT_SPLIT], two splits. *)
Definition ot_two_splits (ufs s1 s2 : bytes) (flag : nat) : out (op * op) :=
  let sp a := mk_op OPTYPE_SPLIT (Some a) None in
  match arglen s1, arglen s2 with
  | 1, 1 => Ret (sp s1, sp s2)
  | 1, _ =>
    if streq s1 STAR then Ret (sp s1, sp s2)
    else f ← findstr s2 s1;
         b ← (if f : bool then cpltClass ufs (Some s2) flag else Ret s2);
         Ret (sp s1, sp b)
  | _, 1 =>
    if streq s2 STAR then Ret (sp s1, sp s2)
    else f ← findstr s1 s2;
         a ← (if f : bool then cpltClass ufs (Some s1) flag else Ret s1);
         Ret (sp a, sp s2)
  | _, _ =>
    elements1 ← split1 s1 (strlen s1) COMMA;
    elements2 ← split1 s2 (strlen s2) COMMA;
    let len1 := length elements1 in let len2 := length elements2 in
    '(overlap_num, s1nos2) ← overlap_loop elements1 s2 0 None;
    '(_, s2nos1) ← (if bool_decide (overlap_num ≠ 0) then overlap_loop elements2 s1 0 None
                    else Ret (0, None));
    if bool_decide (overlap_num = 0) then Ret (sp s1, sp s2)
    else if bool_decide (overlap_num = len1 ∨ overlap_num = len2) then
      if bool_decide (len1 = len2) then
        a ← cpltClass ufs None 0; b ← cpltClass ufs None 0; Ret (sp a, sp b)
      else if bool_decide (overlap_num = len1) then
        b ← deref s2nos1; Ret (sp s1, sp (cstr b))
      else a ← deref s1nos2; Ret (sp (cstr a), sp s2)
    else
      t1 ← deref s1nos2; t2 ← deref s2nos1;
      e1 ← first_token t1; e2 ← first_token t2;
      Ret (mk_op OPTYPE_UNION (Some (cstr e1)) (Some (cstr e2)),
           mk_op OPTYPE_UNION (Some (cstr e1)) (Some (cstr e2)))
  end.

(** The body of the [flag == 1] block. *)
Definition ot_flag_split (ufs : bytes) (op1 op2 : op) (flag : nat) : out (op * op) :=
  if bool_decide (optype op1 = OPTYPE_UNION ∧ optype op2 = OPTYPE_SPLIT) then
    uargv1 ← deref (argv1 op1); uargv2 ← deref (argv2 op1); sargv ← deref (argv1 op2);
    s ← ot_change_split ufs uargv1 uargv2 sargv flag;
    Ret (mk_op OPTYPE_UNION (Some uargv1) (Some uargv2), mk_op OPTYPE_SPLIT (Some s) None)
  else if bool_decide (optype op1 = OPTYPE_SPLIT ∧ optype op2 = OPTYPE_UNION) then
    uargv1 ← deref (argv1 op2); uargv2 ← deref (argv2 op2); sargv ← deref (argv1 op1);
    s ← ot_change_split ufs uargv1 uargv2 sargv flag;
    Ret (mk_op OPTYPE_SPLIT (Some s) None, mk_op OPTYPE_UNION (Some uargv1) (Some uargv2))
  else if bool_decide (optype op1 = OPTYPE_SPLIT ∧ optype op2 = OPTYPE_SPLIT) then
    s1 ← deref (argv1 op1); s2 ← deref (argv1 op2);
    ot_two_splits ufs s1 s2 flag
  else
    Ret (mk_op OPTYPE_UNION (argv1 op1) (argv2 op1), mk_op OPTYPE_UNION (argv1 op2) (argv2 op2)).

(** [otUfs]: the new contents of [e1] and [e2]. *)
Definition otUfs (ufs : bytes) (op1 op2 : op) (flag : nat) : out (op * op) :=
  if bool_decide (flag = 2) then ot_flag_union ufs op1 op2 flag
  else if bool_decide (flag = 1) then ot_flag_split ufs op1 op2 flag
  else Ret (mk_op 0 None None, mk_op 0 None None).

(** ** Operations and what they denote *)

(** Executing the operation of an edge on a state text. *)
Definition exec (o : op) (s : bytes) : out bytes :=
  updateVerticeUfsFromState s (optype o) (argv1 o) (argv2 o) (length s).

(** [uarg P t g]: on classes [P] the text [t] is an argument of a union: "*"
    (no group), or a group [g] of one class, represented by its first element. *)
Inductive uarg (P : list (list bytes)) : bytes → list bytes → Prop :=
  | uarg_star : uarg P STAR []
  | uarg_group a aa C :
      arg_ok a aa → C ∈ P → (a :: aa) ⊆ C → uarg P (render_class (a :: aa)) (a :: aa).

(** The groups of an operation. *)
Inductive view :=
  | VUnion (g1 g2 : list bytes)
  | VSplit (L : list bytes).

Definition abs_op (v : view) : aop :=
  match v with
  | VUnion g1 g2 => AUnion (head g1) (head g2)
  | VSplit L => ASplit L
  end.

(** The operations the control algorithm exchanges. *)
Inductive ot_op (P : list (list bytes)) : op → view → Prop :=
  | ot_union t1 g1 t2 g2 :
      uarg P t1 g1 → uarg P t2 g2 →
      ot_op P (mk_op OPTYPE_UNION (Some t1) (Some t2)) (VUnion g1 g2)
  | ot_split s ss C argv2 :
      arg_ok s ss → NoDup (s :: ss) → C ∈ P → (s :: ss) ⊆ C →
      ot_op P (mk_op OPTYPE_SPLIT (Some (render_class (s :: ss))) argv2) (VSplit (s :: ss)).

(** [covered L g]: the test of the code, which only looks for the first element
    of a split group and only inside union arguments that are groups
    themselves, detects that the representative of [g] is being split off. *)
Definition covered (L g : list bytes) : Prop :=
  match L, g with
  | s :: _ :: _, a :: aa => a ∈ L → aa ≠ [] ∧ s ∈ g
  | _, _ => True
  end.

(** When the transformation is exact: the unions' arguments are covered, two
    splits are disjoint or the same. *)
Definition compatible (v1 v2 : view) : Prop :=
  match v1, v2 with
  | VUnion g1 g2, VSplit L | VSplit L, VUnion g1 g2 => covered L g1 ∧ covered L g2
  | VSplit L, VSplit M => L = M ∨ Forall (λ x, x ∉ M) L
  | VUnion _ _, VUnion _ _ => True
  end.

#[global] Instance covered_dec L g : Decision (covered L g).
Proof. unfold covered. destruct L as [|? [|]], g; apply _. Defined.

#[global] Instance compatible_dec v1 v2 : Decision (compatible v1 v2).
Proof. unfold compatible. destruct v1, v2; apply _. Defined.

Lemma streq_render c d :
  class_ok c → class_ok d → streq (render_class c) (render_class d) = bool_decide (c = d).
Proof.
  intros Hc Hd. unfold streq.
  rewrite !cstr_id by (apply render_class_nul_free; by destruct Hc, Hd).
  apply bool_decide_ext. split; [|by intros ->]. intros E.
  by rewrite <-(split_render_class c Hc), E, split_render_class.
Qed.

Lemma arglen_render c :
  class_ok c → arglen (render_class c) = if bool_decide (2 ≤ length c) then 2 else 1.
Proof.
  intros [Hne Hc]. unfold arglen, render_class. by rewrite strchr_join by (by apply names_tokens).
Qed.

Lemma arg_class_ok a aa : arg_ok a aa → class_ok (a :: aa).
Proof. by intros [? _]. Qed.

Lemma streq_star c : class_ok c → streq (render_class c) STAR = false.
Proof.
  intros [Hne Hc]. unfold streq. rewrite cstr_id by by apply render_class_nul_free.
  apply bool_decide_eq_false_2. change (cstr STAR) with STAR. intros E.
  assert (c = [STAR]) as ->.
  { rewrite <-(split_render_class c) by done. by rewrite E. }
  apply Forall_cons in Hc as [[_ ?] _]. done.
Qed.

Lemma uarg_head P t g a : uarg P t g → head g = Some a → a ∈ concat P.
Proof.
  intros [|a' aa D Ha HD Hsub]; [done|]. intros [= ->]. apply elem_of_concat. exists D. set_solver.
Qed.

Lemma uarg_same P t1 g1 t2 g2 :
  uarg P t1 g1 → uarg P t2 g2 → streq t1 t2 = true → g1 = g2.
Proof.
  intros [|a aa D Ha HD Hsub] [|b bb E Hb HE Hsub']; [done|..].
  - intros E'%streq_sym. by rewrite streq_star in E' by by apply arg_class_ok.
  - intros E'. by rewrite streq_star in E' by by apply arg_class_ok.
  - rewrite streq_render by by apply arg_class_ok. by rewrite bool_decide_eq_true.
Qed.

Lemma uarg_is_star P t g : uarg P t g → streq t STAR = true → g = [].
Proof.
  intros [|a aa D Ha HD Hsub]; [done|].
  by rewrite streq_star by by apply arg_class_ok.
Qed.

Lemma union_noop R a b L :
  per R → (a = b ∧ (∀ x, a = Some x → R x x)) ∨ a = None ∨ b = None →
  srel (aapply (AUnion a b) R) L ≡ aapply (AUnion a b) (srel R L).
Proof.
  intros HR [[<- Hx]|[-> | ->]]; [|done|by destruct a].
  destruct a as [a|]; [|done]. specialize (Hx a eq_refl). simpl.
  rewrite urel_same by done. symmetry. apply urel_same; [by apply srel_per|].
  unfold srel. tauto.
Qed.

(** ** The transformed arguments of a union *)

Section change_union.
Context (P : list (list bytes)) (C : list bytes) (s : bytes) (ss : list bytes).
Context (HP : part_ok P) (HC : C ∈ P) (Hs : arg_ok s ss) (Hnd : NoDup (s :: ss))
  (HLC : (s :: ss) ⊆ C).

(** What the code substitutes for an argument that is being split off. *)
Definition rest_of_class : bytes := cplt_result C (s :: ss) OT_UNION.

Lemma cplt_rest : cpltClass (render P) (Some (render_class (s :: ss))) OT_UNION = Ret rest_of_class.
Proof. destruct Hs. by apply cpltClass_spec. Qed.

(** Whether the code substitutes. *)
Definition hit (g : list bytes) : bool :=
  if bool_decide (length g = 1) then bool_decide (g = s :: ss) else bool_decide (s ∈ g).

Definition subst (t : bytes) (g : list bytes) : bytes := if hit g then rest_of_class else t.

Lemma single_hit t g :
  uarg P t g → length g ≤ 1 → streq t (render_class (s :: ss)) = hit g.
Proof.
  intros [|a aa D Ha HD Hsub] Hlen; unfold hit.
  - rewrite (bool_decide_eq_false_2 (length _ = 1)) by done.
    rewrite (bool_decide_eq_false_2 (s ∈ _)) by set_solver.
    pose proof (streq_star (s :: ss) (arg_class_ok _ _ Hs)) as E. unfold streq in *.
    apply bool_decide_eq_false in E. apply bool_decide_eq_false_2. congruence.
  - rewrite bool_decide_eq_true_2 by (simpl in *; lia).
    apply streq_render; by apply arg_class_ok.
Qed.

Lemma group_hit t g :
  uarg P t g → 2 ≤ length g → findstr t (render_class (s :: ss)) = Ret (hit g).
Proof.
  intros [|a aa D Ha HD Hsub] Hlen; unfold hit; [simpl in *; lia|].
  rewrite findstr_class by (done || by apply arg_class_ok).
  by rewrite (bool_decide_eq_false_2 (length _ = 1)) by lia.
Qed.

Lemma uarg_arglen t g : uarg P t g → arglen t = if bool_decide (2 ≤ length g) then 2 else 1.
Proof.
  intros [|a aa D Ha HD Hsub]; [done|]. apply arglen_render. by apply arg_class_ok.
Qed.

(** The single-element shortcuts that leave both arguments alone. *)
Definition untouched (t1 t2 : bytes) (g1 g2 : list bytes) : bool :=
  bool_decide (length g1 ≤ 1 ∧ length g2 ≤ 1) && (streq t1 t2 || streq t1 STAR || streq t2 STAR).

Lemma ot_change_union_eq t1 g1 t2 g2 :
  uarg P t1 g1 → uarg P t2 g2 →
  ot_change_union (render P) t1 t2 (render_class (s :: ss)) OT_UNION =
    Ret (if untouched t1 t2 g1 g2 then (Some t1, Some t2)
         else (Some (subst t1 g1), Some (subst t2 g2))).
Proof.
  intros H1 H2. unfold ot_change_union, untouched, subst.
  rewrite (uarg_arglen _ _ H1), (uarg_arglen _ _ H2).
  destruct (decide (2 ≤ length g1)) as [L1|L1], (decide (2 ≤ length g2)) as [L2|L2];
    rewrite ?(bool_decide_eq_true_2 (2 ≤ length g1)) by done;
    rewrite ?(bool_decide_eq_true_2 (2 ≤ length g2)) by done;
    rewrite ?(bool_decide_eq_false_2 (2 ≤ length g1)) by done;
    rewrite ?(bool_decide_eq_false_2 (2 ≤ length g2)) by done;
    rewrite ?(bool_decide_eq_false_2 (_ ∧ _)) by lia;
    rewrite ?(bool_decide_eq_true_2 (_ ∧ _)) by lia;
    rewrite ?(group_hit _ _ H1), ?(group_hit _ _ H2) by done;
    rewrite ?(single_hit _ _ H1), ?(single_hit _ _ H2) by lia;
    unfold cplt_once; bind_red; rewrite ?cplt_rest; bind_red.
  - by destruct (hit g1), (hit g2).
  - by destruct (hit g1), (hit g2).
  - by destruct (hit g1), (hit g2).
  - destruct (streq t1 t2) eqn:E; [done|]. cbn [orb andb].
    destruct (streq t1 STAR || streq t2 STAR) eqn:E2; simpl; [done|].
    destruct (hit g1) eqn:E3, (hit g2) eqn:E4; try done. exfalso.
    rewrite <-(single_hit _ _ H1) in E3 by lia. rewrite <-(single_hit _ _ H2) in E4 by lia.
    unfold streq in *. rewrite bool_decide_eq_true in E3, E4.
    apply bool_decide_eq_false in E. congruence.
Qed.

Lemma hit_in g : hit g = true → s ∈ g.
Proof.
  unfold hit. case_bool_decide; rewrite bool_decide_eq_true; [|done]. intros ->. set_solver.
Qed.

Lemma rest_uarg a aa D :
  arg_ok a aa → D ∈ P → (a :: aa) ⊆ D → s ∈ a :: aa →
  ∃ g', uarg P rest_of_class g' ∧ shifted (rel_of P) (s :: ss) (Some a) (head g')
    ∧ length g' ≤ 1.
Proof.
  intros Ha HD Hsub Hin. pose proof HP as (_ & HcP & HndP).
  assert (D = C) as -> by (by apply (same_class P D C s); try set_solver).
  assert (class_ok C) as [HCne HCn] by (rewrite Forall_forall in HcP; by apply HcP).
  unfold rest_of_class, cplt_result. change (bool_decide (OT_UNION = 1)) with false. cbn iota.
  destruct (group_length (s :: ss) C) as [(Hl & _ & HCL)|[Hl _]]; try done.
  - rewrite bool_decide_eq_true_2 by done. exists []. split; [constructor|].
    split; [|simpl; lia]. intros r (c & Hc & Hac & Hrc). apply HCL.
    by rewrite (same_class P C c a) by (done || set_solver).
  - rewrite bool_decide_eq_false_2 by lia.
    destruct (filter (λ e, e ∉ s :: ss) C) as [|r rs] eqn:Ef.
    { exfalso. assert (length C ≤ length (s :: ss)); [|lia].
      apply submseteq_length, NoDup_submseteq.
      - eapply NoDup_concat_class; done.
      - intros x Hx. destruct (decide (x ∈ s :: ss)) as [|Hn]; [done|].
        assert (x ∈ filter (λ e, e ∉ s :: ss) C) as Hf by by apply list_elem_of_filter.
        rewrite Ef in Hf. set_solver. }
    assert (r ∈ filter (λ e, e ∉ s :: ss) C) as [Hr HrC]%list_elem_of_filter
      by (rewrite Ef; set_solver).
    assert (name_ok r) by (rewrite Forall_forall in HCn; by apply HCn).
    exists [r]. split.
    + change (hd [] (r :: rs)) with (render_class [r]).
      apply uarg_group with (C := C); [|done|set_solver].
      split; [by constructor|by left].
    + split; [|done]. split; [|done]. exists C. set_solver.
Qed.

(** A substituted argument is again an argument, and its representative is the
    old one moved out of the group that is split off. *)
Lemma subst_uarg t g :
  uarg P t g → covered (s :: ss) g →
  ∃ g', uarg P (subst t g) g' ∧ shifted (rel_of P) (s :: ss) (head g) (head g')
    ∧ length g' ≤ Nat.max 1 (length g).
Proof.
  intros Hu Hcov. unfold subst. destruct (hit g) eqn:Hhit.
  - apply hit_in in Hhit. destruct Hu as [|a aa D Ha HD Hsub]; [set_solver|].
    destruct (rest_uarg a aa D) as (g' & ? & ? & ?); try done. exists g'. split_and!; try done. lia.
  - exists g. split; [done|]. split; [|lia]. destruct Hu as [|a aa D Ha HD Hsub]; [done|].
    split; [exists D; set_solver|]. intros HaL. revert Hhit. unfold hit.
    case_bool_decide as Hlen; rewrite bool_decide_eq_false.
    + destruct aa; [|done]. destruct ss as [|s' ss'].
      * apply list_elem_of_singleton in HaL as ->. done.
      * by destruct (Hcov HaL).
    + destruct ss as [|s' ss'].
      * apply list_elem_of_singleton in HaL as ->. set_solver.
      * by destruct (Hcov HaL).
Qed.

(** The transformed union is defined, well-formed, and executing it after the
    split is executing the split after the original union. *)
Lemma ot_change_union_spec t1 g1 t2 g2 :
  uarg P t1 g1 → uarg P t2 g2 → covered (s :: ss) g1 → covered (s :: ss) g2 →
  ∃ t1' g1' t2' g2',
    ot_change_union (render P) t1 t2 (render_class (s :: ss)) OT_UNION = Ret (Some t1', Some t2')
    ∧ uarg P t1' g1' ∧ uarg P t2' g2'
    ∧ length g1' ≤ Nat.max 1 (length g1) ∧ length g2' ≤ Nat.max 1 (length g2)
    ∧ srel (aapply (AUnion (head g1) (head g2)) (rel_of P)) (s :: ss)
      ≡ aapply (AUnion (head g1') (head g2')) (srel (rel_of P) (s :: ss)).
Proof.
  intros H1 H2 C1 C2. rewrite (ot_change_union_eq _ _ _ _ H1 H2).
  pose proof HP as (_ & _ & HndP). pose proof (rel_of_per P HndP) as Hper.
  destruct (untouched t1 t2 g1 g2) eqn:Hun.
  - exists t1, g1, t2, g2. split_and!; [done|done|done|lia|lia|]. apply union_noop; [done|].
    apply andb_true_iff in Hun as [_ [[E|E]%orb_true_iff|E]%orb_true_iff].
    + left. rewrite (uarg_same _ _ _ _ _ H1 H2 E). split; [done|].
      intros x Hx. eapply (uarg_head P) in Hx; [|exact H2].
      apply elem_of_concat in Hx as (c & ? & ?). by exists c.
    + right; left. by rewrite (uarg_is_star _ _ _ H1 E).
    + right; right. by rewrite (uarg_is_star _ _ _ H2 E).
  - destruct (subst_uarg _ _ H1 C1) as (g1' & U1 & S1 & N1).
    destruct (subst_uarg _ _ H2 C2) as (g2' & U2 & S2 & N2).
    exists (subst t1 g1), g1', (subst t2 g2), g2'. split_and!; try done.
    destruct (head g1) as [a|], (head g2) as [b|]; [|apply union_none_split; auto..].
    apply union_split_commute; try done.
    intros x y Hx Hy. exists C. split; [done|]. split; by apply HLC.
Qed.
End change_union.

(** ** Transformation property TP1 *)

(** [den P o d]: on classes [P] the operation [o] has the effect of [d]. *)
Definition den (P : list (list bytes)) (o : op) (d : aop) : Prop :=
  ∃ d', denotes P (optype o) (argv1 o) (argv2 o) d' ∧ ∀ R, aapply d' R ≡ aapply d R.

(** [runs P os R']: executing the operations [os] in sequence on the text of [P] is
    defined, keeps the elements and yields well-formed classes related by [R']. *)
Definition runs (P : list (list bytes)) (os : list op) (R' : prel) : Prop :=
  ∃ P', out_fold (λ s o, exec o s) (render P) os = Ret (render P') ∧ part_ok P'
    ∧ concat P' ≡ₚ concat P ∧ rel_of P' ≡ R'.

(** [P'] is a later state with the same elements, related by [d] applied to [P]. *)
Definition after (P : list (list bytes)) (d : aop) (P' : list (list bytes)) : Prop :=
  part_ok P' ∧ concat P' ≡ₚ concat P ∧ rel_of P' ≡ aapply d (rel_of P).

Lemma den_exec P o d :
  part_ok P → den P o d → ∃ P', exec o (render P) = Ret (render P') ∧ after P d P'.
Proof.
  intros HP (d' & Hd & Heq).
  destruct (update_refines_gen P _ _ _ _ HP Hd) as (P' & E & HP' & HR & Hcc & _).
  exists P'. split; [done|]. split_and!; [done..|]. by rewrite HR, Heq.
Qed.

Lemma runs_two P o1 d1 o2 d2 :
  part_ok P → den P o1 d1 → (∀ P', after P d1 P' → den P' o2 d2) →
  runs P [o1; o2] (aapply d2 (aapply d1 (rel_of P))).
Proof.
  intros HP H1 H2. destruct (den_exec _ _ _ HP H1) as (P1 & E1 & A1).
  pose proof A1 as (HP1 & Hcc1 & HR1).
  destruct (den_exec _ _ _ HP1 (H2 _ A1)) as (P2 & E2 & HP2 & Hcc2 & HR2).
  exists P2. split_and!; [|done|by rewrite Hcc2|by rewrite HR2, HR1].
  cbn [out_fold]. rewrite E1. bind_red. by rewrite E2.
Qed.

Lemma union_den P P' t1 g1 t2 g2 :
  uarg P t1 g1 → uarg P t2 g2 → concat P' ≡ₚ concat P →
  den P' (mk_op OPTYPE_UNION (Some t1) (Some t2)) (AUnion (head g1) (head g2)).
Proof.
  intros H1 H2 Hcc.
  assert (∀ t g a, uarg P t g → head g = Some a → a ∈ concat P') as Hin
    by (intros t g a Hu Ha; rewrite Hcc; exact (uarg_head _ _ _ _ Hu Ha)).
  destruct H1 as [|a aa D Ha HD Hsub]; [|destruct H2 as [|b bb E Hb HE Hsub']].
  - exists (AUnion None None). split; [apply den_union_star_l|done].
  - exists (AUnion None None). split; [apply den_union_star_r|done].
  - exists (AUnion (Some a) (Some b)). split; [|done].
    apply den_union; try done.
    + apply (Hin (render_class (a :: aa)) (a :: aa)); [by apply uarg_group with D|done].
    + apply (Hin (render_class (b :: bb)) (b :: bb)); [by apply uarg_group with E|done].
Qed.

Lemma rel_class P s ss :
  NoDup (concat P) → (∀ x, x ∈ s :: ss → rel_of P s x) → ∃ C, C ∈ P ∧ (s :: ss) ⊆ C.
Proof.
  intros Hnd Hrel. destruct (Hrel s) as (C & HC & HsC & _); [set_solver|].
  exists C. split; [done|]. intros x Hx. destruct (Hrel x Hx) as (D & HD & HsD & HxD).
  by rewrite (same_class P C D s).
Qed.

Lemma split_den P s ss argv2 :
  part_ok P → arg_ok s ss → NoDup (s :: ss) → (∀ x, x ∈ s :: ss → rel_of P s x) →
  den P (mk_op OPTYPE_SPLIT (Some (render_class (s :: ss))) argv2) (ASplit (s :: ss)).
Proof.
  intros (_ & _ & HndP) Hs Hnd Hrel.
  destruct (rel_class P s ss HndP Hrel) as (C & HC & Hsub).
  exists (ASplit (s :: ss)). split; [by apply den_split with (C := C)|done].
Qed.

Lemma ot_op_den P o v : part_ok P → ot_op P o v → den P o (abs_op v).
Proof.
  intros HP [t1 g1 t2 g2 H1 H2|s ss C argv2 Hs Hnd HC Hsub].
  - by eapply union_den.
  - apply split_den; try done. intros x Hx. exists C. set_solver.
Qed.

Lemma union_keeps a b (R : prel) x y : R x y → aapply (AUnion a b) R x y.
Proof. intros H. destruct a, b; simpl; try done. by left. Qed.

Lemma runs_proper P os R R' : R ≡ R' → runs P os R → runs P os R'.
Proof. intros E (P' & H1 & H2 & H3 & H4). exists P'. by rewrite <-E. Qed.

(** Union against split: each order of execution, on texts. *)
Lemma union_split_runs P t1 g1 t2 g2 s ss C argv2 argv2' :
  part_ok P → uarg P t1 g1 → uarg P t2 g2 →
  arg_ok s ss → NoDup (s :: ss) → C ∈ P → (s :: ss) ⊆ C →
  covered (s :: ss) g1 → covered (s :: ss) g2 →
  ∃ t1' t2' R,
    ot_change_union (render P) t1 t2 (render_class (s :: ss)) OT_UNION = Ret (Some t1', Some t2')
    ∧ runs P [mk_op OPTYPE_UNION (Some t1) (Some t2);
              mk_op OPTYPE_SPLIT (Some (render_class (s :: ss))) argv2'] R
    ∧ runs P [mk_op OPTYPE_SPLIT (Some (render_class (s :: ss))) argv2;
              mk_op OPTYPE_UNION (Some t1') (Some t2')] R.
Proof.
  intros HP H1 H2 Hs Hnd HC Hsub C1 C2.
  destruct (ot_change_union_spec P C s ss HP HC Hs Hnd Hsub t1 g1 t2 g2 H1 H2 C1 C2)
    as (t1' & g1' & t2' & g2' & E & H1' & H2' & _ & _ & Heq).
  assert (∀ x, x ∈ s :: ss → rel_of P s x) as Hrel by (intros x Hx; exists C; set_solver).
  exists t1', t2', (aapply (ASplit (s :: ss)) (aapply (AUnion (head g1) (head g2)) (rel_of P))).
  split; [done|]. split.
  - apply runs_two; [done|by eapply union_den|]. intros P' (HP' & Hcc & HR).
    apply split_den; try done. intros x Hx. apply HR, union_keeps, Hrel, Hx.
  - eapply runs_proper; [symmetry; exact Heq|].
    apply (runs_two P _ (ASplit (s :: ss))); [done|by apply split_den|].
    intros P' (HP' & Hcc & HR). by eapply union_den.
Qed.

Lemma aunion_comm R a b c d :
  per R → aapply (AUnion a b) (aapply (AUnion c d) R) ≡ aapply (AUnion c d) (aapply (AUnion a b) R).
Proof. intros HR. destruct a, b, c, d; simpl; try done. by apply urel_comm. Qed.

Lemma two_splits_runs P s ss C argv2 r rr D argv2' :
  part_ok P → arg_ok s ss → NoDup (s :: ss) → C ∈ P → (s :: ss) ⊆ C →
  arg_ok r rr → NoDup (r :: rr) → D ∈ P → (r :: rr) ⊆ D →
  s :: ss = r :: rr ∨ Forall (λ x, x ∉ r :: rr) (s :: ss) →
  runs P [mk_op OPTYPE_SPLIT (Some (render_class (s :: ss))) argv2;
          mk_op OPTYPE_SPLIT (Some (render_class (r :: rr))) argv2']
    (srel (srel (rel_of P) (s :: ss)) (r :: rr)).
Proof.
  intros HP Hs Hnd HC Hsub Hr Hnd' HD Hsub' Hdis.
  apply (runs_two P _ (ASplit (s :: ss)) _ (ASplit (r :: rr))); [done|..].
  - apply split_den; try done. intros x Hx. exists C. set_solver.
  - intros P' (HP' & Hcc & HR). apply split_den; try done. intros x Hx. apply HR. split.
    + exists D. set_solver.
    + rewrite Forall_forall in Hdis. destruct Hdis as [E|Hdis].
      * rewrite E. set_solver.
      * split; intros Hin; destruct (Hdis _ Hin); set_solver.
Qed.

Lemma otUfs_union_split P t1 g1 t2 g2 s ss C z :
  part_ok P → uarg P t1 g1 → uarg P t2 g2 →
  arg_ok s ss → NoDup (s :: ss) → C ∈ P → (s :: ss) ⊆ C →
  covered (s :: ss) g1 → covered (s :: ss) g2 →
  let u := mk_op OPTYPE_UNION (Some t1) (Some t2) in
  let sp := mk_op OPTYPE_SPLIT (Some (render_class (s :: ss))) z in
  ∃ u' sp' R,
    otUfs (render P) u sp OT_UNION = Ret (u', sp')
    ∧ otUfs (render P) sp u OT_UNION = Ret (sp', u')
    ∧ runs P [u; sp'] R ∧ runs P [sp; u'] R.
Proof.
  intros HP H1 H2 Hs Hnd HC Hsub C1 C2 u sp.
  destruct (union_split_runs P t1 g1 t2 g2 s ss C z None HP H1 H2 Hs Hnd HC Hsub C1 C2)
    as (t1' & t2' & R & E & R1 & R2).
  exists (mk_op OPTYPE_UNION (Some t1') (Some t2')),
    (mk_op OPTYPE_SPLIT (Some (render_class (s :: ss))) None), R.
  unfold otUfs, ot_flag_union. subst u sp. cbn [optype argv1 argv2 deref].
  rewrite (bool_decide_eq_true_2 (OT_UNION = 2)) by done. bind_red. rewrite E.
  by split_and!.
Qed.

(** Under [OT_UNION] every operation keeps its type. *)
Lemma otUfs_types ufs op1 op2 e1 e2 :
  optype op1 ∈ [OPTYPE_UNION; OPTYPE_SPLIT] → optype op2 ∈ [OPTYPE_UNION; OPTYPE_SPLIT] →
  otUfs ufs op1 op2 OT_UNION = Ret (e1, e2) → optype e1 = optype op1 ∧ optype e2 = optype op2.
Proof.
  unfold otUfs, ot_flag_union. rewrite (bool_decide_eq_true_2 (OT_UNION = 2)) by done.
  rewrite !elem_of_cons, !elem_of_nil. destruct op1 as [z1 a1 b1], op2 as [z2 a2 b2]. cbn [optype argv1 argv2].
  intros [-> | [-> | []]] [-> | [-> | []]]; intros Hot;
    repeat case_match; out_inv Hot; repeat case_match; by simplify_eq/=.
Qed.

Lemma otUfs_unions ufs t1 t2 t3 t4 :
  let u := mk_op OPTYPE_UNION t1 t2 in let v := mk_op OPTYPE_UNION t3 t4 in
  otUfs ufs u v OT_UNION = Ret (u, v).
Proof. reflexivity. Qed.

Lemma otUfs_splits ufs t1 t2 t3 t4 :
  otUfs ufs (mk_op OPTYPE_SPLIT t1 t2) (mk_op OPTYPE_SPLIT t3 t4) OT_UNION =
    Ret (mk_op OPTYPE_SPLIT t1 None, mk_op OPTYPE_SPLIT t3 None).
Proof. reflexivity. Qed.

(** C8: Transformation property TP1 for the flag the control algorithm uses:
    for two operations defined on the same well-formed state whose arguments the
    transformation covers, [otUfs] is defined and executing [op1] and then the
    transformed [op2], or [op2] and then the transformed [op1], on the texts are
    both defined and reach the same equivalence classes. *)
Theorem otUfs_TP1 P op1 v1 op2 v2 :
  part_ok P → ot_op P op1 v1 → ot_op P op2 v2 → compatible v1 v2 →
  ∃ e1 e2 R, otUfs (render P) op1 op2 OT_UNION = Ret (e1, e2)
    ∧ runs P [op1; e2] R ∧ runs P [op2; e1] R.
Proof.
  intros HP H1 H2 Hcomp. pose proof HP as (_ & _ & HndP). pose proof (rel_of_per P HndP) as Hper.
  destruct H1 as [t1 g1 t2 g2 U1 U2|s ss C z Hs Hnd HC Hsub];
    destruct H2 as [t3 g3 t4 g4 U3 U4|r rr D z' Hr Hnd' HD Hsub']; simpl in Hcomp.
  - rewrite otUfs_unions. eexists _, _, _. split; [reflexivity|]. split.
    + apply runs_two; [done|by eapply union_den|]. intros P' (_ & Hcc & _). by eapply union_den.
    + eapply runs_proper; [apply aunion_comm; done|].
      apply runs_two; [done|by eapply union_den|]. intros P' (_ & Hcc & _). by eapply union_den.
  - destruct Hcomp as [C1 C2].
    edestruct (otUfs_union_split P t1 g1 t2 g2 r rr D z') as (u & sp & R & E & _ & R1 & R2);
      try done. by exists u, sp, R.
  - destruct Hcomp as [C1 C2].
    edestruct (otUfs_union_split P t3 g3 t4 g4 s ss C z) as (u & sp & R & _ & E & R1 & R2);
      try done. by exists sp, u, R.
  - rewrite otUfs_splits. eexists _, _, _. split; [reflexivity|]. split.
    + by apply (two_splits_runs P s ss C z r rr D None).
    + eapply runs_proper; [apply srel_comm|].
      apply (two_splits_runs P r rr D z' s ss C None); try done.
      destruct Hcomp as [E|Hdis]; [by left|right]. rewrite Forall_forall in Hdis |- *.
      intros x Hx Hx'. by apply (Hdis x).
Qed.

Lemma otUfs_TP1_witness :
  let P := [[str "a"; str "b"; str "x"]; [str "c"]] in
  let u := mk_op OPTYPE_UNION (Some (str "a")) (Some (str "c")) in
  let s := mk_op OPTYPE_SPLIT (Some (str "a")) None in
  ∃ e1 e2 R, otUfs (str "a,b,x/c") u s OT_UNION = Ret (e1, e2)
    ∧ runs P [u; e2] R ∧ runs P [s; e1] R.
Proof.
  intros P u s.
  apply (otUfs_TP1 P u (VUnion [str "a"] [str "c"]) s (VSplit [str "a"])).
  - concrete.
  - apply ot_union.
    + apply (uarg_group P (str "a") [] [str "a"; str "b"; str "x"]); concrete.
    + apply (uarg_group P (str "c") [] [str "c"]); concrete.
  - apply (ot_split P (str "a") [] [str "a"; str "b"; str "x"]); concrete.
  - concrete.
Defined.

Lemma single_uarg P C a : part_ok P → C ∈ P → a ∈ C → uarg P a [a].
Proof.
  intros (_ & HcP & _) HC Ha. apply (uarg_group P a [] C); [|done|set_solver].
  rewrite Forall_forall in HcP. destruct (HcP C HC) as [_ Hn]. rewrite Forall_forall in Hn.
  split; [|by left]. constructor; [by apply Hn|done].
Qed.

(** A single argument against the split of a group of two or more is left alone. *)
Lemma single_not_hit s ss a : ss ≠ [] → hit s ss [a] = false.
Proof. intros Hss. unfold hit. rewrite bool_decide_eq_true_2 by done. apply bool_decide_eq_false_2. congruence. Qed.

(** C37: The hypothesis on groups in TP1 is needed: when a group of two or more
    elements (the first with a name under ten bytes), but not all, of a class is
    split off, and a concurrent union takes one of its members (as a single
    argument) to an element of another class, then [otUfs] leaves both operations
    alone, in either order of its arguments, and the two orders of execution end
    in different classes: an element of the class outside the group is together
    with the other element of the union when the union comes first, and not when
    the split comes first. *)
Theorem otUfs_group_split_diverges P C s ss a b c :
  part_ok P → C ∈ P → arg_ok s ss → NoDup (s :: ss) → (s :: ss) ⊆ C → ss ≠ [] →
  a ∈ s :: ss → b ∈ C → b ∉ s :: ss → c ∈ concat P → c ∉ C →
  let u := mk_op OPTYPE_UNION (Some a) (Some c) in
  let sp := mk_op OPTYPE_SPLIT (Some (render_class (s :: ss))) None in
  otUfs (render P) u sp OT_UNION = Ret (u, sp) ∧ otUfs (render P) sp u OT_UNION = Ret (sp, u)
  ∧ ∃ R1 R2, runs P [u; sp] R1 ∧ runs P [sp; u] R2 ∧ R1 b c ∧ ¬ R2 b c.
Proof.
  intros HP HC Hs Hnd Hsub Hss Ha Hb HbL (D & HD & Hc)%elem_of_concat HcC u sp. pose proof HP as (_ & _ & HndP).
  pose proof (single_uarg P C a HP HC (Hsub a Ha)) as Ua. pose proof (single_uarg P D c HP HD Hc) as Uc.
  assert (ot_change_union (render P) a c (render_class (s :: ss)) OT_UNION = Ret (Some a, Some c)) as Eot.
  { rewrite (ot_change_union_eq P C s ss HP HC Hs Hnd Hsub a [a] c [c] Ua Uc). unfold subst.
    rewrite !single_not_hit by done. by destruct (untouched _ _ _ _). }
  unfold otUfs, ot_flag_union. subst u sp. cbn [optype argv1 argv2 deref].
  rewrite (bool_decide_eq_true_2 (OT_UNION = 2)) by done. bind_red. rewrite Eot.
  split; [done|]. split; [done|].
  assert (∀ x, x ∈ s :: ss → rel_of P s x) as Hrel by (intros x Hx; exists C; set_solver).
  eexists _, _. split_and!.
  - apply (runs_two P _ (AUnion (Some a) (Some c)) _ (ASplit (s :: ss))); [done|by apply (union_den P P a [a] c [c])|].
    intros P' (HP' & Hcc & HR). apply split_den; try done. intros x Hx. apply HR, union_keeps, Hrel, Hx.
  - apply (runs_two P _ (ASplit (s :: ss)) _ (AUnion (Some a) (Some c))); [done|by apply split_den|].
    intros P' (HP' & Hcc & HR). by apply (union_den P P' a [a] c [c]).
  - split; [|set_solver]. right; left. split; [exists C; set_solver|exists D; set_solver].
  - assert (¬ rel_of P b c) as Hbc.
    { intros (F & HF & HbF & HcF). by rewrite (same_class P C F b) in HcC by done. }
    intros [[H _]|[[[_ H] _]|[[H _] _]]]; [done| |done]. apply HbL. by apply H.
Qed.

Lemma otUfs_group_split_diverges_witness :
  let P := [[str "a"; str "b"; str "x"]; [str "c"]] in
  let u := mk_op OPTYPE_UNION (Some (str "a")) (Some (str "c")) in
  let s := mk_op OPTYPE_SPLIT (Some (str "a,x")) None in
  otUfs (render P) u s OT_UNION = Ret (u, s)
  ∧ ∃ R1 R2, runs P [u; s] R1 ∧ runs P [s; u] R2 ∧ R1 (str "b") (str "c") ∧ ¬ R2 (str "b") (str "c").
Proof.
  intros P u s.
  destruct (otUfs_group_split_diverges P [str "a"; str "b"; str "x"] (str "a") [str "x"] (str "a") (str "b") (str "c"))
    as (E & _ & H); [concrete..|]. split; [exact E|exact H].
Defined.

(** The texts the two orders end with. *)
Example group_split_texts :
  let u := mk_op OPTYPE_UNION (Some (str "a")) (Some (str "c")) in
  let s := mk_op OPTYPE_SPLIT (Some (str "a,x")) None in
  out_fold (λ t o, exec o t) (str "a,b,x/c") [u; s] = Ret (str "b,c/a,x")
  ∧ out_fold (λ t o, exec o t) (str "a,b,x/c") [s; u] = Ret (str "b/a,x,c").
Proof. split; by vm_compute. Qed.
