(* ===== verification/Graph.v ===== *)
(** * Graph: the adjacency-list graph of a replica

    [cudGraph] (src/src/server.h) holds the elements of a union-find-split
    object and, for every pair of elements of one class, an edge in both
    directions.  The operations are those of src/src/ufs.c: looking up
    elements and edges, adding the edges of a union, removing those of a split.

    The nodes of an edge list are only ever prepended by the loops that walk
    it, so such a loop visits the list as it was when the loop started; a list
    of [adjvex] values is the model of a chain of [edge] nodes. *)
From S2P Require Import Prelude Sds Partition OtStr ClassText TextState.

Record vertex := mk_vertex { data : bytes; adj : list Z }.

(** [dlist] holds the initialised entries of the array; [vertexnum] is the
    number of entries allocated. *)
Record cudGraph := mk_graph {
  key : bytes; vertexnum : nat; edgenum : Z; dlist : list vertex }.

#[global] Instance vertex_eq_dec : EqDecision vertex.
Proof. solve_decision. Defined.
#[global] Instance cudGraph_eq_dec : EqDecision cudGraph.
Proof. solve_decision. Defined.

(** [ufs->dlist[i]] for an [int] index. *)
Definition vget (g : cudGraph) (i : Z) : out vertex :=
  if bool_decide (i < 0)%Z then Fail OutOfBounds
  else match dlist g !! Z.to_nat i with Some v => Ret v | None => Fail OutOfBounds end.

(** ** Lookups *)

Fixpoint locate_loop (n : nat) (g : cudGraph) (e : bytes) (i : Z) : out Z :=
  match n with
  | 0 => Ret (-1)%Z
  | S n => v ← vget g i; if streq e (data v) then Ret i else locate_loop n g e (i + 1)
  end.

Definition locateVex (g : cudGraph) (e : bytes) : out Z := locate_loop (vertexnum g) g e 0.

Definition existEdge (g : cudGraph) (v1 v2 : Z) : out bool :=
  v ← vget g v1; Ret (bool_decide (v2 ∈ adj v)).

Definition existElement (g : cudGraph) (e : bytes) : out bool :=
  i ← locate_loop (vertexnum g) g e 0; Ret (bool_decide (i ≠ -1)%Z).

Fixpoint existElements (g : cudGraph) (l : list bytes) : out bool :=
  match l with
  | [] => Ret true
  | e :: l => b ← existElement g e; if b : bool then existElements g l else Ret false
  end.

(** The inner loop of [isConnected]: [e] against the elements after it. *)
Fixpoint connected_to (g : cudGraph) (e : bytes) (l : list bytes) : out bool :=
  match l with
  | [] => Ret true
  | e' :: l =>
    i ← locateVex g e; j ← locateVex g e'; b ← existEdge g i j;
    if b : bool then connected_to g e l else Ret false
  end.

Fixpoint isConnected (g : cudGraph) (elements : list bytes) : out bool :=
  match elements with
  | [] => Ret true
  | e :: l => b ← connected_to g e l; if b : bool then isConnected g l else Ret false
  end.

(** ** Adding edges *)

Definition set_dlist (g : cudGraph) (l : list vertex) : cudGraph :=
  mk_graph (key g) (vertexnum g) (edgenum g) l.

Definition set_adj (g : cudGraph) (i : Z) (l : list Z) : cudGraph :=
  set_dlist g (alter (λ v, mk_vertex (data v) l) (Z.to_nat i) (dlist g)).

Definition set_edgenum (g : cudGraph) (n : Z) : cudGraph :=
  mk_graph (key g) (vertexnum g) n (dlist g).

(** Prepending a new [edge] node. *)
Definition push_edge (g : cudGraph) (i j : Z) : out cudGraph :=
  v ← vget g i;
  let g := set_adj g i (j :: adj v) in
  Ret (set_edgenum g (edgenum g + 1)).

Definition createEdge (g : cudGraph) (v1 v2 : Z) : out cudGraph :=
  skip ← (if bool_decide (v1 = v2) then Ret true
          else b ← existEdge g v1 v2; if b : bool then existEdge g v2 v1 else Ret false);
  if skip : bool then Ret g
  else
    b ← existEdge g v1 v2;
    g ← (if b : bool then Ret g else push_edge g v1 v2);
    b ← existEdge g v2 v1;
    if b : bool then Ret g else push_edge g v2 v1.

(** One of the two double loops of [createLinks]: [p] over the edges of [i], [q]
    over the edges of [j]. *)
Definition links_inner (j p : Z) (g : cudGraph) (q : Z) : out cudGraph :=
  g ← (if bool_decide (p ≠ j) then createEdge g p j else Ret g);
  createEdge g p q.

Definition links_pass (g : cudGraph) (i j : Z) : out cudGraph :=
  vi ← vget g i;
  out_fold (λ g p, vj ← vget g j; out_fold (links_inner j p) g (adj vj)) g (adj vi).

Definition createLinks (g : cudGraph) (i j : Z) : out cudGraph :=
  g ← createEdge g i j;
  g ← links_pass g i j;
  links_pass g j i.

(** ** Removing edges *)

(** Unlinking the first node with [adjvex] = [j]. *)
Fixpoint unlink_first (j : Z) (l : list Z) : option (list Z) :=
  match l with
  | [] => None
  | p :: l => if bool_decide (p = j) then Some l else cons p <$> unlink_first j l
  end.

Definition unlink_half (g : cudGraph) (i j : Z) : out cudGraph :=
  v ← vget g i;
  Ret (match unlink_first j (adj v) with
       | Some l => let g := set_adj g i l in set_edgenum g (edgenum g - 1)
       | None => g
       end).

Definition removeEdge (g : cudGraph) (v1 v2 : bytes) : out cudGraph :=
  i ← locateVex g v1; j ← locateVex g v2;
  g ← unlink_half g i j;
  unlink_half g j i.

(** [list && find(list,e,len)] *)
Definition listed (l : option (list bytes)) (e : bytes) : bool :=
  match l with None => false | Some l => find l e end.

(** Unlinking the nodes of [i] whose element is not listed. *)
Fixpoint keep_listed (g : cudGraph) (l : option (list bytes)) (ps : list Z) : out (list Z) :=
  match ps with
  | [] => Ret []
  | p :: ps =>
    v ← vget g p; rest ← keep_listed g l ps;
    Ret (if listed l (data v) then p :: rest else rest)
  end.

(** Unlinking the nodes that lead to [i] from the vertices that are not listed. *)
Definition drop_back (l : option (list bytes)) (i : Z) (g : cudGraph) (j : Z) : out cudGraph :=
  v ← vget g j;
  Ret (set_adj g j (if listed l (data v) then adj v else filter (λ p, p ≠ i) (adj v))).

Definition removeAdjEdge (g : cudGraph) (v : bytes) (l : option (list bytes)) : out cudGraph :=
  i ← locateVex g v;
  vi ← vget g i;
  if bool_decide (adj vi = []) then Ret g
  else
    ps ← keep_listed g l (adj vi);
    out_fold (drop_back l i) (set_adj g i ps) (Z.of_nat <$> seq 0 (vertexnum g)).

(** ** Well-formed graphs *)

Definition names (g : cudGraph) : list bytes := data <$> dlist g.

Definition valid (g : cudGraph) (i : Z) : Prop := (0 ≤ i < Z.of_nat (length (dlist g)))%Z.

(** The edge list of a vertex, empty outside the array. *)
Definition adjl (g : cudGraph) (i : Z) : list Z :=
  match vget g i with Ret v => adj v | Fail _ => [] end.

Definition edge (g : cudGraph) (i j : Z) : Prop := j ∈ adjl g i.

#[global] Instance valid_dec g i : Decision (valid g i).
Proof. unfold valid. apply _. Defined.
#[global] Instance edge_dec g i j : Decision (edge g i j).
Proof. unfold edge. apply _. Defined.

(** Every edge list is a duplicate-free list of other vertices and edges exist
    in both directions; elements have distinct, well-formed names. *)
Record wf (g : cudGraph) : Prop := {
  wf_num : vertexnum g = length (dlist g);
  wf_names : Forall name_ok (names g);
  wf_distinct : NoDup (names g);
  wf_adj : ∀ i, NoDup (adjl g i);
  wf_range : ∀ i j, edge g i j → valid g j;
  wf_irr : ∀ i, ¬ edge g i i;
  wf_sym : ∀ i j, edge g i j → edge g j i;
}.

(** The edges are those of an equivalence: the graph is a union of cliques. *)
Definition cliques (g : cudGraph) : Prop :=
  ∀ i j k, edge g i j → edge g j k → i ≠ k → edge g i k.

(** Same elements, whatever the edges. *)
Definition frame (g g' : cudGraph) : Prop :=
  key g' = key g ∧ vertexnum g' = vertexnum g ∧ names g' = names g.

#[global] Instance frame_refl : Reflexive frame.
Proof. done. Qed.
#[global] Instance frame_trans : Transitive frame.
Proof. intros g1 g2 g3 (?&?&?) (?&?&?). split_and!; congruence. Qed.

Lemma frame_valid g g' i : frame g g' → valid g' i ↔ valid g i.
Proof.
  intros (_ & _ & H). unfold valid. apply (f_equal length) in H.
  unfold names in H. rewrite !length_fmap in H. by rewrite H.
Qed.

Lemma vget_valid g i :
  valid g i → ∃ v, vget g i = Ret v ∧ dlist g !! Z.to_nat i = Some v ∧ adjl g i = adj v
    ∧ names g !! Z.to_nat i = Some (data v).
Proof.
  intros [H1 H2]. unfold adjl, vget, names. rewrite bool_decide_eq_false_2 by lia.
  destruct (lookup_lt_is_Some_2 (dlist g) (Z.to_nat i)) as [v Hv]; [lia|].
  rewrite list_lookup_fmap, Hv. by exists v.
Qed.

Lemma vget_invalid g i : ¬ valid g i → vget g i = Fail OutOfBounds.
Proof.
  intros Hv. unfold vget, valid in *. case_bool_decide; [done|].
  rewrite lookup_ge_None_2; [done|lia].
Qed.

Lemma edge_valid g i j : edge g i j → valid g i.
Proof.
  unfold edge, adjl. intros He. destruct (decide (valid g i)) as [|Hn]; [done|].
  rewrite vget_invalid in He by done. set_solver.
Qed.

Lemma existEdge_spec g i j : valid g i → existEdge g i j = Ret (bool_decide (edge g i j)).
Proof.
  intros (v & Hv & _ & Ha & _)%vget_valid. unfold existEdge. rewrite Hv. bind_red.
  f_equal. apply bool_decide_ext. unfold edge. by rewrite Ha.
Qed.

(** *** Looking up an element *)

Lemma locate_loop_spec g e n i :
  Forall name_ok (names g) → nul_free e → n + i = length (dlist g) →
  locate_loop n g e (Z.of_nat i) =
    Ret (match list_find (λ x, x = e) (drop i (names g)) with
         | Some (k, _) => Z.of_nat (i + k) | None => -1 end)%Z.
Proof.
  intros Hn He. revert i. induction n as [|n IH]; intros i Hi; simpl.
  { rewrite drop_ge; [done|]. unfold names. rewrite length_fmap. lia. }
  destruct (vget_valid g (Z.of_nat i)) as (v & Hv & _ & _ & Hname); [unfold valid; lia|].
  rewrite Nat2Z.id in Hname. rewrite Hv. bind_red.
  rewrite (drop_S (names g) (data v) i Hname). simpl.
  assert (nul_free (data v)).
  { rewrite Forall_forall in Hn. by eapply name_nul_free, Hn, list_elem_of_lookup_2. }
  destruct (streq e (data v)) eqn:E.
  - rewrite (decide_True _ _ (eq_sym (proj1 (streq_iff _ _ He H) E))). f_equal. lia.
  - rewrite decide_False.
    2:{ intros <-. revert E. by rewrite (proj2 (streq_iff _ _ H H) eq_refl). }
    replace (Z.of_nat i + 1)%Z with (Z.of_nat (S i)) by lia. rewrite IH by lia.
    destruct (list_find _ _) as [[k y]|]; simpl; f_equal; lia.
Qed.

(** The position of an element, -1 when the graph does not have it. *)
Definition vpos (g : cudGraph) (e : bytes) : Z :=
  match list_find (λ x, x = e) (names g) with Some (k, _) => Z.of_nat k | None => -1 end.

Lemma locateVex_spec g e : wf g → nul_free e → locateVex g e = Ret (vpos g e).
Proof.
  intros Hwf He. unfold locateVex. rewrite (locate_loop_spec g e _ 0); [done|apply Hwf|done|].
  rewrite (wf_num g Hwf). lia.
Qed.

Lemma vpos_in g e : wf g → e ∈ names g →
  valid g (vpos g e) ∧ names g !! Z.to_nat (vpos g e) = Some e.
Proof.
  intros Hwf He. unfold vpos.
  destruct (list_find_elem_of (λ x, x = e) (names g) e He eq_refl) as [[k y] Hk].
  rewrite Hk. apply list_find_Some in Hk as (Hk & -> & _). rewrite Nat2Z.id. split; [|done].
  apply lookup_lt_Some in Hk. unfold names in Hk. rewrite length_fmap in Hk. unfold valid. lia.
Qed.

Lemma vpos_not_in g e : e ∉ names g → vpos g e = (-1)%Z.
Proof.
  intros He. unfold vpos. destruct (list_find _ _) as [[k y]|] eqn:Hk; [|done].
  apply list_find_Some in Hk as (Hk & -> & _). by apply list_elem_of_lookup_2 in Hk.
Qed.

Lemma vpos_name g i e : wf g → valid g i → names g !! Z.to_nat i = Some e → vpos g e = i.
Proof.
  intros Hwf Hv Hi. destruct (vpos_in g e Hwf) as [Hv' Hp]; [by eapply list_elem_of_lookup_2|].
  pose proof (NoDup_lookup _ _ _ _ (wf_distinct g Hwf) Hp Hi). unfold valid in *. lia.
Qed.

Lemma vpos_frame g g' e : frame g g' → vpos g' e = vpos g e.
Proof. intros (_ & _ & H). unfold vpos. by rewrite H. Qed.

Lemma existElement_spec g e :
  wf g → nul_free e → existElement g e = Ret (bool_decide (e ∈ names g)).
Proof.
  intros Hwf He. pose proof (locateVex_spec g e Hwf He) as E. unfold existElement, locateVex in *.
  rewrite E. bind_red. f_equal. apply bool_decide_ext. split.
  - intros Hne. destruct (decide (e ∈ names g)) as [|Hn]; [done|].
    by rewrite vpos_not_in in Hne.
  - intros Hin. destruct (vpos_in g e Hwf Hin) as [[? ?] _]. lia.
Qed.

Lemma existElements_spec g l :
  wf g → Forall nul_free l →
  existElements g l = Ret (bool_decide (Forall (λ e, e ∈ names g) l)).
Proof.
  intros Hwf. induction 1 as [|e l He Hl IH]; simpl; [done|].
  rewrite existElement_spec by done. bind_red. destruct (decide (e ∈ names g)) as [Hin|Hin].
  - rewrite (bool_decide_eq_true_2 (e ∈ names g)), IH by done. f_equal. apply bool_decide_ext. rewrite Forall_cons. tauto.
  - rewrite (bool_decide_eq_false_2 (e ∈ names g)) by done. f_equal. symmetry.
    apply bool_decide_eq_false_2. by intros [? _]%Forall_cons.
Qed.

(** *** Updating an edge list *)

Lemma set_adj_frame g i l : frame g (set_adj g i l).
Proof.
  split_and!; try done. unfold names. simpl.
  apply list_eq. intros k. rewrite !list_lookup_fmap.
  destruct (decide (k = Z.to_nat i)) as [->|Hne].
  - rewrite list_lookup_alter_eq. by destruct (dlist g !! Z.to_nat i).
  - by rewrite list_lookup_alter_ne by done.
Qed.

Lemma adjl_set_adj g i l k :
  valid g i → adjl (set_adj g i l) k = if decide (k = i) then l else adjl g k.
Proof.
  intros Hv. unfold adjl, vget. simpl. case_bool_decide as Hk.
  { rewrite decide_False; [done|]. unfold valid in Hv. lia. }
  destruct (decide (k = i)) as [->|Hne].
  - destruct (vget_valid g i Hv) as (v & _ & Hi & _).
    by rewrite list_lookup_alter_eq, Hi.
  - rewrite list_lookup_alter_ne by (unfold valid in Hv; lia). done.
Qed.

(** An update that keeps the elements and leaves edge lists duplicate-free, in
    range, irreflexive and symmetric keeps the graph well-formed. *)
Lemma wf_frame g g' :
  wf g → frame g g' → (∀ i, NoDup (adjl g' i)) → (∀ i j, edge g' i j → valid g j) →
  (∀ i, ¬ edge g' i i) → (∀ i j, edge g' i j → edge g' j i) → wf g'.
Proof.
  intros Hwf Hf Hnd Hr Hi Hs. pose proof Hf as (Hk & Hn & Hnm). split; try done.
  - rewrite Hn, (wf_num g Hwf). apply (f_equal length) in Hnm.
    unfold names in Hnm. by rewrite !length_fmap in Hnm.
  - rewrite Hnm. apply Hwf.
  - rewrite Hnm. apply Hwf.
  - intros i j He. apply (frame_valid g g' j Hf). by eapply Hr.
Qed.

Lemma push_edge_spec g i j :
  valid g i →
  ∃ g', push_edge g i j = Ret g' ∧ frame g g' ∧ edgenum g' = (edgenum g + 1)%Z
    ∧ ∀ k, adjl g' k = if decide (k = i) then j :: adjl g i else adjl g k.
Proof.
  intros Hv. destruct (vget_valid g i Hv) as (v & E & _ & Ha & _).
  unfold push_edge. rewrite E. bind_red. eexists. split; [done|].
  split_and!; try done.
  - apply set_adj_frame.
  - intros k. rewrite <-Ha. by apply adjl_set_adj.
Qed.

(** What [createEdge] is for: both directions exist afterwards, once each. *)
Definition linked (g g' : cudGraph) (a b : Z) : Prop :=
  ∀ i j, edge g' i j ↔ edge g i j ∨ (a ≠ b ∧ ((i = a ∧ j = b) ∨ (i = b ∧ j = a))).

Lemma createEdge_spec g a b :
  wf g → valid g a → valid g b →
  ∃ g', createEdge g a b = Ret g' ∧ frame g g' ∧ wf g' ∧ linked g g' a b.
Proof.
  intros Hwf Ha Hb. unfold createEdge. rewrite !existEdge_spec by done. bind_red.
  destruct (decide (a = b)) as [<-|Hab].
  { rewrite (bool_decide_eq_true_2 (a = a)) by done. bind_red. exists g.
    split_and!; try done. intros i j. tauto. }
  rewrite (bool_decide_eq_false_2 (a = b)) by done. bind_red.
  destruct (decide (edge g a b)) as [He|He].
  { rewrite !bool_decide_eq_true_2 by (done || by apply (wf_sym g Hwf)). bind_red.
    exists g. split_and!; try done. pose proof (wf_sym g Hwf _ _ He). intros i j. naive_solver. }
  rewrite !(bool_decide_eq_false_2 (edge g a b)) by done. bind_red.
  assert (¬ edge g b a) as He' by (intros H; by apply He, (wf_sym g Hwf)).
  destruct (push_edge_spec g a b Ha) as (g1 & -> & Hf1 & _ & Hg1). bind_red.
  assert (valid g1 b) as Hb1 by by apply (frame_valid g g1).
  rewrite existEdge_spec by done. bind_red.
  assert (adjl g1 b = adjl g b) as Eb by (rewrite Hg1; by rewrite decide_False).
  rewrite (bool_decide_eq_false_2 (edge g1 b a)) by (unfold edge; by rewrite Eb).
  destruct (push_edge_spec g1 b a Hb1) as (g2 & -> & Hf2 & _ & Hg2).
  assert (linked g g2 a b) as Hl.
  { intros i j. unfold edge. rewrite Hg2, Eb. destruct (decide (i = b)) as [->|].
    - set_solver.
    - rewrite Hg1. destruct (decide (i = a)) as [->|]; set_solver. }
  exists g2. split_and!; [done|by etrans| |done].
  apply (wf_frame g); [done|by etrans|..].
  - intros i. rewrite Hg2, Eb. destruct (decide (i = b)) as [->|].
    + constructor; [done|apply Hwf].
    + rewrite Hg1. destruct (decide (i = a)); [|apply Hwf].
      constructor; [done|apply Hwf].
  - intros i j [?|[_ [[-> ->]|[-> ->]]]]%Hl; [by eapply wf_range|done..].
  - intros i [?|[_ [[-> ?]|[-> ?]]]]%Hl; [by eapply wf_irr|congruence..].
  - intros i j He2. apply Hl. apply Hl in He2 as [?|?]; [left; by apply wf_sym|tauto].
Qed.

(** ** createLinks merges two cliques *)

(** [links g M g']: from [g], edges were added up to [g'], all of them inside the
    symmetric relation [M]. *)
Definition links (M : Z → Z → Prop) (g g' : cudGraph) : Prop :=
  frame g g' ∧ wf g' ∧ (∀ i j, edge g i j → edge g' i j) ∧ (∀ i j, edge g' i j → edge g i j ∨ M i j).

#[global] Instance links_trans M : Transitive (links M).
Proof.
  intros g1 g2 g3 (F1 & W1 & I1 & O1) (F2 & W2 & I2 & O2).
  split_and!; [by etrans|done|auto|]. intros i j [?|?]%O2; auto.
Qed.

Lemma links_refl M g : wf g → links M g g.
Proof. intros H. split; [reflexivity|]. split_and!; auto. Qed.

Section createLinks.
Context (M : Z → Z → Prop) (Msym : ∀ x y, M x y → M y x).

Lemma createEdge_links g a b :
  wf g → valid g a → valid g b → (a ≠ b → M a b) →
  returns (createEdge g a b) (λ g', links M g g' ∧ (a ≠ b → edge g' a b)).
Proof.
  intros Hwf Ha Hb HM. destruct (createEdge_spec g a b Hwf Ha Hb) as (g' & -> & F & W & L).
  exists g'. split; [done|]. split; [split_and!; try done|].
  - intros i j ?. apply L. by left.
  - intros i j [?|[Hn [[-> ->]|[-> ->]]]]%L; [by left|right; auto..].
  - intros Hn. apply L. right. tauto.
Qed.

Lemma links_inner_spec g j p q :
  wf g → valid g p → valid g q → valid g j → (p ≠ j → M p j) → (p ≠ q → M p q) →
  returns (links_inner j p g q)
    (λ g', links M g g' ∧ (p ≠ j → edge g' p j) ∧ (p ≠ q → edge g' p q)).
Proof.
  intros Hwf Hp Hq Hj Mj Mq. unfold links_inner.
  apply returns_bind with (P := λ g', links M g g' ∧ (p ≠ j → edge g' p j)).
  - case_bool_decide; [by apply createEdge_links|].
    apply returns_ret. split; [by apply links_refl|done].
  - intros g1 [L1 E1]. pose proof L1 as (F1 & W1 & _ & _).
    eapply returns_mono; [apply createEdge_links; try done|].
    + by apply (frame_valid g g1).
    + by apply (frame_valid g g1).
    + intros g2 [L2 E2]. pose proof L2 as (_ & _ & I2 & _). split_and!; auto. by etrans.
Qed.

Lemma inner_fold_spec g j p :
  wf g → valid g p → valid g j → (p ≠ j → M p j) →
  (∀ q, q ∈ adjl g j → p ≠ q → M p q) →
  returns (vj ← vget g j; out_fold (links_inner j p) g (adj vj))
    (λ g', links M g g' ∧ (∀ q, q ∈ adjl g j → (p ≠ j → edge g' p j) ∧ (p ≠ q → edge g' p q))).
Proof.
  intros Hwf Hp Hj Mj Mq. destruct (vget_valid g j Hj) as (v & -> & _ & Ha & _). bind_red.
  rewrite Ha in *. apply returns_fold with (I := λ seen g',
    links M g g' ∧ (∀ q, q ∈ seen → (p ≠ j → edge g' p j) ∧ (p ≠ q → edge g' p q))).
  { split; [by apply links_refl|]. set_solver. }
  intros seen q rest g1 El [L1 S1]. pose proof L1 as (F1 & W1 & _ & _).
  assert (q ∈ adj v) as Hq by (rewrite El; set_solver).
  eapply returns_mono; [apply links_inner_spec; try done|].
  - by apply (frame_valid g g1).
  - apply (frame_valid g g1); [done|]. apply (wf_range g Hwf j). unfold edge. by rewrite Ha.
  - by apply (frame_valid g g1).
  - auto.
  - intros g2 (L2 & Ej & Eq). pose proof L2 as (_ & _ & I2 & _).
    split; [by etrans|]. intros q' [Hin|E]%elem_of_app.
    + destruct (S1 q' Hin). split; auto.
    + apply list_elem_of_singleton in E as ->. auto.
Qed.

Lemma links_pass_spec g i j :
  wf g → valid g i → valid g j →
  (∀ p, p ∈ adjl g i → p ≠ j → M p j) →
  (∀ p q, p ∈ adjl g i → (q ∈ adjl g j ∨ M j q) → p ≠ q → M p q) →
  returns (links_pass g i j)
    (λ g', links M g g' ∧ (∀ p q, p ∈ adjl g i → q ∈ adjl g j →
       (p ≠ j → edge g' p j) ∧ (p ≠ q → edge g' p q))).
Proof.
  intros Hwf Hi Hj Mj Mq. unfold links_pass.
  destruct (vget_valid g i Hi) as (v & -> & _ & Ha & _). bind_red. rewrite Ha in *.
  apply returns_fold with (I := λ seen g', links M g g' ∧ (∀ p q, p ∈ seen → q ∈ adjl g j →
       (p ≠ j → edge g' p j) ∧ (p ≠ q → edge g' p q))).
  { split; [by apply links_refl|]. set_solver. }
  intros seen p rest g1 El [L1 S1]. pose proof L1 as (F1 & W1 & I1 & O1).
  assert (p ∈ adj v) as Hp by (rewrite El; set_solver).
  assert (valid g p) as Hvp by (apply (wf_range g Hwf i); unfold edge; by rewrite Ha).
  eapply returns_mono; [apply inner_fold_spec; try done|].
  - by apply (frame_valid g g1).
  - by apply (frame_valid g g1).
  - auto.
  - intros q Hq Hne. apply Mq; try done. by apply O1.
  - intros g2 (L2 & E2). pose proof L2 as (_ & _ & I2 & _).
    split; [by etrans|]. intros p' q [Hin|E]%elem_of_app Hq.
    + destruct (S1 p' q Hin Hq). split; auto.
    + apply list_elem_of_singleton in E as ->. apply E2. by apply I1.
Qed.
End createLinks.

(** In the class of [i], by index. *)
Definition near (g : cudGraph) (i x : Z) : Prop := x = i ∨ edge g i x.

(** The union of the classes of [i] and [j]. *)
Definition near2 (g : cudGraph) (i j x : Z) : Prop := near g i x ∨ near g j x.

Definition merged (g g' : cudGraph) (i j : Z) : Prop :=
  ∀ x y, edge g' x y ↔ edge g x y ∨ (x ≠ y ∧ near2 g i j x ∧ near2 g i j y).

Section merge.
Context (g : cudGraph) (i j : Z).
Context (Hwf : wf g) (Hcl : cliques g) (Hi : valid g i) (Hj : valid g j).

(** The edges [createLinks] may add. *)
Definition inside (x y : Z) : Prop := near2 g i j x ∧ near2 g i j y.

Lemma inside_sym x y : inside x y → inside y x.
Proof. unfold inside. tauto. Qed.

Lemma near_clique k x y : near g k x → near g k y → x ≠ y → edge g x y.
Proof.
  intros [->|Hx] [->|Hy] Hne; [done|done|by apply wf_sym|].
  apply (Hcl x k y); [by apply wf_sym|done|done].
Qed.

Lemma adjl_near2 g1 k x :
  links inside g g1 → k = i ∨ k = j → x ∈ adjl g1 k → near2 g i j x.
Proof.
  intros (_ & _ & _ & O) Hk [He|[_ He]]%O; [|done].
  destruct Hk as [-> | ->]; [left|right]; by right.
Qed.

(** One pass, started from a graph between [g] and its completion. *)
Lemma pass_links g1 a b :
  links inside g g1 → (a = i ∧ b = j) ∨ (a = j ∧ b = i) →
  returns (links_pass g1 a b)
    (λ g2, links inside g g2 ∧ links inside g1 g2 ∧ (∀ p q, p ∈ adjl g1 a → q ∈ adjl g1 b →
       (p ≠ b → edge g2 p b) ∧ (p ≠ q → edge g2 p q))).
Proof.
  intros L1 Hab. pose proof L1 as (F1 & W1 & _ & _).
  assert (near2 g i j a ∧ near2 g i j b ∧ (a = i ∨ a = j) ∧ (b = i ∨ b = j)
    ∧ valid g1 a ∧ valid g1 b) as (Na & Nb & Ea & Eb & Va & Vb).
  { rewrite !(frame_valid g g1) by done. unfold near2, near. destruct Hab as [[-> ->]|[-> ->]]; tauto. }
  eapply returns_mono; [apply (links_pass_spec inside inside_sym g1 a b); try done|].
  - intros p Hp _. split; [|done]. by apply (adjl_near2 g1 a).
  - intros p q Hp Hq _. split; [by apply (adjl_near2 g1 a)|].
    destruct Hq as [Hq|[_ Hq]]; [by apply (adjl_near2 g1 b)|done].
  - intros g2 [L2 C2]. split_and!; [by etrans|done|done].
Qed.

(** [createLinks] turns the classes of [i] and [j] into one clique and leaves the
    rest of the graph alone. *)
Lemma createLinks_merged :
  ∃ g', createLinks g i j = Ret g' ∧ frame g g' ∧ wf g' ∧ merged g g' i j.
Proof.
  destruct (createEdge_links inside inside_sym g i j Hwf Hi Hj) as (g1 & E1 & L1 & C1).
  { intros _. unfold inside, near2, near. tauto. }
  unfold createLinks. rewrite E1. bind_red. pose proof L1 as (F1 & W1 & I1 & O1).
  destruct (pass_links g1 i j L1) as (g2 & -> & L2 & L12 & C2); [tauto|]. bind_red.
  destruct (pass_links g2 j i L2) as (g3 & -> & L3 & L23 & C3); [tauto|].
  pose proof L3 as (F3 & W3 & I3 & O3). exists g3. split_and!; try done.
  pose proof L12 as (_ & W2 & I12 & _). pose proof L23 as (_ & _ & I23 & _).
  assert (∀ x y, near g i x → near g j y → x ≠ y → edge g3 x y) as Hcross.
  { intros x y Hx Hy Hne. destruct (decide (i = j)) as [Eij|Hij].
    { rewrite <-Eij in Hy. apply I3. by apply (near_clique i). }
    specialize (C1 Hij). assert (edge g1 j i) as C1' by by apply wf_sym.
    destruct Hx as [->|Hx], Hy as [->|Hy].
    - by apply I23, I12.
    - apply wf_sym; [done|]. apply (C3 y j); [by apply I12, I1|by apply I12|done].
    - by apply I23, (C2 x i); [apply I1|..].
    - apply I23, (C2 x y); [by apply I1..|done]. }
  intros x y. split.
  - intros He. destruct (O3 x y He) as [?|[Nx Ny]]; [by left|]. right. split_and!; try done.
    intros ->. by apply (wf_irr g3 W3 y).
  - intros [He|(Hne & [Nx|Nx] & [Ny|Ny])]; [by apply I3|..].
    + apply I3. by apply (near_clique i).
    + by apply Hcross.
    + apply wf_sym; [done|]. by apply Hcross.
    + apply I3. by apply (near_clique j).
Qed.

Lemma near_trans k x y : near g k x → near g x y → near g k y.
Proof.
  intros [->|Hx] [->|Hy]; [by left|by right|by right|].
  destruct (decide (k = y)) as [->|]; [by left|right]. by apply (Hcl k x y).
Qed.

Lemma near2_edge x y : near2 g i j x → edge g x y → near2 g i j y.
Proof. intros [Hx|Hx] He; [left|right]; eapply near_trans; try done; by right. Qed.

Lemma merged_cliques g' : merged g g' i j → cliques g'.
Proof.
  unfold merged. intros HM x y z. rewrite (HM x y), (HM y z), (HM x z).
  intros [H1|(_ & Nx & Ny)] [H2|(_ & Ny' & Nz)] Hne.
  - left. by apply (Hcl x y z).
  - right. split_and!; try done. apply (near2_edge y); [done|by apply wf_sym].
  - right. split_and!; try done. by apply (near2_edge y).
  - by right.
Qed.
End merge.

(** ** removeAdjEdge detaches a vertex *)

(** The name of a vertex. *)
Definition vname (g : cudGraph) (i : Z) : bytes := default [] (names g !! Z.to_nat i).

Lemma vname_vget g i v : vget g i = Ret v → vname g i = data v.
Proof.
  unfold vget, vname, names. case_bool_decide; [done|].
  rewrite list_lookup_fmap. destruct (dlist g !! Z.to_nat i); [|done]. by intros [= ->].
Qed.

Lemma vname_frame g g' i : frame g g' → vname g' i = vname g i.
Proof. intros (_ & _ & H). unfold vname. by rewrite H. Qed.

Lemma vname_in g i : valid g i → vname g i ∈ names g.
Proof.
  intros (v & E & _ & _ & Hn)%vget_valid. rewrite (vname_vget _ _ _ E).
  by eapply list_elem_of_lookup_2.
Qed.

Lemma vpos_vname g i : wf g → valid g i → vpos g (vname g i) = i.
Proof.
  intros Hwf Hv. destruct (vget_valid g i Hv) as (v & E & _ & _ & Hn).
  rewrite (vname_vget _ _ _ E). by apply vpos_name.
Qed.

Lemma vname_vpos g e : wf g → e ∈ names g → vname g (vpos g e) = e.
Proof. intros Hwf [Hv Hn]%vpos_in; [|done]. unfold vname. by rewrite Hn. Qed.

Lemma vname_inj g i j : wf g → valid g i → valid g j → vname g i = vname g j → i = j.
Proof. intros Hwf Hi Hj E. by rewrite <-(vpos_vname g i), E, vpos_vname. Qed.

Lemma find_spec l e : Forall nul_free l → nul_free e → find l e = bool_decide (e ∈ l).
Proof.
  intros Hl He. unfold find. induction Hl as [|x l Hx Hl IH]; simpl; [done|].
  destruct (streq e x) eqn:E; simpl.
  - symmetry. apply bool_decide_eq_true_2. apply streq_iff in E; [|done..]. set_solver.
  - rewrite IH. apply bool_decide_ext. rewrite elem_of_cons. split; [by right|].
    intros [->|?]; [|done]. by rewrite (proj2 (streq_iff x x Hx Hx) eq_refl) in E.
Qed.

Lemma listed_in l e :
  Forall nul_free (default [] l) → nul_free e → listed l e = bool_decide (e ∈ default [] l).
Proof. destruct l; simpl; [by apply find_spec|done]. Qed.

Section remove.
Context (g : cudGraph) (L : option (list bytes)) (i : Z).
Context (Hwf : wf g) (HL : Forall nul_free (default [] L)) (Hi : valid g i).

Definition kept (x : Z) : Prop := vname g x ∈ default [] L.

#[global] Instance kept_dec x : Decision (kept x).
Proof. unfold kept. apply _. Defined.

Lemma listed_spec x : valid g x → listed L (vname g x) = bool_decide (kept x).
Proof.
  intros Hx. apply listed_in; [done|]. eapply name_nul_free. pose proof (wf_names g Hwf) as Hn.
  rewrite Forall_forall in Hn. by apply Hn, vname_in.
Qed.

Lemma keep_listed_spec ps :
  Forall (valid g) ps → keep_listed g L ps = Ret (filter kept ps).
Proof.
  induction 1 as [|p ps Hp Hps IH]; [done|]. simpl.
  destruct (vget_valid g p Hp) as (v & E & _). rewrite E. bind_red. rewrite IH. bind_red.
  rewrite <-(vname_vget g p v E), listed_spec by done. rewrite filter_cons.
  case_bool_decide; [by rewrite decide_True|by rewrite decide_False].
Qed.

(** The edge lists after the second loop has passed the vertices of [seen]. *)
Definition detached (g0 : cudGraph) (seen : list Z) (x : Z) : list Z :=
  if decide (x ∈ seen ∧ ¬ kept x) then filter (λ p, p ≠ i) (adjl g0 x) else adjl g0 x.

Lemma drop_back_fold g0 js :
  frame g g0 → NoDup js → Forall (valid g) js →
  returns (out_fold (drop_back L i) g0 js)
    (λ g', frame g g' ∧ ∀ x, adjl g' x = detached g0 js x).
Proof.
  intros F0 Hnd Hjs.
  apply returns_fold with (I := λ seen g', frame g g' ∧ ∀ x, adjl g' x = detached g0 seen x).
  { split; [done|]. intros x. unfold detached. rewrite decide_False; [done|]. set_solver. }
  intros seen j rest g1 -> [F1 A1]. rewrite Forall_app, Forall_cons in Hjs.
  destruct Hjs as (_ & Hj & _). apply NoDup_app in Hnd as (_ & Hdis & _).
  assert (valid g1 j) as Hj1 by by apply (frame_valid g g1).
  destruct (vget_valid g1 j Hj1) as (v & E & _ & Ha & _). unfold drop_back. rewrite E. bind_red.
  eexists. split; [done|]. split; [etrans; [done|apply set_adj_frame]|].
  intros x. rewrite adjl_set_adj by done.
  rewrite <-(vname_vget g1 j v E), (vname_frame g g1), listed_spec, <-Ha, A1 by done.
  assert (j ∉ seen) as Hjs by (intros Hs; apply (Hdis j Hs); set_solver).
  destruct (decide (x = j)) as [->|Hne].
  - unfold detached. rewrite (decide_False (P := j ∈ seen ∧ _)) by tauto.
    case_bool_decide as Hk; [rewrite decide_False by tauto|rewrite decide_True by set_solver]; done.
  - rewrite A1. unfold detached.
    rewrite (decide_ext (x ∈ seen ∧ ¬ kept x) (x ∈ seen ++ [j] ∧ ¬ kept x)); [done|].
    rewrite elem_of_app, list_elem_of_singleton. tauto.
Qed.

(** The edges left: those of [i] only to kept vertices. *)
Definition detached_from (g' : cudGraph) : Prop :=
  ∀ x y, edge g' x y ↔ edge g x y ∧ (x = i → kept y) ∧ (y = i → kept x).

Lemma seq_valid : Forall (valid g) (Z.of_nat <$> seq 0 (vertexnum g)).
Proof.
  apply Forall_fmap, Forall_forall. intros k Hk%elem_of_seq. simpl.
  rewrite (wf_num g Hwf) in Hk. unfold valid. lia.
Qed.

Lemma all_seq x : valid g x → x ∈ Z.of_nat <$> seq 0 (vertexnum g).
Proof.
  intros Hx. unfold valid in Hx. apply list_elem_of_fmap. exists (Z.to_nat x). split; [lia|].
  apply elem_of_seq. rewrite (wf_num g Hwf). lia.
Qed.

Lemma detached_wf g' : frame g g' → (∀ x, NoDup (adjl g' x)) → detached_from g' → wf g'.
Proof.
  unfold detached_from. intros F Hnd D. apply (wf_frame g); try done.
  - intros x y [He _]%D. by eapply wf_range.
  - intros x [He _]%D. by eapply wf_irr.
  - intros x y (He & H1 & H2)%D. apply D. split_and!; auto. by apply wf_sym.
Qed.

Lemma removeAdjEdge_spec v :
  nul_free v → vpos g v = i →
  ∃ g', removeAdjEdge g v L = Ret g' ∧ frame g g' ∧ wf g' ∧ detached_from g'.
Proof.
  intros Hv Hp. unfold removeAdjEdge. rewrite locateVex_spec, Hp by done. bind_red.
  destruct (vget_valid g i Hi) as (vi & -> & _ & Ha & _). bind_red. case_bool_decide as Hnil.
  { exists g. split_and!; try done. unfold detached_from.
    assert (∀ y, ¬ edge g i y) as Hno by (intros y; unfold edge; rewrite Ha, Hnil; set_solver).
    intros x y. split; [|tauto]. intros He. split_and!; [done|..]; intros ->; destruct (Hno y) || destruct (Hno x).
    - done.
    - by apply wf_sym. }
  rewrite keep_listed_spec.
  2:{ apply Forall_forall. intros p Hp'. apply (wf_range g Hwf i). unfold edge. by rewrite Ha. }
  bind_red. set (g0 := set_adj g i _).
  assert (frame g g0) as F0 by apply set_adj_frame.
  destruct (drop_back_fold g0 (Z.of_nat <$> seq 0 (vertexnum g))) as (g' & -> & F & A);
    [done|apply NoDup_fmap_2; [apply _|apply NoDup_seq]|apply seq_valid|].
  exists g'. split; [done|]. split; [done|].
  assert (∀ x, adjl g0 x = if decide (x = i) then filter kept (adjl g i) else adjl g x) as A0.
  { intros x. unfold g0. rewrite adjl_set_adj by done. by rewrite Ha. }
  assert (∀ x, NoDup (adjl g0 x)) as Hnd0.
  { intros x. rewrite A0. destruct (decide _); [apply NoDup_filter|]; apply Hwf. }
  assert (detached_from g') as D.
  2:{ split; [|done]. apply detached_wf; try done. intros x. rewrite A. unfold detached.
      destruct (decide _); [apply NoDup_filter|]; apply Hnd0. }
  intros x y. unfold edge at 1. rewrite A.
  assert (y ∈ adjl g0 x ↔ edge g x y ∧ (x = i → kept y)) as E0.
  { rewrite A0. destruct (decide (x = i)) as [->|]; [|unfold edge; tauto].
    rewrite list_elem_of_filter. unfold edge. tauto. }
  unfold detached. destruct (decide _) as [[_ Hk]|Hn].
  - rewrite list_elem_of_filter, E0. tauto.
  - rewrite E0. split; [|tauto]. intros [He Hx]. split_and!; try done. intros ->.
    destruct (decide (kept x)); [done|]. destruct Hn. split; [|done].
    apply all_seq. by eapply edge_valid.
Qed.
End remove.

(** ** Deciding well-formedness *)

(** The edges of all vertices of the array satisfy [Q]. *)
Definition all_edges (g : cudGraph) (Q : Z → Z → Prop) : Prop :=
  Forall (λ i, Forall (Q i) (adjl g i)) (Z.of_nat <$> seq 0 (length (dlist g))).

Lemma all_edges_spec g Q : all_edges g Q ↔ ∀ i j, edge g i j → Q i j.
Proof.
  unfold all_edges. rewrite Forall_forall. setoid_rewrite Forall_forall. split.
  - intros H i j He. apply H; [|done]. pose proof (edge_valid g i j He) as Hv. unfold valid in Hv.
    apply list_elem_of_fmap. exists (Z.to_nat i). rewrite elem_of_seq. lia.
  - intros H i _ j He. by apply H.
Qed.

Definition wf_check (g : cudGraph) : Prop :=
  vertexnum g = length (dlist g) ∧ Forall name_ok (names g) ∧ NoDup (names g)
  ∧ Forall (λ v, NoDup (adj v)) (dlist g)
  ∧ all_edges g (λ i j, valid g j ∧ i ≠ j ∧ edge g j i)
  ∧ all_edges g (λ i j, Forall (λ k, i = k ∨ edge g i k) (adjl g j)).

#[global] Instance wf_check_dec g : Decision (wf_check g).
Proof. unfold wf_check, all_edges. apply _. Defined.

Lemma wf_check_sound g : wf_check g → wf g ∧ cliques g.
Proof.
  intros (Hn & Ho & Hd & Ha & He & Hc). rewrite all_edges_spec in He, Hc.
  split; [split; try done|].
  - intros i. unfold adjl, vget. case_bool_decide; [constructor|].
    destruct (dlist g !! Z.to_nat i) as [v|] eqn:Ev; [|constructor].
    rewrite Forall_lookup in Ha. by eapply Ha.
  - intros i j H. by destruct (He i j H).
  - intros i H. by destruct (He i i H) as (_ & ? & _).
  - intros i j H. by destruct (He i j H) as (_ & _ & ?).
  - intros i j k Hij Hjk Hne. pose proof (Hc i j Hij) as H. rewrite Forall_forall in H.
    by destruct (H k Hjk).
Qed.

(** Three elements, the first two in one class. *)
Definition graph3 : cudGraph :=
  mk_graph (str "u1") 3 2
    [mk_vertex (str "a") [1%Z]; mk_vertex (str "b") [0%Z]; mk_vertex (str "c") []].

Lemma graph3_ok : wf graph3 ∧ cliques graph3.
Proof. apply wf_check_sound. concrete. Qed.

(** ** Properties *)

(** [createLinks] on a graph of cliques succeeds and adds exactly the edges
    that make the neighbourhoods of the two vertices one clique; elements, key
    and well-formedness are kept and the result is a graph of cliques again. *)
Theorem createLinks_merges g i j :
  wf g → cliques g → valid g i → valid g j →
  ∃ g', createLinks g i j = Ret g' ∧ frame g g' ∧ wf g' ∧ cliques g'
    ∧ ∀ x y, edge g' x y ↔ edge g x y ∨ (x ≠ y ∧ near2 g i j x ∧ near2 g i j y).
Proof.
  intros Hwf Hcl Hi Hj. destruct (createLinks_merged g i j Hwf Hcl Hi Hj) as (g' & E & F & W & M).
  exists g'. split_and!; try done; try apply F. by apply (merged_cliques g i j).
Qed.

Lemma createLinks_merges_witness :
  ∃ g', createLinks graph3 0 2 = Ret g' ∧ wf g' ∧ cliques g'.
Proof.
  destruct (createLinks_merges graph3 0 2) as (g' & E & _ & W & C & _);
    [apply graph3_ok|apply graph3_ok|done|done|]. exists g'. split; [exact E|]. by split.
Defined.

(** [removeAdjEdge] removes exactly the edges between the vertex and the
    vertices that are not in the list, in both directions, and nothing else. *)
Theorem removeAdjEdge_detaches g v L :
  wf g → v ∈ names g → Forall nul_free (default [] L) →
  ∃ g', removeAdjEdge g v L = Ret g' ∧ frame g g' ∧ wf g'
    ∧ ∀ x y, edge g' x y ↔ edge g x y ∧ (x = vpos g v → vname g y ∈ default [] L)
        ∧ (y = vpos g v → vname g x ∈ default [] L).
Proof.
  intros Hwf Hv HL. destruct (vpos_in g v Hwf Hv) as [Hi _].
  apply (removeAdjEdge_spec g L (vpos g v) Hwf HL Hi v); [|done].
  pose proof (wf_names g Hwf) as Hn. rewrite Forall_forall in Hn. by apply name_nul_free, Hn.
Qed.

Lemma removeAdjEdge_detaches_witness :
  ∃ g', removeAdjEdge graph3 (str "a") None = Ret g' ∧ wf g' ∧ ¬ edge g' 0 1.
Proof.
  destruct (removeAdjEdge_detaches graph3 (str "a") None) as (g' & E & _ & W & He);
    [apply graph3_ok|concrete|constructor|]. exists g'. split; [exact E|]. split; [exact W|].
  intros (_ & H & _)%He. specialize (H eq_refl). by apply elem_of_nil in H.
Defined.

(** [removeAdjEdge] leaves the counter of edges as it was, also when it removes
    the last edge. *)
Lemma edgenum_stale :
  ∃ g', removeAdjEdge graph3 (str "a") None = Ret g'
    ∧ Forall (λ v, adj v = []) (dlist g') ∧ edgenum g' = edgenum graph3 ∧ edgenum graph3 = 2%Z.
Proof. eexists. split; [vm_compute; reflexivity|]. split_and!; try done. by repeat constructor. Qed.
