(* ===== verification/Sorts.v ===== *)
(** * Sorts: sorting elements by their position in the graph

    [bubbleSort], [insertSort], [partition] and [quickSort] (src/src/ufs.c) sort an
    array of element names by [locateVex].  All three are total on their input,
    permute it and leave it sorted; on distinct keys they agree.

    Arrays are lists with C indices; an access outside the list is a fault. *)
From S2P Require Import Prelude Sds Partition OtStr ClassText TextState OtUfs Graph.

(** [list[i]] and [list[i] = x]. *)
Definition aget {A} (l : list A) (i : Z) : out A :=
  if bool_decide (i < 0)%Z then Fail OutOfBounds
  else match l !! Z.to_nat i with Some x => Ret x | None => Fail OutOfBounds end.

Definition aset {A} (l : list A) (i : Z) (x : A) : out (list A) :=
  if bool_decide (0 ≤ i < Z.of_nat (length l))%Z then Ret (<[Z.to_nat i := x]> l) else Fail OutOfBounds.

(** ** The routines *)

(** The inner loop of [bubbleSort]: [n] comparisons from index [j]. *)
Fixpoint bubble_pass (g : cudGraph) (n : nat) (j : Z) (l : list bytes) : out (list bytes) :=
  match n with
  | 0 => Ret l
  | S n =>
    x ← aget l j; y ← aget l (j + 1);
    a ← locateVex g x; b ← locateVex g y;
    l ← (if bool_decide (a > b)%Z
         then l ← aset l j y; aset l (j + 1) x
         else Ret l);
    bubble_pass g n (j + 1) l
  end.

(** The outer loop: passes of [len-1], [len-2], ..., 1 comparisons. *)
Fixpoint bubble_loop (g : cudGraph) (m : nat) (l : list bytes) : out (list bytes) :=
  match m with
  | 0 => Ret l
  | S m => l ← bubble_pass g (S m) 0 l; bubble_loop g m l
  end.

Definition bubbleSort (g : cudGraph) (l : list bytes) (len : nat) : out (list bytes) :=
  bubble_loop g (len - 1) l.

(** The inner loop of [insertSort]: shift larger elements right, insert [temp]. *)
Fixpoint insert_loop (g : cudGraph) (j : nat) (temp : bytes) (l : list bytes) : out (list bytes) :=
  match j with
  | 0 => aset l 0 temp
  | S j' =>
    y ← aget l (Z.of_nat j');
    a ← locateVex g y; b ← locateVex g temp;
    if bool_decide (a > b)%Z
    then l ← aset l (Z.of_nat j) y; insert_loop g j' temp l
    else aset l (Z.of_nat j) temp
  end.

Definition insertSort (g : cudGraph) (l : list bytes) (len : nat) : out (list bytes) :=
  out_fold (λ l i, temp ← aget l (Z.of_nat i); insert_loop g i temp l) l (seq 1 (len - 1)).

(** The inner loops of [partition]. *)
Fixpoint scan_high (g : cudGraph) (n : nat) (l : list bytes) (temp : bytes) (low high : Z) : out Z :=
  if bool_decide (low < high)%Z then
    x ← aget l high; a ← locateVex g x; b ← locateVex g temp;
    if bool_decide (a >= b)%Z then
      match n with 0 => Fail OutOfFuel | S n => scan_high g n l temp low (high - 1) end
    else Ret high
  else Ret high.

Fixpoint scan_low (g : cudGraph) (n : nat) (l : list bytes) (temp : bytes) (low high : Z) : out Z :=
  if bool_decide (low < high)%Z then
    x ← aget l low; a ← locateVex g x; b ← locateVex g temp;
    if bool_decide (a <= b)%Z then
      match n with 0 => Fail OutOfFuel | S n => scan_low g n l temp (low + 1) high end
    else Ret low
  else Ret low.

Fixpoint partition_loop (g : cudGraph) (n : nat) (l : list bytes) (temp : bytes) (low high : Z)
    : out (list bytes * Z) :=
  if bool_decide (low < high)%Z then
    match n with
    | 0 => Fail OutOfFuel
    | S n =>
      high ← scan_high g (length l) l temp low high;
      x ← aget l high; l ← aset l low x;
      low ← scan_low g (length l) l temp low high;
      x ← aget l low; l ← aset l high x;
      partition_loop g n l temp low high
    end
  else
    l ← aset l low temp; Ret (l, low).

Definition partition (g : cudGraph) (l : list bytes) (low high : Z) : out (list bytes * Z) :=
  temp ← aget l low;
  partition_loop g (S (length l)) l temp low high.

Fixpoint quick_loop (g : cudGraph) (n : nat) (l : list bytes) (low high : Z) : out (list bytes) :=
  if bool_decide (low >= high)%Z then Ret l
  else
    match n with
    | 0 => Fail OutOfFuel
    | S n =>
      '(l, pivotloc) ← partition g l low high;
      l ← quick_loop g n l low (pivotloc - 1);
      quick_loop g n l (pivotloc + 1) high
    end.

(** The recursion depth is at most the length of the array. *)
Definition quickSort (g : cudGraph) (l : list bytes) (low high : Z) : out (list bytes) :=
  quick_loop g (length l) l low high.

(** ** Array accesses at a known position *)

Lemma aget_at {A} (w : list A) x z i : i = Z.of_nat (length w) → aget (w ++ x :: z) i = Ret x.
Proof.
  intros ->. unfold aget. rewrite bool_decide_eq_false_2 by lia.
  rewrite Nat2Z.id, lookup_app_r, Nat.sub_diag by lia. done.
Qed.

Lemma aset_at {A} (w : list A) x z i y :
  i = Z.of_nat (length w) → aset (w ++ x :: z) i y = Ret (w ++ y :: z).
Proof.
  intros ->. unfold aset. rewrite bool_decide_eq_true_2 by (rewrite length_app; simpl; lia).
  rewrite Nat2Z.id, insert_app_r_alt, Nat.sub_diag by lia. done.
Qed.

Section sorting.
Context (g : cudGraph) (Hwf : wf g).
Implicit Types (l m w z : list bytes).

(** The sort key. *)
Definition pos_le (x y : bytes) : Prop := (vpos g x ≤ vpos g y)%Z.

#[global] Instance pos_le_dec x y : Decision (pos_le x y).
Proof. unfold pos_le. apply _. Defined.

Definition sorted l : Prop := StronglySorted pos_le l.

(** What every sorting routine achieves. *)
Definition sorts (l : list bytes) (r : out (list bytes)) : Prop :=
  ∃ l', r = Ret l' ∧ l' ≡ₚ l ∧ sorted l'.

Lemma locate x l : Forall nul_free l → x ∈ l → locateVex g x = Ret (vpos g x).
Proof. intros Hl Hx. rewrite Forall_forall in Hl. by apply locateVex_spec, Hl. Qed.

Lemma sorted_app l1 l2 :
  sorted l1 → sorted l2 → (∀ x y, x ∈ l1 → y ∈ l2 → pos_le x y) → sorted (l1 ++ l2).
Proof.
  intros H1 H2 H. induction H1 as [|x l1 H1 IH Hx]; simpl; [done|]. constructor.
  - apply IH. intros; apply H; set_solver.
  - apply Forall_app. split; [done|]. apply Forall_forall. intros; apply H; set_solver.
Qed.

(** *** bubbleSort *)

(** A pass as a function on lists: [x] bubbles through [m]. *)
Fixpoint bubble (x : bytes) (m : list bytes) : list bytes :=
  match m with
  | [] => [x]
  | y :: m => if bool_decide (vpos g x > vpos g y)%Z then y :: bubble x m else x :: bubble y m
  end.

Lemma bubble_perm x m : bubble x m ≡ₚ x :: m.
Proof.
  revert x. induction m as [|y m IH]; intros x; simpl; [done|].
  case_bool_decide; rewrite IH; [apply Permutation_swap|done].
Qed.

Lemma bubble_last x m : ∃ m' y, bubble x m = m' ++ [y] ∧ Forall (λ a, pos_le a y) m'.
Proof.
  revert x. induction m as [|y m IH]; intros x; simpl; [exists [], x; by split|].
  assert (∀ a b, pos_le a b → ∃ m' t, bubble b m = m' ++ [t] ∧ Forall (λ c, pos_le c t) (a :: m')) as H.
  { intros a b Hab. destruct (IH b) as (m' & t & E & Hz). exists m', t. split; [done|].
    constructor; [|done]. assert (b ∈ m' ++ [t]) as [Hb|Hb]%elem_of_app.
    { rewrite <-E, bubble_perm. set_solver. }
    - rewrite Forall_forall in Hz. pose proof (Hz b Hb). unfold pos_le in *. lia.
    - apply list_elem_of_singleton in Hb as <-. done. }
  case_bool_decide.
  - destruct (H y x) as (m' & t & -> & Hz); [unfold pos_le; lia|]. by exists (y :: m'), t.
  - destruct (H x y) as (m' & t & -> & Hz); [unfold pos_le; lia|]. by exists (x :: m'), t.
Qed.

Lemma bubble_pass_spec w x m z n :
  Forall nul_free (x :: m) → n = length m →
  bubble_pass g n (Z.of_nat (length w)) (w ++ x :: m ++ z) = Ret (w ++ bubble x m ++ z).
Proof.
  intros Hnf ->. revert w x Hnf. induction m as [|y m IH]; intros w x Hnf; simpl; [done|].
  rewrite (aget_at w x (y :: m ++ z) (Z.of_nat (length w))) by done. bind_red.
  assert (w ++ x :: y :: m ++ z = (w ++ [x]) ++ y :: m ++ z) as E by (by rewrite <-app_assoc).
  assert (aget (w ++ x :: y :: m ++ z) (Z.of_nat (length w) + 1) = Ret y) as ->.
  { rewrite E. apply aget_at. rewrite length_app. simpl. lia. }
  bind_red.
  rewrite !(locate _ _ Hnf) by set_solver. bind_red.
  rewrite !Forall_cons in Hnf. destruct Hnf as (Hx & Hy & Hm).
  replace (Z.of_nat (length w) + 1)%Z with (Z.of_nat (length (w ++ [y]))) by (rewrite length_app; simpl; lia).
  case_bool_decide.
  - rewrite aset_at by done. bind_red.
    replace (w ++ y :: y :: m ++ z) with ((w ++ [y]) ++ y :: m ++ z) by (by rewrite <-app_assoc).
    rewrite aset_at by done. bind_red.
    rewrite IH by (by repeat constructor). by rewrite <-app_assoc.
  - bind_red. replace (length (w ++ [y])) with (length (w ++ [x])) by (by rewrite !length_app).
    rewrite E, IH by (by repeat constructor). by rewrite <-app_assoc.
Qed.

Lemma bubble_loop_spec (m : nat) (pre suf : list bytes) :
  length pre = S m → Forall nul_free pre → sorted suf →
  (∀ x y, x ∈ pre → y ∈ suf → pos_le x y) →
  sorts (pre ++ suf) (bubble_loop g m (pre ++ suf)).
Proof.
  revert pre suf. induction m as [|m IH]; intros pre suf Hlen Hnf Hsuf Hle.
  - destruct pre as [|x [|??]]; try done. exists ([x] ++ suf). split_and!; try done.
    apply sorted_app; try done. repeat constructor.
  - destruct pre as [|x pre]; [done|]. cbn [bubble_loop].
    pose proof (bubble_pass_spec [] x pre suf (S m) Hnf) as E.
    change (Z.of_nat (length [])) with 0%Z in E. change ([] ++ ?r) with r in E.
    change ((x :: pre) ++ suf) with (x :: pre ++ suf). rewrite E by (simpl in Hlen; lia). bind_red.
    destruct (bubble_last x pre) as (pre' & y & Eb & Hy).
    pose proof (bubble_perm x pre) as Hp. rewrite Eb in Hp |- *.
    assert (∀ a, a ∈ pre' ++ [y] → a ∈ x :: pre) as Hin by (intros a; by rewrite Hp).
    rewrite <-app_assoc. destruct (IH pre' ([y] ++ suf)) as (l' & El & Hl' & Hs).
    + apply Permutation_length in Hp. rewrite length_app in Hp. simpl in *. lia.
    + rewrite <-Hp in Hnf. by apply Forall_app in Hnf as [? _].
    + apply sorted_app; [repeat constructor|done|]. intros a b ->%list_elem_of_singleton Hb.
      apply Hle; [|done]. apply Hin. set_solver.
    + intros a b Ha [->%list_elem_of_singleton|Hb]%elem_of_app.
      * rewrite Forall_forall in Hy. by apply Hy.
      * apply Hle; [|done]. apply Hin. set_solver.
    + exists l'. split_and!; try done. rewrite Hl', app_assoc. by rewrite Hp.
Qed.

Lemma bubbleSort_sorts l : Forall nul_free l → sorts l (bubbleSort g l (length l)).
Proof.
  intros Hl. unfold bubbleSort. destruct l as [|x l].
  { exists []. split_and!; try done. constructor. }
  pose proof (bubble_loop_spec (length (x :: l) - 1) (x :: l) []) as H.
  rewrite app_nil_r in H. apply H; try done; [simpl; lia|constructor|set_solver].
Qed.

(** *** insertSort *)

Lemma insert_loop_spec s x t z :
  Forall nul_free s → nul_free t → sorted s →
  ∃ s', insert_loop g (length s) t (s ++ x :: z) = Ret (s' ++ z) ∧ s' ≡ₚ t :: s ∧ sorted s'
    ∧ length s' = S (length s).
Proof.
  intros Hnf Ht. revert x z. induction s as [|y s IH] using rev_ind; intros x z Hs.
  { exists [t]. split_and!; try done. repeat constructor. }
  apply Forall_app in Hnf as [Hnf [Hy _]%Forall_cons].
  assert (sorted s ∧ ∀ a, a ∈ s → pos_le a y) as [Hs' Hle].
  { apply StronglySorted_app in Hs as (H1 & H2 & _). split; [done|]. intros a Ha. apply H1; set_solver. }
  rewrite length_app, Nat.add_1_r. cbn [insert_loop].
  rewrite <-app_assoc. cbn [app]. rewrite (aget_at s y (x :: z)) by done. bind_red.
  rewrite (locateVex_spec g y Hwf Hy), (locateVex_spec g t Hwf Ht). bind_red.
  assert (s ++ y :: x :: z = (s ++ [y]) ++ x :: z) as -> by (by rewrite <-app_assoc).
  destruct (decide (vpos g y > vpos g t)%Z) as [Hgt|Hgt].
  - rewrite bool_decide_eq_true_2 by done. rewrite aset_at by (rewrite length_app; simpl; lia). bind_red. rewrite <-app_assoc. cbn [app].
    destruct (IH Hnf y (y :: z) Hs') as (s' & E & Hp & Hss & Hl). rewrite E.
    exists (s' ++ [y]). split_and!.
    + by rewrite <-app_assoc.
    + by rewrite Hp.
    + apply sorted_app; [done|repeat constructor|]. intros a b Ha ->%list_elem_of_singleton.
      rewrite Hp in Ha. apply elem_of_cons in Ha as [->|Ha]; [unfold pos_le; lia|by apply Hle].
    + rewrite length_app. simpl. lia.
  - rewrite bool_decide_eq_false_2 by done. rewrite aset_at by (rewrite length_app; simpl; lia).
    exists ((s ++ [y]) ++ [t]). split_and!.
    + by rewrite <-!app_assoc.
    + rewrite (Permutation_app_comm _ [t]). done.
    + apply sorted_app; [done|repeat constructor|]. intros a b Ha ->%list_elem_of_singleton.
      apply elem_of_app in Ha as [Ha| ->%list_elem_of_singleton]; [|unfold pos_le; lia].
      pose proof (Hle a Ha). unfold pos_le in *. lia.
    + rewrite !length_app. simpl. lia.
Qed.

Lemma insertSort_sorts l : Forall nul_free l → sorts l (insertSort g l (length l)).
Proof.
  intros Hl. unfold insertSort. destruct l as [|x0 l].
  { exists []. split_and!; try done. constructor. }
  set (L := x0 :: l) in *.
  eapply returns_mono; [apply returns_fold with (I := λ seen l', ∃ s z, l' = s ++ z
    ∧ length s = 1 + length seen
    ∧ z = drop (1 + length seen) L ∧ s ≡ₚ take (1 + length seen) L ∧ sorted s)|].
  3:{ intros l' (s & z & -> & _ & -> & Hp & Hs).
      replace (1 + length (seq 1 (length L - 1))) with (length L) in *
        by (rewrite length_seq; subst L; simpl; lia).
      rewrite drop_all, app_nil_r. by rewrite firstn_all in Hp. }
  { exists [x0], l. split_and!; try done. repeat constructor. }
  intros seen i rest l' Eq (s & z & -> & Hlen & -> & Hp & Hs).
  assert (i = length s ∧ length s < length L) as [-> Hlt].
  { rewrite Hlen. assert (seq 1 (length L - 1) !! length seen = Some i) as Hi.
    { rewrite Eq, lookup_app_r, Nat.sub_diag by lia. done. }
    apply lookup_seq in Hi. lia. }
  rewrite <-Hlen in *. destruct (lookup_lt_is_Some_2 L (length s) Hlt) as [t Ht].
  rewrite (drop_S L t (length s) Ht). rewrite aget_at by done. bind_red.
  assert (Forall nul_free s) as Hnf by (rewrite Hp; by apply Forall_take).
  assert (nul_free t) as Hnt by (rewrite Forall_forall in Hl; by eapply Hl, list_elem_of_lookup_2).
  destruct (insert_loop_spec s t t (drop (S (length s)) L) Hnf Hnt Hs) as (s' & -> & Hp' & Hss & Hl').
  eexists. split; [done|]. exists s', (drop (S (length s)) L).
  replace (1 + length (seen ++ [length s])) with (S (length s)) by (rewrite length_app; simpl; lia).
  split_and!; try done.
  rewrite (take_S_r L (length s) t Ht), <-Hp, Hp'. by rewrite (Permutation_app_comm s [t]).
Qed.

(** *** quickSort *)

(** The scan from the right stops at an element smaller than the pivot, or at
    the hole. *)
Lemma scan_high_spec w h mid z t n :
  nul_free t → Forall nul_free mid → length mid ≤ n →
  (Forall (pos_le t) mid ∧
     scan_high g n (w ++ h :: mid ++ z) t (Z.of_nat (length w)) (Z.of_nat (length w + length mid))
       = Ret (Z.of_nat (length w))) ∨
  (∃ mid1 x mid2, mid = mid1 ++ x :: mid2 ∧ ¬ pos_le t x ∧ Forall (pos_le t) mid2 ∧
     scan_high g n (w ++ h :: mid ++ z) t (Z.of_nat (length w)) (Z.of_nat (length w + length mid))
       = Ret (Z.of_nat (length w + S (length mid1)))).
Proof.
  intros Ht. revert z n. induction mid as [|y mid IH] using rev_ind; intros z n Hnf Hn.
  { left. split; [done|]. rewrite Nat.add_0_r.
    destruct n; cbn [scan_high]; by rewrite bool_decide_eq_false_2 by lia. }
  apply Forall_app in Hnf as [Hnf [Hy _]%Forall_cons].
  rewrite length_app in Hn |- *. simpl length in Hn |- *. destruct n as [|n]; [lia|].
  cbn [scan_high]. rewrite bool_decide_eq_true_2 by lia.
  assert (w ++ h :: (mid ++ [y]) ++ z = (w ++ h :: mid) ++ y :: z) as E.
  { rewrite <-!app_assoc. done. }
  assert (aget (w ++ h :: (mid ++ [y]) ++ z) (Z.of_nat (length w + (length mid + 1))) = Ret y) as ->.
  { rewrite E. apply aget_at. rewrite length_app. simpl. lia. }
  bind_red. rewrite (locateVex_spec g y Hwf Hy), (locateVex_spec g t Hwf Ht). bind_red.
  destruct (decide (pos_le t y)) as [Hle|Hgt].
  - rewrite bool_decide_eq_true_2 by (unfold pos_le in Hle; lia).
    replace (Z.of_nat (length w + (length mid + 1)) - 1)%Z with (Z.of_nat (length w + length mid)) by lia.
    assert (w ++ h :: (mid ++ [y]) ++ z = w ++ h :: mid ++ y :: z) as -> by (by rewrite <-app_assoc).
    destruct (IH (y :: z) n Hnf) as [[Ha ->]|(m1 & x & m2 & -> & Hx & Hm2 & ->)]; [lia|left|right].
    + split; [|done]. apply Forall_app. split; [done|by constructor].
    + exists m1, x, (m2 ++ [y]). split_and!; try done; [by rewrite <-app_assoc|].
      apply Forall_app. split; [done|by constructor].
  - rewrite bool_decide_eq_false_2 by (unfold pos_le in Hgt; lia). right.
    exists mid, y, []. split_and!; try done. f_equal. lia.
Qed.

(** The scan from the left stops at an element larger than the pivot, or at the
    hole. *)
Lemma scan_low_spec w mid h z t n :
  nul_free t → Forall nul_free mid → length mid ≤ n →
  (Forall (λ x, pos_le x t) mid ∧
     scan_low g n (w ++ mid ++ h :: z) t (Z.of_nat (length w)) (Z.of_nat (length w + length mid))
       = Ret (Z.of_nat (length w + length mid))) ∨
  (∃ mid1 x mid2, mid = mid1 ++ x :: mid2 ∧ Forall (λ x, pos_le x t) mid1 ∧ ¬ pos_le x t ∧
     scan_low g n (w ++ mid ++ h :: z) t (Z.of_nat (length w)) (Z.of_nat (length w + length mid))
       = Ret (Z.of_nat (length w + length mid1))).
Proof.
  intros Ht. revert w n. induction mid as [|y mid IH]; intros w n Hnf Hn.
  { left. split; [done|]. rewrite Nat.add_0_r.
    destruct n; cbn [scan_low]; by rewrite bool_decide_eq_false_2 by lia. }
  apply Forall_cons in Hnf as [Hy Hnf]. simpl length in Hn |- *. destruct n as [|n]; [lia|].
  cbn [scan_low]. rewrite bool_decide_eq_true_2 by lia.
  change ((y :: mid) ++ h :: z) with (y :: mid ++ h :: z).
  rewrite (aget_at w y (mid ++ h :: z)) by done. bind_red.
  rewrite (locateVex_spec g y Hwf Hy), (locateVex_spec g t Hwf Ht). bind_red.
  destruct (decide (pos_le y t)) as [Hle|Hgt].
  - rewrite bool_decide_eq_true_2 by (unfold pos_le in Hle; lia).
    specialize (IH (w ++ [y]) n Hnf). rewrite <-app_assoc, length_app in IH. simpl in IH.
    replace (Z.of_nat (length w) + 1)%Z with (Z.of_nat (length w + 1)) by lia.
    replace (length w + S (length mid)) with (length w + 1 + length mid) by lia.
    destruct IH as [[Ha ->]|(m1 & x & m2 & -> & Hm1 & Hx & ->)]; [lia|left|right].
    + split; [by constructor|done].
    + exists (y :: m1), x, m2. split_and!; try done; [by constructor|]. f_equal. simpl. lia.
  - rewrite bool_decide_eq_false_2 by (unfold pos_le in Hgt; lia). right.
    exists [], y, mid. split_and!; try done. by rewrite Nat.add_0_r.
Qed.

(** What partitioning a segment [m] achieves. *)
Definition partitioned (a m b : list bytes) (r : out (list bytes * Z)) : Prop :=
  ∃ m1 t m2, r = Ret (a ++ (m1 ++ t :: m2) ++ b, Z.of_nat (length a + length m1))
    ∧ m1 ++ t :: m2 ≡ₚ m ∧ Forall (λ x, pos_le x t) m1 ∧ Forall (pos_le t) m2.

Lemma partition_end n a m1 h t m2 b :
  partition_loop g n (a ++ m1 ++ h :: m2 ++ b) t (Z.of_nat (length a + length m1))
    (Z.of_nat (length a + length m1)) =
  Ret (a ++ (m1 ++ t :: m2) ++ b, Z.of_nat (length a + length m1)).
Proof.
  assert (aset (a ++ m1 ++ h :: m2 ++ b) (Z.of_nat (length a + length m1)) t =
    Ret (a ++ (m1 ++ t :: m2) ++ b)) as E.
  { rewrite (app_assoc a m1). rewrite aset_at by (rewrite length_app; lia).
    by rewrite <-!app_assoc. }
  destruct n; cbn [partition_loop]; rewrite bool_decide_eq_false_2 by lia; by rewrite E.
Qed.

(** The loop at the hole between [w] and [mid]. *)
Definition ploop (n : nat) (t : bytes) (w mid z : list bytes) (h : bytes) : out (list bytes * Z) :=
  partition_loop g n (w ++ h :: mid ++ z) t (Z.of_nat (length w)) (Z.of_nat (length w + length mid)).

(** After the scan from the right has stopped at [x]. *)
Lemma partition_found n w h p x r z t :
  nul_free t → nul_free x → Forall nul_free p →
  ¬ pos_le t x →
  scan_high g (length (w ++ h :: (p ++ x :: r) ++ z)) (w ++ h :: (p ++ x :: r) ++ z) t (Z.of_nat (length w))
    (Z.of_nat (length w + length (p ++ x :: r))) = Ret (Z.of_nat (length w + S (length p))) →
  (Forall (λ y, pos_le y t) (x :: p) ∧ ploop (S n) t w (p ++ x :: r) z h = ploop n t (w ++ x :: p) [] (r ++ z) x)
  ∨ (∃ q y q', x :: p = q ++ y :: q' ∧ q ≠ [] ∧ Forall (λ y, pos_le y t) q ∧ ¬ pos_le y t
      ∧ ploop (S n) t w (p ++ x :: r) z h = ploop n t (w ++ q) (q' ++ [y]) (r ++ z) y).
Proof.
  intros Ht Hnx Hnp Hx Escan. unfold ploop. cbn [partition_loop]. rewrite bool_decide_eq_true_2 by (rewrite length_app; simpl; lia).
  rewrite Escan. bind_red. set (hi := Z.of_nat (length w + S (length p))).
  assert (w ++ h :: (p ++ x :: r) ++ z = (w ++ h :: p) ++ x :: r ++ z) as -> by (by rewrite <-!app_assoc).
  rewrite (aget_at (w ++ h :: p) x (r ++ z) hi) by (unfold hi; by rewrite length_app). bind_red.
  replace ((w ++ h :: p) ++ x :: r ++ z) with (w ++ h :: p ++ x :: r ++ z) by (by rewrite <-app_assoc).
  rewrite (aset_at w h _ _ x eq_refl). bind_red.
  destruct (scan_low_spec w (x :: p) x (r ++ z) t (length (w ++ x :: p ++ x :: r ++ z)) Ht) as
    [[Hall El]|(q & y & q' & Eq & Hq & Hy & El)];
    [by constructor|rewrite !length_app; simpl; rewrite !length_app; simpl; lia|..];
    change ((x :: p) ++ x :: r ++ z) with (x :: p ++ x :: r ++ z) in El; simpl length in El; fold hi in El;
    rewrite El; bind_red; clear El.
  - left. split; [done|]. assert (hi = Z.of_nat (length (w ++ x :: p))) as Hhi by (unfold hi; by rewrite length_app).
    replace (w ++ x :: p ++ x :: r ++ z) with ((w ++ x :: p) ++ x :: r ++ z) by (by rewrite <-app_assoc).
    rewrite (aget_at _ x (r ++ z) hi Hhi). bind_red. rewrite (aset_at _ x (r ++ z) hi x Hhi). bind_red.
    simpl length. by rewrite Nat.add_0_r, Hhi.
  - right. exists q, y, q'. pose proof (f_equal length Eq) as Hlen. rewrite length_app in Hlen. simpl in Hlen.
    split_and!; [done| |done|done|].
    { intros ->. simpl in Eq. injection Eq as -> _. unfold pos_le in *. lia. }
    assert (w ++ x :: p ++ x :: r ++ z = (w ++ q) ++ y :: q' ++ x :: r ++ z) as ->.
    { change (x :: p ++ x :: r ++ z) with ((x :: p) ++ x :: r ++ z). rewrite Eq. by rewrite <-!app_assoc. }
    rewrite (aget_at (w ++ q) y) by (by rewrite length_app). bind_red.
    replace ((w ++ q) ++ y :: q' ++ x :: r ++ z) with (((w ++ q) ++ y :: q') ++ x :: r ++ z) by (by rewrite <-!app_assoc).
    rewrite (aset_at _ x (r ++ z) hi y) by (unfold hi; rewrite !length_app; simpl; lia). bind_red.
    f_equal; [by rewrite <-!app_assoc|by rewrite length_app|]. unfold hi. rewrite !length_app. simpl. lia.
Qed.

(** One pass of the loop: everything right of the hole is in place; or an element was
    moved from the right, and everything left of it is in place; or two were moved. *)
Lemma partition_pass n w h mid z t :
  mid ≠ [] → nul_free t → Forall nul_free mid →
  (Forall (pos_le t) mid ∧ ploop (S n) t w mid z h = ploop n t w [] (mid ++ z) h)
  ∨ (∃ p x r, mid = p ++ x :: r ∧ Forall (pos_le t) r
      ∧ ((Forall (λ y, pos_le y t) (x :: p) ∧ ploop (S n) t w mid z h = ploop n t (w ++ x :: p) [] (r ++ z) x)
         ∨ (∃ q y q', x :: p = q ++ y :: q' ∧ q ≠ [] ∧ Forall (λ y, pos_le y t) q ∧ ¬ pos_le y t
             ∧ ploop (S n) t w mid z h = ploop n t (w ++ q) (q' ++ [y]) (r ++ z) y))).
Proof.
  intros Hne Ht Hnf.
  destruct (scan_high_spec w h mid z t (length (w ++ h :: mid ++ z)) Ht Hnf)
    as [[Hall E]|(p & x & r & -> & Hx & Hr & E)]; [rewrite !length_app; simpl; rewrite !length_app; lia|left|right].
  - split; [done|]. unfold ploop. cbn [partition_loop]. assert (0 < length mid) by (destruct mid; [done|simpl; lia]).
    rewrite bool_decide_eq_true_2 by lia. rewrite E. bind_red.
    rewrite (aget_at w h _ _ eq_refl). bind_red. rewrite (aset_at w h _ _ h eq_refl). bind_red.
    assert (∀ n' l', scan_low g n' l' t (Z.of_nat (length w)) (Z.of_nat (length w)) = Ret (Z.of_nat (length w))) as ->.
    { intros [|n'] l'; cbn [scan_low]; by rewrite bool_decide_eq_false_2 by lia. }
    bind_red. rewrite (aget_at w h _ _ eq_refl). bind_red. rewrite (aset_at w h _ _ h eq_refl). bind_red.
    simpl. by rewrite Nat.add_0_r.
  - apply Forall_app in Hnf as [Hnp [Hnx _]%Forall_cons]. exists p, x, r. split; [done|]. split; [done|].
    by apply partition_found.
Qed.

Lemma ploop_end n a m1 t m2 b m h :
  m1 ++ t :: m2 ≡ₚ m → Forall (λ x, pos_le x t) m1 → Forall (pos_le t) m2 →
  partitioned a m b (ploop n t (a ++ m1) [] (m2 ++ b) h).
Proof.
  intros Hp H1 H2. exists m1, t, m2. split; [|done]. unfold ploop. simpl. rewrite Nat.add_0_r, length_app, <-app_assoc.
  exact (partition_end n a m1 h t m2 b).
Qed.

Lemma partition_loop_spec n a m1 h mid m2 b t m :
  length mid < n → nul_free t → Forall nul_free mid →
  m1 ++ t :: mid ++ m2 ≡ₚ m → Forall (λ x, pos_le x t) m1 → Forall (pos_le t) m2 →
  partitioned a m b (ploop n t (a ++ m1) mid (m2 ++ b) h).
Proof.
  intros Hn Ht. revert m1 h mid m2 Hn. induction n as [|n IH]; intros m1 h mid m2 Hn Hnf Hp H1 H2; [lia|].
  destruct (decide (mid = [])) as [->|Hne]; [by apply ploop_end|].
  destruct (partition_pass n (a ++ m1) h mid (m2 ++ b) t Hne Ht Hnf)
    as [[Hall ->]|(p & x & r & -> & Hr & [[Hall ->]|(q & y & q' & Eq & Hq0 & Hq & Hy & ->)])]; rewrite ?(app_assoc _ m2 b), <-?(app_assoc a m1).
  - apply ploop_end; [done|done|by apply Forall_app].
  - apply ploop_end; [|by apply Forall_app|by apply Forall_app].
    rewrite <-Hp. rewrite <-!app_assoc. apply Permutation_app_head. simpl.
    rewrite <-(Permutation_middle p (r ++ m2) t), <-(Permutation_middle p (r ++ m2) x). apply Permutation_swap.
  - apply Forall_app in Hnf as [Hnp [Hnx _]%Forall_cons].
    assert (Forall nul_free (q ++ y :: q')) as Hnq by (rewrite <-Eq; by constructor).
    apply Forall_app in Hnq as [_ [Hny Hnq']%Forall_cons]. pose proof (f_equal length Eq) as Hlen.
    assert (0 < length q) by (destruct q; [done|simpl; lia]).
    apply IH; [rewrite !length_app in *; simpl in *; lia|apply Forall_app; by repeat constructor| |by apply Forall_app|by apply Forall_app].
    rewrite <-Hp. rewrite <-!app_assoc. apply Permutation_app_head.
    change (t :: p ++ (x :: r) ++ m2) with (t :: p ++ x :: r ++ m2).
    rewrite <-(Permutation_middle p), <-(Permutation_middle q). constructor.
    change (x :: p ++ r ++ m2) with ((x :: p) ++ r ++ m2). rewrite Eq.
    rewrite <-!app_assoc. apply Permutation_app_head. simpl. by rewrite <-Permutation_middle.
Qed.

Lemma partition_spec a x m b :
  Forall nul_free (x :: m) →
  partitioned a (x :: m) b (partition g (a ++ (x :: m) ++ b) (Z.of_nat (length a))
    (Z.of_nat (length a + length m))).
Proof.
  intros [Hx Hm]%Forall_cons. unfold partition. change ((x :: m) ++ b) with (x :: m ++ b).
  rewrite (aget_at a x (m ++ b)) by done. bind_red.
  pose proof (partition_loop_spec (S (length (a ++ x :: m ++ b))) a [] x m [] b x (x :: m)) as H.
  unfold ploop in H. rewrite !app_nil_r in H. apply H; try done. rewrite !length_app. simpl. rewrite length_app. lia.
Qed.

Lemma quick_loop_spec n a m b :
  length m ≤ S n → Forall nul_free m →
  ∃ m', quick_loop g n (a ++ m ++ b) (Z.of_nat (length a)) (Z.of_nat (length a + length m) - 1)
      = Ret (a ++ m' ++ b) ∧ m' ≡ₚ m ∧ sorted m'.
Proof.
  revert a m b. induction n as [|n IH]; intros a m b Hlen Hnf.
  { exists m. cbn [quick_loop]. rewrite bool_decide_eq_true_2 by lia. split_and!; try done.
    destruct m as [|x [|??]]; simpl in Hlen; try lia; repeat constructor. }
  cbn [quick_loop]. destruct m as [|x m].
  { exists []. rewrite bool_decide_eq_true_2 by (simpl; lia). split_and!; try done. constructor. }
  destruct m as [|x' m].
  { exists [x]. rewrite bool_decide_eq_true_2 by (simpl; lia). split_and!; try done. repeat constructor. }
  rewrite bool_decide_eq_false_2 by (simpl; lia).
  replace (Z.of_nat (length a + length (x :: x' :: m)) - 1)%Z
    with (Z.of_nat (length a + length (x' :: m))) by (simpl; lia).
  destruct (partition_spec a x (x' :: m) b Hnf) as (m1 & t & m2 & -> & Hp & H1 & H2). bind_red.
  assert (length m1 + length m2 = length (x' :: m)) as Hl.
  { apply Permutation_length in Hp. rewrite length_app in Hp. simpl in *. lia. }
  assert (Forall nul_free (m1 ++ t :: m2)) as Hnf' by (by rewrite Hp).
  apply Forall_app in Hnf' as [Hn1 [_ Hn2]%Forall_cons].
  destruct (IH a m1 (t :: m2 ++ b)) as (m1' & E1 & P1 & S1); [simpl in *; lia|done|].
  replace (a ++ (m1 ++ t :: m2) ++ b) with (a ++ m1 ++ t :: m2 ++ b) by (by rewrite <-!app_assoc).
  rewrite E1. bind_red.
  destruct (IH (a ++ m1' ++ [t]) m2 b) as (m2' & E2 & P2 & S2); [simpl in *; lia|done|].
  assert (length m1' = length m1) as Hl1 by by rewrite P1.
  replace (a ++ m1' ++ t :: m2 ++ b) with ((a ++ m1' ++ [t]) ++ m2 ++ b) by (by rewrite <-!app_assoc).
  replace (Z.of_nat (length a + length m1) + 1)%Z with (Z.of_nat (length (a ++ m1' ++ [t])))
    by (rewrite !length_app; simpl; lia).
  replace (Z.of_nat (length a + length (x' :: m)))
    with (Z.of_nat (length (a ++ m1' ++ [t]) + length m2) - 1)%Z
    by (rewrite !length_app; simpl in *; lia).
  rewrite E2. exists (m1' ++ t :: m2'). split_and!.
  - by rewrite <-!app_assoc.
  - by rewrite P1, P2.
  - rewrite Forall_forall in H1, H2. apply sorted_app; [done|..].
    + constructor; [done|]. apply Forall_forall. intros y. rewrite P2. apply H2.
    + intros y u Hy Hu. rewrite P1 in Hy. apply elem_of_cons in Hu as [->|Hu]; [by apply H1|].
      rewrite P2 in Hu. pose proof (H1 y Hy). pose proof (H2 u Hu). unfold pos_le in *. lia.
Qed.

Lemma quickSort_sorts l :
  Forall nul_free l → sorts l (quickSort g l 0 (Z.of_nat (length l) - 1)).
Proof.
  intros Hl. destruct (quick_loop_spec (length l) [] l [] ltac:(lia) Hl) as (l' & E & Hp & Hs).
  exists l'. split_and!; try done. unfold quickSort. rewrite !app_nil_r in E. exact E.
Qed.

(** Sorted permutations of lists with distinct keys are equal. *)
Lemma sorted_unique l1 l2 :
  Forall (λ x, x ∈ names g) l1 → l1 ≡ₚ l2 → sorted l1 → sorted l2 → l1 = l2.
Proof.
  intros Hin Hp H1 H2. revert l2 Hp H2. induction H1 as [|x l1 H1 IH Hx]; intros l2 Hp H2.
  { by apply Permutation_nil in Hp. }
  apply Forall_cons in Hin as [Hxn Hin]. destruct H2 as [|y l2 H2 Hy].
  { by apply Permutation_nil_r in Hp. }
  assert (x = y) as ->.
  { assert (y ∈ x :: l1) as Hyx by (rewrite Hp; set_solver).
    assert (x ∈ y :: l2) as Hxy by (rewrite <-Hp; set_solver).
    apply elem_of_cons in Hyx as [->|Hyl]; [done|]. apply elem_of_cons in Hxy as [->|Hxl]; [done|].
    rewrite Forall_forall in Hx, Hy, Hin. pose proof (Hx y Hyl). pose proof (Hy x Hxl).
    assert (vpos g x = vpos g y) as E by (unfold pos_le in *; lia).
    by rewrite <-(vname_vpos g x Hwf Hxn), E, vname_vpos by auto. }
  f_equal. apply IH; [done|by apply Permutation_cons_inv in Hp|done].
Qed.
End sorting.

(** ** Properties *)

(** [bubbleSort], [insertSort] and [quickSort] sort any list of elements of
    the graph by the positions of their vertices, and since the order is total
    on distinct vertices they all return the same list; every recursion and every
    loop ends and no access is out of bounds. *)
Theorem sorts_agree g l :
  wf g → Forall (λ x, x ∈ names g) l →
  ∃ l', l' ≡ₚ l ∧ sorted g l'
    ∧ bubbleSort g l (length l) = Ret l' ∧ insertSort g l (length l) = Ret l'
    ∧ quickSort g l 0 (Z.of_nat (length l) - 1) = Ret l'.
Proof.
  intros Hwf Hl. assert (Forall nul_free l) as Hnf.
  { eapply Forall_impl; [exact Hl|]. intros x Hx. pose proof (wf_names g Hwf) as Hn.
    rewrite Forall_forall in Hn. by apply name_nul_free, Hn. }
  destruct (bubbleSort_sorts g Hwf l Hnf) as (l1 & E1 & P1 & S1).
  destruct (insertSort_sorts g Hwf l Hnf) as (l2 & E2 & P2 & S2).
  destruct (quickSort_sorts g Hwf l Hnf) as (l3 & E3 & P3 & S3).
  assert (∀ l', l' ≡ₚ l → sorted g l' → l' = l1) as Hu.
  { intros l' Hp Hs. apply (sorted_unique g Hwf); try done; [by rewrite Hp|by rewrite Hp]. }
  rewrite (Hu l2) in E2 by done. rewrite (Hu l3) in E3 by done. exists l1. by split_and!.
Qed.

Lemma sorts_agree_witness :
  ∃ l', quickSort graph3 [str "c"; str "a"; str "b"] 0 2 = Ret l' ∧ sorted graph3 l'.
Proof.
  destruct (sorts_agree graph3 [str "c"; str "a"; str "b"]) as (l' & _ & Hs & _ & _ & E);
    [apply graph3_ok|concrete|]. exists l'. split; [exact E|exact Hs].
Defined.
