(* ===== verification/UnionSplit.v ===== *)
(** * UnionSplit: union and split on the graph

    The graph part of [unionProc] and [splitProc] (src/src/ufs.c), and that they
    implement the abstract object: a union merges the classes of its arguments,
    a split takes a group out of its class, and both keep the graph a
    well-formed union of cliques. *)
From S2P Require Import Prelude Sds Partition OtStr ClassText TextState OtUfs Graph.

(** [createLinks(ufs,locateVex(ufs,x),locateVex(ufs,y))] *)
Definition link_names (g : cudGraph) (x y : bytes) : out cudGraph :=
  i ← locateVex g x; j ← locateVex g y; createLinks g i j.

(** [elements[0]] *)
Definition first_of (elements : list bytes) : out bytes :=
  match elements with e :: _ => Ret e | [] => Fail OutOfBounds end.

(** [existEdge(ufs,locateVex(ufs,x),locateVex(ufs,y))] *)
Definition edge_names (g : cudGraph) (x y : bytes) : out bool :=
  i ← locateVex g x; j ← locateVex g y; existEdge g i j.

(** The effect of [unionProc] on the graph. *)
Definition union_graph (g : cudGraph) (argv1 argv2 : bytes) : out cudGraph :=
  if streq argv1 STAR || streq argv2 STAR then Ret g
  else
    match arglen argv1, arglen argv2 with
    | 1, 1 => link_names g argv1 argv2
    | _, 1 =>
      elements ← split1 argv1 (strlen argv1) COMMA;
      e0 ← first_of elements;
      b ← edge_names g e0 argv2;
      if b : bool then Ret g else out_fold (λ g e, link_names g e argv2) g elements
    | 1, _ =>
      elements ← split1 argv2 (strlen argv2) COMMA;
      e0 ← first_of elements;
      b ← edge_names g e0 argv1;
      if b : bool then Ret g else out_fold (λ g e, link_names g e argv1) g elements
    | _, _ =>
      elements1 ← split1 argv1 (strlen argv1) COMMA;
      elements2 ← split1 argv2 (strlen argv2) COMMA;
      e1 ← first_of elements1; e2 ← first_of elements2;
      b ← edge_names g e1 e2;
      if b : bool then Ret g
      else out_fold (λ g e, out_fold (λ g f, link_names g e f) g elements2) g elements1
    end.

(** The effect of [splitProc] on the graph. *)
Definition split_graph (g : cudGraph) (argv1 : bytes) : out cudGraph :=
  if strchr argv1 COMMA then
    elements ← split1 argv1 (strlen argv1) COMMA;
    out_fold (λ g e, removeAdjEdge g e (Some elements)) g elements
  else if streq argv1 STAR then Ret g
  else removeAdjEdge g argv1 None.

(** ** The relation of a graph *)

(** In the same class, by name. *)
Definition rel_g (g : cudGraph) : prel := λ x y,
  x ∈ names g ∧ y ∈ names g ∧ near g (vpos g x) (vpos g y).

(** A replica's graph: well-formed, every class a clique. *)
Definition graph_ok (g : cudGraph) : Prop := wf g ∧ cliques g.

Lemma rel_g_refl g x : x ∈ names g → rel_g g x x.
Proof. intros. split_and!; try done. by left. Qed.

Lemma rel_g_per g : graph_ok g → per (rel_g g).
Proof.
  intros [Hwf Hcl]. split.
  - intros x y (Hx & Hy & [E|He]); split_and!; try done; [by left|right]. by apply wf_sym.
  - intros x y z (Hx & Hy & H1) (_ & Hz & H2). split_and!; try done. by eapply near_trans.
Qed.

(** Later states of the same object. *)
Definition gstep (g g' : cudGraph) (R' : prel) : Prop :=
  frame g g' ∧ graph_ok g' ∧ rel_g g' ≡ R'.

Lemma gstep_trans g1 g2 g3 R2 R3 : gstep g1 g2 R2 → gstep g2 g3 R3 → gstep g1 g3 R3.
Proof. intros (F1 & _ & _) (F2 & H2 & E2). split_and!; try done; try apply H2. by etrans. Qed.

Lemma gstep_proper g g' R R' : R ≡ R' → gstep g g' R → gstep g g' R'.
Proof. intros E (F & H & ER). split_and!; try done; try apply H. by rewrite ER. Qed.

Lemma gstep_refl g : graph_ok g → gstep g g (rel_g g).
Proof. intros H. split_and!; try done; apply H. Qed.

Lemma names_nul_free g x : wf g → x ∈ names g → nul_free x.
Proof.
  intros Hwf Hx. pose proof (wf_names g Hwf) as Hn. rewrite Forall_forall in Hn.
  by apply name_nul_free, Hn.
Qed.

Lemma frame_names g g' : frame g g' → names g' = names g.
Proof. by intros (_ & _ & H). Qed.

Lemma vpos_eq g x y : wf g → x ∈ names g → y ∈ names g → vpos g x = vpos g y → x = y.
Proof. intros Hwf Hx Hy E. by rewrite <-(vname_vpos g x), E, vname_vpos. Qed.

(** *** Linking two names *)

Lemma link_names_spec g a b :
  graph_ok g → a ∈ names g → b ∈ names g →
  returns (link_names g a b) (λ g', gstep g g' (urel (rel_g g) a b)).
Proof.
  intros [Hwf Hcl] Ha Hb. unfold link_names.
  rewrite !locateVex_spec by (done || by eapply names_nul_free). bind_red.
  destruct (vpos_in g a Hwf Ha) as [Va _], (vpos_in g b Hwf Hb) as [Vb _].
  destruct (createLinks_merged g (vpos g a) (vpos g b)) as (g' & -> & F & W & HM); try done.
  exists g'. split; [done|]. split; [done|].
  split; [split; [done|exact (merged_cliques g _ _ Hwf Hcl _ HM)]|].
  pose proof (rel_g_per g (conj Hwf Hcl)) as Hper.
  assert (∀ c z, c ∈ names g → z ∈ names g → near g (vpos g c) (vpos g z) ↔ rel_g g z c) as Hn.
  { intros c z Hc Hz. split; [intros; by apply (per_sym _ Hper)|].
    intros H%(per_sym _ Hper). apply H. }
  intros x y. rewrite urel_alt by done. unfold rel_g at 1.
  rewrite !(vpos_frame g g'), (frame_names g g') by done.
  unfold merged, near2 in HM. unfold near at 1. rewrite HM. split.
  - intros (Hx & Hy & H). rewrite !Hn in H by done. unfold rel_g at 1, near at 1. tauto.
  - intros [(Hx & Hy & [?|?])|[H1 H2]]; [tauto..|].
    assert (x ∈ names g ∧ y ∈ names g) as [Hx Hy] by (unfold rel_g in H1, H2; tauto).
    rewrite !Hn by done. destruct (decide (vpos g y = vpos g x)); [tauto|].
    split_and!; try done. right. right. split; [congruence|tauto].
Qed.

(** *** Linking every pair of two groups *)

Section groups.
Context (g : cudGraph) (a b : bytes).
Context (Hok : graph_ok g).

(** Before the first link nothing changed, after it the classes are merged. *)
Definition linked_state (g' : cudGraph) : Prop :=
  gstep g g' (rel_g g) ∨ gstep g g' (urel (rel_g g) a b).

Lemma urel_shift R e f x y :
  per R → R e a → R f b → urel R e f x y ↔ urel R a b x y.
Proof. intros HR He Hf. rewrite !urel_alt by done. destruct HR as [Hs Ht].
  assert (∀ z, R z e ↔ R z a) as -> by (intros z; split; eauto).
  assert (∀ z, R z f ↔ R z b) as -> by (intros z; split; eauto).
  assert (∀ z, R z e ↔ R z a) as -> by (intros z; split; eauto).
  assert (∀ z, R z f ↔ R z b) as -> by (intros z; split; eauto). done.
Qed.

Lemma link_step g1 e f :
  linked_state g1 → rel_g g e a → rel_g g f b →
  returns (link_names g1 e f) (λ g2, gstep g g2 (urel (rel_g g) a b)).
Proof.
  intros H1 He Hf. pose proof (rel_g_per g Hok) as Hper.
  assert (e ∈ names g ∧ f ∈ names g) as [Hen Hfn] by (by destruct He, Hf).
  assert (frame g g1 ∧ graph_ok g1) as [F1 W1] by (destruct H1 as [(?&?&_)|(?&?&_)]; done).
  assert (e ∈ names g1 ∧ f ∈ names g1) as [Hen1 Hfn1] by by rewrite (frame_names g g1).
  eapply returns_mono; [by apply link_names_spec|]. intros g2 S2.
  assert (urel (rel_g g1) e f ≡ urel (rel_g g) a b) as E.
  2:{ eapply gstep_proper; [exact E|]. destruct S2 as (F2 & W2 & E2).
      split_and!; try apply W2; [by etrans|done]. }
  destruct H1 as [(_ & _ & ->)|(_ & _ & ->)].
  - intros x y. by apply urel_shift.
  - transitivity (urel (urel (rel_g g) a b) a b).
    + intros x y. apply urel_shift; [by apply urel_per|by left..].
    + apply urel_same; [by apply urel_per|]. right. left.
      destruct Hper as [Hs Ht]. split; eauto.
Qed.

Lemma fold_merged {A} (step : cudGraph → A → out cudGraph) g1 es :
  (∀ g1 e, linked_state g1 → e ∈ es →
     returns (step g1 e) (λ g2, gstep g g2 (urel (rel_g g) a b))) →
  linked_state g1 → es ≠ [] →
  returns (out_fold step g1 es) (λ g2, gstep g g2 (urel (rel_g g) a b)).
Proof.
  intros Hstep H1 Hne.
  apply returns_mono with (P := λ g2, linked_state g2 ∧ (es ≠ [] → gstep g g2 (urel (rel_g g) a b)));
    [|naive_solver].
  apply returns_fold with (I := λ seen g2, linked_state g2 ∧
    (seen ≠ [] → gstep g g2 (urel (rel_g g) a b))); [done|].
  intros seen e rest g2 -> [S2 _].
  eapply returns_mono; [apply Hstep; [done|set_solver]|].
  intros g3 S3. split; [by right|done].
Qed.

Lemma link_fold es f :
  (∀ e, e ∈ es → rel_g g e a) → rel_g g f b → es ≠ [] →
  returns (out_fold (λ g e, link_names g e f) g es) (λ g2, gstep g g2 (urel (rel_g g) a b)).
Proof.
  intros Hes Hf Hne. apply fold_merged; [|left; by apply gstep_refl|done].
  intros g1 e H1 He. apply link_step; auto.
Qed.

Lemma link_fold2 es fs :
  (∀ e, e ∈ es → rel_g g e a) → (∀ f, f ∈ fs → rel_g g f b) → es ≠ [] → fs ≠ [] →
  returns (out_fold (λ g e, out_fold (λ g f, link_names g e f) g fs) g es)
    (λ g2, gstep g g2 (urel (rel_g g) a b)).
Proof.
  intros Hes Hfs Hne Hne'. apply fold_merged; [|left; by apply gstep_refl|done].
  intros g1 e H1 He. apply fold_merged; [|done|done].
  intros g2 f H2 Hf. apply link_step; auto.
Qed.
End groups.

(** ** unionProc implements union *)

(** [garg g t grp]: the text [t] is an argument on the graph [g]: "*", or a group
    of elements of one class. *)
Inductive garg (g : cudGraph) : bytes → list bytes → Prop :=
  | garg_star : garg g STAR []
  | garg_group a aa :
      (∀ x, x ∈ a :: aa → rel_g g x a) → garg g (render_class (a :: aa)) (a :: aa).

Lemma rel_names_ok g a l : wf g → (∀ x, x ∈ l → rel_g g x a) → Forall name_ok l.
Proof.
  intros Hwf H. apply Forall_forall. intros x Hx. destruct (H x Hx) as [Hn _].
  pose proof (wf_names g Hwf) as Hnm. rewrite Forall_forall in Hnm. by apply Hnm.
Qed.

Lemma edge_names_spec g x y :
  wf g → x ∈ names g → y ∈ names g →
  edge_names g x y = Ret (bool_decide (edge g (vpos g x) (vpos g y))).
Proof.
  intros Hwf Hx Hy. unfold edge_names.
  rewrite !locateVex_spec by (done || by eapply names_nul_free). bind_red.
  apply existEdge_spec. by apply vpos_in.
Qed.

(** The shortcut taken when the first elements are already joined. *)
Lemma joined_noop g a b :
  graph_ok g → a ∈ names g → b ∈ names g → edge g (vpos g a) (vpos g b) →
  gstep g g (urel (rel_g g) a b).
Proof.
  intros Hok Ha Hb He. eapply gstep_proper; [|by apply gstep_refl].
  symmetry. apply urel_same; [by apply rel_g_per|]. split_and!; try done. by right.
Qed.

Lemma split1_group l :
  class_ok l → split1 (render_class l) (strlen (render_class l)) COMMA = Ret l.
Proof. intros [Hne Hl]. apply split1_join_cstr; [done|by apply names_tokens]. Qed.

Lemma urel_swap R a b : per R → urel R a b ≡ urel R b a.
Proof. intros HR x y. rewrite !urel_alt by done. tauto. Qed.

Lemma union_graph_spec g t1 g1 t2 g2 :
  graph_ok g → garg g t1 g1 → garg g t2 g2 →
  returns (union_graph g t1 t2)
    (λ g', gstep g g' (aapply (AUnion (head g1) (head g2)) (rel_g g))).
Proof.
  intros Hok H1 H2. pose proof Hok as [Hwf Hcl]. pose proof (rel_g_per g Hok) as Hper.
  unfold union_graph.
  destruct H1 as [|a aa Ha]; [apply returns_ret; by apply gstep_refl|].
  assert (class_ok (a :: aa)) as Ca by (split; [done|by eapply rel_names_ok]).
  destruct H2 as [|b bb Hb].
  { rewrite streq_star by done. apply returns_ret. by apply gstep_refl. }
  assert (class_ok (b :: bb)) as Cb by (split; [done|by eapply rel_names_ok]).
  assert (a ∈ names g) as Han by (destruct (Ha a); [set_solver|done]).
  assert (b ∈ names g) as Hbn by (destruct (Hb b); [set_solver|done]).
  rewrite !streq_star, !arglen_render by done. cbn [orb head aapply].
  pose proof (joined_noop g a b Hok Han Hbn) as Hjoin.
  destruct (decide (2 ≤ length (a :: aa))) as [La|La], (decide (2 ≤ length (b :: bb))) as [Lb|Lb].
  - rewrite !bool_decide_eq_true_2 by done. rewrite !split1_group by done. bind_red.
    cbn [first_of]. bind_red. rewrite edge_names_spec by done. bind_red.
    case_bool_decide; [by apply returns_ret, Hjoin|]. by apply link_fold2.
  - rewrite (bool_decide_eq_true_2 (2 ≤ length (a :: aa))) by done.
    rewrite (bool_decide_eq_false_2 (2 ≤ length (b :: bb))) by done.
    destruct bb; [|simpl in *; lia]. change (render_class [b]) with b.
    rewrite !split1_group by done. bind_red. cbn [first_of]. bind_red.
    rewrite edge_names_spec by done. bind_red.
    case_bool_decide; [by apply returns_ret, Hjoin|].
    apply link_fold; [done|done|by apply rel_g_refl|done].
  - rewrite (bool_decide_eq_false_2 (2 ≤ length (a :: aa))) by done.
    rewrite (bool_decide_eq_true_2 (2 ≤ length (b :: bb))) by done.
    destruct aa; [|simpl in *; lia]. change (render_class [a]) with a.
    rewrite !split1_group by done. bind_red. cbn [first_of]. bind_red.
    rewrite edge_names_spec by done. bind_red.
    case_bool_decide as He; [by apply returns_ret, Hjoin, wf_sym|].
    eapply returns_mono; [apply (link_fold g b a); [done|done|by apply rel_g_refl|done]|].
    intros g'. apply gstep_proper. by apply urel_swap.
  - rewrite !bool_decide_eq_false_2 by done.
    destruct aa, bb; simpl in *; try lia. by apply link_names_spec.
Qed.

(** ** splitProc implements split *)

(** The edges left once the elements of [seen] have been detached, those of [L]
    staying together. *)
Definition cut (g : cudGraph) (seen L : list bytes) (g' : cudGraph) : Prop :=
  ∀ x y, edge g' x y ↔ edge g x y ∧
    (vname g x ∈ seen → vname g y ∈ L) ∧ (vname g y ∈ seen → vname g x ∈ L).

(** Splitting off all of [L] leaves the edges inside or outside [L]. *)
Definition split_off (g : cudGraph) (L : list bytes) (g' : cudGraph) : Prop :=
  ∀ x y, edge g' x y ↔ edge g x y ∧ (vname g x ∈ L ↔ vname g y ∈ L).

Lemma split_off_gstep g L g' :
  graph_ok g → frame g g' → wf g' → split_off g L g' → gstep g g' (srel (rel_g g) L).
Proof.
  intros [Hwf Hcl] F W D. unfold split_off in D. split; [done|]. split; [split; [done|]|].
  - intros x y z. rewrite !D. intros (H1 & E1) (H2 & E2) Hne. split; [|tauto].
    by apply (Hcl x y z).
  - intros x y. unfold rel_g, srel, near.
    rewrite !(vpos_frame g g'), (frame_names g g'), D by done. split.
    + intros (Hx & Hy & [E|[He Hiff]]); (split; [split_and!; try done; tauto|]).
      * by rewrite (vpos_eq g y x).
      * by rewrite !vname_vpos in Hiff by done.
    + intros ((Hx & Hy & [E|He]) & Hiff); split_and!; try done; [by left|right].
      by rewrite !vname_vpos.
Qed.

Lemma detach_step g seen L g1 e :
  wf g → frame g g1 → wf g1 → cut g seen L g1 → L ⊆ names g → e ∈ L →
  returns (removeAdjEdge g1 e (Some L)) (λ g2, frame g g2 ∧ wf g2 ∧ cut g (seen ++ [e]) L g2).
Proof.
  intros Hwf F1 W1 C1 HL He.
  assert (∀ x, x ∈ L → x ∈ names g1) as HL1 by (rewrite (frame_names g g1); auto).
  destruct (removeAdjEdge_spec g1 (Some L) (vpos g1 e)) with e as (g2 & -> & F2 & W2 & D);
    try done.
  { apply Forall_forall. intros x Hx. by eapply names_nul_free, HL1. }
  { apply vpos_in; auto. }
  { eapply names_nul_free; [exact W1|]. auto. }
  exists g2. split; [done|]. split_and!; [by etrans|done|].
  unfold cut, detached_from, kept in *. simpl in D.
  assert (∀ x, valid g1 x → x = vpos g1 e ↔ vname g x = e) as Hpos.
  { intros x Hx. rewrite <-(vname_frame g g1) by done. split.
    - intros ->. apply vname_vpos; auto.
    - intros <-. symmetry. by apply vpos_vname. }
  intros x y. rewrite D, C1, !(vname_frame g g1), !elem_of_app, !list_elem_of_singleton by done.
  split.
  - intros ((Ex & A1 & A2) & B1 & B2).
    assert (valid g1 x ∧ valid g1 y) as [Vx Vy].
    { rewrite !(frame_valid g g1) by done. split; [by eapply edge_valid|by eapply wf_range]. }
    rewrite (Hpos x) in B1 by done. rewrite (Hpos y) in B2 by done. tauto.
  - intros (Ex & A1 & A2).
    assert (valid g1 x ∧ valid g1 y) as [Vx Vy].
    { rewrite !(frame_valid g g1) by done. split; [by eapply edge_valid|by eapply wf_range]. }
    rewrite (Hpos x), (Hpos y) by done. tauto.
Qed.

(** Detaching a single element splits it off alone. *)
Lemma detached_alone g s g' :
  wf g → s ∈ names g → detached_from g None (vpos g s) g' → split_off g [s] g'.
Proof.
  intros Hwf Hs D. unfold split_off, detached_from, kept in *. simpl in D.
  assert (∀ z, valid g z → z = vpos g s ↔ vname g z = s) as Hz.
  { intros z Hz. split; [intros ->; by apply vname_vpos|]. intros <-. symmetry. by apply vpos_vname. }
  intros x y. rewrite D, !list_elem_of_singleton.
  assert (∀ P, (P → vname g x ∈ []) ↔ ¬ P) as Hno by set_solver.
  assert (∀ P, (P → vname g y ∈ []) ↔ ¬ P) as Hno' by set_solver.
  rewrite Hno, Hno'.
  destruct (decide (edge g x y)) as [He|He]; [|tauto].
  assert (valid g x ∧ valid g y) as [Vx Vy] by (split; [by eapply edge_valid|by eapply wf_range]).
  assert (vname g x = s → vname g y = s → False) as Hneq.
  { intros E1 E2. apply (wf_irr g Hwf x). by rewrite (vname_inj g x y) at 2 by congruence. }
  rewrite (Hz x), (Hz y) by done. tauto.
Qed.

Lemma split_graph_spec g s ss :
  graph_ok g → (s :: ss) ⊆ names g →
  returns (split_graph g (render_class (s :: ss)))
    (λ g', gstep g g' (srel (rel_g g) (s :: ss))).
Proof.
  intros Hok HL. pose proof Hok as [Hwf Hcl].
  assert (class_ok (s :: ss)) as Cs.
  { split; [done|]. apply Forall_forall. intros x Hx. pose proof (wf_names g Hwf) as Hn.
    rewrite Forall_forall in Hn. by apply Hn, HL. }
  unfold split_graph. unfold render_class at 1. rewrite strchr_join by (by apply names_tokens, Cs).
  destruct ss as [|s' ss].
  - rewrite bool_decide_eq_false_2 by (simpl; lia). rewrite streq_star by done.
    change (render_class [s]) with s.
    assert (s ∈ names g) as Hs by (apply HL; set_solver).
    destruct (removeAdjEdge_spec g None (vpos g s)) with s as (g' & -> & F & W & D);
      try done; [by apply vpos_in|by eapply names_nul_free|].
    apply returns_ret, split_off_gstep; try done. by apply detached_alone.
  - rewrite bool_decide_eq_true_2 by (simpl; lia). rewrite split1_group by done. bind_red.
    eapply returns_mono; [apply returns_fold with (I := λ seen g', frame g g' ∧ wf g'
      ∧ cut g seen (s :: s' :: ss) g')|].
    + split_and!; try done. intros x y. set_solver.
    + intros seen e rest g1 El (F1 & W1 & C1). apply detach_step; try done.
      rewrite El. set_solver.
    + intros g' (F & W & C). by apply split_off_gstep.
Qed.

(** ** Properties *)

Lemma graph3_graph_ok : graph_ok graph3.
Proof. exact graph3_ok. Qed.

(** C11: the execution of a union on the graph ([unionProc]) succeeds for groups
    inside one class and refines the abstract operation: the two classes are
    merged, elements and well-formedness are kept, and "*" changes nothing. *)
Theorem union_graph_refines g t1 g1 t2 g2 :
  graph_ok g → garg g t1 g1 → garg g t2 g2 →
  ∃ g', union_graph g t1 t2 = Ret g' ∧ frame g g' ∧ graph_ok g'
    ∧ rel_g g' ≡ aapply (AUnion (head g1) (head g2)) (rel_g g).
Proof. apply union_graph_spec. Qed.

Lemma union_graph_refines_witness :
  ∃ g', union_graph graph3 (str "a,b") (str "c") = Ret g' ∧ rel_g g' (str "b") (str "c").
Proof.
  destruct (union_graph_refines graph3 (str "a,b") [str "a"; str "b"] (str "c") [str "c"])
    as (g' & E & _ & _ & R).
  - exact graph3_graph_ok.
  - apply (garg_group graph3 (str "a") [str "b"]).
    intros x [-> | ->%list_elem_of_singleton]%elem_of_cons; (split_and!; [concrete|concrete|]).
    + by left.
    + right. concrete.
  - apply (garg_group graph3 (str "c") []). intros x ->%list_elem_of_singleton.
    split_and!; [concrete|concrete|by left].
  - exists g'. split; [exact E|]. apply R. simpl. right. left.
    split; (split_and!; [concrete|concrete|]); [right; concrete|by left].
Defined.

(** C12: the execution of a split on the graph ([splitProc]) succeeds for elements
    of the graph and refines the abstract operation: the group is separated from
    the rest, the rest of each class stays together. *)
Theorem split_graph_refines g s ss :
  graph_ok g → (s :: ss) ⊆ names g →
  ∃ g', split_graph g (render_class (s :: ss)) = Ret g' ∧ frame g g' ∧ graph_ok g'
    ∧ rel_g g' ≡ srel (rel_g g) (s :: ss).
Proof. apply split_graph_spec. Qed.

Lemma split_graph_refines_witness :
  ∃ g', split_graph graph3 (str "a") = Ret g' ∧ graph_ok g'.
Proof.
  destruct (split_graph_refines graph3 (str "a") []) as (g' & E & _ & Ok & _);
    [exact graph3_graph_ok|concrete|]. exists g'. split; [exact E|exact Ok].
Defined.
