(* ===== verification/GraphText.v ===== *)
(** * GraphText: printing a graph as a state text

    [updateVerticeUfs] (src/src/ufs.c) writes the classes of a graph into the
    [content] of a vertex of the state space, [itos] writes the numbers of an
    operation identifier.  The text of a graph with at least two elements is
    the rendering of its classes, and has the same length after every union
    and split. *)
From Stdlib Require Import Ascii.
From S2P Require Import Prelude Sds Partition OtStr ClassText TextState OtUfs Graph UnionSplit.

(** ** The routine *)

(** [for (j = 0; j < i; j++) if (existEdge(ufs,i,j)) ... break;] *)
Fixpoint earlier_edge (n : nat) (g : cudGraph) (i j : Z) : out bool :=
  match n with
  | 0 => Ret false
  | S n => b ← existEdge g i j; if b : bool then Ret true else earlier_edge n g i (j + 1)
  end.

(** Appending the names of the adjacent vertices, a comma between two. *)
Fixpoint cat_adj (g : cudGraph) (l : bytes) (ps : list Z) : out bytes :=
  match ps with
  | [] => Ret l
  | p :: rest =>
    v ← vget g p;
    let l := sdscat l (data v) in
    let l := match rest with [] => l | _ => sdscat l (str ",") end in
    cat_adj g l rest
  end.

(** The loop that rebuilds the list from its elements. *)
Fixpoint cat_list (acc : bytes) (l : list bytes) : bytes :=
  match l with
  | [] => acc
  | e :: rest =>
    let acc := sdscat acc e in
    let acc := match rest with [] => acc | _ => sdscat acc (str ",") end in
    cat_list acc rest
  end.

(** The text of the class of vertex [i]. *)
Definition class_text (g : cudGraph) (i : Z) : out bytes :=
  v ← vget g i;
  let l := sdscat (sdsnew (data v)) (str ",") in
  l ← (if bool_decide (adj v ≠ []) then cat_adj g l (adj v) else Ret (sdstrim l (str ",")));
  elements ← split1 l (length l) COMMA;
  Ret (cat_list (sdsclear l) elements).

(** The locals of the main loop. *)
Record print_state := mk_print { p_skip : nat; p_flag : bool; p_result : bytes }.

(** One iteration; [text] writes one class. *)
Definition print_step (text : cudGraph → Z → out bytes) (g : cudGraph) (st : print_state) (i : nat)
    : out print_state :=
  b ← earlier_edge i g (Z.of_nat i) 0;
  if b : bool then
    Ret (mk_print (S (p_skip st))
      (if bool_decide (i = vertexnum g - 1) then true else p_flag st) (p_result st))
  else
    l ← text g (Z.of_nat i);
    let result := sdscat (p_result st) l in
    let result := if bool_decide (i ≠ vertexnum g - 1) then sdscat result (str "/") else result in
    Ret (mk_print (p_skip st) (p_flag st) result).

(** [if ((skip == ufs->vertexnum - 1) || flag == 1) sdsrange(result,0,sdslen(result)-2);] *)
Definition print_end (g : cudGraph) (st : print_state) : bytes :=
  if bool_decide (Z.of_nat (p_skip st) = Z.of_nat (vertexnum g) - 1)%Z || p_flag st
  then sdsrange (p_result st) 0 (Z.of_nat (length (p_result st)) - 2)
  else p_result st.

(** The new content of the vertex. *)
Definition updateVerticeUfs (g : cudGraph) : out bytes :=
  st ← out_fold (print_step class_text g) (mk_print 0 false sdsempty) (seq 0 (vertexnum g));
  Ret (cstr (print_end g st)).

(** [itos(value,string,radix)]: digits of a positive value; [zm] is indexed by
    [sum%radix], [aa] has a hundred entries. *)
Definition zm : bytes := str "0123456789abcdefghijklmnopqrstuvwxyz".

Fixpoint digits (fuel : nat) (sum radix : Z) (aa : bytes) : out bytes :=
  if bool_decide (sum > 0)%Z then
    match fuel with
    | 0 => Fail BufferOverflow
    | S fuel =>
      d ← match zm !! Z.to_nat (Z.rem sum radix) with Some d => Ret d | None => Fail OutOfBounds end;
      digits fuel (Z.quot sum radix) radix (aa ++ [d])
    end
  else Ret aa.

Definition itos (value radix : Z) : out bytes :=
  aa ← digits 100 value radix [];
  Ret (rev aa).

(** ** Classes of a graph *)

Definition indices (g : cudGraph) : list Z := Z.of_nat <$> seq 0 (vertexnum g).

(** The vertices printed first in their class: those without an earlier one. *)
Definition leads (g : cudGraph) (i : Z) : Prop := Forall (λ j, (i ≤ j)%Z) (adjl g i).

#[global] Instance leads_dec g i : Decision (leads g i).
Proof. unfold leads. apply _. Defined.

Definition iclass (g : cudGraph) (i : Z) : list Z := i :: adjl g i.

Definition classes (g : cudGraph) : list (list bytes) :=
  (λ i, vname g <$> iclass g i) <$> filter (leads g) (indices g).

Section classes.
Context (g : cudGraph) (Hok : graph_ok g).

Lemma iclass_valid i x : valid g i → x ∈ iclass g i → valid g x.
Proof.
  destruct Hok as [Hwf _]. intros Hi [->|Hx]%elem_of_cons; [done|]. by apply (wf_range g Hwf i).
Qed.

Lemma iclass_near i x : x ∈ iclass g i ↔ near g i x.
Proof. unfold iclass, near, edge. by rewrite elem_of_cons. Qed.

Lemma elem_of_indices i : i ∈ indices g ↔ valid g i.
Proof.
  destruct Hok as [Hwf _]. split; [|by apply all_seq].
  pose proof (seq_valid g Hwf) as H. rewrite Forall_forall in H. apply H.
Qed.

Lemma near_swap i x : near g i x → near g x i.
Proof. destruct Hok as [Hwf _]. intros [->|H]; [by left|right; by apply wf_sym]. Qed.

(** Every vertex is in the class of exactly one leader. *)
Lemma leader_exists x : valid g x → ∃ i, valid g i ∧ leads g i ∧ near g i x.
Proof.
  destruct Hok as [Hwf Hcl]. intros Hx.
  assert (∃ n, Z.to_nat x < n) as [n Hn] by (exists (S (Z.to_nat x)); lia).
  revert x Hx Hn. induction n as [|n IH]; intros x Hx Hn; [lia|].
  destruct (decide (leads g x)) as [Hl|Hl]; [exists x; split_and!; try done; by left|].
  unfold leads in Hl. apply not_Forall_Exists, Exists_exists in Hl as (j & Hj & Hlt); [|apply _].
  simpl in Hlt. assert (valid g j) as Vj by (by apply (wf_range g Hwf x)).
  destruct (IH j) as (i & Vi & Li & Ni); [done|unfold valid in *; lia|].
  exists i. split_and!; try done. eapply near_trans; try done. apply near_swap. by right.
Qed.

Lemma leader_unique i j x :
  leads g i → leads g j → near g i x → near g j x → i = j.
Proof.
  destruct Hok as [Hwf Hcl]. unfold leads. rewrite !Forall_forall. intros Li Lj Ni Nj.
  assert (near g i j) as [->|He] by (eapply near_trans; [done|exact Ni|by apply near_swap]);
    [done|].
  pose proof (Li j He). pose proof (Lj i (wf_sym g Hwf _ _ He)). lia.
Qed.

Lemma elem_of_classes c :
  c ∈ classes g ↔ ∃ i, valid g i ∧ leads g i ∧ c = vname g <$> iclass g i.
Proof.
  unfold classes. rewrite list_elem_of_fmap. setoid_rewrite list_elem_of_filter.
  setoid_rewrite elem_of_indices. naive_solver.
Qed.

Lemma elem_of_class i x :
  valid g i → x ∈ vname g <$> iclass g i ↔ x ∈ names g ∧ near g i (vpos g x).
Proof.
  destruct Hok as [Hwf _]. intros Hi. rewrite list_elem_of_fmap. split.
  - intros (k & -> & Hk). pose proof (iclass_valid i k Hi Hk).
    rewrite vpos_vname by done. split; [by apply vname_in|by apply iclass_near].
  - intros [Hx Hn]. exists (vpos g x). split; [by rewrite vname_vpos|by apply iclass_near].
Qed.

Lemma classes_rel : rel_of (classes g) ≡ rel_g g.
Proof.
  pose proof Hok as [Hwf Hcl]. intros x y. unfold rel_of, rel_g. split.
  - intros (c & (i & Vi & Li & ->)%elem_of_classes & Hx & Hy).
    apply elem_of_class in Hx as [Hx Nx], Hy as [Hy Ny]; try done. split_and!; try done.
    eapply near_trans; [done|by apply near_swap|done].
  - intros (Hx & Hy & Hn). destruct (leader_exists (vpos g x)) as (i & Vi & Li & Ni);
      [by apply vpos_in|].
    exists (vname g <$> iclass g i). rewrite elem_of_classes, !elem_of_class by done.
    split_and!; try done; [by exists i|]. by eapply near_trans.
Qed.
End classes.

Section classes_text.
Context (g : cudGraph) (Hok : graph_ok g).

Lemma vname_name_ok x : valid g x → name_ok (vname g x).
Proof.
  destruct Hok as [Hwf _]. intros Hx. pose proof (wf_names g Hwf) as Hn.
  rewrite Forall_forall in Hn. by apply Hn, vname_in.
Qed.

Lemma iclass_names_ok i : valid g i → class_ok (vname g <$> iclass g i).
Proof.
  intros Hi. split; [done|]. apply Forall_forall.
  intros x (k & -> & Hk)%list_elem_of_fmap. apply vname_name_ok. by eapply iclass_valid.
Qed.

Lemma iclass_nodup i : valid g i → NoDup (vname g <$> iclass g i).
Proof.
  pose proof Hok as [Hwf _]. intros Hi.
  assert (NoDup (iclass g i)) as Hnd by (constructor; [apply (wf_irr g Hwf)|apply Hwf]).
  assert (∀ k, k ∈ iclass g i → valid g k) as Hv by (intros; by eapply iclass_valid).
  revert Hnd Hv. generalize (iclass g i). induction 1 as [|k l Hk Hl IH]; intros Hv; [constructor|].
  rewrite fmap_cons. constructor; [|apply IH; set_solver].
  intros (k' & E & Hk')%list_elem_of_fmap. apply Hk.
  by rewrite (vname_inj g k k') by (done || apply Hv; set_solver).
Qed.

Lemma classes_names : concat (classes g) ≡ₚ names g.
Proof.
  pose proof Hok as [Hwf Hcl]. apply NoDup_Permutation; [|apply Hwf|].
  - apply NoDup_concat_fmap.
    + apply NoDup_filter, NoDup_fmap_2; [apply _|apply NoDup_seq].
    + intros i Hi. rewrite list_elem_of_filter, elem_of_indices in Hi by done.
      destruct Hi as [_ Hi]. by apply iclass_nodup.
    + intros i j x Hi Hj. rewrite list_elem_of_filter, elem_of_indices in Hi, Hj by done.
      destruct Hi as [Li Vi], Hj as [Lj Vj].
      rewrite !elem_of_class by done. intros [_ Ni] [_ Nj]. by eapply leader_unique.
  - intros x. rewrite elem_of_concat. split.
    + intros (c & (i & Vi & Li & ->)%elem_of_classes & Hx); [|done].
      by apply elem_of_class in Hx as [? _].
    + intros Hx. destruct (leader_exists g Hok (vpos g x)) as (i & Vi & Li & Ni); [by apply vpos_in|].
      exists (vname g <$> iclass g i). rewrite elem_of_classes, elem_of_class by done.
      split; [by exists i|done].
Qed.

Lemma classes_ok : dlist g ≠ [] → part_ok (classes g).
Proof.
  pose proof Hok as [Hwf Hcl]. intros Hne. split_and!.
  - intros E. pose proof classes_names as Hp. rewrite E in Hp. simpl in Hp.
    apply Permutation_nil in Hp. unfold names in Hp. by apply fmap_nil_inv in Hp.
  - apply Forall_forall. intros c (i & Vi & Li & ->)%elem_of_classes; [|done].
    by apply iclass_names_ok.
  - rewrite classes_names. apply Hwf.
Qed.

(** *** The text of one class *)

Lemma earlier_edge_spec n i j :
  valid g i →
  earlier_edge n g i j = Ret (bool_decide (Exists (λ k, j ≤ k < j + Z.of_nat n)%Z (adjl g i))).
Proof.
  intros Hi. revert j. induction n as [|n IH]; intros j.
  { cbn [earlier_edge]. f_equal. symmetry. apply bool_decide_eq_false_2.
    rewrite Exists_exists. intros (k & _ & Hk). lia. }
  cbn [earlier_edge]. rewrite existEdge_spec by done. bind_red. rewrite IH.
  destruct (decide (edge g i j)) as [He|He].
  - rewrite bool_decide_eq_true_2 by done. f_equal. symmetry. apply bool_decide_eq_true_2.
    rewrite Exists_exists. exists j. split; [done|lia].
  - rewrite bool_decide_eq_false_2 by done. f_equal. apply bool_decide_ext.
    rewrite !Exists_exists. split; intros (k & Hk & Hb); exists k; (split; [done|]); [lia|].
    assert (k ≠ j) by (by intros ->). lia.
Qed.

Lemma earlier_edge_leads (i : nat) :
  valid g (Z.of_nat i) → earlier_edge i g (Z.of_nat i) 0 = Ret (bool_decide (¬ leads g (Z.of_nat i))).
Proof.
  pose proof Hok as [Hwf _]. intros Hi. rewrite earlier_edge_spec by done. f_equal.
  apply bool_decide_ext. unfold leads. rewrite Forall_forall, Exists_exists. split.
  - intros (k & Hk & Hb) H. specialize (H k Hk). lia.
  - intros Hn. destruct (decide (Exists (λ k, 0 ≤ k < 0 + Z.of_nat i)%Z (adjl g (Z.of_nat i))))
      as [He|He]; [by apply Exists_exists|].
    exfalso. apply Hn. intros k Hk. rewrite Exists_exists in He.
    assert (valid g k) as [? ?] by (by apply (wf_range g Hwf (Z.of_nat i))).
    destruct (decide (Z.of_nat i ≤ k)%Z); [done|]. destruct He. exists k. split; [done|lia].
Qed.

Lemma cat_adj_spec l ps :
  Forall (valid g) ps → cat_adj g l ps = Ret (l ++ join COMMA (vname g <$> ps)).
Proof.
  intros Hps. revert l. induction Hps as [|p ps Hp Hps IH]; intros l; [simpl; by rewrite app_nil_r|].
  cbn [cat_adj]. destruct (vget_valid g p Hp) as (v & E & _). rewrite E. bind_red.
  rewrite <-(vname_vget g p v E).
  rewrite sdscat_nul_free by (by apply name_nul_free, vname_name_ok).
  rewrite IH, fmap_cons. destruct ps as [|p' ps].
  - simpl. by rewrite app_nil_r.
  - rewrite join_cons by done. change (sdscat (l ++ vname g p) (str ",")) with ((l ++ vname g p) ++ [COMMA]).
    by rewrite <-!app_assoc.
Qed.

Lemma cat_list_spec acc l : Forall nul_free l → cat_list acc l = acc ++ join COMMA l.
Proof.
  intros Hl. revert acc. induction Hl as [|e l He Hl IH]; intros acc; [simpl; by rewrite app_nil_r|].
  cbn [cat_list]. rewrite sdscat_nul_free by done. rewrite IH. destruct l as [|e' l].
  - simpl. by rewrite app_nil_r.
  - rewrite (join_cons COMMA e) by done. change (sdscat (acc ++ e) (str ",")) with ((acc ++ e) ++ [COMMA]).
    by rewrite <-!app_assoc.
Qed.

Lemma split1_class c : class_ok c → split1 (render_class c) (length (render_class c)) COMMA = Ret c.
Proof. intros [Hne Hc]. apply split1_join; [done|by apply names_tokens]. Qed.

Lemma adj_valid i : valid g i → Forall (valid g) (adjl g i).
Proof.
  destruct Hok as [Hwf _]. intros _. apply Forall_forall. intros k Hk. by apply (wf_range g Hwf i).
Qed.

Lemma class_text_spec i :
  valid g i → class_text g i = Ret (render_class (vname g <$> iclass g i)).
Proof.
  intros Hi. unfold class_text. destruct (vget_valid g i Hi) as (v & E & _ & Ha & _).
  rewrite E. bind_red. rewrite <-(vname_vget g i v E), <-Ha.
  pose proof (vname_name_ok i Hi) as Hn. pose proof (name_nul_free _ Hn) as Hnf.
  pose proof (iclass_names_ok i Hi) as Hc.
  assert (sdscat (sdsnew (vname g i)) (str ",") = vname g i ++ [COMMA]) as ->.
  { by rewrite sdsnew_nul_free. }
  assert ((if bool_decide (adjl g i ≠ []) then cat_adj g (vname g i ++ [COMMA]) (adjl g i)
    else Ret (sdstrim (vname g i ++ [COMMA]) (str ","))) =
    Ret (render_class (vname g <$> iclass g i))) as ->.
  { unfold iclass. rewrite fmap_cons. case_bool_decide as Hne.
    - rewrite cat_adj_spec by by apply adj_valid. f_equal. unfold render_class.
      rewrite join_cons by (by intros ?%fmap_nil_inv). by rewrite <-app_assoc.
    - rewrite Hne. f_equal. simpl. apply sdstrim_trailing; try done.
      + destruct Hn as [[? _] _]. done.
      + by apply name_not_in. }
  bind_red. rewrite split1_class by done. bind_red. f_equal.
  rewrite cat_list_spec; [done|]. destruct Hc as [_ Hc].
  eapply Forall_impl; [done|]. apply name_nul_free.
Qed.
End classes_text.

(** ** The whole text *)

Section print.
Context (g : cudGraph) (Hok : graph_ok g) (text : cudGraph → Z → out bytes).
Context (shape : Z → list bytes).
Context (Htext : ∀ i, valid g i → text g i = Ret (render_class (shape i))).
Context (Hshape : ∀ i, valid g i → class_ok (shape i)).

(** The leaders among the first [k] vertices, and the non-leaders. *)
Definition lead_upto (k : nat) : list Z := filter (leads g) (Z.of_nat <$> seq 0 k).
Definition skip_upto (k : nat) : list Z := filter (λ i, ¬ leads g i) (Z.of_nat <$> seq 0 k).

(** The result while the last vertex has not been reached. *)
Definition slashed (k : nat) : bytes :=
  concat ((λ t, t ++ [SLASH]) <$> (render_class ∘ shape <$> lead_upto k)).

Lemma lead_upto_S k :
  lead_upto (S k) = lead_upto k ++ (if decide (leads g (Z.of_nat k)) then [Z.of_nat k] else []).
Proof.
  unfold lead_upto. rewrite seq_S, fmap_app, filter_app. simpl. f_equal.
Qed.

Lemma skip_upto_S k :
  skip_upto (S k) = skip_upto k ++ (if decide (leads g (Z.of_nat k)) then [] else [Z.of_nat k]).
Proof.
  unfold skip_upto. rewrite seq_S, fmap_app, filter_app. simpl. f_equal.
  rewrite filter_cons, filter_nil. repeat case_decide; tauto || done.
Qed.

Lemma print_step_spec k sk fl :
  k < vertexnum g →
  print_step text g (mk_print sk fl (slashed k)) k =
    Ret (if decide (leads g (Z.of_nat k)) then
           mk_print sk fl (if bool_decide (k ≠ vertexnum g - 1) then slashed (S k)
                           else slashed k ++ render_class (shape (Z.of_nat k)))
         else mk_print (S sk) (if bool_decide (k = vertexnum g - 1) then true else fl)
                (slashed (S k))).
Proof.
  pose proof Hok as [Hwf _]. intros Hk.
  assert (valid g (Z.of_nat k)) as Hv by (unfold valid; rewrite <-(wf_num g Hwf); lia).
  unfold print_step. rewrite (earlier_edge_leads g Hok) by done. bind_red.
  unfold slashed. rewrite lead_upto_S, !fmap_app, concat_app. simpl.
  destruct (decide (leads g (Z.of_nat k))) as [Hl|Hl].
  - rewrite (bool_decide_eq_false_2 (¬ leads g (Z.of_nat k))) by tauto.
    rewrite Htext by done. bind_red.
    rewrite (sdscat_nul_free _ (render_class _)) by (apply render_class_nul_free; by apply Hshape).
    case_bool_decide; [|done]. simpl. rewrite app_nil_r. do 2 f_equal.
    rewrite sdscat_slash. by rewrite <-app_assoc.
  - rewrite (bool_decide_eq_true_2 (¬ leads g (Z.of_nat k))) by tauto. simpl. by rewrite app_nil_r.
Qed.

Lemma print_prefix k :
  k < vertexnum g →
  out_fold (print_step text g) (mk_print 0 false sdsempty) (seq 0 k) =
    Ret (mk_print (length (skip_upto k)) false (slashed k)).
Proof.
  induction k as [|k IH]; intros Hk; [done|].
  rewrite seq_S, out_fold_app, IH by lia. bind_red. cbn [out_fold].
  rewrite Nat.add_0_l, print_step_spec by lia.
  rewrite (bool_decide_eq_true_2 (k ≠ _)), (bool_decide_eq_false_2 (k = _)) by lia.
  bind_red. rewrite skip_upto_S, length_app.
  destruct (decide (leads g (Z.of_nat k))); simpl; by rewrite ?Nat.add_0_r, ?Nat.add_1_r.
Qed.

(** With two or more vertices, what is printed is the classes joined by "/". *)
Lemma print_spec :
  2 ≤ vertexnum g →
  ∃ st, out_fold (print_step text g) (mk_print 0 false sdsempty) (seq 0 (vertexnum g)) = Ret st
    ∧ print_end g st = render (shape <$> filter (leads g) (indices g)).
Proof.
  intros Hn. destruct (vertexnum g) as [|k] eqn:En; [lia|].
  rewrite seq_S, out_fold_app, print_prefix by lia. bind_red. cbn [out_fold].
  rewrite Nat.add_0_l, print_step_spec by lia. bind_red.
  rewrite En. replace (S k - 1) with k by lia.
  rewrite (bool_decide_eq_false_2 (k ≠ k)), (bool_decide_eq_true_2 (k = k)) by lia.
  eexists. split; [done|]. unfold indices. rewrite En. fold (lead_upto (S k)).
  unfold print_end, render. rewrite En, lead_upto_S.
  rewrite <-list_fmap_compose. 
  assert (length (lead_upto k) + length (skip_upto k) = k) as Hcount.
  { clear. induction k as [|k IH]; [done|]. rewrite lead_upto_S, skip_upto_S, !length_app.
    destruct (decide _); simpl; lia. }
  assert (lead_upto k ≠ []) as Hne.
  { destruct k as [|k]; [lia|]. intros E.
    assert (0%Z ∈ lead_upto (S k)) as H0; [|rewrite E in H0; set_solver].
    unfold lead_upto. apply list_elem_of_filter. split; [|simpl; set_solver].
    unfold leads. apply Forall_forall. intros j Hj.
    destruct Hok as [Hwf _]. by destruct (wf_range g Hwf 0 j Hj). }
  destruct (decide (leads g (Z.of_nat k))) as [Hl|Hl]; cbn [p_skip p_flag p_result].
  - rewrite bool_decide_eq_false_2.
    2:{ destruct (lead_upto k); [done|simpl in Hcount; lia]. }
    cbn [orb]. unfold slashed. rewrite fmap_app. apply concat_sep_last.
  - rewrite orb_true_r. rewrite app_nil_r. unfold slashed. rewrite lead_upto_S.
    rewrite decide_False, app_nil_r by done.
    rewrite concat_snoc_sep by (by intros ?%fmap_nil_inv).
    set (w := join SLASH _). assert (w ≠ []) as Hw.
    { intros E. apply join_nil_inv in E; [by apply fmap_nil_inv in E|].
      apply Forall_fmap, Forall_forall. intros i Hi. simpl. apply render_class_ne, Hshape.
      apply (elem_of_indices g Hok). unfold indices. rewrite En.
      apply list_elem_of_filter in Hi as [_ Hi]. rewrite seq_S, fmap_app. set_solver. }
    rewrite sdsrange_chop by (rewrite length_app; destruct w; simpl in *; [done|lia]).
    rewrite length_app. simpl. by rewrite Nat.add_sub, take_app_length.
Qed.
End print.

(** A graph with one vertex is printed without the last byte of its name, unless
    the name has only one: the final [sdsrange] runs although no separator was
    written. *)
Lemma updateVerticeUfs_one g x :
  graph_ok g → names g = [x] →
  updateVerticeUfs g = Ret (if bool_decide (length x = 1) then x else take (length x - 1) x).
Proof.
  intros Hok Hx. pose proof Hok as [Hwf _].
  assert (length (dlist g) = 1) as Hlen by (unfold names in Hx; by rewrite <-(length_fmap data), Hx).
  assert (name_ok x) as Hn by (pose proof (wf_names g Hwf) as H; rewrite Hx in H; by inversion H).
  assert (valid g 0) as Hv by (unfold valid; lia).
  assert (adjl g 0 = []) as Ha.
  { destruct (adjl g 0) as [|p l] eqn:E; [done|]. assert (edge g 0 p) as He by (unfold edge; rewrite E; by left).
    destruct (wf_range g Hwf 0 p He) as [? ?]. assert (p = 0%Z) as -> by lia. by destruct (wf_irr g Hwf 0). }
  assert (class_text g 0 = Ret x) as Ec.
  { rewrite (class_text_spec g Hok 0 Hv). unfold iclass, vname. by rewrite Ha, Hx. }
  unfold updateVerticeUfs. rewrite (wf_num g Hwf), Hlen. cbn [seq out_fold]. unfold print_step. cbn [earlier_edge].
  bind_red. change (Z.of_nat 0) with 0%Z. rewrite Ec. bind_red. rewrite (wf_num g Hwf), Hlen.
  rewrite bool_decide_eq_false_2 by (simpl; lia). unfold print_end. cbn [p_skip p_flag p_result].
  rewrite (wf_num g Hwf), Hlen, bool_decide_eq_true_2 by lia. cbn [orb].
  pose proof (name_nul_free x Hn) as Hnf. rewrite (sdscat_nul_free _ x Hnf). cbn [sdsempty app].
  f_equal. case_bool_decide as H1.
  - destruct x as [|a [|b x]]; try done. rewrite sdsrange_chop_one. by apply cstr_id.
  - assert (2 ≤ length x) as H2 by (destruct Hn as [[Hne _] _]; destruct x as [|a [|b x]]; simpl in *; (done || lia)).
    rewrite sdsrange_chop by done. apply cstr_id. intros Hin. apply Hnf. rewrite <-(take_drop (length x - 1) x).
    apply elem_of_app. by left.
Qed.

(** Printing a graph with two or more elements yields the text of its classes. *)
Lemma updateVerticeUfs_classes g :
  graph_ok g → 2 ≤ vertexnum g → updateVerticeUfs g = Ret (render (classes g)).
Proof.
  intros Hok Hn. unfold updateVerticeUfs.
  destruct (print_spec g Hok class_text (λ i, vname g <$> iclass g i)) as (st & -> & E);
    [by apply class_text_spec|by apply iclass_names_ok|done|].
  bind_red. rewrite E. f_equal. apply cstr_id, render_nul_free.
  pose proof Hok as [Hwf _].
  destruct (classes_ok g Hok) as (_ & H & _); [|done].
  intros E'. rewrite (wf_num g Hwf), E' in Hn. simpl in Hn. lia.
Qed.

(** ** itos *)

(** The value of a digit of [zm], and of a decimal string. *)
Definition dval (c : ascii) : Z := Z.of_N (N_of_ascii c) - 48.
Definition decimal (s : bytes) : Z := fold_left (λ acc c, 10 * acc + dval c)%Z s 0%Z.

Lemma zm_digit k :
  (0 ≤ k < 10)%Z → ∃ d, zm !! Z.to_nat k = Some d ∧ dval d = k ∧ d ≠ NUL ∧ d ∉ [COMMA; "_"%char].
Proof.
  intros Hk. assert (Z.to_nat k < 10) as Hn by lia.
  assert (k = Z.of_nat (Z.to_nat k)) as -> by lia. rewrite Nat2Z.id.
  generalize dependent (Z.to_nat k). clear. intros n Hn.
  do 10 (destruct n as [|n]; [eexists; split; [reflexivity|]; split_and!; [done|done|set_solver]|]).
  lia.
Qed.

(** Digits come out with the least significant one first. *)
Lemma digits_spec n fuel sum aa :
  (0 ≤ sum < 10 ^ Z.of_nat n)%Z → n ≤ fuel →
  ∃ ds, digits fuel sum 10 aa = Ret (aa ++ ds) ∧ length ds ≤ n ∧ decimal (rev ds) = sum
    ∧ Forall (λ d, d ≠ NUL ∧ d ∉ [COMMA; "_"%char]) ds ∧ (0 < sum → ds ≠ [])%Z.
Proof.
  revert fuel sum aa. induction n as [|n IH]; intros fuel sum aa Hs Hf.
  { assert (sum = 0)%Z as -> by (simpl in Hs; lia). exists [].
    destruct fuel; simpl; rewrite app_nil_r; split_and!; (done || lia || constructor). }
  destruct (decide (sum > 0)%Z) as [Hpos|Hneg].
  2:{ assert (sum = 0)%Z as -> by lia. exists [].
      destruct fuel; simpl; rewrite app_nil_r; split_and!; (done || lia || constructor). }
  destruct fuel as [|fuel]; [lia|]. cbn [digits]. rewrite bool_decide_eq_true_2 by done.
  rewrite Z.rem_mod_nonneg, Z.quot_div_nonneg by lia.
  pose proof (Z.mod_pos_bound sum 10 ltac:(lia)).
  destruct (zm_digit (sum mod 10)) as (d & Hd & Hv & Hnul & Hc); [lia|]. rewrite Hd. bind_red.
  destruct (IH fuel (sum / 10)%Z (aa ++ [d])) as (ds & -> & Hlen & Hdec & Hall & _).
  { split; [apply Z.div_pos; lia|]. apply Z.div_lt_upper_bound; [lia|].
    rewrite Nat2Z.inj_succ, Z.pow_succ_r in Hs by lia. lia. }
  { lia. }
  exists (d :: ds). rewrite <-app_assoc. split_and!; try done.
  - simpl. lia.
  - simpl. unfold decimal in *. rewrite fold_left_app. simpl. rewrite Hdec, Hv.
    pose proof (Z.div_mod sum 10 ltac:(lia)). lia.
  - by constructor.
Qed.

(** [itos] with radix 10 writes a decimal numeral of the value without leading
    digits to spare; zero and negative values give the empty string. *)
Lemma itos_spec n value :
  (0 ≤ value < 10 ^ Z.of_nat n)%Z → n ≤ 100 →
  ∃ s, itos value 10 = Ret s ∧ length s ≤ n ∧ decimal s = value
    ∧ Forall (λ d, d ≠ NUL ∧ d ∉ [COMMA; "_"%char]) s.
Proof.
  intros Hv Hn. destruct (digits_spec n 100 value []) as (ds & E & Hlen & Hdec & Hall & _); try done.
  exists (rev ds). unfold itos. rewrite E. split_and!; try done.
  - by rewrite length_rev.
  - rewrite <-rev_involutive in Hall. by apply Forall_rev in Hall; rewrite rev_involutive in Hall.
Qed.

Lemma itos_nonpositive value : (value ≤ 0)%Z → itos value 10 = Ret [].
Proof.
  intros Hv. unfold itos. cbn [digits]. by rewrite bool_decide_eq_false_2 by lia.
Qed.

(** ** Properties *)

(** the text written for a graph with at least two vertices lists exactly its
    classes: the elements are those of the graph, each once, and two elements
    are in one class of the text when they are equal or adjacent in the graph. *)
Theorem updateVerticeUfs_prints g :
  graph_ok g → 2 ≤ vertexnum g →
  ∃ P, updateVerticeUfs g = Ret (render P) ∧ part_ok P ∧ concat P ≡ₚ names g ∧ rel_of P ≡ rel_g g.
Proof.
  intros Hok H2. exists (classes g). split; [by apply updateVerticeUfs_classes|].
  split; [|split; [by apply classes_names|by apply classes_rel]].
  apply classes_ok; [done|]. destruct Hok as [Hwf _]. intros E.
  rewrite (wf_num g Hwf), E in H2. simpl in H2. lia.
Qed.

Lemma updateVerticeUfs_prints_witness :
  ∃ P, updateVerticeUfs graph3 = Ret (render P) ∧ part_ok P.
Proof.
  destruct (updateVerticeUfs_prints graph3) as (P & E & Ok & _);
    [exact graph3_graph_ok|vm_compute; lia|]. exists P. split; [exact E|exact Ok].
Defined.

(** [itos] writes a number of at most [n] digits in decimal, with at most [n]
    characters, none of them a separator of contexts or of identifiers. *)
Theorem itos_decimal n value :
  (0 ≤ value < 10 ^ Z.of_nat n)%Z → n ≤ 100 →
  ∃ s, itos value 10 = Ret s ∧ length s ≤ n ∧ decimal s = value
    ∧ Forall (λ d, d ≠ NUL ∧ d ∉ [COMMA; "_"%char]) s.
Proof. apply itos_spec. Qed.

Lemma itos_decimal_witness : ∃ s, itos 6380 10 = Ret s ∧ length s ≤ 4 ∧ decimal s = 6380%Z.
Proof.
  destruct (itos_decimal 4 6380) as (s & E & Hl & Hd & _); [lia|lia|].
  exists s. split; [exact E|]. split; [exact Hl|exact Hd].
Defined.
