(* ===== verification/Object.v ===== *)
(** * Object: the interface of a union-find-split object

    The control algorithm keeps two representations of the same object: the
    graph a replica answers queries from, and the texts of the state space.
    [UfsImpl] states what it relies on from either: executing an operation is
    defined, keeps the representation well-formed, and has the effect of the
    abstract operation.  The graph (ufs.c) and the text (ot.c and ufs.c) are
    instances, and clients reason about both through the class. *)
From S2P Require Import Prelude Sds Partition OtStr ClassText TextState OtUfs Graph UnionSplit GraphText.

(** ** Operations on an object with relation [R] *)

(** An argument of a union: "*", or a group of elements of one class. *)
Inductive arg_on (R : prel) : bytes → list bytes → Prop :=
  | on_star : arg_on R STAR []
  | on_group a aa :
      arg_ok a aa → (∀ x, x ∈ a :: aa → R x a) → arg_on R (render_class (a :: aa)) (a :: aa).

Inductive op_on (R : prel) : op → view → Prop :=
  | on_union t1 g1 t2 g2 :
      arg_on R t1 g1 → arg_on R t2 g2 →
      op_on R (mk_op OPTYPE_UNION (Some t1) (Some t2)) (VUnion g1 g2)
  | on_split s ss z :
      arg_ok s ss → NoDup (s :: ss) → (∀ x, x ∈ s :: ss → R x s) →
      op_on R (mk_op OPTYPE_SPLIT (Some (render_class (s :: ss))) z) (VSplit (s :: ss)).

Lemma op_on_type R o v : op_on R o v → optype o ∈ [OPTYPE_UNION; OPTYPE_SPLIT].
Proof. intros []; simpl; set_solver. Qed.

#[global] Instance arg_on_proper : Proper ((≡) ==> (=) ==> (=) ==> iff) arg_on.
Proof.
  assert (∀ R S t g, R ≡ S → arg_on R t g → arg_on S t g) as H.
  { intros R S t g E [|a aa Ha Hr]; constructor; [done|]. intros x Hx. by apply E, Hr. }
  intros R S E t ? <- g ? <-. split; apply H; [done|by symmetry].
Qed.

#[global] Instance op_on_proper : Proper ((≡) ==> (=) ==> (=) ==> iff) op_on.
Proof.
  assert (∀ R S o v, R ≡ S → op_on R o v → op_on S o v) as H.
  { intros R S o v E [t1 g1 t2 g2 H1 H2|s ss z Hs Hnd Hr]; constructor; try done.
    - by rewrite <-E.
    - by rewrite <-E.
    - intros x Hx. by apply E, Hr. }
  intros R S E t ? <- g ? <-. split; apply H; [done|by symmetry].
Qed.

(** ** The interface *)

Class UfsImpl (S : Type) := {
  impl_ok : S → Prop;
  impl_rel : S → prel;
  impl_exec : op → S → out S;
  impl_per s : impl_ok s → per (impl_rel s);
  impl_step s o v :
    impl_ok s → op_on (impl_rel s) o v →
    returns (impl_exec o s) (λ s', impl_ok s' ∧ impl_rel s' ≡ aapply (abs_op v) (impl_rel s));
}.

(** *** Any two implementations agree *)

Section bisimulation.
Context {S T : Type} `{!UfsImpl S, !UfsImpl T}.

(** Both representations are well-formed and show the same classes. *)
Definition agree (s : S) (t : T) : Prop := impl_ok s ∧ impl_ok t ∧ impl_rel s ≡ impl_rel t.

Lemma agree_step s t o v :
  agree s t → op_on (impl_rel s) o v →
  ∃ s' t', impl_exec o s = Ret s' ∧ impl_exec o t = Ret t' ∧ agree s' t'
    ∧ impl_rel s' ≡ aapply (abs_op v) (impl_rel s).
Proof.
  intros (Hs & Ht & E) Ho.
  destruct (impl_step s o v Hs Ho) as (s' & Es & Hs' & Rs).
  rewrite E in Ho. destruct (impl_step t o v Ht Ho) as (t' & Et & Ht' & Rt).
  exists s', t'. do 2 (split; [done|]). split; [|done].
  split; [done|]. split; [done|]. by rewrite Rs, Rt, E.
Qed.
End bisimulation.

(** ** The graph is an implementation *)

(** Executing an operation on the graph: [unionProc] or [splitProc]. *)
Definition exec_graph (o : op) (g : cudGraph) : out cudGraph :=
  a1 ← deref (argv1 o);
  if bool_decide (optype o = OPTYPE_UNION)
  then a2 ← deref (argv2 o); union_graph g a1 a2
  else split_graph g a1.

Lemma arg_on_garg g t grp : arg_on (rel_g g) t grp → garg g t grp.
Proof. intros [|a aa Ha Hr]; by constructor. Qed.

Lemma exec_graph_spec g o v :
  graph_ok g → op_on (rel_g g) o v →
  returns (exec_graph o g) (λ g', gstep g g' (aapply (abs_op v) (rel_g g))).
Proof.
  intros Hok [t1 g1 t2 g2 H1 H2|s ss z Hs Hnd Hr]; unfold exec_graph; cbn [optype argv1 argv2 deref];
    bind_red.
  - rewrite bool_decide_eq_true_2 by done. bind_red.
    apply union_graph_spec; [done|by apply arg_on_garg..].
  - rewrite bool_decide_eq_false_2 by done. apply split_graph_spec; [done|].
    intros x Hx. by destruct (Hr x Hx).
Qed.

#[global] Program Instance graph_impl : UfsImpl cudGraph := {|
  impl_ok := graph_ok; impl_rel := rel_g; impl_exec := exec_graph |}.
Next Obligation. intros. by apply rel_g_per. Qed.
Next Obligation.
  intros g o v Hok Ho. eapply returns_mono; [by apply exec_graph_spec|].
  by intros g' (_ & ? & ?).
Qed.

(** ** The text is an implementation *)

(** Reading a state text back into classes. *)
Definition parse (s : bytes) : list (list bytes) := split_on COMMA <$> split_on SLASH s.

Lemma parse_render P : part_ok P → parse (render P) = P.
Proof.
  intros (Hne & HP & _). unfold parse. rewrite split_render by done.
  rewrite <-list_fmap_compose. apply list_eq. intros i. rewrite list_lookup_fmap.
  destruct (P !! i) as [c|] eqn:E; [|done]. simpl. f_equal. apply split_render_class.
  rewrite Forall_forall in HP. by eapply HP, list_elem_of_lookup_2.
Qed.

Definition text_ok (s : bytes) : Prop := part_ok (parse s) ∧ render (parse s) = s.
Definition rel_t (s : bytes) : prel := rel_of (parse s).

#[global] Instance text_ok_dec s : Decision (text_ok s).
Proof. unfold text_ok. apply _. Defined.

Lemma render_text_ok P : part_ok P → text_ok (render P) ∧ rel_t (render P) = rel_of P.
Proof. intros HP. unfold text_ok, rel_t. by rewrite parse_render. Qed.

Lemma rel_class_uarg P a aa :
  part_ok P → (∀ x, x ∈ a :: aa → rel_of P x a) → ∃ C, C ∈ P ∧ (a :: aa) ⊆ C.
Proof.
  intros (_ & _ & Hnd) Hr. apply rel_class; [done|].
  intros x Hx. apply (per_sym _ (rel_of_per P Hnd)). by apply Hr.
Qed.

Lemma arg_on_uarg P t g : part_ok P → arg_on (rel_of P) t g → uarg P t g.
Proof.
  intros HP [|a aa Ha Hr]; [constructor|].
  destruct (rel_class_uarg P a aa HP Hr) as (C & HC & Hsub). by apply uarg_group with C.
Qed.

Lemma op_on_ot P o v : part_ok P → op_on (rel_of P) o v → ot_op P o v.
Proof.
  intros HP [t1 g1 t2 g2 H1 H2|s ss z Hs Hnd Hr].
  - constructor; by apply arg_on_uarg.
  - destruct (rel_class_uarg P s ss HP Hr) as (C & HC & Hsub). by apply ot_split with C.
Qed.

(** Executing an operation keeps the text well-formed and its length. *)
Lemma exec_text_spec s o v :
  text_ok s → op_on (rel_t s) o v →
  returns (exec o s) (λ s', text_ok s' ∧ rel_t s' ≡ aapply (abs_op v) (rel_t s)
    ∧ length s' = length s ∧ concat (parse s') ≡ₚ concat (parse s)).
Proof.
  intros [HP Hs] Ho. unfold rel_t in *. destruct (ot_op_den _ o v HP (op_on_ot _ _ _ HP Ho)) as (d & Hd & E).
  destruct (update_refines_gen _ _ _ _ _ HP Hd) as (P' & E' & HP' & HR & Hcc & Hlen).
  rewrite Hs in E', Hlen. exists (render P'). split; [exact E'|].
  destruct (render_text_ok P' HP') as [Ht Hr]. rewrite parse_render by done.
  split; [done|]. split; [|done]. by rewrite HR, E.
Qed.

#[global] Program Instance text_impl : UfsImpl bytes := {|
  impl_ok := text_ok; impl_rel := rel_t; impl_exec := exec |}.
Next Obligation. intros s [(_ & _ & Hnd) _]. by apply rel_of_per. Qed.
Next Obligation.
  intros s o v Hok Ho. eapply returns_mono; [by apply exec_text_spec|].
  by intros s' (? & ? & _).
Qed.

(** Printing a graph relates the two implementations. *)
Lemma print_agree g :
  graph_ok g → 2 ≤ vertexnum g →
  ∃ s, updateVerticeUfs g = Ret s ∧ agree g s ∧ concat (parse s) ≡ₚ names g.
Proof.
  intros Hok Hn. exists (render (classes g)).
  assert (part_ok (classes g)) as HP.
  { pose proof Hok as [Hwf _]. apply classes_ok; [done|].
    intros E. rewrite (wf_num g Hwf), E in Hn. simpl in Hn. lia. }
  destruct (render_text_ok _ HP) as [Ht Hr]. split_and!.
  - by apply updateVerticeUfs_classes.
  - split; [exact Hok|]. split; [exact Ht|]. simpl. rewrite Hr. symmetry. by apply classes_rel.
  - rewrite parse_render by done. by apply classes_names.
Qed.

Lemma text_length s : text_ok s → length s = sum_list_with length (concat (parse s)) + (length (concat (parse s)) - 1).
Proof. intros [(_ & HP & _) E]. rewrite <-E at 1. by apply length_render_elements. Qed.

(** ** Transformation squares for single-element operations *)

(** The operations of users without groups: every argument is one element, or
    "*" after a transformation.  They are always within reach of [otUfs]. *)
Definition simple (v : view) : Prop :=
  match v with
  | VUnion g1 g2 => length g1 ≤ 1 ∧ length g2 ≤ 1
  | VSplit L => length L = 1
  end.

#[global] Instance simple_dec v : Decision (simple v).
Proof. destruct v; simpl; apply _. Defined.

Lemma aapply_refl o (R : prel) x : R x x → aapply o R x x.
Proof. destruct o as [[a|] [b|]|L]; simpl; try done. by left. Qed.

Lemma arg_on_keep R R' t g :
  arg_on R t g → length g ≤ 1 → (∀ x, R x x → R' x x) → arg_on R' t g.
Proof.
  intros [|a aa Ha Hr] Hlen Hk; constructor; [done|]. destruct aa; [|simpl in Hlen; lia].
  intros x ->%list_elem_of_singleton. apply Hk, Hr. set_solver.
Qed.

Lemma op_on_keep R R' o v : op_on R o v → simple v → (∀ x, R x x → R' x x) → op_on R' o v.
Proof.
  intros [t1 g1 t2 g2 H1 H2|s ss z Hs Hnd Hr] Hsim Hk.
  - destruct Hsim. constructor; by eapply arg_on_keep.
  - simpl in Hsim. destruct ss; [|simpl in Hsim; lia]. constructor; try done.
    intros x ->%list_elem_of_singleton. apply Hk, Hr. set_solver.
Qed.

Lemma uarg_arg_on P t g : uarg P t g → arg_on (rel_of P) t g.
Proof.
  intros [|a aa C Ha HC Hsub]; constructor; [done|]. intros x Hx. exists C. set_solver.
Qed.

(** A square: [e1], [e2] are what [otUfs] makes of two operations on [s]. *)
(** What an operation becomes next to another one: only a union next to a split
    changes, and stays a union. *)
Definition kept_view (v w v' : view) : Prop :=
  match v, w with VUnion _ _, VSplit _ => ∃ g1 g2, v' = VUnion g1 g2 | _, _ => v' = v end.

Definition square (s : bytes) (R : prel) (op1 : op) (v1 : view) (op2 : op) (v2 : view) : Prop :=
  ∃ e1 v1' e2 v2',
    otUfs s op1 op2 OT_UNION = Ret (e1, e2)
    ∧ (op_on (aapply (abs_op v2) R) e1 v1' ∧ simple v1' ∧ kept_view v1 v2 v1')
    ∧ (op_on (aapply (abs_op v1) R) e2 v2' ∧ simple v2' ∧ kept_view v2 v1 v2')
    ∧ aapply (abs_op v2') (aapply (abs_op v1) R) ≡ aapply (abs_op v1') (aapply (abs_op v2) R).

Lemma union_split_square P t1 g1 t2 g2 s z :
  part_ok P → arg_on (rel_of P) t1 g1 → arg_on (rel_of P) t2 g2 →
  length g1 ≤ 1 → length g2 ≤ 1 → arg_ok s [] → rel_of P s s →
  ∃ t1' g1' t2' g2',
    ot_change_union (render P) t1 t2 s OT_UNION = Ret (Some t1', Some t2')
    ∧ op_on (srel (rel_of P) [s]) (mk_op OPTYPE_UNION (Some t1') (Some t2')) (VUnion g1' g2')
    ∧ simple (VUnion g1' g2')
    ∧ op_on (aapply (AUnion (head g1) (head g2)) (rel_of P)) (mk_op OPTYPE_SPLIT (Some s) z) (VSplit [s])
    ∧ srel (aapply (AUnion (head g1) (head g2)) (rel_of P)) [s]
      ≡ aapply (AUnion (head g1') (head g2')) (srel (rel_of P) [s]).
Proof.
  intros HP H1 H2 L1 L2 Hs Hss. destruct (rel_class_uarg P s []) as (C & HC & Hsub); [done|by intros x ->%list_elem_of_singleton|].
  destruct (ot_change_union_spec P C s []) with t1 g1 t2 g2
    as (t1' & g1' & t2' & g2' & E & U1 & U2 & N1 & N2 & Heq); try done;
    [apply NoDup_singleton|by apply arg_on_uarg..|].
  exists t1', g1', t2', g2'. split; [exact E|].
  split; [|split; [split; lia|split; [|done]]].
  - apply op_on_keep with (R := rel_of P); [constructor; by apply uarg_arg_on|split; lia|].
    intros x. apply (aapply_refl (ASplit [s])).
  - apply op_on_keep with (R := rel_of P); [|done|intros x; apply aapply_refl].
    change s with (render_class [s]) at 1. constructor; [done|apply NoDup_singleton|].
    by intros x ->%list_elem_of_singleton.
Qed.

Lemma tp1_square s op1 v1 op2 v2 :
  text_ok s → op_on (rel_t s) op1 v1 → op_on (rel_t s) op2 v2 → simple v1 → simple v2 →
  square s (rel_t s) op1 v1 op2 v2.
Proof.
  intros [HP Es] H1 H2 S1 S2. unfold rel_t in *. pose proof HP as (_ & _ & Hnd).
  pose proof (rel_of_per _ Hnd) as Hper.
  destruct H1 as [t1 g1 t2 g2 A1 A2|r rr z Hr Hndr Hrel];
    destruct H2 as [t3 g3 t4 g4 A3 A4|r' rr' z' Hr' Hndr' Hrel'].
  - eexists _, (VUnion g1 g2), _, (VUnion g3 g4). split; [apply otUfs_unions|].
    split_and!; [|done|done| |done|done|].
    + eapply op_on_keep; [by constructor|done|intros x; apply aapply_refl].
    + eapply op_on_keep; [by constructor|done|intros x; apply aapply_refl].
    + by apply aunion_comm.
  - simpl in S2. destruct rr'; [|simpl in S2; lia]. destruct S1 as [L1 L2].
    destruct (union_split_square (parse s) t1 g1 t2 g2 r' None)
      as (t1' & g1' & t2' & g2' & E & O1 & Sim & O2 & Heq); try done; [apply Hrel'; set_solver|].
    eexists _, _, _, _. split; [|split_and!; [exact O1|exact Sim|by eexists _, _|exact O2|done|done|done]].
    unfold otUfs, ot_flag_union. cbn [optype argv1 argv2 deref].
    rewrite bool_decide_eq_true_2 by done. bind_red. rewrite Es in E.
    change (render_class [r']) with r'. by rewrite E.
  - simpl in S1. destruct rr; [|simpl in S1; lia]. destruct S2 as [L3 L4].
    destruct (union_split_square (parse s) t3 g3 t4 g4 r None)
      as (t1' & g1' & t2' & g2' & E & O1 & Sim & O2 & Heq); try done; [apply Hrel; set_solver|].
    eexists _, _, _, _. split; [|split_and!; [exact O2|done|done|exact O1|exact Sim|by eexists _, _|]].
    2:{ symmetry. exact Heq. }
    unfold otUfs, ot_flag_union. cbn [optype argv1 argv2 deref].
    rewrite bool_decide_eq_true_2 by done. bind_red. rewrite Es in E.
    change (render_class [r]) with r. by rewrite E.
  - eexists _, (VSplit (r :: rr)), _, (VSplit (r' :: rr')).
    split; [apply otUfs_splits|]. split_and!; [|done|done| |done|done|].
    + eapply op_on_keep; [by constructor|done|intros x; apply aapply_refl].
    + eapply op_on_keep; [by constructor|done|intros x; apply aapply_refl].
    + apply srel_comm.
Qed.

(** ** Properties *)

(** C10: the graph of a replica and the text of a state are interchangeable: when
    both show the same classes, any operation defined on these classes succeeds
    on both, and they show the same classes again, those of the abstract
    operation (a bisimulation between the two representations). *)
Theorem graph_text_bisimulation (g : cudGraph) (s : bytes) o v :
  agree g s → op_on (rel_g g) o v →
  ∃ g' s', exec_graph o g = Ret g' ∧ exec o s = Ret s' ∧ agree g' s'
    ∧ rel_g g' ≡ aapply (abs_op v) (rel_g g).
Proof. exact (agree_step g s o v). Qed.

Lemma graph3_agree : agree graph3 (str "a,b/c").
Proof.
  destruct (print_agree graph3 graph3_graph_ok) as (s & E & Ha & _); [vm_compute; lia|].
  assert (updateVerticeUfs graph3 = Ret (str "a,b/c")) as E' by by vm_compute. congruence.
Qed.

Lemma graph_text_bisimulation_witness :
  ∃ g' s', exec_graph (mk_op OPTYPE_UNION (Some (str "a")) (Some (str "c"))) graph3 = Ret g'
    ∧ exec (mk_op OPTYPE_UNION (Some (str "a")) (Some (str "c"))) (str "a,b/c") = Ret s' ∧ agree g' s'.
Proof.
  destruct (graph_text_bisimulation graph3 (str "a,b/c") (mk_op OPTYPE_UNION (Some (str "a")) (Some (str "c")))
    (VUnion [str "a"] [str "c"]) graph3_agree) as (g' & s' & Eg & Es & Ha & _).
  - apply on_union; [apply (on_group _ (str "a") [])|apply (on_group _ (str "c") [])]; try concrete;
      intros x ->%list_elem_of_singleton; (split_and!; [concrete|concrete|by left]).
  - exists g', s'. split; [exact Eg|]. split; [exact Es|exact Ha].
Defined.
