(* ===== verification/Space.v ===== *)
(** * Space: the 2D state space

    Each replica keeps, per object, a list of vertices (src/src/ot.c,
    src/src/server.h).  A vertex holds the text of a state and up to two
    outgoing edges: the left one for a locally generated operation, the right
    one for a remote one.  Vertices are created and appended to the list in one
    go and never removed, so the position in the list identifies a vertex and
    models the pointer to it. *)
From Stdlib Require Import Ascii.
From S2P Require Import Prelude Sds Partition OtStr ClassText TextState OtUfs Graph UnionSplit GraphText Object.

(** [dedge]: the operation, its identifier and the vertex it leads to. *)
Record dedge := mk_dedge { e_op : op; oid : bytes; adjv : nat }.

(** [vertice]; [content] is [None] until it is first written. *)
Record vertice := mk_vertice {
  content : option bytes; ledge : option dedge; redge : option dedge }.

Abbreviation space := (list vertice).

#[global] Instance dedge_eq_dec : EqDecision dedge.
Proof. solve_decision. Defined.
#[global] Instance vertice_eq_dec : EqDecision vertice.
Proof. solve_decision. Defined.

Definition createVertice : vertice := mk_vertice None None None.

Definition createOpEdge (type : Z) (t1 t2 : option bytes) (t3 : bytes) (v : nat) : dedge :=
  mk_dedge (mk_op type t1 t2) t3 v.

(** Replacing the operation of an edge. *)
Definition setOp (e : dedge) (o : op) : dedge := mk_dedge o (oid e) (adjv e).

(** Following a pointer to a vertex. *)
Definition vtx (sp : space) (q : nat) : out vertice :=
  match sp !! q with Some v => Ret v | None => Fail OutOfBounds end.

(** Writing a field through a pointer. *)
Definition set_content (sp : space) (q : nat) (s : bytes) : space :=
  alter (λ v, mk_vertice (Some s) (ledge v) (redge v)) q sp.
Definition set_ledge (sp : space) (q : nat) (e : dedge) : space :=
  alter (λ v, mk_vertice (content v) (Some e) (redge v)) q sp.
Definition set_redge (sp : space) (q : nat) (e : dedge) : space :=
  alter (λ v, mk_vertice (content v) (ledge v) (Some e)) q sp.

(** [listAddNodeTail(space,createVertice())]: the new list and the new vertex. *)
Definition addVertice (sp : space) : space * nat := (sp ++ [createVertice], length sp).

(** ** Locating vertices *)

Fixpoint locateL_loop (fuel : nat) (sp : space) (q : nat) : out nat :=
  match fuel with
  | 0 => Fail OutOfFuel
  | S fuel =>
    v ← vtx sp q;
    match ledge v, redge v with
    | None, None => Ret q
    | Some e, _ => locateL_loop fuel sp (adjv e)
    | None, Some e => locateL_loop fuel sp (adjv e)
    end
  end.

Definition locateLVertice (sp : space) (q : nat) : out nat := locateL_loop (S (length sp)) sp q.

Fixpoint oids_walk (fuel : nat) (sp : space) (q : nat) (oids : bytes) : out bytes :=
  match fuel with
  | 0 => Fail OutOfFuel
  | S fuel =>
    v ← vtx sp q;
    match ledge v, redge v with
    | None, None => Ret oids
    | Some e, _ => oids_walk fuel sp (adjv e) (sdscat (sdscat oids (str ",")) (oid e))
    | None, Some e => oids_walk fuel sp (adjv e) (sdscat (sdscat oids (str ",")) (oid e))
    end
  end.

Definition calculateOids (sp : space) (q : nat) (oids : bytes) : out bytes :=
  oids_walk (S (length sp)) sp q oids.

(** [e && findOid(ctx,e->oid)] *)
Definition edge_in (e : option dedge) (ctx : bytes) : option dedge :=
  match e with Some e => if findOid ctx (oid e) then Some e else None | None => None end.

Fixpoint locateR_loop (fuel : nat) (sp : space) (q : nat) (ctx t : bytes) : out (option nat) :=
  match fuel with
  | 0 => Fail OutOfFuel
  | S fuel =>
    if bool_decide (length t = length ctx) then
      if bool_decide (length t = 4) then
        Ret (if streq ctx (str "init") then Some q else None)
      else r ← oidscmp t ctx; Ret (if bool_decide (r = 0)%Z then Some q else None)
    else
      v ← vtx sp q;
      match edge_in (ledge v) ctx, edge_in (redge v) ctx with
      | Some e, _ => locateR_loop fuel sp (adjv e) ctx (sdscat (sdscat t (str ",")) (oid e))
      | None, Some e => locateR_loop fuel sp (adjv e) ctx (sdscat (sdscat t (str ",")) (oid e))
      | None, None => Ret None
      end
  end.

Definition locateRVertice (sp : space) (q : nat) (ctx : bytes) : out (option nat) :=
  locateR_loop (S (length sp)) sp q ctx (sdsnew (str "init")).

(** [locateVertice]; the head of the list is the initial state. *)
Definition locateVertice (sp : space) (ctx : option bytes) : out (option nat) :=
  if bool_decide (length sp ≠ 0) then
    match ctx with
    | None => q ← locateLVertice sp 0; Ret (Some q)
    | Some ctx => locateRVertice sp 0 ctx
    end
  else Ret None.

(** ** Forward spaces: every search terminates *)

(** Edges lead to vertices created later. *)
Definition forward (sp : space) : Prop :=
  ∀ q v e, sp !! q = Some v → ledge v = Some e ∨ redge v = Some e → q < adjv e < length sp.

(** The edge the searches take: left first. *)
Definition first_edge (v : vertice) : option dedge :=
  match ledge v with Some e => Some e | None => redge v end.

Inductive walk (sp : space) : nat → list dedge → nat → Prop :=
  | walk_end q v : sp !! q = Some v → first_edge v = None → walk sp q [] q
  | walk_step q v e es q' :
      sp !! q = Some v → first_edge v = Some e → walk sp (adjv e) es q' → walk sp q (e :: es) q'.

Lemma first_edge_forward sp q v e :
  forward sp → sp !! q = Some v → first_edge v = Some e → q < adjv e < length sp.
Proof.
  intros Hf Hq He. apply (Hf q v e Hq). unfold first_edge in He.
  destruct (ledge v); [left|right]; congruence.
Qed.

Lemma walk_exists sp q : forward sp → q < length sp → ∃ es q', walk sp q es q'.
Proof.
  intros Hf Hq. assert (∃ n, length sp - q < n) as [n Hn] by (eexists; apply Nat.lt_succ_diag_r).
  revert q Hq Hn. induction n as [|n IH]; intros q Hq Hn; [lia|].
  destruct (lookup_lt_is_Some_2 sp q Hq) as [v Hv].
  destruct (first_edge v) as [e|] eqn:He.
  - pose proof (first_edge_forward sp q v e Hf Hv He).
    destruct (IH (adjv e)) as (es & q' & Hw); [lia..|].
    exists (e :: es), q'. by econstructor.
  - exists [], q. by econstructor.
Qed.

Lemma walk_length sp q es q' :
  forward sp → walk sp q es q' → q + length es ≤ q' ∧ q' < length sp.
Proof.
  intros Hf. induction 1 as [q v Hv He|q v e es q' Hv He Hw IH]; simpl.
  - apply lookup_lt_Some in Hv. lia.
  - pose proof (first_edge_forward sp q v e Hf Hv He). lia.
Qed.

Lemma walk_leaf sp q es q' :
  walk sp q es q' → ∃ v, sp !! q' = Some v ∧ ledge v = None ∧ redge v = None.
Proof.
  induction 1 as [q v Hv He|]; [|done]. exists v. unfold first_edge in He.
  by destruct (ledge v), (redge v).
Qed.

Lemma walk_det sp q es q' es2 q2 : walk sp q es q' → walk sp q es2 q2 → es = es2 ∧ q' = q2.
Proof.
  intros Hw. revert es2 q2. induction Hw as [q v Hv He|q v e es q' Hv He Hw IH];
    intros es2 q2; inversion 1; simplify_eq; [done|].
  edestruct IH as [-> ->]; [done|]. done.
Qed.

Lemma locateL_walk fuel sp q es q' :
  walk sp q es q' → length es < fuel → locateL_loop fuel sp q = Ret q'.
Proof.
  intros Hw. revert fuel. induction Hw as [q v Hv He|q v e es q' Hv He Hw IH]; intros fuel Hlen;
    (destruct fuel as [|fuel]; [simpl in Hlen; lia|]); cbn [locateL_loop]; unfold vtx; rewrite Hv;
    bind_red; unfold first_edge in He.
  - by destruct (ledge v), (redge v).
  - simpl in Hlen. rewrite <-(IH fuel) by lia. by destruct (ledge v), (redge v); simplify_eq.
Qed.

(** The context a walk spells out: ",oid" per edge. *)
Definition ctx_of (es : list dedge) : bytes := concat ((λ e, COMMA :: oid e) <$> es).

Lemma oids_walk_spec fuel sp q es q' oids :
  walk sp q es q' → length es < fuel → Forall (λ e, nul_free (oid e)) es →
  oids_walk fuel sp q oids = Ret (oids ++ ctx_of es).
Proof.
  intros Hw. revert fuel oids. induction Hw as [q v Hv He|q v e es q' Hv He Hw IH];
    intros fuel oids Hlen Hnf;
    (destruct fuel as [|fuel]; [simpl in Hlen; lia|]); cbn [oids_walk]; unfold vtx; rewrite Hv;
    bind_red; unfold first_edge in He.
  - rewrite app_nil_r. by destruct (ledge v), (redge v).
  - simpl in Hlen. apply Forall_cons in Hnf as [Ho Hnf].
    assert (sdscat (sdscat oids (str ",")) (oid e) = oids ++ COMMA :: oid e) as E.
    { rewrite sdscat_nul_free by done. change (sdscat oids (str ",")) with (oids ++ [COMMA]).
      by rewrite <-app_assoc. }
    assert (oids_walk fuel sp (adjv e) (oids ++ COMMA :: oid e) = Ret (oids ++ ctx_of (e :: es))) as H.
    { rewrite IH by (done || lia). unfold ctx_of. simpl. f_equal. by rewrite <-app_assoc. }
    destruct (ledge v), (redge v); simplify_eq; by rewrite E.
Qed.

(** [locateVertice(space,NULL)] is defined and finds a vertex without edges. *)
Lemma locateLVertice_spec sp q :
  forward sp → q < length sp → ∃ es q', walk sp q es q' ∧ locateLVertice sp q = Ret q'.
Proof.
  intros Hf Hq. destruct (walk_exists sp q Hf Hq) as (es & q' & Hw). exists es, q'.
  split; [done|]. apply (locateL_walk _ _ _ es); [done|].
  pose proof (walk_length _ _ _ _ Hf Hw). lia.
Qed.

Lemma calculateOids_spec sp q es q' oids :
  forward sp → walk sp q es q' → Forall (λ e, nul_free (oid e)) es →
  calculateOids sp q oids = Ret (oids ++ ctx_of es).
Proof.
  intros Hf Hw Hnf. eapply oids_walk_spec; [done| |done].
  pose proof (walk_length _ _ _ _ Hf Hw). lia.
Qed.

(** ** Contexts locate the state they describe *)

Lemma sdscat_oid t o : nul_free o → sdscat (sdscat t (str ",")) o = t ++ COMMA :: o.
Proof.
  intros Ho. rewrite sdscat_nul_free by done. change (sdscat t (str ",")) with (t ++ [COMMA]).
  by rewrite <-app_assoc.
Qed.

Lemma init_nul_free : nul_free (str "init").
Proof. unfold nul_free. concrete. Qed.

Lemma nul_free_ctx es : Forall (λ e, nul_free (oid e)) es → nul_free (ctx_of es).
Proof.
  unfold ctx_of, nul_free. intros Hes. rewrite elem_of_concat.
  intros (l & (e & -> & He)%list_elem_of_fmap & Hin).
  rewrite Forall_forall in Hes. apply elem_of_cons in Hin as [Hin|Hin]; [done|].
  by apply (Hes e He).
Qed.

Lemma findOid_ctx pre es1 e es2 :
  nul_free pre → Forall (λ e, nul_free (oid e)) (es1 ++ e :: es2) →
  findOid (pre ++ ctx_of (es1 ++ e :: es2)) (oid e) = true.
Proof.
  intros Hp Hes. unfold findOid.
  assert (nul_free (oid e)) as He by (by apply Forall_app in Hes as [_ [? _]%Forall_cons]).
  rewrite sdscat_nul_free by done. change (str "," ++ oid e) with (COMMA :: oid e).
  replace (pre ++ ctx_of (es1 ++ e :: es2))
    with ((pre ++ ctx_of es1) ++ (COMMA :: oid e) ++ ctx_of es2).
  - apply strstr_infix. pose proof (nul_free_ctx _ Hes) as Hn. revert Hn.
    unfold ctx_of, nul_free in *. rewrite fmap_app, fmap_cons, concat_app. simpl. set_solver.
  - unfold ctx_of. rewrite fmap_app, fmap_cons, concat_app. simpl. by rewrite <-!app_assoc.
Qed.

Lemma oidscmp_refl s : s ≠ [] → oidscmp s s = Ret 0%Z.
Proof. intros Hs. rewrite oidscmp_perm by done. by rewrite decide_True. Qed.

Lemma locateR_walk fuel sp q es q' seen :
  walk sp q es q' → length es < fuel → Forall (λ e, nul_free (oid e)) (seen ++ es) →
  locateR_loop fuel sp q (str "init" ++ ctx_of (seen ++ es)) (str "init" ++ ctx_of seen) =
    Ret (Some q').
Proof.
  intros Hw. revert fuel seen. induction Hw as [q v Hv He|q v e es q' Hv He Hw IH];
    intros fuel seen Hlen Hnf; (destruct fuel as [|fuel]; [simpl in Hlen; lia|]);
    cbn [locateR_loop].
  - rewrite app_nil_r. rewrite bool_decide_eq_true_2 by done. case_bool_decide as H4.
    + destruct (ctx_of seen) eqn:E; [done|]. rewrite length_app in H4. simpl in H4. lia.
    + rewrite oidscmp_refl by done. done.
  - assert (ctx_of (seen ++ e :: es) = ctx_of seen ++ COMMA :: oid e ++ ctx_of es) as Ectx.
    { unfold ctx_of. rewrite fmap_app, fmap_cons, concat_app. done. }
    rewrite bool_decide_eq_false_2.
    2:{ rewrite Ectx, !length_app. simpl. lia. }
    unfold vtx. rewrite Hv. bind_red. simpl in Hlen.
    assert (nul_free (oid e)) as Ho by (by apply Forall_app in Hnf as [_ [? _]%Forall_cons]).
    specialize (IH fuel (seen ++ [e]) ltac:(lia)). rewrite <-app_assoc in IH.
    change ([e] ++ es) with (e :: es) in IH.
    specialize (IH Hnf).
    assert (str "init" ++ ctx_of (seen ++ [e]) =
      sdscat (sdscat (str "init" ++ ctx_of seen) (str ",")) (oid e)) as Et.
    { rewrite sdscat_oid by done. unfold ctx_of. rewrite fmap_app, concat_app. simpl.
      by rewrite app_nil_r. }
    rewrite Et in IH.
    pose proof (findOid_ctx (str "init") seen e es init_nul_free Hnf) as Hfind.
    unfold edge_in, first_edge in *. destruct (ledge v) as [el|] eqn:El.
    + injection He as ->. rewrite Hfind. exact IH.
    + rewrite He, Hfind. exact IH.
Qed.

(** Locating the context of the current state finds the current state. *)
Lemma locate_current sp es q' :
  forward sp → walk sp 0 es q' → Forall (λ e, nul_free (oid e)) es →
  calculateOids sp 0 (str "init") = Ret (str "init" ++ ctx_of es)
  ∧ locateVertice sp (Some (str "init" ++ ctx_of es)) = Ret (Some q')
  ∧ locateVertice sp None = Ret (Some q').
Proof.
  intros Hf Hw Hnf. pose proof (walk_length _ _ _ _ Hf Hw).
  split; [by eapply calculateOids_spec|]. unfold locateVertice, locateLVertice, locateRVertice.
  rewrite bool_decide_eq_true_2 by lia. split.
  - apply (locateR_walk (S (length sp)) sp 0 es q' []); [done|lia|done].
  - rewrite (locateL_walk _ sp 0 es q') by (done || lia). done.
Qed.

(** ** Properties *)

(** in a state space whose edges lead forward, the search for the current
    vertex ends, at a vertex without edges; the context computed for it is
    defined, and searching for that context finds the same vertex. *)
Theorem context_roundtrip sp :
  forward sp → sp ≠ [] →
  (∀ q v e, sp !! q = Some v → ledge v = Some e ∨ redge v = Some e → nul_free (oid e)) →
  ∃ q v ctx, locateVertice sp None = Ret (Some q)
    ∧ sp !! q = Some v ∧ ledge v = None ∧ redge v = None
    ∧ calculateOids sp 0 (str "init") = Ret ctx ∧ locateVertice sp (Some ctx) = Ret (Some q).
Proof.
  intros Hf Hne Hnf. destruct (walk_exists sp 0 Hf) as (es & q & Hw); [destruct sp; simpl; [done|lia]|].
  destruct (walk_leaf sp 0 es q Hw) as (v & Hv & Hl & Hr).
  destruct (locate_current sp es q Hf Hw) as (E1 & E2 & E3).
  - clear -Hw Hnf. induction Hw as [|q v e es q' Hv He Hw IH]; constructor; [|done].
    apply (Hnf q v e Hv). unfold first_edge in He. destruct (ledge v); [left|right]; congruence.
  - exists q, v, (str "init" ++ ctx_of es). by split_and!.
Qed.

(** Two concurrent operations and the squares that complete them. *)
Definition space4 : space :=
  [mk_vertice None (Some (createOpEdge OPTYPE_SPLIT (Some (str "a")) None (str "1_1") 1))
     (Some (createOpEdge OPTYPE_SPLIT (Some (str "b")) None (str "2_1") 2));
   mk_vertice None None (Some (createOpEdge OPTYPE_SPLIT (Some (str "b")) None (str "2_1") 3));
   mk_vertice None (Some (createOpEdge OPTYPE_SPLIT (Some (str "a")) None (str "1_1") 3)) None;
   mk_vertice None None None].

Lemma context_roundtrip_witness :
  ∃ q ctx, locateVertice space4 None = Ret (Some q)
    ∧ calculateOids space4 0 (str "init") = Ret ctx ∧ locateVertice space4 (Some ctx) = Ret (Some q).
Proof.
  destruct (context_roundtrip space4) as (q & v & ctx & E1 & _ & _ & _ & E2 & E3).
  - intros q v e Hq He. destruct q as [|[|[|[|q]]]]; simpl in Hq; simplify_eq;
      simpl in He; destruct He; simplify_eq; simpl; lia.
  - done.
  - intros q v e Hq He. destruct q as [|[|[|[|q]]]]; simpl in Hq; simplify_eq;
      simpl in He; destruct He; simplify_eq; unfold nul_free; concrete.
  - exists q, ctx. split; [exact E1|]. split; [exact E2|exact E3].
Defined.
