(* ===== verification/Ladder.v ===== *)
(** * Ladder: integrating an operation into the state space

    When an operation arrives at a vertex from which a chain of concurrent
    operations already leads on, [controlAlg] (src/src/ufs.c) walks the chain:
    for every concurrent operation it creates a vertex, transforms the two
    operations against each other with [otUfs] and executes the transformed new
    operation on the text of the next vertex.  On a slave the chain follows the
    left edges, on the master the right ones; the two loops are the same up to
    that choice of side.

    The theorems: the walk ends, every square it adds commutes (both paths
    through it reach the same classes), and the state space stays sound. *)
From S2P Require Import Prelude Sds Partition OtStr ClassText TextState OtUfs Graph UnionSplit GraphText Object Space.

Inductive side := LeftE | RightE.

Definition opp (d : side) : side := match d with LeftE => RightE | RightE => LeftE end.

Definition get_edge (d : side) (v : vertice) : option dedge :=
  match d with LeftE => ledge v | RightE => redge v end.

Definition set_edge (d : side) (sp : space) (q : nat) (e : dedge) : space :=
  match d with LeftE => set_ledge sp q e | RightE => set_redge sp q e end.

(** [q->ledge->..] and [q->redge->..]: the edge must be there. *)
Definition edge_of (d : side) (sp : space) (q : nat) : out dedge :=
  v ← vtx sp q; match get_edge d v with Some e => Ret e | None => Fail NullDeref end.

(** [q->content] once it has been written. *)
Definition content_of (sp : space) (q : nat) : out bytes :=
  v ← vtx sp q; deref (content v).

(** One iteration: [u] has an edge on side [d], [p] is where the new operation
    leads from [u]; the result is the space, the next [u] and the next [p]. *)
Definition rung (d : side) (sp : space) (u p len_ufs : nat) : out (space * nat * nat) :=
  let '(sp, pl) := addVertice sp in
  eu ← edge_of d sp u;
  let sp := set_edge d sp p (createOpEdge (-1) None None (oid eu) pl) in
  eu ← edge_of d sp u;
  let ul := adjv eu in
  eo ← edge_of (opp d) sp u;
  let sp := set_edge (opp d) sp ul (createOpEdge (-1) None None (oid eo) pl) in
  c ← content_of sp u;
  op1 ← edge_of d sp u;
  op2 ← edge_of (opp d) sp u;
  e1 ← edge_of d sp p;
  e2 ← edge_of (opp d) sp ul;
  '(o1, o2) ← otUfs c (e_op op1) (e_op op2) OT_UNION;
  let sp := set_edge d sp p (setOp e1 o1) in
  let sp := set_edge (opp d) sp ul (setOp e2 o2) in
  cl ← content_of sp ul;
  s ← updateVerticeUfsFromState cl (optype o2) (argv1 o2) (argv2 o2) len_ufs;
  Ret (set_content sp pl s, ul, pl).

(** The whole loop; [oids] collects the identifiers of the chain (the master
    sends them on, a slave does not need them). *)
Fixpoint ladder (fuel : nat) (d : side) (sp : space) (u p len_ufs : nat) (oids : bytes)
    : out (space * nat * nat * bytes) :=
  v ← vtx sp u;
  match get_edge d v with
  | None => Ret (sp, u, p, oids)
  | Some e =>
    match fuel with
    | 0 => Fail OutOfFuel
    | S fuel =>
      let oids := sdscat (sdscat oids (str ",")) (oid e) in
      '(sp, u, p) ← rung d sp u p len_ufs;
      ladder fuel d sp u p len_ufs oids
    end
  end.

(** ** Sound spaces *)

(** The content and the edges of a vertex. *)
Definition cont (sp : space) (q : nat) : option bytes := sp !! q ≫= content.
Definition edg (d : side) (sp : space) (q : nat) : option dedge := sp !! q ≫= get_edge d.

(** Every vertex has a well-formed text over the elements [E], and every edge
    carries a single-element operation that leads from the classes of its source
    to the classes of its target, and goes to a later vertex. *)
Definition text_of (E : list bytes) (sp : space) (q : nat) (s : bytes) : Prop :=
  cont sp q = Some s ∧ text_ok s ∧ concat (parse s) ≡ₚ E.

Definition leads_to (E : list bytes) (sp : space) (s : bytes) (e : dedge) : Prop :=
  ∃ vw s', op_on (rel_t s) (e_op e) vw ∧ simple vw ∧ text_of E sp (adjv e) s'
    ∧ rel_t s' ≡ aapply (abs_op vw) (rel_t s).

Record sound (E : list bytes) (sp : space) : Prop := {
  sound_forward : ∀ d q e, edg d sp q = Some e → q < adjv e < length sp;
  sound_text : ∀ q, q < length sp → ∃ s, text_of E sp q s;
  sound_edge : ∀ d q e s, edg d sp q = Some e → cont sp q = Some s → leads_to E sp s e;
}.

(** The edges from [q] along one side, to the vertex without one. *)
Inductive chain (d : side) (sp : space) : nat → list dedge → nat → Prop :=
  | chain_end q : q < length sp → edg d sp q = None → chain d sp q [] q
  | chain_step q e es q' :
      edg d sp q = Some e → chain d sp (adjv e) es q' → chain d sp q (e :: es) q'.

(** ** Lookup after an update *)

Lemma opp_opp d : opp (opp d) = d.
Proof. by destruct d. Qed.

Lemma edg_lt d sp q e : edg d sp q = Some e → q < length sp.
Proof. unfold edg. intros H. apply lookup_lt_is_Some_1. destruct (sp !! q); [done|discriminate H]. Qed.

Lemma cont_lt sp q s : cont sp q = Some s → q < length sp.
Proof. unfold cont. intros H. apply lookup_lt_is_Some_1. destruct (sp !! q); [done|discriminate H]. Qed.

Lemma edge_of_edg d sp q e : edg d sp q = Some e → edge_of d sp q = Ret e.
Proof. unfold edg, edge_of, vtx. destruct (sp !! q); simpl; [|done]. by intros ->. Qed.

Lemma content_of_cont sp q s : cont sp q = Some s → content_of sp q = Ret s.
Proof. unfold cont, content_of, vtx. destruct (sp !! q); simpl; [|done]. by intros ->. Qed.

Lemma length_set_edge d sp q e : length (set_edge d sp q e) = length sp.
Proof. destruct d; apply length_alter. Qed.

Lemma cont_set_edge d sp q e k : cont (set_edge d sp q e) k = cont sp k.
Proof.
  unfold cont. destruct d; simpl; unfold set_ledge, set_redge; rewrite list_lookup_alter;
    (destruct (decide _) as [->|]; [|done]); by destruct (sp !! k).
Qed.

Lemma edg_set_opp d sp q e k : edg (opp d) (set_edge d sp q e) k = edg (opp d) sp k.
Proof.
  unfold edg. destruct d; simpl; unfold set_ledge, set_redge; rewrite list_lookup_alter;
    (destruct (decide _) as [->|]; [|done]); by destruct (sp !! k).
Qed.

Lemma edg_opp_set d sp q e k : edg d (set_edge (opp d) sp q e) k = edg d sp k.
Proof. pose proof (edg_set_opp (opp d) sp q e k) as H. by rewrite opp_opp in H. Qed.

Lemma edg_set_edge d sp q e k :
  q < length sp → edg d (set_edge d sp q e) k = if decide (k = q) then Some e else edg d sp k.
Proof.
  intros [v Hq]%lookup_lt_is_Some_2. unfold edg.
  destruct d; simpl; unfold set_ledge, set_redge; rewrite list_lookup_alter.
  - destruct (decide (q = k)) as [->|Hn]; [by rewrite decide_True, Hq|by rewrite decide_False].
  - destruct (decide (q = k)) as [->|Hn]; [by rewrite decide_True, Hq|by rewrite decide_False].
Qed.

Lemma cont_set_content sp q s k :
  q < length sp → cont (set_content sp q s) k = if decide (k = q) then Some s else cont sp k.
Proof.
  intros [v Hq]%lookup_lt_is_Some_2. unfold cont, set_content. rewrite list_lookup_alter.
  destruct (decide (q = k)) as [->|Hn]; [by rewrite decide_True, Hq|by rewrite decide_False].
Qed.

Lemma edg_set_content d sp q s k : edg d (set_content sp q s) k = edg d sp k.
Proof.
  unfold edg, set_content. rewrite list_lookup_alter.
  destruct (decide _) as [->|]; [|done]. by destruct (sp !! k), d.
Qed.

Lemma length_set_content sp q s : length (set_content sp q s) = length sp.
Proof. apply length_alter. Qed.

(** A new vertex has neither content nor edges. *)
Lemma edg_add d sp k : edg d (sp ++ [createVertice]) k = edg d sp k.
Proof.
  unfold edg. destruct (decide (k < length sp)) as [Hk|Hk]; [by rewrite lookup_app_l|].
  rewrite lookup_app_r by lia. rewrite (lookup_ge_None_2 sp) by lia.
  destruct (k - length sp) as [|m]; simpl; [by destruct d|done].
Qed.

Lemma cont_add sp k : cont (sp ++ [createVertice]) k = cont sp k.
Proof.
  unfold cont. destruct (decide (k < length sp)) as [Hk|Hk]; [by rewrite lookup_app_l|].
  rewrite lookup_app_r by lia. rewrite (lookup_ge_None_2 sp) by lia.
  by destruct (k - length sp) as [|m].
Qed.

Lemma length_add sp : length (sp ++ [createVertice]) = S (length sp).
Proof. rewrite length_app. simpl. lia. Qed.

#[export] Hint Rewrite length_set_edge length_set_content length_add : space.
#[export] Hint Rewrite cont_set_edge cont_add edg_set_opp edg_opp_set edg_set_content edg_add opp_opp
  : space.

(** Evaluate the contents and edges of an updated space. *)
Ltac space_simpl :=
  repeat first
    [ progress autorewrite with space
    | rewrite edg_set_edge by (autorewrite with space; lia)
    | rewrite cont_set_content by (autorewrite with space; lia) ].

(** ** One rung *)

(** What a rung changes: a new last vertex with text [s], one edge of [p] and one
    edge of [ul] lead to it. *)
Record rung_frame (d : side) (sp : space) (p ul : nat) (e1 e2 : dedge) (s : bytes) (sp' : space)
    : Prop := {
  rf_length : length sp' = S (length sp);
  rf_cont k : cont sp' k = if decide (k = length sp) then Some s else cont sp k;
  rf_along k : edg d sp' k = if decide (k = p) then Some e1 else edg d sp k;
  rf_other k : edg (opp d) sp' k = if decide (k = ul) then Some e2 else edg (opp d) sp k;
}.

Lemma rung_spec d sp u p n eu eo cu cl o1 o2 s :
  edg d sp u = Some eu → edg (opp d) sp u = Some eo → cont sp u = Some cu →
  cont sp (adjv eu) = Some cl → p < length sp → p ≠ u → u ≠ adjv eu →
  otUfs cu (e_op eu) (e_op eo) OT_UNION = Ret (o1, o2) →
  updateVerticeUfsFromState cl (optype o2) (argv1 o2) (argv2 o2) n = Ret s →
  ∃ sp', rung d sp u p n = Ret (sp', adjv eu, length sp)
    ∧ rung_frame d sp p (adjv eu) (mk_dedge o1 (oid eu) (length sp))
        (mk_dedge o2 (oid eo) (length sp)) s sp'.
Proof.
  intros Hu Ho Hc Hcl Hp Hpu Hul Hot Hup.
  pose proof (edg_lt _ _ _ _ Hu). pose proof (cont_lt _ _ _ Hcl).
  unfold rung, addVertice.
  rewrite (edge_of_edg d _ u eu) by (by space_simpl). bind_red.
  rewrite (edge_of_edg d _ u eu) by (space_simpl; by rewrite decide_False). bind_red.
  rewrite (edge_of_edg (opp d) _ u eo) by (by space_simpl). bind_red.
  rewrite (content_of_cont _ u cu) by (by space_simpl). bind_red.
  rewrite (edge_of_edg d _ u eu) by (space_simpl; by rewrite decide_False). bind_red.
  rewrite (edge_of_edg (opp d) _ u eo) by (space_simpl; by rewrite decide_False). bind_red.
  rewrite (edge_of_edg d _ p (createOpEdge (-1) None None (oid eu) (length sp)))
    by (space_simpl; by rewrite decide_True). bind_red.
  rewrite (edge_of_edg (opp d) _ (adjv eu) (createOpEdge (-1) None None (oid eo) (length sp)))
    by (space_simpl; by rewrite decide_True). bind_red.
  rewrite Hot. bind_red.
  rewrite (content_of_cont _ (adjv eu) cl) by (by space_simpl). bind_red.
  rewrite Hup. bind_red. eexists. split; [reflexivity|]. split.
  - by space_simpl.
  - intros k. by space_simpl.
  - intros k. space_simpl. by destruct (decide (k = p)).
  - intros k. space_simpl. by destruct (decide (k = adjv eu)).
Qed.

(** The length of every text over the elements [E]: what [len_ufs] caches. *)
Definition tlen (E : list bytes) : nat := sum_list_with length E + (length E - 1).

Lemma text_of_length E sp q s : text_of E sp q s → length s = tlen E.
Proof. intros (_ & Hok & Hp). rewrite text_length by done. unfold tlen. by rewrite Hp. Qed.

Lemma text_of_frame E sp sp' q s :
  (∀ k, k < length sp → cont sp' k = cont sp k) → text_of E sp q s → text_of E sp' q s.
Proof.
  intros Hc (Hq & ? & ?). split_and!; try done. rewrite Hc; [done|]. by eapply cont_lt.
Qed.

Lemma leads_to_frame E sp sp' s e :
  (∀ k, k < length sp → cont sp' k = cont sp k) → leads_to E sp s e → leads_to E sp' s e.
Proof.
  intros Hc (vw & s' & ? & ? & Ht & ?). exists vw, s'. split_and!; try done.
  by eapply text_of_frame.
Qed.

(** Adding a last vertex with a good text, and edges to it that lead there, keeps
    a space sound. *)
Lemma sound_extend E sp sp' s :
  sound E sp → length sp' = S (length sp) →
  (∀ k, cont sp' k = if decide (k = length sp) then Some s else cont sp k) →
  text_ok s → concat (parse s) ≡ₚ E →
  (∀ d k e, edg d sp' k = Some e →
     edg d sp k = Some e ∨
     (k < length sp ∧ adjv e = length sp ∧ ∀ c, cont sp k = Some c → leads_to E sp' c e)) →
  sound E sp'.
Proof.
  intros Hs Hlen Hc Hok Hp He.
  assert (∀ k, k < length sp → cont sp' k = cont sp k) as Hold.
  { intros k Hk. rewrite Hc, decide_False; [done|lia]. }
  split.
  - intros d q e [H|(Hq & -> & _)]%He; [|lia]. pose proof (sound_forward E sp Hs d q e H). lia.
  - intros q Hq. destruct (decide (q = length sp)) as [->|Hne].
    + exists s. split_and!; try done. by rewrite Hc, decide_True.
    + destruct (sound_text E sp Hs q) as [s' Ht]; [lia|]. exists s'. by eapply text_of_frame.
  - intros d q e c [H|(Hq & _ & Hl)]%He Hcq.
    + assert (q < length sp) by by eapply edg_lt. rewrite Hold in Hcq by done.
      eapply leads_to_frame; [done|]. by eapply sound_edge.
    + rewrite Hold in Hcq by done. by apply Hl.
Qed.

(** The state at the head of the loop: the new operation leads from [u] to [p]. *)
Record at_rung (E : list bytes) (d : side) (sp : space) (u p : nat) (eo : dedge) : Prop := {
  ar_sound : sound E sp;
  ar_other : edg (opp d) sp u = Some eo;
  ar_adj : adjv eo = p;
  ar_fresh : edg d sp p = None;
}.

Lemma rung_sound E d sp u p eo eu :
  at_rung E d sp u p eo → edg d sp u = Some eu → adjv eu ≠ p →
  ∃ sp' e1 e2 s cu, rung d sp u p (tlen E) = Ret (sp', adjv eu, length sp)
    ∧ rung_frame d sp p (adjv eu) e1 e2 s sp'
    ∧ cont sp u = Some cu ∧ otUfs cu (e_op eu) (e_op eo) OT_UNION = Ret (e_op e1, e_op e2)
    ∧ oid e1 = oid eu ∧ adjv e1 = length sp ∧ oid e2 = oid eo
    ∧ optype (e_op e2) = optype (e_op eo)
    ∧ at_rung E d sp' (adjv eu) (length sp) e2.
Proof.
  intros [Hs Ho <- Hfr] Hu Hne.
  pose proof (sound_forward E sp Hs _ _ _ Hu) as Fu.
  pose proof (sound_forward E sp Hs _ _ _ Ho) as Fo.
  destruct (sound_text E sp Hs u) as (cu & Tu); [lia|]. pose proof Tu as (Cu & Oku & _).
  destruct (sound_edge E sp Hs d u eu cu Hu Cu) as (v1 & cl & O1 & S1 & Tl & Rl).
  destruct (sound_edge E sp Hs (opp d) u eo cu Ho Cu) as (v2 & cp & O2 & S2 & Tp & Rp).
  destruct (tp1_square cu (e_op eu) v1 (e_op eo) v2) as (o1 & v1' & o2 & v2' & Hot & (P1 & Q1 & _) & (P2 & Q2 & _) & Heq);
    try done.
  rewrite <-Rl in P2. rewrite <-Rp in P1. rewrite <-Rl, <-Rp in Heq.
  pose proof Tl as (Cl & Okl & El). pose proof Tp as (Cp & Okp & Ep).
  destruct (exec_text_spec cl o2 v2' Okl P2) as (s & Es & Oks & Rs & Hlen & Hcc).
  unfold exec in Es. rewrite (text_of_length E sp (adjv eu) cl Tl) in Es.
  destruct (rung_spec d sp u (adjv eo) (tlen E) eu eo cu cl o1 o2 s) as (sp' & Er & F);
    try done; [lia..|].
  exists sp', (mk_dedge o1 (oid eu) (length sp)), (mk_dedge o2 (oid eo) (length sp)), s, cu.
  split_and!; try done.
  { apply (otUfs_types cu (e_op eu) (e_op eo) o1 o2); [by eapply op_on_type..|done]. }
  destruct F as [Fl Fc Fa Fo'].
  assert (text_of E sp' (length sp) s) as Ts.
  { split_and!; [by rewrite Fc, decide_True|done|by rewrite Hcc]. }
  assert (sound E sp') as Hs'.
  { apply (sound_extend E sp sp' s); try done; [by rewrite Hcc|].
    assert (∀ k e, edg d sp' k = Some e → edg d sp k = Some e ∨
      (k < length sp ∧ adjv e = length sp ∧ ∀ c, cont sp k = Some c → leads_to E sp' c e)) as Ha.
    { intros k e. rewrite Fa. destruct (decide (k = adjv eo)) as [->|]; [|by left].
      intros [= <-]. right. split_and!; [lia|done|]. intros c Hc. simplify_eq.
      exists v1', s. split_and!; try done. by rewrite Rs. }
    assert (∀ k e, edg (opp d) sp' k = Some e → edg (opp d) sp k = Some e ∨
      (k < length sp ∧ adjv e = length sp ∧ ∀ c, cont sp k = Some c → leads_to E sp' c e)) as Hb.
    { intros k e. rewrite Fo'. destruct (decide (k = adjv eu)) as [->|]; [|by left].
      intros [= <-]. right. split_and!; [lia|done|]. intros c Hc. simplify_eq.
      exists v2', s. by split_and!. }
    intros d' k e. destruct d, d'; auto. }
  split; [done|by rewrite Fo', decide_True|done|].
  rewrite Fa, decide_False by lia. unfold edg. by rewrite lookup_ge_None_2.
Qed.

(** ** The operation at the end of the chain *)

(** The operations of a chain, each with the text of the state it starts from. *)
Fixpoint states_along (sp : space) (u : nat) (es : list dedge) : list (bytes * op) :=
  match es with
  | [] => []
  | e :: es => (default [] (cont sp u), e_op e) :: states_along sp (adjv e) es
  end.

(** Transforming an operation against them one after the other. *)
Fixpoint transformed (l : list (bytes * op)) (o : op) : out op :=
  match l with
  | [] => Ret o
  | (s, o1) :: l => '(_, o2) ← otUfs s o1 o OT_UNION; transformed l o2
  end.

Lemma states_along_frame sp sp' u es :
  cont sp' u = cont sp u → (∀ e, e ∈ es → cont sp' (adjv e) = cont sp (adjv e)) →
  states_along sp' u es = states_along sp u es.
Proof.
  revert u. induction es as [|e es IH]; intros u Hu Hes; [done|]. simpl. rewrite Hu. f_equal.
  apply IH; intros; apply Hes; set_solver.
Qed.

(** ** The whole ladder *)

Lemma chain_frame d sp sp' q es q' :
  chain d sp q es q' → length sp ≤ length sp' →
  edg d sp' q = edg d sp q → (∀ e, e ∈ es → edg d sp' (adjv e) = edg d sp (adjv e)) →
  chain d sp' q es q'.
Proof.
  intros Hc Hlen. induction Hc as [q Hq He|q e es q' He Hc IH]; intros Hq' Hes.
  - constructor; [lia|congruence].
  - constructor; [congruence|]. apply IH; intros; apply Hes; set_solver.
Qed.

Lemma chain_lt E d sp q es q' :
  sound E sp → chain d sp q es q' →
  q + length es ≤ q' ∧ q' < length sp ∧ Forall (λ e, q < adjv e ≤ q') es.
Proof.
  intros Hs. induction 1 as [q Hq He|q e es q' He Hc IH]; simpl; [split_and!; [lia|done|done]|].
  destruct IH as (? & ? & Hes). pose proof (sound_forward E sp Hs _ _ _ He).
  split_and!; [lia|done|]. constructor; [lia|].
  eapply Forall_impl; [exact Hes|]. simpl. lia.
Qed.

(** What the ladder leaves alone: texts, edges along the chain's side (of [p]
    apart), and the other edges of vertices that are not on the chain. *)
Record ladder_frame (d : side) (sp : space) (p : nat) (es : list dedge) (sp' : space) : Prop := {
  lf_length : length sp ≤ length sp';
  lf_cont k : k < length sp → cont sp' k = cont sp k;
  lf_along k : k < length sp → k ≠ p → edg d sp' k = edg d sp k;
  lf_other k : k < length sp → k ∉ adjv <$> es → edg (opp d) sp' k = edg (opp d) sp k;
}.

Lemma ladder_frame_step d sp p e es e1 e2 s sp1 sp2 :
  rung_frame d sp p (adjv e) e1 e2 s sp1 → ladder_frame d sp1 (length sp) es sp2 →
  ladder_frame d sp p (e :: es) sp2.
Proof.
  intros [L1 C1 A1 O1] [L2 C2 A2 O2]. split.
  - lia.
  - intros k Hk. rewrite C2, C1, decide_False by lia. done.
  - intros k Hk Hp. rewrite A2, A1, decide_False by lia. done.
  - intros k Hk Hn. rewrite fmap_cons in Hn. apply not_elem_of_cons in Hn as [Hne Hn].
    rewrite O2, O1, decide_False by (done || lia). done.
Qed.

(** The identifiers of all edges are C strings. *)
Definition oids_ok (sp : space) : Prop := ∀ d k e, edg d sp k = Some e → nul_free (oid e).

Lemma rung_oids d sp p ul e1 e2 s sp' :
  oids_ok sp → rung_frame d sp p ul e1 e2 s sp' → nul_free (oid e1) → nul_free (oid e2) →
  oids_ok sp'.
Proof.
  intros Ho [_ _ Fa Fo] H1 H2 d' k e.
  assert (d' = d ∨ d' = opp d) as [-> | ->] by (destruct d, d'; auto).
  - rewrite Fa. destruct (decide _); [by intros [= <-]|apply Ho].
  - rewrite Fo. destruct (decide _); [by intros [= <-]|apply Ho].
Qed.

(** A chain of vertices without edges on the other side: what the ladder builds
    next to the chain it walks. *)
Definition bare (d : side) (sp : space) (q : nat) (es : list dedge) (q' : nat) : Prop :=
  chain d sp q es q' ∧ edg (opp d) sp q = None ∧ Forall (λ e, edg (opp d) sp (adjv e) = None) es.

(** The ladder terminates within its fuel; afterwards the space is sound and the
    transformed new operation leads from the end of the chain to a fresh vertex. *)
Lemma ladder_spec E d es : ∀ fuel sp u p q eo oids,
  at_rung E d sp u p eo → chain d sp u es q → p ∉ adjv <$> es →
  edg (opp d) sp p = None → length es ≤ fuel → oids_ok sp →
  ∃ sp' p' e', ladder fuel d sp u p (tlen E) oids = Ret (sp', q, p', oids ++ ctx_of es)
    ∧ ladder_frame d sp p es sp'
    ∧ at_rung E d sp' q p' e' ∧ oid e' = oid eo ∧ optype (e_op e') = optype (e_op eo) ∧ oids_ok sp'
    ∧ edg d sp' q = None ∧ edg (opp d) sp' p' = None ∧ (∃ es2, bare d sp' p es2 p')
    ∧ transformed (states_along sp u es) (e_op eo) = Ret (e_op e').
Proof.
  induction es as [|e es IH]; intros fuel sp u p q eo oids Hr Hc Hp Hpo Hfuel Hnf.
  - inversion Hc as [? Hq Hn|]; subst.
    exists sp, p, eo. split_and!; try done.
    2:{ exists []. pose proof Hr as [Hs Ho _ Hfr]. split_and!; try done.
        constructor; [|done]. rewrite <-(ar_adj _ _ _ _ _ _ Hr). apply (sound_forward E sp Hs _ _ _ Ho). }
    unfold edg in Hn. destruct (lookup_lt_is_Some_2 sp q Hq) as [v Hv]. rewrite Hv in Hn.
    simpl in Hn. unfold ctx_of. simpl. rewrite app_nil_r.
    destruct fuel; cbn [ladder]; unfold vtx; rewrite Hv; bind_red; by rewrite Hn.
  - inversion Hc as [|? ? ? ? He Hc']; subst. destruct fuel as [|fuel]; [simpl in Hfuel; lia|].
    simpl in Hp. apply not_elem_of_cons in Hp as [Hpe Hp].
    pose proof (Hnf _ _ _ He) as Hoid.
    pose proof Hr as [Hs Ho Hadj Hfr].
    destruct (chain_lt E d sp u (e :: es) q Hs Hc) as (_ & Hql & Hes).
    apply Forall_cons in Hes as [Hu Hes].
    destruct (rung_sound E d sp u p eo e Hr He) as (sp1 & e1 & e2 & s & cu & Er & F & Hcu & Hot & Eoid1 & Eadj1 & Eoid & Etype & Hr1);
      [congruence|].
    pose proof F as [L1 C1 A1 O1].
    assert (p < length sp) as Hplt
      by (rewrite <-Hadj; apply (sound_forward E sp Hs _ _ _ Ho)).
    assert (length sp ∉ adjv <$> es) as Hnew.
    { intros (x & Ex & Hx)%list_elem_of_fmap. rewrite Forall_forall in Hes.
      pose proof (Hes x Hx). lia. }
    destruct (IH fuel sp1 (adjv e) (length sp) q e2 (sdscat (sdscat oids (str ",")) (oid e)))
      as (sp2 & p' & e' & El & F2 & Hr2 & Eoid2 & Etype2 & Ho2 & Hq2 & Hp2 & (es2 & Hb1 & Hb2 & Hb3) & Hx2); try done.
    + apply (chain_frame d sp); try done; [lia|rewrite A1, decide_False by congruence; done|].
      intros x Hx. rewrite A1, decide_False; [done|]. intros E'. apply Hp.
      rewrite <-E'. by apply list_elem_of_fmap_2.
    + rewrite O1, decide_False by lia. unfold edg. by rewrite lookup_ge_None_2.
    + simpl in Hfuel. lia.
    + eapply rung_oids; try done; [by rewrite Eoid1|]. rewrite Eoid. by apply (Hnf (opp d) u).
    + pose proof (ladder_frame_step _ _ _ _ _ _ _ _ _ _ F F2) as F3.
      exists sp2, p', e'. split_and!; try done; [|congruence..| |].
      3:{ cbn [states_along transformed]. rewrite Hcu. simpl. rewrite Hot. bind_red.
          rewrite <-Hx2. f_equal. symmetry. rewrite Forall_forall in Hes.
          apply states_along_frame; [|intros x Hx; pose proof (Hes x Hx)];
            rewrite C1, decide_False by lia; done. }
      2:{ exists (e1 :: es2). destruct F2 as [_ _ A2 _]. destruct F3 as [_ _ _ O3]. split_and!.
          - constructor; [|by rewrite Eadj1]. by rewrite A2, A1, decide_True by lia.
          - rewrite O3; [done|done|]. set_solver.
          - constructor; [by rewrite Eadj1|done]. }
      cbn [ladder]. unfold edg in He. unfold vtx. destruct (sp !! u) as [v|]; [|done].
      simpl in He. bind_red. rewrite He, Er. bind_red. rewrite El.
      rewrite sdscat_oid by done. unfold ctx_of. simpl. by rewrite <-app_assoc.
Qed.
