(* ===== verification/Commands.v ===== *)
(** * Commands: argument checks and the execution of operations

    The state of a server as far as union-find-split objects are concerned,
    the client that issued a command, and the routines of src/src/ufs.c that
    [controlAlg] is built from: [getUfs], [unionProc], [splitProc] and the checks
    of the arguments of a locally generated operation. *)
From S2P Require Import Prelude Sds Partition OtStr ClassText TextState OtUfs Graph UnionSplit GraphText Object Space Ladder.

(** The replies of the commands (the [shared.*] objects of server.c). *)
Inductive reply :=
  | ROk
  | RArgv1NoSameClass
  | RArgv2NoSameClass
  | RArgv12NoSameClass
  | RSplitNoSameClass
  | RNoExistElem
  | RNoExistAllElems
  | RExistUfs
  | RBulk (b : bytes).

#[global] Instance reply_eq_dec : EqDecision reply.
Proof. solve_decision. Defined.

(** The fields of [client] the commands use: the argument strings, whether the
    client is the link to the master ([CLIENT_MASTER]), the port a slave
    announced, [flag_ufs] and the replies sent. *)
Record client := mk_client {
  c_argv : list bytes; c_master : bool; c_port : Z; flag_ufs : Z; c_replies : list reply }.

Definition set_flag (c : client) (f : Z) : client :=
  mk_client (c_argv c) (c_master c) (c_port c) f (c_replies c).
Definition addReply (c : client) (r : reply) : client :=
  mk_client (c_argv c) (c_master c) (c_port c) (flag_ufs c) (c_replies c ++ [r]).
Definition set_argv (c : client) (l : list bytes) : client :=
  mk_client l (c_master c) (c_port c) (flag_ufs c) (c_replies c).

(** [c->argv[i]->ptr], and the last argument, which is the key. *)
Definition arg (c : client) (i : nat) : out bytes :=
  match c_argv c !! i with Some a => Ret a | None => Fail OutOfBounds end.
Definition key_arg (c : client) : out bytes := arg c (length (c_argv c) - 1).

(** [rewriteClientCommandArgument(c,i,newval)]: replaces an argument or appends
    one; writing further away would leave an uninitialised hole. *)
Definition rewriteClientCommandArgument (c : client) (i : nat) (newval : bytes) : out client :=
  if bool_decide (i < length (c_argv c)) then Ret (set_argv c (<[i := newval]> (c_argv c)))
  else if bool_decide (i = length (c_argv c)) then Ret (set_argv c (c_argv c ++ [newval]))
  else Fail OutOfBounds.

(** ** Server state *)

(** A slave's state space for one object, and the master's state space for one
    slave and one object (src/src/ot.h). *)
Record cverlist := mk_cverlist { cv_key : bytes; cv_len_ufs : nat; cv_vertices : space }.
Record verlist := mk_verlist {
  vl_key : bytes; vl_id : Z; vl_len_ufs : nat; vl_vertices : space }.

Definition createCVerlist (key : bytes) : cverlist := mk_cverlist (sdsnew key) 0 [].
Definition createVerlist (id : Z) (key : bytes) : verlist := mk_verlist (sdsnew key) id 0 [].
Definition setCverlistUfsLen (c : cverlist) (len : nat) : cverlist :=
  mk_cverlist (cv_key c) len (cv_vertices c).
Definition setVerlistUfsLen (v : verlist) (len : nat) : verlist :=
  mk_verlist (vl_key v) (vl_id v) len (vl_vertices v).

(** [None] is a list that has not been created. *)
Record server := mk_server {
  masterhost : bool; port : Z; ufslist : option (list cudGraph); op_num : Z;
  cspacelist : option (list cverlist); sspacelist : option (list verlist);
  slaves : option (list Z) }.

Definition set_ufslist (st : server) (l : list cudGraph) : server :=
  mk_server (masterhost st) (port st) (Some l) (op_num st) (cspacelist st) (sspacelist st) (slaves st).
Definition set_op_num (st : server) (n : Z) : server :=
  mk_server (masterhost st) (port st) (ufslist st) n (cspacelist st) (sspacelist st) (slaves st).
Definition set_cspaces (st : server) (l : list cverlist) : server :=
  mk_server (masterhost st) (port st) (ufslist st) (op_num st) (Some l) (sspacelist st) (slaves st).
Definition set_sspaces (st : server) (l : list verlist) : server :=
  mk_server (masterhost st) (port st) (ufslist st) (op_num st) (cspacelist st) (Some l) (slaves st).

(** Walking a list that may be NULL. *)
Definition list_of {A} (l : option (list A)) : out (list A) :=
  match l with Some l => Ret l | None => Fail NullDeref end.

(** A pointer into a list, [None] for NULL. *)
Definition at_ {A} (l : list A) (p : option nat) : out A :=
  match p with
  | Some i => match l !! i with Some a => Ret a | None => Fail OutOfBounds end
  | None => Fail NullDeref
  end.

(** [getUfs(key)]: the first object with the key, NULL when there is none. *)
Definition getUfs (st : server) (k : bytes) : out (option nat) :=
  l ← list_of (ufslist st);
  Ret (fst <$> list_find (λ g, streq (key g) k = true) l).

(** Dereferencing the result of [getUfs]. *)
Definition ufs_at (st : server) (p : option nat) : out cudGraph :=
  l ← list_of (ufslist st); at_ l p.

(** Storing a graph back through its pointer. *)
Definition set_ufs (st : server) (p : option nat) (g : cudGraph) : server :=
  match p, ufslist st with
  | Some i, Some l => set_ufslist st (<[i := g]> l)
  | _, _ => st
  end.

Definition locateCVerlist (st : server) (k : bytes) : out (option nat) :=
  l ← list_of (cspacelist st);
  Ret (fst <$> list_find (λ s, sdscmp (cv_key s) k = 0%Z) l).

Definition existCVerlist (st : server) (k : bytes) : out bool :=
  l ← list_of (cspacelist st);
  Ret (bool_decide (is_Some (list_find (λ s, sdscmp (cv_key s) k = 0%Z) l))).

Definition locateVerlist (st : server) (id : Z) (k : bytes) : out (option nat) :=
  l ← list_of (sspacelist st);
  Ret (fst <$> list_find (λ s, vl_id s = id ∧ sdscmp (vl_key s) k = 0%Z) l).

Definition getSpace (st : server) (k : bytes) : out (option space) :=
  l ← list_of (cspacelist st);
  Ret (cv_vertices ∘ snd <$> list_find (λ s, sdscmp (cv_key s) k = 0%Z) l).

Definition getCverlistVertices (st : server) (p : option nat) : out space :=
  l ← list_of (cspacelist st); s ← at_ l p; Ret (cv_vertices s).

(** ** Executing operations *)

Definition done_ok (c : client) : client := addReply (set_flag c 1) ROk.

Definition unionProc (st : server) (c : client) (argv1 argv2 : bytes) : out (server * client) :=
  k ← key_arg c;
  ufs ← getUfs st k;
  if streq argv1 STAR || streq argv2 STAR then Ret (st, done_ok c)
  else
    g ← ufs_at st ufs;
    g ← union_graph g argv1 argv2;
    Ret (set_ufs st ufs g, done_ok c).

Definition splitProc (st : server) (c : client) (argv1 : bytes) : out (server * client) :=
  k ← key_arg c;
  ufs ← getUfs st k;
  if negb (strchr argv1 COMMA) && streq argv1 STAR then Ret (st, done_ok c)
  else
    g ← ufs_at st ufs;
    g ← split_graph g argv1;
    Ret (set_ufs st ufs g, done_ok c).

(** ** Checking arguments *)

(** [c->flag_ufs = 0; addReply(c,r); return Argv_ERR;] and [return Argv_OK;] *)
Definition argv_err (c : client) (r : reply) : out (client * bool) :=
  Ret (addReply (set_flag c 0) r, false).
Definition argv_ok (c : client) : out (client * bool) := Ret (c, true).

Definition checkUnionArgv (st : server) (c : client) : out (client * bool) :=
  a1 ← arg c 1; a2 ← arg c 2;
  k ← key_arg c;
  p ← getUfs st k;
  if streq a1 STAR || streq a2 STAR then
    b1 ← (if streq a1 STAR then Ret true else g ← ufs_at st p; existElement g a1);
    if negb b1 then argv_err c RNoExistAllElems
    else
      b2 ← (if streq a2 STAR then Ret true else g ← ufs_at st p; existElement g a2);
      if negb b2 then argv_err c RNoExistAllElems else argv_ok c
  else
    g ← ufs_at st p;
    match arglen a1, arglen a2 with
    | 1, 1 =>
      b1 ← existElement g a1;
      b2 ← (if b1 : bool then existElement g a2 else Ret false);
      if b2 : bool then argv_ok c else argv_err c RNoExistAllElems
    | _, 1 =>
      elements ← split1 a1 (strlen a1) COMMA;
      con ← isConnected g elements;
      if negb con then argv_err c RArgv1NoSameClass
      else
        b1 ← existElements g elements;
        b2 ← (if b1 : bool then existElement g a2 else Ret false);
        if b2 : bool then argv_ok c else argv_err c RNoExistAllElems
    | 1, _ =>
      elements ← split1 a2 (strlen a2) COMMA;
      con ← isConnected g elements;
      if negb con then argv_err c RArgv2NoSameClass
      else
        b1 ← existElements g elements;
        b2 ← (if b1 : bool then existElement g a1 else Ret false);
        if b2 : bool then argv_ok c else argv_err c RNoExistAllElems
    | _, _ =>
      elements1 ← split1 a1 (strlen a1) COMMA;
      elements2 ← split1 a2 (strlen a2) COMMA;
      con1 ← isConnected g elements1;
      both ← (if con1 : bool then Ret false else con2 ← isConnected g elements2; Ret (negb con2));
      if both : bool then argv_err c RArgv12NoSameClass
      else if negb con1 then argv_err c RArgv1NoSameClass
      else
        con2 ← isConnected g elements2;
        if negb con2 then argv_err c RArgv2NoSameClass
        else
          b1 ← existElements g elements1;
          b2 ← (if b1 : bool then existElements g elements2 else Ret false);
          if b2 : bool then argv_ok c else argv_err c RNoExistAllElems
    end.

Definition checkSplitArgv (st : server) (c : client) : out (client * bool) :=
  a1 ← arg c 1;
  k ← key_arg c;
  p ← getUfs st k;
  g ← ufs_at st p;
  if strchr a1 COMMA then
    elements ← split1 a1 (strlen a1) COMMA;
    con ← isConnected g elements;
    if negb con then argv_err c RSplitNoSameClass
    else
      b ← existElements g elements;
      if b : bool then argv_ok c else argv_err c RNoExistAllElems
  else
    b ← existElement g a1;
    if b : bool then argv_ok c else argv_err c RNoExistElem.

Definition checkArgv (st : server) (c : client) : out (client * bool) :=
  name ← arg c 0;
  if streq name (str "union") then checkUnionArgv st c else checkSplitArgv st c.
