(* ===== verification/Query.v ===== *)
(** * Query: the umembers and find commands

    [umembersCommand] prints all classes of an object, [findCommand] the class of
    one element; both sort the members by their position ([quickSort]). *)
From Stdlib Require Import Ascii.
From S2P Require Import Prelude Sds Partition OtStr ClassText TextState OtUfs Graph Sorts UnionSplit GraphText Object Space Ladder Commands.

(** ** The commands *)

(** The text of the class of vertex [i], members sorted. *)
Definition member_text (g : cudGraph) (i : Z) : out bytes :=
  v ← vget g i;
  let l := sdsnew (data v) in
  let l := if bool_decide (adj v ≠ []) then sdscat l (str ",") else l in
  l ← (if bool_decide (adj v ≠ []) then cat_adj g l (adj v) else Ret l);
  elements ← split1 l (length l) COMMA;
  elements ← quickSort g elements 0 (Z.of_nat (length elements) - 1);
  Ret (cat_list (sdsclear l) elements).

Definition umembersCommand (st : server) (c : client) : out client :=
  k ← arg c 1;
  p ← getUfs st k;
  g ← ufs_at st p;
  s ← out_fold (print_step member_text g) (mk_print 0 false sdsempty) (seq 0 (vertexnum g));
  Ret (addReply c (RBulk (print_end g s))).

(** Appending all elements, without a separator. *)
Definition cat_all (acc : bytes) (l : list bytes) : bytes := fold_left sdscat l acc.

Definition findCommand (st : server) (c : client) : out client :=
  k ← arg c 2;
  p ← getUfs st k;
  x ← arg c 1;
  g ← ufs_at st p;
  i ← locateVex g x;
  let l := sdscat (sdscat sdsempty x) (str ",") in
  v ← vget g i;
  l ← (if bool_decide (adj v ≠ []) then cat_adj g l (adj v) else Ret l);
  elements ← split1 l (length l) COMMA;
  elements ← quickSort g elements 0 (Z.of_nat (length elements) - 1);
  Ret (addReply c (RBulk (cat_all (sdsclear l) elements))).

(** ** quickSort against a reference sort *)

Section reference.
Context (g : cudGraph) (Hwf : wf g).

#[local] Instance pos_le_total : Total (pos_le g).
Proof. intros x y. unfold pos_le. lia. Qed.
#[local] Instance pos_le_trans : Transitive (pos_le g).
Proof. intros x y z. unfold pos_le. lia. Qed.

(** Merge sort by position, the reference. *)
Definition by_position (l : list bytes) : list bytes := merge_sort (pos_le g) l.

Lemma by_position_perm l : by_position l ≡ₚ l.
Proof. apply merge_sort_Permutation. Qed.

Lemma by_position_sorted l : sorted g (by_position l).
Proof. apply StronglySorted_merge_sort; apply _. Qed.

Lemma sorts_by_position l r :
  Forall (λ x, x ∈ names g) l → sorts g l r → r = Ret (by_position l).
Proof.
  intros Hin (l' & -> & Hp & Hs). f_equal. apply (sorted_unique g Hwf); [by rewrite Hp|..].
  - by rewrite by_position_perm.
  - done.
  - apply by_position_sorted.
Qed.

Lemma in_names_nul_free l : Forall (λ x, x ∈ names g) l → Forall nul_free l.
Proof. intros Hl. eapply Forall_impl; [exact Hl|]. intros x. by apply names_nul_free. Qed.

Lemma quickSort_by_position l :
  Forall (λ x, x ∈ names g) l →
  quickSort g l 0 (Z.of_nat (length l) - 1) = Ret (by_position l).
Proof.
  intros Hin. apply sorts_by_position; [done|]. apply quickSort_sorts; [done|].
  by apply in_names_nul_free.
Qed.
End reference.

(** ** umembers *)

Section umembers.
Context (g : cudGraph) (Hok : graph_ok g).

Definition sorted_class (i : Z) : list bytes := by_position g (vname g <$> iclass g i).

Lemma iclass_in_names i : valid g i → Forall (λ x, x ∈ names g) (vname g <$> iclass g i).
Proof.
  intros Hi. apply Forall_forall. intros x (k & -> & Hk)%list_elem_of_fmap.
  apply vname_in. by eapply iclass_valid.
Qed.

Lemma sorted_class_ok i : valid g i → class_ok (sorted_class i).
Proof.
  intros Hi. destruct (iclass_names_ok g Hok i Hi) as [Hne Hn]. unfold sorted_class. split.
  - intros E. pose proof (by_position_perm g (vname g <$> iclass g i)) as Hp. rewrite E in Hp.
    apply Permutation_nil in Hp. done.
  - by rewrite by_position_perm.
Qed.

Lemma member_text_spec i :
  valid g i → member_text g i = Ret (render_class (sorted_class i)).
Proof.
  pose proof Hok as [Hwf _]. intros Hi. unfold member_text.
  destruct (vget_valid g i Hi) as (v & E & _ & Ha & _). rewrite E. bind_red.
  rewrite <-(vname_vget g i v E), <-Ha.
  pose proof (iclass_names_ok g Hok i Hi) as Hc.
  rewrite sdsnew_nul_free by (by apply name_nul_free, vname_name_ok).
  assert ((if bool_decide (adjl g i ≠ [])
    then cat_adj g (if bool_decide (adjl g i ≠ []) then sdscat (vname g i) (str ",") else vname g i) (adjl g i)
    else Ret (if bool_decide (adjl g i ≠ []) then sdscat (vname g i) (str ",") else vname g i)) =
    Ret (render_class (vname g <$> iclass g i))) as ->.
  { unfold iclass. rewrite fmap_cons. case_bool_decide as Hne.
    - rewrite cat_adj_spec by (done || by apply adj_valid). f_equal. unfold render_class.
      rewrite (join_cons COMMA (vname g i)) by (by intros ?%fmap_nil_inv).
      change (sdscat (vname g i) (str ",")) with (vname g i ++ [COMMA]). by rewrite <-app_assoc.
    - rewrite Hne. done. }
  bind_red. rewrite split1_class by done. bind_red.
  rewrite quickSort_by_position by (done || by apply iclass_in_names). bind_red. f_equal.
  rewrite cat_list_spec; [done|]. destruct (sorted_class_ok i Hi) as [_ Hs].
  eapply Forall_impl; [exact Hs|]. apply name_nul_free.
Qed.

(** The classes in the order they are printed, members sorted. *)
Definition sorted_classes : list (list bytes) := by_position g <$> classes g.

Lemma umembers_text st c k p :
  arg c 1 = Ret k → getUfs st k = Ret p → ufs_at st p = Ret g → 2 ≤ vertexnum g →
  umembersCommand st c = Ret (addReply c (RBulk (render sorted_classes))).
Proof.
  intros Ha Hp Hg Hn. unfold umembersCommand. rewrite Ha. bind_red. rewrite Hp. bind_red.
  rewrite Hg. bind_red.
  destruct (print_spec g Hok member_text sorted_class) as (s & -> & E);
    [by apply member_text_spec|by apply sorted_class_ok|done|].
  bind_red. rewrite E. unfold sorted_classes, classes. by rewrite <-list_fmap_compose.
Qed.

Lemma sorted_classes_rel : rel_of sorted_classes ≡ rel_g g.
Proof.
  rewrite <-(classes_rel g Hok). intros x y. unfold rel_of, sorted_classes. split.
  - intros (c & (d & -> & Hd)%list_elem_of_fmap & Hx & Hy). exists d.
    by rewrite !by_position_perm in *.
  - intros (c & Hc & Hx & Hy). exists (by_position g c).
    split; [by apply list_elem_of_fmap_2|]. by rewrite !by_position_perm.
Qed.
End umembers.

(** ** find *)

Lemma cat_all_spec acc l : Forall nul_free l → cat_all acc l = acc ++ concat l.
Proof.
  unfold cat_all. intros Hl. revert acc.
  induction Hl as [|x l Hx Hl IH]; intros acc; simpl; [by rewrite app_nil_r|]. rewrite sdscat_nul_free, IH by done. by rewrite <-app_assoc.
Qed.

Section find_cmd.
Context (g : cudGraph) (Hok : graph_ok g) (st : server) (c : client) (k x : bytes) (p : option nat).
Context (Hk : arg c 2 = Ret k) (Hx : arg c 1 = Ret x) (Hp : getUfs st k = Ret p)
  (Hg : ufs_at st p = Ret g).

(** The empty name sorts before every element: [locateVex] answers -1. *)
Lemma find_single_sort :
  x ∈ names g → ∃ l, quickSort g [x; []] 0 1 = Ret l ∧ l ≡ₚ [x; []] ∧ Forall nul_free l.
Proof.
  pose proof Hok as [Hwf _]. intros Hin.
  assert (Forall nul_free [x; []]) as Hnf.
  { constructor; [by eapply names_nul_free|]. constructor; [unfold nul_free; set_solver|constructor]. }
  destruct (quickSort_sorts g Hwf [x; []] Hnf) as (l & E & Hpl & _).
  exists l. split_and!; [exact E|done|by rewrite Hpl].
Qed.

Lemma find_alone :
  x ∈ names g → adjl g (vpos g x) = [] → findCommand st c = Ret (addReply c (RBulk x)).
Proof.
  pose proof Hok as [Hwf _]. intros Hin Hadj. unfold findCommand.
  rewrite Hk. bind_red. rewrite Hp. bind_red. rewrite Hx. bind_red. rewrite Hg. bind_red.
  pose proof (names_nul_free g x Hwf Hin) as Hnf.
  rewrite locateVex_spec by done. bind_red.
  destruct (vpos_in g x Hwf Hin) as [Hv _].
  destruct (vget_valid g _ Hv) as (v & E & _ & Ha & _). rewrite E. bind_red. rewrite <-Ha, Hadj.
  change (bool_decide ([] ≠ [])) with false. cbn iota. bind_red.
  rewrite (sdscat_nul_free sdsempty x) by done.
  change (sdscat (sdsempty ++ x) (str ",")) with (x ++ [COMMA]).
  assert (split1 (x ++ [COMMA]) (length (x ++ [COMMA])) COMMA = Ret [x; []]) as ->.
  { unfold split1. rewrite sdssplitlen_spec by (by destruct x). bind_red.
    rewrite split_on_app; [done|]. apply name_not_in; [|done].
    pose proof (wf_names g Hwf) as Hn. rewrite Forall_forall in Hn. by apply Hn. }
  bind_red. change (Z.of_nat (length [x; []]) - 1)%Z with 1%Z.
  destruct (find_single_sort Hin) as (l & -> & Hpl & Hlnf). bind_red.
  rewrite cat_all_spec by done. f_equal. unfold addReply. do 4 f_equal. simpl.
  symmetry in Hpl. apply Permutation_length_2_inv in Hpl as [-> | ->]; simpl; by rewrite app_nil_r.
Qed.

(** The class of [x] as [find] prints it: the members in order, run together. *)
Lemma find_class :
  x ∈ names g → adjl g (vpos g x) ≠ [] →
  findCommand st c =
    Ret (addReply c (RBulk (concat (by_position g (vname g <$> iclass g (vpos g x)))))).
Proof.
  pose proof Hok as [Hwf _]. intros Hin Hadj. unfold findCommand.
  rewrite Hk. bind_red. rewrite Hp. bind_red. rewrite Hx. bind_red. rewrite Hg. bind_red.
  pose proof (names_nul_free g x Hwf Hin) as Hnf.
  rewrite locateVex_spec by done. bind_red.
  destruct (vpos_in g x Hwf Hin) as [Hv _].
  destruct (vget_valid g _ Hv) as (v & E & _ & Ha & _). rewrite E. bind_red. rewrite <-Ha.
  rewrite bool_decide_eq_true_2 by done.
  rewrite (sdscat_nul_free sdsempty x) by done.
  change (sdscat (sdsempty ++ x) (str ",")) with (x ++ [COMMA]).
  rewrite cat_adj_spec by (done || by apply adj_valid). bind_red.
  pose proof (iclass_names_ok g Hok _ Hv) as Hc.
  assert ((x ++ [COMMA]) ++ join COMMA (vname g <$> adjl g (vpos g x)) =
    render_class (vname g <$> iclass g (vpos g x))) as ->.
  { unfold iclass, render_class. rewrite fmap_cons, join_cons by (by intros ?%fmap_nil_inv).
    rewrite vname_vpos by done. by rewrite <-app_assoc. }
  rewrite split1_class by done. bind_red.
  rewrite quickSort_by_position by (done || by apply iclass_in_names). bind_red.
  rewrite cat_all_spec; [done|]. rewrite by_position_perm.
  apply (in_names_nul_free g Hwf). by apply iclass_in_names.
Qed.

Lemma find_unknown : nul_free x → x ∉ names g → findCommand st c = Fail OutOfBounds.
Proof.
  pose proof Hok as [Hwf _]. intros Hnf Hin. unfold findCommand.
  rewrite Hk. bind_red. rewrite Hp. bind_red. rewrite Hx. bind_red. rewrite Hg. bind_red.
  rewrite locateVex_spec, vpos_not_in by done. done.
Qed.
End find_cmd.

(** ** Properties *)

(** [umembers] on an object with at least two elements answers with the text
    of all classes, the members of each in the order of the vertices. *)
Theorem umembers_prints g st c k p :
  graph_ok g → arg c 1 = Ret k → getUfs st k = Ret p → ufs_at st p = Ret g → 2 ≤ vertexnum g →
  ∃ P, umembersCommand st c = Ret (addReply c (RBulk (render P)))
    ∧ rel_of P ≡ rel_g g ∧ concat P ≡ₚ names g ∧ Forall (sorted g) P.
Proof.
  intros Hok Ha Hp Hg H2. exists (sorted_classes g). split; [by eapply umembers_text|].
  split; [by apply sorted_classes_rel|]. split.
  - rewrite <-(classes_names g Hok). unfold sorted_classes. generalize (classes g).
    induction l as [|x l IH]; simpl; [done|]. by rewrite by_position_perm, IH.
  - unfold sorted_classes. apply Forall_fmap, Forall_true. intros x. apply by_position_sorted.
Qed.

(** A server with one object. *)
Definition server3 : server := mk_server true 6380 (Some [graph3]) 0 None None None.
Definition client3 (args : list bytes) : client := mk_client args false 0 0 [].

Lemma umembers_prints_witness :
  ∃ P, umembersCommand server3 (client3 [str "umembers"; str "u1"]) =
         Ret (addReply (client3 [str "umembers"; str "u1"]) (RBulk (render P)))
       ∧ rel_of P ≡ rel_g graph3.
Proof.
  destruct (umembers_prints graph3 server3 (client3 [str "umembers"; str "u1"]) (str "u1") (Some 0))
    as (P & E & R & _); [exact graph3_graph_ok|done|by vm_compute|done|vm_compute; lia|].
  exists P. split; [exact E|exact R].
Defined.

(** [find] on an element of the object answers with the members of its class
    in the order of the vertices, run together without separators. *)
Theorem find_prints g st c k x p :
  graph_ok g → arg c 2 = Ret k → arg c 1 = Ret x → getUfs st k = Ret p → ufs_at st p = Ret g →
  x ∈ names g →
  ∃ l, findCommand st c = Ret (addReply c (RBulk (concat l)))
    ∧ sorted g l ∧ NoDup l ∧ ∀ y, y ∈ l ↔ rel_g g x y.
Proof.
  intros Hok Hk Hx Hp Hg Hin. pose proof Hok as [Hwf _]. destruct (vpos_in g x Hwf Hin) as [Hv _].
  exists (by_position g (vname g <$> iclass g (vpos g x))). split; [|split; [|split]].
  - destruct (decide (adjl g (vpos g x) = [])) as [E|E].
    + rewrite (find_alone g Hok st c k x p) by done. do 4 f_equal. unfold iclass. rewrite E. simpl.
      rewrite vname_vpos by done. unfold by_position, merge_sort. simpl. by rewrite app_nil_r.
    + by apply (find_class g Hok st c k x p).
  - apply by_position_sorted.
  - rewrite by_position_perm. by apply iclass_nodup.
  - intros y. rewrite by_position_perm, (elem_of_class g Hok) by done. unfold rel_g. tauto.
Qed.

Lemma find_prints_witness :
  ∃ l, findCommand server3 (client3 [str "find"; str "b"; str "u1"]) =
         Ret (addReply (client3 [str "find"; str "b"; str "u1"]) (RBulk (concat l)))
       ∧ sorted graph3 l.
Proof.
  destruct (find_prints graph3 server3 (client3 [str "find"; str "b"; str "u1"]) (str "u1") (str "b") (Some 0))
    as (l & E & S & _); [exact graph3_graph_ok|done|done|by vm_compute|done|concrete|].
  exists l. split; [exact E|exact S].
Defined.

(** [find] on an element the object does not have uses the position -1 that
    [locateVex] answers as an index of the vertex array. *)
Theorem find_unknown_faults g st c k x p :
  graph_ok g → arg c 2 = Ret k → arg c 1 = Ret x → getUfs st k = Ret p → ufs_at st p = Ret g →
  nul_free x → x ∉ names g → findCommand st c = Fail OutOfBounds.
Proof. intros. by eapply find_unknown. Qed.

Lemma find_unknown_faults_witness :
  findCommand server3 (client3 [str "find"; str "q"; str "u1"]) = Fail OutOfBounds.
Proof.
  apply (find_unknown_faults graph3 server3 (client3 [str "find"; str "q"; str "u1"]) (str "u1") (str "q") (Some 0));
    [exact graph3_graph_ok|done|done|by vm_compute|done|unfold nul_free; concrete|concrete].
Defined.
