(* ===== verification/Replica.v ===== *)
(** * Replica: consistency of a slave

    A slave's replica of an object is consistent when its state space is sound
    and its graph shows the classes of the current vertex, the one every search
    without a context ends at.  Executing a local operation and integrating a
    remote one keep it so. *)
From S2P Require Import Prelude Sds Partition OtStr ClassText TextState OtUfs Graph UnionSplit GraphText Object Space Ladder Commands Control.

(** ** The current vertex *)

(** The edge a search follows from a vertex. *)
Definition fedge (sp : space) (q : nat) : option dedge :=
  match edg LeftE sp q with Some e => Some e | None => edg RightE sp q end.

Lemma fedge_first sp q v : sp !! q = Some v → fedge sp q = first_edge v.
Proof. unfold fedge, edg, first_edge. intros ->. done. Qed.

Lemma walk_end_f sp q : q < length sp → fedge sp q = None → walk sp q [] q.
Proof.
  intros [v Hv]%lookup_lt_is_Some_2 Hf. rewrite (fedge_first sp q v Hv) in Hf. by econstructor.
Qed.

Lemma walk_step_f sp q e es q' :
  fedge sp q = Some e → walk sp (adjv e) es q' → walk sp q (e :: es) q'.
Proof.
  intros Hf Hw. destruct (sp !! q) as [v|] eqn:Hv.
  - rewrite (fedge_first sp q v Hv) in Hf. by econstructor.
  - unfold fedge, edg in Hf. by rewrite Hv in Hf.
Qed.

Lemma walk_leaf_edges sp q es q' :
  walk sp q es q' → q' < length sp ∧ edg LeftE sp q' = None ∧ edg RightE sp q' = None.
Proof.
  intros (v & Hv & Hl & Hr)%walk_leaf. split; [by eapply lookup_lt_Some|].
  unfold edg. rewrite Hv. by split.
Qed.

(** A walk goes on after edges were added at its end. *)
Lemma walk_extend sp sp' q es q' e :
  walk sp q es q' → (∀ k, k < length sp → k ≠ q' → fedge sp' k = fedge sp k) →
  fedge sp' q' = Some e → fedge sp' (adjv e) = None → adjv e < length sp' →
  walk sp' q (es ++ [e]) (adjv e).
Proof.
  intros Hw Hk Hq Hn Hlt. induction Hw as [q v Hv He|q v e0 es q' Hv He Hw IH]; simpl.
  - apply walk_step_f; [done|]. by apply walk_end_f.
  - apply walk_step_f.
    + rewrite Hk; [by rewrite (fedge_first sp q v Hv)|by eapply lookup_lt_Some|].
      intros ->. destruct (walk_leaf _ _ _ _ Hw) as (v' & Hv' & Hl & Hr). simplify_eq.
      unfold first_edge in He. by rewrite Hl, Hr in He.
    + by apply IH.
Qed.

(** ** A state space with a current vertex *)

(** The current vertex is [q], reached by [es] from the initial one; its text is [s]. *)
Record current (E : list bytes) (sp : space) (es : list dedge) (q : nat) (s : bytes) : Prop := {
  cur_sound : sound E sp;
  cur_walk : walk sp 0 es q;
  cur_cont : cont sp q = Some s;
  cur_oids : oids_ok sp;
}.

Lemma current_text E sp es q s : current E sp es q s → text_of E sp q s.
Proof.
  intros [Hs Hw Hc _]. destruct (walk_leaf_edges _ _ _ _ Hw) as (Hlt & _).
  destruct (sound_text E sp Hs q Hlt) as (s' & Ht). pose proof Ht as (Hc' & _).
  by simplify_eq.
Qed.

Lemma current_walk_oids E sp es q s : current E sp es q s → Forall (λ e, nul_free (oid e)) es.
Proof.
  intros [Hs Hw _ Ho]. clear -Hw Ho. induction Hw as [|q v e es q' Hv He Hw IH]; constructor; [|done].
  unfold first_edge in He. destruct (ledge v) as [e'|] eqn:El.
  - injection He as <-. apply (Ho LeftE q). unfold edg. by rewrite Hv.
  - apply (Ho RightE q). unfold edg. by rewrite Hv.
Qed.

Lemma current_forward E sp es q s : current E sp es q s → forward sp.
Proof.
  intros [Hs _ _ _] k v e Hv [He|He].
  - apply (sound_forward E sp Hs LeftE). unfold edg. by rewrite Hv.
  - apply (sound_forward E sp Hs RightE). unfold edg. by rewrite Hv.
Qed.

Section insert.
Context (E : list bytes) (sp : space) (d : side) (u : nat) (cu : bytes) (o : op) (v : view)
  (o_id s' : bytes).
Context (Hs : sound E sp) (Hu : cont sp u = Some cu).
Context (Hon : op_on (rel_t cu) o v) (Hsim : simple v).
Context (Hok : text_ok s') (HE : concat (parse s') ≡ₚ E).
Context (Hrel : rel_t s' ≡ aapply (abs_op v) (rel_t cu)).

(** The space after [createVertice], the new edge and the new text. *)
Definition inserted : space :=
  set_content (set_edge d (sp ++ [createVertice]) u (mk_dedge o o_id (length sp))) (length sp) s'.

Lemma inserted_length : length inserted = S (length sp).
Proof. unfold inserted. by space_simpl. Qed.

Lemma inserted_cont k : cont inserted k = if decide (k = length sp) then Some s' else cont sp k.
Proof. unfold inserted. by space_simpl. Qed.

Lemma inserted_edg k :
  edg d inserted k = if decide (k = u) then Some (mk_dedge o o_id (length sp)) else edg d sp k.
Proof. pose proof (cont_lt _ _ _ Hu). unfold inserted. by space_simpl. Qed.

Lemma inserted_opp k : edg (opp d) inserted k = edg (opp d) sp k.
Proof. unfold inserted. by space_simpl. Qed.

Lemma inserted_new d' : edg d' inserted (length sp) = None.
Proof.
  pose proof (cont_lt _ _ _ Hu). assert (edg d' sp (length sp) = None) as Hn.
  { unfold edg. by rewrite lookup_ge_None_2. }
  assert (d' = d ∨ d' = opp d) as [-> | ->] by (destruct d, d'; auto).
  - rewrite inserted_edg, decide_False by lia. done.
  - by rewrite inserted_opp.
Qed.

Lemma inserted_text : text_of E inserted (length sp) s'.
Proof. split_and!; try done. by rewrite inserted_cont, decide_True. Qed.

Lemma inserted_sound : sound E inserted.
Proof.
  pose proof (cont_lt _ _ _ Hu).
  apply (sound_extend E sp inserted s' Hs inserted_length inserted_cont Hok HE).
  intros d' k e. assert (d' = d ∨ d' = opp d) as [-> | ->] by (destruct d, d'; auto).
  - rewrite inserted_edg. destruct (decide (k = u)) as [->|]; [|by left].
    intros [= <-]. right. split_and!; [done|done|]. intros c Hc. simplify_eq.
    exists v, s'. split_and!; try done. apply inserted_text.
  - rewrite inserted_opp. by left.
Qed.

Lemma inserted_oids :
  nul_free o_id → oids_ok sp → oids_ok inserted.
Proof.
  intros Ho Hoids d' k e.
  assert (d' = d ∨ d' = opp d) as [-> | ->] by (destruct d, d'; auto).
  - rewrite inserted_edg. destruct (decide _); [by intros [= <-]|apply Hoids].
  - rewrite inserted_opp. apply Hoids.
Qed.
End insert.

(** *** A local operation moves the current vertex along a new left edge *)
Lemma current_local E sp es q s o v o_id s' :
  current E sp es q s → op_on (rel_t s) o v → simple v → nul_free o_id →
  text_ok s' → concat (parse s') ≡ₚ E → rel_t s' ≡ aapply (abs_op v) (rel_t s) →
  current E (inserted sp LeftE q o o_id s') (es ++ [mk_dedge o o_id (length sp)]) (length sp) s'.
Proof.
  intros [Hs Hw Hc Ho] Hon Hsim Hoid Hok HE Hrel.
  destruct (walk_leaf_edges _ _ _ _ Hw) as (Hlt & Hl & Hr).
  pose proof (inserted_edg sp LeftE q s o o_id s' Hc) as Hed.
  pose proof (inserted_opp sp LeftE q o o_id s') as Hop. simpl in Hop.
  split.
  - by eapply inserted_sound.
  - apply (walk_extend sp _ 0 es q (mk_dedge o o_id (length sp)) Hw); unfold fedge.
    + intros k Hk Hne. by rewrite Hed, Hop, decide_False.
    + by rewrite Hed, decide_True.
    + by rewrite !(inserted_new sp LeftE q s o o_id s' Hc).
    + simpl. rewrite inserted_length. lia.
  - by rewrite inserted_cont, decide_True.
  - eapply inserted_oids; try done.
Qed.

(** *** A remote operation is carried along the chain of local ones *)

Lemma chain_inner d sp q es q' k :
  chain d sp q es q' → k = q ∨ k ∈ adjv <$> es → k ≠ q' → is_Some (edg d sp k).
Proof.
  induction 1 as [q Hq Hn|q e es q' He Hc IH]; intros Hk Hne; [set_solver|].
  destruct Hk as [->|Hk]; [by rewrite He|]. apply IH; [|done]. set_solver.
Qed.

Lemma chain_end_none d sp q es q' : chain d sp q es q' → q' < length sp ∧ edg d sp q' = None.
Proof. by induction 1. Qed.

(** The other edges of a chain's vertices are only looked at where the chain ends. *)
Lemma fedge_chain sp sp' u es q k :
  chain LeftE sp u es q → k < length sp → k ≠ q →
  edg LeftE sp' k = edg LeftE sp k →
  (k ≠ u → k ∉ adjv <$> es → edg RightE sp' k = edg RightE sp k) →
  fedge sp' k = fedge sp k.
Proof.
  intros Hc Hk Hne Hl Hr. unfold fedge. rewrite Hl.
  destruct (edg LeftE sp k) as [e|] eqn:El; [done|].
  destruct (decide (k = u ∨ k ∈ adjv <$> es)) as [Hin|Hout].
  - destruct (chain_inner LeftE sp u es q k Hc Hin Hne) as [e He]. congruence.
  - apply Hr; tauto.
Qed.

(** The outcome of inserting an operation at [u] and carrying it along the chain
    on side [d] that leads from [u] to [q]. *)
Record carried (E : list bytes) (d : side) (sp : space) (u q : nat) (es : list dedge) (e : dedge)
    (sp2 : space) (p : nat) (e' : dedge) : Prop := {
  ca_sound : sound E sp2;
  ca_oids : oids_ok sp2;
  ca_oid : oid e' = oid e;
  ca_type : optype (e_op e') = optype (e_op e);
  ca_cont k : k < length sp → cont sp2 k = cont sp k;
  ca_along k : k < length sp → edg d sp2 k = edg d sp k;
  ca_other k : k < length sp → k ∉ adjv <$> es →
    edg (opp d) sp2 k = if decide (k = u) then Some e else edg (opp d) sp k;
  ca_end : edg (opp d) sp2 q = Some e' ∧ adjv e' = p ∧ edg d sp2 p = None ∧ edg (opp d) sp2 p = None;
  ca_bare : ∃ es2, bare d sp2 (length sp) es2 p;
  ca_op : transformed (states_along sp u es) (e_op e) = Ret (e_op e');
}.

Lemma insert_ladder E sp d u cu o v o_id es q oids :
  sound E sp → oids_ok sp → cont sp u = Some cu → chain d sp u es q →
  op_on (rel_t cu) o v → simple v → nul_free o_id →
  ∃ s1 sp2 p e',
    updateVerticeUfsFromState cu (optype o) (argv1 o) (argv2 o) (tlen E) = Ret s1
    ∧ ladder (S (length sp)) d (inserted sp (opp d) u o o_id s1) u (length sp) (tlen E) oids =
        Ret (sp2, q, p, oids ++ ctx_of es)
    ∧ carried E d sp u q es (mk_dedge o o_id (length sp)) sp2 p e'.
Proof.
  intros Hs Ho Hu Hch Hon Hsim Hoid.
  destruct (sound_text E sp Hs u) as (cu' & Tu); [by eapply cont_lt|].
  assert (cu' = cu) as -> by (destruct Tu; congruence). pose proof Tu as (_ & Oku & Eu).
  destruct (exec_text_spec cu o v Oku Hon) as (s1 & Es & Ok1 & R1 & _ & Hcc).
  unfold exec in Es. rewrite (text_of_length E sp u cu Tu) in Es. rewrite Eu in Hcc.
  set (e := mk_dedge o o_id (length sp)). set (sp1 := inserted sp (opp d) u o o_id s1).
  pose proof (inserted_edg sp (opp d) u cu o o_id s1 Hu) as Fr. fold sp1 e in Fr.
  pose proof (inserted_opp sp (opp d) u o o_id s1) as Fl. fold sp1 in Fl. rewrite opp_opp in Fl.
  pose proof (inserted_new sp (opp d) u cu o o_id s1 Hu) as Fn. fold sp1 in Fn.
  pose proof (inserted_length sp (opp d) u o o_id s1) as Flen. fold sp1 in Flen.
  pose proof (inserted_cont sp (opp d) u o o_id s1) as Fc. fold sp1 in Fc.
  assert (sound E sp1) as Hs1 by by apply (inserted_sound E sp (opp d) u cu o v).
  assert (at_rung E d sp1 u (length sp) e) as Hat
    by (split; [done|by rewrite Fr, decide_True|done|apply Fn]).
  assert (chain d sp1 u es q) as Hch1
    by (apply (chain_frame d sp); [done|lia|apply Fl|intros; apply Fl]).
  destruct (chain_lt E d sp u es q Hs Hch) as (Hlen & Hq & Hes).
  destruct (ladder_spec E d es (S (length sp)) sp1 u (length sp) q e oids) as
    (sp2 & p & e' & El & [L2 C2 A2 O2] & [Hs2 Hat2 Hadj2 Hfr2] & Eoid & Etype & Ho2 & Hq2 & Hp2 & Hb2 & Hx2); try done.
  { intros (x & Ex & Hx)%list_elem_of_fmap. rewrite Forall_forall in Hes. pose proof (Hes x Hx). lia. }
  { lia. }
  { by apply (inserted_oids sp (opp d) u cu o o_id s1 Hu). }
  exists s1, sp2, p, e'. split_and!; try done. split; try done.
  - intros k Hk. rewrite C2, Fc, decide_False by lia. done.
  - intros k Hk. rewrite A2, Fl by lia. done.
  - intros k Hk Hin. by rewrite O2, Fr by (done || lia).
  - rewrite <-Hx2. f_equal. symmetry. apply states_along_frame; [|intros x Hx];
      rewrite Fc, decide_False; try done; [pose proof (cont_lt _ _ _ Hu); lia|].
    rewrite Forall_forall in Hes. pose proof (Hes x Hx). lia.
Qed.

(** The operation that reaches the end of the chain is executable there. *)
Lemma carried_op E d sp u q es e sp2 p e' s :
  carried E d sp u q es e sp2 p e' → cont sp q = Some s →
  ∃ s2 vw, text_of E sp2 p s2 ∧ op_on (rel_t s) (e_op e') vw ∧ simple vw
    ∧ rel_t s2 ≡ aapply (abs_op vw) (rel_t s).
Proof.
  intros [Hs2 _ _ _ C2 _ _ (Hq & <- & _ & _) _ _] Hc.
  assert (cont sp2 q = Some s) as Hcq by (rewrite C2; [done|by eapply cont_lt]).
  destruct (sound_edge E sp2 Hs2 (opp d) q e' s Hq Hcq) as (vw & s2 & ? & ? & ? & ?).
  by exists s2, vw.
Qed.

Lemma current_remote E sp es q s u cu o v o_id es' :
  current E sp es q s → cont sp u = Some cu → chain LeftE sp u es' q →
  op_on (rel_t cu) o v → simple v → nul_free o_id →
  ∃ s1 sp2 p e' s2 vw,
    updateVerticeUfsFromState cu (optype o) (argv1 o) (argv2 o) (tlen E) = Ret s1
    ∧ ladder (S (length sp)) LeftE (inserted sp RightE u o o_id s1) u (length sp) (tlen E) [] =
        Ret (sp2, q, p, ctx_of es')
    ∧ edg RightE sp2 q = Some e' ∧ current E sp2 (es ++ [e']) p s2
    ∧ oid e' = o_id ∧ transformed (states_along sp u es') o = Ret (e_op e')
    ∧ op_on (rel_t s) (e_op e') vw ∧ simple vw ∧ rel_t s2 ≡ aapply (abs_op vw) (rel_t s).
Proof.
  intros Hcur Hu Hch Hon Hsim Hoid. pose proof Hcur as [Hs Hw Hc Ho].
  destruct (insert_ladder E sp LeftE u cu o v o_id es' q [] Hs Ho Hu Hch Hon Hsim Hoid)
    as (s1 & sp2 & p & e' & Es & El & Hca).
  destruct (carried_op _ _ _ _ _ _ _ _ _ _ s Hca Hc) as (s2 & vw & T2 & On2 & Sim2 & R2).
  destruct Hca as [Hs2 Ho2 Eo _ C2 A2 O2 (Hq2 & <- & Hp2 & Hp2') _ Hx]. simpl in O2, Hq2, Hp2'.
  exists s1, sp2, (adjv e'), e', s2, vw. split_and!; try done.
  split; try done; [|by destruct T2]. apply (walk_extend sp sp2 0 es q e' Hw).
  - intros k Hk Hne. apply (fedge_chain sp sp2 u es' q); try done; [by apply A2|].
    intros Hku Hin. by rewrite O2, decide_False.
  - unfold fedge. destruct (walk_leaf_edges _ _ _ _ Hw) as (Hq & Hl & _).
    by rewrite A2, Hl, Hq2.
  - unfold fedge. by rewrite Hp2, Hp2'.
  - destruct T2 as (Hc2 & _). by eapply cont_lt.
Qed.

(** ** Storing through pointers *)

Lemma find_key_insert {A} (P : A → Prop) `{!∀ x, Decision (P x)} (l : list A) i a b :
  l !! i = Some a → (P b ↔ P a) →
  fst <$> list_find P (<[i := b]> l) = fst <$> list_find P l.
Proof.
  revert i. induction l as [|x l IH]; intros [|i] Hi HP; simplify_eq/=.
  - repeat case_decide; (done || tauto || by destruct (list_find P l) as [[??]|]).
  - case_decide; [done|]. specialize (IH i Hi HP).
    destruct (list_find P (<[i:=b]> l)) as [[??]|], (list_find P l) as [[??]|]; by simplify_eq/=.
Qed.

Section graph_store.
Context (st : server) (k : bytes) (j : nat) (g : cudGraph).
Context (Hk : getUfs st k = Ret (Some j)) (Hg : ufs_at st (Some j) = Ret g).

Lemma ufs_at_list : ∃ l, ufslist st = Some l ∧ l !! j = Some g.
Proof.
  revert Hg. unfold ufs_at, list_of, at_. destruct (ufslist st) as [l|]; simpl; [|done].
  destruct (l !! j) eqn:E; [|done]. intros [= ->]. by exists l.
Qed.

Lemma set_ufs_get g' k' : key g' = key g → getUfs (set_ufs st (Some j) g') k' = getUfs st k'.
Proof.
  intros Hkey. destruct ufs_at_list as (l & El & Hj). unfold getUfs, set_ufs. rewrite El. simpl.
  f_equal. apply (find_key_insert _ l j g g' Hj). by rewrite Hkey.
Qed.

Lemma set_ufs_at g' : ufs_at (set_ufs st (Some j) g') (Some j) = Ret g'.
Proof.
  destruct ufs_at_list as (l & El & Hj). unfold ufs_at, set_ufs. rewrite El. simpl.
  by rewrite list_lookup_insert_eq by by eapply lookup_lt_Some.
Qed.

Lemma set_ufs_same : set_ufs st (Some j) g = st.
Proof.
  destruct ufs_at_list as (l & El & Hj). unfold set_ufs. rewrite El, list_insert_id by done.
  destruct st. simpl in *. by rewrite El.
Qed.

Lemma set_ufs_cspaces g' : cspacelist (set_ufs st (Some j) g') = cspacelist st.
Proof. destruct ufs_at_list as (l & El & Hj). unfold set_ufs. by rewrite El. Qed.

Lemma set_ufs_masterhost g' : masterhost (set_ufs st (Some j) g') = masterhost st.
Proof. destruct ufs_at_list as (l & El & Hj). unfold set_ufs. by rewrite El. Qed.

(** *** unionProc and splitProc execute the operation on the stored graph *)

Lemma unionProc_spec c a1 a2 g' :
  key_arg c = Ret k → union_graph g a1 a2 = Ret g' →
  unionProc st c a1 a2 = Ret (set_ufs st (Some j) g', done_ok c).
Proof.
  intros Hc Hu. unfold unionProc. rewrite Hc. bind_red. rewrite Hk. bind_red.
  destruct (streq a1 STAR || streq a2 STAR) eqn:E.
  - unfold union_graph in Hu. rewrite E in Hu. injection Hu as <-. by rewrite set_ufs_same.
  - rewrite Hg. bind_red. by rewrite Hu.
Qed.

Lemma splitProc_spec c a1 g' :
  key_arg c = Ret k → split_graph g a1 = Ret g' →
  splitProc st c a1 = Ret (set_ufs st (Some j) g', done_ok c).
Proof.
  intros Hc Hu. unfold splitProc. rewrite Hc. bind_red. rewrite Hk. bind_red.
  destruct (negb (strchr a1 COMMA) && streq a1 STAR) eqn:E.
  - apply andb_true_iff in E as [E1%negb_true_iff E2]. unfold split_graph in Hu.
    rewrite E1, E2 in Hu. injection Hu as <-. by rewrite set_ufs_same.
  - rewrite Hg. bind_red. by rewrite Hu.
Qed.

Lemma exec_edge_spec c o g' :
  key_arg c = Ret k → exec_graph o g = Ret g' →
  exec_edge st c o = Ret (set_ufs st (Some j) g', done_ok c).
Proof.
  intros Hc. unfold exec_graph, exec_edge. destruct (argv1 o) as [a1|]; simpl; [|by case_bool_decide].
  case_bool_decide; [|by apply splitProc_spec].
  destruct (argv2 o) as [a2|]; simpl; [|done]. by apply unionProc_spec.
Qed.
End graph_store.

Lemma set_vertices_spec st i lc cv sp :
  cspacelist st = Some lc → lc !! i = Some cv →
  set_vertices st (Some i) sp =
    Ret (set_cspaces st (<[i := mk_cverlist (cv_key cv) (cv_len_ufs cv) sp]> lc)).
Proof.
  intros El Hi. unfold set_vertices, set_cverlist. rewrite El. simpl. by rewrite Hi.
Qed.

(** ** Consistent replicas *)

(** The replica of object [k]: graph [g] at position [j], state space [sp] at [i]
    with current vertex [q] reached by [es]; [E] are the elements. *)
Record consistent (E : list bytes) (st : server) (k : bytes) (i j : nat) (g : cudGraph)
    (sp : space) (es : list dedge) (q : nat) : Prop := {
  co_slave : masterhost st = true;
  co_ufs : getUfs st k = Ret (Some j);
  co_graph : ufs_at st (Some j) = Ret g;
  co_loc : locateCVerlist st k = Ret (Some i);
  co_space : ∃ lc kk, cspacelist st = Some lc ∧ lc !! i = Some (mk_cverlist kk (tlen E) sp);
  co_cur : ∃ s, current E sp es q s ∧ agree g s;
  co_names : names g ≡ₚ E;
  co_two : 2 ≤ vertexnum g;
}.

(** Storing a new graph and a new space that agree keeps a replica consistent. *)
Lemma consistent_store E st k i j g sp es q g' sp' es' q' s' :
  consistent E st k i j g sp es q → frame g g' → current E sp' es' q' s' → agree g' s' →
  ∃ st', set_vertices (set_ufs st (Some j) g') (Some i) sp' = Ret st'
    ∧ consistent E st' k i j g' sp' es' q' ∧ op_num st' = op_num st ∧ port st' = port st.
Proof.
  intros [Hm Hk Hg Hl (lc & kk & Elc & Hi) _ Hn H2] (Fk & Fv & Fn) Hcur Hag.
  destruct (ufs_at_list st j g Hg) as (l & El & Hj).
  assert (cspacelist (set_ufs st (Some j) g') = Some lc) as Elc' by by rewrite (set_ufs_cspaces st j g).
  rewrite (set_vertices_spec _ i lc (mk_cverlist kk (tlen E) sp)) by done.
  eexists. split; [done|]. split; [|unfold set_ufs; by rewrite El].
  split.
  - exact (eq_trans (set_ufs_masterhost st j g Hg g') Hm).
  - rewrite <-Hk. apply (set_ufs_get st j g Hg g' k Fk).
  - apply (set_ufs_at st j g Hg).
  - rewrite <-Hl. unfold locateCVerlist. rewrite Elc. simpl. f_equal.
    by apply (find_key_insert _ lc i (mk_cverlist kk (tlen E) sp)).
  - eexists _, kk. split; [done|]. by rewrite list_lookup_insert_eq by by eapply lookup_lt_Some.
  - by exists s'.
  - by rewrite Fn.
  - by rewrite Fv.
Qed.

(** ** A local operation *)

(** The commands of users: elements of the object, the key last. *)
Inductive user_cmd (g : cudGraph) (k : bytes) : list bytes → op → view → Prop :=
  | user_union x y :
      x ∈ names g → y ∈ names g →
      user_cmd g k [str "union"; x; y; k] (mk_op OPTYPE_UNION (Some x) (Some y)) (VUnion [x] [y])
  | user_split x :
      x ∈ names g →
      user_cmd g k [str "split"; x; k] (mk_op OPTYPE_SPLIT (Some x) None) (VSplit [x]).

Lemma single_ok g x :
  wf g → x ∈ names g → arg_ok x [] ∧ (∀ y, y ∈ [x] → rel_g g y x).
Proof.
  intros Hwf Hx. split.
  - split; [|by left]. constructor; [|done]. pose proof (wf_names g Hwf) as Hn.
    rewrite Forall_forall in Hn. by apply Hn.
  - intros y ->%list_elem_of_singleton. by apply rel_g_refl.
Qed.

Lemma user_cmd_on g k args o v :
  graph_ok g → user_cmd g k args o v → op_on (rel_g g) o v ∧ simple v.
Proof.
  intros [Hwf _] [x y Hx Hy|x Hx]; (split; [|done]).
  - destruct (single_ok g x Hwf Hx), (single_ok g y Hwf Hy).
    apply on_union; [apply (on_group _ x [])|apply (on_group _ y [])]; done.
  - destruct (single_ok g x Hwf Hx). apply (on_split _ x []); try done. apply NoDup_singleton.
Qed.

Lemma name_single_ok x :
  name_ok x → streq x STAR = false ∧ arglen x = 1 ∧ strchr x COMMA = false ∧ nul_free x.
Proof.
  intros Hn. assert (class_ok [x]) as Hc by (split; [done|by constructor]).
  pose proof (streq_star [x] Hc) as H1. pose proof (arglen_render [x] Hc) as H2.
  change (render_class [x]) with x in H1, H2. change (bool_decide (2 ≤ length [x])) with false in H2.
  pose proof (name_nul_free x Hn). split_and!; try done.
  unfold arglen in H2. by destruct (strchr x COMMA).
Qed.

Lemma name_single g x :
  wf g → x ∈ names g → streq x STAR = false ∧ arglen x = 1 ∧ strchr x COMMA = false ∧ nul_free x.
Proof.
  intros Hwf Hx. apply name_single_ok. pose proof (wf_names g Hwf) as H.
  rewrite Forall_forall in H. by apply H.
Qed.

Lemma arg_at c l n a : c_argv c = l → l !! n = Some a → arg c n = Ret a.
Proof. unfold arg. by intros -> ->. Qed.

Lemma key_at c l k : c_argv c = l → last l = Some k → key_arg c = Ret k.
Proof.
  unfold key_arg, arg. intros -> Hl. rewrite last_lookup in Hl.
  replace (length l - 1) with (pred (length l)) by lia. by rewrite Hl.
Qed.

Section local.
Context (E : list bytes) (st : server) (k : bytes) (i j : nat) (g : cudGraph) (sp : space)
  (es : list dedge) (q : nat).
Context (Hco : consistent E st k i j g sp es q).

Lemma co_graph_ok : graph_ok g.
Proof. destruct Hco as [_ _ _ _ _ (s & _ & (Hok & _ & _)) _ _]. exact Hok. Qed.

Lemma checkArgv_user c args o v :
  user_cmd g k args o v → c_argv c = args → checkArgv st c = Ret (c, true).
Proof.
  pose proof Hco as [_ Hk Hg _ _ _ _ _]. pose proof co_graph_ok as [Hwf _].
  intros [x y Hx Hy|x Hx] Ha; unfold checkArgv, checkUnionArgv, checkSplitArgv.
  - rewrite (arg_at c _ 0 _ Ha eq_refl). bind_red.
    rewrite (arg_at c _ 1 _ Ha eq_refl), (arg_at c _ 2 _ Ha eq_refl). bind_red.
    rewrite (key_at c _ k Ha eq_refl). bind_red.
    destruct (name_single g x Hwf Hx) as (Sx & Lx & _ & Nx).
    destruct (name_single g y Hwf Hy) as (Sy & Ly & _ & Ny).
    change (streq (str "union") (str "union")) with true. cbn iota. rewrite Hk. bind_red.
    rewrite Sx, Sy. cbn [orb]. rewrite Hg. bind_red. rewrite Lx, Ly.
    rewrite !existElement_spec by done. bind_red. rewrite (bool_decide_eq_true_2 (x ∈ _)) by done.
    bind_red. by rewrite bool_decide_eq_true_2.
  - rewrite (arg_at c _ 0 _ Ha eq_refl), (arg_at c _ 1 _ Ha eq_refl). bind_red.
    rewrite (key_at c _ k Ha eq_refl). bind_red.
    destruct (name_single g x Hwf Hx) as (_ & _ & Cx & Nx).
    change (streq (str "split") (str "union")) with false. cbn iota. rewrite Hk. bind_red.
    rewrite Hg. bind_red. rewrite Cx, existElement_spec by done. bind_red.
    by rewrite bool_decide_eq_true_2.
Qed.

(** The command that is sent to the master. *)
Definition propagated (args : list bytes) (o_id oids : bytes) : list bytes :=
  take (length args - 1) args ++ [o_id; oids; k].

Lemma rewrite_local_user c args o v o_id oids :
  user_cmd g k args o v → c_argv c = args →
  rewrite_local c o_id oids = Ret (set_argv c (propagated args o_id oids)).
Proof.
  clear Hco. destruct c. intros [x y Hx Hy|x Hx]; simpl; intros ->; reflexivity.
Qed.

Lemma exec_named_user st1 c args o v o_id oids g' :
  getUfs st1 k = Ret (Some j) → ufs_at st1 (Some j) = Ret g →
  user_cmd g k args o v → c_argv c = propagated args o_id oids → exec_graph o g = Ret g' →
  exec_named st1 c = Ret (set_ufs st1 (Some j) g', done_ok c).
Proof.
  clear Hco. intros Hk Hg [x y Hx Hy|x Hx] Ha Hex; unfold exec_named;
    unfold propagated in Ha; cbn [take length Nat.sub app] in Ha;
    rewrite (arg_at c _ 0 _ Ha eq_refl); bind_red.
  - change (streq (str "union") (str "union")) with true. cbn iota.
    rewrite (arg_at c _ 1 _ Ha eq_refl), (arg_at c _ 2 _ Ha eq_refl). bind_red.
    rewrite (unionProc_spec st1 k j g Hk Hg c x y g' (key_at c _ k Ha eq_refl) Hex). done.
  - change (streq (str "split") (str "union")) with false. cbn iota. bind_red.
    change (streq (str "split") (str "split")) with true. cbn iota.
    rewrite (arg_at c _ 1 _ Ha eq_refl). bind_red.
    by rewrite (splitProc_spec st1 k j g Hk Hg c x g' (key_at c _ k Ha eq_refl) Hex).
Qed.

(** The edge created for the command. *)
Lemma user_edge c args o v o_id n :
  user_cmd g k args o v → c_argv c = args →
  (name ← arg c 0;
   if streq name (str "union")
   then a1 ← arg c 1; a2 ← arg c 2; Ret (createOpEdge OPTYPE_UNION (Some a1) (Some a2) o_id n)
   else a1 ← arg c 1; Ret (createOpEdge OPTYPE_SPLIT (Some a1) None o_id n)) =
  Ret (mk_dedge o o_id n).
Proof.
  clear Hco. destruct c. intros [x y Hx Hy|x Hx]; simpl; intros ->; reflexivity.
Qed.

Definition next (st : server) : server := set_op_num st (op_num st + 1).

Lemma consistent_next : consistent E (next st) k i j g sp es q.
Proof. destruct Hco. by split. Qed.

(** The whole branch for a command of a user, with the space it leaves. *)
Lemma local_process_run c args o v :
  user_cmd g k args o v → c_argv c = args → oid_range (next st) →
  ∃ st' c' g' s' o_id, let sp' := inserted sp LeftE q o o_id s' in
    local_process st c (Some i) = Ret (st', c')
    ∧ new_oid (next st) = Ret o_id ∧ edg LeftE sp' q = Some (mk_dedge o o_id (length sp))
    ∧ consistent E st' k i j g' sp' (es ++ [mk_dedge o o_id (length sp)]) (length sp)
    ∧ rel_g g' ≡ aapply (abs_op v) (rel_g g)
    ∧ op_num st' = (op_num st + 1)%Z ∧ port st' = port st
    ∧ c_argv c' = propagated args o_id (str "init" ++ ctx_of es)
    ∧ flag_ufs c' = 1%Z ∧ c_replies c' = c_replies c ++ [ROk] ∧ c_master c' = c_master c.
Proof.
  intros Hcmd Ha Hrange. pose proof Hco as [Hm Hk Hg Hl (lc & kk & Elc & Hi) (s & Hcur & Hag) Hn H2].
  pose proof co_graph_ok as Hok. destruct (user_cmd_on g k args o v Hok Hcmd) as [Hon Hsim].
  destruct (new_oid_spec _ Hrange) as (s1 & s2 & Eoid & _).
  set (o_id := s1 ++ _) in Eoid. pose proof (new_oid_nul_free _ _ Hrange Eoid) as Hoid.
  destruct (exec_graph_spec g o v Hok Hon) as (g' & Eg & Fg & Hok' & Rg).
  pose proof Fg as (_ & Fv & Fn).
  destruct (print_agree g' Hok') as (s' & Es & Hag' & Hp'); [by rewrite Fv|].
  pose proof Hag as (_ & _ & Rag). pose proof Hag' as (_ & Ok' & Rag'). simpl in Rag, Rag'.
  assert (current E (inserted sp LeftE q o o_id s') (es ++ [mk_dedge o o_id (length sp)])
    (length sp) s') as Hcur'.
  { apply (current_local E sp es q s o v); try done.
    - by rewrite <-Rag.
    - by rewrite Hp', Fn.
    - by rewrite <-Rag', Rg, Rag. }
  destruct (consistent_store E (next st) k i j g sp es q g' _ _ _ s' consistent_next Fg Hcur' Hag')
    as (st' & Est & Hco' & Hop & Hport).
  pose proof (current_forward _ _ _ _ _ Hcur) as Hf.
  destruct (locate_current sp es q Hf (cur_walk _ _ _ _ _ Hcur) (current_walk_oids _ _ _ _ _ Hcur))
    as (Ectx & _ & Ecur).
  exists st', (done_ok (set_argv c (propagated args o_id (str "init" ++ ctx_of es)))),
    g', s', o_id.
  split; [|split_and!; try done].
  2:{ rewrite (inserted_edg sp LeftE q s); [by rewrite decide_True|apply Hcur]. }
  assert (key_arg c = Ret k) as Hkey.
  { apply (key_at c args); [done|]. by destruct Hcmd. }
  assert (length sp ≠ 0) as Hne.
  { destruct (walk_leaf_edges _ _ _ _ (cur_walk _ _ _ _ _ Hcur)) as [? _]. lia. }
  unfold local_process, getCverlistVertices. rewrite Elc. cbn [list_of at_]. bind_red. rewrite Hi. bind_red.
  cbn [cv_vertices]. rewrite (checkArgv_user c args o v Hcmd Ha). bind_red. cbn [negb].
  rewrite Hkey. bind_red. rewrite Hk. bind_red. rewrite Ecur. bind_red.
  rewrite bool_decide_eq_false_2 by done. rewrite Ectx. bind_red. fold (next st). rewrite Eoid. bind_red.
  cbn [addVertice]. 
  pose proof (user_edge c args o v o_id (length sp) Hcmd Ha) as Hedge.
  destruct (arg c 0) as [name|]; [|done]. revert Hedge. bind_red. intros ->. bind_red.
  cbn [the]. bind_red. rewrite (rewrite_local_user c args o v) by done. bind_red.
  rewrite (exec_named_user (next st) (set_argv c (propagated args o_id (str "init" ++ ctx_of es)))
    args o v o_id (str "init" ++ ctx_of es) g' Hk Hg Hcmd eq_refl Eg). bind_red. rewrite (set_ufs_at (next st) j g Hg). bind_red. rewrite Es. bind_red.
  unfold inserted in Est. cbn [set_edge] in Est. by rewrite Est.
Qed.

Lemma local_process_spec c args o v :
  user_cmd g k args o v → c_argv c = args → oid_range (next st) →
  ∃ st' c' g' sp' o_id,
    local_process st c (Some i) = Ret (st', c')
    ∧ new_oid (next st) = Ret o_id ∧ edg LeftE sp' q = Some (mk_dedge o o_id (length sp))
    ∧ consistent E st' k i j g' sp' (es ++ [mk_dedge o o_id (length sp)]) (length sp)
    ∧ rel_g g' ≡ aapply (abs_op v) (rel_g g)
    ∧ op_num st' = (op_num st + 1)%Z ∧ port st' = port st
    ∧ c_argv c' = propagated args o_id (str "init" ++ ctx_of es)
    ∧ flag_ufs c' = 1%Z ∧ c_replies c' = c_replies c ++ [ROk].
Proof.
  intros H1 H2 H3. destruct (local_process_run c args o v H1 H2 H3) as (st' & c' & g' & s' & o_id & H).
  exists st', c', g', (inserted sp LeftE q o o_id s'), o_id.
  destruct H as (? & ? & ? & ? & ? & ? & ? & ? & ? & ? & _). by split_and!.
Qed.
End local.

(** ** A remote operation *)

(** A command the master sends: operation, identifier, context, key. *)
Inductive remote_cmd (k o_id ctx : bytes) : list bytes → op → Prop :=
  | remote_union t1 t2 :
      remote_cmd k o_id ctx [str "union"; t1; t2; o_id; ctx; k]
        (mk_op OPTYPE_UNION (Some t1) (Some t2))
  | remote_split t :
      remote_cmd k o_id ctx [str "split"; t; o_id; ctx; k] (mk_op OPTYPE_SPLIT (Some t) None).

(** The context of a command names a vertex from which only local operations
    lead on, up to the current one. *)
Definition context_at (sp : space) (q : nat) (ctx : bytes) (u : nat) (es : list dedge) : Prop :=
  locateVertice sp (Some ctx) = Ret (Some u) ∧ chain LeftE sp u es q.

Lemma remote_cmd_eval k o_id ctx args o c cu n :
  remote_cmd k o_id ctx args o → c_argv c = args →
  ∃ z, parse_cmd c = Ret (mk_op 0 (argv1 o) z, o_id, ctx)
    ∧ cmd_type c = Ret (optype o) ∧ (if bool_decide (optype o = OPTYPE_UNION) then z else None) = argv2 o
    ∧ mk_op (optype o) (argv1 o) z = o
    ∧ (a1 ← arg c 1;
       if bool_decide (optype o = OPTYPE_UNION)
       then a2 ← arg c 2; updateVerticeUfsFromState cu OPTYPE_UNION (Some a1) (Some a2) n
       else updateVerticeUfsFromState cu OPTYPE_SPLIT (Some a1) None n) =
      updateVerticeUfsFromState cu (optype o) (argv1 o) (argv2 o) n.
Proof.
  intros Hcmd Ha. destruct Hcmd as [t1 t2|t]; [exists (Some t2)|exists None];
    unfold parse_cmd, cmd_type, arg; rewrite Ha; by split_and!.
Qed.

(** The whole branch for a command of the master, with the loop it runs. *)
Lemma remote_process_run E st k i j g sp es q c args o v o_id ctx u cu es' :
  consistent E st k i j g sp es q →
  remote_cmd k o_id ctx args o → c_argv c = args → nul_free o_id →
  context_at sp q ctx u es' → cont sp u = Some cu → op_on (rel_t cu) o v → simple v →
  ∃ s1 st' c' g' sp' p e' vw,
    updateVerticeUfsFromState cu (optype o) (argv1 o) (argv2 o) (tlen E) = Ret s1
    ∧ ladder (S (length sp)) LeftE (inserted sp RightE u o o_id s1) u (length sp) (tlen E) [] =
        Ret (sp', q, p, ctx_of es')
    ∧ remote_process st c (Some i) = Ret (st', c')
    ∧ consistent E st' k i j g' sp' (es ++ [e']) p
    ∧ rel_g g' ≡ aapply (abs_op vw) (rel_g g) ∧ op_on (rel_g g) (e_op e') vw
    ∧ op_num st' = op_num st ∧ port st' = port st ∧ flag_ufs c' = 1%Z
    ∧ c_master c' = c_master c ∧ oid e' = o_id
    ∧ transformed (states_along sp u es') o = Ret (e_op e').
Proof.
  intros Hco Hcmd Ha Hoid (Hloc & Hch) Hu Hon Hsim.
  pose proof Hco as [Hm Hk Hg Hl (lc & kk & Elc & Hi) (s & Hcur & Hag) Hn H2].
  destruct (current_remote E sp es q s u cu o v o_id es') as
    (t & sp2 & p & e' & s2 & vw & Et & El & He' & Hcur2 & Eoid & Hx & Hon2 & Hsim2 & Hr2); try done.
  pose proof Hag as (Hok & _ & Rag). simpl in Hok, Rag.
  rewrite <-Rag in Hon2, Hr2.
  destruct (exec_graph_spec g (e_op e') vw Hok Hon2) as (g' & Eg & Fg & Hok' & Rg).
  assert (agree g' s2) as Hag'.
  { destruct (current_text _ _ _ _ _ Hcur2) as (_ & Ok2 & _). split; [done|]. split; [done|].
    simpl. by rewrite Rg, Hr2. }
  destruct (consistent_store E st k i j g sp es q g' sp2 (es ++ [e']) p s2 Hco Fg Hcur2 Hag')
    as (st' & Est & Hco' & Hop & Hport).
  exists t, st', (done_ok c), g', sp2, p, e', vw. do 2 (split; [done|]). split; [|by split_and!].
  assert (key_arg c = Ret k) as Hkey by (apply (key_at c args); [done|by destruct Hcmd]).
  unfold remote_process, getCverlistVertices. rewrite Elc. cbn [list_of at_]. bind_red.
  rewrite Hi. bind_red. cbn [cv_vertices cv_len_ufs].
  destruct (remote_cmd_eval k o_id ctx args o c cu (tlen E) Hcmd Ha) as (z & Ep & Etype & Ez & _ & Eup).
  rewrite Et in Eup.
  rewrite Ep. bind_red. rewrite Hloc. bind_red. cbn [addVertice]. rewrite Etype. bind_red. cbn [the]. bind_red.
  unfold createOpEdge. cbn [argv1 argv2]. rewrite Ez.
  assert (mk_op (optype o) (argv1 o) (argv2 o) = o) as -> by by destruct o.
  rewrite (content_of_cont _ u cu).
  2:{ change (set_redge ?l ?q ?e) with (set_edge RightE l q e). by rewrite cont_set_edge, cont_add. }
  bind_red. destruct (arg c 1) as [a1|]; [|done]. revert Eup. bind_red. intros ->. bind_red.
  unfold inserted in El. cbn [set_edge] in El. rewrite length_set_content.
  change (set_redge ?l ?q ?e) with (set_edge RightE l q e) in *.
  rewrite length_set_edge, length_add, El. bind_red. rewrite (edge_of_edg RightE sp2 q e') by done. bind_red.
  rewrite (exec_edge_spec st k j g Hk Hg c (e_op e') g' Hkey Eg). bind_red. by rewrite Est.
Qed.

Lemma remote_process_spec E st k i j g sp es q c args o v o_id ctx u cu es' :
  consistent E st k i j g sp es q →
  remote_cmd k o_id ctx args o → c_argv c = args → nul_free o_id →
  context_at sp q ctx u es' → cont sp u = Some cu → op_on (rel_t cu) o v → simple v →
  ∃ st' c' g' sp' p e' vw,
    remote_process st c (Some i) = Ret (st', c')
    ∧ consistent E st' k i j g' sp' (es ++ [e']) p
    ∧ rel_g g' ≡ aapply (abs_op vw) (rel_g g) ∧ op_on (rel_g g) (e_op e') vw
    ∧ op_num st' = op_num st ∧ port st' = port st ∧ flag_ufs c' = 1%Z
    ∧ oid e' = o_id ∧ transformed (states_along sp u es') o = Ret (e_op e').
Proof.
  intros. destruct (remote_process_run E st k i j g sp es q c args o v o_id ctx u cu es')
    as (s1 & st' & c' & g' & sp' & p & e' & vw & _ & _ & H'); try done.
  exists st', c', g', sp', p, e', vw. destruct H' as (? & ? & ? & ? & ? & ? & ? & ? & ? & ?). by split_and!.
Qed.
