(* ===== verification/Init.v ===== *)
(** * Init: creating an object

    [uinitCommand] (src/src/ufs.c) reads the classes of a new object from a text
    such as "1,2/3/4/5", builds its graph and the initial state spaces.  From a
    well-formed text the graph has exactly the elements and classes of the text,
    and on a slave the new replica is consistent. *)
From S2P Require Import Prelude Sds Partition OtStr ClassText TextState OtUfs Graph UnionSplit GraphText Object Space Ladder Commands Control Replica.

(** ** Building the graph *)

(** [sdssplitlen(eqcs[i],sdslen(eqcs[i]),",",1,&num)] *)
Definition class_elements (eqc : bytes) : out (list bytes) := split1 eqc (length eqc) COMMA.

(** The first loop: the number of elements. *)
Fixpoint count_elements (eqcs : list bytes) : out nat :=
  match eqcs with
  | [] => Ret 0
  | eqc :: eqcs => elements ← class_elements eqc; n ← count_elements eqcs; Ret (length elements + n)
  end.

(** New vertices without edges at the end of [dlist]. *)
Definition add_vertices (g : cudGraph) (elements : list bytes) : cudGraph :=
  set_dlist g (dlist g ++ ((λ e, mk_vertex (sdsnew e) []) <$> elements)).

(** [for (m = 0; m < num; m++) if (m != k) createLinks(...)] *)
Definition link_row (elements : list bytes) (k : nat) (ek : bytes) (g : cudGraph) : out cudGraph :=
  out_fold (λ g '(m, em), if bool_decide (m ≠ k) then link_names g ek em else Ret g) g
    (zip (seq 0 (length elements)) elements).

Definition add_class (g : cudGraph) (eqc : bytes) : out cudGraph :=
  elements ← class_elements eqc;
  let g := add_vertices g elements in
  out_fold (λ g '(k, ek), link_row elements k ek g) g (zip (seq 0 (length elements)) elements).

Definition build_graph (k text : bytes) : out cudGraph :=
  eqcs ← split1 text (length text) SLASH;
  n ← count_elements eqcs;
  out_fold add_class (mk_graph (sdsnew k) n 0 []) eqcs.

(** ** The command *)

(** The space of a new object: one vertex with the text of the graph. *)
Definition new_top (g : cudGraph) : out (space * bytes) :=
  s ← updateVerticeUfs g;
  Ret ([mk_vertice (Some s) None None], s).

(** The master's loop over its slaves; [len_ufs] is set by the first. *)
Fixpoint new_spaces (g : cudGraph) (k : bytes) (ids : list Z) (len_ufs : nat) : out (list verlist) :=
  match ids with
  | [] => Ret []
  | id :: ids =>
    '(sp, s) ← new_top g;
    let len_ufs := if bool_decide (len_ufs = 0) then strlen s else len_ufs in
    rest ← new_spaces g k ids len_ufs;
    let v := setVerlistUfsLen (createVerlist id k) len_ufs in
    Ret (mk_verlist (vl_key v) (vl_id v) (vl_len_ufs v) (vl_vertices v ++ sp) :: rest)
  end.

Definition uinitCommand (st : server) (c : client) : out (server * client) :=
  k ← arg c 1;
  text ← arg c 2;
  g ← build_graph k text;
  let st := set_ufslist st (default [] (ufslist st) ++ [g]) in
  if masterhost st then
    let st := set_cspaces st (default [] (cspacelist st)) in
    b ← existCVerlist st k;
    if b : bool then Ret (st, addReply (set_flag c 0) RExistUfs)
    else
      '(sp, s) ← new_top g;
      let v := setCverlistUfsLen (createCVerlist k) (strlen s) in
      let v := mk_cverlist (cv_key v) (cv_len_ufs v) (cv_vertices v ++ sp) in
      Ret (set_cspaces st (default [] (cspacelist st) ++ [v]), done_ok c)
  else
    let st := set_sspaces st (default [] (sspacelist st)) in
    l ← new_spaces g k (default [] (slaves st)) 0;
    Ret (set_sspaces st (default [] (sspacelist st) ++ l), done_ok c).

(** ** The number of entries does not matter to the edges *)

Definition with_num (n : nat) (g : cudGraph) : cudGraph :=
  mk_graph (key g) n (edgenum g) (dlist g).

Lemma fmap_bind {A B C} (f : A → B) (m : out A) (k : B → out C) :
  (f <$> m) ≫= k = m ≫= (λ a, k (f a)).
Proof. by destruct m. Qed.

Lemma push_edge_num n g i j : push_edge (with_num n g) i j = with_num n <$> push_edge g i j.
Proof. unfold push_edge. change (vget (with_num n g) i) with (vget g i). by destruct (vget g i). Qed.

Lemma createEdge_num n g i j : createEdge (with_num n g) i j = with_num n <$> createEdge g i j.
Proof.
  unfold createEdge. change (existEdge (with_num n g)) with (existEdge g).
  destruct (if bool_decide (i = j) then _ else _) as [[]|]; simpl; try done.
  destruct (existEdge g i j) as [[]|] eqn:E; simpl; try done.
  - change (existEdge (with_num n g)) with (existEdge g).
    destruct (existEdge g j i) as [[]|]; simpl; try done. apply push_edge_num.
  - rewrite push_edge_num. destruct (push_edge g i j) as [g1|]; simpl; [|done].
    change (existEdge (with_num n g1)) with (existEdge g1).
    destruct (existEdge g1 j i) as [[]|]; simpl; try done. apply push_edge_num.
Qed.

Lemma out_fold_num {A} n (f : cudGraph → A → out cudGraph) g l :
  (∀ g a, f (with_num n g) a = with_num n <$> f g a) →
  out_fold f (with_num n g) l = with_num n <$> out_fold f g l.
Proof.
  intros Hf. revert g. induction l as [|a l IH]; intros g; simpl; [done|].
  rewrite Hf. destruct (f g a); simpl; [apply IH|done].
Qed.

Lemma links_pass_num n g i j : links_pass (with_num n g) i j = with_num n <$> links_pass g i j.
Proof.
  unfold links_pass. change (vget (with_num n g) i) with (vget g i).
  destruct (vget g i) as [v|]; simpl; [|done]. apply out_fold_num. intros g1 p.
  change (vget (with_num n g1) j) with (vget g1 j). destruct (vget g1 j); simpl; [|done].
  apply out_fold_num. intros g2 q. unfold links_inner. case_bool_decide; simpl.
  - rewrite createEdge_num, fmap_bind. destruct (createEdge g2 p j); simpl; [|done].
    apply createEdge_num.
  - apply createEdge_num.
Qed.

Lemma createLinks_num n g i j : createLinks (with_num n g) i j = with_num n <$> createLinks g i j.
Proof.
  unfold createLinks. rewrite createEdge_num, fmap_bind.
  destruct (createEdge g i j) as [g1|]; simpl; [|done]. rewrite links_pass_num, fmap_bind.
  destruct (links_pass g1 i j) as [g2|]; simpl; [|done]. apply links_pass_num.
Qed.

(** An element that is present is found before any uninitialised entry. *)
Lemma locate_present g e n i k y :
  Forall name_ok (names g) → nul_free e →
  list_find (λ x, x = e) (drop i (names g)) = Some (k, y) → k < n →
  locate_loop n g e (Z.of_nat i) = Ret (Z.of_nat (i + k)).
Proof.
  intros Hn He. revert i k. induction n as [|n IH]; intros i k Hf Hk; [lia|]. cbn [locate_loop].
  assert (i < length (dlist g)) as Hi.
  { destruct (decide (i < length (dlist g))); [done|].
    rewrite drop_ge in Hf by (unfold names; rewrite length_fmap; lia). done. }
  destruct (vget_valid g (Z.of_nat i)) as (v & Hv & _ & _ & Hname); [unfold valid; lia|].
  rewrite Nat2Z.id in Hname. rewrite Hv. bind_red.
  rewrite (drop_S (names g) (data v) i Hname) in Hf. simpl in Hf.
  assert (nul_free (data v)) as Hd.
  { rewrite Forall_forall in Hn. by eapply name_nul_free, Hn, list_elem_of_lookup_2. }
  destruct (streq e (data v)) eqn:E.
  - apply streq_iff in E; [|done..]. subst. rewrite decide_True in Hf by done.
    injection Hf as <- _. f_equal. lia.
  - rewrite decide_False in Hf.
    2:{ intros <-. by rewrite (proj2 (streq_iff _ _ Hd Hd) eq_refl) in E. }
    destruct (list_find _ (drop (S i) (names g))) as [[k' y']|] eqn:Ef; [|done].
    simpl in Hf. injection Hf as <- <-.
    replace (Z.of_nat i + 1)%Z with (Z.of_nat (S i)) by lia.
    rewrite (IH (S i) k') by (done || lia). f_equal. lia.
Qed.

Lemma locateVex_num n g e :
  wf g → e ∈ names g → length (dlist g) ≤ n → locateVex (with_num n g) e = Ret (vpos g e).
Proof.
  intros Hwf He Hn. unfold locateVex, vpos.
  destruct (list_find_elem_of (λ x, x = e) (names g) e He eq_refl) as [[k y] Hk]. rewrite Hk.
  apply (locate_present (with_num n g) e n 0 k y);
    [apply Hwf|by eapply names_nul_free|done|].
  apply list_find_Some in Hk as (Hk & _ & _). apply lookup_lt_Some in Hk.
  unfold names in Hk. rewrite length_fmap in Hk. simpl. lia.
Qed.

Lemma link_names_num n g x y :
  wf g → x ∈ names g → y ∈ names g → length (dlist g) ≤ n →
  link_names (with_num n g) x y = with_num n <$> link_names g x y.
Proof.
  intros Hwf Hx Hy Hn. unfold link_names. rewrite !locateVex_num by done. bind_red.
  rewrite !locateVex_spec by (done || by eapply names_nul_free). bind_red. apply createLinks_num.
Qed.

(** ** Adding the elements of a class *)

Section add.
Context (g : cudGraph) (es : list bytes).
Context (Hok : graph_ok g) (Hes : Forall name_ok es) (Hnd : NoDup (names g ++ es)).

Definition grown : cudGraph := with_num (length (dlist g) + length es) (add_vertices g es).

Lemma grown_names : names grown = names g ++ es.
Proof.
  unfold grown, names. simpl. rewrite fmap_app, <-list_fmap_compose. f_equal.
  assert (Forall nul_free es) as Hnf by (eapply Forall_impl; [exact Hes|apply name_nul_free]).
  clear -Hnf. induction Hnf as [|e es He Hes IH]; [done|]. rewrite fmap_cons. simpl.
  by rewrite sdsnew_nul_free, IH.
Qed.

Lemma grown_adjl i : adjl grown i = adjl g i.
Proof.
  unfold adjl, vget. simpl. case_bool_decide; [done|].
  destruct (decide (Z.to_nat i < length (dlist g))) as [Hi|Hi]; [by rewrite lookup_app_l|].
  rewrite lookup_app_r, list_lookup_fmap by lia. rewrite (lookup_ge_None_2 (dlist g)) by lia.
  by destruct (es !! (Z.to_nat i - length (dlist g))).
Qed.

Lemma grown_valid i : valid g i → valid grown i.
Proof. unfold valid. simpl. rewrite length_app. lia. Qed.

Lemma grown_wf : wf grown.
Proof.
  destruct Hok as [Hwf _]. split.
  - simpl. by rewrite length_app, length_fmap.
  - rewrite grown_names. apply Forall_app. split; [apply Hwf|done].
  - by rewrite grown_names.
  - intros i. rewrite grown_adjl. apply Hwf.
  - intros i j. unfold edge. rewrite grown_adjl. intros H. apply grown_valid. by apply (wf_range g Hwf i).
  - intros i. unfold edge. rewrite grown_adjl. apply (wf_irr g Hwf).
  - intros i j. unfold edge. rewrite !grown_adjl. apply (wf_sym g Hwf).
Qed.

Lemma grown_ok : graph_ok grown.
Proof.
  destruct Hok as [_ Hcl]. split; [apply grown_wf|].
  intros i j k. unfold edge. rewrite !grown_adjl. apply Hcl.
Qed.

Lemma grown_vpos x : x ∈ names g → vpos grown x = vpos g x.
Proof.
  destruct Hok as [Hwf _]. intros Hx. destruct (vpos_in g x Hwf Hx) as [Hv Hn].
  apply vpos_name; [apply grown_wf|by apply grown_valid|].
  rewrite grown_names. by apply lookup_app_l_Some.
Qed.

Lemma grown_pos_old x : x ∈ names grown → valid g (vpos grown x) → x ∈ names g.
Proof.
  intros Hx Hv. destruct (vpos_in grown x grown_wf Hx) as [_ Hn]. rewrite grown_names in Hn.
  rewrite lookup_app_l in Hn; [by eapply list_elem_of_lookup_2|].
  unfold valid in Hv. unfold names. rewrite length_fmap. lia.
Qed.

(** The new elements are alone. *)
Lemma grown_rel x y : rel_g grown x y ↔ rel_g g x y ∨ (x = y ∧ x ∈ es).
Proof.
  pose proof Hok as [Hwf _]. pose proof grown_wf as Hwf'. split.
  - intros (Hx & Hy & [E|E]).
    + assert (x = y) as <- by (by apply (vpos_eq grown)).
      rewrite grown_names in Hx. apply elem_of_app in Hx as [Hx|Hx]; [left; by apply rel_g_refl|by right].
    + left. unfold edge in E. rewrite grown_adjl in E.
      assert (x ∈ names g) as Hxg by (apply grown_pos_old; [done|by eapply edge_valid]).
      assert (y ∈ names g) as Hyg by (apply grown_pos_old; [done|by eapply wf_range]).
      rewrite !grown_vpos in E by done. split_and!; try done. by right.
  - intros [(Hx & Hy & H)|[<- Hx]].
    + assert (x ∈ names grown ∧ y ∈ names grown) as [Hx' Hy'] by (rewrite grown_names; set_solver).
      split_and!; try done. rewrite !grown_vpos by done. unfold near, edge in *. by rewrite grown_adjl.
    + apply rel_g_refl. rewrite grown_names. set_solver.
Qed.
End add.

(** ** Linking the elements of a class *)

Section link_class.
Context (g0 : cudGraph) (es : list bytes) (n : nat).
Context (Hok : graph_ok g0) (Hin : ∀ e, e ∈ es → e ∈ names g0) (Hn : length (dlist g0) ≤ n).
Context (Halone : ∀ x e, e ∈ es → rel_g g0 x e → x ∈ es).

(** Edges have been added between elements of [es] only. *)
Record linking (g : cudGraph) : Prop := {
  li_frame : frame g0 g;
  li_ok : graph_ok g;
  li_mono : ∀ x y, rel_g g0 x y → rel_g g x y;
  li_bound : ∀ x y, rel_g g x y → rel_g g0 x y ∨ (x ∈ es ∧ y ∈ es);
}.

Lemma linking_start : linking g0.
Proof. split; auto. done. Qed.

Lemma linking_alone g x e : linking g → e ∈ es → rel_g g x e → x ∈ es.
Proof. intros L He H. destruct (li_bound g L x e H) as [H0|[? _]]; [by eapply Halone|done]. Qed.

Lemma linking_link g a b :
  linking g → a ∈ es → b ∈ es →
  returns (link_names (with_num n g) a b)
    (λ st, ∃ g', st = with_num n g' ∧ linking g' ∧ (∀ x y, rel_g g x y → rel_g g' x y)
       ∧ rel_g g' a b).
Proof.
  intros L Ha Hb. pose proof L as [F Hokg Hm Hbd]. pose proof Hokg as [Hwf _].
  assert (a ∈ names g ∧ b ∈ names g) as [Han Hbn] by (rewrite (frame_names g0 g); auto).
  rewrite link_names_num; try done.
  2:{ pose proof F as (_ & _ & Hnm). apply (f_equal length) in Hnm. unfold names in Hnm.
      rewrite !length_fmap in Hnm. lia. }
  destruct (link_names_spec g a b Hokg Han Hbn) as (g' & -> & F' & Hok' & R').
  exists (with_num n g'). split; [done|]. exists g'. split; [done|].
  pose proof (rel_g_per g Hokg) as Hper. pose proof Hper as [Hs Ht]. split_and!.
  - split; [by etrans|done|..].
    + intros x y H. apply R'. left. by apply Hm.
    + intros x y H%R'. destruct H as [H|[[H1 H2]|[H1 H2]]]; [by apply Hbd|..]; right.
      * split; [by apply (linking_alone g x a)|]. by apply (linking_alone g y b), Hs.
      * split; [by apply (linking_alone g x b)|]. by apply (linking_alone g y a), Hs.
  - intros x y H. apply R'. by left.
  - apply R'. right. left. split; by apply rel_g_refl.
Qed.

Lemma link_row_spec g k ek :
  linking g → ek ∈ es →
  returns (link_row es k ek (with_num n g))
    (λ st, ∃ g', st = with_num n g' ∧ linking g' ∧ (∀ x y, rel_g g x y → rel_g g' x y)
       ∧ ∀ m em, es !! m = Some em → m ≠ k → rel_g g' ek em).
Proof.
  intros L Hek. unfold link_row.
  eapply returns_mono; [apply returns_fold with (I := λ seen st,
    ∃ g', st = with_num n g' ∧ linking g' ∧ (∀ x y, rel_g g x y → rel_g g' x y)
       ∧ ∀ m em, (m, em) ∈ seen → m ≠ k → rel_g g' ek em)|].
  - exists g. split_and!; try done. set_solver.
  - intros seen [m em] rest st Eq (g' & -> & L' & Hmono & Hseen).
    assert (em ∈ es) as Hem.
    { assert ((m, em) ∈ zip (seq 0 (length es)) es) as H by (rewrite Eq; set_solver).
      by apply elem_of_zip_r in H. }
    case_bool_decide as Hmk.
    + eapply returns_mono; [by apply linking_link|].
      intros st (g'' & -> & L'' & Hmono' & Hrel). exists g''. split_and!; try done; [by auto|].
      intros m' em' [H|H%list_elem_of_singleton]%elem_of_app Hne; [by apply Hmono', Hseen with m'|].
      by simplify_eq.
    + apply returns_ret. exists g'. split_and!; try done.
      intros m' em' [H|H%list_elem_of_singleton]%elem_of_app Hne; [by apply Hseen with m'|].
      by simplify_eq.
  - intros st (g' & -> & L' & Hmono & Hall). exists g'. split_and!; try done.
    intros m em Hm Hne. apply Hall with m; [|done].
    apply list_elem_of_lookup. exists m.
    rewrite lookup_zip_with, (lookup_seq_lt 0 _ m) by (by eapply lookup_lt_Some).
    simpl. by rewrite Hm.
Qed.

Lemma link_class_spec :
  returns (out_fold (λ g '(k, ek), link_row es k ek g) (with_num n g0) (zip (seq 0 (length es)) es))
    (λ st, ∃ g', st = with_num n g' ∧ frame g0 g' ∧ graph_ok g'
       ∧ ∀ x y, rel_g g' x y ↔ rel_g g0 x y ∨ (x ∈ es ∧ y ∈ es)).
Proof.
  eapply returns_mono; [apply returns_fold with (I := λ seen st,
    ∃ g', st = with_num n g' ∧ linking g'
       ∧ ∀ k ek m em, (k, ek) ∈ seen → es !! m = Some em → m ≠ k → rel_g g' ek em)|].
  - exists g0. split_and!; try done; [apply linking_start|set_solver].
  - intros seen [k ek] rest st Eq (g' & -> & L' & Hseen).
    assert (ek ∈ es) as Hek.
    { assert ((k, ek) ∈ zip (seq 0 (length es)) es) as H by (rewrite Eq; set_solver).
      by apply elem_of_zip_r in H. }
    eapply returns_mono; [by apply link_row_spec|].
    intros st (g'' & -> & L'' & Hmono & Hrow). exists g''. split_and!; try done.
    intros k' ek' m em [H|H%list_elem_of_singleton]%elem_of_app Hm Hne.
    + apply Hmono. by apply (Hseen k' ek' m em).
    + simplify_eq. by apply (Hrow m em).
  - intros st (g' & -> & [F Hok' Hmono Hbound] & Hall). exists g'. split_and!; try done; try apply F.
    intros x y. split; [apply Hbound|]. intros [H|[Hx Hy]]; [by apply Hmono|].
    apply list_elem_of_lookup in Hx as [k Hk], Hy as [m Hm].
    destruct (decide (m = k)) as [->|Hne].
    + simplify_eq. apply rel_g_refl. rewrite (frame_names g0 g') by done.
      apply Hin. by eapply list_elem_of_lookup_2.
    + apply (Hall k x m y); try done. apply list_elem_of_lookup. exists k.
      rewrite lookup_zip_with, (lookup_seq_lt 0 _ k) by (by eapply lookup_lt_Some).
      simpl. by rewrite Hk.
Qed.
End link_class.

(** ** The whole graph *)

Lemma add_class_spec n g c :
  graph_ok g → class_ok c → NoDup (names g ++ c) → length (names g) + length c ≤ n →
  returns (add_class (with_num n g) (render_class c))
    (λ st, ∃ g', st = with_num n g' ∧ graph_ok g' ∧ key g' = key g ∧ names g' = names g ++ c
       ∧ ∀ x y, rel_g g' x y ↔ rel_g g x y ∨ (x ∈ c ∧ y ∈ c)).
Proof.
  intros Hok Hc Hnd Hn. pose proof Hc as [_ Hcn]. unfold add_class, class_elements.
  rewrite split1_class by done. bind_red.
  change (add_vertices (with_num n g) c) with (with_num n (grown g c)).
  pose proof (grown_names g c Hcn) as Hnames.
  pose proof (grown_rel g c Hok Hcn Hnd) as Hrel.
  eapply returns_mono; [apply (link_class_spec (grown g c) c n)|].
  - by apply grown_ok.
  - intros e He. rewrite Hnames. set_solver.
  - unfold names in Hn. rewrite length_fmap in Hn. simpl. rewrite length_app, length_fmap. lia.
  - intros x e He. rewrite Hrel. intros [(_ & Heg & _)|[-> ?]]; [|done].
    apply NoDup_app in Hnd as (_ & Hdis & _). by destruct (Hdis e Heg).
  - intros st (g' & -> & F & Hok' & Hr). pose proof F as (Hk & _ & Hnm). exists g'.
    split_and!; try done; try apply Hok'; [by rewrite Hnm, Hnames|].
    intros x y. rewrite Hr, Hrel. split; [|tauto]. intros [[?|[<- ?]]|?]; tauto.
Qed.

Lemma count_elements_spec P :
  Forall class_ok P → count_elements (render_class <$> P) = Ret (length (concat P)).
Proof.
  induction 1 as [|c P Hc HP IH]; [done|]. rewrite fmap_cons. cbn [count_elements].
  unfold class_elements. rewrite split1_class by done. bind_red. rewrite IH. bind_red.
  simpl. by rewrite length_app.
Qed.

Lemma empty_ok k : graph_ok (mk_graph k 0 0 []).
Proof.
  assert (∀ i, adjl (mk_graph k 0 0 []) i = []) as Ha.
  { intros i. unfold adjl, vget. simpl. case_bool_decide; by rewrite ?lookup_nil. }
  assert (∀ i j, ¬ edge (mk_graph k 0 0 []) i j) as He by (intros i j; unfold edge; rewrite Ha; set_solver).
  split; [split|].
  - done.
  - by constructor.
  - by constructor.
  - intros i. rewrite Ha. constructor.
  - intros i j H. by destruct (He i j).
  - intros i. apply He.
  - intros i j H. by destruct (He i j).
  - intros i j l H. by destruct (He i j).
Qed.

Lemma build_graph_spec k P :
  part_ok P → nul_free k →
  ∃ g, build_graph k (render P) = Ret g ∧ graph_ok g ∧ key g = k ∧ names g = concat P
    ∧ rel_g g ≡ rel_of P.
Proof.
  intros (Hne & HP & Hnd) Hk. unfold build_graph.
  assert (split1 (render P) (length (render P)) SLASH = Ret (render_class <$> P)) as ->
    by (by apply split1_render).
  bind_red. rewrite count_elements_spec by done. bind_red. rewrite sdsnew_nul_free by done.
  set (n := length (concat P)).
  assert (returns (out_fold add_class (mk_graph k n 0 []) (render_class <$> P))
    (λ st, ∃ g, st = with_num n g ∧ graph_ok g ∧ key g = k ∧ names g = concat P
       ∧ rel_g g ≡ rel_of P)) as (st & E & g & -> & Hok & Hkey & Hnames & Hrel).
  2:{ exists g. rewrite E. split_and!; try done; try apply Hok.
      f_equal. destruct Hok as [Hwf _]. unfold with_num.
      replace n with (vertexnum g); [by destruct g|].
      rewrite (wf_num g Hwf). unfold n. rewrite <-Hnames. unfold names. by rewrite length_fmap. }
  assert (∀ l, out_fold add_class (mk_graph k n 0 []) (render_class <$> l) =
    out_fold (λ g c, add_class g (render_class c)) (mk_graph k n 0 []) l) as ->.
  { generalize (mk_graph k n 0 []). intros g l. revert g.
    induction l as [|c l IH]; intros g; [done|]. rewrite fmap_cons. cbn [out_fold].
    destruct (add_class g (render_class c)); [apply IH|done]. }
  apply returns_fold with (I := λ seen st, ∃ g, st = with_num n g ∧ graph_ok g ∧ key g = k
    ∧ names g = concat seen ∧ rel_g g ≡ rel_of seen).
  { exists (mk_graph k 0 0 []). split; [done|]. split; [apply empty_ok|]. split_and!; try done.
    intros x y. split; [intros (H & _); set_solver|intros (c & H & _); set_solver]. }
  intros seen c rest st EP (g & -> & Hok & Hkey & Hnames & Hrel).
  assert (class_ok c) as Hc by (rewrite Forall_forall in HP; apply HP; rewrite EP; set_solver).
  assert (NoDup (names g ++ c)) as Hnd'.
  { rewrite Hnames. rewrite EP, concat_app in Hnd. simpl in Hnd. rewrite app_assoc in Hnd.
    by apply NoDup_app in Hnd as [? _]. }
  eapply returns_mono; [apply (add_class_spec n g c); try done|].
  { unfold n. rewrite Hnames, EP, concat_app, !length_app. simpl. rewrite length_app. lia. }
  intros st (g' & -> & Hok' & Hkey' & Hnames' & Hrel'). exists g'.
  split; [done|]. split; [done|]. split; [congruence|]. split.
  - rewrite Hnames', Hnames, concat_app. simpl. by rewrite app_nil_r.
  - intros x y. rewrite Hrel', (Hrel x y). unfold rel_of. split.
    + intros [(d & Hd & H)|[Hx Hy]]; [exists d|exists c]; set_solver.
    + intros (d & [Hd|Hd%list_elem_of_singleton]%elem_of_app & Hx & Hy).
      * left. by exists d.
      * subst. by right.
Qed.

(** ** A new replica is consistent *)

Lemma top_edg d s k : edg d [mk_vertice (Some s) None None] k = None.
Proof. unfold edg. destruct k as [|k]; simpl; [by destruct d|done]. Qed.

Lemma top_current E s :
  text_ok s → concat (parse s) ≡ₚ E → current E [mk_vertice (Some s) None None] [] 0 s.
Proof.
  intros Hok HE. split.
  - split.
    + intros d q e. by rewrite top_edg.
    + intros [|q] Hq; [by exists s|simpl in Hq; lia].
    + intros d q e t. by rewrite top_edg.
  - apply walk_end_f; [simpl; lia|]. unfold fedge. by rewrite !top_edg.
  - done.
  - intros d k e. by rewrite top_edg.
Qed.

Lemma list_find_snoc {A} (P : A → Prop) `{!∀ x, Decision (P x)} l a :
  Forall (λ x, ¬ P x) l → P a → list_find P (l ++ [a]) = Some (length l, a).
Proof.
  intros Hl Ha. induction Hl as [|x l Hx Hl IH]; simpl; [by rewrite decide_True|].
  by rewrite decide_False, IH.
Qed.

(** Reading a field of an updated server. *)
Ltac server_simpl :=
  cbn [set_cspaces set_sspaces set_ufslist set_op_num ufslist cspacelist sspacelist list_of
       default from_option id masterhost slaves].

(** No object with this key yet. *)
Definition fresh_key (st : server) (k : bytes) : Prop :=
  Forall (λ g, ¬ (streq (key g) k = true)) (default [] (ufslist st)) ∧
  Forall (λ s, ¬ (sdscmp (cv_key s) k = 0%Z)) (default [] (cspacelist st)).

(** With the state space it leaves. *)
Lemma uinit_slave_run st c k P :
  masterhost st = true → arg c 1 = Ret k → arg c 2 = Ret (render P) → nul_free k →
  fresh_key st k → part_ok P → 2 ≤ length (concat P) →
  ∃ st' g s, uinitCommand st c = Ret (st', done_ok c)
    ∧ consistent (concat P) st' k (length (default [] (cspacelist st)))
        (length (default [] (ufslist st))) g [mk_vertice (Some s) None None] [] 0
    ∧ rel_g g ≡ rel_of P ∧ op_num st' = op_num st ∧ port st' = port st.
Proof.
  intros Hm Hk Ht Hnf [Hfg Hfc] HP Hn. unfold uinitCommand. rewrite Hk. bind_red. rewrite Ht. bind_red.
  destruct (build_graph_spec k P HP Hnf) as (g & -> & Hok & Hkey & Hnames & Hrel). bind_red.
  cbn [set_ufslist masterhost]. rewrite Hm. cbn [set_cspaces cspacelist].
  assert (2 ≤ vertexnum g) as H2.
  { destruct Hok as [Hwf _]. rewrite (wf_num g Hwf). rewrite <-Hnames in Hn.
    unfold names in Hn. by rewrite length_fmap in Hn. }
  destruct (print_agree g Hok H2) as (s & Es & Hag & Hperm).
  unfold existCVerlist. server_simpl. bind_red.
  assert (list_find (λ s, sdscmp (cv_key s) k = 0%Z) (default [] (cspacelist st)) = None) as ->.
  { apply list_find_None. exact Hfc. }
  rewrite bool_decide_eq_false_2 by (by intros [? ?]). unfold new_top. rewrite Es. bind_red.
  pose proof Hag as (_ & Oks & _). simpl in Oks.
  assert (text_of (concat P) [mk_vertice (Some s) None None] 0 s) as Htext.
  { split_and!; try done; try apply Oks. by rewrite Hperm, Hnames. }
  assert (strlen s = tlen (concat P)) as Hlen.
  { rewrite <-(text_of_length _ _ _ _ Htext). apply strlen_nul_free.
    destruct Oks as [(_ & Hcl & _) <-]. by apply render_nul_free. }
  eexists _, g, s. split; [done|]. split; [|done]. split.
  - exact Hm.
  - unfold getUfs. server_simpl. bind_red. rewrite list_find_snoc; [done|done|].
    rewrite Hkey. by apply streq_iff.
  - unfold ufs_at. server_simpl. bind_red. cbn [at_].
    by rewrite lookup_app_r, Nat.sub_diag by lia.
  - unfold locateCVerlist. server_simpl. bind_red.
    rewrite list_find_snoc; [done|exact Hfc|]. simpl. apply sdscmp_zero. by apply sdsnew_nul_free.
  - eexists _, _. split; [done|]. server_simpl.
    rewrite lookup_app_r, Nat.sub_diag by lia. simpl. by rewrite Hlen.
  - exists s. split; [|done]. apply top_current; [apply Oks|]. by rewrite Hperm, Hnames.
  - by rewrite Hnames.
  - done.
Qed.

Lemma uinit_slave st c k P :
  masterhost st = true → arg c 1 = Ret k → arg c 2 = Ret (render P) → nul_free k →
  fresh_key st k → part_ok P → 2 ≤ length (concat P) →
  ∃ st' g sp, uinitCommand st c = Ret (st', done_ok c)
    ∧ consistent (concat P) st' k (length (default [] (cspacelist st)))
        (length (default [] (ufslist st))) g sp [] 0
    ∧ rel_g g ≡ rel_of P.
Proof.
  intros. destruct (uinit_slave_run st c k P) as (st' & g & s & ? & ? & ? & _); try done. by eexists st', g, _.
Qed.

(** ** Properties *)

(** C17: building a graph from the text of well-formed classes gives a graph with
    their elements.  With two elements or more, printing it gives back a text with
    the same elements and the same classes.  With a single element the text
    printed is its name when the name has one byte, and its name without the last
    byte otherwise. *)
Theorem init_print_roundtrip k P :
  part_ok P → nul_free k →
  ∃ g, build_graph k (render P) = Ret g ∧ graph_ok g ∧ key g = k ∧ names g = concat P
    ∧ (2 ≤ length (concat P) → ∃ P', updateVerticeUfs g = Ret (render P') ∧ part_ok P'
        ∧ rel_of P' ≡ rel_of P ∧ concat P' ≡ₚ concat P)
    ∧ (∀ x, concat P = [x] →
        updateVerticeUfs g = Ret (if bool_decide (length x = 1) then x else take (length x - 1) x)).
Proof.
  intros HP Hk. destruct (build_graph_spec k P HP Hk) as (g & E & Hok & Hkey & Hn & Hr).
  exists g. do 4 (split; [done|]). split; [|intros x Hx; apply updateVerticeUfs_one; by rewrite ?Hn].
  intros H2. assert (2 ≤ vertexnum g) as H2'.
  { destruct Hok as [Hwf _]. rewrite (wf_num g Hwf). rewrite <-Hn in H2.
    unfold names in H2. by rewrite length_fmap in H2. }
  assert (part_ok (classes g)) as HP'.
  { apply classes_ok; [done|]. intros E'. destruct Hok as [Hwf _].
    rewrite (wf_num g Hwf), E' in H2'. simpl in H2'. lia. }
  exists (classes g). split; [by apply updateVerticeUfs_classes|].
  split; [done|]. split; [by rewrite classes_rel|]. rewrite (classes_names g Hok). by rewrite Hn.
Qed.

Lemma init_print_roundtrip_witness :
  ∃ g P', build_graph (str "u1") (str "1,2/3/4") = Ret g ∧ updateVerticeUfs g = Ret (render P').
Proof.
  destruct (init_print_roundtrip (str "u1") [[str "1"; str "2"]; [str "3"]; [str "4"]])
    as (g & E & _ & _ & _ & Ep & _); [concrete|unfold nul_free; concrete|].
  destruct Ep as (P' & Ep & _); [simpl; lia|]. exists g, P'. split; [exact E|exact Ep].
Defined.
