(* ===== verification/Master.v ===== *)
(** * Master: the state spaces of the master stay together

    The master keeps, per object, one state space for every slave.  The left
    edges of a space are the operations of its slave, the right edges the
    operations the master has sent to it.  [server_process] (the branch of
    [controlAlg] in src/src/ufs.c for the master) integrates an operation into
    the space of its slave, appends the transformed operation to the spaces of
    the other slaves and sends it on.  The theorem: afterwards all spaces show
    the same classes, those of the transformed operation applied to the classes
    they showed before, and the command that is sent on carries that operation
    with a context that extends the received one. *)
From S2P Require Import Prelude Sds Partition OtStr ClassText TextState OtUfs Graph UnionSplit GraphText Object Space Ladder Commands Control Replica Init.

(** ** Paths along first edges *)

Inductive path (sp : space) : nat → list dedge → nat → Prop :=
  | path_here q : path sp q [] q
  | path_step q e es q' :
      fedge sp q = Some e → path sp (adjv e) es q' → path sp q (e :: es) q'.

Lemma fedge_forward E sp q e : sound E sp → fedge sp q = Some e → q < adjv e < length sp.
Proof.
  intros Hs. unfold fedge. destruct (edg LeftE sp q) as [e'|] eqn:El.
  - intros [= <-]. by apply (sound_forward E sp Hs LeftE).
  - by apply (sound_forward E sp Hs RightE).
Qed.

Lemma path_le E sp q es q' : sound E sp → path sp q es q' → q ≤ q'.
Proof.
  intros Hs. induction 1 as [q|q e es q' He _ IH]; [done|].
  pose proof (fedge_forward E sp q e Hs He). lia.
Qed.

Lemma path_frame E sp sp' q es q' :
  sound E sp → path sp q es q' → (∀ k, k < q' → fedge sp' k = fedge sp k) → path sp' q es q'.
Proof.
  intros Hs Hp Hk. induction Hp as [q|q e es q' He Hp IH]; [constructor|].
  pose proof (fedge_forward E sp q e Hs He). pose proof (path_le E sp _ _ _ Hs Hp).
  constructor; [|by apply IH]. rewrite Hk by lia. done.
Qed.

Lemma path_app sp q es1 q1 es2 q2 :
  path sp q es1 q1 → path sp q1 es2 q2 → path sp q (es1 ++ es2) q2.
Proof. induction 1; simpl; [done|]. intros. econstructor; eauto. Qed.

Lemma path_walk sp q es1 q1 es2 q2 :
  path sp q es1 q1 → walk sp q1 es2 q2 → walk sp q (es1 ++ es2) q2.
Proof. induction 1; simpl; [done|]. intros. eapply walk_step_f; eauto. Qed.

(** A chain of right edges without left ones is what a search follows. *)
Lemma bare_walk sp q es q' : bare RightE sp q es q' → walk sp q es q'.
Proof.
  intros (Hc & Hn & Hes). simpl in Hn, Hes. induction Hc as [q Hq He|q e es q' He Hc IH].
  - apply walk_end_f; [done|]. unfold fedge. by rewrite Hn.
  - apply Forall_cons in Hes as [He' Hes]. apply walk_step_f; [|by apply IH].
    unfold fedge. by rewrite Hn.
Qed.

Lemma bare_split d sp q es1 es2 q' :
  bare d sp q (es1 ++ es2) q' →
  ∃ u, bare d sp u es2 q' ∧ (d = RightE → path sp q es1 u).
Proof.
  revert q. induction es1 as [|e es1 IH]; simpl; intros q Hb.
  - exists q. split; [done|]. intros _. constructor.
  - destruct Hb as (Hc & Hn & [He Hes]%Forall_cons). inversion Hc as [|? ? ? ? Hq Hc']; subst.
    destruct (IH (adjv e)) as (u & Hu & Hp); [by split_and!|]. exists u. split; [done|].
    intros ->. constructor; [|by apply Hp]. unfold fedge. simpl in Hn. by rewrite Hn.
Qed.

(** ** The space of one slave *)

(** The slave's last known position is [u], reached by [es0]; the operations
    [es] have been sent to it since, up to the vertex [q] with text [s]. *)
Record served (E : list bytes) (sp : space) (es0 : list dedge) (u : nat) (es : list dedge)
    (q : nat) (s : bytes) : Prop := {
  se_sound : sound E sp;
  se_oids : oids_ok sp;
  se_path : path sp 0 es0 u;
  se_bare : bare RightE sp u es q;
  se_cont : cont sp q = Some s;
}.

Lemma served_current E sp es0 u es q s : served E sp es0 u es q s → current E sp (es0 ++ es) q s.
Proof. intros [Hs Ho Hp Hb Hc]. split; try done. eapply path_walk; [done|]. by apply bare_walk. Qed.

(** The slave may have received some of the operations sent to it. *)
Lemma served_advance E sp es0 u es1 es2 q s :
  served E sp es0 u (es1 ++ es2) q s → ∃ u', served E sp (es0 ++ es1) u' es2 q s.
Proof.
  intros [Hs Ho Hp Hb Hc]. destruct (bare_split _ _ _ _ _ _ Hb) as (u' & Hb' & Hp').
  exists u'. split; try done. eapply path_app; [done|]. by apply Hp'.
Qed.

(** Every space of the object shows the classes [R]. *)
Definition tracks (E : list bytes) (R : prel) (s : verlist) : Prop :=
  vl_len_ufs s = tlen E ∧
  ∃ es0 u es q t, served E (vl_vertices s) es0 u es q t ∧ rel_t t ≡ R.

(** *** Integrating an operation of the slave itself *)
Lemma served_own E sp es0 u es q s cu o v o_id oids :
  served E sp es0 u es q s → cont sp u = Some cu → op_on (rel_t cu) o v → simple v → nul_free o_id →
  ∃ s1 sp2 p e' s2 vw es2,
    updateVerticeUfsFromState cu (optype o) (argv1 o) (argv2 o) (tlen E) = Ret s1
    ∧ ladder (S (length sp)) RightE (inserted sp LeftE u o o_id s1) u (length sp) (tlen E) oids =
        Ret (sp2, q, p, oids ++ ctx_of es)
    ∧ edg LeftE sp2 q = Some e' ∧ oid e' = o_id ∧ optype (e_op e') = optype o
    ∧ served E sp2 (es0 ++ [mk_dedge o o_id (length sp)]) (length sp) es2 p s2
    ∧ transformed (states_along sp u es) o = Ret (e_op e')
    ∧ op_on (rel_t s) (e_op e') vw ∧ simple vw ∧ rel_t s2 ≡ aapply (abs_op vw) (rel_t s).
Proof.
  intros [Hs Ho Hp Hb Hc] Hu Hon Hsim Hoid. pose proof Hb as (Hch & _ & _).
  destruct (insert_ladder E sp RightE u cu o v o_id es q oids Hs Ho Hu Hch Hon Hsim Hoid)
    as (s1 & sp2 & p & e' & Es & El & Hca).
  destruct (carried_op _ _ _ _ _ _ _ _ _ _ s Hca Hc) as (s2 & vw & T2 & On2 & Sim2 & R2).
  destruct Hca as [Hs2 Ho2 Eo Et C2 A2 O2 (Hq2 & Hadj & _ & _) (es2 & Hb2) Htr]. simpl in O2, Hq2, Eo, Et.
  exists s1, sp2, p, e', s2, vw, es2. split_and!; try done.
  destruct (chain_lt E RightE sp u es q Hs Hch) as (Hlen & Hq & Hes). rewrite Forall_forall in Hes.
  assert (∀ k, k < u → k ∉ adjv <$> es) as Hout.
  { intros k Hk (x & -> & Hx)%list_elem_of_fmap. pose proof (Hes x Hx). lia. }
  split; try done; [|by destruct T2].
  apply (path_app _ _ _ u).
  - apply (path_frame E sp); try done. intros k Hk. unfold fedge.
    rewrite O2, A2, decide_False; try lia; [done|]. by apply Hout.
  - apply path_step; [|constructor]. unfold fedge. rewrite O2, decide_True; try done; [lia|].
    intros (x & Ex & Hx)%list_elem_of_fmap. pose proof (Hes x Hx). lia.
Qed.

(** *** Appending an operation of another slave *)

Lemma chain_extend d sp sp' u es q e :
  chain d sp u es q → (∀ k, k < length sp → k ≠ q → edg d sp' k = edg d sp k) →
  edg d sp' q = Some e → edg d sp' (adjv e) = None → adjv e < length sp' →
  chain d sp' u (es ++ [e]) (adjv e).
Proof.
  intros Hc Hk Hq Hn Hlt. induction Hc as [q Hq' _|q e0 es q' He Hc IH]; simpl.
  - constructor; [done|]. by constructor.
  - constructor; [|by apply IH]. rewrite Hk; [done|by eapply edg_lt|]. intros ->.
    destruct (chain_end_none _ _ _ _ _ Hc) as [_ Hne]. congruence.
Qed.

Lemma served_other E sp es0 u es q s o v o_id s' :
  served E sp es0 u es q s → op_on (rel_t s) o v → simple v → nul_free o_id →
  text_ok s' → concat (parse s') ≡ₚ E → rel_t s' ≡ aapply (abs_op v) (rel_t s) →
  served E (inserted sp RightE q o o_id s') es0 u (es ++ [mk_dedge o o_id (length sp)])
    (length sp) s'.
Proof.
  intros [Hs Ho Hp (Hch & Hn & Hes) Hc] Hon Hsim Hoid Hok HE Hrel.
  destruct (chain_lt E RightE sp u es q Hs Hch) as (Hlen & Hq & _).
  pose proof (inserted_edg sp RightE q s o o_id s' Hc) as Hed.
  pose proof (inserted_opp sp RightE q o o_id s') as Hop. simpl in Hop, Hn, Hes.
  pose proof (inserted_new sp RightE q s o o_id s' Hc) as Hnew.
  split.
  - by eapply inserted_sound.
  - by apply (inserted_oids sp RightE q s).
  - apply (path_frame E sp); try done. intros k Hk. unfold fedge.
    rewrite Hop, Hed, decide_False; [done|lia].
  - split_and!; simpl.
    + apply (chain_extend RightE sp _ u es q (mk_dedge o o_id (length sp))); try done.
      * intros k _ Hne. by rewrite Hed, decide_False.
      * by rewrite Hed, decide_True.
      * simpl. rewrite inserted_length. lia.
    + by rewrite Hop.
    + apply Forall_app. split; [|constructor; [apply (Hnew LeftE)|done]].
      eapply Forall_impl; [exact Hes|]. intros e He. by rewrite Hop.
  - by rewrite inserted_cont, decide_True.
Qed.

(** What the classes of all spaces become. *)
(** What [save_op] computes. *)
Lemma save_op_eval s o o_id n q t t' :
  locateVertice (vl_vertices s) None = Ret (Some q) → cont (vl_vertices s) q = Some t →
  updateVerticeUfsFromState t (optype o) (argv1 o) (argv2 o) n = Ret t' →
  save_op o o_id n s =
    Ret (mk_verlist (vl_key s) (vl_id s) (vl_len_ufs s) (inserted (vl_vertices s) RightE q o o_id t')).
Proof.
  intros Eloc Hc Et. unfold save_op. rewrite Eloc. bind_red. cbn [addVertice the]. bind_red.
  change (set_redge ?l ?q ?e) with (set_edge RightE l q e).
  rewrite (content_of_cont _ q t) by by rewrite cont_set_edge, cont_add. bind_red.
  rewrite Et. bind_red. reflexivity.
Qed.

Lemma save_op_spec E R s o v o_id :
  tracks E R s → op_on R o v → simple v → nul_free o_id →
  ∃ s', save_op o o_id (tlen E) s = Ret s'
    ∧ vl_key s' = vl_key s ∧ vl_id s' = vl_id s ∧ tracks E (aapply (abs_op v) R) s'.
Proof.
  intros (Hl & es0 & u & es & q & t & Hse & HR) Hon Hsim Hoid. rewrite <-HR in Hon.
  pose proof (served_current _ _ _ _ _ _ _ Hse) as Hcur.
  pose proof (current_text _ _ _ _ _ Hcur) as Tq. pose proof Tq as (Hc & Ok & HE).
  destruct (exec_text_spec t o v Ok Hon) as (t' & Et & Ok' & Rt & _ & Hcc).
  unfold exec in Et. rewrite (text_of_length E _ q t Tq) in Et.
  destruct (locate_current _ _ _ (current_forward _ _ _ _ _ Hcur) (cur_walk _ _ _ _ _ Hcur)
    (current_walk_oids _ _ _ _ _ Hcur)) as (_ & _ & Eloc).
  assert (served E (inserted (vl_vertices s) RightE q o o_id t') es0 u
    (es ++ [mk_dedge o o_id (length (vl_vertices s))]) (length (vl_vertices s)) t') as Hse'.
  { eapply served_other; try done. by rewrite Hcc. }
  eexists. split; [by eapply save_op_eval|]. split_and!; try done. split; [done|]. eexists _, _, _, _, _. split; [exact Hse'|].
  rewrite Rt, HR. done.
Qed.

(** The loop extends the spaces of the object that belong to other slaves. *)
Definition saved (E : list bytes) (R R' : prel) (k : bytes) (id : Z) (s s' : verlist) : Prop :=
  vl_key s' = vl_key s ∧ vl_id s' = vl_id s
  ∧ (streq (vl_key s) k = true → vl_id s ≠ id → tracks E R' s')
  ∧ (streq (vl_key s) k = false ∨ vl_id s = id → s' = s).

(** [save_all] works through the list, leaving alone what it skips. *)
Lemma save_all_forall o o_id k id n l (Q : verlist → verlist → Prop) :
  (∀ s, s ∈ l → streq (vl_key s) k = true → vl_id s ≠ id → ∃ s', save_op o o_id n s = Ret s' ∧ Q s s') →
  ∃ l', save_all o o_id k id n l = Ret l'
    ∧ Forall2 (λ s s', (streq (vl_key s) k = true → vl_id s ≠ id → Q s s')
        ∧ (streq (vl_key s) k = false ∨ vl_id s = id → s' = s)) l l'.
Proof.
  intros Hl. induction l as [|s l IH]; [by exists []|].
  destruct IH as (l' & El & Hl'); [intros; apply Hl; set_solver|].
  cbn [save_all]. destruct (negb (streq (vl_key s) k) || bool_decide (vl_id s = id)) eqn:Eb.
  - bind_red. rewrite El. bind_red. eexists. split; [done|]. constructor; [|done].
    split; [|done]. intros Hk Hne. rewrite Hk in Eb. simpl in Eb. by case_bool_decide.
  - apply orb_false_iff in Eb as [Hk%negb_false_iff Hne%bool_decide_eq_false].
    destruct (Hl s) as (s' & Es & HQ); [by left|done|done|].
    rewrite Es. bind_red. rewrite El. bind_red. eexists. split; [done|]. constructor; [|done].
    split; [done|]. intros [Hf|Hid']; congruence.
Qed.

Lemma save_all_spec E R o v o_id k id l :
  (∀ s, s ∈ l → streq (vl_key s) k = true → vl_id s ≠ id → tracks E R s) →
  op_on R o v → simple v → nul_free o_id →
  ∃ l', save_all o o_id k id (tlen E) l = Ret l'
    ∧ Forall2 (saved E R (aapply (abs_op v) R) k id) l l'.
Proof.
  intros Hl Hon Hsim Hoid.
  destruct (save_all_forall o o_id k id (tlen E) l (λ s s', vl_key s' = vl_key s ∧ vl_id s' = vl_id s
    ∧ tracks E (aapply (abs_op v) R) s')) as (l' & El & Hl').
  { intros s Hs Hk Hid. by apply save_op_spec, Hoid; [apply Hl|..]. }
  exists l'. split; [done|]. eapply Forall2_impl; [exact Hl'|]. intros s s' [H1 H2].
  destruct (decide (streq (vl_key s) k = true ∧ vl_id s ≠ id)) as [[Hk Hid]|Hn].
  - destruct (H1 Hk Hid) as (? & ? & ?). split_and!; done.
  - assert (s' = s) as ->; [|split_and!; naive_solver].
    apply H2. destruct (streq (vl_key s) k); [|by left]. right. apply dec_stable. intros ?. by apply Hn.
Qed.

(** ** The spaces of one object *)

(** All spaces of object [k] show the classes [R], one space per slave. *)
Record hosted (E : list bytes) (st : server) (k : bytes) (l : list verlist) (R : prel) : Prop := {
  ho_list : sspacelist st = Some l;
  ho_tracks s : s ∈ l → streq (vl_key s) k = true → tracks E R s;
  ho_ids i j a b :
    l !! i = Some a → l !! j = Some b → streq (vl_key a) k = true → streq (vl_key b) k = true →
    vl_id a = vl_id b → i = j;
}.

(** The space of a slave and its last known position in it. *)
Definition position (st : server) (k : bytes) (id : Z) (l : list verlist) (i : nat) (s : verlist)
    (ctx : bytes) (es0 : list dedge) (u : nat) (es : list dedge) (cu : bytes) : Prop :=
  locateVerlist st id k = Ret (Some i) ∧ l !! i = Some s ∧ streq (vl_key s) k = true ∧ vl_id s = id
  ∧ locateVertice (vl_vertices s) (Some ctx) = Ret (Some u)
  ∧ cont (vl_vertices s) u = Some cu
  ∧ path (vl_vertices s) 0 es0 u ∧ ∃ q, bare RightE (vl_vertices s) u es q.

(** A search of the state space ends at one vertex. *)
Lemma served_at E R s es0 u es q :
  tracks E R s → path (vl_vertices s) 0 es0 u → bare RightE (vl_vertices s) u es q →
  ∃ t, served E (vl_vertices s) es0 u es q t ∧ rel_t t ≡ R.
Proof.
  intros (_ & es0' & u' & es' & q' & t & Hse & HR) Hp Hb.
  pose proof (cur_walk _ _ _ _ _ (served_current _ _ _ _ _ _ _ Hse)) as Hw.
  pose proof (path_walk _ _ _ _ _ _ Hp (bare_walk _ _ _ _ Hb)) as Hw'.
  destruct (walk_det _ _ _ _ _ _ Hw Hw') as [_ ->]. exists t. destruct Hse. done.
Qed.

(** The transformed operation with the unused second argument of a split gone. *)
Definition sent (o : op) : op :=
  mk_op (optype o) (argv1 o) (if bool_decide (optype o = OPTYPE_UNION) then argv2 o else None).

Lemma sent_on R o v : op_on R o v → op_on R (sent o) v.
Proof. intros []; by constructor. Qed.

Lemma arg_on_nul_free R t g : arg_on R t g → nul_free t.
Proof. intros [|a aa [Ha _] _]; [unfold nul_free; concrete|by apply render_class_nul_free]. Qed.

(** The command that is sent on carries the transformed operation. *)
Lemma rewrite_server_spec c k o_id ctx o o' R v oids :
  remote_cmd k o_id ctx (c_argv c) o → op_on R o' v → optype o' = optype o →
  ∃ args, rewrite_server c o' oids = Ret (set_argv c args) ∧ remote_cmd k o_id oids args (sent o').
Proof.
  intros Hcmd Hon Et. destruct c as [a ? ? ? ?]. cbn [c_argv] in Hcmd.
  destruct Hcmd as [t1 t2|t], Hon as [x1 g1 x2 g2 H1 H2|x xs z [Hx _] _ _]; try done;
    unfold rewrite_server; cbn [optype argv1 argv2 deref c_argv].
  - rewrite bool_decide_eq_true_2 by done. bind_red. rewrite !cstr_id by (by eapply arg_on_nul_free).
    eexists. split; [reflexivity|]. constructor.
  - rewrite bool_decide_eq_false_2 by done. bind_red. rewrite cstr_id by (by apply render_class_nul_free).
    eexists. split; [reflexivity|]. constructor.
Qed.

(** Storing the space of a slave changes neither keys nor owners. *)
Lemma own_lookup (l : list verlist) i s sp j b :
  l !! i = Some s → <[i := mk_verlist (vl_key s) (vl_id s) (vl_len_ufs s) sp]> l !! j = Some b →
  ∃ a, l !! j = Some a ∧ vl_key b = vl_key a ∧ vl_id b = vl_id a.
Proof.
  intros Hi Hj. destruct (decide (i = j)) as [<-|Hij].
  - rewrite list_lookup_insert_eq in Hj by by eapply lookup_lt_Some. simplify_eq. by exists s.
  - rewrite list_lookup_insert_ne in Hj by done. by exists b.
Qed.

(** What the server branch computes, given what its parts compute. *)
Lemma server_process_eval st c k l i s ctx u cu o o_id s1 sp2 q p e' oids' l' c' :
  sspacelist st = Some l → locateVerlist st (c_port c) k = Ret (Some i) → l !! i = Some s →
  locateVertice (vl_vertices s) (Some ctx) = Ret (Some u) → cont (vl_vertices s) u = Some cu →
  remote_cmd k o_id ctx (c_argv c) o → nul_free ctx →
  updateVerticeUfsFromState cu (optype o) (argv1 o) (argv2 o) (vl_len_ufs s) = Ret s1 →
  ladder (S (length (vl_vertices s))) RightE (inserted (vl_vertices s) LeftE u o o_id s1) u
    (length (vl_vertices s)) (vl_len_ufs s) ctx = Ret (sp2, q, p, oids') →
  edg LeftE sp2 q = Some e' → oid e' = o_id →
  save_all (e_op e') o_id k (c_port c) (vl_len_ufs s)
    (<[i := mk_verlist (vl_key s) (vl_id s) (vl_len_ufs s) sp2]> l) = Ret l' →
  rewrite_server (set_flag c 1) (e_op e') oids' = Ret c' →
  server_process st c = Ret (set_sspaces st l', c').
Proof.
  intros Hl Eloc Hi Ectx Hcu Hcmd Hnf Es El He' Eoid Esave Erw.
  destruct (remote_cmd_eval k o_id ctx (c_argv c) o c cu (vl_len_ufs s) Hcmd eq_refl)
    as (z & Ep & Ety & _ & Eo & _).
  assert (key_arg c = Ret k) as Hkey by (apply (key_at c (c_argv c)); [done|by destruct Hcmd]).
  unfold server_process. rewrite Ep. bind_red. rewrite Hkey. bind_red. rewrite Eloc. bind_red.
  rewrite Hl. cbn [list_of at_]. bind_red. rewrite Hi. bind_red. rewrite Ectx. bind_red.
  cbn [addVertice]. rewrite Ety. bind_red. cbn [the argv1 argv2]. bind_red. rewrite Eo.
  change (set_ledge ?l ?q ?e) with (set_edge LeftE l q e).
  rewrite (content_of_cont _ u cu) by by rewrite cont_set_edge, cont_add. bind_red.
  assert (z = argv2 o) as -> by by rewrite <-Eo.
  rewrite Es. bind_red. rewrite length_set_content, length_set_edge, length_add.
  rewrite sdsnew_nul_free by done. unfold inserted in El. rewrite El. bind_red.
  rewrite (edge_of_edg LeftE sp2 q e' He'). bind_red. cbn [the]. bind_red.
  rewrite Eoid. rewrite Esave. bind_red. by rewrite Erw.
Qed.

Lemma server_process_spec E st k l R c i s ctx es0 u es cu o v o_id :
  hosted E st k l R → position st k (c_port c) l i s ctx es0 u es cu →
  remote_cmd k o_id ctx (c_argv c) o → nul_free o_id → nul_free ctx →
  op_on (rel_t cu) o v → simple v →
  ∃ st' c' l' o' vw,
    server_process st c = Ret (st', c')
    ∧ transformed (states_along (vl_vertices s) u es) o = Ret o'
    ∧ hosted E st' k l' (aapply (abs_op vw) R)
    ∧ op_on R o' vw ∧ simple vw
    ∧ remote_cmd k o_id (ctx ++ ctx_of es) (c_argv c') (sent o')
    ∧ flag_ufs c' = 1%Z ∧ c_replies c' = c_replies c.
Proof.
  intros [Hl Htr Hids] (Eloc & Hi & Hks & Hid & Ectx & Hcu & Hp & q & Hb) Hcmd Hoid Hnf Hon Hsim.
  pose proof (Htr s (list_elem_of_lookup_2 _ _ _ Hi) Hks) as Ts. pose proof Ts as (Hlen & _).
  destruct (served_at E R s es0 u es q Ts Hp Hb) as (t & Hse & HR).
  destruct (served_own E (vl_vertices s) es0 u es q t cu o v o_id ctx)
    as (s1 & sp2 & p & e' & s2 & vw & es2 & Es & El & He' & Eoid & Et & Hse2 & Hx & Hon2 & Hsim2 & HR2); try done.
  rewrite HR in Hon2, HR2.
  set (own := mk_verlist (vl_key s) (vl_id s) (vl_len_ufs s) sp2).
  assert (tracks E (aapply (abs_op vw) R) own) as Town.
  { split; [done|]. by eexists _, _, _, _, _. }
  destruct (save_all_spec E R (e_op e') vw o_id k (c_port c) (<[i:=own]> l)) as (l' & Esave & Hsaved); try done.
  { intros a (j & Hj)%list_elem_of_lookup Ha Hne.
    destruct (decide (i = j)) as [<-|Hij].
    - rewrite list_lookup_insert_eq in Hj by by eapply lookup_lt_Some. by simplify_eq.
    - rewrite list_lookup_insert_ne in Hj by done. apply Htr; [by eapply list_elem_of_lookup_2|done]. }
  destruct (rewrite_server_spec (set_flag c 1) k o_id ctx o (e_op e') R vw (ctx ++ ctx_of es))
    as (args & Erw & Hsent); try done.
  eexists _, _, l', (e_op e'), vw. split.
  - rewrite <-Hlen in Es, El, Esave. by eapply server_process_eval.
  - split_and!; try done. split; [done| |].
    + intros a (j & Hj)%list_elem_of_lookup Ha.
      destruct (Forall2_lookup_r _ _ _ _ _ Hsaved Hj) as (b & Hb' & Ek & Ei & Hnew & Hold).
      rewrite Ek in Ha. destruct (decide (vl_id b = c_port c)) as [Hc|Hc]; [|by apply Hnew].
      rewrite Hold by by right. destruct (decide (i = j)) as [<-|Hij].
      * rewrite list_lookup_insert_eq in Hb' by by eapply lookup_lt_Some. by simplify_eq.
      * rewrite list_lookup_insert_ne in Hb' by done. destruct Hij.
        by apply (Hids i j s b); try done; congruence.
    + intros j1 j2 a1 a2 H1 H2 K1 K2 Eid.
      destruct (Forall2_lookup_r _ _ _ _ _ Hsaved H1) as (b1 & B1 & Ek1 & Ei1 & _).
      destruct (Forall2_lookup_r _ _ _ _ _ Hsaved H2) as (b2 & B2 & Ek2 & Ei2 & _).
      destruct (own_lookup l i s sp2 j1 b1 Hi B1) as (d1 & D1 & Kd1 & Id1).
      destruct (own_lookup l i s sp2 j2 b2 Hi B2) as (d2 & D2 & Kd2 & Id2).
      by apply (Hids j1 j2 d1 d2); try done; congruence.
Qed.

(** ** A new object on the master *)

Lemma top_served E s :
  text_ok s → concat (parse s) ≡ₚ E → served E [mk_vertice (Some s) None None] [] 0 [] 0 s.
Proof.
  intros Hok HE. destruct (top_current E s Hok HE) as [Hs _ Hc Ho]. split; try done; [constructor|].
  split_and!; [constructor; [simpl; lia|apply top_edg]|apply (top_edg LeftE)|done].
Qed.

Section new_object.
Context (E : list bytes) (g : cudGraph) (k s : bytes).
Context (Es : updateVerticeUfs g = Ret s) (Hlen : strlen s = tlen E).
Context (Hok : text_ok s) (HE : concat (parse s) ≡ₚ E).

(** The space of a slave that has not sent anything. *)
Definition pristine (id : Z) (v : verlist) : Prop :=
  v = mk_verlist (sdsnew k) id (tlen E) [mk_vertice (Some s) None None].

Lemma pristine_tracks id v : pristine id v → tracks E (rel_t s) v.
Proof. intros ->. split; [done|]. exists [], 0, [], 0, s. split; [by apply top_served|done]. Qed.

Lemma new_spaces_spec ids : ∀ n,
  n = 0 ∨ n = tlen E → ∃ l, new_spaces g k ids n = Ret l ∧ Forall2 pristine ids l.
Proof.
  induction ids as [|id ids IH]; intros n Hn; [by exists []|].
  cbn [new_spaces]. unfold new_top. rewrite Es. bind_red.
  set (m := if bool_decide (n = 0) then strlen s else n).
  assert (m = tlen E) as Hm.
  { unfold m. case_bool_decide; [done|]. by destruct Hn. }
  destruct (IH m (or_intror Hm)) as (l & El & Hl). rewrite El. bind_red.
  eexists. split; [done|]. constructor; [|done]. unfold pristine. by rewrite <-Hm.
Qed.
End new_object.

Lemma pristine_find E k s ids l i id :
  Forall2 (pristine E k s) ids l → NoDup ids → ids !! i = Some id → nul_free k →
  list_find (λ v, vl_id v = id ∧ sdscmp (vl_key v) k = 0%Z) l =
    Some (i, mk_verlist (sdsnew k) id (tlen E) [mk_vertice (Some s) None None]).
Proof.
  intros Hl Hnd Hi Hk. apply list_find_Some. split_and!; try done.
  - destruct (Forall2_lookup_l _ _ _ _ _ Hl Hi) as (v & Hv & ->). done.
  - simpl. apply sdscmp_zero. by apply sdsnew_nul_free.
  - intros j v Hj Hlt [Hid _]. destruct (Forall2_lookup_r _ _ _ _ _ Hl Hj) as (id' & Hid' & ->).
    simpl in Hid. subst id'. pose proof (NoDup_lookup _ _ _ _ Hnd Hi Hid'). lia.
Qed.

Lemma list_find_app_r {A} (P : A → Prop) `{!∀ x, Decision (P x)} (l1 l2 : list A) i a :
  Forall (λ x, ¬ P x) l1 → list_find P l2 = Some (i, a) →
  list_find P (l1 ++ l2) = Some (length l1 + i, a).
Proof.
  intros Hl Ha. induction Hl as [|x l Hx Hl IH]; simpl; [done|]. by rewrite decide_False, IH.
Qed.

(** The new spaces go behind the old ones. *)
Lemma uinit_master_run st c k P ids :
  masterhost st = false → slaves st = Some ids →
  arg c 1 = Ret k → arg c 2 = Ret (render P) → nul_free k → part_ok P → 2 ≤ length (concat P) →
  ∃ st' s l, uinitCommand st c = Ret (st', done_ok c)
    ∧ masterhost st' = false ∧ sspacelist st' = Some (default [] (sspacelist st) ++ l)
    ∧ Forall2 (pristine (concat P) k s) ids l
    ∧ text_ok s ∧ concat (parse s) ≡ₚ concat P ∧ rel_t s ≡ rel_of P.
Proof.
  intros Hm Hids Hk Ht Hnf HP Hn. unfold uinitCommand. rewrite Hk. bind_red. rewrite Ht. bind_red.
  destruct (build_graph_spec k P HP Hnf) as (g & -> & Hok & Hkey & Hnames & Hrel). bind_red.
  cbn [set_ufslist masterhost]. rewrite Hm.
  assert (2 ≤ vertexnum g) as H2.
  { destruct Hok as [Hwf _]. rewrite (wf_num g Hwf). rewrite <-Hnames in Hn.
    unfold names in Hn. by rewrite length_fmap in Hn. }
  destruct (print_agree g Hok H2) as (s & Es & Hag & Hperm).
  pose proof Hag as (_ & Oks & Rag). simpl in Oks, Rag. rewrite Hnames in Hperm.
  assert (strlen s = tlen (concat P)) as Hlen.
  { rewrite <-(text_of_length (concat P) [mk_vertice (Some s) None None] 0 s) by by split_and!.
    apply strlen_nul_free. destruct Oks as [(_ & Hcl & _) <-]. by apply render_nul_free. }
  server_simpl. rewrite Hids. server_simpl.
  destruct (new_spaces_spec (concat P) g k s Es Hlen ids 0) as (l & El & Hl); [by left|].
  rewrite El. bind_red. eexists _, s, l. split; [done|]. split_and!; try done. by rewrite <-Rag.
Qed.

(** After [uinitCommand] on the master, every slave has a space that shows the
    classes of the text, and the empty context finds its position in it. *)
Lemma uinit_master st c k P ids :
  masterhost st = false → slaves st = Some ids → NoDup ids →
  Forall (λ s, streq (vl_key s) k = false) (default [] (sspacelist st)) →
  arg c 1 = Ret k → arg c 2 = Ret (render P) → nul_free k → part_ok P → 2 ≤ length (concat P) →
  ∃ st' l, uinitCommand st c = Ret (st', done_ok c)
    ∧ hosted (concat P) st' k l (rel_of P)
    ∧ ∀ id, id ∈ ids → ∃ i s cu, position st' k id l i s (str "init") [] 0 [] cu ∧ rel_t cu ≡ rel_of P.
Proof.
  intros Hm Hids Hnd Hfr Hk Ht Hnf HP Hn.
  destruct (uinit_master_run st c k P ids) as (st' & s & l & Eu & _ & Hss & Hl & Oks & Hperm & Rs); try done.
  set (old := default [] (sspacelist st)) in *.
  assert (∀ j v, (old ++ l) !! j = Some v → streq (vl_key v) k = true →
    ∃ n id, j = length old + n ∧ ids !! n = Some id ∧ pristine (concat P) k s id v) as Hnew.
  { intros j v [Hj|[Hge Hj]]%lookup_app_Some Hv.
    - rewrite Forall_lookup in Hfr. by rewrite (Hfr j v Hj) in Hv.
    - destruct (Forall2_lookup_r _ _ _ _ _ Hl Hj) as (id & Hid & Hp).
      exists (j - length old), id. split_and!; try done. lia. }
  exists st', (old ++ l). split; [done|]. split; [split|].
  - done.
  - intros v (j & Hj)%list_elem_of_lookup Hv. destruct (Hnew j v Hj Hv) as (n & id & _ & _ & Hp).
    destruct (pristine_tracks (concat P) k s Oks Hperm id v Hp) as (Hl' & es0 & u & es & q & t & Hse & Ht').
    split; [done|]. exists es0, u, es, q, t. by rewrite Ht'.
  - intros i j a b Hi Hj Ha Hb Eid. destruct (Hnew i a Hi Ha) as (n & id & -> & Hn' & ->).
    destruct (Hnew j b Hj Hb) as (n' & id' & -> & Hn'' & ->). simpl in Eid. subst id'.
    by rewrite (NoDup_lookup _ _ _ _ Hnd Hn' Hn'').
  - intros id (n & Hid)%list_elem_of_lookup.
    pose proof (pristine_find _ k s ids l n id Hl Hnd Hid Hnf) as Hf.
    exists (length old + n), (mk_verlist (sdsnew k) id (tlen (concat P)) [mk_vertice (Some s) None None]), s.
    split; [|done]. split_and!; try done.
    + unfold locateVerlist. rewrite Hss. cbn [list_of]. bind_red. erewrite list_find_app_r; [done| |exact Hf].
      eapply Forall_impl; [exact Hfr|]. intros v Hv [_ Hc%sdscmp_zero]. simpl in *.
      rewrite Hc, streq_refl in Hv. done.
    + rewrite lookup_app_r by lia. rewrite Nat.add_sub_swap, Nat.sub_diag by lia. simpl.
      destruct (proj1 (list_find_Some _ _ _ _) Hf) as [Hlk _]. exact Hlk.
    + simpl. rewrite sdsnew_nul_free by done. apply streq_refl.
    + constructor.
    + exists 0. split_and!; [constructor; [simpl; lia|apply top_edg]|apply (top_edg LeftE)|done].
Qed.
