(* ===== verification/Protocol.v ===== *)
(** * Protocol: the commands keep the replicas consistent

    The theorems on the commands as a whole: [uinitCommand] on a slave and on
    the master, [controlAlg] for a command of a user, for a command of the
    master and for a command of a slave, and the rejection of bad commands.
    The scenario used by the witnesses: an object "u1" with the text "a,b/c/d"
    on a slave with port 6380 and on a master with two slaves. *)
From S2P Require Import Prelude Sds Partition OtStr ClassText TextState OtUfs Graph UnionSplit GraphText Object Space Ladder Commands Control Replica Init Master.

(** ** A scenario *)

Definition slave0 : server := mk_server true 6380 None 0 None None None.
Definition master0 : server := mk_server false 6379 None 0 None None (Some [6380%Z; 6381%Z]).
Definition from_user (args : list bytes) : client := mk_client args false 0 0 [].
Definition from_master (args : list bytes) : client := mk_client args true 0 0 [].
Definition from_slave (id : Z) (args : list bytes) : client := mk_client args false id 0 [].

Definition text1 : list (list bytes) := [[str "a"; str "b"]; [str "c"]; [str "d"]].
Definition init_args : list bytes := [str "uinit"; str "u1"; render text1].

(** The state a command leaves. *)
Definition state_of (m : out (server * client)) : server :=
  match m with Ret (st, _) => st | Fail _ => slave0 end.

Definition slave1 : server := state_of (uinitCommand slave0 (from_user init_args)).
Definition master1 : server := state_of (uinitCommand master0 (from_user init_args)).

Lemma state_of_ret st c m : m = Ret (st, c) → state_of m = st.
Proof. by intros ->. Qed.

Lemma slave1_consistent :
  ∃ g sp, consistent (concat text1) slave1 (str "u1") 0 0 g sp [] 0 ∧ rel_g g ≡ rel_of text1.
Proof.
  destruct (uinit_slave slave0 (from_user init_args) (str "u1") text1)
    as (st' & g & sp & Eu & Hco & Hr); [done|done|done|unfold nul_free; concrete|by split|concrete|simpl; lia|].
  exists g, sp. unfold slave1. by rewrite (state_of_ret _ _ _ Eu).
Qed.

(** ** Local operations *)

Lemma local_command E st k i j g sp es q c args o v :
  consistent E st k i j g sp es q → c_master c = false →
  user_cmd g k args o v → c_argv c = args → oid_range (next st) →
  ∃ st' c' g' sp' o_id,
    controlAlg st c = Ret (st', c')
    ∧ new_oid (next st) = Ret o_id ∧ edg LeftE sp' q = Some (mk_dedge o o_id (length sp))
    ∧ consistent E st' k i j g' sp' (es ++ [mk_dedge o o_id (length sp)]) (length sp)
    ∧ rel_g g' ≡ aapply (abs_op v) (rel_g g)
    ∧ op_num st' = (op_num st + 1)%Z ∧ port st' = port st
    ∧ c_argv c' = propagated k args o_id (str "init" ++ ctx_of es)
    ∧ flag_ufs c' = 1%Z ∧ c_replies c' = c_replies c ++ [ROk].
Proof.
  intros Hco Hm Hcmd Ha Hr. pose proof Hco as [Hs _ _ Hl _ _ _ _]. unfold controlAlg.
  rewrite (key_at c args k Ha) by by destruct Hcmd. bind_red. rewrite Hs, Hl, Hm. bind_red.
  by apply (local_process_spec E st k i j g sp es q Hco).
Qed.

(** The slave after a local union of a and c. *)
Definition user1 : client := from_user [str "union"; str "a"; str "c"; str "u1"].
Definition slave2 : server := state_of (controlAlg slave1 user1).

Lemma init_located sp : sp ≠ [] → locateVertice sp (Some (str "init")) = Ret (Some 0).
Proof. intros Hsp. unfold locateVertice. rewrite bool_decide_eq_true_2; [done|by destruct sp]. Qed.

Lemma union_ac_on g : rel_g g ≡ rel_of text1 → names g ≡ₚ concat text1 →
  user_cmd g (str "u1") [str "union"; str "a"; str "c"; str "u1"]
    (mk_op OPTYPE_UNION (Some (str "a")) (Some (str "c"))) (VUnion [str "a"] [str "c"]).
Proof. intros _ Hn. constructor; rewrite Hn; concrete. Qed.

Lemma slave2_consistent :
  ∃ g sp e q, consistent (concat text1) slave2 (str "u1") 0 0 g sp [e] q
    ∧ context_at sp q (str "init") 0 [e]
    ∧ rel_g g ≡ aapply (AUnion (Some (str "a")) (Some (str "c"))) (rel_of text1).
Proof.
  destruct slave1_consistent as (g & sp & Hco & Hr).
  destruct (local_command _ slave1 (str "u1") 0 0 g sp [] 0 user1 _ _ _ Hco eq_refl
    (union_ac_on g Hr (co_names _ _ _ _ _ _ _ _ _ Hco)) eq_refl)
    as (st' & c' & g' & sp' & o_id & Ec & _ & He & Hco' & Hr' & _); [by vm_compute|].
  eexists g', sp', _, _. unfold slave2. rewrite (state_of_ret _ _ _ Ec). split; [exact Hco'|].
  pose proof Hco' as [_ _ _ _ _ (s & Hcur & _) _ _].
  destruct (walk_leaf_edges _ _ _ _ (cur_walk _ _ _ _ _ Hcur)) as (Hlt & Hl & _).
  split; [split|].
  - apply init_located. by destruct sp'.
  - econstructor; [exact He|]. by constructor.
  - by rewrite Hr', Hr.
Qed.

(** C6: a union of two single elements or a split of a single element, in lower
    case and with elements of the object, of a user succeeds on a consistent slave
    whose port is 6379 to 16378 and whose next operation number is below 10000:
    the reply is OK, the graph's classes become those of the operation applied to
    the old ones, the state space gets one edge from the current vertex with a new
    identifier, the replica stays consistent, and the command rewritten for the
    master carries the identifier and the context. *)
Theorem controlAlg_local E st k i j g sp es q c args o v :
  consistent E st k i j g sp es q → c_master c = false →
  user_cmd g k args o v → c_argv c = args → oid_range (next st) →
  ∃ st' c' g' sp' o_id,
    controlAlg st c = Ret (st', c')
    ∧ consistent E st' k i j g' sp' (es ++ [mk_dedge o o_id (length sp)]) (length sp)
    ∧ rel_g g' ≡ aapply (abs_op v) (rel_g g)
    ∧ new_oid (next st) = Ret o_id ∧ op_num st' = (op_num st + 1)%Z
    ∧ c_argv c' = propagated k args o_id (str "init" ++ ctx_of es)
    ∧ flag_ufs c' = 1%Z ∧ c_replies c' = c_replies c ++ [ROk].
Proof.
  intros Hco Hm Hcmd Ha Hr.
  destruct (local_command E st k i j g sp es q c args o v Hco Hm Hcmd Ha Hr)
    as (st' & c' & g' & sp' & o_id & ? & ? & ? & ? & ? & ? & ? & ? & ? & ?).
  exists st', c', g', sp', o_id. by split_and!.
Qed.

Lemma controlAlg_local_witness :
  ∃ st' c', controlAlg slave1 user1 = Ret (st', c') ∧ c_replies c' = [ROk]
    ∧ c_argv c' = [str "union"; str "a"; str "c"; str "1_1"; str "init"; str "u1"].
Proof.
  destruct slave1_consistent as (g & sp & Hco & Hr).
  destruct (controlAlg_local _ slave1 (str "u1") 0 0 g sp [] 0 user1 _ _ _ Hco eq_refl
    (union_ac_on g Hr (co_names _ _ _ _ _ _ _ _ _ Hco)) eq_refl)
    as (st' & c' & g' & sp' & o_id & Ec & _ & _ & Eo & _ & Ea & _ & Er); [by vm_compute|].
  exists st', c'. split; [exact Ec|]. split; [exact Er|]. rewrite Ea.
  assert (o_id = str "1_1") as ->; [|done]. vm_compute in Eo. by injection Eo.
Defined.

(** ** Remote operations *)

(** C5: a command of the master, a union or split of single elements, whose
    context names a vertex from which only local operations lead on is
    integrated.  The edge [e'] added to the state space has the identifier of the
    command, and its operation is the one of the command transformed by [otUfs]
    against the local operations from that vertex on, one after the other; the
    graph shows the classes of that operation applied to the old ones, and the
    replica stays consistent. *)
Theorem controlAlg_remote E st k i j g sp es q c args o v o_id ctx u cu es' :
  consistent E st k i j g sp es q → c_master c = true →
  remote_cmd k o_id ctx args o → c_argv c = args → nul_free o_id →
  context_at sp q ctx u es' → cont sp u = Some cu → op_on (rel_t cu) o v → simple v →
  ∃ st' c' g' sp' p e' vw,
    controlAlg st c = Ret (st', c')
    ∧ consistent E st' k i j g' sp' (es ++ [e']) p
    ∧ oid e' = o_id ∧ transformed (states_along sp u es') o = Ret (e_op e')
    ∧ op_on (rel_g g) (e_op e') vw ∧ rel_g g' ≡ aapply (abs_op vw) (rel_g g)
    ∧ op_num st' = op_num st ∧ flag_ufs c' = 1%Z.
Proof.
  intros Hco Hm Hcmd Ha Hoid Hctx Hu Hon Hsim. pose proof Hco as [Hs _ _ Hl _ _ _ _].
  destruct (remote_process_spec E st k i j g sp es q c args o v o_id ctx u cu es')
    as (st' & c' & g' & sp' & p & e' & vw & Ec & ? & ? & ? & ? & ? & ? & ? & ?); try done.
  exists st', c', g', sp', p, e', vw. split; [|by split_and!]. unfold controlAlg.
  rewrite (key_at c args k Ha) by by destruct Hcmd. bind_red. rewrite Hs, Hl, Hm. exact Ec.
Qed.

(** A split of "a" by another slave, concurrent with the union of slave2. *)
Definition remote1 : client :=
  from_master [str "split"; str "a"; str "2_1"; str "init"; str "u1"].

Lemma controlAlg_remote_witness :
  ∃ st' c' sp e o', controlAlg slave2 remote1 = Ret (st', c') ∧ flag_ufs c' = 1%Z
    ∧ transformed (states_along sp 0 [e]) (mk_op OPTYPE_SPLIT (Some (str "a")) None) = Ret o'.
Proof.
  destruct slave2_consistent as (g & sp & e & q & Hco & Hctx & Hr).
  pose proof Hco as [_ _ _ _ _ (s & Hcur & _) _ _].
  destruct (walk_leaf_edges _ _ _ _ (cur_walk _ _ _ _ _ Hcur)) as (Hlt & _ & _).
  destruct (sound_text _ _ (cur_sound _ _ _ _ _ Hcur) 0) as (cu & Hcu & Hok & HE); [lia|].
  assert (rel_t cu (str "a") (str "a")) as Haa.
  { apply rel_of_refl. rewrite HE. concrete. }
  destruct (controlAlg_remote _ slave2 (str "u1") 0 0 g sp [e] q remote1 _
    (mk_op OPTYPE_SPLIT (Some (str "a")) None) (VSplit [str "a"]) (str "2_1") (str "init") 0 cu [e]
    Hco eq_refl (remote_split _ _ _ _) eq_refl) as (st' & c' & ? & ? & ? & e' & ? & Ec & _ & _ & Hx & _ & _ & _ & Ef).
  - unfold nul_free. concrete.
  - exact Hctx.
  - exact Hcu.
  - apply (on_split _ (str "a") []); [concrete|concrete|]. by intros x ->%list_elem_of_singleton.
  - done.
  - exists st', c', sp, e, (e_op e'). split; [exact Ec|]. split; [exact Ef|exact Hx].
Defined.

(** C9: integrating a union or split of single elements at a vertex of a sound
    state space from which a chain of concurrent operations leads on (the loop of [controlAlg], along
    left edges on a slave and along right edges on the master) terminates and
    keeps the space sound: every edge, old or new, leads from the classes of its
    source to the classes of its target, so that all paths around the new squares
    agree; contents and the chain are kept, and at the end of the chain starts an
    edge with the identifier and the type of the original and with the operation
    that [otUfs] gives along the chain. *)
Theorem ladder_integrates E sp d u cu o v o_id es q oids :
  sound E sp → oids_ok sp → cont sp u = Some cu → chain d sp u es q →
  op_on (rel_t cu) o v → simple v → nul_free o_id →
  ∃ s1 sp2 p e',
    updateVerticeUfsFromState cu (optype o) (argv1 o) (argv2 o) (tlen E) = Ret s1
    ∧ ladder (S (length sp)) d (inserted sp (opp d) u o o_id s1) u (length sp) (tlen E) oids =
        Ret (sp2, q, p, oids ++ ctx_of es)
    ∧ sound E sp2
    ∧ (∀ k, k < length sp → cont sp2 k = cont sp k ∧ edg d sp2 k = edg d sp k)
    ∧ edg (opp d) sp2 q = Some e' ∧ adjv e' = p ∧ oid e' = o_id ∧ optype (e_op e') = optype o
    ∧ transformed (states_along sp u es) o = Ret (e_op e').
Proof.
  intros. destruct (insert_ladder E sp d u cu o v o_id es q oids) as (s1 & sp2 & p & e' & Eu & El & Hca);
    try done. destruct Hca as [Hs _ Eo Et Hc Ha _ (Hq & Hadj & _) _ Hx].
  exists s1, sp2, p, e'. split_and!; try done. intros k Hk. split; [by apply Hc|by apply Ha].
Qed.

Lemma ladder_integrates_witness :
  ∃ sp e q s1 sp2 p, chain LeftE sp 0 [e] q ∧ sound (concat text1) sp2
    ∧ ladder (S (length sp)) LeftE (inserted sp RightE 0 (mk_op OPTYPE_SPLIT (Some (str "a")) None) (str "2_1") s1)
        0 (length sp) (tlen (concat text1)) [] = Ret (sp2, q, p, ctx_of [e]).
Proof.
  destruct slave2_consistent as (g & sp & e & q & Hco & (_ & Hch) & Hr).
  pose proof Hco as [_ _ _ _ _ (s & Hcur & _) _ _].
  destruct (walk_leaf_edges _ _ _ _ (cur_walk _ _ _ _ _ Hcur)) as (Hlt & _ & _).
  destruct (sound_text _ _ (cur_sound _ _ _ _ _ Hcur) 0) as (cu & Hcu & Hok & HE); [lia|].
  destruct (ladder_integrates (concat text1) sp LeftE 0 cu (mk_op OPTYPE_SPLIT (Some (str "a")) None)
    (VSplit [str "a"]) (str "2_1") [e] q [] (cur_sound _ _ _ _ _ Hcur) (cur_oids _ _ _ _ _ Hcur) Hcu Hch)
    as (s1 & sp2 & p & e' & _ & El & Hs & _).
  - apply (on_split _ (str "a") []); [concrete|concrete|]. intros x ->%list_elem_of_singleton.
    apply rel_of_refl. rewrite HE. concrete.
  - done.
  - unfold nul_free. concrete.
  - exists sp, e, q, s1, sp2, p. split; [exact Hch|]. split; [exact Hs|exact El].
Defined.

(** ** The master *)

Lemma master1_hosted :
  ∃ l, hosted (concat text1) master1 (str "u1") l (rel_of text1)
    ∧ ∃ i s cu, position master1 (str "u1") 6380 l i s (str "init") [] 0 [] cu ∧ rel_t cu ≡ rel_of text1.
Proof.
  destruct (uinit_master master0 (from_user init_args) (str "u1") text1 [6380%Z; 6381%Z])
    as (st' & l & Eu & Hh & Hp); [done|done|concrete|done|done|done|unfold nul_free; concrete|concrete|simpl; lia|].
  exists l. unfold master1. rewrite (state_of_ret _ _ _ Eu). split; [done|]. apply Hp. set_solver.
Qed.

(** C7: the state spaces the master keeps for the slaves of an object all show
    the same classes, and a slave sends a union or split of single elements with
    a context that names a vertex of its space from which only operations of
    other slaves lead on.  Then the operation is transformed by [otUfs] against
    these, one after the other; all spaces show the classes of the result applied
    to the old ones, and the command sent on to the other slaves carries the
    result, the identifier and the context extended by the operations it was
    transformed against. *)
Theorem controlAlg_master E st k l R c i s ctx es0 u es cu o v o_id :
  masterhost st = false → hosted E st k l R → position st k (c_port c) l i s ctx es0 u es cu →
  remote_cmd k o_id ctx (c_argv c) o → nul_free o_id → nul_free ctx →
  op_on (rel_t cu) o v → simple v →
  ∃ st' c' l' o' vw,
    controlAlg st c = Ret (st', c')
    ∧ transformed (states_along (vl_vertices s) u es) o = Ret o'
    ∧ hosted E st' k l' (aapply (abs_op vw) R)
    ∧ op_on R o' vw ∧ simple vw
    ∧ remote_cmd k o_id (ctx ++ ctx_of es) (c_argv c') (sent o')
    ∧ flag_ufs c' = 1%Z ∧ c_replies c' = c_replies c.
Proof.
  intros Hm Hh Hpos Hcmd. intros. unfold controlAlg.
  rewrite (key_at c (c_argv c) k eq_refl) by by destruct Hcmd. bind_red. rewrite Hm.
  by apply (server_process_spec E st k l R c i s ctx es0 u es cu o v o_id).
Qed.

Definition slave_cmd1 : client :=
  from_slave 6380 [str "union"; str "a"; str "c"; str "1_1"; str "init"; str "u1"].

Lemma controlAlg_master_witness :
  ∃ st' c', controlAlg master1 slave_cmd1 = Ret (st', c') ∧ flag_ufs c' = 1%Z
    ∧ remote_cmd (str "u1") (str "1_1") (str "init") (c_argv c') (mk_op OPTYPE_UNION (Some (str "a")) (Some (str "c"))).
Proof.
  destruct master1_hosted as (l & Hh & i & s & cu & Hpos & Hr).
  assert (∀ x, x ∈ [str "a"; str "c"] → rel_t cu x x) as Hrefl.
  { intros x Hx. apply Hr. apply rel_of_refl. revert x Hx. concrete. }
  destruct (controlAlg_master _ master1 (str "u1") l _ slave_cmd1 i s (str "init") [] 0 [] cu
    (mk_op OPTYPE_UNION (Some (str "a")) (Some (str "c"))) (VUnion [str "a"] [str "c"]) (str "1_1")
    eq_refl Hh Hpos (remote_union _ _ _ _ _)) as (st' & c' & l' & o' & vw & Ec & Hx & _ & _ & _ & Hsent & Ef & _).
  - unfold nul_free. concrete.
  - unfold nul_free. concrete.
  - apply on_union; [apply (on_group _ (str "a") [])|apply (on_group _ (str "c") [])]; try concrete;
      intros x ->%list_elem_of_singleton; apply Hrefl; set_solver.
  - simpl. lia.
  - exists st', c'. split; [exact Ec|]. split; [exact Ef|]. injection Hx as <-. exact Hsent.
Defined.

(** ** New objects *)

(** C14: [uinitCommand] on a slave with a well-formed text of at least two
    elements and a new key creates a consistent replica with one state and
    exactly the classes of the text. *)
Theorem uinit_on_slave st c k P :
  masterhost st = true → arg c 1 = Ret k → arg c 2 = Ret (render P) → nul_free k →
  fresh_key st k → part_ok P → 2 ≤ length (concat P) →
  ∃ st' g sp, uinitCommand st c = Ret (st', done_ok c)
    ∧ consistent (concat P) st' k (length (default [] (cspacelist st)))
        (length (default [] (ufslist st))) g sp [] 0
    ∧ rel_g g ≡ rel_of P.
Proof. apply uinit_slave. Qed.

Lemma uinit_on_slave_witness :
  ∃ st', uinitCommand slave0 (from_user init_args) = Ret (st', done_ok (from_user init_args)).
Proof.
  destruct (uinit_on_slave slave0 (from_user init_args) (str "u1") text1)
    as (st' & g & sp & Eu & _);
    [done|done|done|unfold nul_free; concrete|by split|concrete|simpl; lia|].
  exists st'. exact Eu.
Defined.

(** C15: [uinitCommand] on the master, with a well-formed text of at least two
    elements, slaves with different ports and no space of that key yet, creates
    one state space per slave, all with the classes of the text, and a slave that
    has not sent anything is found at the first vertex by the context "init". *)
Theorem uinit_on_master st c k P ids :
  masterhost st = false → slaves st = Some ids → NoDup ids →
  Forall (λ s, streq (vl_key s) k = false) (default [] (sspacelist st)) →
  arg c 1 = Ret k → arg c 2 = Ret (render P) → nul_free k → part_ok P → 2 ≤ length (concat P) →
  ∃ st' l, uinitCommand st c = Ret (st', done_ok c)
    ∧ hosted (concat P) st' k l (rel_of P)
    ∧ ∀ id, id ∈ ids → ∃ i s cu, position st' k id l i s (str "init") [] 0 [] cu ∧ rel_t cu ≡ rel_of P.
Proof. apply uinit_master. Qed.

Lemma uinit_on_master_witness :
  ∃ st' l, uinitCommand master0 (from_user init_args) = Ret (st', done_ok (from_user init_args))
    ∧ hosted (concat text1) st' (str "u1") l (rel_of text1).
Proof.
  destruct (uinit_on_master master0 (from_user init_args) (str "u1") text1 [6380%Z; 6381%Z])
    as (st' & l & Eu & Hh & _); [done|done|concrete|done|done|done|unfold nul_free; concrete|concrete|simpl; lia|].
  exists st', l. split; [exact Eu|exact Hh].
Defined.

(** ** Rejected commands *)

(** A command of a user with a single element that the object does not have. *)
Inductive bad_cmd (g : cudGraph) (k : bytes) : list bytes → reply → Prop :=
  | bad_union x y :
      name_ok x → name_ok y → x ∉ names g ∨ y ∉ names g →
      bad_cmd g k [str "union"; x; y; k] RNoExistAllElems
  | bad_split x : name_ok x → x ∉ names g → bad_cmd g k [str "split"; x; k] RNoExistElem.

Lemma rejected_command E st k i j g sp es q c args r :
  consistent E st k i j g sp es q → c_master c = false →
  bad_cmd g k args r → c_argv c = args →
  controlAlg st c = Ret (st, addReply (set_flag c 0) r).
Proof.
  intros Hco Hm Hbad Ha. pose proof (co_graph_ok E st k i j g sp es q Hco) as [Hwf _].
  pose proof Hco as [Hs Hk Hg Hl (lc & kk & Elc & Hi) _ _ _]. unfold controlAlg.
  rewrite (key_at c args k Ha) by by destruct Hbad. bind_red. rewrite Hs, Hl, Hm. bind_red. cbn [negb].
  unfold local_process, getCverlistVertices. rewrite Elc. cbn [list_of at_]. bind_red. rewrite Hi. bind_red.
  unfold checkArgv, checkUnionArgv, checkSplitArgv. destruct Hbad as [x y Hx Hy Hnot|x Hx Hnot].
  - destruct (name_single_ok x Hx) as (Sx & Lx & _ & Nx), (name_single_ok y Hy) as (Sy & Ly & _ & Ny).
    rewrite (arg_at c _ 0 _ Ha eq_refl), (arg_at c _ 1 _ Ha eq_refl), (arg_at c _ 2 _ Ha eq_refl).
    bind_red. rewrite (key_at c _ k Ha eq_refl).
    change (streq (str "union") (str "union")) with true. bind_red. rewrite Hk. bind_red.
    rewrite Sx, Sy. cbn [orb]. rewrite Hg. bind_red. rewrite Lx, Ly, !existElement_spec by done. bind_red.
    destruct (decide (x ∈ names g)) as [Hin|Hin].
    + rewrite (bool_decide_eq_true_2 (x ∈ _)) by done. bind_red.
      by rewrite (bool_decide_eq_false_2 (y ∈ _)) by tauto.
    + by rewrite (bool_decide_eq_false_2 (x ∈ _)) by done.
  - destruct (name_single_ok x Hx) as (_ & _ & Cx & Nx).
    rewrite (arg_at c _ 0 _ Ha eq_refl), (arg_at c _ 1 _ Ha eq_refl). bind_red.
    rewrite (key_at c _ k Ha eq_refl). bind_red.
    change (streq (str "split") (str "union")) with false. cbn iota. bind_red. rewrite Hk. bind_red.
    rewrite Hg. bind_red. rewrite Cx, existElement_spec by done. bind_red.
    by rewrite (bool_decide_eq_false_2 (x ∈ _)) by done.
Qed.

(** C16: a union of two single elements, or a split of one, of a user that names
    an element the object does not have is answered with an error and leaves the
    server as it was.  (Groups are not covered: see [split_unknown_member].) *)
Theorem controlAlg_rejects E st k i j g sp es q c args r :
  consistent E st k i j g sp es q → c_master c = false →
  bad_cmd g k args r → c_argv c = args →
  controlAlg st c = Ret (st, addReply (set_flag c 0) r).
Proof. apply rejected_command. Qed.

Lemma controlAlg_rejects_witness :
  controlAlg slave1 (from_user [str "split"; str "q"; str "u1"]) =
    Ret (slave1, addReply (set_flag (from_user [str "split"; str "q"; str "u1"]) 0) RNoExistElem).
Proof.
  destruct slave1_consistent as (g & sp & Hco & Hr).
  apply (controlAlg_rejects _ slave1 (str "u1") 0 0 g sp [] 0
    (from_user [str "split"; str "q"; str "u1"]) [str "split"; str "q"; str "u1"] RNoExistElem Hco eq_refl);
    [|reflexivity].
  constructor; [concrete|]. rewrite (co_names _ _ _ _ _ _ _ _ _ Hco). concrete.
Defined.

(** ** Commands the code does not handle as intended *)

(** The command table finds "UNION" too, but [controlAlg] compares the name with
    "union" and takes everything else for a split: the state space records a
    split, the graph is not changed and the user gets no reply. *)
Lemma uppercase_union_ignored :
  ∃ st' c' g cv v e,
    controlAlg slave1 (from_user [str "UNION"; str "a"; str "c"; str "u1"]) = Ret (st', c')
    ∧ c_replies c' = [] ∧ ufslist st' = ufslist slave1 ∧ ufslist st' = Some [g]
    ∧ cspacelist st' = Some [cv] ∧ cv_vertices cv !! 0 = Some v ∧ ledge v = Some e
    ∧ optype (e_op e) = OPTYPE_SPLIT.
Proof. do 6 eexists. split; [vm_compute; reflexivity|]. split_and!; by vm_compute. Qed.

(** A group whose first element is unknown is not rejected: [isConnected] runs first and
    uses the position -1 of the unknown element as an index. *)
Lemma split_unknown_member :
  controlAlg slave1 (from_user [str "split"; str "q,a"; str "u1"]) = Fail OutOfBounds.
Proof. by vm_compute. Qed.
