(* ===== verification/Call.v ===== *)
(** * Execution and propagation of commands

    The part of [call] (server.c) that the fork changed, and what it calls: after
    a command has run, its (rewritten) argument vector goes to the master, to all
    slaves, or to all slaves but the one it came from.  The queues of the model
    hold argument vectors; their encoding on the wire is in Resp.v. *)
From Stdlib Require Import Ascii.
From S2P Require Import Prelude.
From S2P Require Import Sds.
From S2P Require Import Commands.
From S2P Require Import Query.
From S2P Require Import Control.
From S2P Require Import Init.

(** ** Flags *)

Definition CMD_CALL_SLOWLOG : Z := Z.shiftl 1 0.
Definition CMD_CALL_STATS : Z := Z.shiftl 1 1.
Definition CMD_CALL_PROPAGATE_AOF : Z := Z.shiftl 1 2.
Definition CMD_CALL_PROPAGATE_REPL : Z := Z.shiftl 1 3.
Definition CMD_CALL_PROPAGATE : Z := Z.lor CMD_CALL_PROPAGATE_AOF CMD_CALL_PROPAGATE_REPL.
Definition CMD_CALL_FULL : Z := Z.lor (Z.lor CMD_CALL_SLOWLOG CMD_CALL_STATS) CMD_CALL_PROPAGATE.
Definition PROPAGATE_NONE : Z := 0.
Definition PROPAGATE_AOF : Z := 1.
Definition PROPAGATE_REPL : Z := 2.

(** Flags of a client that force or prevent propagation. *)
Definition CLIENT_FORCE_AOF : Z := Z.shiftl 1 14.
Definition CLIENT_FORCE_REPL : Z := Z.shiftl 1 15.
Definition CLIENT_PREVENT_AOF_PROP : Z := Z.shiftl 1 19.
Definition CLIENT_PREVENT_REPL_PROP : Z := Z.shiftl 1 20.
Definition CLIENT_PREVENT_PROP : Z := Z.lor CLIENT_PREVENT_AOF_PROP CLIENT_PREVENT_REPL_PROP.

Definition has (flags f : Z) : bool := bool_decide (Z.land flags f ≠ 0)%Z.

(** ** Connections and instances

    [conn] is a client of [server.slaves]: its id and listening port, whether
    its state is SLAVE_STATE_WAIT_BGSAVE_START, whether the flag
    CLIENT_UNDER_FEED is set, and the commands queued for it. *)
Record conn := mk_conn {
  conn_id : Z; conn_port : Z; conn_wait : bool; conn_feed : bool; conn_out : list (list bytes) }.

(** An instance is a server with its links: [master_link] is the queue of
    [server.master] ([None] for NULL), [backlog] the replication backlog. *)
Record instance := mk_inst {
  srv : server; aof_on : bool; repl_slave_ro : bool; aof : list (list bytes);
  backlog : option (list (list bytes)); conns : list conn; master_link : option (list (list bytes)) }.

Definition set_srv (i : instance) (st : server) : instance :=
  mk_inst st (aof_on i) (repl_slave_ro i) (aof i) (backlog i) (conns i) (master_link i).
Definition set_aof (i : instance) (l : list (list bytes)) : instance :=
  mk_inst (srv i) (aof_on i) (repl_slave_ro i) l (backlog i) (conns i) (master_link i).
Definition set_conns (i : instance) (l : list conn) : instance :=
  mk_inst (srv i) (aof_on i) (repl_slave_ro i) (aof i) (backlog i) l (master_link i).
Definition set_link (i : instance) (q : list (list bytes)) : instance :=
  mk_inst (srv i) (aof_on i) (repl_slave_ro i) (aof i) (backlog i) (conns i) (Some q).

(** The block that writes the command to the backlog, if there is one. *)
Definition feed_backlog (i : instance) (argv : list bytes) : instance :=
  mk_inst (srv i) (aof_on i) (repl_slave_ro i) (aof i)
    ((λ l, l ++ [argv]) <$> backlog i) (conns i) (master_link i).

(** [prepareClientToWrite] refuses replies to a slave that is not being fed. *)
Definition slave_writable (c : conn) : bool := conn_feed c.

(** ** Feeding the other servers *)

Definition feed (c : conn) (argv : list bytes) : conn :=
  mk_conn (conn_id c) (conn_port c) (conn_wait c) false (conn_out c ++ [argv]).
Definition under_feed (c : conn) : conn :=
  mk_conn (conn_id c) (conn_port c) (conn_wait c) true (conn_out c).

Definition replicationFeedSlaves (i : instance) (argv : list bytes) : out instance :=
  if masterhost (srv i) then Ret i
  else if bool_decide (backlog i = None) && bool_decide (conns i = []) then Ret i
  else if bool_decide (conns i ≠ []) && bool_decide (backlog i = None) then Fail AssertFail
  else
    let i := feed_backlog i argv in
    Ret (set_conns i ((λ c, let c := under_feed c in
                            if conn_wait c then c else feed c argv) <$> conns i)).

Definition replicationFeedExSlave (i : instance) (id : Z) (argv : list bytes) : out instance :=
  if masterhost (srv i) then Ret i
  else if bool_decide (backlog i = None) && bool_decide (conns i = []) then Ret i
  else if bool_decide (conns i ≠ []) && bool_decide (backlog i = None) then Fail AssertFail
  else
    let i := feed_backlog i argv in
    Ret (set_conns i ((λ c, let c := under_feed c in
                            if bool_decide (conn_id c = id) then c
                            else if conn_wait c then c else feed c argv) <$> conns i)).

Definition replicationFeedMaster (i : instance) (argv : list bytes) : instance :=
  match master_link i with
  | None => i
  | Some q =>
    if bool_decide (backlog i = None) && negb (masterhost (srv i)) then i
    else set_link (feed_backlog i argv) (q ++ [argv])
  end.

Definition feedAppendOnlyFile (i : instance) (argv : list bytes) (flags : Z) : instance :=
  if aof_on i && has flags PROPAGATE_AOF then set_aof i (aof i ++ [argv]) else i.

Definition propagate (i : instance) (argv : list bytes) (flags : Z) : out instance :=
  let i := feedAppendOnlyFile i argv flags in
  if has flags PROPAGATE_REPL then replicationFeedSlaves i argv else Ret i.

Definition propagateToMaster (i : instance) (argv : list bytes) (flags : Z) : out instance :=
  let i := feedAppendOnlyFile i argv flags in
  Ret (if has flags PROPAGATE_REPL then replicationFeedMaster i argv else i).

Definition propagateExSlave (i : instance) (id : Z) (argv : list bytes) (flags : Z) : out instance :=
  let i := feedAppendOnlyFile i argv flags in
  if has flags PROPAGATE_REPL then replicationFeedExSlave i id argv else Ret i.

(** ** Running a command *)

(** The flags [call] computes: [dirty] says whether the data set changed,
    [cflags] are the flags of the client after the command. *)
Definition propagate_flags (dirty : bool) (cflags ufs flags : Z) : Z :=
  let pf := PROPAGATE_NONE in
  let pf := if dirty || bool_decide (ufs = 1)%Z then Z.lor pf (Z.lor PROPAGATE_AOF PROPAGATE_REPL) else pf in
  let pf := if has cflags CLIENT_FORCE_REPL then Z.lor pf PROPAGATE_REPL else pf in
  let pf := if has cflags CLIENT_FORCE_AOF then Z.lor pf PROPAGATE_AOF else pf in
  let pf := if has cflags CLIENT_PREVENT_REPL_PROP || negb (has flags CMD_CALL_PROPAGATE_REPL)
            then Z.ldiff pf PROPAGATE_REPL else pf in
  if has cflags CLIENT_PREVENT_AOF_PROP || negb (has flags CMD_CALL_PROPAGATE_AOF)
  then Z.ldiff pf PROPAGATE_AOF else pf.

(** [call]: [id] is the id of the client, [slave] its flag CLIENT_SLAVE.  The
    flags that force or prevent propagation are cleared before the command runs;
    the commands of the table below set neither them nor [server.dirty]. *)
Definition call (proc : server → client → out (server * client))
    (i : instance) (c : client) (id : Z) (slave : bool) (flags : Z) : out (instance * client) :=
  let cflags := 0%Z in
  let c := set_flag c 0 in
  '(st, c) ← proc (srv i) c;
  let i := set_srv i st in
  i ← (if has flags CMD_CALL_PROPAGATE
          && bool_decide (Z.land cflags CLIENT_PREVENT_PROP ≠ CLIENT_PREVENT_PROP) then
         let pf := propagate_flags false cflags (flag_ufs c) flags in
         if bool_decide (pf ≠ PROPAGATE_NONE) then
           if masterhost st && negb (repl_slave_ro i) then
             if negb (c_master c) then propagateToMaster i (c_argv c) pf else Ret i
           else if slave then propagateExSlave i id (c_argv c) pf
           else propagate i (c_argv c) pf
         else Ret i
       else Ret i);
  Ret (i, c).

(** *** The command table

    Names are compared without regard to case; a positive arity is exact, a
    negative one a minimum. *)
Definition tolower (a : ascii) : ascii :=
  let n := nat_of_ascii a in
  if bool_decide (65 ≤ n ∧ n ≤ 90) then ascii_of_nat (n + 32) else a.

Definition lift (f : server → client → out client) (st : server) (c : client)
    : out (server * client) := c ← f st c; Ret (st, c).

Definition commandTable : list (bytes * Z * (server → client → out (server * client))) :=
  [(str "find", 3%Z, lift findCommand);
   (str "umembers", 2%Z, lift umembersCommand);
   (str "union", (-1)%Z, unionCommand);
   (str "split", (-1)%Z, splitCommand);
   (str "uinit", 3%Z, uinitCommand)].

Definition lookupCommand (name : bytes)
    : option (bytes * Z * (server → client → out (server * client))) :=
  snd <$> list_find (λ r, r.1.1 = tolower <$> name) commandTable.

(** What [processCommand] does with a name that is not in the table, or a
    wrong number of arguments: an error reply. *)
Inductive verdict := Unknown | WrongArity | Ran (i : instance) (c : client).

Definition processCommand (i : instance) (c : client) (id : Z) (slave : bool) : out verdict :=
  name ← arg c 0;
  match lookupCommand name with
  | None => Ret Unknown
  | Some (_, arity, proc) =>
    let argc := Z.of_nat (length (c_argv c)) in
    if bool_decide ((arity > 0 ∧ arity ≠ argc) ∨ argc < - arity)%Z then Ret WrongArity
    else '(i, c) ← call proc i c id slave CMD_CALL_FULL; Ret (Ran i c)
  end.

(** ** Where a command goes *)

(** The queues after a command has been propagated: [q] for the master, and for
    every slave connection in order. *)
Definition sent_to (old new : conn) (argv : list bytes) (deliver : bool) : Prop :=
  conn_id new = conn_id old ∧ conn_port new = conn_port old ∧ conn_wait new = conn_wait old
  ∧ conn_out new = conn_out old ++ (if deliver then [argv] else []).

(** What [call] does with the links of an instance after the handler returned
    [st] and [c] with [flag_ufs] set. *)
Record routed (i : instance) (st : server) (c : client) (id : Z) (slave : bool) (i' : instance)
    : Prop := {
  ro_srv : srv i' = st;
  ro_link : master_link i' =
    (λ q, if masterhost st && negb (repl_slave_ro i) && negb (c_master c)
          then q ++ [c_argv c] else q) <$> master_link i;
  ro_conns : Forall2 (λ a b,
    sent_to a b (c_argv c)
      (negb (masterhost st) && negb (slave && bool_decide (conn_id a = id)) && negb (conn_wait a)))
    (conns i) (conns i');
  ro_ro : repl_slave_ro i' = repl_slave_ro i;
  ro_backlog : backlog i ≠ None → backlog i' ≠ None;
}.

Lemma full_flags (c : client) :
  flag_ufs c = 1%Z → propagate_flags false 0 (flag_ufs c) CMD_CALL_FULL = 3%Z.
Proof. by intros ->. Qed.

Lemma sent_all (l : list conn) (f : conn → conn) argv (D : conn → bool) :
  (∀ c, sent_to c (f c) argv (D c)) → Forall2 (λ a b, sent_to a b argv (D a)) l (f <$> l).
Proof. intros H. induction l; constructor; auto. Qed.

Lemma sent_none (l : list conn) argv (D : conn → bool) :
  (∀ c, D c = false) → Forall2 (λ a b, sent_to a b argv (D a)) l l.
Proof. intros H. induction l as [|a l IH]; constructor; [|done]. rewrite H. unfold sent_to. by rewrite app_nil_r. Qed.

Lemma set_link_id i q : master_link i = Some q → set_link i q = i.
Proof. destruct i; simpl. intros ->. done. Qed.

Lemma feedAppendOnlyFile_links i argv flags :
  srv (feedAppendOnlyFile i argv flags) = srv i
  ∧ master_link (feedAppendOnlyFile i argv flags) = master_link i
  ∧ conns (feedAppendOnlyFile i argv flags) = conns i
  ∧ backlog (feedAppendOnlyFile i argv flags) = backlog i
  ∧ repl_slave_ro (feedAppendOnlyFile i argv flags) = repl_slave_ro i.
Proof. unfold feedAppendOnlyFile. by destruct (aof_on i && _). Qed.

(** Both loops over the slaves are one map of the connections. *)
Lemma feed_loop_spec i argv (skip : conn → bool) (r : out instance) :
  masterhost (srv i) = false → (conns i ≠ [] → backlog i ≠ None) →
  r = (if masterhost (srv i) then Ret i
       else if bool_decide (backlog i = None) && bool_decide (conns i = []) then Ret i
       else if bool_decide (conns i ≠ []) && bool_decide (backlog i = None) then Fail AssertFail
       else
         let i := feed_backlog i argv in
         Ret (set_conns i ((λ c, let c := under_feed c in
                                 if skip c then c else if conn_wait c then c else feed c argv) <$> conns i))) →
  (∀ c, skip (under_feed c) = skip c) →
  ∃ i', r = Ret i' ∧ srv i' = srv i ∧ master_link i' = master_link i
    ∧ repl_slave_ro i' = repl_slave_ro i ∧ (backlog i ≠ None → backlog i' ≠ None)
    ∧ Forall2 (λ a b, sent_to a b argv (negb (skip a) && negb (conn_wait a))) (conns i) (conns i').
Proof.
  intros Hm Hb -> Hskip. rewrite Hm.
  destruct (decide (conns i = [])) as [Ec|Ec].
  - rewrite Ec, (bool_decide_eq_false_2 ([] ≠ [])), (bool_decide_eq_true_2 ([] = [])) by (done || (intros H; by apply H)).
    rewrite andb_true_r, andb_false_l. destruct (bool_decide (backlog i = None)).
    + exists i. by rewrite Ec.
    + eexists. split; [done|]. simpl. split_and!; try done; [|by rewrite Ec].
      by destruct (backlog i).
  - rewrite (bool_decide_eq_true_2 (conns i ≠ [])), (bool_decide_eq_false_2 (conns i = [])) by done.
    rewrite andb_false_r, andb_true_l, bool_decide_eq_false_2 by auto.
    eexists. split; [done|]. simpl. split_and!; try done; [by destruct (backlog i)|].
    apply sent_all. intros c. rewrite Hskip. unfold sent_to.
    destruct (skip c); simpl; [by rewrite app_nil_r|].
    destruct (conn_wait c) eqn:Ew; simpl; rewrite ?Ew; by rewrite ?app_nil_r.
Qed.

(** A read-only slave keeps the command to itself. *)
Lemma readonly_stays i c id (slave : bool) :
  masterhost (srv i) = true → repl_slave_ro i = true →
  ∃ i', (if slave then propagateExSlave i id (c_argv c) 3 else propagate i (c_argv c) 3) = Ret i'
    ∧ routed i (srv i) c id slave i'.
Proof.
  intros Em Hro. destruct (feedAppendOnlyFile_links i (c_argv c) 3) as (F1 & F2 & F3 & F4 & F5).
  exists (feedAppendOnlyFile i (c_argv c) 3). split.
  - unfold propagateExSlave, propagate, replicationFeedExSlave, replicationFeedSlaves.
    rewrite F1, Em. by destruct slave.
  - split; rewrite ?F1, ?F2, ?F3, ?F4; try done.
    + rewrite Em, Hro. simpl. by destruct (master_link i).
    + apply sent_none. intros a. by rewrite Em.
Qed.

Lemma call_routed proc i c id slave st c' :
  proc (srv i) (set_flag c 0) = Ret (st, c') → flag_ufs c' = 1%Z →
  (conns i ≠ [] → backlog i ≠ None) →
  ∃ i', call proc i c id slave CMD_CALL_FULL = Ret (i', c') ∧ routed i st c' id slave i'.
Proof.
  intros E Ef Hb. unfold call. rewrite E. bind_red.
  change (has CMD_CALL_FULL CMD_CALL_PROPAGATE && _) with true. cbn [fst snd].
  rewrite full_flags, bool_decide_eq_true_2 by done.
  change (repl_slave_ro (set_srv i st)) with (repl_slave_ro i).
  destruct (masterhost st) eqn:Em; cbn [andb].
  - destruct (repl_slave_ro i) eqn:Hro; cbn [negb].
    { destruct (readonly_stays (set_srv i st) c' id slave Em Hro) as (i' & -> & Hr). bind_red. exists i'. split; [done|]. by destruct Hr. }
    destruct (c_master c') eqn:Ec; cbn [negb].
    + eexists. split; [done|]. split; try done; simpl.
      * rewrite Em, Ec, andb_false_r. by destruct (master_link i).
      * apply sent_none. intros a. by rewrite Em.
    + unfold propagateToMaster. change (has 3 PROPAGATE_REPL) with true. bind_red.
      eexists. split; [done|].
      destruct (feedAppendOnlyFile_links (set_srv i st) (c_argv c') 3) as (F1 & F2 & F3 & F4 & F5).
      unfold replicationFeedMaster. rewrite F2, F1, F4. simpl.
      destruct (master_link i) as [q|] eqn:El.
      * rewrite Em, andb_false_r. split; simpl; try done.
        -- by rewrite Em, Ec, Hro, El.
        -- rewrite F3. simpl. apply sent_none. intros a. by rewrite Em.
        -- rewrite F4. simpl. by destruct (backlog i).
      * split; simpl; try done.
        -- by rewrite F2, El.
        -- rewrite F3. simpl. apply sent_none. intros a. by rewrite Em.
        -- by rewrite F4.
  - destruct (feedAppendOnlyFile_links (set_srv i st) (c_argv c') 3) as (F1 & F2 & F3 & F4 & F5).
    assert (masterhost (srv (feedAppendOnlyFile (set_srv i st) (c_argv c') 3)) = false) as Hm by by rewrite F1.
    assert (conns (feedAppendOnlyFile (set_srv i st) (c_argv c') 3) ≠ [] →
            backlog (feedAppendOnlyFile (set_srv i st) (c_argv c') 3) ≠ None) as Hb'
      by (rewrite F3, F4; exact Hb).
    destruct slave.
    + unfold propagateExSlave. change (has 3 PROPAGATE_REPL) with true.
      destruct (feed_loop_spec _ (c_argv c') (λ c, bool_decide (conn_id c = id))
        (replicationFeedExSlave (feedAppendOnlyFile (set_srv i st) (c_argv c') 3) id (c_argv c')) Hm Hb' eq_refl)
        as (i' & Ei & S1 & S2 & S3 & S4 & S5); [done|].
      rewrite Ei. bind_red. exists i'. split; [done|].
      rewrite F1 in S1. rewrite F2 in S2. rewrite F5 in S3. rewrite F4 in S4. rewrite F3 in S5.
      split; [done| | |done|done]; rewrite Em; cbn [andb negb]; [|done].
      rewrite S2. simpl. by destruct (master_link i).
    + unfold propagate. change (has 3 PROPAGATE_REPL) with true.
      destruct (feed_loop_spec _ (c_argv c') (λ c, false)
        (replicationFeedSlaves (feedAppendOnlyFile (set_srv i st) (c_argv c') 3) (c_argv c')) Hm Hb' eq_refl)
        as (i' & Ei & S1 & S2 & S3 & S4 & S5); [done|].
      rewrite Ei. bind_red. exists i'. split; [done|].
      rewrite F1 in S1. rewrite F2 in S2. rewrite F5 in S3. rewrite F4 in S4. rewrite F3 in S5.
      split; [done| | |done|done]; rewrite Em; cbn [andb negb]; [|done].
      rewrite S2. simpl. by destruct (master_link i).
Qed.

(** A command that leaves [flag_ufs] alone stays on the server. *)
Lemma call_quiet proc i c id slave st c' :
  proc (srv i) (set_flag c 0) = Ret (st, c') → flag_ufs c' ≠ 1%Z →
  call proc i c id slave CMD_CALL_FULL = Ret (set_srv i st, c').
Proof.
  intros E Ef. unfold call. rewrite E. bind_red.
  change (has CMD_CALL_FULL CMD_CALL_PROPAGATE && _) with true. cbn [fst snd].
  assert (propagate_flags false 0 (flag_ufs c') CMD_CALL_FULL = 0%Z) as ->; [|done].
  unfold propagate_flags. rewrite bool_decide_eq_false_2 by done. done.
Qed.

Lemma processCommand_run i c id slave name n arity proc i' c' :
  arg c 0 = Ret name → lookupCommand name = Some (n, arity, proc) →
  ¬ ((arity > 0 ∧ arity ≠ Z.of_nat (length (c_argv c))) ∨ Z.of_nat (length (c_argv c)) < - arity)%Z →
  call proc i c id slave CMD_CALL_FULL = Ret (i', c') →
  processCommand i c id slave = Ret (Ran i' c').
Proof.
  intros Ea El Har Ec. unfold processCommand. rewrite Ea. bind_red. rewrite El.
  rewrite bool_decide_eq_false_2 by done. by rewrite Ec.
Qed.

(** *** Properties *)

(** C40: [call] sends the rewritten command of a handler that set [flag_ufs] as
    follows.  On a slave that accepts writes (slave-read-only no) a command of a
    user goes to the master and a command of the master nowhere; on a read-only
    slave nothing goes anywhere.  On the master the command of a slave goes to all
    other slaves, and any other command to all slaves, in both cases except those
    that wait for a snapshot to be started.  A command that did not set the flag
    goes nowhere. *)
Theorem call_routes proc i c id slave st c' :
  proc (srv i) (set_flag c 0) = Ret (st, c') →
  (conns i ≠ [] → backlog i ≠ None) →
  ∃ i', call proc i c id slave CMD_CALL_FULL = Ret (i', c')
    ∧ (flag_ufs c' = 1%Z → routed i st c' id slave i')
    ∧ (flag_ufs c' ≠ 1%Z → i' = set_srv i st).
Proof.
  intros E Hb. destruct (decide (flag_ufs c' = 1)%Z) as [Ef|Ef].
  - destruct (call_routed proc i c id slave st c' E Ef Hb) as (i' & Ec & Hr). by exists i'.
  - exists (set_srv i st). by rewrite (call_quiet proc i c id slave st c').
Qed.

(** A slave with a link to its master, and a handler that accepts. *)
Lemma call_routes_witness :
  let i := mk_inst (mk_server true 6380 None 0 None None None) false false [] None [] (Some []) in
  let c := mk_client [str "union"; str "a"; str "b"; str "u"] false 0 0 [] in
  ∃ i', call (λ st c, Ret (st, set_flag c 1)) i c 7 false CMD_CALL_FULL = Ret (i', set_flag c 1)
    ∧ master_link i' = Some [c_argv c].
Proof.
  intros i c. destruct (call_routes (λ st c, Ret (st, set_flag c 1)) i c 7 false (srv i) (set_flag c 1))
    as (i' & Ec & Hr & _); [reflexivity|intros H; exfalso; apply H; reflexivity|].
  exists i'. split; [exact Ec|]. exact (ro_link _ _ _ _ _ _ (Hr eq_refl)).
Defined.

(** The slave a command came from is skipped after CLIENT_UNDER_FEED has been set
    on it, and the flag is not cleared again: replies to it are no longer refused. *)
Lemma excluded_slave_left_under_feed :
  let i := mk_inst (mk_server false 6379 None 0 None None None) false false [] (Some [])
             [mk_conn 1 6380 false false []; mk_conn 2 6381 false false []] None in
  ∃ i', replicationFeedExSlave i 1 [str "union"] = Ret i'
    ∧ (slave_writable <$> conns i) = [false; false] ∧ (slave_writable <$> conns i') = [true; false].
Proof. eexists. split; [reflexivity|]. split; reflexivity. Qed.
