(* ===== verification/Locate.v ===== *)
(** * Contexts and the vertices they name

    A context is "init" followed by the identifiers of the operations a state
    contains, in any order.  [locateRVertice] follows it through the state space,
    a left edge before a right edge, by searching identifiers as substrings.
    Here: which identifiers such a search finds, and that it reaches the vertex
    whose operations are those of the context. *)
From Stdlib Require Import Ascii.
From S2P Require Import Prelude Sds Partition OtStr ClassText TextState OtUfs Graph UnionSplit GraphText Object Space Ladder Commands Control Replica.

(** ** Contexts as lists of identifiers *)

Definition ctx_list (L : list bytes) : bytes := concat ((λ o, COMMA :: o) <$> L).
Definition ctx_text (L : list bytes) : bytes := str "init" ++ ctx_list L.
Definition plain (o : bytes) : Prop := nul_free o ∧ COMMA ∉ o.

Lemma ctx_of_list es : ctx_of es = ctx_list (oid <$> es).
Proof. unfold ctx_of, ctx_list. by rewrite <-list_fmap_compose. Qed.

Lemma ctx_list_app L M : ctx_list (L ++ M) = ctx_list L ++ ctx_list M.
Proof. unfold ctx_list. by rewrite fmap_app, concat_app. Qed.

Lemma ctx_list_cons o L : ctx_list (o :: L) = COMMA :: o ++ ctx_list L.
Proof. done. Qed.

Lemma ctx_list_length L M : L ≡ₚ M → length (ctx_list L) = length (ctx_list M).
Proof.
  induction 1; rewrite ?ctx_list_cons; simpl; rewrite ?length_app; simpl; rewrite ?length_app; lia.
Qed.

Lemma ctx_list_nul L : Forall plain L → nul_free (ctx_list L).
Proof.
  induction 1 as [|o L [Ho _] _ IH]; [apply nul_free_nil|].
  rewrite ctx_list_cons. apply nul_free_cons. split; [done|]. by apply nul_free_app.
Qed.

Lemma ctx_text_nul L : Forall plain L → nul_free (ctx_text L).
Proof. intros H. apply nul_free_app. split; [apply init_nul_free|by apply ctx_list_nul]. Qed.

Lemma ctx_split L o : Forall plain L → COMMA ∉ o → split_on COMMA (o ++ ctx_list L) = o :: L.
Proof.
  intros HL. revert o. induction HL as [|a L [_ Ha] _ IH]; intros o Ho.
  - unfold ctx_list. simpl. rewrite app_nil_r. by apply split_on_free.
  - rewrite ctx_list_cons, split_on_app by done. by rewrite IH.
Qed.

(** ** Searching an identifier *)

Lemma occurs_skip x o h :
  COMMA ∉ x → occurs_in (COMMA :: o) (x ++ h) = occurs_in (COMMA :: o) h.
Proof.
  intros Hx. induction x as [|c x IH]; [done|]. apply not_elem_of_cons in Hx as [Hc Hx].
  simpl. rewrite bool_decide_eq_false_2 by done. simpl. by apply IH.
Qed.

Lemma prefix_in_ctx o a L :
  COMMA ∉ o → is_prefix o (a ++ ctx_list L) = true → is_prefix o a = true.
Proof.
  revert a. induction o as [|c o IH]; intros a Ho; [done|]. apply not_elem_of_cons in Ho as [Hc Ho].
  destruct a as [|b a]; simpl.
  - destruct L as [|x L]; [done|]. rewrite ctx_list_cons. by rewrite bool_decide_eq_false_2.
  - intros [Hb H]%andb_true_iff. rewrite Hb. simpl. by apply IH.
Qed.

Lemma occurs_ctx o L :
  COMMA ∉ o → Forall plain L → occurs_in (COMMA :: o) (ctx_list L) = true →
  ∃ a, a ∈ L ∧ is_prefix o a = true.
Proof.
  intros Ho. induction 1 as [|a L [_ Ha] _ IH]; [done|].
  rewrite ctx_list_cons. cbn [occurs_in is_prefix]. rewrite bool_decide_eq_true_2 by done. cbn [andb].
  intros [H|H]%orb_true_iff.
  - exists a. split; [by left|]. by eapply prefix_in_ctx.
  - rewrite occurs_skip in H by done. destruct (IH H) as (b & ? & ?). exists b. split; [by right|done].
Qed.

Lemma findOid_text L o :
  Forall plain L → plain o → findOid (ctx_text L) o = occurs_in (COMMA :: o) (ctx_list L).
Proof.
  intros HL [Ho Hc]. unfold findOid, strstr. rewrite sdscat_nul_free by done.
  rewrite (cstr_id (ctx_text L)) by by apply ctx_text_nul. rewrite cstr_id.
  - unfold ctx_text. simpl app at 1. rewrite occurs_skip; [done|]. concrete.
  - apply nul_free_cons. split; [done|exact Ho].
Qed.

(** An identifier of the context is found. *)
Lemma findOid_in L o : Forall plain L → o ∈ L → findOid (ctx_text L) o = true.
Proof.
  intros HL Hin. assert (plain o) as Ho by by (rewrite Forall_forall in HL; apply HL).
  rewrite findOid_text by done. clear HL. induction L as [|a L IH]; [by apply not_elem_of_nil in Hin|].
  rewrite ctx_list_cons. cbn [occurs_in is_prefix]. rewrite bool_decide_eq_true_2 by done. cbn [andb].
  apply orb_true_iff. apply elem_of_cons in Hin as [->|Hin]; [left; apply is_prefix_app|right].
  specialize (IH Hin). clear -IH. induction a as [|c a IHa]; [done|]. simpl.
  rewrite IHa. by destruct (_ && _).
Qed.

(** One that is not the beginning of any of them is not found. *)
Lemma findOid_out L o :
  Forall plain L → plain o → (∀ a, a ∈ L → is_prefix o a = false) → findOid (ctx_text L) o = false.
Proof.
  intros HL Ho Hn. rewrite findOid_text by done. apply not_true_iff_false. intros H.
  destruct (occurs_ctx o L) as (a & Ha & Hp); [apply Ho|done|done|]. by rewrite (Hn a Ha) in Hp.
Qed.

(** ** The search *)

(** The path a context of identifiers leads along: a left edge when its
    identifier is found, else a right edge whose identifier is found. *)
Inductive gpath (sp : space) (ctx : bytes) : nat → list dedge → nat → Prop :=
  | gp_here q : gpath sp ctx q [] q
  | gp_left q e es q' :
      edg LeftE sp q = Some e → findOid ctx (oid e) = true →
      gpath sp ctx (adjv e) es q' → gpath sp ctx q (e :: es) q'
  | gp_right q e es q' :
      edg RightE sp q = Some e → findOid ctx (oid e) = true →
      (∀ f, edg LeftE sp q = Some f → findOid ctx (oid f) = false) →
      gpath sp ctx (adjv e) es q' → gpath sp ctx q (e :: es) q'.

Lemma gpath_lt E sp ctx q es q' :
  sound E sp → gpath sp ctx q es q' → q < length sp → q + length es ≤ q' ∧ q' < length sp.
Proof.
  intros Hs. induction 1 as [q|q e es q' He _ _ IH|q e es q' He _ _ _ IH]; intros Hq; [simpl; lia|..];
    destruct (sound_forward E sp Hs _ _ _ He); destruct IH; simpl; lia.
Qed.

Lemma oidscmp_ctx L M : Forall plain L → L ≡ₚ M → oidscmp (ctx_text L) (ctx_text M) = Ret 0%Z.
Proof.
  intros HL HM. assert (Forall plain M) as HM' by by rewrite <-HM.
  rewrite oidscmp_perm; [|done|done|]; unfold ctx_text; rewrite !ctx_split by (done || concrete).
  - rewrite decide_True; [done|]. by rewrite HM.
  - simpl. by rewrite HM.
Qed.

Lemma locateR_gpath fuel sp L q es q' seen :
  gpath sp (ctx_text L) q es q' → length es < fuel → Forall plain L →
  oid <$> (seen ++ es) ≡ₚ L → q' < length sp →
  locateR_loop fuel sp q (ctx_text L) (ctx_text (oid <$> seen)) = Ret (Some q').
Proof.
  intros Hg Hf HL. revert fuel seen Hf.
  assert (∀ fuel q e es q' seen, length (e :: es) < fuel → oid <$> (seen ++ e :: es) ≡ₚ L →
    edge_in (sp !! q ≫= ledge) (ctx_text L) = Some e ∨
      (edge_in (sp !! q ≫= ledge) (ctx_text L) = None ∧ edge_in (sp !! q ≫= redge) (ctx_text L) = Some e) →
    q < length sp →
    (∀ fuel', length es < fuel' →
       locateR_loop fuel' sp (adjv e) (ctx_text L) (ctx_text (oid <$> (seen ++ [e]))) = Ret (Some q')) →
    locateR_loop fuel sp q (ctx_text L) (ctx_text (oid <$> seen)) = Ret (Some q')) as Hstep.
  { clear q es q' Hg. intros fuel q e es q' seen Hf Hp He Hq IH. destruct fuel as [|fuel]; [simpl in Hf; lia|].
    cbn [locateR_loop]. rewrite bool_decide_eq_false_2.
    2:{ unfold ctx_text. rewrite !length_app, <-(ctx_list_length _ _ Hp), fmap_app, ctx_list_app.
        rewrite length_app. simpl. lia. }
    destruct (lookup_lt_is_Some_2 sp q Hq) as [v Hv]. unfold vtx. rewrite Hv in *. bind_red. simpl in He.
    assert (ctx_text (oid <$> (seen ++ [e])) = sdscat (sdscat (ctx_text (oid <$> seen)) (str ",")) (oid e)) as Ect.
    { rewrite sdscat_oid.
      - unfold ctx_text. rewrite fmap_app, ctx_list_app, app_assoc.
        change (ctx_list (oid <$> [e])) with (COMMA :: oid e ++ []). by rewrite app_nil_r.
      - rewrite Forall_forall in HL. apply HL. rewrite <-Hp, fmap_app. set_solver. }
    simpl in Hf. destruct He as [->|[-> ->]]; rewrite <-Ect; apply IH; lia. }
  induction Hg as [q|q e es q' He Hfd Hg IH|q e es q' He Hfd Hno Hg IH]; intros fuel seen Hf Hp Hq'.
  - rewrite app_nil_r in Hp. destruct fuel as [|fuel]; [simpl in Hf; lia|]. cbn [locateR_loop].
    rewrite bool_decide_eq_true_2.
    2:{ unfold ctx_text. by rewrite !length_app, (ctx_list_length _ _ Hp). }
    case_bool_decide as H4.
    + assert (L = []) as ->; [|done]. destruct L as [|o L]; [done|]. exfalso. revert H4.
      unfold ctx_text. rewrite length_app, (ctx_list_length _ _ Hp), ctx_list_cons. simpl. lia.
    + rewrite oidscmp_ctx; [done|by rewrite Hp|done].
  - apply (Hstep fuel q e es); try done.
    + left. change (sp !! q ≫= ledge) with (edg LeftE sp q). unfold edge_in. by rewrite He, Hfd.
    + by eapply edg_lt.
    + intros fuel' Hf'. apply IH; [done| |done]. rewrite <-app_assoc. done.
  - apply (Hstep fuel q e es); try done.
    + right. change (sp !! q ≫= ledge) with (edg LeftE sp q).
      change (sp !! q ≫= redge) with (edg RightE sp q). unfold edge_in. rewrite He, Hfd. split; [|done].
      destruct (edg LeftE sp q) as [f|]; [|done]. by rewrite Hno.
    + by eapply edg_lt.
    + intros fuel' Hf'. apply IH; [done| |done]. rewrite <-app_assoc. done.
Qed.

Lemma locate_gpath E sp L es q :
  sound E sp → gpath sp (ctx_text L) 0 es q → 0 < length sp → Forall plain L → oid <$> es ≡ₚ L →
  locateVertice sp (Some (ctx_text L)) = Ret (Some q).
Proof.
  intros Hs Hg H0 HL Hp. destruct (gpath_lt E sp _ _ _ _ Hs Hg H0) as [Hlen Hq].
  unfold locateVertice, locateRVertice. rewrite bool_decide_eq_true_2 by lia.
  apply (locateR_gpath _ sp L 0 es q []); try done. lia.
Qed.

(** ** Identifiers *)

(** [o] is the identifier of the [n]-th operation of the slave at port [p]. *)
Definition is_oid (p n : Z) (o : bytes) : Prop :=
  ∃ s1 s2, o = s1 ++ "_"%char :: s2 ∧ decimal s1 = (p - 6379)%Z ∧ decimal s2 = n
    ∧ Forall (λ d, 0 ≤ dval d ≤ 9)%Z s1 ∧ Forall (λ d, 0 ≤ dval d ≤ 9)%Z s2.

Lemma digit_plain d : (0 ≤ dval d ≤ 9)%Z → d ≠ NUL ∧ d ≠ COMMA ∧ d ≠ "_"%char.
Proof. intros H. split_and!; intros ->; vm_compute in H; naive_solver. Qed.

Lemma digits_free c s :
  Forall (λ d, 0 ≤ dval d ≤ 9)%Z s → c ∈ [NUL; COMMA; "_"%char] → c ∉ s.
Proof.
  intros Hs Hc Hin. rewrite Forall_forall in Hs. destruct (digit_plain c (Hs c Hin)) as (? & ? & ?). set_solver.
Qed.

Lemma is_oid_plain p n o : is_oid p n o → plain o.
Proof.
  intros (s1 & s2 & -> & _ & _ & D1 & D2). unfold plain, nul_free.
  pose proof (digits_free NUL s1 D1). pose proof (digits_free NUL s2 D2).
  pose proof (digits_free COMMA s1 D1). pose proof (digits_free COMMA s2 D2).
  rewrite !not_elem_of_app, !not_elem_of_cons. split; (split; [set_solver|split; [done|set_solver]]).
Qed.

Lemma decimal_app s t : decimal (s ++ t) = (decimal s * 10 ^ Z.of_nat (length t) + decimal t)%Z.
Proof.
  unfold decimal. rewrite fold_left_app. generalize (fold_left (λ acc c, 10 * acc + dval c)%Z s 0%Z).
  induction t as [|c t IH] using rev_ind; intros a; [simpl; lia|].
  rewrite !fold_left_app, IH. simpl. rewrite length_app, Nat.add_comm. simpl length.
  rewrite Nat.add_1_l, Nat2Z.inj_succ, Z.pow_succ_r by lia. lia.
Qed.

Lemma decimal_nonneg s : Forall (λ d, 0 ≤ dval d ≤ 9)%Z s → (0 ≤ decimal s)%Z.
Proof.
  induction s as [|c s IH] using rev_ind; [done|]. intros [Hs Hc]%Forall_app.
  unfold decimal in *. rewrite fold_left_app. simpl. apply Forall_cons in Hc as [Hc _].
  specialize (IH Hs). lia.
Qed.

Lemma is_prefix_spec p s : is_prefix p s = true → ∃ t, s = p ++ t.
Proof.
  revert s. induction p as [|a p IH]; intros s H; [by exists s|]. destruct s as [|b s]; [done|].
  simpl in H. apply andb_true_iff in H as [->%bool_decide_eq_true H].
  destruct (IH s H) as [t ->]. by exists t.
Qed.

(** An identifier that begins another one belongs to the same slave and to an
    operation that is not later. *)
Lemma is_oid_prefix p n o p' n' o' :
  is_oid p n o → is_oid p' n' o' → is_prefix o o' = true → p = p' ∧ (n ≤ n')%Z.
Proof.
  intros (s1 & s2 & -> & E1 & E2 & D1 & D2) (t1 & t2 & -> & F1 & F2 & D3 & D4) Hp.
  destruct (is_prefix_spec _ _ Hp) as [t Ht]. rewrite <-app_assoc in Ht. simpl in Ht.
  apply (f_equal (split_on "_"%char)) in Ht. rewrite !split_on_app in Ht by (apply digits_free; [done|set_solver]).
  injection Ht as -> Ht. split; [lia|].
  apply (f_equal (Prelude.join "_"%char)) in Ht. rewrite !join_split in Ht. subst t2.
  rewrite <-E2, <-F2, decimal_app. apply Forall_app in D4 as [_ D4].
  pose proof (decimal_nonneg s2 D2). pose proof (decimal_nonneg t D4).
  assert (1 ≤ 10 ^ Z.of_nat (length t))%Z by (apply Z.lt_pred_le, Z.pow_pos_nonneg; lia). nia.
Qed.

Lemma digits_digits fuel sum aa r :
  (0 ≤ sum)%Z → Forall (λ d, 0 ≤ dval d ≤ 9)%Z aa → digits fuel sum 10 aa = Ret r →
  Forall (λ d, 0 ≤ dval d ≤ 9)%Z r.
Proof.
  revert sum aa. induction fuel as [|fuel IH]; intros sum aa Hs Ha; cbn [digits].
  - by case_bool_decide; intros [= <-].
  - case_bool_decide; [|by intros [= <-]].
    rewrite Z.rem_mod_nonneg, Z.quot_div_nonneg by lia. pose proof (Z.mod_pos_bound sum 10 ltac:(lia)).
    destruct (zm_digit (sum mod 10)) as (d & Hd & Hv & _); [lia|]. rewrite Hd. bind_red.
    apply IH; [apply Z.div_pos; lia|]. apply Forall_app. split; [done|]. repeat constructor; lia.
Qed.

Lemma itos_digits v s : (0 ≤ v)%Z → itos v 10 = Ret s → Forall (λ d, 0 ≤ dval d ≤ 9)%Z s.
Proof.
  intros Hv. unfold itos. destruct (digits 100 v 10 []) as [aa|] eqn:E; [|done]. intros [= <-].
  apply Forall_rev, (digits_digits 100 v []); [done|by constructor|done].
Qed.

Lemma new_oid_is_oid st o : oid_range st → new_oid st = Ret o → is_oid (port st) (op_num st) o.
Proof.
  intros R. pose proof R as [Hp Hn].
  destruct (itos_spec 4 (port st - 6379)) as (s1 & E1 & L1 & D1 & F1); [lia..|].
  destruct (itos_spec 4 (op_num st)) as (s2 & E2 & L2 & D2 & F2); [lia..|].
  destruct (new_oid_spec st R) as (t1 & t2 & E & _). rewrite E. intros [= <-].
  assert (t1 ++ "_"%char :: t2 = s1 ++ "_"%char :: s2) as ->.
  { revert E. unfold new_oid, itos_buf. rewrite E1. bind_red.
    rewrite bool_decide_eq_true_2 by (unfold Port_Num; lia). bind_red. rewrite E2. bind_red.
    rewrite bool_decide_eq_true_2 by (unfold Max_Op_Num; lia). bind_red.
    rewrite (sdscat_nul_free _ s2), (sdscat_nul_free _ s1) by by apply digits_nul_free.
    change (sdscat (sdsempty ++ s1) (str "_")) with ((sdsempty ++ s1) ++ ["_"%char]).
    rewrite <-app_assoc. intros [= E]. by rewrite <-E. }
  exists s1, s2. split_and!; try done; [by eapply (itos_digits (port st - 6379)); [lia|]|].
  by eapply (itos_digits (op_num st)); [lia|].
Qed.
