(* ===== verification/Grid.v ===== *)
(** * The grid of an object: abstract states of one slave

    The state space of a slave and the one the master keeps for it are two views
    of one grid: the point (i, j) is the state after the first [i] operations of
    the slave and the first [j] operations of the others.  This file defines the
    grid on abstract states, labels the vertices of a state space with points of
    it, and shows that the transformation loop of [controlAlg] computes labels. *)
From S2P Require Import Prelude Sds Partition OtStr ClassText TextState OtUfs Graph UnionSplit GraphText Object Space Ladder Commands Control Replica Master Locate.

(** ** Kinds of operations and the far corner of a square *)

Inductive kind := KUnion | KSplit (s : bytes).

Definition kind_of (v : view) : kind :=
  match v with VUnion _ _ => KUnion | VSplit L => KSplit (hd [] L) end.

(** The least partial equivalence above two relations. *)
Definition lub (R S : prel) : prel := λ x y,
  ∀ T : prel, per T → (∀ a b, R a b → T a b) → (∀ a b, S a b → T a b) → T x y.

(** The state after two concurrent operations of kinds [k1] and [k2], given the
    states after either of them: splits win over unions. *)
Definition both (k1 k2 : kind) (R1 R2 : prel) : prel :=
  match k1, k2 with
  | KSplit s, _ => srel R2 [s]
  | KUnion, KSplit s => srel R1 [s]
  | KUnion, KUnion => lub R1 R2
  end.

(** [o] is a simple operation of kind [k] that takes [R] to [R']. *)
Definition acts (R : prel) (o : op) (k : kind) (R' : prel) : Prop :=
  ∃ v, op_on R o v ∧ simple v ∧ kind_of v = k ∧ R' ≡ aapply (abs_op v) R.

Lemma lub_mono R R' S S' x y :
  (∀ a b, R a b → R' a b) → (∀ a b, S a b → S' a b) → lub R S x y → lub R' S' x y.
Proof. intros HR HS H T Ht H1 H2. apply H; auto. Qed.

#[global] Instance lub_proper : Proper ((≡) ==> (≡) ==> (≡)) lub.
Proof.
  intros R R' HR S S' HS x y. split; apply lub_mono; intros a b; (apply HR || apply HS).
Qed.

#[global] Instance both_proper k1 k2 : Proper ((≡) ==> (≡) ==> (≡)) (both k1 k2).
Proof. intros R R' HR S S' HS. destruct k1, k2; simpl; by rewrite ?HR, ?HS. Qed.

#[global] Instance acts_proper : Proper ((≡) ==> (=) ==> (=) ==> (≡) ==> iff) acts.
Proof.
  assert (∀ R S o k R' S', R ≡ S → R' ≡ S' → acts R o k R' → acts S o k S') as H.
  { intros R S o k R' S' E E' (v & H1 & H2 & H3 & H4). exists v.
    split_and!; [by rewrite <-E|done|done|by rewrite <-E', H4, E]. }
  intros R S E o ? <- k ? <- R' S' E'. split; apply H; (done || by symmetry).
Qed.

Lemma lub_comm R S : lub R S ≡ lub S R.
Proof. intros x y. unfold lub. firstorder. Qed.

(** A union adds to the relation, and only between elements it relates. *)
Lemma aunion_sub a b R x y : R x y → aapply (AUnion a b) R x y.
Proof. intros H. destruct a, b; simpl; try done. by left. Qed.

Lemma aunion_dom a b R x y : per R → aapply (AUnion a b) R x y → R x x ∧ R y y.
Proof.
  intros HR H. destruct a as [a|], b as [b|]; simpl in H; [by eapply urel_dom|..];
    destruct HR as [Hs Ht]; split; eauto.
Qed.

Lemma aunion_lub a b c d R :
  per R → lub (aapply (AUnion a b) R) (aapply (AUnion c d) R) ≡ aapply (AUnion c d) (aapply (AUnion a b) R).
Proof.
  intros HR x y. split.
  - intros H. apply H; [by apply aapply_per, aapply_per|intros ? ?; by apply aunion_sub|].
    intros u w Hu. destruct c as [c|], d as [d|]; simpl in *; try by apply aunion_sub.
    unfold urel. destruct Hu as [?|[[??]|[??]]]; [left|right; left|right; right]; try split; by apply aunion_sub.
  - intros H T [Hs Htr] H1 H2. destruct c as [c|], d as [d|]; simpl in H; try by apply H1.
    assert (∀ u w, aapply (AUnion a b) R u c ∧ aapply (AUnion a b) R d w → T u w) as H3.
    { intros u w [Hu Hw]. destruct (aunion_dom a b R u c HR Hu) as [_ Hc].
      destruct (aunion_dom a b R d w HR Hw) as [Hd _].
      apply Htr with c; [by apply H1|]. apply Htr with d; [|by apply H1].
      apply H2. simpl. right. by left. }
    destruct H as [H|[H|[Hx Hy]]]; [by apply H1|by apply H3|]. apply Hs, H3.
    pose proof (aapply_per (AUnion a b) R HR) as [Hs' _]. split; by apply Hs'.
Qed.

Lemma acts_type R o k R' :
  acts R o k R' → optype o = match k with KUnion => OPTYPE_UNION | KSplit _ => OPTYPE_SPLIT end.
Proof. intros (v & [] & _ & <- & _); done. Qed.

Lemma acts_refl R o k R' x : acts R o k R' → R x x → R' x x.
Proof. intros (v & _ & _ & _ & E) H. apply E. by apply aapply_refl. Qed.

Lemma simple_split L : simple (VSplit L) → L = [hd [] L].
Proof. destruct L as [|a [|b L]]; simpl; (done || lia). Qed.

(** Concurrent operations commute as far as [both] is concerned. *)
Lemma both_comm R o1 k1 R1 o2 k2 R2 :
  acts R o1 k1 R1 → acts R o2 k2 R2 → both k1 k2 R1 R2 ≡ both k2 k1 R2 R1.
Proof.
  intros (v1 & _ & S1 & <- & E1) (v2 & _ & S2 & <- & E2).
  destruct v1 as [g1 g2|L1], v2 as [g3 g4|L2]; simpl; try done; [apply lub_comm|].
  rewrite E1, E2. simpl. rewrite (simple_split L1), (simple_split L2) by done. apply srel_comm.
Qed.

(** ** The square of the transformation, with its far corner *)
Lemma square_acts s op1 k1 R1 op2 k2 R2 :
  text_ok s → acts (rel_t s) op1 k1 R1 → acts (rel_t s) op2 k2 R2 →
  ∃ e1 e2, otUfs s op1 op2 OT_UNION = Ret (e1, e2)
    ∧ acts R2 e1 k1 (both k1 k2 R1 R2) ∧ acts R1 e2 k2 (both k1 k2 R1 R2).
Proof.
  intros Hok (v1 & H1 & S1 & <- & E1) (v2 & H2 & S2 & <- & E2).
  destruct (tp1_square s op1 v1 op2 v2) as
    (e1 & v1' & e2 & v2' & Eot & (O1 & S1' & K1) & (O2 & S2' & K2) & Heq); try done.
  assert (per (rel_t s)) as Hper.
  { destruct Hok as [(_ & _ & Hnd) _]. by apply rel_of_per. }
  assert (kind_of v1' = kind_of v1 ∧ kind_of v2' = kind_of v2) as [Ek1 Ek2].
  { destruct v1, v2; simpl in K1, K2; naive_solver. }
  assert (both (kind_of v1) (kind_of v2) R1 R2 ≡ aapply (abs_op v1') (aapply (abs_op v2) (rel_t s))) as Hc.
  { rewrite E1, E2. destruct v1 as [g1 g2|L1], v2 as [g3 g4|L2]; simpl in K1, K2 |- *.
    - subst. rewrite <-Heq. by apply aunion_lub.
    - subst v2'. rewrite <-Heq. simpl. by rewrite (simple_split L2).
    - subst v1'. simpl. by rewrite (simple_split L1).
    - subst v1'. simpl. by rewrite (simple_split L1). }
  exists e1, e2. split; [done|]. split.
  - exists v1'. split_and!; [by rewrite E2|done|done|]. by rewrite Hc, E2.
  - exists v2'. split_and!; [by rewrite E1|done|done|]. by rewrite Hc, E1, Heq.
Qed.

(** ** Grids and labelled state spaces *)

(** An operation of the grid: its kind, its identifier, and how many operations
    of the other side it was generated after. *)
Record gop := mk_gop { g_kind : kind; g_oid : bytes; g_at : nat }.

(** [G i j] is the state after [i] operations of the slave and [j] others. *)
Record grid := mk_grid { G : nat → nat → prel; own : list gop; rem : list gop }.

Definition ops (γ : grid) (d : side) : list gop :=
  match d with LeftE => own γ | RightE => rem γ end.
Definition coord (d : side) (p : nat * nat) : nat :=
  match d with LeftE => p.1 | RightE => p.2 end.
Definition fwd (d : side) (p : nat * nat) : nat * nat :=
  match d with LeftE => (S p.1, p.2) | RightE => (p.1, S p.2) end.
Definition Gp (γ : grid) (p : nat * nat) : prel := G γ p.1 p.2.

(** The square at (i, j). *)
Definition law (γ : grid) (p : nat * nat) : Prop := ∀ w r,
  own γ !! p.1 = Some w → rem γ !! p.2 = Some r →
  G γ (S p.1) (S p.2) ≡ both (g_kind w) (g_kind r) (G γ (S p.1) p.2) (G γ p.1 (S p.2)).

(** [pos] gives every vertex its point of the grid. *)
Record labelled (E : list bytes) (γ : grid) (sp : space) (pos : list (nat * nat)) : Prop := {
  lb_length : length pos = length sp;
  lb_bound k p : pos !! k = Some p → p.1 ≤ length (own γ) ∧ p.2 ≤ length (rem γ);
  lb_text k p : pos !! k = Some p → ∃ s, text_of E sp k s ∧ rel_t s ≡ Gp γ p;
  lb_edge d k e p : edg d sp k = Some e → pos !! k = Some p →
    ∃ w, k < adjv e ∧ pos !! adjv e = Some (fwd d p) ∧ ops γ d !! coord d p = Some w
      ∧ oid e = g_oid w ∧ acts (Gp γ p) (e_op e) (g_kind w) (Gp γ (fwd d p));
}.

Lemma fwd_comm d p : fwd d (fwd (opp d) p) = fwd (opp d) (fwd d p).
Proof. by destruct d. Qed.

Lemma fwd_ne d p : fwd d p ≠ fwd (opp d) p.
Proof. destruct d, p; simpl; intros [=]; lia. Qed.

Lemma coord_fwd d p : coord d (fwd (opp d) p) = coord d p.
Proof. by destruct d. Qed.

Lemma labelled_lookup E γ sp pos k : labelled E γ sp pos → k < length sp → is_Some (pos !! k).
Proof. intros [Hl _ _ _] Hk. apply lookup_lt_is_Some_2. lia. Qed.

Lemma labelled_sound E γ sp pos : labelled E γ sp pos → sound E sp.
Proof.
  intros HL. pose proof HL as [Hl _ Ht He]. split.
  - intros d q e Hq. destruct (labelled_lookup E γ sp pos q HL (edg_lt _ _ _ _ Hq)) as [p Hp].
    destruct (He d q e p Hq Hp) as (w & ? & Hn & _). apply lookup_lt_Some in Hn. lia.
  - intros q Hq. destruct (labelled_lookup E γ sp pos q HL Hq) as [p Hp].
    destruct (Ht q p Hp) as (s & Hs & _). by exists s.
  - intros d q e s Hq Hs. destruct (labelled_lookup E γ sp pos q HL (edg_lt _ _ _ _ Hq)) as [p Hp].
    destruct (He d q e p Hq Hp) as (w & _ & Hn & _ & _ & v & Ho & Hv & _ & HR).
    destruct (Ht q p Hp) as (s1 & (Hs1 & _) & R1). destruct (Ht _ _ Hn) as (s2 & T2 & R2).
    simplify_eq. exists v, s2. split_and!; [by rewrite R1|done|done|]. by rewrite R2, HR, R1.
Qed.

(** The two edges of a square, as seen from side [d]. *)
Lemma law_side γ d p w r (R : prel) o1 R1 o2 R2 :
  law γ p → ops γ d !! coord d p = Some w → ops γ (opp d) !! coord (opp d) p = Some r →
  acts R o1 (g_kind w) R1 → acts R o2 (g_kind r) R2 →
  R1 ≡ Gp γ (fwd d p) → R2 ≡ Gp γ (fwd (opp d) p) →
  Gp γ (fwd d (fwd (opp d) p)) ≡ both (g_kind w) (g_kind r) R1 R2.
Proof.
  intros Hlaw Hw Hr A1 A2 E1 E2. destruct d; simpl in *.
  - rewrite (Hlaw w r Hw Hr). by rewrite E1, E2.
  - unfold Gp. simpl. rewrite (Hlaw r w Hr Hw). rewrite (both_comm R o1 _ R1 o2 _ R2 A1 A2). by rewrite E1, E2.
Qed.

Lemma labelled_extend E γ sp pos sp' s P :
  labelled E γ sp pos → length sp' = S (length sp) →
  (∀ k, cont sp' k = if decide (k = length sp) then Some s else cont sp k) →
  text_ok s → concat (parse s) ≡ₚ E → rel_t s ≡ Gp γ P →
  (∀ d k e p, edg d sp' k = Some e → pos !! k = Some p →
     edg d sp k = Some e ∨
     (adjv e = length sp ∧ fwd d p = P ∧ ∃ w, ops γ d !! coord d p = Some w ∧ oid e = g_oid w
       ∧ acts (Gp γ p) (e_op e) (g_kind w) (Gp γ P))) →
  (∀ d, edg d sp' (length sp) = None) → P.1 ≤ length (own γ) → P.2 ≤ length (rem γ) →
  labelled E γ sp' (pos ++ [P]).
Proof.
  intros [Hl Hbd Ht He] Hlen Hc Hok HE HR Hedge Hnew HP1 HP2. split.
  - rewrite length_app, Hlen. simpl. lia.
  - intros k p [Hk|[Hk Hp]]%lookup_app_Some; [by apply (Hbd k)|].
    destruct (k - length pos) as [|?]; [|done]. by simplify_eq/=.
  - intros k p [Hk|[Hk Hp]]%lookup_app_Some.
    + destruct (Ht k p Hk) as (t & Ht' & Hr). exists t. split; [|done].
      apply (text_of_frame E sp); [|done]. intros k' ?. rewrite Hc, decide_False by lia. done.
    + assert (k = length sp) as -> by (apply lookup_lt_Some in Hp; simpl in Hp; lia).
      rewrite Hl, Nat.sub_diag in Hp. simplify_eq/=. exists s. split; [|done].
      split_and!; [|done|done]. by rewrite Hc, decide_True.
  - intros d k e p Hk [Hp|[Hp1 Hp2]]%lookup_app_Some.
    + destruct (Hedge d k e p Hk Hp) as [Hk'|(Ha & HP & w & Hw & Ho & Hact)].
      * destruct (He d k e p Hk' Hp) as (w & ? & Hn & ? & ? & ?). exists w. split_and!; try done.
        by apply lookup_app_l_Some.
      * exists w. apply lookup_lt_Some in Hp. rewrite HP. split_and!; try done; [lia|].
        rewrite Ha, <-Hl. by rewrite lookup_app_r, Nat.sub_diag by lia.
    + apply lookup_lt_Some in Hp2. simpl in Hp2.
      assert (k = length sp) as -> by lia. by rewrite Hnew in Hk.
Qed.

Lemma rung_labelled E γ d sp pos u eu eo P :
  labelled E γ sp pos → pos !! u = Some P → edg d sp u = Some eu → edg (opp d) sp u = Some eo →
  edg d sp (adjv eo) = None → law γ P →
  ∃ sp' e1 e2 s, rung d sp u (adjv eo) (tlen E) = Ret (sp', adjv eu, length sp)
    ∧ rung_frame d sp (adjv eo) (adjv eu) e1 e2 s sp'
    ∧ oid e1 = oid eu ∧ adjv e1 = length sp ∧ oid e2 = oid eo ∧ adjv e2 = length sp
    ∧ labelled E γ sp' (pos ++ [fwd d (fwd (opp d) P)]).
Proof.
  intros HL Hu Hd Ho Hfr Hlaw. pose proof HL as [Hl _ Ht He].
  destruct (He d u eu P Hd Hu) as (w & Hlt1 & N1 & W1 & O1 & A1).
  destruct (He (opp d) u eo P Ho Hu) as (r & Hlt2 & N2 & W2 & O2 & A2).
  destruct (Ht u P Hu) as (cu & Tu & Ru). pose proof Tu as (Cu & Oku & _).
  destruct (Ht _ _ N1) as (cl & Tl & Rl). pose proof Tl as (Cl & Okl & El).
  destruct (Ht _ _ N2) as (cp & Tp & Rp). pose proof Tp as (Cp & Okp & Ep).
  rewrite <-Ru in A1, A2.
  destruct (square_acts cu (e_op eu) (g_kind w) (Gp γ (fwd d P)) (e_op eo) (g_kind r) (Gp γ (fwd (opp d) P)))
    as (o1 & o2 & Hot & B1 & B2); try done.
  rewrite <-(law_side γ d P w r (rel_t cu) (e_op eu) _ (e_op eo) _ Hlaw W1 W2 A1 A2) in B1, B2 by done.
  pose proof B2 as (v2' & P2 & Q2 & _ & C2). rewrite <-Rl in P2.
  destruct (exec_text_spec cl o2 v2' Okl P2) as (s & Es & Oks & Rs & Hlen & Hcc).
  unfold exec in Es. rewrite (text_of_length E sp (adjv eu) cl Tl) in Es.
  assert (adjv eu ≠ adjv eo) as Hne.
  { intros E'. rewrite E' in N1. rewrite N1 in N2. injection N2 as N2. by apply (fwd_ne d P). }
  pose proof (lookup_lt_Some _ _ _ N2) as L2. pose proof (lookup_lt_Some _ _ _ N1) as L1.
  destruct (rung_spec d sp u (adjv eo) (tlen E) eu eo cu cl o1 o2 s) as (sp' & Er & F);
    try done; [lia..|].
  exists sp', (mk_dedge o1 (oid eu) (length sp)), (mk_dedge o2 (oid eo) (length sp)), s.
  split_and!; try done. destruct F as [Fl Fc Fa Fo].
  apply (labelled_extend E γ sp pos sp' s); try done.
  - by rewrite Hcc.
  - rewrite Rs, Rl. by rewrite C2.
  - assert (∀ k e p, edg d sp' k = Some e → pos !! k = Some p → edg d sp k = Some e ∨
      (adjv e = length sp ∧ fwd d p = fwd d (fwd (opp d) P) ∧ ∃ w, ops γ d !! coord d p = Some w
       ∧ oid e = g_oid w ∧ acts (Gp γ p) (e_op e) (g_kind w) (Gp γ (fwd d (fwd (opp d) P))))) as Ha.
    { intros k e p. rewrite Fa. destruct (decide (k = adjv eo)) as [->|]; [|by left].
      intros [= <-] Hk. right. rewrite N2 in Hk. injection Hk as <-. split_and!; [done..|].
      exists w. by rewrite coord_fwd. }
    assert (∀ k e p, edg (opp d) sp' k = Some e → pos !! k = Some p → edg (opp d) sp k = Some e ∨
      (adjv e = length sp ∧ fwd (opp d) p = fwd d (fwd (opp d) P) ∧ ∃ w, ops γ (opp d) !! coord (opp d) p = Some w
       ∧ oid e = g_oid w ∧ acts (Gp γ p) (e_op e) (g_kind w) (Gp γ (fwd d (fwd (opp d) P))))) as Hb.
    { intros k e p. rewrite Fo. destruct (decide (k = adjv eu)) as [->|]; [|by left].
      intros [= <-] Hk. right. rewrite N1 in Hk. injection Hk as <-. split_and!; [done|by rewrite fwd_comm|].
      exists r. by destruct d. }
    intros d' k e p. destruct d, d'; auto.
  - intros d'. assert (edg d sp' (length sp) = None ∧ edg (opp d) sp' (length sp) = None) as [N3 N4].
    { rewrite Fa, Fo, !decide_False by lia. unfold edg. by rewrite lookup_ge_None_2. }
    by destruct d, d'.
  - apply lookup_lt_Some in W1, W2. destruct d; simpl in *; lia.
  - apply lookup_lt_Some in W1, W2. destruct d; simpl in *; lia.
Qed.

Definition nul_free_ops (γ : grid) : Prop := ∀ d w, w ∈ ops γ d → nul_free (g_oid w).

Lemma labelled_oids E γ sp pos : labelled E γ sp pos → nul_free_ops γ → oids_ok sp.
Proof.
  intros HL Hn d k e Hk. destruct (labelled_lookup E γ sp pos k HL (edg_lt _ _ _ _ Hk)) as [p Hp].
  destruct (lb_edge _ _ _ _ HL d k e p Hk Hp) as (w & _ & _ & Hw & -> & _).
  apply (Hn d). by eapply list_elem_of_lookup_2.
Qed.

Lemma iter_fwd_opp n d p : coord (opp d) (Nat.iter n (fwd d) p) = coord (opp d) p.
Proof. induction n as [|n IH]; simpl; [done|]. rewrite <-IH. by destruct d. Qed.

Lemma iter_fwd n d p : coord d (Nat.iter n (fwd d) p) = n + coord d p.
Proof. induction n as [|n IH]; simpl; [done|]. rewrite <-IH. by destruct d. Qed.

Lemma iter_succ n d p : Nat.iter n (fwd d) (fwd d p) = Nat.iter (S n) (fwd d) p.
Proof. induction n as [|n IH]; simpl; [done|]. by rewrite IH. Qed.

Lemma point_eq d p p' : coord d p = coord d p' → coord (opp d) p = coord (opp d) p' → p = p'.
Proof. destruct d, p, p'; simpl; congruence. Qed.

(** Along a chain only one coordinate grows. *)
Lemma chain_pos E γ d sp pos u es q P :
  labelled E γ sp pos → chain d sp u es q → pos !! u = Some P →
  pos !! q = Some (Nat.iter (length es) (fwd d) P)
  ∧ ∀ k, k ∈ adjv <$> es → ∃ n, n < length es ∧ pos !! k = Some (Nat.iter (S n) (fwd d) P).
Proof.
  intros HL Hc. revert P. induction Hc as [q Hq Hn|q e es q' He Hc IH]; intros P HP.
  - split; [done|]. by intros k ?%not_elem_of_nil.
  - destruct (lb_edge _ _ _ _ HL d q e P He HP) as (w & _ & Hn & _).
    destruct (IH _ Hn) as [IH1 IH2]. split.
    + rewrite IH1. simpl length. by rewrite iter_succ.
    + intros k [->|Hk]%elem_of_cons; [exists 0; simpl; split; [lia|done]|].
      destruct (IH2 k Hk) as (n & ? & Hk'). exists (S n). simpl length. split; [lia|].
      by rewrite Hk', iter_succ.
Qed.

(** [k'] is where the [d] edge of [k] leads. *)
Definition rungs (d : side) (sp : space) (k k' : nat) : Prop := ∃ f, edg d sp k = Some f ∧ adjv f = k'.

(** A vertex beside the chain is not on it. *)
Lemma beside_chain E γ d sp pos u es q P eo :
  labelled E γ sp pos → chain d sp u es q → pos !! u = Some P → edg (opp d) sp u = Some eo → adjv eo ∉ adjv <$> es.
Proof.
  intros HL Hc Hu Ho Hin. destruct (lb_edge _ _ _ _ HL (opp d) u eo P Ho Hu) as (r & _ & No & _).
  destruct (chain_pos E γ d sp pos u es q P HL Hc Hu) as [_ Hk].
  destruct (Hk _ Hin) as (n & _ & Hn). rewrite No in Hn. injection Hn as Hn. apply (f_equal (coord (opp d))) in Hn.
  change (coord (opp d) (fwd (opp d) P) = coord (opp d) (Nat.iter (S n) (fwd d) P)) in Hn.
  rewrite iter_fwd_opp in Hn. destruct d; simpl in Hn; lia.
Qed.

(** The loop of [controlAlg] on a labelled space: every vertex of the old chain
    gets an edge to a vertex of the new one. *)
Lemma ladder_labelled E γ d es : ∀ fuel sp pos u q eo oids P,
  labelled E γ sp pos → nul_free_ops γ → pos !! u = Some P → chain d sp u es q →
  edg (opp d) sp u = Some eo → edg d sp (adjv eo) = None → edg (opp d) sp (adjv eo) = None →
  (∀ n, n < length es → law γ (Nat.iter n (fwd d) P)) → length es ≤ fuel →
  ∃ sp' pos' p' e',
    ladder fuel d sp u (adjv eo) (tlen E) oids = Ret (sp', q, p', oids ++ ctx_of es)
    ∧ ladder_frame d sp (adjv eo) es sp' ∧ labelled E γ sp' (pos ++ pos')
    ∧ edg (opp d) sp' q = Some e' ∧ adjv e' = p' ∧ edg d sp' q = None
    ∧ edg d sp' p' = None ∧ edg (opp d) sp' p' = None
    ∧ ∃ es2, bare d sp' (adjv eo) es2 p'
        ∧ Forall2 (rungs (opp d) sp') (u :: (adjv <$> es)) (adjv eo :: (adjv <$> es2)).
Proof.
  induction es as [|e es IH]; intros fuel sp pos u q eo oids P HL Hnf Hu Hc Ho Hfr Hfr' Hlaw Hfuel;
    pose proof (labelled_sound E γ sp pos HL) as Hs.
  - inversion Hc as [? Hq Hn|]; subst. exists sp, [], (adjv eo), eo.
    pose proof (sound_forward E sp Hs _ _ _ Ho) as Fo. rewrite (app_nil_r pos). split_and!; try done.
    + unfold edg in Hn. destruct (lookup_lt_is_Some_2 sp q Hq) as [v Hv]. rewrite Hv in Hn.
      simpl in Hn. unfold ctx_of. simpl. rewrite app_nil_r.
      destruct fuel; cbn [ladder]; unfold vtx; rewrite Hv; bind_red; by rewrite Hn.
    + exists []. split; [|repeat constructor; by exists eo]. split_and!; try done. constructor; [lia|done].
  - inversion Hc as [|? ? ? ? He Hc']; subst. destruct fuel as [|fuel]; [simpl in Hfuel; lia|].
    destruct (chain_lt E d sp u (e :: es) q Hs Hc) as (_ & Hql & Hes).
    apply Forall_cons in Hes as [Hue Hes].
    pose proof (sound_forward E sp Hs _ _ _ Ho) as Fo. pose proof (sound_forward E sp Hs _ _ _ He) as Fe.
    destruct (lb_edge _ _ _ _ HL d u e P He Hu) as (w & _ & Ne & Hw & Ew & _).
    destruct (lb_edge _ _ _ _ HL (opp d) u eo P Ho Hu) as (r & _ & No & _).
    destruct (rung_labelled E γ d sp pos u e eo P) as (sp1 & e1 & e2 & s & Er & F & Eo1 & Ea1 & Eo2 & Ea2 & HL1);
      try done; [apply (Hlaw 0); simpl; lia|].
    pose proof F as [L1 C1 A1 O1].
    assert (adjv eo ≠ adjv e ∧ adjv eo ∉ adjv <$> es) as [Hne Hnin].
    { pose proof (beside_chain E γ d sp pos u (e :: es) q P eo HL Hc Hu Ho) as Hn. by apply not_elem_of_cons in Hn. }
    assert (length sp ∉ adjv <$> es) as Hnew.
    { intros (x & Ex & Hx)%list_elem_of_fmap. rewrite Forall_forall in Hes. pose proof (Hes x Hx). lia. }
    destruct (IH fuel sp1 (pos ++ [fwd d (fwd (opp d) P)]) (adjv e) q e2 (sdscat (sdscat oids (str ",")) (oid e)) (fwd d P))
      as (sp2 & pos2 & p' & e' & El & F2 & HL2 & Hq1 & Hq2 & Hq3 & Hp1 & Hp2 & Hcol); try done.
    + by apply lookup_app_l_Some.
    + apply (chain_frame d sp); try done; [lia|rewrite A1, decide_False by congruence; done|].
      intros x Hx. rewrite A1, decide_False; [done|]. intros E'. apply Hnin.
      rewrite <-E'. by apply list_elem_of_fmap_2.
    + by rewrite O1, decide_True.
    + rewrite Ea2, A1, decide_False by lia. unfold edg. by rewrite lookup_ge_None_2.
    + rewrite Ea2, O1, decide_False by lia. unfold edg. by rewrite lookup_ge_None_2.
    + intros n Hn. rewrite iter_succ. apply Hlaw. simpl. lia.
    + simpl in Hfuel. lia.
    + rewrite Ea2 in El, F2.
      pose proof (ladder_frame_step _ _ _ _ _ _ _ _ _ _ F F2) as F3.
      exists sp2, ([fwd d (fwd (opp d) P)] ++ pos2), p', e'. rewrite app_assoc. split_and!; try done.
      * cbn [ladder]. unfold edg in He. unfold vtx. destruct (sp !! u) as [v|]; [|done].
        simpl in He. bind_red. rewrite He, Er. bind_red. rewrite El.
        rewrite sdscat_oid by (rewrite Ew; apply (Hnf d); by eapply list_elem_of_lookup_2).
        unfold ctx_of. simpl. by rewrite <-app_assoc.
      * destruct Hcol as (es2 & (Hb1 & Hb2 & Hb3) & Hrg). rewrite Ea2 in Hb1, Hb2, Hrg.
        destruct F2 as [_ _ A2 O2]. destruct F3 as [_ _ _ O3]. exists (e1 :: es2). split; [split_and!|].
        -- constructor; [|by rewrite Ea1]. by rewrite A2, A1, decide_True by lia.
        -- rewrite O3; [done|lia|]. simpl. by apply not_elem_of_cons.
        -- constructor; [by rewrite Ea1|done].
        -- constructor; [|simpl; by rewrite Ea1]. exists eo. split; [|done].
           rewrite O3; [done|lia|]. simpl. intros [E'|Hin]%elem_of_cons; [lia|].
           apply list_elem_of_fmap in Hin as (x & Ex & Hx). rewrite Forall_forall in Hes.
           pose proof (Hes x Hx). lia.
Qed.

(** ** Adding an operation *)

#[global] Instance side_eq_dec : EqDecision side.
Proof. solve_decision. Defined.

Lemma inserted_labelled E γ sp pos d u P cu o w s :
  labelled E γ sp pos → pos !! u = Some P → cont sp u = Some cu →
  ops γ d !! coord d P = Some w → acts (Gp γ P) o (g_kind w) (Gp γ (fwd d P)) →
  text_ok s → concat (parse s) ≡ₚ E → rel_t s ≡ Gp γ (fwd d P) →
  labelled E γ (inserted sp d u o (g_oid w) s) (pos ++ [fwd d P]).
Proof.
  intros HL Hu Hcu Hw Hact Hok HE HR. pose proof HL as [Hl Hbd _ _].
  pose proof (lookup_lt_Some _ _ _ Hu) as Hlt. rewrite Hl in Hlt.
  pose proof (Hbd u P Hu) as [B1 B2]. pose proof (lookup_lt_Some _ _ _ Hw) as Bw.
  apply (labelled_extend E γ sp pos _ s (fwd d P) HL); try done.
  - apply inserted_length.
  - intros k. apply inserted_cont.
  - intros d' k e p Hk Hp. destruct (decide (d' = d)) as [->|Hne].
    + rewrite (inserted_edg sp d u cu o (g_oid w) s Hcu) in Hk. destruct (decide (k = u)) as [->|]; [|by left].
      rewrite Hu in Hp. simplify_eq. right. split_and!; try done. by exists w.
    + left. assert (d' = opp d) as -> by (by destruct d, d'). by rewrite inserted_opp in Hk.
  - intros d'. by apply (inserted_new sp d u cu).
  - destruct d; simpl in *; lia.
  - destruct d; simpl in *; lia.
Qed.

(** How the space changes when an operation is inserted at [u] and carried
    along the chain [es] to [q]. *)
Record moved (d : side) (sp : space) (u : nat) (es : list dedge) (q : nat) (sp2 : space) (p : nat)
    (e' : dedge) : Prop := {
  mo_length : length sp ≤ length sp2;
  mo_along k : k < length sp → edg d sp2 k = edg d sp k;
  mo_other k : k < length sp → k ≠ u → k ∉ adjv <$> es → edg (opp d) sp2 k = edg (opp d) sp k;
  mo_end : edg (opp d) sp2 q = Some e' ∧ adjv e' = p;
  mo_leaf : edg d sp2 p = None ∧ edg (opp d) sp2 p = None;
  mo_rungs : ∃ es2, bare d sp2 (length sp) es2 p
    ∧ Forall2 (rungs (opp d) sp2) (u :: (adjv <$> es)) (length sp :: (adjv <$> es2));
}.

Lemma insert_labelled E γ d sp pos u es q o w oids P cu :
  labelled E γ sp pos → nul_free_ops γ → pos !! u = Some P → chain d sp u es q → cont sp u = Some cu →
  ops γ (opp d) !! coord (opp d) P = Some w →
  acts (Gp γ P) o (g_kind w) (Gp γ (fwd (opp d) P)) →
  (∀ n, n < length es → law γ (Nat.iter n (fwd d) P)) →
  ∃ s1 sp2 pos2 p e',
    updateVerticeUfsFromState cu (optype o) (argv1 o) (argv2 o) (tlen E) = Ret s1
    ∧ ladder (S (length sp)) d (inserted sp (opp d) u o (g_oid w) s1) u (length sp) (tlen E) oids =
        Ret (sp2, q, p, oids ++ ctx_of es)
    ∧ labelled E γ sp2 (pos ++ pos2) ∧ moved d sp u es q sp2 p e'.
Proof.
  intros HL Hnf Hu Hch Hcu Hw Hact Hlaw. pose proof (labelled_sound E γ sp pos HL) as Hs.
  destruct (lb_text _ _ _ _ HL u P Hu) as (cu' & Tu & Ru).
  assert (cu' = cu) as -> by (destruct Tu; congruence). pose proof Tu as (_ & Oku & Eu).
  pose proof Hact as (v & Hon & Hsim & _ & HR). rewrite <-Ru in Hon.
  destruct (exec_text_spec cu o v Oku Hon) as (s1 & Es & Ok1 & R1 & _ & Hcc).
  unfold exec in Es. rewrite (text_of_length E sp u cu Tu) in Es. rewrite Eu in Hcc.
  assert (rel_t s1 ≡ Gp γ (fwd (opp d) P)) as R1' by by rewrite R1, Ru, HR.
  pose proof (inserted_labelled E γ sp pos (opp d) u P cu o w s1 HL Hu Hcu Hw Hact Ok1 Hcc R1') as HL1.
  set (sp1 := inserted sp (opp d) u o (g_oid w) s1) in *.
  pose proof (inserted_edg sp (opp d) u cu o (g_oid w) s1 Hcu) as Fr. fold sp1 in Fr.
  pose proof (inserted_opp sp (opp d) u o (g_oid w) s1) as Fl. fold sp1 in Fl. rewrite opp_opp in Fl.
  pose proof (inserted_new sp (opp d) u cu o (g_oid w) s1 Hcu) as Fn. fold sp1 in Fn.
  pose proof (inserted_length sp (opp d) u o (g_oid w) s1) as Flen. fold sp1 in Flen.
  destruct (chain_lt E d sp u es q Hs Hch) as (Hlen & Hq & Hes).
  destruct (ladder_labelled E γ d es (S (length sp)) sp1 (pos ++ [fwd (opp d) P]) u q
    (mk_dedge o (g_oid w) (length sp)) oids P)
    as (sp2 & pos2 & p & e' & El & F2 & HL2 & Hq1 & Hq2 & Hq3 & Hp1 & Hp2 & es2 & Hb & Hrg); try done.
  - by apply lookup_app_l_Some.
  - apply (chain_frame d sp); [done|lia|apply Fl|intros; apply Fl].
  - by rewrite Fr, decide_True.
  - lia.
  - exists s1, sp2, ([fwd (opp d) P] ++ pos2), p, e'. rewrite app_assoc. split_and!; try done.
    destruct F2 as [L2 C2 A2 O2]. simpl in A2. split; try done.
    + lia.
    + intros k Hk. rewrite A2, Fl by lia. done.
    + intros k Hk Hne Hin. rewrite O2, Fr, decide_False by (done || lia). done.
    + by exists es2.
Qed.

(** ** Routes and their identifiers *)

Inductive route (sp : space) : nat → list dedge → nat → Prop :=
  | route_here q : route sp q [] q
  | route_step d q e es q' : edg d sp q = Some e → route sp (adjv e) es q' → route sp q (e :: es) q'.

Definition seg (l : list gop) (a b : nat) : list bytes := g_oid <$> take (b - a) (drop a l).

Lemma seg_step l a b w : l !! a = Some w → a < b → seg l a b = g_oid w :: seg l (S a) b.
Proof.
  intros Hw Hab. unfold seg. rewrite (drop_S l w a Hw). replace (b - a) with (S (b - S a)) by lia. done.
Qed.

Lemma seg_nil l a b : b ≤ a → seg l a b = [].
Proof. intros H. unfold seg. by replace (b - a) with 0 by lia. Qed.

Lemma seg_app l a b c : a ≤ b → b ≤ c → seg l a c = seg l a b ++ seg l b c.
Proof.
  intros H1 H2. unfold seg. rewrite <-fmap_app. f_equal.
  replace (c - a) with ((b - a) + (c - b)) by lia.
  rewrite <-take_take_drop, drop_drop. by replace (a + (b - a)) with b by lia.
Qed.

Lemma route_oids E γ sp pos q es q' P :
  labelled E γ sp pos → route sp q es q' → pos !! q = Some P →
  ∃ P', pos !! q' = Some P' ∧ P.1 ≤ P'.1 ∧ P.2 ≤ P'.2
    ∧ oid <$> es ≡ₚ seg (own γ) P.1 P'.1 ++ seg (rem γ) P.2 P'.2.
Proof.
  intros HL Hr. revert P. induction Hr as [q|d q e es q' He Hr IH]; intros P HP.
  - exists P. by rewrite !seg_nil by lia.
  - destruct (lb_edge _ _ _ _ HL d q e P He HP) as (w & _ & Hn & Hw & Eo & _).
    destruct (IH _ Hn) as (P' & HP' & H1 & H2 & Hp). exists P'. destruct d; simpl in *.
    + split_and!; try done; [lia|]. rewrite (seg_step _ _ _ w) by (done || lia). by rewrite Eo, Hp.
    + split_and!; try done; [lia|]. rewrite (seg_step (rem γ) _ _ w) by (done || lia).
      rewrite Eo, Hp. by rewrite Permutation_middle.
Qed.

Lemma path_route sp q es q' : path sp q es q' → route sp q es q'.
Proof.
  induction 1 as [|q e es q' He _ IH]; [constructor|]. unfold fedge in He.
  destruct (edg LeftE sp q) eqn:El; [by apply (route_step sp LeftE); simplify_eq|by apply (route_step sp RightE)].
Qed.

Lemma walk_route sp q es q' : walk sp q es q' → route sp q es q'.
Proof.
  induction 1 as [|q v e es q' Hv He _ IH]; [constructor|]. rewrite <-(fedge_first sp q v Hv) in He.
  unfold fedge in He.
  destruct (edg LeftE sp q) eqn:El; [by apply (route_step sp LeftE); simplify_eq|by apply (route_step sp RightE)].
Qed.

Lemma route_gpath_fedge sp ctx q es q' :
  path sp q es q' → (∀ e, e ∈ es → findOid ctx (oid e) = true) → gpath sp ctx q es q'.
Proof.
  induction 1 as [|q e es q' He _ IH]; intros Hf; [constructor|].
  assert (gpath sp ctx (adjv e) es q') by (apply IH; set_solver). unfold fedge in He.
  destruct (edg LeftE sp q) as [f|] eqn:El.
  - simplify_eq. apply gp_left; [done|apply Hf; set_solver|done].
  - apply gp_right; [done|apply Hf; set_solver|congruence|done].
Qed.
