(* ===== verification/Views.v ===== *)
(** * The two views of a grid

    [slave_view]: the state space of the slave, with all of its own operations
    and the first [J] of the others.  [master_view]: the space the master keeps
    for the slave, with all operations of the others and the first [I] of the
    slave.  Both find the vertex a context names, and both are kept by the
    steps of the control algorithm. *)
From S2P Require Import Prelude Sds Partition OtStr ClassText TextState OtUfs Graph UnionSplit GraphText Object Space Ladder Commands Control Replica Master Locate Grid.

(** ** Well-formed grids *)

Record grid_ok (port : Z) (γ : grid) : Prop := {
  go_law i j w r : own γ !! i = Some w → rem γ !! j = Some r → g_at w ≤ j → g_at r ≤ i → law γ (i, j);
  go_own i i' w w' : i ≤ i' → own γ !! i = Some w → own γ !! i' = Some w' → g_at w ≤ g_at w';
  go_rem j j' r r' : j ≤ j' → rem γ !! j = Some r → rem γ !! j' = Some r' → g_at r ≤ g_at r';
  go_own_oid i w : own γ !! i = Some w → is_oid port (Z.of_nat i + 1) (g_oid w);
  go_rem_oid j r : rem γ !! j = Some r → ∃ p n, p ≠ port ∧ is_oid p n (g_oid r);
}.

Lemma grid_nul_free port γ : grid_ok port γ → nul_free_ops γ.
Proof.
  intros Hg d w (n & Hn)%list_elem_of_lookup. destruct d; simpl in Hn.
  - apply (is_oid_plain port (Z.of_nat n + 1)). by apply (go_own_oid _ _ Hg).
  - destruct (go_rem_oid _ _ Hg n w Hn) as (p & m & _ & Ho). by apply is_oid_plain in Ho as [? _].
Qed.

Lemma elem_of_seg l a b o : o ∈ seg l a b ↔ ∃ i w, a ≤ i < b ∧ l !! i = Some w ∧ o = g_oid w.
Proof.
  unfold seg. rewrite list_elem_of_fmap. split.
  - intros (w & -> & (i & Hi)%list_elem_of_lookup). apply lookup_take_Some in Hi as [Hi Hlt].
    rewrite lookup_drop in Hi. exists (a + i), w. split_and!; (done || lia).
  - intros (i & w & Hi & Hw & ->). exists w. split; [done|]. apply list_elem_of_lookup.
    exists (i - a). apply lookup_take_Some. split; [|lia]. rewrite lookup_drop.
    by replace (a + (i - a)) with i by lia.
Qed.

(** The identifiers of a point, as a context lists them. *)
Definition oids_at (γ : grid) (p : nat * nat) : list bytes := seg (own γ) 0 p.1 ++ seg (rem γ) 0 p.2.

Section contexts.
  Context (port : Z) (γ : grid) (Hg : grid_ok port γ).

Lemma oids_plain p : Forall plain (oids_at γ p).
Proof using Hg.
  apply Forall_forall. intros o. unfold oids_at. rewrite elem_of_app, !elem_of_seg.
  intros [(i & w & _ & Hw & ->)|(j & r & _ & Hr & ->)].
  - by eapply is_oid_plain, (go_own_oid _ _ Hg).
  - destruct (go_rem_oid _ _ Hg j r Hr) as (? & ? & _ & Ho). by eapply is_oid_plain.
Qed.

(** Operations of the slave after the point are not found in its context. *)
Lemma own_not_found L p i w :
  L ≡ₚ oids_at γ p → own γ !! i = Some w → p.1 ≤ i → findOid (ctx_text L) (g_oid w) = false.
Proof using Hg.
  intros HL Hw Hi. pose proof (go_own_oid _ _ Hg i w Hw) as Ho.
  apply findOid_out; [rewrite HL; apply oids_plain|by eapply is_oid_plain|].
  intros a. rewrite HL. unfold oids_at. rewrite elem_of_app, !elem_of_seg.
  intros Ha. apply not_true_iff_false. intros Hp.
  destruct Ha as [(i' & w' & Hi' & Hw' & ->)|(j & r & _ & Hr & ->)].
  - destruct (is_oid_prefix _ _ _ _ _ _ Ho (go_own_oid _ _ Hg i' w' Hw') Hp). lia.
  - destruct (go_rem_oid _ _ Hg j r Hr) as (p' & n & Hne & Hr').
    by destruct (is_oid_prefix _ _ _ _ _ _ Ho Hr' Hp).
Qed.

End contexts.

(** ** Parts of chains *)

Lemma bare_nth d sp w0 row q n :
  bare d sp w0 row q → n ≤ length row →
  ∃ k row1 row2, row = row1 ++ row2 ∧ length row1 = n ∧ bare d sp k row2 q
    ∧ (∀ Q : nat → Prop, Forall Q (w0 :: (adjv <$> row)) → Forall Q (k :: (adjv <$> row2)))
    ∧ (d = RightE → path sp w0 row1 k).
Proof.
  revert w0 row. induction n as [|n IH]; intros w0 row Hb Hn.
  - exists w0, [], row. split_and!; try done. intros _. constructor.
  - destruct row as [|e row]; [simpl in Hn; lia|]. destruct Hb as (Hc & Hw & Hr).
    inversion Hc as [|? ? ? ? He Hc']; subst. apply Forall_cons in Hr as [Hr1 Hr].
    destruct (IH (adjv e) row) as (k & row1 & row2 & -> & Hl & Hb & HQ & Hp); [done|simpl in Hn; lia|].
    exists k, (e :: row1), row2. split_and!; try done; [simpl; lia| |].
    + intros Q HQ'. apply HQ. by apply Forall_cons in HQ' as [_ ?].
    + intros ->. apply path_step; [|by apply Hp]. unfold fedge. simpl in Hw. by rewrite Hw.
Qed.

Lemma bare_extend d sp sp' u es q e :
  bare d sp u es q → (∀ k, k < length sp → k ≠ q → edg d sp' k = edg d sp k) →
  (∀ k, k < length sp → edg (opp d) sp' k = edg (opp d) sp k) →
  edg d sp' q = Some e → edg d sp' (adjv e) = None → edg (opp d) sp' (adjv e) = None → adjv e < length sp' →
  u < length sp → (∀ x, x ∈ es → adjv x < length sp) →
  bare d sp' u (es ++ [e]) (adjv e).
Proof.
  intros (Hc & Hu & Hes) Ha Ho He Hn1 Hn2 Hlt Hul Hel. split_and!.
  - by apply (chain_extend d sp sp' u es q e).
  - by rewrite Ho.
  - apply Forall_app. split; [|by repeat constructor].
    rewrite Forall_forall in Hes |- *. intros x Hx. rewrite Ho by by apply Hel. by apply Hes.
Qed.

(** ** The slave *)

(** How [locateRVertice] walks to column [x] of the last row. *)
Inductive lpath (x : nat) (sp : space) (pos : list (nat * nat)) : nat → list dedge → nat → Prop :=
  | lp_here q : lpath x sp pos q [] q
  | lp_left q e es q' p :
      edg LeftE sp q = Some e → pos !! q = Some p → p.1 < x →
      lpath x sp pos (adjv e) es q' → lpath x sp pos q (e :: es) q'
  | lp_right q e es q' p :
      edg RightE sp q = Some e → pos !! q = Some p → edg LeftE sp q = None ∨ x ≤ p.1 →
      lpath x sp pos (adjv e) es q' → lpath x sp pos q (e :: es) q'.

Record slave_view (E : list bytes) (γ : grid) (sp : space) (pos : list (nat * nat)) (q J : nat) : Prop := {
  sv_lab : labelled E γ sp pos;
  sv_top : pos !! 0 = Some (0, 0);
  sv_cur : pos !! q = Some (length (own γ), J);
  sv_leaf : edg LeftE sp q = None ∧ edg RightE sp q = None;
  sv_row : ∃ w0 row P0, bare LeftE sp w0 row q ∧ pos !! w0 = Some P0
    ∧ (∀ x, (∀ n r, n < J → rem γ !! n = Some r → g_at r ≤ x) → P0.1 ≤ x)
    ∧ Forall (λ k, ∃ p es0, pos !! k = Some p ∧ lpath p.1 sp pos 0 es0 k) (w0 :: (adjv <$> row));
}.

Lemma lpath_route x sp pos q es q' : lpath x sp pos q es q' → route sp q es q'.
Proof.
  induction 1; [constructor|by apply (route_step sp LeftE)|by apply (route_step sp RightE)].
Qed.

Lemma lpath_gpath x sp pos ctx q es q' :
  lpath x sp pos q es q' → (∀ e, e ∈ es → findOid ctx (oid e) = true) →
  (∀ k f p, edg LeftE sp k = Some f → pos !! k = Some p → x ≤ p.1 → findOid ctx (oid f) = false) →
  gpath sp ctx q es q'.
Proof.
  intros H Hf Hn. induction H as [q|q e es q' p He Hp Hx _ IH|q e es q' p He Hp Hx _ IH]; [constructor|..].
  - apply gp_left; [done|apply Hf; set_solver|apply IH; set_solver].
  - apply gp_right; [done|apply Hf; set_solver| |apply IH; set_solver].
    intros f Hl. destruct Hx as [Hx|Hx]; [congruence|by eapply Hn].
Qed.

Lemma lpath_app x sp pos q es1 k es2 q' :
  lpath x sp pos q es1 k → lpath x sp pos k es2 q' → lpath x sp pos q (es1 ++ es2) q'.
Proof. induction 1; intros; simpl; [done|eapply lp_left; eauto|eapply lp_right; eauto]. Qed.

(** A larger space in which old edges stay and new left edges start only at
    vertices without a right edge. *)
Lemma lpath_frame x sp sp' pos pos' q es q' :
  lpath x sp pos q es q' →
  (∀ d v e, edg d sp v = Some e → edg d sp' v = Some e) →
  (∀ v, edg LeftE sp v = None → is_Some (edg RightE sp v) → edg LeftE sp' v = None) →
  lpath x sp' (pos ++ pos') q es q'.
Proof.
  intros H He Hn. induction H as [q|q e es q' p E Hp Hx _ IH|q e es q' p E Hp Hx _ IH]; [constructor|..].
  - eapply lp_left; [by apply He|by apply lookup_app_l_Some|done|done].
  - eapply lp_right; [by apply He|by apply lookup_app_l_Some| |done].
    destruct Hx as [Hx|Hx]; [|by right]. left. apply Hn; [done|by eexists].
Qed.

(** The vertex a context of a point in the last row names. *)
Lemma slave_locate port E γ sp pos q J x L :
  grid_ok port γ → slave_view E γ sp pos q J → x ≤ length (own γ) →
  (∀ n r, n < J → rem γ !! n = Some r → g_at r ≤ x) → L ≡ₚ oids_at γ (x, J) →
  ∃ k row, locateVertice sp (Some (ctx_text L)) = Ret (Some k) ∧ pos !! k = Some (x, J)
    ∧ bare LeftE sp k row q ∧ length row = length (own γ) - x
    ∧ Forall (λ k, ∃ p es0, pos !! k = Some p ∧ lpath p.1 sp pos 0 es0 k) (k :: (adjv <$> row)).
Proof.
  intros Hg [HL H0 Hq Hleaf (w0 & row & P0 & Hb & HP0 & Hmin & Hrow)] Hx Hat HLp.
  pose proof (Hmin x Hat) as Hle. pose proof Hb as (Hc & _).
  destruct (chain_pos E γ LeftE sp pos w0 row q P0 HL Hc HP0) as [Eq _]. rewrite Hq in Eq. injection Eq as Eq.
  pose proof (f_equal (coord LeftE) Eq) as E1. pose proof (f_equal (coord RightE) Eq) as E2.
  rewrite iter_fwd in E1. rewrite (iter_fwd_opp _ LeftE) in E2. simpl in E1, E2.
  destruct (bare_nth LeftE sp w0 row q (x - P0.1) Hb) as (k & row1 & row2 & -> & Hl1 & Hb2 & HQ & _);
    [lia|]. rewrite length_app in E1.
  pose proof (HQ _ Hrow) as Hrow2. pose proof (Forall_inv Hrow2) as (pk & es0 & Hpk & Hlp).
  assert (pk = (x, J)) as ->.
  { destruct Hb2 as (Hc2 & _). destruct (chain_pos E γ LeftE sp pos k row2 q pk HL Hc2 Hpk) as [Eq2 _].
    rewrite Hq in Eq2. injection Eq2 as Eq2.
    pose proof (f_equal (coord LeftE) Eq2) as F1. pose proof (f_equal (coord RightE) Eq2) as F2.
    rewrite iter_fwd in F1. rewrite (iter_fwd_opp _ LeftE) in F2. simpl in F1, F2.
    destruct pk as [pa pb]. simpl in *. f_equal; lia. }
  exists k, row2. split_and!; try done; [|lia]. simpl in Hlp.
  destruct (route_oids E γ sp pos 0 es0 k (0, 0) HL (lpath_route _ _ _ _ _ _ Hlp) H0)
    as (P' & HP' & _ & _ & Hperm). rewrite Hpk in HP'. injection HP' as <-. simpl in Hperm.
  change (seg (own γ) 0 x ++ seg (rem γ) 0 J) with (oids_at γ (x, J)) in Hperm.
  assert (Forall plain L) as HLpl by (rewrite HLp; by apply (oids_plain port)).
  apply (locate_gpath E sp L es0 k); [by eapply labelled_sound| | |done|by rewrite HLp].
  - apply (lpath_gpath x sp pos); [done| |].
    + intros e He. apply findOid_in; [done|]. rewrite HLp, <-Hperm. by apply list_elem_of_fmap_2.
    + intros v f p Hf Hp Hxp. destruct (lb_edge _ _ _ _ HL LeftE v f p Hf Hp) as (w & _ & _ & Hw & -> & _).
      by apply (own_not_found port γ Hg L (x, J) p.1 w).
  - rewrite <-(lb_length _ _ _ _ HL). by apply lookup_lt_Some in H0.
Qed.

Lemma chain_last d sp u es q : chain d sp u es q → q ∈ u :: (adjv <$> es).
Proof.
  induction 1 as [q|q e es q' _ _ IH]; [set_solver|]. simpl. right. exact IH.
Qed.

Lemma moved_edges d sp u es q sp2 p e' d' v e :
  moved d sp u es q sp2 p e' → bare d sp u es q → edg d' sp v = Some e → edg d' sp2 v = Some e.
Proof.
  intros M (Hc & Hu & Hes) He. pose proof (edg_lt _ _ _ _ He) as Hv.
  destruct (decide (d' = d)) as [->|Hd]; [by rewrite (mo_along _ _ _ _ _ _ _ _ M) by done|].
  assert (d' = opp d) as -> by (by destruct d, d').
  rewrite (mo_other _ _ _ _ _ _ _ _ M); [done|done|congruence|].
  intros (x & -> & Hx)%list_elem_of_fmap. rewrite Forall_forall in Hes. specialize (Hes x Hx).
  simpl in Hes. congruence.
Qed.

(** The slave after a command of the master. *)
Lemma slave_remote E γ sp pos q J r k row sp2 pos2 p e' :
  slave_view E γ sp pos q J → rem γ !! J = Some r → pos !! k = Some (g_at r, J) →
  bare LeftE sp k row q →
  Forall (λ k, ∃ p es0, pos !! k = Some p ∧ lpath p.1 sp pos 0 es0 k) (k :: (adjv <$> row)) →
  labelled E γ sp2 (pos ++ pos2) → moved LeftE sp k row q sp2 p e' →
  slave_view E γ sp2 (pos ++ pos2) p (S J).
Proof.
  intros [HL H0 Hq [Hl1 Hl2] _] Hr Hk Hb Hrow HL2 M.
  pose proof M as [Mlen Ma Mo [He' Hadj] [Hp1 Hp2] (es2 & Hb2 & Hrg)]. simpl in Mo, He', Hp2, Hrg.
  destruct (lb_edge _ _ _ _ HL2 RightE q e' (length (own γ), J)) as (w & _ & Hn & _);
    [done|by apply lookup_app_l_Some|]. rewrite Hadj in Hn.
  assert (∀ x es0 v, lpath x sp pos 0 es0 v → lpath x sp2 (pos ++ pos2) 0 es0 v) as Hfr.
  { intros x es0 v Hlp. apply (lpath_frame x sp); [done| |].
    - intros d' v' e. by apply (moved_edges LeftE sp k row q sp2 p e').
    - intros v' Hv [f Hf]. rewrite Ma; [done|]. by eapply edg_lt. }
  assert (∀ v v', (∃ p es0, pos !! v = Some p ∧ lpath p.1 sp pos 0 es0 v) → rungs RightE sp2 v v' →
    ∃ p es0, (pos ++ pos2) !! v' = Some p ∧ lpath p.1 sp2 (pos ++ pos2) 0 es0 v') as Hup.
  { intros v v' (pv & es0 & Hpv & Hlp) (f & Hf & <-).
    destruct (lb_edge _ _ _ _ HL2 RightE v f pv Hf) as (w' & _ & Hn' & _); [by apply lookup_app_l_Some|].
    exists (fwd RightE pv), (es0 ++ [f]). split; [done|]. simpl.
    apply (lpath_app _ _ _ _ _ v); [by apply Hfr|].
    eapply lp_right; [done|by apply lookup_app_l_Some|by right|constructor]. }
  split; try done.
  - by apply lookup_app_l_Some.
  - inversion Hrg as [|? ? ? ? (f & Hf & Ef) Hrg']; subst.
    destruct (lb_edge _ _ _ _ HL2 RightE k f (g_at r, J) Hf) as (w' & _ & Hn' & _); [by apply lookup_app_l_Some|].
    rewrite Ef in Hn'. exists (length sp), es2, (g_at r, S J). split_and!; try done.
    + intros x Hx. simpl. apply (Hx J r); [lia|done].
    + clear -Hrow Hrg Hup. revert Hrow. induction Hrg as [|v v' l l' Hv _ IH]; intros Hl; [constructor|].
      apply Forall_cons in Hl as [Hv1 Hl]. constructor; [by eapply Hup|by apply IH].
Qed.

Lemma lpath_succ E γ sp pos q es q' :
  labelled E γ sp pos → lpath (length (own γ)) sp pos q es q' → lpath (S (length (own γ))) sp pos q es q'.
Proof.
  intros HL. induction 1 as [q|q e es q' p He Hp Hx _ IH|q e es q' p He Hp Hx _ IH]; [constructor|..].
  - eapply lp_left; [done|done|lia|done].
  - eapply lp_right; [done|done| |done]. left. destruct Hx as [Hx|Hx]; [done|].
    destruct (edg LeftE sp q) as [f|] eqn:Ef; [|done]. exfalso.
    destruct (lb_edge _ _ _ _ HL LeftE q f p Ef Hp) as (w & _ & _ & Hw & _).
    apply lookup_lt_Some in Hw. simpl in Hw. lia.
Qed.

(** The slave after a command of a user. *)
Lemma slave_local E γ γ' w sp pos q J o cu s' :
  slave_view E γ sp pos q J → labelled E γ' sp pos → own γ' = own γ ++ [w] → rem γ' = rem γ →
  cont sp q = Some cu → acts (Gp γ' (length (own γ), J)) o (g_kind w) (Gp γ' (S (length (own γ)), J)) →
  text_ok s' → concat (parse s') ≡ₚ E → rel_t s' ≡ Gp γ' (S (length (own γ)), J) →
  slave_view E γ' (inserted sp LeftE q o (g_oid w) s') (pos ++ [(S (length (own γ)), J)]) (length sp) J.
Proof.
  intros [HL H0 Hq [Hl1 Hl2] (w0 & row & P0 & Hb & HP0 & Hmin & Hrow)] HL' Eown Erem Hcu Hact Hok HE HR.
  set (I := length (own γ)) in *. set (sp' := inserted sp LeftE q o (g_oid w) s').
  set (e := mk_dedge o (g_oid w) (length sp)).
  pose proof (inserted_edg sp LeftE q cu o (g_oid w) s' Hcu) as Fa. fold sp' e in Fa.
  pose proof (inserted_opp sp LeftE q o (g_oid w) s') as Fo. fold sp' in Fo. simpl in Fo.
  pose proof (inserted_new sp LeftE q cu o (g_oid w) s' Hcu) as Fn. fold sp' in Fn.
  pose proof (inserted_length sp LeftE q o (g_oid w) s') as Flen. fold sp' in Flen.
  pose proof Hb as (Hc & _). pose proof (labelled_sound E γ sp pos HL) as Hs.
  destruct (chain_lt E LeftE sp w0 row q Hs Hc) as (Hle & Hqlt & Hrlt).
  assert (own γ' !! I = Some w) as Hw by (rewrite Eown; unfold I; by apply list_lookup_middle).
  assert (∀ x es0 v, lpath x sp pos 0 es0 v → lpath x sp' (pos ++ [(S I, J)]) 0 es0 v) as Hfr.
  { intros x es0 v Hlp. apply (lpath_frame x sp); [done| |].
    - intros [] v' f Hf; [|by rewrite Fo]. rewrite Fa, decide_False; [done|]. congruence.
    - intros v' Hv [f Hf]. rewrite Fa, decide_False; [done|]. congruence. }
  split.
  - by apply (inserted_labelled E γ' sp pos LeftE q (I, J) cu).
  - by apply lookup_app_l_Some.
  - rewrite Eown, length_app. simpl. rewrite <-(lb_length _ _ _ _ HL).
    rewrite lookup_app_r, Nat.sub_diag by lia. simpl. do 2 f_equal. unfold I. lia.
  - split; apply Fn.
  - exists w0, (row ++ [e]), P0. split_and!.
    + change (length sp) with (adjv e). apply (bare_extend LeftE sp sp' w0 row q e); try done.
      * intros k Hk Hne. by rewrite Fa, decide_False.
      * by rewrite Fa, decide_True.
      * simpl. lia.
      * lia.
      * intros x Hx. rewrite Forall_forall in Hrlt. pose proof (Hrlt x Hx). lia.
    + by apply lookup_app_l_Some.
    + intros x Hx. apply Hmin. intros n r Hn Hr. apply (Hx n); [done|by rewrite Erem].
    + rewrite fmap_app, app_comm_cons. apply Forall_app. split.
      * eapply Forall_impl; [exact Hrow|]. intros k (p & es0 & Hp & Hlp). exists p, es0.
        split; [by apply lookup_app_l_Some|by apply Hfr].
      * repeat constructor. rewrite Forall_forall in Hrow.
        destruct (Hrow q (chain_last _ _ _ _ _ Hc)) as (p & es0 & Hp & Hlp).
        rewrite Hq in Hp. injection Hp as <-. simpl in Hlp.
        exists (S I, J), (es0 ++ [e]). split.
        { simpl. rewrite <-(lb_length _ _ _ _ HL). by rewrite lookup_app_r, Nat.sub_diag by lia. }
        apply (lpath_app _ _ _ _ _ q); [by apply Hfr, lpath_succ with E|].
        eapply lp_left; [by rewrite Fa, decide_True|by apply lookup_app_l_Some|simpl; unfold I; lia|constructor].
Qed.

(** ** The master *)

Record master_view (E : list bytes) (γ : grid) (sp : space) (pos : list (nat * nat)) (q I : nat) : Prop := {
  mv_lab : labelled E γ sp pos;
  mv_top : pos !! 0 = Some (0, 0);
  mv_cur : pos !! q = Some (I, length (rem γ));
  mv_leaf : edg LeftE sp q = None ∧ edg RightE sp q = None;
  mv_col : ∃ w0 col P0 es0, bare RightE sp w0 col q ∧ pos !! w0 = Some P0
    ∧ (∀ y, (∀ n w, n < I → own γ !! n = Some w → g_at w ≤ y) → P0.2 ≤ y)
    ∧ path sp 0 es0 w0;
}.

(** The last vertex is the one a search without context finds. *)
Lemma master_walk E γ sp pos q I : master_view E γ sp pos q I → ∃ es, walk sp 0 es q.
Proof.
  intros [_ _ _ _ (w0 & col & P0 & es0 & Hb & _ & _ & Hp)]. eexists. eapply path_walk; [done|by apply bare_walk].
Qed.

(** The vertex a context of a point in the last column names. *)
Lemma master_locate port E γ sp pos q I y L :
  grid_ok port γ → master_view E γ sp pos q I → y ≤ length (rem γ) →
  (∀ n w, n < I → own γ !! n = Some w → g_at w ≤ y) → L ≡ₚ oids_at γ (I, y) →
  ∃ k col es0, locateVertice sp (Some (ctx_text L)) = Ret (Some k) ∧ pos !! k = Some (I, y)
    ∧ bare RightE sp k col q ∧ path sp 0 es0 k ∧ length col = length (rem γ) - y.
Proof.
  intros Hg [HL H0 Hq Hleaf (w0 & col & P0 & es0 & Hb & HP0 & Hmin & Hpath)] Hy Hat HLp.
  pose proof (Hmin y Hat) as Hle. pose proof Hb as (Hc & _).
  destruct (chain_pos E γ RightE sp pos w0 col q P0 HL Hc HP0) as [Eq _]. rewrite Hq in Eq. injection Eq as Eq.
  pose proof (f_equal (coord LeftE) Eq) as E1. pose proof (f_equal (coord RightE) Eq) as E2.
  rewrite iter_fwd in E2. rewrite (iter_fwd_opp _ RightE) in E1. simpl in E1, E2.
  destruct (bare_nth RightE sp w0 col q (y - P0.2) Hb) as (k & col1 & col2 & -> & Hl1 & Hb2 & _ & Hp2);
    [lia|]. rewrite length_app in E2. specialize (Hp2 eq_refl).
  pose proof (path_app _ _ _ _ _ _ Hpath Hp2) as Hpk.
  destruct (route_oids E γ sp pos 0 _ k (0, 0) HL (path_route _ _ _ _ Hpk) H0) as (P' & HP' & _ & _ & Hperm).
  assert (P' = (I, y)) as ->.
  { destruct Hb2 as (Hc2 & _). destruct (chain_pos E γ RightE sp pos k col2 q P' HL Hc2 HP') as [Eq2 _].
    rewrite Hq in Eq2. injection Eq2 as Eq2.
    pose proof (f_equal (coord LeftE) Eq2) as F1. pose proof (f_equal (coord RightE) Eq2) as F2.
    rewrite iter_fwd in F2. rewrite (iter_fwd_opp _ RightE) in F1. simpl in F1, F2.
    destruct P' as [pa pb]. simpl in *. f_equal; lia. }
  exists k, col2, (es0 ++ col1). split_and!; try done; [|lia]. simpl in Hperm.
  change (seg (own γ) 0 I ++ seg (rem γ) 0 y) with (oids_at γ (I, y)) in Hperm.
  assert (Forall plain L) as HLpl by (rewrite HLp; by apply (oids_plain port)).
  apply (locate_gpath E sp L (es0 ++ col1) k); [by eapply labelled_sound| | |done|by rewrite HLp].
  - apply route_gpath_fedge; [done|]. intros e He. apply findOid_in; [done|].
    rewrite HLp, <-Hperm. by apply list_elem_of_fmap_2.
  - rewrite <-(lb_length _ _ _ _ HL). by apply lookup_lt_Some in H0.
Qed.

(** The space of a slave after a command of that slave. *)
Lemma master_own E γ sp pos q I w k col es0 sp2 pos2 p e' :
  master_view E γ sp pos q I → own γ !! I = Some w → pos !! k = Some (I, g_at w) →
  bare RightE sp k col q → path sp 0 es0 k →
  labelled E γ sp2 (pos ++ pos2) → moved RightE sp k col q sp2 p e' →
  master_view E γ sp2 (pos ++ pos2) p (S I).
Proof.
  intros [HL H0 Hq Hleaf _] Hw Hk Hb Hpath HL2 M. pose proof (labelled_sound E γ sp pos HL) as Hs.
  pose proof M as [Mlen Ma Mo [He' Hadj] [Hp1 Hp2] (es2 & Hb2 & Hrg)]. simpl in Mo, He', Hp2, Hrg.
  destruct (lb_edge _ _ _ _ HL2 LeftE q e' (I, length (rem γ))) as (w' & _ & Hn & _);
    [done|by apply lookup_app_l_Some|]. rewrite Hadj in Hn.
  inversion Hrg as [|? ? ? ? (f & Hf & Ef) _]; subst.
  destruct (lb_edge _ _ _ _ HL2 LeftE k f (I, g_at w) Hf) as (w'' & _ & Hn' & _); [by apply lookup_app_l_Some|].
  rewrite Ef in Hn'. split; try done.
  - by apply lookup_app_l_Some.
  - exists (length sp), es2, (S I, g_at w), (es0 ++ [f]). split_and!; try done.
    + intros y Hy. simpl. apply (Hy I w); [lia|done].
    + destruct Hb as (Hc & _). destruct (chain_lt E RightE sp k col q Hs Hc) as (_ & Hql & Hes).
      rewrite Forall_forall in Hes. apply (path_app _ _ _ k).
      * apply (path_frame E sp); [done..|]. intros k' Hk'.
        pose proof (lookup_lt_Some _ _ _ Hk) as Hkl. rewrite (lb_length _ _ _ _ HL) in Hkl.
        unfold fedge. rewrite Ma, Mo; [done|lia|lia| |lia].
        intros (x & Ex & Hx)%list_elem_of_fmap. pose proof (Hes x Hx). lia.
      * rewrite <-Ef. apply path_step; [|constructor]. unfold fedge. by rewrite Hf.
Qed.

(** The space of a slave after a command of another one. *)
Lemma master_other E γ γ' r sp pos q I o cu s' :
  master_view E γ sp pos q I → labelled E γ' sp pos → own γ' = own γ → rem γ' = rem γ ++ [r] →
  cont sp q = Some cu → acts (Gp γ' (I, length (rem γ))) o (g_kind r) (Gp γ' (I, S (length (rem γ)))) →
  text_ok s' → concat (parse s') ≡ₚ E → rel_t s' ≡ Gp γ' (I, S (length (rem γ))) →
  master_view E γ' (inserted sp RightE q o (g_oid r) s') (pos ++ [(I, S (length (rem γ)))]) (length sp) I.
Proof.
  intros [HL H0 Hq [Hl1 Hl2] (w0 & col & P0 & es0 & Hb & HP0 & Hmin & Hp)] HL' Eown Erem Hcu Hact Hok HE HR.
  set (J := length (rem γ)) in *. set (sp' := inserted sp RightE q o (g_oid r) s').
  set (e := mk_dedge o (g_oid r) (length sp)).
  pose proof (inserted_edg sp RightE q cu o (g_oid r) s' Hcu) as Fa. fold sp' e in Fa.
  pose proof (inserted_opp sp RightE q o (g_oid r) s') as Fo. fold sp' in Fo. simpl in Fo.
  pose proof (inserted_new sp RightE q cu o (g_oid r) s' Hcu) as Fn. fold sp' in Fn.
  pose proof (inserted_length sp RightE q o (g_oid r) s') as Flen. fold sp' in Flen.
  pose proof Hb as (Hc & _). pose proof (labelled_sound E γ sp pos HL) as Hs.
  destruct (chain_lt E RightE sp w0 col q Hs Hc) as (Hle & Hqlt & Hrlt).
  assert (rem γ' !! J = Some r) as Hr by (rewrite Erem; unfold J; by apply list_lookup_middle).
  split.
  - by apply (inserted_labelled E γ' sp pos RightE q (I, J) cu).
  - by apply lookup_app_l_Some.
  - rewrite Erem, length_app. simpl. rewrite <-(lb_length _ _ _ _ HL).
    rewrite lookup_app_r, Nat.sub_diag by lia. simpl. do 2 f_equal. unfold J. lia.
  - split; apply Fn.
  - exists w0, (col ++ [e]), P0, es0. split_and!.
    + change (length sp) with (adjv e). apply (bare_extend RightE sp sp' w0 col q e); try done.
      * intros k Hk Hne. by rewrite Fa, decide_False.
      * by rewrite Fa, decide_True.
      * simpl. lia.
      * lia.
      * intros x Hx. rewrite Forall_forall in Hrlt. pose proof (Hrlt x Hx). lia.
    + by apply lookup_app_l_Some.
    + intros y Hy. apply Hmin. intros n w Hn Hw. apply (Hy n); [done|by rewrite Eown].
    + apply (path_frame E sp); [done..|]. intros k Hk. unfold fedge.
      rewrite Fo, Fa, decide_False; [done|lia].
Qed.
