(* ===== verification/Extend.v ===== *)
(** * Grids grow

    A new operation of the slave adds a column to its grid, a new operation of
    another slave a row: the new states are those the squares demand.  Labels,
    contexts and messages of the old grid stay valid in the new one. *)
From S2P Require Import Prelude Sds Partition OtStr ClassText TextState OtUfs Graph UnionSplit GraphText Object Space Ladder Commands Control Replica Master Locate Grid Views.

(** [γ'] has the states and operations of [γ], and possibly more. *)
Record extends (γ γ' : grid) : Prop := {
  ex_own : own γ `prefix_of` own γ';
  ex_rem : rem γ `prefix_of` rem γ';
  ex_G i j : i ≤ length (own γ) → j ≤ length (rem γ) → G γ' i j = G γ i j;
}.

Lemma extends_op γ γ' d n w : extends γ γ' → ops γ d !! n = Some w → ops γ' d !! n = Some w.
Proof. intros [H1 H2 _]. destruct d; simpl; intros; by eapply prefix_lookup_Some. Qed.

Lemma extends_length γ γ' d : extends γ γ' → length (ops γ d) ≤ length (ops γ' d).
Proof. intros [H1 H2 _]. by destruct d; apply prefix_length. Qed.

Lemma extends_Gp γ γ' p :
  extends γ γ' → p.1 ≤ length (own γ) → p.2 ≤ length (rem γ) → Gp γ' p = Gp γ p.
Proof. intros [_ _ H]. apply H. Qed.

Lemma seg_prefix l l' b : l `prefix_of` l' → b ≤ length l → seg l' 0 b = seg l 0 b.
Proof. intros [k ->] Hb. unfold seg. rewrite !drop_0, take_app_le by lia. done. Qed.

Lemma extends_oids γ γ' p :
  extends γ γ' → p.1 ≤ length (own γ) → p.2 ≤ length (rem γ) → oids_at γ' p = oids_at γ p.
Proof.
  intros [H1 H2 _] L1 L2. unfold oids_at.
  by rewrite (seg_prefix (own γ) (own γ')), (seg_prefix (rem γ) (rem γ')).
Qed.

Lemma labelled_extends E γ γ' sp pos : extends γ γ' → labelled E γ sp pos → labelled E γ' sp pos.
Proof.
  intros Hx [Hl Hbd Ht He]. split; [done|..].
  - intros k p Hp. destruct (Hbd k p Hp). pose proof (extends_length γ γ' LeftE Hx).
    pose proof (extends_length γ γ' RightE Hx). simpl in *. lia.
  - intros k p Hp. destruct (Hbd k p Hp). rewrite (extends_Gp γ γ' p) by done. by apply Ht.
  - intros d k e p Hk Hp. destruct (He d k e p Hk Hp) as (w & ? & Hn & Hw & ? & ?).
    destruct (Hbd k p Hp). destruct (Hbd _ _ Hn). exists w.
    rewrite (extends_Gp γ γ' p), (extends_Gp γ γ' (fwd d p)) by done.
    split_and!; try done. by apply (extends_op γ).
Qed.

(** ** A new column *)

Section column.
  Context (γ : grid) (w : gop) (R0 : prel).

(** The state [n] rows above the one the operation was generated in. *)
Fixpoint column (n : nat) : prel :=
  match n with
  | 0 => R0
  | S n =>
    match rem γ !! (g_at w + n) with
    | Some r => both (g_kind w) (g_kind r) (column n) (G γ (length (own γ)) (S (g_at w + n)))
    | None => column n
    end
  end.

Definition ext_own : grid :=
  mk_grid (λ i j, if decide (i = S (length (own γ))) then column (j - g_at w) else G γ i j)
    (own γ ++ [w]) (rem γ).

Lemma ext_own_extends : extends γ ext_own.
Proof.
  split; [by eexists|done|]. intros i j Hi _. simpl. by rewrite decide_False by lia.
Qed.

Lemma ext_own_new : Gp ext_own (S (length (own γ)), g_at w) = R0.
Proof. unfold Gp. simpl. by rewrite decide_True, Nat.sub_diag by done. Qed.

Lemma lookup_snoc_cases {A} (l : list A) x n y :
  (l ++ [x]) !! n = Some y → l !! n = Some y ∨ (n = length l ∧ y = x).
Proof.
  intros [?|[Hn Hy]]%lookup_app_Some; [by left|right].
  pose proof (lookup_lt_Some _ _ _ Hy) as Hlt. simpl in Hlt.
  assert (n = length l) as -> by lia. rewrite Nat.sub_diag in Hy. by simplify_eq/=.
Qed.

Lemma ext_own_ok port :
  grid_ok port γ → (∀ n w', own γ !! n = Some w' → g_at w' ≤ g_at w) →
  is_oid port (Z.of_nat (length (own γ)) + 1) (g_oid w) → grid_ok port ext_own.
Proof.
  intros Hg Hat Ho. split; simpl.
  - intros i j w' r Hi Hj H1 H2 w'' r' Hw Hr. simpl in Hw, Hr. rewrite Hi in Hw. rewrite Hj in Hr. simplify_eq.
    destruct (lookup_snoc_cases _ _ _ _ Hi) as [Hi'|[-> ->]]; simpl.
    + apply lookup_lt_Some in Hi' as Hlt. rewrite !decide_False by lia.
      by apply (go_law port γ Hg i j w'' r').
    + rewrite 2!decide_True by done. rewrite decide_False by lia.
      replace (S j - g_at w) with (S (j - g_at w)) by lia. simpl.
      replace (g_at w + (j - g_at w)) with j by lia. by rewrite Hj.
  - intros i i' a b Hii Ha Hb.
    destruct (lookup_snoc_cases _ _ _ _ Ha) as [Ha'|[-> ->]], (lookup_snoc_cases _ _ _ _ Hb) as [Hb'|[-> ->]]; try done.
    + by apply (go_own port γ Hg i i').
    + by eapply Hat.
    + apply lookup_lt_Some in Hb'. lia.
  - apply (go_rem port γ Hg).
  - intros i a Ha. destruct (lookup_snoc_cases _ _ _ _ Ha) as [Ha'|[-> ->]]; [by apply (go_own_oid port γ Hg)|done].
  - apply (go_rem_oid port γ Hg).
Qed.
End column.

(** ** A new row *)

Section row.
  Context (γ : grid) (r : gop) (R0 : prel).

Fixpoint grow (n : nat) : prel :=
  match n with
  | 0 => R0
  | S n =>
    match own γ !! (g_at r + n) with
    | Some w => both (g_kind w) (g_kind r) (G γ (S (g_at r + n)) (length (rem γ))) (grow n)
    | None => grow n
    end
  end.

Definition ext_rem : grid :=
  mk_grid (λ i j, if decide (j = S (length (rem γ))) then grow (i - g_at r) else G γ i j)
    (own γ) (rem γ ++ [r]).

Lemma ext_rem_extends : extends γ ext_rem.
Proof.
  split; [done|by eexists|]. intros i j _ Hj. simpl. by rewrite decide_False by lia.
Qed.

Lemma ext_rem_new : Gp ext_rem (g_at r, S (length (rem γ))) = R0.
Proof. unfold Gp. simpl. by rewrite decide_True, Nat.sub_diag by done. Qed.

Lemma ext_rem_ok port :
  grid_ok port γ → (∀ n r', rem γ !! n = Some r' → g_at r' ≤ g_at r) →
  (∃ p n, p ≠ port ∧ is_oid p n (g_oid r)) → grid_ok port ext_rem.
Proof.
  intros Hg Hat Ho. split; simpl.
  - intros i j w' r1 Hi Hj H1 H2 w'' r' Hw Hr. simpl in Hw, Hr. rewrite Hi in Hw. rewrite Hj in Hr. simplify_eq.
    destruct (lookup_snoc_cases _ _ _ _ Hj) as [Hj'|[-> ->]]; simpl.
    + apply lookup_lt_Some in Hj' as Hlt. rewrite !decide_False by lia.
      by apply (go_law port γ Hg i j w'' r').
    + rewrite decide_True by done. rewrite decide_False by lia. rewrite decide_True by done.
      replace (S i - g_at r) with (S (i - g_at r)) by lia. simpl.
      replace (g_at r + (i - g_at r)) with i by lia. by rewrite Hi.
  - apply (go_own port γ Hg).
  - intros j j' a b Hjj Ha Hb.
    destruct (lookup_snoc_cases _ _ _ _ Ha) as [Ha'|[-> ->]], (lookup_snoc_cases _ _ _ _ Hb) as [Hb'|[-> ->]]; try done.
    + by apply (go_rem port γ Hg j j').
    + by eapply Hat.
    + apply lookup_lt_Some in Hb'. lia.
  - apply (go_own_oid port γ Hg).
  - intros j a Ha. destruct (lookup_snoc_cases _ _ _ _ Ha) as [Ha'|[-> ->]]; [by apply (go_rem_oid port γ Hg j)|done].
Qed.
End row.

(** ** Messages *)

(** The point at which operation [n] of side [d] was generated or sent. *)
Definition origin (d : side) (n y : nat) : nat * nat :=
  match d with LeftE => (n, y) | RightE => (y, n) end.

(** A command that carries operation [n] of side [d]. *)
Definition message (k : bytes) (γ : grid) (d : side) (n : nat) (args : list bytes) : Prop :=
  ∃ w o L, ops γ d !! n = Some w ∧ g_at w ≤ length (ops γ (opp d))
    ∧ remote_cmd k (g_oid w) (ctx_text L) args o ∧ L ≡ₚ oids_at γ (origin d n (g_at w))
    ∧ acts (Gp γ (origin d n (g_at w))) o (g_kind w) (Gp γ (fwd d (origin d n (g_at w)))).

(** The commands [l] carry the operations of side [d] from number [n] on. *)
Definition queue (k : bytes) (γ : grid) (d : side) (n : nat) (l : list (list bytes)) : Prop :=
  n + length l = length (ops γ d) ∧ ∀ m args, l !! m = Some args → message k γ d (n + m) args.

Lemma message_extends k γ γ' d n args : extends γ γ' → message k γ d n args → message k γ' d n args.
Proof.
  intros Hx (w & o & L & Hw & Hat & Hcmd & HL & Hact). exists w, o, L.
  pose proof (lookup_lt_Some _ _ _ Hw) as Hn. pose proof (extends_length γ γ' (opp d) Hx).
  assert (∀ p, p = origin d n (g_at w) ∨ p = fwd d (origin d n (g_at w)) →
    p.1 ≤ length (own γ) ∧ p.2 ≤ length (rem γ)) as Hb.
  { intros p [-> | ->]; destruct d; simpl in *; lia. }
  rewrite (extends_oids γ γ'), !(extends_Gp γ γ') by (done || apply Hb; auto).
  split_and!; try done; [by apply (extends_op γ)|lia].
Qed.

Lemma queue_pop k γ d n args l :
  queue k γ d n (args :: l) → message k γ d n args ∧ queue k γ d (S n) l.
Proof.
  intros [Hl Hm]. split; [by rewrite <-(Nat.add_0_r n); apply Hm|]. split; [simpl in Hl; lia|].
  intros m a Ha. replace (S n + m) with (n + S m) by lia. by apply Hm.
Qed.

(** A queue in a larger grid with the same operations of its side. *)
Lemma queue_extends k γ γ' d n l :
  extends γ γ' → ops γ' d = ops γ d → queue k γ d n l → queue k γ' d n l.
Proof.
  intros Hx Ho [Hl Hm]. split; [by rewrite Ho|]. intros m a Ha. by apply (message_extends k γ), Hm.
Qed.

Lemma queue_push k γ γ' d n l args :
  extends γ γ' → length (ops γ' d) = S (length (ops γ d)) → queue k γ d n l →
  message k γ' d (length (ops γ d)) args → queue k γ' d n (l ++ [args]).
Proof.
  intros Hx Ho [Hl Hm] Hn. split; [rewrite Ho, length_app; simpl; lia|].
  intros m a Ha. destruct (lookup_snoc_cases _ _ _ _ Ha) as [Ha'|[-> ->]]; [|by rewrite Hl].
  by apply (message_extends k γ), Hm.
Qed.
