(* ===== verification/Link.v ===== *)
(** * The link between a slave and the master

    [link]: the slave's replica and the space the master keeps for it are two
    views of one grid, and the commands under way in both directions carry the
    operations each side has not yet received.  The four steps of the control
    algorithm keep it. *)
From S2P Require Import Prelude Sds Partition OtStr ClassText TextState OtUfs Graph UnionSplit GraphText Object Space Ladder Commands Control Replica Init Master Locate Grid Views Extend.

Record link (E : list bytes) (k : bytes) (γ : grid) (I J : nat) (st : server) (s : verlist)
    (up down : list (list bytes)) : Prop := {
  ln_grid : grid_ok (port st) γ;
  ln_range : (0 ≤ port st - 6379 < 10000)%Z;
  ln_num : op_num st = Z.of_nat (length (own γ));
  ln_slave : ∃ i j g sp es q pos, consistent E st k i j g sp es q ∧ slave_view E γ sp pos q J;
  ln_key : vl_key s = k;
  ln_id : vl_id s = port st;
  ln_len : vl_len_ufs s = tlen E;
  ln_master : ∃ pos q, master_view E γ (vl_vertices s) pos q I;
  ln_own n w : own γ !! n = Some w → g_at w ≤ J;
  ln_rem n r : rem γ !! n = Some r → g_at r ≤ I;
  ln_up : queue k γ LeftE I up;
  ln_down : queue k γ RightE J down;
}.

(** What the master shows for the slave, and the operations behind it. *)
Definition shown (γ : grid) (I : nat) : prel := Gp γ (I, length (rem γ)).
Definition behind (γ : grid) (I : nat) : list bytes := oids_at γ (I, length (rem γ)).

(** ** The classes of the graph are those of the grid *)

Lemma slave_shows E γ st k i j g sp es q pos J :
  consistent E st k i j g sp es q → slave_view E γ sp pos q J →
  rel_g g ≡ Gp γ (length (own γ), J) ∧ oid <$> es ≡ₚ oids_at γ (length (own γ), J)
  ∧ ∃ s, cont sp q = Some s.
Proof.
  intros Hco Hv. pose proof Hco as [_ _ _ _ _ (s & Hcur & Hag) _ _].
  pose proof Hag as (_ & _ & Rag). simpl in Rag. pose proof (current_text _ _ _ _ _ Hcur) as (Hc & _).
  destruct (lb_text _ _ _ _ (sv_lab _ _ _ _ _ _ Hv) q _ (sv_cur _ _ _ _ _ _ Hv)) as (s' & (Hc' & _) & R).
  assert (s' = s) as -> by congruence. split_and!; [by rewrite Rag|..|by exists s].
  destruct (route_oids E γ sp pos 0 es q (0, 0) (sv_lab _ _ _ _ _ _ Hv)
    (walk_route _ _ _ _ (cur_walk _ _ _ _ _ Hcur)) (sv_top _ _ _ _ _ _ Hv)) as (P & HP & _ & _ & Hperm).
  rewrite (sv_cur _ _ _ _ _ _ Hv) in HP. by injection HP as <-.
Qed.

(** The counters stay within the grid. *)
Lemma link_bounds E k γ I J st s up down :
  link E k γ I J st s up down → I ≤ length (own γ) ∧ J ≤ length (rem γ).
Proof.
  intros [_ _ _ (? & ? & ? & ? & ? & q & pos & _ & Hs) _ _ _ (posm & qm & Hm) _ _ _ _].
  destruct (lb_bound _ _ _ _ (sv_lab _ _ _ _ _ _ Hs) q _ (sv_cur _ _ _ _ _ _ Hs)).
  destruct (lb_bound _ _ _ _ (mv_lab _ _ _ _ _ _ Hm) qm _ (mv_cur _ _ _ _ _ _ Hm)). simpl in *. lia.
Qed.

(** ** A command of a user *)

Lemma acts_intro R o v R' : op_on R o v → simple v → R' ≡ aapply (abs_op v) R → acts R o (kind_of v) R'.
Proof. intros H1 H2 H3. by exists v. Qed.

(** The rewritten command is one the master understands. *)
Lemma user_remote g k args o v o_id ctx :
  user_cmd g k args o v → remote_cmd k o_id ctx (propagated k args o_id ctx) o.
Proof. intros [x y _ _|x _]; [apply remote_union|apply remote_split]. Qed.

(** Commands of users: unions and splits of single elements. *)
Inductive request (E : list bytes) (k : bytes) : list bytes → Prop :=
  | req_union x y : x ∈ E → y ∈ E → request E k [str "union"; x; y; k]
  | req_split x : x ∈ E → request E k [str "split"; x; k].

Lemma request_cmd E k g args :
  request E k args → names g ≡ₚ E → ∃ o v, user_cmd g k args o v.
Proof.
  intros [x y Hx Hy|x Hx] Hn; eexists _, _; constructor; by rewrite Hn.
Qed.

Lemma master_extends E γ γ' sp pos q I :
  extends γ γ' → own γ `prefix_of` own γ' → rem γ' = rem γ → I ≤ length (own γ) →
  master_view E γ sp pos q I → master_view E γ' sp pos q I.
Proof.
  intros Hx [l Ho] Hr HI [HL H0 Hq Hleaf (w0 & col & P0 & es0 & Hb & HP0 & Hmin & Hp)].
  split; try done; [by apply (labelled_extends E γ)|by rewrite Hr|].
  exists w0, col, P0, es0. split_and!; try done. intros y Hy. apply Hmin. intros n w Hn Hw.
  apply (Hy n); [done|]. rewrite Ho. by apply lookup_app_l_Some.
Qed.

Lemma slave_extends E γ γ' sp pos q J :
  extends γ γ' → own γ' = own γ → rem γ `prefix_of` rem γ' → J ≤ length (rem γ) →
  slave_view E γ sp pos q J → slave_view E γ' sp pos q J.
Proof.
  intros Hx Ho [l Hr] HJ [HL H0 Hq Hleaf (w0 & row & P0 & Hb & HP0 & Hmin & Hrow)].
  split; try done; [by apply (labelled_extends E γ)|by rewrite Ho|].
  exists w0, row, P0. split_and!; try done. intros x Hx'. apply Hmin. intros n r Hn Hr'.
  apply (Hx' n); [done|]. rewrite Hr. by apply lookup_app_l_Some.
Qed.

Lemma link_local E k γ I J st s up down c args :
  link E k γ I J st s up down → c_master c = false → request E k args → c_argv c = args →
  (Z.of_nat (length (own γ)) + 1 < 10000)%Z →
  ∃ γ' st' c', controlAlg st c = Ret (st', c') ∧ flag_ufs c' = 1%Z ∧ c_master c' = false
    ∧ masterhost st' = true ∧ port st' = port st
    ∧ link E k γ' I J st' s (up ++ [c_argv c']) down
    ∧ length (own γ') = S (length (own γ)) ∧ shown γ' I = shown γ I ∧ behind γ' I = behind γ I.
Proof.
  intros HK Hm Hreq Ha Hlt. pose proof (link_bounds _ _ _ _ _ _ _ _ _ HK) as [HI HJ].
  pose proof HK as [Hg Hrange Hnum (i & j & g & sp & es & q & pos & Hco & Hv) Hkey Hid Hlen (posm & qm & Hmv) Hown Hrem Hup Hdown].
  pose proof Hco as [Hs _ _ Hl _ _ Hn _].
  destruct (request_cmd E k g args Hreq Hn) as (o & v & Hcmd).
  assert (oid_range (next st)) as Hor by (split; simpl; lia).
  destruct (local_process_run E st k i j g sp es q Hco c args o v Hcmd Ha Hor)
    as (st' & c' & g' & s' & o_id & Ec & Eo & _ & Hco' & Rg & Hop & Hport & Hargv & Hflag & _ & Hcm).
  destruct (slave_shows E γ st k i j g sp es q pos J Hco Hv) as (Rg0 & Hes & cu & Hcu).
  destruct (user_cmd_on g k args o v (co_graph_ok _ _ _ _ _ _ _ _ _ Hco) Hcmd) as [Hon Hsim].
  set (w := mk_gop (kind_of v) o_id J). set (γ' := ext_own γ w (rel_g g')).
  pose proof (ext_own_extends γ w (rel_g g')) as Hx. fold γ' in Hx.
  assert (Gp γ' (S (length (own γ)), J) = rel_g g') as Hnew by apply (ext_own_new γ w).
  assert (acts (Gp γ' (length (own γ), J)) o (kind_of v) (Gp γ' (S (length (own γ)), J))) as Hact.
  { rewrite Hnew, (extends_Gp γ γ') by done. rewrite <-Rg0. by apply acts_intro. }
  assert (grid_ok (port st) γ') as Hg'.
  { apply ext_own_ok; [done|done|]. pose proof (new_oid_is_oid _ _ Hor Eo) as H. simpl in H. by rewrite Hnum in H. }
  assert (∃ t, s' = t ∧ text_ok t ∧ concat (parse t) ≡ₚ E ∧ rel_t t ≡ rel_g g') as (? & <- & Ok' & HE' & Rt').
  { pose proof Hco' as [_ _ _ _ _ (t & Hcur & Hag) _ _]. pose proof Hag as (_ & _ & Rag). simpl in Rag.
    pose proof (current_text _ _ _ _ _ Hcur) as (Hc & Hok & HE).
    rewrite inserted_cont, decide_True in Hc by done. injection Hc as ->. by exists t. }
  exists γ', st', c'. split; [|split_and!; try done].
  - unfold controlAlg. rewrite (key_at c args k Ha) by by destruct Hcmd. bind_red. by rewrite Hs, Hl, Hm.
  - by rewrite Hcm.
  - apply Hco'.
  - split; try done.
    + by rewrite Hport.
    + by rewrite Hport.
    + rewrite Hop, Hnum. simpl. rewrite length_app. simpl. lia.
    + eexists i, j, g', _, _, _, _. split; [exact Hco'|].
      apply (slave_local E γ γ' w sp pos q J o cu s' Hv); try done.
      * apply (labelled_extends E γ γ'); [done|apply Hv].
      * by rewrite Hnew.
    + by rewrite Hid.
    + exists posm, qm. apply (master_extends E γ); try done. by eexists.
    + intros n w' Hn'. destruct (lookup_snoc_cases _ _ _ _ Hn') as [?|[_ ->]]; [by eapply Hown|done].
    + apply (queue_push k γ γ'); try done; [simpl; rewrite length_app; simpl; lia|].
      exists w, o, (oid <$> es). split_and!.
      * simpl. by apply list_lookup_middle.
      * done.
      * rewrite Hargv, ctx_of_list. by apply (user_remote g k args o v).
      * simpl. rewrite (extends_oids γ γ') by done. done.
      * done.
    + by apply (queue_extends k γ γ').
  - simpl. rewrite length_app. simpl. lia.
  - unfold shown. change (rem γ') with (rem γ). by rewrite (extends_Gp γ γ').
  - unfold behind. change (rem γ') with (rem γ). by rewrite (extends_oids γ γ').
Qed.

(** ** A command of the master *)

Lemma iter_left n i j : Nat.iter n (fwd LeftE) (i, j) = (n + i, j).
Proof. induction n as [|n IH]; simpl; [done|]. by rewrite IH. Qed.

Lemma iter_right n i j : Nat.iter n (fwd RightE) (i, j) = (i, n + j).
Proof. induction n as [|n IH]; simpl; [done|]. by rewrite IH. Qed.


Lemma link_remote E k γ I J st s up args down c :
  link E k γ I J st s up (args :: down) → c_master c = true → c_argv c = args →
  ∃ st' c', controlAlg st c = Ret (st', c') ∧ flag_ufs c' = 1%Z ∧ c_master c' = true
    ∧ masterhost st' = true ∧ port st' = port st ∧ link E k γ I (S J) st' s up down.
Proof.
  intros HK Hm Ha. pose proof (link_bounds _ _ _ _ _ _ _ _ _ HK) as [HI HJ].
  pose proof HK as [Hg Hrange Hnum (i & j & g & sp & es & q & pos & Hco & Hv) Hkey Hid Hlen Hmv Hown Hrem Hup Hdown].
  pose proof Hco as [Hs _ _ Hl _ _ Hn _]. pose proof (sv_lab _ _ _ _ _ _ Hv) as HL.
  destruct (queue_pop _ _ _ _ _ _ Hdown) as [(r & o & L & Hr & Hat & Hcmd & HLp & Hact) Hdown'].
  simpl in Hr, Hat, HLp, Hact.
  destruct (slave_locate (port st) E γ sp pos q J (g_at r) L) as (u & row & Eloc & Hu & Hb & Hlrow & Hrow); try done.
  { intros n r' Hn' Hr'. by apply (go_rem _ _ Hg n J); [lia|..]. }
  destruct (lb_text _ _ _ _ HL u _ Hu) as (cu & (Hcu & _) & Rcu).
  pose proof Hact as (v & Hon & Hsim & _). rewrite <-Rcu in Hon. pose proof Hb as (Hc & _).
  pose proof (grid_nul_free _ _ Hg) as Hnf.
  destruct (remote_process_run E st k i j g sp es q c args o v (g_oid r) (ctx_text L) u cu row)
    as (s1 & st' & c' & g' & sp' & p & e' & vw & Es & El & Ec & Hco' & _ & _ & Hop & Hport & Hflag & Hcm & _); try done.
  { apply (Hnf RightE). by eapply list_elem_of_lookup_2. }
  destruct (insert_labelled E γ LeftE sp pos u row q o r [] (g_at r, J) cu)
    as (s1' & sp2 & pos2 & p' & e2 & Es' & El' & HL2 & M); try done.
  { intros n Hn'. rewrite iter_left.
    destruct (lookup_lt_is_Some_2 (own γ) (n + g_at r)) as [w Hw]; [simpl in *; lia|].
    apply (go_law _ _ Hg _ _ w r); [done|done|by eapply Hown|lia]. }
  rewrite Es in Es'. injection Es' as <-. cbn [opp] in El'. rewrite El in El'. injection El' as <- <-.
  pose proof (slave_remote E γ sp pos q J r u row sp' pos2 p e2 Hv Hr Hu Hb Hrow HL2 M) as Hv'.
  exists st', c'. split; [|split_and!; try done].
  - unfold controlAlg. rewrite (key_at c args k Ha) by by destruct Hcmd. bind_red. by rewrite Hs, Hl, Hm.
  - by rewrite Hcm.
  - apply Hco'.
  - split; try done.
    + by rewrite Hport.
    + by rewrite Hport.
    + by rewrite Hop.
    + by eexists i, j, g', _, _, _, _.
    + by rewrite Hport.
    + intros n w Hw. specialize (Hown n w Hw). lia.
Qed.

(** ** A command of the slave, on the master *)

Lemma bare_path sp q es q' : bare RightE sp q es q' → path sp q es q'.
Proof.
  intros Hb. destruct (bare_nth RightE sp q es q' (length es) Hb) as (k & r1 & r2 & E & Hl & Hb2 & _ & Hp); [done|].
  assert (r2 = []) as ->.
  { apply (f_equal length) in E. rewrite length_app in E. destruct r2; [done|simpl in E; lia]. }
  rewrite app_nil_r in E. subst r1. destruct Hb2 as (Hc & _). inversion Hc; subst. by apply Hp.
Qed.

Lemma link_own E k γ I J st s args up down :
  link E k γ I J st s (args :: up) down →
  ∃ w o L u cu s1 sp2 q p e' es,
    own γ !! I = Some w ∧ remote_cmd k (g_oid w) (ctx_text L) args o ∧ Forall plain L
    ∧ locateVertice (vl_vertices s) (Some (ctx_text L)) = Ret (Some u) ∧ cont (vl_vertices s) u = Some cu
    ∧ updateVerticeUfsFromState cu (optype o) (argv1 o) (argv2 o) (vl_len_ufs s) = Ret s1
    ∧ ladder (S (length (vl_vertices s))) RightE (inserted (vl_vertices s) LeftE u o (g_oid w) s1) u
        (length (vl_vertices s)) (vl_len_ufs s) (ctx_text L) = Ret (sp2, q, p, ctx_text (L ++ es))
    ∧ edg LeftE sp2 q = Some e' ∧ oid e' = g_oid w ∧ optype (e_op e') = optype o
    ∧ L ++ es ≡ₚ behind γ I ∧ behind γ (S I) ≡ₚ g_oid w :: behind γ I
    ∧ acts (shown γ I) (e_op e') (g_kind w) (shown γ (S I))
    ∧ link E k γ (S I) J st (mk_verlist (vl_key s) (vl_id s) (vl_len_ufs s) sp2) up down.
Proof.
  intros HK. pose proof (link_bounds _ _ _ _ _ _ _ _ _ HK) as [HI HJ].
  pose proof HK as [Hg Hrange Hnum Hsl Hkey Hid Hlen (pos & q & Hmv) Hown Hrem Hup Hdown].
  pose proof (mv_lab _ _ _ _ _ _ Hmv) as HL.
  destruct (queue_pop _ _ _ _ _ _ Hup) as [(w & o & L & Hw & Hat & Hcmd & HLp & Hact) Hup'].
  simpl in Hw, Hat, HLp, Hact.
  destruct (master_locate (port st) E γ (vl_vertices s) pos q I (g_at w) L) as (u & col & es0 & Eloc & Hu & Hb & Hp & Hlcol); try done.
  { intros n w' Hn' Hw'. by apply (go_own _ _ Hg n I); [lia|..]. }
  destruct (lb_text _ _ _ _ HL u _ Hu) as (cu & (Hcu & _) & Rcu).
  pose proof Hb as (Hc & _). pose proof (grid_nul_free _ _ Hg) as Hnf.
  destruct (insert_labelled E γ RightE (vl_vertices s) pos u col q o w (ctx_text L) (I, g_at w) cu)
    as (s1 & sp2 & pos2 & p & e' & Es & El & HL2 & M); try done.
  { intros n Hn'. rewrite iter_right.
    destruct (lookup_lt_is_Some_2 (rem γ) (n + g_at w)) as [r Hr]; [simpl in *; lia|].
    apply (go_law _ _ Hg _ _ w r); [done|done|lia|by eapply Hrem]. }
  pose proof (master_own E γ (vl_vertices s) pos q I w u col es0 sp2 pos2 p e' Hmv Hw Hu Hb Hp HL2 M) as Hmv'.
  pose proof (mo_end _ _ _ _ _ _ _ _ M) as [He' Hadj]. simpl in He'.
  destruct (lb_edge _ _ _ _ HL2 LeftE q e' (I, length (rem γ)) He') as (w' & _ & _ & Hw' & Eoid & Hact').
  { apply lookup_app_l_Some, Hmv. }
  simpl in Hw'. rewrite Hw in Hw'. injection Hw' as <-.
  exists w, o, L, u, cu, s1, sp2, q, p, e', (oid <$> col). rewrite Hlen. split_and!; try done.
  - rewrite HLp. by apply (oids_plain (port st)).
  - cbn [opp] in El. rewrite El. unfold ctx_text. by rewrite ctx_list_app, app_assoc, ctx_of_list.
  - by rewrite (acts_type _ _ _ _ Hact), (acts_type _ _ _ _ Hact').
  - rewrite HLp.
    assert (route (vl_vertices s) u col q) as Hro by (apply path_route; by apply bare_path).
    destruct (route_oids E γ (vl_vertices s) pos u col q (I, g_at w) HL Hro Hu) as (P & HP & _ & _ & Hperm).
    rewrite (mv_cur _ _ _ _ _ _ Hmv) in HP. injection HP as <-. simpl in Hperm.
    rewrite Hperm, (seg_nil _ I I) by lia. simpl. unfold behind, oids_at. simpl.
    rewrite (seg_app (rem γ) 0 (g_at w) (length (rem γ))) by (done || lia). by rewrite <-app_assoc.
  - unfold behind, oids_at. simpl. rewrite (seg_app (own γ) 0 I (S I)) by lia.
    rewrite (seg_step _ I (S I) w), (seg_nil _ (S I) (S I)) by (done || lia).
    rewrite <-app_assoc. simpl. by rewrite <-Permutation_middle.
  - split; try done.
    + by exists (pos ++ pos2), p.
    + intros n r Hr. specialize (Hrem n r Hr). lia.
Qed.

(** ** A command of another slave, on the master *)

Lemma link_other E k γ I J st s up down o kd o_id R' :
  link E k γ I J st s up down → acts (shown γ I) o kd R' → (∃ p n, p ≠ port st ∧ is_oid p n o_id) →
  ∃ s' γ', save_op o o_id (tlen E) s = Ret s' ∧ vl_id s' = vl_id s ∧ shown γ' I = R' ∧ behind γ' I ≡ₚ o_id :: behind γ I
    ∧ own γ' = own γ
    ∧ ∀ args L o', remote_cmd k o_id (ctx_text L) args o' → L ≡ₚ behind γ I → acts (shown γ I) o' kd R' →
      link E k γ' I J st s' up (down ++ [args]).
Proof.
  intros HK Hact Hoid. pose proof (link_bounds _ _ _ _ _ _ _ _ _ HK) as [HI HJ].
  pose proof HK as [Hg Hrange Hnum (i & j & g & sp & es & q & pos & Hco & Hv) Hkey Hid Hlen (posm & qm & Hmv) Hown Hrem Hup Hdown].
  pose proof (mv_lab _ _ _ _ _ _ Hmv) as HL. pose proof (grid_nul_free _ _ Hg) as Hnf.
  destruct (lb_text _ _ _ _ HL qm _ (mv_cur _ _ _ _ _ _ Hmv)) as (t & Tt & Rt). pose proof Tt as (Ht & Ok & HE).
  destruct (master_walk _ _ _ _ _ _ Hmv) as (esm & Hwalk).
  assert (current E (vl_vertices s) esm qm t) as Hcur.
  { split; try done; [by eapply labelled_sound|by eapply labelled_oids]. }
  destruct (locate_current _ _ _ (current_forward _ _ _ _ _ Hcur) Hwalk
    (current_walk_oids _ _ _ _ _ Hcur)) as (_ & _ & Eloc).
  pose proof Hact as (v & Hon & Hsim & Hkd & HR'). unfold shown in Hon, HR'. rewrite <-Rt in Hon, HR'.
  destruct (exec_text_spec t o v Ok Hon) as (t' & Et & Ok' & Rt' & _ & Hcc).
  unfold exec in Et. rewrite (text_of_length E _ qm t Tt) in Et.
  set (r := mk_gop kd o_id I). set (γ' := ext_rem γ r R').
  pose proof (ext_rem_extends γ r R') as Hx. fold γ' in Hx.
  assert (Gp γ' (I, S (length (rem γ))) = R') as Hnew by apply (ext_rem_new γ r).
  assert (length (rem γ') = S (length (rem γ))) as Hlr by (simpl; rewrite length_app; simpl; lia).
  eexists _, γ'. split; [by eapply save_op_eval|]. split; [done|]. split; [unfold shown; by rewrite Hlr|]. split; [|split; [done|]].
  - unfold behind. rewrite Hlr. unfold oids_at. cbn [fst snd].
    rewrite (seg_app (rem γ') 0 (length (rem γ))) by lia.
    rewrite (seg_step (rem γ') (length (rem γ)) _ r), (seg_nil _ (S _) (S _)) by (lia || by apply list_lookup_middle).
    rewrite (seg_prefix (rem γ) (rem γ')) by (done || apply Hx). change (own γ') with (own γ).
    rewrite app_assoc. symmetry. apply Permutation_cons_append.
  - intros args L o' Hcmd HLp Hact'. split; try done.
    + by apply ext_rem_ok.
    + exists i, j, g, sp, es, q, pos. split; [done|]. apply (slave_extends E γ); try done. apply Hx.
    + eexists _, _. apply (master_other E γ γ' r _ posm qm I o t t'); try done.
      * by apply (labelled_extends E γ).
      * rewrite Hnew, (extends_Gp γ γ') by done. done.
      * by rewrite Hcc.
      * rewrite Hnew, Rt'. by rewrite HR'.
    + intros n r' Hr'. destruct (lookup_snoc_cases _ _ _ _ Hr') as [?|[_ ->]]; [by eapply Hrem|done].
    + by apply (queue_extends k γ γ').
    + apply (queue_push k γ γ'); try done.
      exists r, o', L. split_and!; try done.
      * simpl. by apply list_lookup_middle.
      * simpl. by rewrite (extends_oids γ γ').
      * change (acts (Gp γ' (I, length (rem γ))) o' kd (Gp γ' (I, S (length (rem γ))))). rewrite Hnew, (extends_Gp γ γ') by done. done.
Qed.
