(* ===== verification/System.v ===== *)
(** * The replicated system

    One master and its slaves, connected by queues of commands.  Users send
    commands to the slaves; a slave passes the rewritten command to the master,
    which passes the transformed one to the other slaves.  Commands run through
    [processCommand] and [call] on every server.  The order in which the
    queues are served is arbitrary.  The theorems: no server faults, and once the
    queues are empty all replicas show the same classes. *)
From S2P Require Import Prelude Sds Partition OtStr ClassText TextState OtUfs Graph UnionSplit GraphText Object Space Ladder Commands Query Control Replica Init Master Protocol Call Locate Grid Views Extend Link.

(** ** The system *)

(** Connection [n] of the master belongs to slave [n]. *)
Record net := mk_net { hub : instance; nodes : list instance }.

(** A command of a user on the master or on a slave, and the delivery of the
    first command of a queue to the master or to a slave. *)
Inductive event := Admin (args : list bytes) | User (n : nat) (args : list bytes) | Up (n : nat) | Down (n : nat).

(** Running a command on an instance; an unknown command changes nothing. *)
Definition runs (i : instance) (c : client) (id : Z) (slave : bool) : out instance :=
  v ← processCommand i c id slave; Ret (match v with Ran i' _ => i' | _ => i end).

Definition with_out (c : conn) (q : list (list bytes)) : conn :=
  mk_conn (conn_id c) (conn_port c) (conn_wait c) (conn_feed c) q.

Definition step (s : net) (e : event) : out net :=
  match e with
  | Admin args =>
    h ← runs (hub s) (mk_client args false 0 0 []) 0 false; Ret (mk_net h (nodes s))
  | User n args =>
    match nodes s !! n with
    | Some i =>
      i' ← runs i (mk_client args false 0 0 []) 0 false; Ret (mk_net (hub s) (<[n := i']> (nodes s)))
    | None => Ret s
    end
  | Up n =>
    match nodes s !! n, conns (hub s) !! n with
    | Some i, Some c =>
      match master_link i with
      | Some (args :: q) =>
        h ← runs (hub s) (mk_client args false (conn_port c) 0 []) (conn_id c) true;
        Ret (mk_net h (<[n := set_link i q]> (nodes s)))
      | _ => Ret s
      end
    | _, _ => Ret s
    end
  | Down n =>
    match nodes s !! n, conns (hub s) !! n with
    | Some i, Some c =>
      match conn_out c with
      | args :: q =>
        i' ← runs i (mk_client args true 0 0 []) 0 false;
        Ret (mk_net (set_conns (hub s) (<[n := with_out c q]> (conns (hub s)))) (<[n := i']> (nodes s)))
      | [] => Ret s
      end
    | _, _ => Ret s
    end
  end.

Fixpoint run (s : net) (es : list event) : out net :=
  match es with
  | [] => Ret s
  | e :: es => s' ← step s e; run s' es
  end.

(** No command is under way. *)
Definition quiet (s : net) : bool :=
  forallb (λ i, bool_decide (master_link i = Some [])) (nodes s)
  && forallb (λ c, bool_decide (conn_out c = [])) (conns (hub s)).

(** ** Invariants of the system *)

(** The parts of the servers that commands leave alone, and a property [Q] of
    every slave with its connection and its space on the master. *)
Record wired (s : net) (L : list verlist) (Q : nat → instance → conn → verlist → Prop) : Prop := {
  wi_master : masterhost (srv (hub s)) = false;
  wi_spaces : sspacelist (srv (hub s)) = Some L;
  wi_backlog : backlog (hub s) ≠ None;
  wi_conns : length (conns (hub s)) = length (nodes s);
  wi_len : length L = length (nodes s);
  wi_ids : NoDup (conn_id <$> conns (hub s));
  wi_ports : NoDup (vl_id <$> L);
  wi_node n i c v :
    nodes s !! n = Some i → conns (hub s) !! n = Some c → L !! n = Some v → Q n i c v;
}.

Lemma wired_lookup s L Q n i :
  wired s L Q → nodes s !! n = Some i →
  ∃ c v, conns (hub s) !! n = Some c ∧ L !! n = Some v ∧ Q n i c v.
Proof.
  intros Hw Hi. pose proof (lookup_lt_Some _ _ _ Hi) as Hlt. pose proof Hw as [_ _ _ H1 H2 _ _ HQ].
  destruct (lookup_lt_is_Some_2 (conns (hub s)) n) as [c Hc]; [lia|].
  destruct (lookup_lt_is_Some_2 L n) as [v Hv]; [lia|]. exists c, v. split_and!; try done. by apply HQ.
Qed.

(** One slave and its connection change. *)
Lemma wired_set s L (Q Q' : nat → instance → conn → verlist → Prop) n c i' c' :
  wired s L Q → conns (hub s) !! n = Some c → conn_id c' = conn_id c →
  (∀ v, L !! n = Some v → Q' n i' c' v) →
  (∀ m i c v, m ≠ n → nodes s !! m = Some i → Q m i c v → Q' m i c v) →
  wired (mk_net (set_conns (hub s) (<[n := c']> (conns (hub s)))) (<[n := i']> (nodes s))) L Q'.
Proof.
  intros [H1 H2 H3 H4 H5 H6 H7 HQ] Hc Hid Hn Hm. split; simpl; try done.
  - by rewrite !length_insert.
  - by rewrite length_insert.
  - rewrite list_fmap_insert, list_insert_id; [done|]. by rewrite list_lookup_fmap, Hc, Hid.
  - intros m i d v Hi Hd Hv. cbn [nodes hub conns set_conns] in Hi, Hd. destruct (decide (m = n)) as [->|Hne].
    + rewrite list_lookup_insert_eq in Hd by by eapply lookup_lt_Some.
      rewrite list_lookup_insert_eq in Hi by (apply lookup_lt_Some in Hi; by rewrite length_insert in Hi).
      simplify_eq. by apply Hn.
    + rewrite list_lookup_insert_ne in Hi by done. rewrite list_lookup_insert_ne in Hd by done. apply Hm; [done|done|]. by apply HQ.
Qed.

Lemma set_conns_id i n c : conns i !! n = Some c → set_conns i (<[n := c]> (conns i)) = i.
Proof. intros H. rewrite list_insert_id by done. by destruct i. Qed.

(** *** The invariant of a running system *)

(** A slave and what the master knows about it: [H] are the operations the
    master has processed, [R] the classes it shows, [cnt] bounds the number of
    operations of the slave. *)
Record joined (E : list bytes) (k : bytes) (cnt : nat) (H : list bytes) (R : prel) (i : instance) (c : conn)
    (v : verlist) : Prop := {
  jo_ro : repl_slave_ro i = false;
  jo_conns : conns i = [];
  jo_wait : conn_wait c = false;
  jo_port : conn_port c = port (srv i);
  jo_link : ∃ γ I J up, master_link i = Some up ∧ link E k γ I J (srv i) v up (conn_out c)
    ∧ shown γ I ≡ R ∧ behind γ I ≡ₚ H ∧ length (own γ) ≤ cnt;
}.

Definition sane (E : list bytes) (k : bytes) (cnt : nat) (s : net) : Prop :=
  ∃ L H R, wired s L (λ _, joined E k cnt H R).

Lemma joined_le E k cnt cnt' H R i c v :
  cnt ≤ cnt' → joined E k cnt H R i c v → joined E k cnt' H R i c v.
Proof.
  intros Hle [? ? ? ? (γ & I & J & up & ? & ? & ? & ? & ?)]. split; try done.
  exists γ, I, J, up. split_and!; try done. lia.
Qed.

(** ** Commands of users *)

Lemma find_runs g st c k x p :
  graph_ok g → arg c 2 = Ret k → arg c 1 = Ret x → getUfs st k = Ret p → ufs_at st p = Ret g →
  x ∈ names g → ∃ r, findCommand st c = Ret (addReply c r).
Proof.
  intros Hg Hk Hx Hp Hu Hin. destruct (decide (adjl g (vpos g x) = [])) as [Ea|Ea].
  - by rewrite (find_alone g Hg st c k x p Hk Hx Hp Hu Hin Ea); eexists.
  - by rewrite (find_class g Hg st c k x p Hk Hx Hp Hu Hin Ea); eexists.
Qed.

(** Commands that do not change an object: queries, and operations on elements
    the object does not have. *)
Inductive harmless (E : list bytes) (k : bytes) : list bytes → Prop :=
  | ha_find x : x ∈ E → harmless E k [str "find"; x; k]
  | ha_umembers : harmless E k [str "umembers"; k]
  | ha_union x y : name_ok x → name_ok y → x ∉ E ∨ y ∉ E → harmless E k [str "union"; x; y; k]
  | ha_split x : name_ok x → x ∉ E → harmless E k [str "split"; x; k].

Lemma control_runs i c id slave i' c' :
  (∃ x y k, c_argv c = [str "union"; x; y; k]) ∨ (∃ x k, c_argv c = [str "split"; x; k])
    ∨ (∃ k o_id ctx o, remote_cmd k o_id ctx (c_argv c) o) →
  call controlAlg i c id slave CMD_CALL_FULL = Ret (i', c') → runs i c id slave = Ret i'.
Proof.
  intros Hc Ec. unfold runs.
  assert (∀ l, c_argv c = str "union" :: l → processCommand i c id slave = Ret (Ran i' c')) as Hu.
  { intros l El. apply (processCommand_run i c id slave (str "union") (str "union") (-1) unionCommand);
      [unfold arg; by rewrite El|reflexivity|rewrite El; simpl; lia|exact Ec]. }
  assert (∀ l, c_argv c = str "split" :: l → processCommand i c id slave = Ret (Ran i' c')) as Hs.
  { intros l El. apply (processCommand_run i c id slave (str "split") (str "split") (-1) splitCommand);
      [unfold arg; by rewrite El|reflexivity|rewrite El; simpl; lia|exact Ec]. }
  destruct Hc as [(x & y & k & El)|[(x & k & El)|(k & o_id & ctx & o & Hr)]].
  - by rewrite (Hu _ El).
  - by rewrite (Hs _ El).
  - inversion Hr as [t1 t2 El|t El]; [by rewrite (Hu _ (eq_sym El))|by rewrite (Hs _ (eq_sym El))].
Qed.

Lemma harmless_runs E st k i j g sp es q ins args :
  consistent E st k i j g sp es q → srv ins = st → harmless E k args →
  runs ins (mk_client args false 0 0 []) 0 false = Ret ins.
Proof.
  intros Hco Hsrv Ha. pose proof (co_graph_ok E st k i j g sp es q Hco) as Hok.
  pose proof Hco as [_ Hk Hg _ _ _ Hn H2].
  assert (∀ c', controlAlg st (mk_client args false 0 0 []) = Ret (st, c') → flag_ufs c' = 0%Z →
    call controlAlg ins (mk_client args false 0 0 []) 0 false CMD_CALL_FULL = Ret (ins, c')) as Hq.
  { intros c' Ec Ef. rewrite (call_quiet controlAlg ins _ 0 false st c').
    - by destruct ins; simpl in *; subst.
    - by rewrite Hsrv.
    - by rewrite Ef. }
  assert (∀ r, bad_cmd g k args r → ∃ c', call controlAlg ins (mk_client args false 0 0 []) 0 false CMD_CALL_FULL = Ret (ins, c')) as Hb.
  { intros r Hbad. eexists. apply Hq; [by eapply rejected_command|done]. }
  assert (∀ f c', f st (mk_client args false 0 0 []) = Ret (addReply (mk_client args false 0 0 []) c') →
    call (lift f) ins (mk_client args false 0 0 []) 0 false CMD_CALL_FULL =
      Ret (ins, addReply (mk_client args false 0 0 []) c')) as Hf.
  { intros f r Ef. rewrite (call_quiet (lift f) ins _ 0 false st (addReply (mk_client args false 0 0 []) r)).
    - by destruct ins; simpl in *; subst.
    - unfold lift. rewrite Hsrv. unfold set_flag. cbn [c_argv c_master c_port c_replies]. by rewrite Ef.
    - done. }
  destruct Ha as [x Hx| |x y Hx Hy Hnot|x Hx Hnot].
  - destruct (find_runs g st (mk_client [str "find"; x; k] false 0 0 []) k x (Some j)) as (r & Er); try done.
    { by rewrite Hn. }
    unfold runs. erewrite processCommand_run; [done|reflexivity|reflexivity|simpl; lia|by apply Hf].
  - unfold runs. erewrite processCommand_run; [done|reflexivity|reflexivity|simpl; lia|].
    apply Hf. by apply (umembers_text g Hok st _ k (Some j)).
  - destruct (Hb RNoExistAllElems) as (c' & Ec); [constructor; [done..|]; by rewrite Hn|].
    eapply control_runs; [|exact Ec]. left. by eexists _, _, _.
  - destruct (Hb RNoExistElem) as (c' & Ec); [constructor; [done..|]; by rewrite Hn|].
    eapply control_runs; [|exact Ec]. right. left. by eexists _, _.
Qed.

Section steps.
  Context (E : list bytes) (k : bytes).

(** A user's operation. *)
Lemma step_user cnt s n args :
  sane E k cnt s → request E k args → (Z.of_nat cnt < 9999)%Z →
  ∃ s', step s (User n args) = Ret s' ∧ sane E k (S cnt) s'.
Proof using Type.
  intros (L & H & R & Hw) Hreq Hcnt. cbn [step].
  destruct (nodes s !! n) as [i|] eqn:Hi.
  2:{ exists s. split; [done|]. exists L, H, R. destruct Hw as [? ? ? ? ? ? ? HQ]. split; try done.
      intros m i c v ? ? ?. apply (joined_le E k cnt); [lia|]. by apply (HQ m). }
  destruct (wired_lookup _ _ _ _ _ Hw Hi) as (c & v & Hc & Hv & [Hro Hcs Hwt Hp (γ & I & J & up & Hup & HK & HR & HH & Hl)]).
  set (cl := mk_client args false 0 0 []).
  destruct (link_local E k γ I J (srv i) v up (conn_out c) cl args HK eq_refl Hreq eq_refl)
    as (γ' & st' & c' & Ec & Ef & Ecm & Em & Ep & HK' & Hlen & Esh & Ebe); [lia|].
  destruct (call_routed controlAlg i cl 0 false st' c') as (i' & Ecall & [Rs Rl Rc Rr _]); try done.
  rewrite (control_runs i cl 0 false i' c'); [|by destruct Hreq; eauto 10|done]. bind_red.
  eexists. split; [done|]. exists L, H, R.
  rewrite <-(set_conns_id (hub s) n c Hc).
  apply (wired_set s L (λ _, joined E k cnt H R) _ n c i' c Hw Hc eq_refl).
  - intros v' Hv'. rewrite Hv in Hv'. injection Hv' as <-. split; try done.
    + by rewrite Rr.
    + rewrite Hcs in Rc. by inversion Rc.
    + by rewrite Rs, Ep.
    + exists γ', I, J, (up ++ [c_argv c']). rewrite Rs, Rl, Hup, Em, Hro, Ecm. split_and!; try done.
      * by rewrite Esh.
      * by rewrite Ebe.
      * lia.
  - intros m j d w _ _. apply joined_le. lia.
Qed.

(** Queries and rejected commands. *)
Lemma step_harmless cnt s n args :
  sane E k cnt s → harmless E k args → step s (User n args) = Ret s.
Proof using Type.
  intros (L & H & R & Hw) Hh. cbn [step]. destruct (nodes s !! n) as [i|] eqn:Hi; [|done].
  destruct (wired_lookup _ _ _ _ _ Hw Hi) as (c & v & Hc & Hv & [Hro Hcs Hwt Hp (γ & I & J & up & Hup & HK & _)]).
  destruct (ln_slave _ _ _ _ _ _ _ _ _ HK) as (a & b & g & sp & es & q & pos & Hco & _).
  rewrite (harmless_runs E (srv i) k a b g sp es q i args Hco eq_refl Hh). bind_red.
  rewrite list_insert_id by done. by destruct s.
Qed.

(** ** Deliveries *)

Definition up_len (i : instance) : nat := length (default [] (master_link i)).
Definition out_len (c : conn) : nat := length (conn_out c).

(** A bound on the number of deliveries: every command on its way up becomes at
    most one command for every slave. *)
Definition pending (s : net) : nat :=
  sum_list_with up_len (nodes s) * S (length (nodes s)) + sum_list_with out_len (conns (hub s)).

Lemma sum_insert {A} (f : A → nat) l n x y :
  l !! n = Some x → sum_list_with f (<[n := y]> l) + f x = sum_list_with f l + f y.
Proof using Type.
  revert n. induction l as [|a l IH]; intros [|n] Hn; simplify_eq/=; [lia|]. specialize (IH n Hn). lia.
Qed.

(** A command of the master reaches a slave. *)
Lemma step_down cnt s n i c args q :
  sane E k cnt s → nodes s !! n = Some i → conns (hub s) !! n = Some c → conn_out c = args :: q →
  ∃ s', step s (Down n) = Ret s' ∧ sane E k cnt s' ∧ pending s' < pending s.
Proof using Type.
  intros (L & H & R & Hw) Hi Hc Hq. cbn [step]. rewrite Hi, Hc, Hq.
  destruct (wired_lookup _ _ _ _ _ Hw Hi) as (c0 & v & Hc0 & Hv & [Hro Hcs Hwt Hp (γ & I & J & up & Hup & HK & HR & HH & Hl)]).
  rewrite Hc in Hc0. injection Hc0 as <-. rewrite Hq in HK.
  set (cl := mk_client args true 0 0 []).
  destruct (link_remote E k γ I J (srv i) v up args q cl HK eq_refl eq_refl)
    as (st' & c' & Ec & Ef & Ecm & Em & Ep & HK').
  destruct (call_routed controlAlg i cl 0 false st' c') as (i' & Ecall & [Rs Rl Rc Rr _]); try done.
  rewrite Em, Hro, Ecm in Rl. cbn [andb negb] in Rl.
  rewrite (control_runs i cl 0 false i' c'); [|right; right|done].
  2:{ destruct (ln_down _ _ _ _ _ _ _ _ _ HK) as [_ Hm]. destruct (Hm 0 args eq_refl) as (w & o & L' & _ & _ & Hcmd & _).
      by eexists _, _, _, _. }
  bind_red. eexists. split; [done|]. split.
  - exists L, H, R. apply (wired_set s L (λ _, joined E k cnt H R) _ n c i' (with_out c q) Hw Hc eq_refl); [|done].
    intros v' Hv'. rewrite Hv in Hv'. injection Hv' as <-. split; try done.
    + by rewrite Rr.
    + rewrite Hcs in Rc. by inversion Rc.
    + by rewrite Rs, Ep.
    + exists γ, I, (S J), up. rewrite Rs, Rl, Hup. by split_and!.
  - unfold pending. cbn [nodes hub conns set_conns]. rewrite length_insert.
    pose proof (sum_insert up_len _ n i i' Hi) as S1. pose proof (sum_insert out_len _ n c (with_out c q) Hc) as S2.
    assert (up_len i' = up_len i) as Eu by (unfold up_len; by rewrite Rl, Hup).
    assert (out_len c = S (out_len (with_out c q))) as Eo by (unfold out_len; by rewrite Hq).
    assert (sum_list_with up_len (<[n := i']> (nodes s)) = sum_list_with up_len (nodes s)) as -> by lia. lia.
Qed.
(** *** A command of a slave reaches the master *)

(** What the other slaves see of it. *)
Lemma joined_other cnt H R i c v o kd o_id R' :
  joined E k cnt H R i c v → acts R o kd R' → (∃ p n, p ≠ vl_id v ∧ is_oid p n o_id) →
  ∃ v', save_op o o_id (tlen E) v = Ret v' ∧ vl_id v' = vl_id v
    ∧ ∀ args L o' c', remote_cmd k o_id (ctx_text L) args o' → L ≡ₚ H → acts R o' kd R' →
      sent_to c c' args true → joined E k cnt (o_id :: H) R' i c' v'.
Proof using Type.
  intros [Hro Hcs Hwt Hp (γ & I & J & up & Hup & HK & HR & HH & Hl)] Hact Hoid.
  rewrite (ln_id _ _ _ _ _ _ _ _ _ HK) in Hoid. rewrite <-HR in Hact.
  destruct (link_other E k γ I J (srv i) v up (conn_out c) o kd o_id R' HK Hact Hoid)
    as (v' & γ' & Es & Eid & Esh & Hbe & Eown & HK').
  exists v'. split_and!; try done. intros args L o' c' Hcmd HL Hact' (S1 & S2 & S3 & S4). split; try done.
  - by rewrite S3.
  - by rewrite S2.
  - exists γ', I, J, up. rewrite S4. split_and!; try done.
    + apply (HK' args L o'); try done; [by rewrite HL|by rewrite HR].
    + by rewrite Esh.
    + by rewrite Hbe, HH.
    + by rewrite Eown.
Qed.

(** What the slave itself sees of it. *)
Lemma joined_own cnt H R i c v args q :
  joined E k cnt H R i c v → master_link i = Some (args :: q) →
  ∃ o_id kd o L u cu s1 sp2 q' p e' es R',
    remote_cmd k o_id (ctx_text L) args o ∧ nul_free (ctx_text L) ∧ (∃ n, is_oid (vl_id v) n o_id)
    ∧ locateVertice (vl_vertices v) (Some (ctx_text L)) = Ret (Some u) ∧ cont (vl_vertices v) u = Some cu
    ∧ updateVerticeUfsFromState cu (optype o) (argv1 o) (argv2 o) (vl_len_ufs v) = Ret s1
    ∧ ladder (S (length (vl_vertices v))) RightE (inserted (vl_vertices v) LeftE u o o_id s1) u
        (length (vl_vertices v)) (vl_len_ufs v) (ctx_text L) = Ret (sp2, q', p, ctx_text (L ++ es))
    ∧ edg LeftE sp2 q' = Some e' ∧ oid e' = o_id ∧ optype (e_op e') = optype o
    ∧ L ++ es ≡ₚ H ∧ acts R (e_op e') kd R' ∧ vl_len_ufs v = tlen E
    ∧ ∀ args' c', sent_to c c' args' false → joined E k cnt (o_id :: H) R' (set_link i q) c'
        (mk_verlist (vl_key v) (vl_id v) (vl_len_ufs v) sp2).
Proof using Type.
  intros [Hro Hcs Hwt Hp (γ & I & J & up & Hup & HK & HR & HH & Hl)] Hq.
  rewrite Hq in Hup. injection Hup as <-.
  destruct (link_own E k γ I J (srv i) v args q (conn_out c) HK) as
    (w & o & L & u & cu & s1 & sp2 & q' & p & e' & es & Hw & Hcmd & Hpl & Eloc & Hcu & Es & El & He' & Eoid & Ety & HL & Hbe & Hact & HK').
  exists (g_oid w), (g_kind w), o, L, u, cu, s1, sp2, q', p, e', es, (shown γ (S I)).
  split_and!; try done.
  - by apply ctx_text_nul.
  - eexists. rewrite (ln_id _ _ _ _ _ _ _ _ _ HK). by apply (go_own_oid _ _ (ln_grid _ _ _ _ _ _ _ _ _ HK)).
  - by rewrite HL.
  - by rewrite <-HR.
  - apply HK.
  - intros args' c' (S1 & S2 & S3 & S4). rewrite app_nil_r in S4. split; try done.
    + by rewrite S3.
    + by rewrite S2.
    + exists γ, (S I), J, q. rewrite S4. split_and!; try done. by rewrite Hbe, HH.
Qed.

Lemma wired_ids cnt H R s L m v :
  wired s L (λ _, joined E k cnt H R) → L !! m = Some v → vl_key v = k
  ∧ ∃ i c, nodes s !! m = Some i ∧ conns (hub s) !! m = Some c ∧ joined E k cnt H R i c v.
Proof using Type.
  intros Hw Hv. pose proof (lookup_lt_Some _ _ _ Hv) as Hlt. rewrite (wi_len _ _ _ Hw) in Hlt.
  destruct (lookup_lt_is_Some_2 _ _ Hlt) as [i Hi].
  destruct (wired_lookup _ _ _ _ _ Hw Hi) as (c & v' & Hc & Hv' & Hj). rewrite Hv in Hv'. injection Hv' as <-.
  split; [|by exists i, c]. destruct Hj as [_ _ _ _ (γ & I & J & up & _ & HK & _)]. apply HK.
Qed.

(** The master finds the space of the slave. *)
Lemma locate_space cnt H R s L n v :
  wired s L (λ _, joined E k cnt H R) → L !! n = Some v →
  locateVerlist (srv (hub s)) (vl_id v) k = Ret (Some n).
Proof using Type.
  intros Hw Hv. unfold locateVerlist. rewrite (wi_spaces _ _ _ Hw). cbn [list_of]. bind_red.
  destruct (wired_ids _ _ _ _ _ _ _ Hw Hv) as [Hk _].
  erewrite (proj2 (list_find_Some _ _ n v)); [done|]. split_and!; [done|done|by apply sdscmp_zero|].
  intros m v' Hv' Hlt [Hid _]. pose proof (wi_ports _ _ _ Hw) as Hnd.
  assert (m = n); [|lia]. apply (NoDup_lookup _ m n (vl_id v) Hnd); rewrite list_lookup_fmap, ?Hv', ?Hv; simpl; by rewrite ?Hid.
Qed.

(** The spaces of all slaves after the loop of the master. *)
Lemma saved_spaces cnt H R s L n v sp2 o kd o_id R' :
  wired s L (λ _, joined E k cnt H R) → L !! n = Some v → acts R o kd R' → (∃ m, is_oid (vl_id v) m o_id) →
  ∃ L', save_all o o_id k (vl_id v) (tlen E)
      (<[n := mk_verlist (vl_key v) (vl_id v) (vl_len_ufs v) sp2]> L) = Ret L'
    ∧ length L' = length L ∧ vl_id <$> L' = vl_id <$> L
    ∧ L' !! n = Some (mk_verlist (vl_key v) (vl_id v) (vl_len_ufs v) sp2)
    ∧ ∀ m x', m ≠ n → L' !! m = Some x' → ∃ x, L !! m = Some x ∧ save_op o o_id (tlen E) x = Ret x'.
Proof using Type.
  intros Hw Hv Hact [no Hoid]. set (v2 := mk_verlist (vl_key v) (vl_id v) (vl_len_ufs v) sp2).
  pose proof (lookup_lt_Some _ _ _ Hv) as Hlt.
  assert (∀ m x, m ≠ n → L !! m = Some x → vl_id x ≠ vl_id v) as Hne.
  { intros m x Hmn Hx Heq. apply Hmn. apply (NoDup_lookup _ m n (vl_id v) (wi_ports _ _ _ Hw));
      rewrite list_lookup_fmap, ?Hx, ?Hv; simpl; by rewrite ?Heq. }
  assert (∀ m x, m ≠ n → L !! m = Some x → ∃ x', save_op o o_id (tlen E) x = Ret x' ∧ vl_id x' = vl_id x) as Hso.
  { intros m x Hmn Hx. destruct (wired_ids _ _ _ _ _ _ _ Hw Hx) as (_ & i & c & _ & _ & Hj).
    destruct (joined_other cnt H R i c x o kd o_id R' Hj Hact) as (x' & Es & Eid & _); [|by exists x'].
    exists (vl_id v), no. split; [|done]. pose proof (Hne m x Hmn Hx). congruence. }
  destruct (save_all_forall o o_id k (vl_id v) (tlen E) (<[n := v2]> L)
    (λ x x', save_op o o_id (tlen E) x = Ret x' ∧ vl_id x' = vl_id x)) as (L' & ES & HF).
  { intros x (m & Hm)%list_elem_of_lookup _ Hid. destruct (decide (m = n)) as [->|Hmn].
    - rewrite list_lookup_insert_eq in Hm by done. injection Hm as <-. done.
    - rewrite list_lookup_insert_ne in Hm by done. destruct (Hso m x Hmn Hm) as (x' & ? & ?). by exists x'. }
  assert (L' !! n = Some v2) as Hn.
  { destruct (Forall2_lookup_l _ _ _ n v2 HF) as (x' & Hx' & _ & Hx); [by rewrite list_lookup_insert_eq|].
    rewrite Hx' , Hx; [done|by right]. }
  assert (∀ m x', m ≠ n → L' !! m = Some x' → ∃ x, L !! m = Some x ∧ save_op o o_id (tlen E) x = Ret x' ∧ vl_id x' = vl_id x) as Hm.
  { intros m x' Hmn Hx'. destruct (Forall2_lookup_r _ _ _ m x' HF Hx') as (x & Hx & HQ & _).
    rewrite list_lookup_insert_ne in Hx by done. exists x. split; [done|]. apply HQ; [|by apply (Hne m)].
    destruct (wired_ids _ _ _ _ _ _ _ Hw Hx) as [-> _]. apply streq_refl. }
  assert (length L' = length L) as Hlen by (rewrite <-(Forall2_length _ _ _ HF); by rewrite length_insert).
  exists L'. split_and!; try done.
  - apply list_eq. intros m. rewrite !list_lookup_fmap. destruct (decide (m = n)) as [->|Hmn]; [by rewrite Hn, Hv|].
    destruct (L' !! m) as [x'|] eqn:Hx'.
    + destruct (Hm m x' Hmn Hx') as (x & -> & _ & Hid). simpl. by rewrite Hid.
    + apply lookup_ge_None_1 in Hx'. rewrite (lookup_ge_None_2 L) by lia. done.
  - intros m x' Hmn Hx'. destruct (Hm m x' Hmn Hx') as (x & ? & ? & _). by exists x.
Qed.
Lemma sent_ids (l l' : list conn) args D :
  Forall2 (λ a b, sent_to a b args (D a)) l l' → conn_id <$> l' = conn_id <$> l.
Proof using Type. induction 1 as [|a b l l' (H & _) _ IH]; csimpl; [done|]. by rewrite H, IH. Qed.

Lemma sent_sum (l l' : list conn) args D :
  Forall2 (λ a b, sent_to a b args (D a)) l l' →
  sum_list_with out_len l' ≤ sum_list_with out_len l + length l.
Proof using Type.
  induction 1 as [|a b l l' (_ & _ & _ & H) _ IH]; simpl; [lia|].
  unfold out_len in *. rewrite H, length_app. destruct (D a); simpl; lia.
Qed.

(** What the master does with the command. *)
Lemma master_serves cnt H R s L n i c v args q :
  wired s L (λ _, joined E k cnt H R) → nodes s !! n = Some i → conns (hub s) !! n = Some c →
  L !! n = Some v → master_link i = Some (args :: q) →
  ∃ L' c' H' R', controlAlg (srv (hub s)) (mk_client args false (conn_port c) 0 []) =
      Ret (set_sspaces (srv (hub s)) L', c')
    ∧ flag_ufs c' = 1%Z ∧ length L' = length L ∧ vl_id <$> L' = vl_id <$> L
    ∧ ∀ m j d d' x', nodes s !! m = Some j → conns (hub s) !! m = Some d → L' !! m = Some x' →
        sent_to d d' (c_argv c') (bool_decide (m ≠ n)) →
        joined E k cnt H' R' (if decide (m = n) then set_link i q else j) d' x'.
Proof using Type.
  intros Hw Hi Hc Hv Hq. pose proof (wi_node _ _ _ Hw n i c v Hi Hc Hv) as Hj.
  assert (conn_port c = vl_id v) as Hport.
  { destruct Hj as [_ _ _ -> (γ & I & J & up & _ & HK & _)]. symmetry. apply HK. }
  set (cl := mk_client args false (conn_port c) 0 []).
  destruct (joined_own cnt H R i c v args q Hj Hq) as
    (o_id & kd & o & L0 & u & cu & s1 & sp2 & q' & p & e' & es & R' & Hcmd & Hnf & Hoid & Eloc & Hcu & Es & El
      & He' & Eoid & Ety & HL0 & Hact & Hlen & Hown).
  destruct (saved_spaces cnt H R s L n v sp2 (e_op e') kd o_id R' Hw Hv Hact Hoid)
    as (L' & Esave & Hl1 & Hl2 & Hl3 & Hl4).
  pose proof Hact as (vw & Hon & _).
  destruct (rewrite_server_spec (set_flag cl 1) k o_id (ctx_text L0) o (e_op e') R vw (ctx_text (L0 ++ es)))
    as (args' & Erw & Hsent); [done|done|done|].
  exists L', (set_argv (set_flag cl 1) args'), (o_id :: H), R'. split_and!; try done.
  - unfold controlAlg. rewrite (key_at cl args k eq_refl) by by destruct Hcmd. bind_red. rewrite (wi_master _ _ _ Hw).
    apply (server_process_eval (srv (hub s)) cl k L n v (ctx_text L0) u cu o o_id s1 sp2 q' p e' (ctx_text (L0 ++ es))); try done.
    + apply (wi_spaces _ _ _ Hw).
    + simpl. rewrite Hport. by eapply locate_space.
    + simpl. rewrite Hport. by rewrite <-Hlen in Esave.
  - intros m j d d' x' Hm Hd Hx' Hst. destruct (decide (m = n)) as [->|Hmn].
    + rewrite bool_decide_eq_false_2 in Hst by tauto. rewrite Hl3 in Hx'. injection Hx' as <-.
      rewrite Hc in Hd. injection Hd as <-. by eapply Hown.
    + rewrite bool_decide_eq_true_2 in Hst by done. destruct (Hl4 m x' Hmn Hx') as (x & Hx & Ex).
      pose proof (wi_node _ _ _ Hw m j d x Hm Hd Hx) as Hjm.
      destruct (joined_other cnt H R j d x (e_op e') kd o_id R' Hjm Hact) as (x'' & Ex' & _ & HJ).
      { destruct Hoid as [no Hoid]. exists (vl_id v), no. split; [|done]. intros Heq. apply Hmn.
        apply (NoDup_lookup _ m n (vl_id v) (wi_ports _ _ _ Hw)); rewrite list_lookup_fmap, ?Hx, ?Hv; simpl; by rewrite ?Heq. }
      rewrite Ex in Ex'. injection Ex' as <-.
      apply (HJ args' (L0 ++ es) (sent (e_op e'))); try done.
      destruct Hact as (vw' & Hon' & Hsim' & Hkd' & HR'). exists vw'. split_and!; try done. by apply sent_on.
Qed.

Lemma step_up cnt s n i c args q :
  sane E k cnt s → nodes s !! n = Some i → conns (hub s) !! n = Some c → master_link i = Some (args :: q) →
  ∃ s', step s (Up n) = Ret s' ∧ sane E k cnt s' ∧ pending s' < pending s.
Proof using Type.
  intros (L & H & R & Hw) Hi Hc Hq. cbn [step]. rewrite Hi, Hc, Hq.
  destruct (wired_lookup _ _ _ _ _ Hw Hi) as (c0 & v & Hc0 & Hv & Hj). rewrite Hc in Hc0. injection Hc0 as <-.
  set (cl := mk_client args false (conn_port c) 0 []).
  destruct (master_serves cnt H R s L n i c v args q Hw Hi Hc Hv Hq)
    as (L' & c' & H' & R' & Ec & Ef & Hl1 & Hl2 & HJ). fold cl in Ec.
  destruct (call_routed controlAlg (hub s) cl (conn_id c) true (set_sspaces (srv (hub s)) L') c')
    as (h & Ecall & [Rs Rl Rc Rr Rb]); [done|done|intros _; apply Hw|].
  rewrite (control_runs (hub s) cl (conn_id c) true h c'); [|right; right|done].
  2:{ destruct Hj as [_ _ _ _ (γ & I & J & up & Hup & HK & _)]. rewrite Hq in Hup. injection Hup as <-.
      destruct (ln_up _ _ _ _ _ _ _ _ _ HK) as [_ Hm]. destruct (Hm 0 args eq_refl) as (w & o & L0 & _ & _ & Hcmd & _).
      by eexists _, _, _, _. }
  bind_red. eexists. split; [done|].
  simpl in Rc. rewrite (wi_master _ _ _ Hw) in Rc. cbn [negb andb] in Rc.
  split.
  - exists L', H', R'. split; cbn [nodes hub].
    + by rewrite Rs; apply Hw.
    + by rewrite Rs.
    + apply Rb, Hw.
    + rewrite <-(Forall2_length _ _ _ Rc), length_insert. apply Hw.
    + rewrite Hl1, length_insert. apply Hw.
    + rewrite (sent_ids _ _ _ _ Rc). apply Hw.
    + rewrite Hl2. apply Hw.
    + intros m j' d' x' Hm Hd' Hx'. destruct (Forall2_lookup_r _ _ _ m d' Rc Hd') as (d & Hd & Hst).
      assert (m < length (nodes s)) as Hmlt by (apply lookup_lt_Some in Hm; by rewrite length_insert in Hm).
      destruct (lookup_lt_is_Some_2 _ _ Hmlt) as [j Hjm].
      assert (j' = if decide (m = n) then set_link i q else j) as ->.
      { destruct (decide (m = n)) as [->|Hmn].
        - rewrite list_lookup_insert_eq in Hm by done. congruence.
        - rewrite list_lookup_insert_ne in Hm by done. congruence. }
      apply (HJ m j d d' x' Hjm Hd Hx').
      destruct (wired_lookup _ _ _ _ _ Hw Hjm) as (d0 & x & Hd0 & Hx & [_ _ Hwt _ _]).
      rewrite Hd in Hd0. injection Hd0 as <-. rewrite Hwt in Hst.
      replace (bool_decide (m ≠ n)) with (negb (bool_decide (conn_id d = conn_id c)) && negb false); [done|].
      cbn [negb]. rewrite andb_true_r. rewrite <-bool_decide_not. apply bool_decide_ext.
      split; intros Hne Heq; apply Hne; [subst; congruence|].
      apply (NoDup_lookup _ m n (conn_id c) (wi_ids _ _ _ Hw)); rewrite list_lookup_fmap, ?Hd, ?Hc; simpl; by rewrite ?Heq.
  - unfold pending. cbn [nodes hub]. rewrite length_insert.
    pose proof (sum_insert up_len _ n i (set_link i q) Hi) as S1. pose proof (sent_sum _ _ _ _ Rc) as S2.
    rewrite (wi_conns _ _ _ Hw) in S2.
    assert (up_len i = S (up_len (set_link i q))) as Eu by (unfold up_len; by rewrite Hq). nia.
Qed.
End steps.
