(* ===== verification/Converge.v ===== *)
(** * Start, safety, convergence and termination of the replicated system

    [boot] creates an object: the command is given to the master, which passes
    it to all slaves.  From then on any sequence of commands of users and of
    deliveries runs without a fault; deliveries alone come to an end; and when
    nothing is under way all replicas show the same classes. *)
From S2P Require Import Prelude Sds Partition OtStr ClassText TextState OtUfs Graph UnionSplit GraphText Object Space Ladder Commands Query Control Replica Init Master Protocol Call Locate Grid Views Extend Link System.

(** ** The start *)

Definition blank_node (p : Z) : instance :=
  mk_inst (mk_server true p None 0 None None None) false false [] None [] (Some []).

Definition blank_hub (ports : list Z) : instance :=
  mk_inst (mk_server false 6379 None 0 None None (Some ports)) false false [] (Some [])
    (imap (λ n p, mk_conn (Z.of_nat n) p false false []) ports) None.

Definition boot (ports : list Z) (k text : bytes) : out net :=
  run (mk_net (blank_hub ports) (blank_node <$> ports))
    (Admin [str "uinit"; k; text] :: (Down <$> seq 0 (length ports))).

Lemma run_app s es1 es2 : run s (es1 ++ es2) = s' ← run s es1; run s' es2.
Proof.
  revert s. induction es1 as [|e es1 IH]; intros s; [done|]. simpl. destruct (step s e) as [s'|]; [|done].
  bind_red. apply IH.
Qed.

(** A grid with one state. *)
Definition single (R : prel) : grid := mk_grid (λ _ _, R) [] [].

Section top.
  Context (E : list bytes) (s : bytes) (R : prel).
  Context (Hok : text_ok s) (HE : concat (parse s) ≡ₚ E) (HR : rel_t s ≡ R).

Lemma top_labelled : labelled E (single R) [mk_vertice (Some s) None None] [(0, 0)].
Proof using All.
  split; [done|..].
  - intros [|n] p Hp; [|done]. injection Hp as <-. simpl. lia.
  - intros [|n] p Hp; [|done]. injection Hp as <-. by exists s.
  - intros d q e p. by rewrite top_edg.
Qed.

Lemma top_bare d : bare d [mk_vertice (Some s) None None] 0 [] 0.
Proof using Type. split_and!; [constructor; [simpl; lia|apply top_edg]|apply top_edg|done]. Qed.

Lemma top_slave : slave_view E (single R) [mk_vertice (Some s) None None] [(0, 0)] 0 0.
Proof using All.
  split; [apply top_labelled|done|done|split; apply top_edg|].
  exists 0, [], (0, 0). split_and!; [apply top_bare|done|simpl; lia|].
  constructor; [|done]. exists (0, 0), []. split; [done|constructor].
Qed.

Lemma top_master : master_view E (single R) [mk_vertice (Some s) None None] [(0, 0)] 0 0.
Proof using All.
  split; [apply top_labelled|done|done|split; apply top_edg|].
  exists 0, [], (0, 0), []. split_and!; [apply top_bare|done|simpl; lia|constructor].
Qed.
End top.

Lemma single_grid_ok port R : grid_ok port (single R).
Proof. split; simpl; intros; discriminate. Qed.

Section boot.
  Context (ports : list Z) (k : bytes) (P : list (list bytes)).
  Context (Hnd : NoDup ports) (Hrange : Forall (λ p, 0 ≤ p - 6379 < 10000)%Z ports).
  Context (Hk : nul_free k) (HP : part_ok P) (H2 : 2 ≤ length (concat P)).

Notation E := (concat P).
Notation args := [str "uinit"; k; render P].

(** The first slaves have created the object, the others have yet to. *)
Definition booting (s : bytes) (m : nat) (n : nat) (i : instance) (c : conn) (v : verlist) : Prop :=
  if decide (n < m) then joined E k 0 [] (rel_of P) i c v
  else i = blank_node (vl_id v) ∧ conn_wait c = false ∧ conn_port c = vl_id v ∧ conn_out c = [args]
    ∧ pristine E k s (vl_id v) v ∧ (0 ≤ vl_id v - 6379 < 10000)%Z.

Lemma uinit_runs i c id slave i' c' :
  c_argv c = args → call uinitCommand i c id slave CMD_CALL_FULL = Ret (i', c') →
  runs i c id slave = Ret i'.
Proof using Type.
  intros Ha Ec. clear -Ha Ec. unfold runs.
  rewrite (processCommand_run i c id slave (str "uinit") (str "uinit") 3 uinitCommand i' c'); try done.
  - unfold arg. by rewrite Ha.
  - rewrite Ha. simpl. lia.
Qed.

Lemma boot_hub :
  ∃ s L h, step (mk_net (blank_hub ports) (blank_node <$> ports)) (Admin args) = Ret (mk_net h (blank_node <$> ports))
    ∧ wired (mk_net h (blank_node <$> ports)) L (booting s 0)
    ∧ text_ok s ∧ concat (parse s) ≡ₚ E ∧ rel_t s ≡ rel_of P.
Proof using All.
  set (cl := mk_client args false 0 0 []).
  destruct (uinit_master_run (srv (blank_hub ports)) cl k P ports)
    as (st' & s & l & Eu & Em & Hss & Hl & Hok & HE & HR); try done. simpl in Hss.
  destruct (call_routed uinitCommand (blank_hub ports) cl 0 false st' (done_ok cl))
    as (h & Ecall & [Rs Rl Rc Rr Rb]); try done.
  rewrite Em in Rc. cbn [negb andb] in Rc. simpl in Rc.
  exists s, l, h. split.
  { cbn [step hub nodes]. fold cl. by rewrite (uinit_runs (blank_hub ports) cl 0 false h (done_ok cl)). }
  split; [|done].
  assert (vl_id <$> l = ports) as Hids.
  { clear -Hl. induction Hl as [|p v ports l -> _ IH]; csimpl; [done|]. by rewrite IH. }
  split; cbn [nodes hub].
  - by rewrite Rs.
  - by rewrite Rs.
  - by apply Rb.
  - by rewrite <-(Forall2_length _ _ _ Rc), length_imap, length_fmap.
  - by rewrite <-(Forall2_length _ _ _ Hl), length_fmap.
  - rewrite (sent_ids _ _ _ _ Rc). apply NoDup_alt. intros a b z.
    rewrite !list_lookup_fmap, !list_lookup_imap.
    destruct (ports !! a), (ports !! b); simpl; intros; simplify_eq. lia.
  - by rewrite Hids.
  - intros n i c v Hi Hc Hv. unfold booting. rewrite decide_False by lia.
    destruct (Forall2_lookup_r _ _ _ n c Rc Hc) as (c0 & Hc0 & S1 & S2 & S3 & S4).
    rewrite list_lookup_imap in Hc0. rewrite list_lookup_fmap in Hi.
    destruct (Forall2_lookup_r _ _ _ n v Hl Hv) as (p & Hp & Hpr). rewrite Hp in Hi, Hc0. simplify_eq/=.
    pose proof Hpr as ->. simpl. rewrite S4. split_and!; try done.
    all: rewrite Forall_lookup in Hrange; by apply (Hrange n).
Qed.

(** A slave creates the object. *)
Lemma boot_node st s v :
  st = srv (blank_node (vl_id v)) → pristine E k s (vl_id v) v → text_ok s → concat (parse s) ≡ₚ E →
  rel_t s ≡ rel_of P → (0 ≤ vl_id v - 6379 < 10000)%Z →
  ∃ st', uinitCommand st (mk_client args true 0 0 []) = Ret (st', done_ok (mk_client args true 0 0 []))
    ∧ masterhost st' = true ∧ port st' = vl_id v ∧ link E k (single (rel_of P)) 0 0 st' v [] [].
Proof using All.
  intros -> Hpr Hok HE HR Hr. destruct (uinit_slave_run (srv (blank_node (vl_id v))) (mk_client args true 0 0 []) k P)
    as (st' & g & t & Eu & Hco & Rg & Hop & Hport); try done.
  simpl in Hop, Hport. exists st'. split_and!; try done; [apply Hco|].
  pose proof Hco as [_ _ _ _ _ (t' & Hcur & Hag) _ _]. pose proof (cur_cont _ _ _ _ _ Hcur) as Ht. injection Ht as <-.
  destruct (current_text _ _ _ _ _ Hcur) as (_ & Okt & HEt). pose proof Hag as (_ & _ & Rag). simpl in Rag.
  split.
  - apply single_grid_ok.
  - by rewrite Hport.
  - done.
  - eexists _, _, g, _, _, 0, [(0, 0)]. split; [exact Hco|]. apply top_slave; try done. by rewrite <-Rag.
  - rewrite Hpr. simpl. by apply sdsnew_nul_free.
  - done.
  - by rewrite Hpr.
  - exists [(0, 0)], 0. rewrite Hpr. simpl. by apply top_master.
  - intros n w Hn. discriminate.
  - intros n w Hn. discriminate.
  - split; [done|]. intros m a Ha. discriminate.
  - split; [done|]. intros m a Ha. discriminate.
Qed.

Lemma boot_step s L m net :
  wired net L (booting s m) → m < length (nodes net) →
  text_ok s → concat (parse s) ≡ₚ E → rel_t s ≡ rel_of P →
  ∃ net', step net (Down m) = Ret net' ∧ wired net' L (booting s (S m)) ∧ length (nodes net') = length (nodes net).
Proof using All.
  intros Hw Hm Hok HE HR. destruct (lookup_lt_is_Some_2 _ _ Hm) as [i Hi].
  destruct (wired_lookup _ _ _ _ _ Hw Hi) as (c & v & Hc & Hv & HB). unfold booting in HB.
  rewrite decide_False in HB by lia. destruct HB as (-> & Hwt & Hport & Hout & Hpr & Hr).
  set (i := blank_node (vl_id v)) in *. set (cl := mk_client args true 0 0 []).
  destruct (boot_node (srv i) s v) as (st' & Eu & Em & Ep & HK); try done.
  destruct (call_routed uinitCommand i cl 0 false st' (done_ok cl)) as (i' & Ecall & [Rs Rl Rc Rr _]); try done.
  cbn [step]. rewrite Hi, Hc, Hout. fold cl. rewrite (uinit_runs i cl 0 false i' (done_ok cl)) by done. bind_red.
  eexists. split; [done|]. split; [|simpl; by rewrite length_insert].
  apply (wired_set net L (booting s m) (booting s (S m)) m c i' (with_out c []) Hw Hc eq_refl).
  - intros v' Hv'. rewrite Hv in Hv'. injection Hv' as <-. unfold booting. rewrite decide_True by lia. split.
    + by rewrite Rr.
    + by inversion Rc.
    + done.
    + by rewrite Rs, Ep.
    + exists (single (rel_of P)), 0, 0, []. rewrite Rs, Rl. rewrite Em. simpl. by split_and!.
  - intros n j d x Hn _. unfold booting. destruct (decide (n < m)), (decide (n < S m)); try done; lia.
Qed.

Lemma boot_ok :
  ∃ s, boot ports k (render P) = Ret s ∧ sane E k 0 s ∧ length (nodes s) = length ports.
Proof using All.
  destruct boot_hub as (s & L & h & Es & Hw & Hok & HE & HR). unfold boot. cbn [run]. rewrite Es. bind_red.
  assert (∀ m, m ≤ length ports → ∃ s', run (mk_net h (blank_node <$> ports)) (Down <$> seq 0 m) = Ret s'
    ∧ wired s' L (booting s m) ∧ length (nodes s') = length ports) as Hall.
  { induction m as [|m IH]; intros Hm.
    - eexists. split; [done|]. split; [done|]. simpl. by rewrite length_fmap.
    - destruct IH as (s1 & E1 & W1 & N1); [lia|].
      destruct (boot_step s L m s1) as (s2 & E2 & W2 & N2); try done; [lia|].
      exists s2. rewrite seq_S, fmap_app, run_app, E1. bind_red.
      change (Down <$> [0 + m]) with [Down m]. cbn [run]. rewrite E2. bind_red. split_and!; try done. lia. }
  destruct (Hall (length ports) (le_n _)) as (s' & E' & W' & N'). exists s'. split_and!; try done.
  exists L, [], (rel_of P). destruct W' as [? ? ? ? ? ? ? HQ]. split; try done.
  intros n i c v Hi Hc Hv. specialize (HQ n i c v Hi Hc Hv). unfold booting in HQ.
  apply lookup_lt_Some in Hi. by rewrite decide_True in HQ by lia.
Qed.
End boot.

(** ** Runs *)

(** Commands of users that the theorems cover: operations on single elements of
    the object, queries, and operations on unknown elements; deliveries are free. *)
Definition admissible (E : list bytes) (k : bytes) (e : event) : Prop :=
  match e with
  | Admin _ => False
  | User _ args => request E k args ∨ harmless E k args
  | Up _ | Down _ => True
  end.

Definition users (es : list event) : nat :=
  sum_list_with (λ e, match e with User _ _ => 1 | _ => 0 end) es.

(** A delivery that has something to deliver. *)
Definition ready (s : net) (e : event) : bool :=
  match e with
  | Up n =>
    match nodes s !! n, conns (hub s) !! n with
    | Some i, Some _ => match master_link i with Some (_ :: _) => true | _ => false end
    | _, _ => false
    end
  | Down n =>
    match nodes s !! n, conns (hub s) !! n with
    | Some _, Some c => match conn_out c with _ :: _ => true | [] => false end
    | _, _ => false
    end
  | _ => false
  end.

Definition deliveries (s : net) : list event :=
  filter (λ e, ready s e = true) ((Up <$> seq 0 (length (nodes s))) ++ (Down <$> seq 0 (length (nodes s)))).

(** Serving queues until all are empty. *)
Fixpoint drain (fuel : nat) (s : net) : out net :=
  match fuel with
  | 0 => Ret s
  | S fuel =>
    match deliveries s with
    | [] => Ret s
    | e :: _ => s' ← step s e; drain fuel s'
    end
  end.

(** The replica of an object on a server. *)
Definition shows (i : instance) (k : bytes) (R : prel) : Prop :=
  ∃ j g, getUfs (srv i) k = Ret (Some j) ∧ ufs_at (srv i) (Some j) = Ret g ∧ graph_ok g ∧ rel_g g ≡ R.

Lemma step_ready E k cnt s e :
  sane E k cnt s → ready s e = true →
  ∃ s', step s e = Ret s' ∧ sane E k cnt s' ∧ pending s' < pending s.
Proof.
  intros Hs Hr. destruct e as [|?|n|n]; [done|done|..]; simpl in Hr.
  - destruct (nodes s !! n) as [i|] eqn:Hi; [|done]. destruct (conns (hub s) !! n) as [c|] eqn:Hc; [|done].
    destruct (master_link i) as [[|args q]|] eqn:Hq; [done| |done]. by apply (step_up E k cnt s n i c args q).
  - destruct (nodes s !! n) as [i|] eqn:Hi; [|done]. destruct (conns (hub s) !! n) as [c|] eqn:Hc; [|done].
    destruct (conn_out c) as [|args q] eqn:Hq; [done|]. by apply (step_down E k cnt s n i c args q).
Qed.

(** A delivery without anything to deliver changes nothing. *)
Lemma step_idle s e :
  match e with Up _ | Down _ => True | _ => False end → ready s e = false → step s e = Ret s.
Proof.
  intros He Hr. destruct e as [|?|n|n]; [done|done|..]; simpl in Hr |- *;
    destruct (nodes s !! n) as [i|]; try done; destruct (conns (hub s) !! n) as [c|]; try done.
  - by destruct (master_link i) as [[|args q]|].
  - by destruct (conn_out c).
Qed.

Lemma step_admissible E k cnt s e :
  sane E k cnt s → admissible E k e → (Z.of_nat cnt < 9999)%Z ∨ users [e] = 0 →
  ∃ s', step s e = Ret s' ∧ sane E k (cnt + users [e]) s'.
Proof.
  intros Hs Ha Hcnt.
  assert (match e with Up _ | Down _ => True | _ => False end →
    ∃ s', step s e = Ret s' ∧ sane E k cnt s') as Hd.
  { intros He. destruct (ready s e) eqn:Hr.
    - destruct (step_ready E k cnt s e Hs Hr) as (s' & ? & ? & _). by exists s'.
    - exists s. split; [by apply step_idle|done]. }
  destruct e as [args|n args|n|n]; [done| |..]; unfold users; simpl; rewrite ?Nat.add_0_r; [|by apply Hd..].
  rewrite Nat.add_1_r. destruct Ha as [Ha|Ha].
  - destruct Hcnt as [Hcnt|Hcnt]; [|done]. by apply step_user.
  - exists s. split; [by apply (step_harmless E k cnt)|]. destruct Hs as (L & H & R & Hw). exists L, H, R.
    destruct Hw as [? ? ? ? ? ? ? HQ]. split; try done. intros m i c v ? ? ?.
    apply (joined_le E k cnt); [lia|]. by apply (HQ m).
Qed.

Lemma run_admissible E k es : ∀ cnt s,
  sane E k cnt s → Forall (admissible E k) es → (Z.of_nat (cnt + users es) < 10000)%Z →
  ∃ s', run s es = Ret s' ∧ sane E k (cnt + users es) s'.
Proof.
  induction es as [|e es IH]; intros cnt s Hs Ha Hc; [exists s; simpl; by rewrite Nat.add_0_r|].
  apply Forall_cons in Ha as [He Ha].
  assert (users (e :: es) = users [e] + users es) as Eu.
  { change (e :: es) with ([e] ++ es). unfold users. by rewrite sum_list_with_app. }
  rewrite Eu in *. destruct (step_admissible E k cnt s e Hs He) as (s1 & E1 & S1).
  { destruct (users [e]) eqn:Eq; [by right|left; lia]. }
  destruct (IH (cnt + users [e]) s1 S1 Ha) as (s2 & E2 & S2); [lia|].
  exists s2. cbn [run]. rewrite E1. bind_red. split; [done|]. by rewrite Nat.add_assoc.
Qed.

(** *** Quiet systems *)

Lemma quiet_spec s :
  quiet s = true ↔ (∀ i, i ∈ nodes s → master_link i = Some []) ∧ (∀ c, c ∈ conns (hub s) → conn_out c = []).
Proof.
  unfold quiet. rewrite andb_true_iff, !forallb_forall.
  split; intros [H1 H2]; split; intros x Hx; specialize (H1 x) || specialize (H2 x).
  - apply (bool_decide_eq_true_1 _), H1. by apply list_elem_of_In.
  - apply (bool_decide_eq_true_1 _). apply H2. by apply list_elem_of_In.
  - apply bool_decide_eq_true_2, H1. by apply list_elem_of_In.
  - apply bool_decide_eq_true_2. apply H2. by apply list_elem_of_In.
Qed.

Lemma deliveries_ready s e : e ∈ deliveries s → ready s e = true.
Proof. unfold deliveries. by intros [? _]%list_elem_of_filter. Qed.

(** A system that has nothing to deliver is quiet. *)
Lemma idle_quiet E k cnt s : sane E k cnt s → deliveries s = [] → quiet s = true.
Proof.
  intros (L & H & R & Hw) Hd.
  assert (∀ n, n < length (nodes s) → ready s (Up n) = false ∧ ready s (Down n) = false) as Hn.
  { intros n Hn. split; apply not_true_iff_false; intros Hr.
    - cut (Up n ∈ deliveries s); [by rewrite Hd; apply not_elem_of_nil|].
      apply list_elem_of_filter. split; [done|]. apply elem_of_app. left. apply list_elem_of_fmap_2, elem_of_seq. lia.
    - cut (Down n ∈ deliveries s); [by rewrite Hd; apply not_elem_of_nil|].
      apply list_elem_of_filter. split; [done|]. apply elem_of_app. right. apply list_elem_of_fmap_2, elem_of_seq. lia. }
  apply quiet_spec. split.
  - intros i (n & Hi)%list_elem_of_lookup. destruct (Hn n (lookup_lt_Some _ _ _ Hi)) as [Hu _].
    destruct (wired_lookup _ _ _ _ _ Hw Hi) as (c & v & Hc & _ & [_ _ _ _ (γ & I & J & up & Hup & _)]).
    simpl in Hu. rewrite Hi, Hc, Hup in Hu. rewrite Hup. by destruct up.
  - intros c (n & Hc)%list_elem_of_lookup. pose proof (lookup_lt_Some _ _ _ Hc) as Hlt.
    rewrite (wi_conns _ _ _ Hw) in Hlt. destruct (lookup_lt_is_Some_2 _ _ Hlt) as [i Hi].
    destruct (Hn n Hlt) as [_ Hu]. simpl in Hu. rewrite Hi, Hc in Hu. by destruct (conn_out c).
Qed.

Lemma drain_spec E k cnt fuel : ∀ s,
  sane E k cnt s → pending s ≤ fuel → ∃ s', drain fuel s = Ret s' ∧ sane E k cnt s' ∧ quiet s' = true.
Proof.
  induction fuel as [|fuel IH]; intros s Hs Hf; simpl; destruct (deliveries s) as [|e es] eqn:Ed;
    try (exists s; split_and!; [done|done|by eapply idle_quiet]).
  - destruct (step_ready E k cnt s e Hs) as (s' & _ & _ & Hlt); [apply deliveries_ready; rewrite Ed; by left|lia].
  - destruct (step_ready E k cnt s e Hs) as (s' & E' & Hs' & Hlt); [apply deliveries_ready; rewrite Ed; by left|].
    rewrite E'. bind_red. apply IH; [done|lia].
Qed.

(** In a quiet system all replicas show what the master shows. *)
Lemma quiet_agree E k cnt s :
  sane E k cnt s → quiet s = true → ∃ R, ∀ i, i ∈ nodes s → shows i k R.
Proof.
  intros (L & H & R & Hw) [Hq1 Hq2]%quiet_spec. exists R. intros i Hin.
  pose proof Hin as (n & Hi)%list_elem_of_lookup.
  destruct (wired_lookup _ _ _ _ _ Hw Hi) as (c & v & Hc & _ & [_ _ _ _ (γ & I & J & up & Hup & HK & HR & _)]).
  rewrite (Hq1 i Hin) in Hup. injection Hup as <-.
  rewrite (Hq2 c) in HK by by eapply list_elem_of_lookup_2.
  destruct (ln_slave _ _ _ _ _ _ _ _ _ HK) as (a & j & g & sp & es & q & pos & Hco & Hv).
  destruct (ln_up _ _ _ _ _ _ _ _ _ HK) as [HI _], (ln_down _ _ _ _ _ _ _ _ _ HK) as [HJ _].
  simpl in HI, HJ. rewrite Nat.add_0_r in HI, HJ.
  exists j, g. split_and!; [apply Hco|apply Hco|by eapply co_graph_ok|].
  destruct (slave_shows E γ (srv i) k a j g sp es q pos J Hco Hv) as [Rg _].
  rewrite Rg, <-HR. unfold shown. by rewrite <-HI, <-HJ.
Qed.

(** ** Properties *)

Section properties.
  Context (ports : list Z) (k : bytes) (P : list (list bytes)) (es : list event).

(** The scope of the theorems: what they assume of the start and of the commands
    of users.  [boot] adds that the slaves accept writes (slave-read-only no),
    that all of them are connected before the object is created, and that there
    is no other object; a run has no event that loses a connection.  Outside the
    scope the code behaves differently: a group split against a union of one of
    its members diverges ([OtUfs.v]), a group with an unknown first member and a
    find of an unknown element read out of bounds, the 10000th operation of a
    slave overflows the buffer of its identifier, UNION in capitals is recorded
    as a split, and a read-only slave keeps its operations to itself. *)
Record setting : Prop := {
  (** the slaves listen on different ports, *)
  se_ports : NoDup ports;
  (** from 6379 to 16378, *)
  se_range : Forall (λ p, 0 ≤ p - 6379 < 10000)%Z ports;
  se_key : nul_free k;
  (** the text of the object is well formed, *)
  se_text : part_ok P;
  (** with at least two elements, *)
  se_two : 2 ≤ length (concat P);
  (** the commands of users are unions and splits of single elements, in lower
      case, finds of elements of the object and umembers, all on slaves, *)
  se_events : Forall (admissible (concat P) k) es;
  (** and there are fewer than 10000 of them. *)
  se_count : (Z.of_nat (users es) < 10000)%Z;
}.

Lemma setting_runs :
  setting → ∃ s0 s, boot ports k (render P) = Ret s0 ∧ run s0 es = Ret s
    ∧ sane (concat P) k (users es) s ∧ length (nodes s0) = length ports.
Proof.
  intros [H1 H2 H3 H4 H5 H6 H7].
  destruct (boot_ok ports k P) as (s0 & E0 & S0 & N0); try done.
  destruct (run_admissible (concat P) k es 0 s0 S0 H6) as (s & Er & Hs); [done|].
  by exists s0, s.
Qed.
End properties.

Lemma step_nodes s e s' : step s e = Ret s' → length (nodes s') = length (nodes s).
Proof.
  destruct e as [args|n args|n|n]; simpl.
  - destruct (runs _ _ _ _); intros; by simplify_eq/=.
  - destruct (nodes s !! n); [|by intros [= <-]]. destruct (runs _ _ _ _); intros; simplify_eq/=. by rewrite length_insert.
  - destruct (nodes s !! n) as [i|], (conns (hub s) !! n) as [c|]; try by intros [= <-].
    destruct (master_link i) as [[|? ?]|]; try by intros [= <-].
    destruct (runs _ _ _ _); intros; simplify_eq/=. by rewrite length_insert.
  - destruct (nodes s !! n) as [i|], (conns (hub s) !! n) as [c|]; try by intros [= <-].
    destruct (conn_out c) as [|? ?]; try by intros [= <-].
    destruct (runs _ _ _ _); intros; simplify_eq/=. by rewrite length_insert.
Qed.

Lemma run_nodes es : ∀ s s', run s es = Ret s' → length (nodes s') = length (nodes s).
Proof.
  induction es as [|e es IH]; intros s s'; cbn [run]; [by intros [= <-]|].
  destruct (step s e) as [s1|] eqn:E1; [|done]. bind_red. intros H. by rewrite (IH s1 s' H), (step_nodes s e s1 E1).
Qed.

(** C2: no run in the scope of [setting] faults: after an object of at least two
    elements has been created on a master and its writable slaves, any sequence of
    fewer than 10000 unions and splits of single elements (known or not), finds of
    known elements and umembers of users on the slaves, interleaved in any way with
    the deliveries of commands between slaves and master, is processed on all
    servers without running into an error. *)
Theorem system_safe ports k P es :
  setting ports k P es →
  ∃ s0 s, boot ports k (render P) = Ret s0 ∧ run s0 es = Ret s ∧ length (nodes s) = length ports.
Proof.
  intros Hset. destruct (setting_runs ports k P es Hset) as (s0 & s & E0 & Er & _ & Hn).
  exists s0, s. split_and!; try done. by rewrite (run_nodes es s0 s Er).
Qed.

(** Two slaves: one unites a and c while the other splits a off. *)
Definition events1 : list event :=
  [User 0 [str "union"; str "a"; str "c"; str "u1"]; User 1 [str "split"; str "a"; str "u1"];
   Up 1; Up 0; Down 0; User 0 [str "union"; str "a"; str "d"; str "u1"]; Down 1; Up 0; Down 1].

Lemma setting1 : setting [6380%Z; 6381%Z] (str "u1") text1 events1.
Proof.
  split; [concrete|repeat constructor; lia|unfold nul_free; concrete|concrete|simpl; lia| |by vm_compute].
  unfold events1. repeat (apply Forall_cons; split); try exact I; try apply Forall_nil_2;
    left; (apply req_union || apply req_split); concrete.
Qed.

Lemma system_safe_witness :
  ∃ s0 s, boot [6380%Z; 6381%Z] (str "u1") (render text1) = Ret s0 ∧ run s0 events1 = Ret s.
Proof.
  destruct (system_safe [6380%Z; 6381%Z] (str "u1") text1 events1 setting1) as (s0 & s & E0 & E1 & _).
  exists s0, s. split; [exact E0|exact E1].
Defined.

(** C1: convergence in the scope of [setting] (writable slaves on ports 6379 to
    16378, one object of at least two elements, fewer than 10000 commands, unions
    and splits of single elements only): whenever no command is under way, all
    slaves show the same classes, whatever these commands were and in whatever
    order they arrived. *)
Theorem system_converges ports k P es s0 s :
  setting ports k P es → boot ports k (render P) = Ret s0 → run s0 es = Ret s → quiet s = true →
  ∃ R, ∀ i, i ∈ nodes s → shows i k R.
Proof.
  intros Hset E0 Er Hq. destruct (setting_runs ports k P es Hset) as (t0 & t & F0 & Fr & Hs & _).
  rewrite E0 in F0. injection F0 as <-. rewrite Er in Fr. injection Fr as <-. by eapply quiet_agree.
Qed.

Definition net_of (m : out net) : net :=
  match m with Ret s => s | Fail _ => mk_net (blank_hub []) [] end.
Definition start1 : net := net_of (boot [6380%Z; 6381%Z] (str "u1") (render text1)).
Definition final1 : net := net_of (run start1 events1).

Lemma start1_boot : boot [6380%Z; 6381%Z] (str "u1") (render text1) = Ret start1.
Proof. vm_compute. reflexivity. Qed.

Lemma final1_run : run start1 events1 = Ret final1.
Proof. vm_compute. reflexivity. Qed.

Lemma system_converges_witness :
  quiet final1 = true ∧ ∃ R, ∀ i, i ∈ nodes final1 → shows i (str "u1") R.
Proof.
  assert (quiet final1 = true) as Hq by (vm_compute; reflexivity). split; [exact Hq|].
  exact (system_converges [6380%Z; 6381%Z] (str "u1") text1 events1 start1 final1 setting1 start1_boot final1_run Hq).
Defined.

(** ** Termination *)

(** Every event of the sequence delivers something when its turn comes. *)
Fixpoint all_ready (s : net) (ds : list event) : Prop :=
  match ds with
  | [] => True
  | e :: ds => ready s e = true ∧ ∃ s', step s e = Ret s' ∧ all_ready s' ds
  end.

Lemma all_ready_bound E k cnt ds : ∀ s,
  sane E k cnt s → all_ready s ds → length ds ≤ pending s.
Proof.
  induction ds as [|e ds IH]; intros s Hs; simpl; [lia|]. intros (Hr & s' & E' & Hd).
  destruct (step_ready E k cnt s e Hs Hr) as (s1 & E1 & S1 & Hlt). rewrite E' in E1. injection E1 as <-.
  specialize (IH s' S1 Hd). lia.
Qed.

(** C4: deliveries come to an end in any order: from any state a run in the scope
    of [setting] can reach, no sequence of deliveries is longer than [pending], and
    a state in which nothing can be delivered is quiet. *)
Theorem deliveries_terminate ports k P es s0 s ds :
  setting ports k P es → boot ports k (render P) = Ret s0 → run s0 es = Ret s → all_ready s ds →
  length ds ≤ pending s ∧ (deliveries s = [] → quiet s = true).
Proof.
  intros Hset E0 Er Hd. destruct (setting_runs ports k P es Hset) as (t0 & t & F0 & Fr & Hs & _).
  rewrite E0 in F0. injection F0 as <-. rewrite Er in Fr. injection Fr as <-.
  split; [by eapply all_ready_bound|by eapply idle_quiet].
Qed.

(** The commands of both users are under way. *)
Definition busy1 : net := net_of (run start1 (take 2 events1)).

Lemma busy1_run : run start1 (take 2 events1) = Ret busy1.
Proof. vm_compute. reflexivity. Qed.

Lemma setting_take n ports k P es : setting ports k P es → setting ports k P (take n es).
Proof.
  intros [? ? ? ? ? He Hc]. split; try done; [by apply Forall_take|].
  assert (users (take n es) ≤ users es); [|lia].
  rewrite <-(take_drop n es) at 2. unfold users. rewrite sum_list_with_app. lia.
Qed.

Lemma deliveries_terminate_witness :
  all_ready busy1 [Up 0; Up 1; Down 0; Down 1] ∧ length [Up 0; Up 1; Down 0; Down 1] ≤ pending busy1.
Proof.
  assert (all_ready busy1 [Up 0; Up 1; Down 0; Down 1]) as Hr.
  { cbn [all_ready]. do 4 (split; [vm_compute; reflexivity|]; eexists; split; [vm_compute; reflexivity|]). exact I. }
  split; [exact Hr|].
  destruct (deliveries_terminate [6380%Z; 6381%Z] (str "u1") text1 (take 2 events1) start1 busy1
    [Up 0; Up 1; Down 0; Down 1] (setting_take 2 _ _ _ _ setting1) start1_boot busy1_run Hr) as [Hl _].
  exact Hl.
Defined.

(** C3: a system in the scope of [setting] can always be brought to rest: serving
    the queues of a state that such a run has reached, at most [pending] times,
    leads to a quiet state in which all slaves show the same classes. *)
Theorem system_drains ports k P es s0 s :
  setting ports k P es → boot ports k (render P) = Ret s0 → run s0 es = Ret s →
  ∃ s' R, drain (pending s) s = Ret s' ∧ quiet s' = true ∧ ∀ i, i ∈ nodes s' → shows i k R.
Proof.
  intros Hset E0 Er. destruct (setting_runs ports k P es Hset) as (t0 & t & F0 & Fr & Hs & _).
  rewrite E0 in F0. injection F0 as <-. rewrite Er in Fr. injection Fr as <-.
  destruct (drain_spec _ _ _ (pending s) s Hs (le_n _)) as (s' & Ed & Hs' & Hq).
  destruct (quiet_agree _ _ _ _ Hs' Hq) as (R & HR). by exists s', R.
Qed.

Lemma system_drains_witness :
  ∃ s' R, drain (pending busy1) busy1 = Ret s' ∧ quiet s' = true ∧ ∀ i, i ∈ nodes s' → shows i (str "u1") R.
Proof.
  exact (system_drains [6380%Z; 6381%Z] (str "u1") text1 (take 2 events1) start1 busy1
    (setting_take 2 _ _ _ _ setting1) start1_boot busy1_run).
Defined.
