(* ===== verification/Util.v ===== *)
(** * Numbers as text

    The conversions of src/src/util.c the protocol uses: [digits10], [ll2string]
    (two digits at a time from a table, into a buffer) and the strict parser
    [string2ll].  The theorems compare them with plain decimal notation [fmt]. *)
From Stdlib Require Import Ascii.
From S2P Require Import Prelude Sds GraphText Locate.

Definition ULLONG_MAX : Z := 2 ^ 64 - 1.
Definition LLONG_MAX : Z := 2 ^ 63 - 1.
Definition LLONG_MIN : Z := - 2 ^ 63.
Definition u64 (x : Z) : Z := x mod 2 ^ 64.
Definition u32 (x : Z) : Z := x mod 2 ^ 32.

(** ** Counting digits *)

Fixpoint digits10_loop (fuel : nat) (v : Z) : out Z :=
  if bool_decide (v < 10)%Z then Ret 1%Z
  else if bool_decide (v < 100)%Z then Ret 2%Z
  else if bool_decide (v < 1000)%Z then Ret 3%Z
  else if bool_decide (v < 1000000000000)%Z then
    if bool_decide (v < 100000000)%Z then
      if bool_decide (v < 1000000)%Z then
        if bool_decide (v < 10000)%Z then Ret 4%Z
        else Ret (5 + Z.b2z (bool_decide (v >= 100000)))%Z
      else Ret (7 + Z.b2z (bool_decide (v >= 10000000)))%Z
    else if bool_decide (v < 10000000000)%Z then Ret (9 + Z.b2z (bool_decide (v >= 1000000000)))%Z
    else Ret (11 + Z.b2z (bool_decide (v >= 100000000000)))%Z
  else
    match fuel with
    | 0 => Fail OutOfFuel
    | S fuel => n ← digits10_loop fuel (v / 1000000000000)%Z; Ret (12 + n)%Z
    end.

(** A 64 bit number is divided at most once. *)
Definition digits10 (v : Z) : out Z := digits10_loop 1 v.

Definition sdigits10 (v : Z) : out Z :=
  if bool_decide (v < 0)%Z then
    let uv := if bool_decide (v ≠ LLONG_MIN) then (- v)%Z else (LLONG_MAX + 1)%Z in
    n ← digits10 uv; Ret (n + 1)%Z
  else digits10 v.

(** ** Printing *)

Definition digit_pairs : bytes :=
  str "0001020304050607080910111213141516171819" ++
  str "2021222324252627282930313233343536373839" ++
  str "4041424344454647484950515253545556575859" ++
  str "6061626364656667686970717273747576777879" ++
  str "8081828384858687888990919293949596979899".

Definition pair_at (i : Z) : out ascii :=
  match digit_pairs !! Z.to_nat i with Some c => Ret c | None => Fail OutOfBounds end.

(** [dst[i] = c;] *)
Definition put (dst : bytes) (i : Z) (c : ascii) : out bytes :=
  if bool_decide (0 ≤ i < Z.of_nat (length dst))%Z then Ret (<[Z.to_nat i := c]> dst) else Fail OutOfBounds.

(** The loop over pairs of digits, and the last one or two. *)
Fixpoint ll_pairs (fuel : nat) (dst : bytes) (value next : Z) : out (bytes * Z * Z) :=
  if bool_decide (value >= 100)%Z then
    match fuel with
    | 0 => Fail OutOfFuel
    | S fuel =>
      let i := (value mod 100 * 2)%Z in
      let value := (value / 100)%Z in
      d1 ← pair_at (i + 1)%Z; dst ← put dst next d1;
      d0 ← pair_at i; dst ← put dst (u32 (next - 1)) d0;
      ll_pairs fuel dst value (u32 (next - 2))
    end
  else Ret (dst, value, next).

Definition ll_last (dst : bytes) (value next : Z) : out bytes :=
  if bool_decide (value < 10)%Z then put dst next (ascii_of_nat (48 + Z.to_nat value))
  else
    let i := (value * 2)%Z in
    d1 ← pair_at (i + 1)%Z; dst ← put dst next d1;
    d0 ← pair_at i; put dst (u32 (next - 1)) d0.

(** The buffer and the number of characters, 0 when the buffer is too small. *)
Definition ll2string (dst : bytes) (dstlen svalue : Z) : out (bytes * Z) :=
  let negative := bool_decide (svalue < 0)%Z in
  let value := if negative then (if bool_decide (svalue ≠ LLONG_MIN) then (- svalue)%Z else (LLONG_MAX + 1)%Z)
               else svalue in
  n ← digits10 value;
  let length := u32 (n + Z.b2z negative) in
  if bool_decide (length >= dstlen)%Z then Ret (dst, 0%Z)
  else
    dst ← put dst length NUL;
    '(dst, value, next) ← ll_pairs 10 dst value (u32 (length - 1));
    dst ← ll_last dst value next;
    dst ← (if negative then put dst 0 "-"%char else Ret dst);
    Ret (dst, length).

(** ** Parsing *)

Definition is_digit (c : ascii) : bool := bool_decide (48 ≤ nat_of_ascii c ∧ nat_of_ascii c ≤ 57).

(** The loop over digits: the value and what is left, or overflow. *)
Fixpoint ll_scan (p : bytes) (v : Z) : option (Z * bytes) :=
  match p with
  | [] => Some (v, [])
  | c :: q =>
    if is_digit c then
      if bool_decide (v > ULLONG_MAX / 10)%Z then None
      else
        let v := u64 (v * 10) in
        if bool_decide (v > ULLONG_MAX - dval c)%Z then None
        else ll_scan q (u64 (v + dval c))
    else Some (v, p)
  end.

(** [string2ll(s,slen,&value)]: the value when it returns 1. *)
Definition string2ll (s : bytes) : option Z :=
  match s with
  | [] => None
  | c0 :: s0 =>
    if bool_decide (length s = 1 ∧ c0 = "0"%char) then Some 0%Z
    else
      let negative := bool_decide (c0 = "-"%char) in
      match (if negative then s0 else s) with
      | [] => None
      | c :: p =>
        if is_digit c && negb (bool_decide (c = "0"%char)) then
          match ll_scan p (dval c) with
          | Some (v, []) =>
            if negative then if bool_decide (v > LLONG_MAX + 1)%Z then None else Some (- v)%Z
            else if bool_decide (v > LLONG_MAX)%Z then None else Some v
          | _ => None
          end
        else if bool_decide (c = "0"%char ∧ length s = 1) then Some 0%Z
        else None
      end
  end.

Definition string2l (s : bytes) : option Z :=
  match string2ll s with
  | Some v => if bool_decide (v < LLONG_MIN ∨ v > LLONG_MAX)%Z then None else Some v
  | None => None
  end.

(** ** Decimal notation *)

Definition dig (k : Z) : ascii := ascii_of_nat (48 + Z.to_nat k).

Fixpoint dec_loop (fuel : nat) (v : Z) : bytes :=
  match fuel with
  | 0 => []
  | S fuel => if bool_decide (v < 10)%Z then [dig v] else dec_loop fuel (v / 10) ++ [dig (v mod 10)]
  end.

(** The digits of a natural number, without leading zeros. *)
Definition dec (v : Z) : bytes := dec_loop (S (Z.to_nat (Z.log2 v))) v.

(** A number with its sign. *)
Definition fmt (v : Z) : bytes := if bool_decide (v < 0)%Z then "-"%char :: dec (- v) else dec v.

Lemma log2_tenth v : (10 ≤ v)%Z → (Z.log2 (v / 10) < Z.log2 v)%Z.
Proof.
  intros Hv. pose proof (Z.div_le_lower_bound v 10 1 ltac:(lia) ltac:(lia)) as H1.
  pose proof (Z.mul_div_le v 10 ltac:(lia)) as H2.
  assert (Z.log2 (2 * (v / 10)) ≤ Z.log2 v)%Z as H3 by (apply Z.log2_le_mono; lia).
  rewrite Z.log2_double in H3 by lia. lia.
Qed.

Lemma dec_loop_enough f1 f2 v :
  (Z.log2 v < Z.of_nat f1)%Z → (Z.log2 v < Z.of_nat f2)%Z → dec_loop f1 v = dec_loop f2 v.
Proof.
  revert f2 v. induction f1 as [|f1 IH]; intros f2 v H1 H2; [pose proof (Z.log2_nonneg v); lia|].
  destruct f2 as [|f2]; [pose proof (Z.log2_nonneg v); lia|]. simpl. case_bool_decide as Hv; [done|].
  pose proof (log2_tenth v ltac:(lia)) as Hlt.
  f_equal. apply IH; lia.
Qed.

Lemma dec_small v : (0 ≤ v < 10)%Z → dec v = [dig v].
Proof. intros H. unfold dec. simpl. by rewrite bool_decide_eq_true_2 by lia. Qed.

Lemma dec_step v : (10 ≤ v)%Z → dec v = dec (v / 10) ++ [dig (v mod 10)].
Proof.
  intros H. unfold dec at 1. cbn [dec_loop]. rewrite bool_decide_eq_false_2 by lia. f_equal.
  pose proof (log2_tenth v ltac:(lia)) as Hlt.
  apply dec_loop_enough; pose proof (Z.log2_nonneg v); pose proof (Z.log2_nonneg (v / 10)); lia.
Qed.

(** Induction over the digits of a number. *)
Lemma dec_ind (Q : Z → Prop) :
  (∀ v, (0 ≤ v < 10)%Z → Q v) → (∀ v, (10 ≤ v)%Z → Q (v / 10)%Z → Q v) → ∀ v, (0 ≤ v)%Z → Q v.
Proof.
  intros H1 H2 v Hv. remember (Z.to_nat v) as n eqn:En. revert v Hv En.
  induction n as [n IH] using lt_wf_ind. intros v Hv ->.
  destruct (decide (v < 10)%Z); [apply H1; lia|]. apply H2; [lia|].
  pose proof (Z.div_lt v 10 ltac:(lia) ltac:(lia)). pose proof (Z.div_pos v 10 ltac:(lia) ltac:(lia)).
  apply (IH (Z.to_nat (v / 10))); lia.
Qed.

Notation digit c := (0 ≤ dval c ≤ 9)%Z.

Lemma dval_dig k : (0 ≤ k < 10)%Z → dval (dig k) = k.
Proof.
  intros Hk. assert (Z.to_nat k < 10) as Hn by lia. unfold dig.
  rewrite <-(Z2Nat.id k) at 2 by lia. generalize dependent (Z.to_nat k). clear.
  intros n Hn. do 10 (destruct n as [|n]; [done|]). lia.
Qed.

Lemma dig_dval c : digit c → dig (dval c) = c.
Proof. intros H. destruct c as [[] [] [] [] [] [] [] []]; vm_compute in H |- *; (reflexivity || (exfalso; naive_solver)). Qed.

Lemma is_digit_iff c : is_digit c = true ↔ digit c.
Proof. destruct c as [[] [] [] [] [] [] [] []]; vm_compute; naive_solver. Qed.

Lemma dec_digits v : (0 ≤ v)%Z → Forall (λ c, digit c) (dec v).
Proof.
  revert v. apply dec_ind; intros v Hv.
  - rewrite dec_small by done. constructor; [|done]. rewrite dval_dig; lia.
  - intros IH. rewrite dec_step by done. apply Forall_app. split; [done|]. constructor; [|done].
    pose proof (Z.mod_pos_bound v 10 ltac:(lia)). rewrite dval_dig; lia.
Qed.

Lemma dec_decimal v : (0 ≤ v)%Z → decimal (dec v) = v.
Proof.
  revert v. apply dec_ind; intros v Hv.
  - rewrite dec_small by done. unfold decimal. simpl. rewrite dval_dig; lia.
  - intros IH. rewrite dec_step by done. rewrite decimal_app, IH. unfold decimal. simpl.
    pose proof (Z.mod_pos_bound v 10 ltac:(lia)). rewrite dval_dig by lia.
    pose proof (Z.div_mod v 10 ltac:(lia)). lia.
Qed.

(** The first digit is zero for zero only. *)
Lemma dec_head v : (1 ≤ v)%Z → ∃ c s, dec v = c :: s ∧ (1 ≤ dval c)%Z.
Proof.
  intros Hv. assert (0 ≤ v)%Z as H0 by lia. revert v H0 Hv.
  apply (dec_ind (λ v, 1 ≤ v → ∃ c s, dec v = c :: s ∧ (1 ≤ dval c))%Z); intros v Hv.
  - intros H1. rewrite dec_small by done. eexists _, _. split; [done|]. rewrite dval_dig; lia.
  - intros IH _. destruct IH as (c & s & E & Hc); [apply Z.div_le_lower_bound; lia|].
    rewrite dec_step, E by done. by exists c, (s ++ [dig (v mod 10)]).
Qed.

Lemma decimal_one c : decimal [c] = dval c.
Proof. unfold decimal. simpl. lia. Qed.

Lemma decimal_snoc s c : decimal (s ++ [c]) = (10 * decimal s + dval c)%Z.
Proof. rewrite decimal_app, decimal_one. simpl. lia. Qed.

Lemma decimal_pos c s : Forall (λ c, digit c) s → (1 ≤ dval c)%Z → (1 ≤ decimal (c :: s))%Z.
Proof.
  intros Hs Hc. change (c :: s) with ([c] ++ s). rewrite decimal_app, decimal_one.
  pose proof (decimal_nonneg s Hs). assert (1 ≤ 10 ^ Z.of_nat (length s))%Z by (apply Z.lt_pred_le, Z.pow_pos_nonneg; lia).
  nia.
Qed.

(** Digits without a leading zero are the notation of their value. *)
Lemma dec_of_digits c s :
  Forall (λ c, digit c) (c :: s) → (1 ≤ dval c)%Z → dec (decimal (c :: s)) = c :: s.
Proof.
  intros Hs Hc. induction s as [|d s IH] using rev_ind.
  - rewrite decimal_one. apply Forall_inv in Hs. rewrite dec_small by lia. by rewrite dig_dval.
  - rewrite app_comm_cons in Hs |- *. apply Forall_app in Hs as [Hs Hd]. apply Forall_inv in Hd.
    specialize (IH Hs). rewrite decimal_snoc. apply Forall_cons in Hs as [_ Hs].
    pose proof (decimal_pos c s Hs Hc) as Hp. rewrite dec_step by lia.
    replace ((10 * decimal (c :: s) + dval d) / 10)%Z with (decimal (c :: s)) by (apply (Z.div_unique _ _ _ (dval d)); lia).
    replace ((10 * decimal (c :: s) + dval d) mod 10)%Z with (dval d) by (apply (Z.mod_unique _ _ (decimal (c :: s))); lia).
    by rewrite IH, dig_dval.
Qed.

(** ** string2ll accepts exactly decimal notation *)

Lemma ll_scan_digits p : ∀ v,
  Forall (λ c, digit c) p → (0 ≤ v ≤ ULLONG_MAX)%Z →
  ll_scan p v = if bool_decide (v * 10 ^ Z.of_nat (length p) + decimal p ≤ ULLONG_MAX)%Z
                then Some (v * 10 ^ Z.of_nat (length p) + decimal p, [])%Z else None.
Proof.
  induction p as [|c p IH]; intros v Hp Hv.
  - simpl. unfold decimal. simpl. rewrite Z.mul_1_r, Z.add_0_r, bool_decide_eq_true_2 by lia. done.
  - apply Forall_cons in Hp as [Hc Hp]. cbn [ll_scan]. rewrite (proj2 (is_digit_iff c)) by done.
    pose proof (decimal_nonneg p Hp) as Hd. set (T := (10 ^ Z.of_nat (length p))%Z) in *.
    assert (1 ≤ T)%Z as HT by (apply Z.lt_pred_le, Z.pow_pos_nonneg; lia).
    assert (v * 10 ^ Z.of_nat (length (c :: p)) + decimal (c :: p) = (v * 10 + dval c) * T + decimal p)%Z as ->.
    { change (c :: p) with ([c] ++ p). rewrite decimal_app, decimal_one. simpl length.
      rewrite Nat2Z.inj_succ, Z.pow_succ_r by lia. fold T. lia. }
    case_bool_decide as H1.
    { rewrite bool_decide_eq_false_2; [done|]. unfold ULLONG_MAX in *.
      assert (ULLONG_MAX < v * 10)%Z; [|unfold ULLONG_MAX in *; nia].
      unfold ULLONG_MAX in *. change ((2 ^ 64 - 1) / 10)%Z with 1844674407370955161%Z in H1. lia. }
    assert (v * 10 ≤ ULLONG_MAX)%Z as Hm.
    { unfold ULLONG_MAX in *. change ((2 ^ 64 - 1) / 10)%Z with 1844674407370955161%Z in H1. lia. }
    assert (u64 (v * 10) = v * 10)%Z as -> by (unfold u64; apply Z.mod_small; unfold ULLONG_MAX in *; lia).
    case_bool_decide as H2.
    { rewrite bool_decide_eq_false_2; [done|]. nia. }
    assert (u64 (v * 10 + dval c) = v * 10 + dval c)%Z as -> by (unfold u64; apply Z.mod_small; unfold ULLONG_MAX in *; lia).
    apply IH; [done|lia].
Qed.

Lemma ll_scan_all p : ∀ v v', ll_scan p v = Some (v', []) → Forall (λ c, digit c) p.
Proof.
  induction p as [|c p IH]; intros v v'; [done|]. cbn [ll_scan]. destruct (is_digit c) eqn:Ec; [|done].
  case_bool_decide; [done|]. case_bool_decide; [done|]. intros H'. constructor; [by apply is_digit_iff|by eapply IH].
Qed.

Lemma digit_nonzero c : is_digit c && negb (bool_decide (c = "0"%char)) = true ↔ (1 ≤ dval c ≤ 9)%Z.
Proof. destruct c as [[] [] [] [] [] [] [] []]; vm_compute; naive_solver. Qed.

Lemma ll_scan_number c t v :
  (1 ≤ dval c ≤ 9)%Z →
  ll_scan t (dval c) = Some (v, []) ↔ Forall (λ c, digit c) t ∧ decimal (c :: t) = v ∧ (v ≤ ULLONG_MAX)%Z.
Proof.
  intros Hc. assert (0 ≤ dval c ≤ ULLONG_MAX)%Z as H0 by (unfold ULLONG_MAX; lia).
  assert (decimal (c :: t) = dval c * 10 ^ Z.of_nat (length t) + decimal t)%Z as E.
  { change (c :: t) with ([c] ++ t). by rewrite decimal_app, decimal_one. }
  split.
  - intros H. pose proof (ll_scan_all t _ _ H) as Ht. split; [done|].
    rewrite (ll_scan_digits t _ Ht H0) in H. case_bool_decide; [|done]. injection H as <-. by rewrite E.
  - intros (Ht & <- & Hm). rewrite (ll_scan_digits t _ Ht H0), <-E. by rewrite bool_decide_eq_true_2.
Qed.

Lemma fmt_nonneg v : (0 ≤ v)%Z → fmt v = dec v.
Proof. intros H. unfold fmt. by rewrite bool_decide_eq_false_2 by lia. Qed.

Lemma fmt_neg v : (v < 0)%Z → fmt v = "-"%char :: dec (- v).
Proof. intros H. unfold fmt. by rewrite bool_decide_eq_true_2 by lia. Qed.

(** The strict grammar of the parser: zero, or an optional sign and digits
    without a leading zero. *)
Lemma string2ll_cases s v :
  string2ll s = Some v ↔
  (s = ["0"%char] ∧ v = 0%Z) ∨
  (∃ c t, s = c :: t ∧ (1 ≤ dval c ≤ 9)%Z ∧ Forall (λ c, digit c) t ∧ decimal (c :: t) = v ∧ (v ≤ LLONG_MAX)%Z) ∨
  (∃ c t, s = "-"%char :: c :: t ∧ (1 ≤ dval c ≤ 9)%Z ∧ Forall (λ c, digit c) t
     ∧ (decimal (c :: t) = - v)%Z ∧ (LLONG_MIN ≤ v)%Z).
Proof.
  assert (∀ c, (1 ≤ dval c ≤ 9)%Z → c ≠ "0"%char ∧ c ≠ "-"%char) as Hne.
  { intros c Hc. split; intros ->; vm_compute in Hc; naive_solver. }
  destruct s as [|c0 s0]; [split; [done|naive_solver]|]. unfold string2ll.
  destruct (decide (length (c0 :: s0) = 1 ∧ c0 = "0"%char)) as [[Hl ->]|Hz].
  { destruct s0; [|done]. rewrite bool_decide_eq_true_2 by done. split.
    - intros [= <-]. by left.
    - intros [[_ ->]|[(c & t & [= <- <-] & Hc & _)|(c & t & ? & _)]]; [done| |done].
      by destruct (Hne _ Hc). }
  rewrite bool_decide_eq_false_2 by done. destruct (decide (c0 = "-"%char)) as [->|Hm].
  - rewrite bool_decide_eq_true_2 by done. destruct s0 as [|c p]; [split; [done|naive_solver]|].
    destruct (is_digit c && negb (bool_decide (c = "0"%char))) eqn:Ed.
    + apply digit_nonzero in Ed. split.
      * destruct (ll_scan p (dval c)) as [[w [|? ?]]|] eqn:El; try done. apply ll_scan_number in El as (Hp & Ew & _); [|done].
        case_bool_decide as Hw; [done|]. intros [= <-]. right. right. exists c, p. split_and!; try done;
          unfold LLONG_MIN, LLONG_MAX in *; lia.
      * intros [[? _]|[(c1 & t & [= <- <-] & Hc & _)|(c1 & t & [= <- <-] & Hc & Ht & Ev & Hr)]]; [done|by vm_compute in Hc; naive_solver|].
        rewrite (proj2 (ll_scan_number c p (- v) Ed)).
        -- rewrite bool_decide_eq_false_2 by (unfold LLONG_MIN, LLONG_MAX in *; lia). f_equal. lia.
        -- split_and!; try done. unfold ULLONG_MAX, LLONG_MIN in *. lia.
    + rewrite bool_decide_eq_false_2 by (intros [_ ?]; done). split; [done|].
      intros [[? _]|[(c1 & t & [= <- <-] & Hc & _)|(c1 & t & [= <- <-] & Hc & _)]]; [done|by vm_compute in Hc; naive_solver|].
      apply digit_nonzero in Hc. congruence.
  - rewrite (bool_decide_eq_false_2 (c0 = _)) by done.
    destruct (is_digit c0 && negb (bool_decide (c0 = "0"%char))) eqn:Ed.
    + apply digit_nonzero in Ed. split.
      * destruct (ll_scan s0 (dval c0)) as [[w [|? ?]]|] eqn:El; try done. apply ll_scan_number in El as (Hp & Ew & _); [|done].
        case_bool_decide as Hw; [done|]. intros [= <-]. right. left. exists c0, s0. split_and!; try done; lia.
      * intros [[[= -> ->] _]|[(c1 & t & [= <- <-] & Hc & Ht & Ev & Hr)|(c1 & t & [= ? ?] & _)]]; [by destruct Hz| |done].
        rewrite (proj2 (ll_scan_number c0 s0 v Ed)).
        -- by rewrite bool_decide_eq_false_2 by lia.
        -- split_and!; try done. unfold ULLONG_MAX, LLONG_MAX in *. lia.
    + rewrite bool_decide_eq_false_2 by naive_solver. split; [done|].
      intros [[[= -> ->] _]|[(c1 & t & [= <- <-] & Hc & _)|(c1 & t & [= ? ?] & _)]]; [by destruct Hz| |done].
      apply digit_nonzero in Hc. congruence.
Qed.

Lemma string2ll_iff s v :
  string2ll s = Some v ↔ s = fmt v ∧ (LLONG_MIN ≤ v ≤ LLONG_MAX)%Z.
Proof.
  rewrite string2ll_cases. split.
  - intros [[-> ->]|[(c & t & -> & Hc & Ht & Ev & Hr)|(c & t & -> & Hc & Ht & Ev & Hr)]].
    + split; [by vm_compute|]. unfold LLONG_MIN, LLONG_MAX. lia.
    + pose proof (decimal_pos c t Ht ltac:(lia)). rewrite fmt_nonneg by lia. rewrite <-Ev, dec_of_digits; [|by constructor; [lia|]|lia].
      split; [done|]. unfold LLONG_MIN, LLONG_MAX in *. lia.
    + pose proof (decimal_pos c t Ht ltac:(lia)). rewrite fmt_neg by lia. rewrite <-Ev, dec_of_digits; [|by constructor; [lia|]|lia].
      split; [done|]. unfold LLONG_MIN, LLONG_MAX in *. lia.
  - intros [-> Hr]. destruct (decide (v = 0)%Z) as [->|H0]; [left; by vm_compute|right].
    destruct (decide (v < 0)%Z) as [Hn|Hn]; [right|left].
    + destruct (dec_head (- v) ltac:(lia)) as (c & t & E & Hc). pose proof (dec_digits (- v) ltac:(lia)) as Hd.
      pose proof (dec_decimal (- v) ltac:(lia)) as Ev. rewrite E in Hd, Ev. apply Forall_cons in Hd as [Hd Ht].
      exists c, t. rewrite fmt_neg, E by done. split_and!; try done; lia.
    + destruct (dec_head v ltac:(lia)) as (c & t & E & Hc). pose proof (dec_digits v ltac:(lia)) as Hd.
      pose proof (dec_decimal v ltac:(lia)) as Ev. rewrite E in Hd, Ev. apply Forall_cons in Hd as [Hd Ht].
      exists c, t. rewrite fmt_nonneg, E by lia. split_and!; try done; lia.
Qed.

(** ** digits10 counts the digits *)

Lemma dec_shift k : ∀ v, (10 ^ Z.of_nat k ≤ v)%Z → length (dec v) = k + length (dec (v / 10 ^ Z.of_nat k)).
Proof.
  induction k as [|k IH]; intros v Hv; [simpl; by rewrite Z.div_1_r|].
  rewrite Nat2Z.inj_succ, Z.pow_succ_r in Hv |- * by lia. set (T := (10 ^ Z.of_nat k)%Z) in *.
  assert (1 ≤ T)%Z by (apply Z.lt_pred_le, Z.pow_pos_nonneg; lia).
  rewrite dec_step, length_app, (IH (v / 10)%Z) by (nia || (apply Z.div_le_lower_bound; lia)).
  rewrite Z.div_div by lia. fold T. simpl length. lia.
Qed.

Lemma dec_length k v : (10 ^ Z.of_nat k ≤ v < 10 ^ Z.of_nat (S k))%Z → length (dec v) = S k.
Proof.
  intros [H1 H2]. rewrite (dec_shift k v H1). rewrite Nat2Z.inj_succ, Z.pow_succ_r in H2 by lia.
  assert (0 < 10 ^ Z.of_nat k)%Z by (apply Z.pow_pos_nonneg; lia).
  rewrite dec_small; [simpl; lia|]. split; [apply Z.div_pos; lia|]. apply Z.div_lt_upper_bound; lia.
Qed.

Lemma digits10_low fuel v : (0 ≤ v < 1000000000000)%Z → digits10_loop fuel v = Ret (Z.of_nat (length (dec v))).
Proof.
  intros Hv. assert (∀ k, (10 ^ Z.of_nat k ≤ v < 10 ^ Z.of_nat (S k))%Z →
    Ret (Z.of_nat (S k)) = Ret (Z.of_nat (length (dec v)))) as Hk by (intros k Hk; by rewrite (dec_length k v Hk)).
  destruct fuel as [|fuel]; cbn [digits10_loop]; repeat case_bool_decide; try lia;
    first [rewrite dec_small by lia; done | apply (Hk 1); simpl; lia | apply (Hk 2); simpl; lia
      | apply (Hk 3); simpl; lia | apply (Hk 4); simpl; lia | apply (Hk 5); simpl; lia | apply (Hk 6); simpl; lia
      | apply (Hk 7); simpl; lia | apply (Hk 8); simpl; lia | apply (Hk 9); simpl; lia | apply (Hk 10); simpl; lia
      | apply (Hk 11); simpl; lia].
Qed.

Lemma digits10_spec v : (0 ≤ v ≤ ULLONG_MAX)%Z → digits10 v = Ret (Z.of_nat (length (dec v))).
Proof.
  intros Hv. unfold ULLONG_MAX in Hv. destruct (decide (v < 1000000000000)%Z); [apply digits10_low; lia|].
  unfold digits10. generalize 0 as fuel. intros fuel. cbn [digits10_loop]. do 4 (rewrite bool_decide_eq_false_2 by lia).
  rewrite (digits10_low fuel) by (split; [apply Z.div_pos; lia|apply Z.div_lt_upper_bound; lia]). bind_red.
  rewrite (dec_shift 12 v) by (simpl; lia). f_equal.
  change (10 ^ Z.of_nat 12)%Z with 1000000000000%Z. lia.
Qed.

Lemma dec_bound v : (0 ≤ v ≤ ULLONG_MAX)%Z → 1 ≤ length (dec v) ≤ 20.
Proof.
  intros Hv. unfold ULLONG_MAX in Hv. split.
  - destruct (decide (v < 10)%Z); [rewrite dec_small by lia; done|]. rewrite dec_step by lia. rewrite length_app. simpl. lia.
  - destruct (decide (v < 10 ^ 12)%Z) as [Hs|Hs].
    + pose proof (digits10_low 0 v ltac:(lia)) as E. cbn [digits10_loop] in E.
      repeat case_bool_decide; try lia; injection E as E; revert E; simpl; lia.
    + rewrite (dec_shift 12 v) by (simpl; lia). change (10 ^ Z.of_nat 12)%Z with 1000000000000%Z.
      set (w := (v / 1000000000000)%Z).
      assert (0 ≤ w < 100000000)%Z as Hw by (split; [apply Z.div_pos; lia|apply Z.div_lt_upper_bound; lia]).
      pose proof (digits10_low 0 w ltac:(lia)) as E. cbn [digits10_loop] in E.
      repeat case_bool_decide; try lia; injection E as E; revert E; simpl; lia.
Qed.

(** ** ll2string writes decimal notation *)

Lemma pair_at_table :
  forallb (λ n, bool_decide (digit_pairs !! (2 * n) = Some (dig (Z.of_nat n / 10)))
    && bool_decide (digit_pairs !! (2 * n + 1) = Some (dig (Z.of_nat n mod 10)))) (seq 0 100) = true.
Proof. vm_compute. reflexivity. Qed.

Lemma pair_at_spec i :
  (0 ≤ i < 100)%Z → pair_at (i * 2) = Ret (dig (i / 10)) ∧ pair_at (i * 2 + 1) = Ret (dig (i mod 10)).
Proof.
  intros Hi. pose proof pair_at_table as H. rewrite forallb_forall in H. specialize (H (Z.to_nat i)).
  rewrite andb_true_iff, !bool_decide_eq_true, Z2Nat.id in H by lia.
  destruct H as [H1 H2]; [apply in_seq; lia|]. unfold pair_at.
  replace (Z.to_nat (i * 2)) with (2 * Z.to_nat i) by lia.
  replace (Z.to_nat (i * 2 + 1)) with (2 * Z.to_nat i + 1) by lia. by rewrite H1, H2.
Qed.

Lemma put_app X y Y c : put (X ++ y :: Y) (Z.of_nat (length X)) c = Ret (X ++ c :: Y).
Proof.
  unfold put. rewrite length_app. simpl. rewrite bool_decide_eq_true_2 by lia.
  rewrite Nat2Z.id. by rewrite insert_app_r_alt, Nat.sub_diag by lia.
Qed.

Lemma dec_pairs v : (100 ≤ v)%Z → dec v = dec (v / 100) ++ [dig (v mod 100 / 10); dig (v mod 100 mod 10)].
Proof.
  intros Hv. rewrite dec_step, (dec_step (v / 10)) by ((apply Z.div_le_lower_bound; lia) || lia).
  rewrite Z.div_div by lia. rewrite <-app_assoc. change (10 * 10)%Z with 100%Z.
  assert (v mod 100 = 10 * (v / 10 mod 10) + v mod 10)%Z as E by (change 100%Z with (10 * 10)%Z; rewrite Z.rem_mul_r by lia; lia).
  pose proof (Z.mod_pos_bound v 10 ltac:(lia)). pose proof (Z.mod_pos_bound (v / 10) 10 ltac:(lia)).
  replace (v mod 100 / 10)%Z with (v / 10 mod 10)%Z by (apply (Z.div_unique _ _ _ (v mod 10)); lia).
  replace (v mod 100 mod 10)%Z with (v mod 10)%Z by (apply (Z.mod_unique _ _ (v / 10 mod 10)); lia). done.
Qed.

Lemma u32_small x : (0 ≤ x < 100)%Z → u32 x = x.
Proof. intros H. unfold u32. apply Z.mod_small. lia. Qed.

(** Writing two digits before [B]. *)
Lemma put_pair X y1 y2 B d0 d1 n :
  n = (Z.of_nat (length X) + 1)%Z → (n < 100)%Z →
  (dst ← put (X ++ y1 :: y2 :: B) n d1; put dst (u32 (n - 1)) d0) = Ret (X ++ d0 :: d1 :: B).
Proof.
  intros -> Hn. pose proof (put_app (X ++ [y1]) y2 B d1) as E. rewrite length_app, <-!app_assoc in E. simpl in E.
  replace (Z.of_nat (length X) + 1)%Z with (Z.of_nat (length X + 1)) by lia. rewrite E. bind_red.
  rewrite u32_small by lia. replace (Z.of_nat (length X + 1) - 1)%Z with (Z.of_nat (length X)) by lia. apply put_app.
Qed.

Lemma dec_two v : (10 ≤ v < 100)%Z → dec v = [dig (v / 10); dig (v mod 10)].
Proof.
  intros Hv. rewrite dec_step, dec_small by (lia || (split; [apply Z.div_pos; lia|apply Z.div_lt_upper_bound; lia])). done.
Qed.

Lemma ll_last_spec X Y B value :
  (0 ≤ value < 100)%Z → length Y = length (dec value) → length X + length Y < 100 →
  ll_last (X ++ Y ++ B) value (Z.of_nat (length X + length Y) - 1) = Ret (X ++ dec value ++ B).
Proof.
  intros Hv HY Hlt. unfold ll_last. case_bool_decide as H10.
  - rewrite dec_small in HY |- * by lia. destruct Y as [|y [|? ?]]; try done. simpl.
    replace (Z.of_nat (length X + 1) - 1)%Z with (Z.of_nat (length X)) by lia. apply put_app.
  - rewrite dec_two in HY |- * by lia. destruct Y as [|y1 [|y2 [|? ?]]]; try done. simpl in *.
    destruct (pair_at_spec value ltac:(lia)) as [-> ->]. bind_red.
    pose proof (put_pair X y1 y2 B (dig (value / 10)) (dig (value mod 10)) (Z.of_nat (length X + 2) - 1)) as E.
    destruct (put _ _ _); [|by specialize (E ltac:(lia) ltac:(lia))]. apply E; lia.
Qed.

(** The digits of [value] fill the [Y] between [X] and [B]. *)
Lemma ll_write fuel : ∀ X Y B value,
  (0 ≤ value)%Z → length (dec value) ≤ 2 * fuel + 2 → length Y = length (dec value) → length X + length Y < 100 →
  ('(dst, value, next) ← ll_pairs fuel (X ++ Y ++ B) value (Z.of_nat (length X + length Y) - 1);
   ll_last dst value next) = Ret (X ++ dec value ++ B).
Proof.
  induction fuel as [|fuel IH]; intros X Y B value Hv Hf HY Hlt; cbn [ll_pairs];
    destruct (decide (value >= 100)%Z) as [Hb|Hb];
    first [rewrite bool_decide_eq_true_2 by done | rewrite bool_decide_eq_false_2 by done];
    try (bind_red; apply ll_last_spec; (done || lia));
    (destruct (dec_head (value / 100)) as (c & t & E1 & _); [apply Z.div_le_lower_bound; lia|]);
    pose proof (dec_pairs value ltac:(lia)) as E; rewrite E in HY, Hf; rewrite length_app, E1 in HY, Hf; simpl in HY, Hf.
  - lia.
  - rewrite E. assert (∃ Y1 y1 y2, Y = Y1 ++ [y1; y2]) as (Y1 & y1 & y2 & ->).
    { destruct Y as [|y2 Y _] using rev_ind; [simpl in HY; lia|]. rewrite length_app in HY.
      destruct Y as [|y1 Y _] using rev_ind; [simpl in HY; lia|]. exists Y, y1, y2. by rewrite <-app_assoc. }
    rewrite length_app in HY, Hlt |- *. simpl in HY, Hlt.
    destruct (pair_at_spec (value mod 100) ltac:(apply Z.mod_pos_bound; lia)) as [E0 E2]. rewrite E2. bind_red.
    pose proof (put_pair (X ++ Y1) y1 y2 B (dig (value mod 100 / 10)) (dig (value mod 100 mod 10))
      (Z.of_nat (length X + (length Y1 + 2)) - 1)) as Ep. rewrite length_app in Ep. rewrite <-!app_assoc in Ep. simpl in Ep.
    rewrite <-!app_assoc. simpl. destruct (put _ _ _); [|by specialize (Ep ltac:(lia) ltac:(lia))]. bind_red.
    rewrite E0. bind_red. revert Ep. bind_red. intros ->; [|lia..]. bind_red.
    rewrite u32_small by lia.
    specialize (IH X Y1 (dig (value mod 100 / 10) :: dig (value mod 100 mod 10) :: B) (value / 100)%Z).
    replace (Z.of_nat (length X + (length Y1 + 2)) - 1 - 2)%Z with (Z.of_nat (length X + length Y1) - 1)%Z by lia.
    apply IH; [apply Z.div_pos; lia|rewrite E1; simpl; lia|rewrite E1; simpl; lia|lia].
Qed.

Lemma ll2string_spec dst dstlen v :
  (LLONG_MIN ≤ v ≤ LLONG_MAX)%Z → (dstlen ≤ Z.of_nat (length dst))%Z →
  ll2string dst dstlen v =
    Ret (if bool_decide (Z.of_nat (length (fmt v)) < dstlen)%Z
         then (fmt v ++ NUL :: drop (S (length (fmt v))) dst, Z.of_nat (length (fmt v)))
         else (dst, 0%Z)).
Proof.
  intros Hv Hd. unfold ll2string.
  set (neg := bool_decide (v < 0)%Z). set (value := if neg then _ else v).
  assert (value = Z.abs v ∧ (0 ≤ value ≤ ULLONG_MAX)%Z) as [Ev Hval].
  { unfold value, neg, LLONG_MIN, LLONG_MAX, ULLONG_MAX in *. repeat case_bool_decide; lia. }
  rewrite digits10_spec by done. bind_red. pose proof (dec_bound value Hval) as Hlen.
  assert (Z.to_nat (Z.b2z neg) ≤ 1) as Hb2 by (destruct neg; simpl; lia).
  assert (length (fmt v) = length (dec value) + Z.to_nat (Z.b2z neg)) as Hfmt.
  { unfold fmt. fold neg. unfold neg. case_bool_decide; rewrite Ev; simpl.
    - rewrite Z.abs_neq by lia. lia.
    - rewrite Z.abs_eq by lia. lia. }
  assert (u32 (Z.of_nat (length (dec value)) + Z.b2z neg) = Z.of_nat (length (fmt v))) as ->.
  { rewrite Hfmt. rewrite u32_small; destruct neg; simpl in *; lia. }
  destruct (decide (Z.of_nat (length (fmt v)) < dstlen)%Z) as [Hlt|Hge].
  2:{ rewrite bool_decide_eq_true_2, bool_decide_eq_false_2 by lia. done. }
  rewrite bool_decide_eq_false_2, bool_decide_eq_true_2 by lia.
  set (n := length (fmt v)) in *.
  assert (dst = take n dst ++ drop n dst) as Esp by by rewrite take_drop.
  destruct (drop n dst) as [|y B] eqn:Edr.
  { apply (f_equal length) in Edr. rewrite length_drop in Edr. simpl in Edr. lia. }
  assert (length (take n dst) = n) as Htn by (rewrite length_take; lia).
  pose proof (put_app (take n dst) y B NUL) as Ep. rewrite Htn in Ep.
  rewrite Esp at 1. rewrite Ep. bind_red.
  assert (drop (S n) dst = B) as -> by (rewrite <-Nat.add_1_r, <-drop_drop, Edr; done).
  rewrite u32_small by lia. set (T := take n dst) in *. clearbody T. clear Ep Esp Edr.
  assert (∃ X Y, T = X ++ Y ∧ length X = Z.to_nat (Z.b2z neg) ∧ length Y = length (dec value)) as (X & Y & -> & HX & HY).
  { exists (take (Z.to_nat (Z.b2z neg)) T), (drop (Z.to_nat (Z.b2z neg)) T).
    rewrite take_drop, length_take, length_drop. split_and!; [done|lia|lia]. }
  rewrite length_app in Htn. rewrite <-Htn, <-app_assoc.
  pose proof (ll_write 10 X Y (NUL :: B) value) as Hw.
  destruct (ll_pairs _ _ _ _) as [[[d2 v2] n2]|]; [|by specialize (Hw ltac:(lia) ltac:(lia) ltac:(lia) ltac:(lia))].
  bind_red. revert Hw. bind_red. intros ->; [|lia..]. bind_red.
  unfold fmt. fold neg. destruct neg eqn:En; unfold neg in En.
  - apply bool_decide_eq_true in En. destruct X as [|x [|? ?]]; try done. simpl in *.
    rewrite Ev, Z.abs_neq by lia. done.
  - apply bool_decide_eq_false in En. destruct X; [|done]. bind_red. rewrite Ev, Z.abs_eq by lia. done.
Qed.

Lemma fmt_length v : (LLONG_MIN ≤ v ≤ LLONG_MAX)%Z → 1 ≤ length (fmt v) ≤ 20.
Proof.
  intros Hv. unfold LLONG_MIN, LLONG_MAX in Hv.
  assert (∀ u, (0 ≤ u ≤ 2 ^ 63)%Z → 1 ≤ length (dec u) ≤ 19) as Hd.
  { intros u Hu. split; [apply dec_bound; unfold ULLONG_MAX; lia|].
    destruct (decide (u < 1000000000000)%Z) as [Hs|Hs].
    - pose proof (digits10_low 0 u ltac:(lia)) as E. cbn [digits10_loop] in E.
      repeat case_bool_decide; try lia; injection E as E; revert E; simpl; lia.
    - rewrite (dec_shift 12 u) by (simpl; lia). change (10 ^ Z.of_nat 12)%Z with 1000000000000%Z.
      set (x := (u / 1000000000000)%Z).
      assert (0 ≤ x < 10000000)%Z as Hx by (split; [apply Z.div_pos; lia|apply Z.div_lt_upper_bound; lia]).
      pose proof (digits10_low 0 x ltac:(lia)) as E. cbn [digits10_loop] in E.
      repeat case_bool_decide; try lia; injection E as E; revert E; simpl; lia. }
  unfold fmt. case_bool_decide; simpl; [specialize (Hd (- v)%Z)|specialize (Hd v)]; lia.
Qed.

(** ** Properties *)

(** [digits10] returns the number of decimal digits of any 64 bit number. *)
Theorem digits10_counts v :
  (0 ≤ v ≤ ULLONG_MAX)%Z → digits10 v = Ret (Z.of_nat (length (dec v))).
Proof. apply digits10_spec. Qed.

Lemma digits10_counts_witness : digits10 18446744073709551615 = Ret 20%Z.
Proof. rewrite digits10_counts; [vm_compute; reflexivity|unfold ULLONG_MAX; lia]. Defined.

(** [string2ll] is strict: it accepts a string exactly when it is the decimal
    notation of a 64 bit signed number (no sign but "-", no leading zero, nothing
    before or after), and then returns that number. *)
Theorem string2ll_strict s v :
  string2ll s = Some v ↔ s = fmt v ∧ (LLONG_MIN ≤ v ≤ LLONG_MAX)%Z.
Proof. apply string2ll_iff. Qed.

(** C36: printing a number with [ll2string] into a buffer of at least 21 bytes and
    reading the characters back with [string2ll] gives the number; the buffer is
    not exceeded and the text is terminated. *)
Theorem ll2string_roundtrip dst v :
  (LLONG_MIN ≤ v ≤ LLONG_MAX)%Z → 21 ≤ length dst →
  ∃ dst' n, ll2string dst (Z.of_nat (length dst)) v = Ret (dst', Z.of_nat n)
    ∧ length dst' = length dst ∧ dst' !! n = Some NUL
    ∧ take n dst' = fmt v ∧ string2ll (take n dst') = Some v.
Proof.
  intros Hv Hd. pose proof (fmt_length v Hv) as Hl. rewrite ll2string_spec by (done || lia).
  rewrite bool_decide_eq_true_2 by lia. eexists _, _. split; [done|]. split_and!.
  - rewrite length_app. simpl. rewrite length_drop. lia.
  - by rewrite lookup_app_r, Nat.sub_diag by lia.
  - by rewrite take_app_length.
  - rewrite take_app_length. by apply string2ll_iff.
Qed.

Lemma ll2string_roundtrip_witness :
  ∃ dst' n, ll2string (replicate 21 NUL) 21 LLONG_MIN = Ret (dst', Z.of_nat n)
    ∧ string2ll (take n dst') = Some LLONG_MIN.
Proof.
  destruct (ll2string_roundtrip (replicate 21 NUL) LLONG_MIN) as (dst' & n & E & _ & _ & _ & Es);
    [unfold LLONG_MIN, LLONG_MAX; lia|simpl; lia|].
  exists dst', n. split; [exact E|exact Es].
Defined.
