(* ===== verification/SdsFmt.v ===== *)
(** * Formatting into sds strings

    [sdsll2str], [sdsull2str], [sdsfromlonglong], [sdscatfmt] and the character loops of
    src/src/sds.c.  Digits are written in reverse into a buffer of [SDS_LLSTR_SIZE] bytes
    and turned around in place: the buffer is large enough for every number of 64 bits,
    and the result is the decimal notation. *)
From Stdlib Require Import Ascii.
From S2P Require Import Prelude Sds Util Call.

Definition SDS_LLSTR_SIZE : nat := 21.

(** [do { *p++ = '0'+(v%10); v /= 10; } while(v)] *)
Fixpoint rev_digits (fuel : nat) (s : bytes) (p : nat) (v : Z) : out (bytes * nat) :=
  match fuel with
  | 0 => Fail OutOfFuel
  | S fuel =>
    s ← put s (Z.of_nat p) (dig (v mod 10));
    let v := (v / 10)%Z in
    if bool_decide (v = 0)%Z then Ret (s, S p) else rev_digits fuel s (S p) v
  end.

Definition get (s : bytes) (i : nat) : out ascii := match s !! i with Some c => Ret c | None => Fail OutOfBounds end.

(** [while(s < p)]: swaps from both ends. *)
Fixpoint swap_loop (fuel : nat) (s : bytes) (i j : nat) : out bytes :=
  if bool_decide (i < j) then
    match fuel with
    | 0 => Fail OutOfFuel
    | S fuel =>
      aux ← get s i;
      c ← get s j;
      s ← put s (Z.of_nat i) c;
      s ← put s (Z.of_nat j) aux;
      swap_loop fuel s (S i) (j - 1)
    end
  else Ret s.

(** The buffer and the length. *)
Definition sdsull2str (s : bytes) (v : Z) : out (bytes * nat) :=
  '(s, p) ← rev_digits 20 s 0 v;
  s ← put s (Z.of_nat p) NUL;
  s ← swap_loop p s 0 (p - 1);
  Ret (s, p).

(** [-value] of the smallest number is taken modulo 2^64. *)
Definition sdsll2str (s : bytes) (value : Z) : out (bytes * nat) :=
  let v := if bool_decide (value < 0)%Z then ((- value) mod 2 ^ 64)%Z else value in
  '(s, p) ← rev_digits 20 s 0 v;
  '(s, p) ← (if bool_decide (value < 0)%Z then s ← put s (Z.of_nat p) "-"%char; Ret (s, S p) else Ret (s, p));
  s ← put s (Z.of_nat p) NUL;
  s ← swap_loop p s 0 (p - 1);
  Ret (s, p).

(** A local array, whatever is in it. *)
Definition llstr (junk : bytes) (f : bytes → out (bytes * nat)) : out bytes :=
  '(buf, l) ← f junk; Ret (take l buf).

Definition sdsfromlonglong (junk : bytes) (value : Z) : out bytes :=
  buf ← llstr junk (λ s, sdsll2str s value); Ret (sdsnewlen buf (length buf)).

(** The arguments after the format. *)
Inductive farg := FStr (s : bytes) | FInt (n : Z).

(** The loop over the format, a C string.  A percent sign at the end is followed by the
    terminator, which is added to the string, and the loop reads what is behind it; an
    argument that is missing or of another type is not there. *)
Fixpoint catfmt_loop (junk : bytes) (f : bytes) (ap : list farg) (s : bytes) : out bytes :=
  match f with
  | [] => Ret s
  | c :: f =>
    if bool_decide (c = "%"%char) then
      match f with
      | [] => Fail OutOfBounds
      | next :: f =>
        if bool_decide (next = "s"%char) then
          match ap with FStr t :: ap => catfmt_loop junk f ap (s ++ cstr t) | _ => Fail Dangling end
        else if bool_decide (next = "S"%char) then
          match ap with FStr t :: ap => catfmt_loop junk f ap (s ++ t) | _ => Fail Dangling end
        else if bool_decide (next = "i"%char ∨ next = "I"%char) then
          match ap with
          | FInt num :: ap => buf ← llstr junk (λ b, sdsll2str b num); catfmt_loop junk f ap (s ++ buf)
          | _ => Fail Dangling
          end
        else if bool_decide (next = "u"%char ∨ next = "U"%char) then
          match ap with
          | FInt unum :: ap => buf ← llstr junk (λ b, sdsull2str b unum); catfmt_loop junk f ap (s ++ buf)
          | _ => Fail Dangling
          end
        else catfmt_loop junk f ap (s ++ [next])
      end
    else catfmt_loop junk f ap (s ++ [c])
  end.

Definition sdscatfmt (junk s fmt : bytes) (ap : list farg) : out bytes := catfmt_loop junk (cstr fmt) ap s.

(** The first [i] with [from[i]] equal to the character. *)
Fixpoint map_char (from to : bytes) (c : ascii) : ascii :=
  match from, to with
  | x :: from, y :: to => if bool_decide (c = x) then y else map_char from to c
  | _, _ => c
  end.

Definition sdsmapchars (s from to : bytes) (setlen : nat) : bytes := map_char (take setlen from) (take setlen to) <$> s.

Definition toupper (a : ascii) : ascii :=
  let n := nat_of_ascii a in if bool_decide (97 ≤ n ∧ n ≤ 122) then ascii_of_nat (n - 32) else a.
Definition sdstolower (s : bytes) : bytes := tolower <$> s.
Definition sdstoupper (s : bytes) : bytes := toupper <$> s.

(** ** The digits *)

Lemma get_app a x b : get (a ++ x :: b) (length a) = Ret x.
Proof. unfold get. by rewrite lookup_app_r, Nat.sub_diag by lia. Qed.

Lemma rev_digits_spec v : (0 ≤ v)%Z → ∀ fuel a b,
  length (dec v) ≤ fuel → length (dec v) ≤ length b →
  ∃ b', rev_digits fuel (a ++ b) (length a) v = Ret (a ++ reverse (dec v) ++ b', length a + length (dec v))
    ∧ length b = length (dec v) + length b'.
Proof.
  revert v. apply (dec_ind (λ v, ∀ fuel a b, length (dec v) ≤ fuel → length (dec v) ≤ length b →
    ∃ b', rev_digits fuel (a ++ b) (length a) v = Ret (a ++ reverse (dec v) ++ b', length a + length (dec v))
      ∧ length b = length (dec v) + length b')).
  - intros v Hv fuel a b Hf Hb. rewrite dec_small in * by done. simpl in *. destruct fuel as [|fuel]; [lia|]. destruct b as [|x b]; [simpl in Hb; lia|].
    cbn [rev_digits]. rewrite put_app. bind_red. rewrite Z.mod_small by lia. rewrite bool_decide_eq_true_2 by (apply Z.div_small; lia).
    exists b. split; [|done]. rewrite Nat.add_1_r. done.
  - intros v Hv IH fuel a b Hf Hb. rewrite (dec_step v Hv) in *. rewrite length_app in *. simpl in *.
    destruct fuel as [|fuel]; [lia|]. destruct b as [|x b]; [simpl in Hb; lia|]. cbn [rev_digits]. rewrite put_app. bind_red.
    assert (1 ≤ v / 10)%Z by (apply Z.div_le_lower_bound; lia). rewrite bool_decide_eq_false_2 by lia.
    destruct (IH fuel (a ++ [dig (v mod 10)]) b) as (b' & E & Hl); [lia|simpl in Hb; lia|].
    exists b'. rewrite length_app, <-!app_assoc in E. simpl in E. rewrite (Nat.add_1_r (length a)) in E. rewrite E.
    rewrite reverse_snoc. cbn [app]. split; [|simpl; lia]. f_equal. f_equal. lia.
Qed.

Lemma swap_ends a x m y b :
  (aux ← get (a ++ x :: m ++ y :: b) (length a);
   c ← get (a ++ x :: m ++ y :: b) (S (length a + length m));
   s ← put (a ++ x :: m ++ y :: b) (Z.of_nat (length a)) c;
   put s (Z.of_nat (S (length a + length m))) aux) = Ret (a ++ y :: m ++ x :: b).
Proof.
  assert (∀ z, S (length a + length m) = length (a ++ z :: m)) as El by (intros z; rewrite length_app; simpl; lia).
  assert (∀ z t, a ++ z :: m ++ t = (a ++ z :: m) ++ t) as Ea by (intros z t; by rewrite <-app_assoc).
  rewrite get_app. bind_red. rewrite (El x), Ea, get_app. bind_red. rewrite <-Ea, put_app. bind_red.
  rewrite <-(El x), (El y), Ea, put_app. by rewrite <-Ea.
Qed.

Lemma swap_loop_spec fuel : ∀ a m b,
  length m ≤ fuel → 0 < length m →
  swap_loop fuel (a ++ m ++ b) (length a) (length a + length m - 1) = Ret (a ++ reverse m ++ b).
Proof.
  induction fuel as [|fuel IH]; intros a m b Hf Hm; [lia|].
  destruct m as [|x m]; [simpl in Hm; lia|]. destruct m as [|y m _] using rev_ind.
  { cbn [swap_loop length]. by rewrite bool_decide_eq_false_2 by lia. }
  replace (a ++ (x :: m ++ [y]) ++ b) with (a ++ x :: m ++ y :: b) by (by rewrite <-app_comm_cons, <-app_assoc).
  replace (length a + length (x :: m ++ [y]) - 1) with (S (length a + length m)) by (simpl; rewrite length_app; simpl; lia).
  cbn [swap_loop]. rewrite bool_decide_eq_true_2 by lia. pose proof (swap_ends a x m y b) as Es.
  destruct (get _ (length a)) as [aux|]; [|discriminate Es]. destruct (get _ (S _)) as [c|]; [|discriminate Es]. simpl in Es |- *.
  destruct (put _ _ c) as [s|]; [|discriminate Es]. simpl in Es |- *. rewrite Es. bind_red. rewrite reverse_cons, reverse_snoc. cbn [app].
  simpl in Hf. rewrite length_app in Hf. simpl in Hf. rewrite Nat.sub_0_r. destruct m as [|z m].
  - cbn [app length]. destruct fuel; cbn [swap_loop]; by rewrite bool_decide_eq_false_2 by lia.
  - specialize (IH (a ++ [y]) (z :: m) (x :: b)). rewrite <-!app_assoc in IH. cbn [app] in IH. rewrite length_app in IH.
    change (length [y]) with 1 in IH. rewrite Nat.add_1_r in IH.
    replace (length a + length (z :: m)) with (S (length a) + length (z :: m) - 1) by (simpl; lia). change ((z :: m) ++ x :: b) with (z :: m ++ x :: b). rewrite IH; [|lia|simpl; lia].
    by rewrite <-!app_assoc.
Qed.

Lemma reverse_whole m b : 0 < length m → swap_loop (length m) (m ++ b) 0 (length m - 1) = Ret (reverse m ++ b).
Proof. intros H. by apply (swap_loop_spec (length m) [] m b). Qed.

(** Every number of 64 bits fits, with its sign and the terminator. *)
Lemma sdsull2str_spec junk v :
  (0 ≤ v ≤ ULLONG_MAX)%Z → length junk = SDS_LLSTR_SIZE →
  ∃ b, sdsull2str junk v = Ret (dec v ++ NUL :: b, length (dec v)).
Proof.
  intros Hv Hj. unfold SDS_LLSTR_SIZE in Hj. pose proof (dec_bound v Hv) as Hd. unfold sdsull2str.
  destruct (rev_digits_spec v ltac:(lia) 20 [] junk) as (b & E & Hb); [lia|lia|]. cbn [app length] in E. rewrite E. bind_red.
  destruct b as [|x b]; [simpl in Hb; lia|]. rewrite Nat.add_0_l.
  pose proof (length_reverse (dec v)) as Hr. exists b. rewrite <-Hr, put_app. bind_red.
  rewrite reverse_whole by lia. bind_red. by rewrite reverse_involutive.
Qed.

Lemma sdsll2str_spec junk v :
  (LLONG_MIN ≤ v ≤ LLONG_MAX)%Z → length junk = SDS_LLSTR_SIZE →
  ∃ b, sdsll2str junk v = Ret (fmt v ++ NUL :: b, length (fmt v)).
Proof.
  intros Hv Hj. unfold SDS_LLSTR_SIZE in Hj. unfold sdsll2str. unfold LLONG_MIN, LLONG_MAX in Hv. case_bool_decide as Hn.
  - rewrite Z.mod_small by lia. pose proof (dec_bound (- v) ltac:(unfold ULLONG_MAX; lia)) as Hd.
    assert (length (dec (- v)) ≤ 19) as Hd'.
    { pose proof (fmt_length v ltac:(unfold LLONG_MIN, LLONG_MAX; lia)) as Hl. rewrite fmt_neg in Hl by done. simpl in Hl. lia. }
    destruct (rev_digits_spec (- v) ltac:(lia) 20 [] junk) as (b & E & Hb); [lia|lia|]. cbn [app length] in E. rewrite E. bind_red.
    destruct b as [|x [|y b]]; [simpl in Hb; lia..|]. rewrite Nat.add_0_l.
    pose proof (length_reverse (dec (- v))) as Hr. rewrite <-Hr, put_app. bind_red.
    set (m := reverse (dec (- v)) ++ ["-"%char]).
    replace (reverse (dec (- v)) ++ "-"%char :: y :: b) with (m ++ y :: b) by (unfold m; by rewrite <-app_assoc).
    replace (S (length (reverse (dec (- v))))) with (length m) by (unfold m; rewrite length_app; simpl; lia).
    rewrite put_app. bind_red. rewrite reverse_whole by (unfold m; rewrite length_app; simpl; lia). bind_red.
    exists b. rewrite fmt_neg by done. assert (reverse m = "-"%char :: dec (- v)) as Hm by (unfold m; by rewrite reverse_snoc, reverse_involutive).
    rewrite Hm. f_equal. f_equal. rewrite <-Hm. by rewrite length_reverse.
  - bind_red. destruct (sdsull2str_spec junk v) as (b & E); [unfold ULLONG_MAX; lia|done|]. exists b. rewrite fmt_nonneg by lia.
    revert E. unfold sdsull2str. destruct (rev_digits 20 junk 0 v) as [[s p]|]; [|done]. by bind_red.
Qed.

Lemma sdsfromlonglong_spec junk v :
  (LLONG_MIN ≤ v ≤ LLONG_MAX)%Z → length junk = SDS_LLSTR_SIZE → sdsfromlonglong junk v = Ret (fmt v).
Proof.
  intros Hv Hj. unfold sdsfromlonglong, llstr. destruct (sdsll2str_spec junk v Hv Hj) as (b & ->). bind_red.
  rewrite take_app_length. unfold sdsnewlen. by rewrite take_ge.
Qed.

(** ** The format *)

(** What a format stands for. *)
Inductive renders : bytes → list farg → bytes → Prop :=
  | render_end : renders [] [] []
  | render_char c f ap r : c ≠ "%"%char → renders f ap r → renders (c :: f) ap (c :: r)
  | render_cstr t f ap r : renders f ap r → renders ("%"%char :: "s"%char :: f) (FStr t :: ap) (cstr t ++ r)
  | render_sds t f ap r : renders f ap r → renders ("%"%char :: "S"%char :: f) (FStr t :: ap) (t ++ r)
  | render_int c n f ap r :
      c = "i"%char ∨ c = "I"%char → (LLONG_MIN ≤ n ≤ LLONG_MAX)%Z → renders f ap r →
      renders ("%"%char :: c :: f) (FInt n :: ap) (fmt n ++ r)
  | render_uint c n f ap r :
      c = "u"%char ∨ c = "U"%char → (0 ≤ n ≤ ULLONG_MAX)%Z → renders f ap r →
      renders ("%"%char :: c :: f) (FInt n :: ap) (dec n ++ r)
  | render_other c f ap r :
      c ∉ [ "s"; "S"; "i"; "I"; "u"; "U" ]%char → renders f ap r → renders ("%"%char :: c :: f) ap (c :: r).

Lemma catfmt_loop_spec junk f ap r : length junk = SDS_LLSTR_SIZE → renders f ap r → ∀ s, catfmt_loop junk f ap s = Ret (s ++ r).
Proof.
  intros Hj. induction 1 as [|c f ap r Hc _ IH|t f ap r _ IH|t f ap r _ IH|c n f ap r Hc Hn _ IH|c n f ap r Hc Hn _ IH|c f ap r Hc _ IH]; intros s.
  - by rewrite app_nil_r.
  - cbn [catfmt_loop]. rewrite bool_decide_eq_false_2 by done. rewrite IH. by rewrite <-app_assoc.
  - cbn [catfmt_loop]. rewrite bool_decide_eq_true_2, bool_decide_eq_true_2 by done. by rewrite IH, <-app_assoc.
  - cbn [catfmt_loop]. rewrite bool_decide_eq_true_2, bool_decide_eq_false_2, bool_decide_eq_true_2 by done. by rewrite IH, <-app_assoc.
  - cbn [catfmt_loop]. rewrite bool_decide_eq_true_2 by done. rewrite (bool_decide_eq_false_2 (c = "s"%char)) by (by destruct Hc as [->| ->]).
    rewrite (bool_decide_eq_false_2 (c = "S"%char)) by (by destruct Hc as [->| ->]). rewrite bool_decide_eq_true_2 by done.
    unfold llstr. destruct (sdsll2str_spec junk n Hn Hj) as (b & ->). bind_red. by rewrite take_app_length, IH, <-app_assoc.
  - cbn [catfmt_loop]. rewrite bool_decide_eq_true_2 by done. rewrite (bool_decide_eq_false_2 (c = "s"%char)) by (by destruct Hc as [->| ->]).
    rewrite (bool_decide_eq_false_2 (c = "S"%char)) by (by destruct Hc as [->| ->]).
    rewrite (bool_decide_eq_false_2 (c = "i"%char ∨ _)) by (destruct Hc as [->| ->]; by intros [?|?]). rewrite bool_decide_eq_true_2 by done.
    unfold llstr. destruct (sdsull2str_spec junk n Hn Hj) as (b & ->). bind_red. by rewrite take_app_length, IH, <-app_assoc.
  - cbn [catfmt_loop]. rewrite bool_decide_eq_true_2 by done. rewrite !not_elem_of_cons in Hc. destruct Hc as (H1 & H2 & H3 & H4 & H5 & H6 & _).
    rewrite (bool_decide_eq_false_2 (c = "s"%char)), (bool_decide_eq_false_2 (c = "S"%char)) by done.
    rewrite (bool_decide_eq_false_2 (c = "i"%char ∨ _)) by (by intros [?|?]). rewrite (bool_decide_eq_false_2 (c = "u"%char ∨ _)) by (by intros [?|?]).
    by rewrite IH, <-app_assoc.
Qed.

(** A format with the arguments it names appends what it stands for, in the fixed
    buffer for numbers and whatever was in it before. *)
Lemma sdscatfmt_appends junk s f ap r :
  length junk = SDS_LLSTR_SIZE → renders (cstr f) ap r → sdscatfmt junk s f ap = Ret (s ++ r).
Proof. intros Hj Hr. by apply catfmt_loop_spec. Qed.

Lemma sdscatfmt_example :
  sdscatfmt (replicate SDS_LLSTR_SIZE "#"%char) (str "id=") (str "%U addr=%s n=%i 100%%") [FInt ULLONG_MAX; FStr (str "::1"); FInt LLONG_MIN]
  = Ret (str "id=18446744073709551615 addr=::1 n=-9223372036854775808 100%").
Proof. vm_compute. reflexivity. Qed.

(** A percent sign at the end of the format: the loop runs over its terminator. *)
Lemma sdscatfmt_trailing_percent junk s : sdscatfmt junk s (str "100%") [] = Fail OutOfBounds.
Proof. reflexivity. Qed.

Lemma sdsmapchars_example : sdsmapchars (str "hello") (str "ho") (str "01") 2 = str "0ell1".
Proof. reflexivity. Qed.
