(* ===== verification/Args.v ===== *)
(** * Quoted arguments

    [sdscatrepr] and [sdssplitargs] of src/src/sds.c: printing a string in quotes
    with escapes, and splitting a line into arguments.  The theorem: splitting a
    line of quoted strings gives back the strings. *)
From Stdlib Require Import Ascii.
From S2P Require Import Prelude Sds.

Definition code (c : ascii) : nat := nat_of_ascii c.
Definition DQ : ascii := "034"%char.
Definition SQ : ascii := "039"%char.
Definition BS : ascii := "092"%char.

(** The C library on the characters of the "C" locale. *)
Definition isprint (c : ascii) : bool := bool_decide (32 ≤ code c ∧ code c ≤ 126).
Definition isspace (c : ascii) : bool := bool_decide (code c = 32 ∨ (9 ≤ code c ∧ code c ≤ 13)).

(** ** Printing *)

Definition hex_char (n : nat) : ascii := ascii_of_nat (if bool_decide (n < 10) then 48 + n else 87 + n).

(** The text of one character, including ["\x%02x"]. *)
Definition escape (c : ascii) : bytes :=
  if bool_decide (c = BS ∨ c = DQ) then [BS; c]
  else if bool_decide (code c = 10) then [BS; "n"%char]
  else if bool_decide (code c = 13) then [BS; "r"%char]
  else if bool_decide (code c = 9) then [BS; "t"%char]
  else if bool_decide (code c = 7) then [BS; "a"%char]
  else if bool_decide (code c = 8) then [BS; "b"%char]
  else if isprint c then [c]
  else [BS; "x"%char; hex_char (code c / 16); hex_char (code c mod 16)].

Fixpoint repr_loop (s p : bytes) : bytes :=
  match p with
  | [] => s
  | c :: p => repr_loop (s ++ escape c) p
  end.

Definition sdscatrepr (s p : bytes) : bytes := repr_loop (s ++ [DQ]) p ++ [DQ].

(** ** Splitting *)

Definition is_hex_digit (c : ascii) : bool :=
  bool_decide ((48 ≤ code c ∧ code c ≤ 57) ∨ (97 ≤ code c ∧ code c ≤ 102) ∨ (65 ≤ code c ∧ code c ≤ 70)).

Definition hex_digit_to_int (c : ascii) : nat :=
  if bool_decide (48 ≤ code c ∧ code c ≤ 57) then code c - 48
  else if bool_decide (97 ≤ code c ∧ code c ≤ 102) then code c - 87
  else if bool_decide (65 ≤ code c ∧ code c ≤ 70) then code c - 55
  else 0.

Definition unescape (c : ascii) : ascii :=
  if bool_decide (c = "n"%char) then "010"%char
  else if bool_decide (c = "r"%char) then "013"%char
  else if bool_decide (c = "t"%char) then "009"%char
  else if bool_decide (c = "b"%char) then "008"%char
  else if bool_decide (c = "a"%char) then "007"%char
  else c.

(** A closing quote must be followed by a space or nothing at all. *)
Definition closes (q : bytes) : bool := match q with [] => true | c :: _ => isspace c end.

(** The state [inq], [insq] of the scanner. *)
Inductive quoting := Plain | InQ | InSq.

(** One argument: its text and the rest of the line, [None] for unbalanced quotes. *)
Fixpoint token (m : quoting) (p : bytes) (current : bytes) : option (bytes * bytes) :=
  match m with
  | InQ =>
    match p with
    | [] => None
    | c :: q =>
      if bool_decide (c = BS) then
        match q with
        | [] => token InQ q (current ++ [c])
        | x :: q1 =>
          let simple := token InQ q1 (current ++ [unescape x]) in
          if bool_decide (x = "x"%char) then
            match q1 with
            | h1 :: h2 :: q2 =>
              if is_hex_digit h1 && is_hex_digit h2
              then token InQ q2 (current ++ [ascii_of_nat (hex_digit_to_int h1 * 16 + hex_digit_to_int h2)])
              else simple
            | _ => simple
            end
          else simple
        end
      else if bool_decide (c = DQ) then if closes q then Some (current, q) else None
      else token InQ q (current ++ [c])
    end
  | InSq =>
    match p with
    | [] => None
    | c :: q =>
      if bool_decide (c = BS) && bool_decide (head q = Some SQ) then
        match q with
        | x :: q1 => token InSq q1 (current ++ [SQ])
        | [] => None
        end
      else if bool_decide (c = SQ) then if closes q then Some (current, q) else None
      else token InSq q (current ++ [c])
    end
  | Plain =>
    match p with
    | [] => Some (current, [])
    | c :: q =>
      if bool_decide (code c = 32 ∨ code c = 10 ∨ code c = 13 ∨ code c = 9) then Some (current, q)
      else if bool_decide (c = DQ) then token InQ q current
      else if bool_decide (c = SQ) then token InSq q current
      else token Plain q (current ++ [c])
    end
  end.

Fixpoint skip_blanks (p : bytes) : bytes :=
  match p with
  | [] => []
  | c :: q => if isspace c then skip_blanks q else p
  end.

(** The outer loop; every argument takes at least one character. *)
Fixpoint split_args (fuel : nat) (p : bytes) (vector : list bytes) : option (list bytes) :=
  match skip_blanks p with
  | [] => Some vector
  | p =>
    match fuel with
    | 0 => None
    | S fuel =>
      match token Plain p [] with
      | Some (current, p) => split_args fuel p (vector ++ [current])
      | None => None
      end
    end
  end.

Definition sdssplitargs (line : bytes) : option (list bytes) :=
  split_args (length (cstr line)) (cstr line) [].

(** ** Splitting what was printed *)

Lemma token_escape c q current : token InQ (escape c ++ q) current = token InQ q (current ++ [c]).
Proof. destruct c as [[] [] [] [] [] [] [] []]; reflexivity. Qed.

Lemma escape_nul_free c : nul_free (escape c).
Proof. destruct c as [[] [] [] [] [] [] [] []]; unfold nul_free; concrete. Qed.

Lemma repr_loop_app s p : repr_loop s p = s ++ concat (escape <$> p).
Proof.
  revert s. induction p as [|c p IH]; intros s; simpl; [by rewrite app_nil_r|]. by rewrite IH, <-app_assoc.
Qed.

Lemma token_quoted p : ∀ q current,
  closes q = true → token InQ (concat (escape <$> p) ++ DQ :: q) current = Some (current ++ p, q).
Proof.
  induction p as [|c p IH]; intros q current Hq.
  - simpl. rewrite Hq. by rewrite app_nil_r.
  - simpl. rewrite <-app_assoc, token_escape, IH by done. by rewrite <-app_assoc.
Qed.

(** A line of quoted strings, with a space after each. *)
Definition quote_line (l : list bytes) : bytes := concat ((λ s, sdscatrepr [] s ++ [" "%char]) <$> l).

Lemma quoted_form s : sdscatrepr [] s = DQ :: concat (escape <$> s) ++ [DQ].
Proof. unfold sdscatrepr. by rewrite repr_loop_app. Qed.

Lemma token_first s q : closes q = true → token Plain (sdscatrepr [] s ++ q) [] = Some (s, q).
Proof.
  intros Hq. rewrite quoted_form, <-app_comm_cons, <-app_assoc. cbn [token].
  change (bool_decide (code DQ = 32 ∨ code DQ = 10 ∨ code DQ = 13 ∨ code DQ = 9)) with false. cbn iota.
  rewrite (bool_decide_eq_true_2 (DQ = DQ)) by done. by apply token_quoted.
Qed.

Lemma skip_quote s q : skip_blanks (sdscatrepr [] s ++ q) = sdscatrepr [] s ++ q.
Proof. by rewrite quoted_form. Qed.

Lemma quote_line_cons s l : quote_line (s :: l) = sdscatrepr [] s ++ " "%char :: quote_line l.
Proof. unfold quote_line. csimpl. by rewrite <-app_assoc. Qed.

Lemma skip_line l : skip_blanks (quote_line l) = quote_line l.
Proof. destruct l as [|s l]; [done|]. by rewrite quote_line_cons, skip_quote. Qed.

Lemma split_quoted l : ∀ fuel vector p,
  length l ≤ fuel → skip_blanks p = quote_line l → split_args fuel p vector = Some (vector ++ l).
Proof.
  induction l as [|s l IH]; intros fuel vector p Hf Hp.
  - destruct fuel; cbn [split_args]; rewrite Hp; by rewrite app_nil_r.
  - destruct fuel as [|fuel]; [simpl in Hf; lia|]. cbn [split_args]. rewrite Hp, quote_line_cons.
    pose proof (token_first s (" "%char :: quote_line l) eq_refl) as Ht.
    destruct (sdscatrepr [] s ++ " "%char :: quote_line l) as [|c r] eqn:E; [by rewrite quoted_form in E|].
    rewrite Ht. rewrite (IH fuel _ (" "%char :: quote_line l)); [by rewrite <-app_assoc|simpl in Hf; lia|].
    change (skip_blanks (" "%char :: quote_line l)) with (skip_blanks (quote_line l)). apply skip_line.
Qed.

Lemma quote_line_nul_free l : nul_free (quote_line l).
Proof.
  induction l as [|s l IH]; [apply nul_free_nil|]. rewrite quote_line_cons, quoted_form.
  apply nul_free_app. split; [|apply nul_free_cons; by split].
  apply nul_free_cons. split; [done|]. apply nul_free_app. split; [|unfold nul_free; concrete].
  clear. induction s as [|c s IH]; [apply nul_free_nil|]. simpl. apply nul_free_app. split; [apply escape_nul_free|done].
Qed.

Lemma quote_line_length l : length l ≤ length (quote_line l).
Proof.
  induction l as [|s l IH]; [done|]. rewrite quote_line_cons, length_app. simpl. lia.
Qed.

(** splitting a line of strings printed with [sdscatrepr] gives back exactly
    those strings, whatever bytes they contain. *)
Theorem splitargs_repr l : sdssplitargs (quote_line l) = Some l.
Proof.
  unfold sdssplitargs. rewrite cstr_id by apply quote_line_nul_free.
  apply (split_quoted l _ [] (quote_line l)); [apply quote_line_length|apply skip_line].
Qed.

(** Unbalanced quotes, and quotes followed by something, are errors. *)
Lemma splitargs_errors :
  sdssplitargs (DQ :: str "foo") = None ∧ sdssplitargs (DQ :: str "foo" ++ DQ :: str "bar") = None
  ∧ sdssplitargs (str "union a  b u1") = Some [str "union"; str "a"; str "b"; str "u1"].
Proof. by vm_compute. Qed.
