(* ===== verification/Resp.v ===== *)
(** * The wire format

    Commands travel as RESP multi bulk requests.  The three encoders of the program
    (for the output buffer of a client, for the replication backlog, for the append
    only file) and the incremental parser of src/src/networking.c, fed by reads of
    any size.  The theorem on the parser: whatever way the bytes are cut into
    reads, exactly the commands that were sent are executed, in order. *)
From Stdlib Require Import Ascii.
From S2P Require Import Prelude Sds GraphText Locate Util Args.

Definition CR : ascii := "013"%char.
Definition LF : ascii := "010"%char.
Definition CRLF : bytes := [CR; LF].

Definition PROTO_IOBUF_LEN : Z := 1024 * 16.
Definition PROTO_INLINE_MAX_SIZE : Z := 1024 * 64.
Definition PROTO_MBULK_BIG_ARG : Z := 1024 * 32.
Definition LONG_STR_SIZE : nat := 21.
Definition OBJ_SHARED_BULKHDR_LEN : Z := 32.
Definition CONFIG_DEFAULT_PROTO_MAX_BULK_LEN : Z := 512 * 1024 * 1024.
Definition PROTO_MAX_QUERYBUF_LEN : Z := 1024 * 1024 * 1024.

Definition zlen {A} (l : list A) : Z := Z.of_nat (length l).

(** ** Encoders *)

(** [sdscatprintf(sdsempty(),"*%d\r\n",j)], the shared headers. *)
Definition shared_hdr (prefix : ascii) (j : Z) : bytes := prefix :: fmt j ++ CRLF.

(** A prefix and a number, written with [ll2string] behind the first byte of a
    buffer of [size] bytes: the first [len+3] bytes. *)
Definition number_hdr (size : nat) (prefix : ascii) (ll : Z) : out bytes :=
  '(buf, len) ← ll2string (replicate (size - 1) NUL) (Z.of_nat (size - 1)) ll;
  buf ← put (prefix :: buf) (len + 1) CR;
  buf ← put buf (len + 2) LF;
  Ret (take (Z.to_nat (len + 3)) buf).

(** *** The output buffer of a client *)

Definition addReplyLongLongWithPrefix (o : bytes) (ll : Z) (prefix : ascii) : out bytes :=
  if bool_decide (prefix = "*"%char ∧ ll < OBJ_SHARED_BULKHDR_LEN ∧ ll >= 0)%Z then Ret (o ++ shared_hdr "*" ll)
  else if bool_decide (prefix = "$"%char ∧ ll < OBJ_SHARED_BULKHDR_LEN ∧ ll >= 0)%Z
  then Ret (o ++ shared_hdr "$" ll)
  else h ← number_hdr 128 prefix ll; Ret (o ++ h).

Definition addReplyMultiBulkLen (o : bytes) (length : Z) : out bytes :=
  if bool_decide (length < OBJ_SHARED_BULKHDR_LEN)%Z then Ret (o ++ shared_hdr "*" length)
  else addReplyLongLongWithPrefix o length "*".

Definition addReplyBulkLen (o obj : bytes) : out bytes :=
  if bool_decide (zlen obj < OBJ_SHARED_BULKHDR_LEN)%Z then Ret (o ++ shared_hdr "$" (zlen obj))
  else addReplyLongLongWithPrefix o (zlen obj) "$".

Definition addReplyBulk (o obj : bytes) : out bytes :=
  o ← addReplyBulkLen o obj; Ret ((o ++ obj) ++ CRLF).

(** The loop of the feed routines: a command for one slave or for the master. *)
Definition reply_command (o : bytes) (argv : list bytes) : out bytes :=
  o ← addReplyMultiBulkLen o (zlen argv); out_fold addReplyBulk o argv.

(** *** The replication backlog *)

Definition backlog_arg (o a : bytes) : out bytes :=
  h ← number_hdr (LONG_STR_SIZE + 3) "$" (zlen a); Ret (((o ++ h) ++ a) ++ CRLF).

Definition backlog_command (o : bytes) (argv : list bytes) : out bytes :=
  h ← number_hdr (LONG_STR_SIZE + 3) "*" (zlen argv); out_fold backlog_arg (o ++ h) argv.

(** *** The append only file *)

Definition aof_arg (dst a : bytes) : out bytes :=
  h ← number_hdr 32 "$" (zlen a);
  Ret (sdscatlen (sdscatlen (sdscatlen dst h (length h)) a (length a)) CRLF 2).

Definition catAppendOnlyGenericCommand (dst : bytes) (argv : list bytes) : out bytes :=
  h ← number_hdr 32 "*" (zlen argv); out_fold aof_arg (sdscatlen dst h (length h)) argv.

(** ** The parser *)

(** The fields of a client the parser uses; [bulklen] is [None] for -1,
    [closing] is the flag CLIENT_CLOSE_AFTER_REPLY. *)
Record inbuf := mk_in {
  querybuf : bytes; reqtype : Z; multibulklen : nat; bulklen : option Z; in_argv : list bytes;
  closing : bool }.

Definition PROTO_REQ_INLINE : Z := 1.
Definition PROTO_REQ_MULTIBULK : Z := 2.

Definition resetClient (c : inbuf) : inbuf := mk_in (querybuf c) 0 0 None [] (closing c).

(** [setProtocolError(errstr,c,pos)] *)
Definition setProtocolError (c : inbuf) (pos : nat) : inbuf :=
  mk_in (sdsrange (querybuf c) (Z.of_nat pos) (-1)) (reqtype c) (multibulklen c) (bulklen c) (in_argv c) true.

(** [strchr(s,c)], as an index. *)
Definition strchr_at (s : bytes) (c : ascii) : option nat := fst <$> list_find (λ x, x = c) (cstr s).

(** What the header of a bulk argument gives: an error, not enough data, or the
    buffer, the position behind it and the length. *)
Inductive header := HError (pos : nat) | HMore | HLen (qb : bytes) (pos : nat) (ll : Z).

Definition bulk_header (qb : bytes) (pos : nat) : header :=
  match strchr_at (drop pos qb) CR with
  | None => if bool_decide (zlen qb > PROTO_INLINE_MAX_SIZE)%Z then HError 0 else HMore
  | Some k =>
    if bool_decide (Z.of_nat (pos + k) > zlen qb - 2)%Z then HMore
    else if bool_decide (qb !! pos ≠ Some "$"%char) then HError pos
    else
      match string2ll (take (k - 1) (drop (S pos) qb)) with
      | None => HError pos
      | Some ll =>
        if bool_decide (ll < 0 ∨ ll > CONFIG_DEFAULT_PROTO_MAX_BULK_LEN)%Z then HError pos
        else
          let pos := pos + k + 2 in
          if bool_decide (ll >= PROTO_MBULK_BIG_ARG)%Z then HLen (sdsrange qb (Z.of_nat pos) (-1)) 0 ll
          else HLen qb pos ll
      end
  end.

Definition trim (qb : bytes) (pos : nat) : bytes :=
  if bool_decide (pos = 0) then qb else sdsrange qb (Z.of_nat pos) (-1).

(** The loop over the arguments; [true] is C_OK. *)
Fixpoint bulk_loop (n : nat) (c : inbuf) (pos : nat) : inbuf * bool :=
  match n with
  | 0 => (mk_in (trim (querybuf c) pos) (reqtype c) 0 (bulklen c) (in_argv c) (closing c), true)
  | S n' =>
    match (match bulklen c with Some b => HLen (querybuf c) pos b | None => bulk_header (querybuf c) pos end) with
    | HError p => (setProtocolError (mk_in (querybuf c) (reqtype c) n (bulklen c) (in_argv c) (closing c)) p, false)
    | HMore => (mk_in (trim (querybuf c) pos) (reqtype c) n (bulklen c) (in_argv c) (closing c), false)
    | HLen qb pos ll =>
      if bool_decide (zlen qb - Z.of_nat pos < ll + 2)%Z then
        (mk_in (trim qb pos) (reqtype c) n (Some ll) (in_argv c) (closing c), false)
      else if bool_decide (pos = 0 ∧ (ll >= PROTO_MBULK_BIG_ARG)%Z ∧ (zlen qb = ll + 2)%Z) then
        bulk_loop n' (mk_in [] (reqtype c) n' None (in_argv c ++ [take (length qb - 2) qb]) (closing c)) 0
      else
        bulk_loop n' (mk_in qb (reqtype c) n' None (in_argv c ++ [take (Z.to_nat ll) (drop pos qb)]) (closing c))
          (pos + Z.to_nat (ll + 2))
    end
  end.

Definition processMultibulkBuffer (c : inbuf) : out (inbuf * bool) :=
  if bool_decide (multibulklen c = 0) then
    if bool_decide (in_argv c ≠ []) then Fail AssertFail
    else
      match strchr_at (querybuf c) CR with
      | None =>
        Ret (if bool_decide (zlen (querybuf c) > PROTO_INLINE_MAX_SIZE)%Z then setProtocolError c 0 else c, false)
      | Some k =>
        if bool_decide (Z.of_nat k > zlen (querybuf c) - 2)%Z then Ret (c, false)
        else if bool_decide (querybuf c !! 0 ≠ Some "*"%char) then Fail AssertFail
        else
          match string2ll (take (k - 1) (drop 1 (querybuf c))) with
          | None => Ret (setProtocolError c 0, false)
          | Some ll =>
            if bool_decide (ll > 1024 * 1024)%Z then Ret (setProtocolError c 0, false)
            else if bool_decide (ll <= 0)%Z then
              Ret (mk_in (sdsrange (querybuf c) (Z.of_nat (k + 2)) (-1)) (reqtype c) (multibulklen c) (bulklen c)
                     (in_argv c) (closing c), true)
            else Ret (bulk_loop (Z.to_nat ll) c (k + 2))
          end
      end
  else Ret (bulk_loop (multibulklen c) c 0).

(** Inline commands: a line of arguments. *)
Definition processInlineBuffer (c : inbuf) : inbuf * bool :=
  match strchr_at (querybuf c) LF with
  | None => (if bool_decide (zlen (querybuf c) > PROTO_INLINE_MAX_SIZE)%Z then setProtocolError c 0 else c, false)
  | Some k =>
    let querylen := if bool_decide (k ≠ 0 ∧ querybuf c !! (k - 1) = Some CR) then k - 1 else k in
    match sdssplitargs (take querylen (querybuf c)) with
    | None => (setProtocolError c 0, false)
    | Some argv =>
      (mk_in (sdsrange (querybuf c) (Z.of_nat (querylen + 2)) (-1)) (reqtype c) (multibulklen c) (bulklen c)
         (filter (λ a, a ≠ []) argv) (closing c), true)
    end
  end.

(** One turn of the loop of [processInputBuffer]: the request type from the first
    byte, when unknown, and the parser for it. *)
Definition next_request (c : inbuf) : out (inbuf * bool) :=
  let c := if bool_decide (reqtype c = 0)%Z
           then mk_in (querybuf c)
                  (if bool_decide (querybuf c !! 0 = Some "*"%char) then PROTO_REQ_MULTIBULK else PROTO_REQ_INLINE)
                  (multibulklen c) (bulklen c) (in_argv c) (closing c)
           else c in
  if bool_decide (reqtype c = PROTO_REQ_INLINE) then Ret (processInlineBuffer c)
  else if bool_decide (reqtype c = PROTO_REQ_MULTIBULK) then processMultibulkBuffer c
  else Fail AssertFail.

(** The loop over the commands in the buffer: the argument vectors handed to
    [processCommand], in order, the buffer that is left, and the applied offset
    [reploff], which a command of the master ([master] is [Some read_reploff])
    moves to what is read less what is still in the buffer.  Commands leave the
    connection open, are not blocked and do not open a transaction. *)
Fixpoint input_loop (fuel : nat) (c : inbuf) (master : option Z) (reploff : Z)
    : out (inbuf * list (list bytes) * Z) :=
  if bool_decide (querybuf c = []) then Ret (c, [], reploff)
  else if closing c then Ret (c, [], reploff)
  else
    '(c, ok) ← next_request c;
    if negb ok then Ret (c, [], reploff)
    else
      match fuel with
      | 0 => Fail OutOfFuel
      | S fuel =>
        if bool_decide (in_argv c = []) then input_loop fuel (resetClient c) master reploff
        else
          let reploff := match master with Some read_reploff => (read_reploff - zlen (querybuf c))%Z
                                         | None => reploff end in
          '(c', cmds, off) ← input_loop fuel (resetClient c) master reploff;
          Ret (c', in_argv c :: cmds, off)
      end.

Definition processInputBuffer (c : inbuf) (master : option Z) (reploff : Z) : out (inbuf * list (list bytes) * Z) :=
  input_loop (length (querybuf c)) c master reploff.

(** How much [readQueryFromClient] asks for. *)
Definition readlen (c : inbuf) : Z :=
  match bulklen c with
  | Some b =>
    if bool_decide (reqtype c = PROTO_REQ_MULTIBULK ∧ multibulklen c ≠ 0 ∧ (b >= PROTO_MBULK_BIG_ARG)%Z)
    then Z.min PROTO_IOBUF_LEN (b + 2 - zlen (querybuf c)) else PROTO_IOBUF_LEN
  | None => PROTO_IOBUF_LEN
  end.

(** [data] has arrived: [None] when the buffer is over the limit and the client
    is freed. *)
Definition readQueryFromClient (c : inbuf) (data : bytes) : out (option (inbuf * list (list bytes))) :=
  let c := mk_in (querybuf c ++ data) (reqtype c) (multibulklen c) (bulklen c) (in_argv c) (closing c) in
  if bool_decide (zlen (querybuf c) > PROTO_MAX_QUERYBUF_LEN)%Z then Ret None
  else '(c, cmds, _) ← processInputBuffer c None 0; Ret (Some (c, cmds)).

(** Reading a stream: each number is how many bytes the kernel returns at most. *)
Fixpoint receive (c : inbuf) (stream : bytes) (reads : list nat) : out (option (inbuf * list (list bytes))) :=
  match stream, reads with
  | [], _ | _, [] => Ret (Some (c, []))
  | _, n :: reads =>
    let k := Z.to_nat (Z.min (Z.of_nat n) (readlen c)) in
    r ← readQueryFromClient c (take k stream);
    match r with
    | None => Ret None
    | Some (c, cmds) =>
      r ← receive c (drop k stream) reads;
      Ret (match r with Some (c, cmds') => Some (c, cmds ++ cmds') | None => None end)
    end
  end.

Definition createClient : inbuf := mk_in [] 0 0 None [] false.

(** An inline command that ends in a newline only: two bytes are skipped after
    the line, and the first byte of the next command is lost. *)
Lemma inline_newline_skips :
  ∃ c, processInputBuffer (mk_in (str "ping" ++ LF :: str "find a u" ++ [LF]) 0 0 None [] false) None 0 =
    Ret (c, [[str "ping"]; [str "ind"; str "a"; str "u"]], 0%Z).
Proof. eexists. vm_compute. reflexivity. Qed.

(** ** The encoders agree *)

Definition hdr (prefix : ascii) (n : Z) : bytes := prefix :: fmt n ++ CRLF.
Definition bulk (a : bytes) : bytes := hdr "$" (zlen a) ++ a ++ CRLF.
Definition encode (argv : list bytes) : bytes := hdr "*" (zlen argv) ++ concat (bulk <$> argv).

Lemma number_hdr_spec size prefix n :
  (LLONG_MIN ≤ n ≤ LLONG_MAX)%Z → 24 ≤ size → number_hdr size prefix n = Ret (hdr prefix n).
Proof.
  intros Hn Hs. pose proof (fmt_length n Hn) as Hl. unfold number_hdr.
  rewrite ll2string_spec by (rewrite ?length_replicate; (done || lia)).
  rewrite bool_decide_eq_true_2 by lia. bind_red.
  set (rest := drop (S (length (fmt n))) (replicate (size - 1) NUL)).
  assert (∃ y1 y2, NUL :: rest = NUL :: y1 :: y2) as (y1 & y2 & Ey).
  { destruct rest as [|y1 y2] eqn:E; [|by exists y1, y2]. apply (f_equal length) in E.
    unfold rest in E. rewrite length_drop, length_replicate in E. simpl in E. lia. }
  rewrite Ey. pose proof (put_app (prefix :: fmt n) NUL (y1 :: y2) CR) as E1.
  pose proof (put_app ((prefix :: fmt n) ++ [CR]) y1 y2 LF) as E2. rewrite <-!app_assoc in E2.
  rewrite length_app in E2. simpl in E1, E2.
  replace (Z.of_nat (length (fmt n)) + 1)%Z with (Z.of_nat (S (length (fmt n)))) by lia. rewrite E1. bind_red.
  replace (Z.of_nat (length (fmt n)) + 2)%Z with (Z.of_nat (S (length (fmt n) + 1))) by lia. rewrite E2. bind_red.
  replace (Z.to_nat (Z.of_nat (length (fmt n)) + 3)) with (length (hdr prefix n)).
  2:{ unfold hdr. simpl. rewrite length_app. simpl. lia. }
  f_equal. change (prefix :: fmt n ++ CR :: LF :: y2) with (prefix :: (fmt n ++ CRLF ++ y2)).
  rewrite app_assoc, app_comm_cons. apply take_app_length.
Qed.

(** Lengths the machine can have. *)
Definition sized (argv : list bytes) : Prop := (zlen argv ≤ LLONG_MAX)%Z ∧ Forall (λ a, (zlen a ≤ LLONG_MAX)%Z) argv.

Lemma zlen_app {A} (l1 l2 : list A) : zlen (l1 ++ l2) = (zlen l1 + zlen l2)%Z.
Proof. unfold zlen. rewrite length_app. lia. Qed.

Lemma zlen_nonneg {A} (l : list A) : (0 ≤ zlen l)%Z.
Proof. unfold zlen. lia. Qed.

Lemma long_range n : (0 ≤ n ≤ LLONG_MAX)%Z → (LLONG_MIN ≤ n ≤ LLONG_MAX)%Z.
Proof. unfold LLONG_MIN, LLONG_MAX. lia. Qed.

Lemma fold_bulks (f : bytes → bytes → out bytes) argv :
  (∀ o a, a ∈ argv → f o a = Ret (o ++ bulk a)) →
  ∀ o, out_fold f o argv = Ret (o ++ concat (bulk <$> argv)).
Proof.
  intros Hf. induction argv as [|a argv IH]; intros o; cbn [out_fold]; [simpl; by rewrite app_nil_r|].
  rewrite Hf by by left. bind_red. rewrite IH by (intros; apply Hf; by right). simpl. by rewrite <-app_assoc.
Qed.

(** C28: the three encoders, for the output buffer of a slave or of the master,
    for the replication backlog and for the append only file, write the same bytes:
    the shared headers, the fixed buffers and [ll2string] make no difference. *)
Theorem encoders_agree o argv :
  sized argv →
  reply_command o argv = Ret (o ++ encode argv)
  ∧ backlog_command o argv = Ret (o ++ encode argv)
  ∧ catAppendOnlyGenericCommand o argv = Ret (o ++ encode argv).
Proof.
  intros [Hn Ha]. rewrite Forall_forall in Ha.
  assert (∀ size a, 24 ≤ size → a ∈ argv → number_hdr size "$" (zlen a) = Ret (hdr "$" (zlen a))) as HB.
  { intros size a Hs Hin. apply number_hdr_spec; [apply long_range; split; [apply zlen_nonneg|by apply Ha]|done]. }
  assert (∀ size, 24 ≤ size → number_hdr size "*" (zlen argv) = Ret (hdr "*" (zlen argv))) as HM.
  { intros size Hs. apply number_hdr_spec; [apply long_range; split; [apply zlen_nonneg|done]|done]. }
  unfold encode. split_and!.
  - assert (∀ o' a, a ∈ argv → addReplyBulk o' a = Ret (o' ++ bulk a)) as HF.
    { intros o' a Hin. unfold addReplyBulk, addReplyBulkLen, addReplyLongLongWithPrefix. rewrite HB by first [done | lia].
      unfold bulk, shared_hdr, hdr. repeat case_bool_decide; destruct_and?; simplify_eq; bind_red; simpl; by rewrite <-?app_assoc; simpl; rewrite <-?app_assoc. }
    unfold reply_command, addReplyMultiBulkLen, addReplyLongLongWithPrefix. rewrite HM by lia.
    repeat case_bool_decide; destruct_and?; simplify_eq; bind_red; rewrite (fold_bulks addReplyBulk) by done; by rewrite <-app_assoc.
  - unfold backlog_command. rewrite HM by (unfold LONG_STR_SIZE; lia). bind_red.
    rewrite (fold_bulks backlog_arg); [by rewrite <-app_assoc|].
    intros o' a Hin. unfold backlog_arg. rewrite HB by first [done | unfold LONG_STR_SIZE; lia]. bind_red.
    unfold bulk. by rewrite !(assoc_L (++)).
  - unfold catAppendOnlyGenericCommand. rewrite HM by lia. bind_red. unfold sdscatlen at 1. rewrite firstn_all.
    rewrite (fold_bulks aof_arg); [by rewrite <-app_assoc|].
    intros o' a Hin. unfold aof_arg, sdscatlen. rewrite HB by first [done | lia]. bind_red.
    rewrite !firstn_all. unfold bulk. by rewrite !(assoc_L (++)).
Qed.

Definition encoders_sample : list bytes := [str "union"; str "x"; str "1,2"; replicate 40 "a"%char].

Lemma encoders_agree_witness :
  reply_command [] encoders_sample = Ret (encode encoders_sample)
  ∧ backlog_command [] encoders_sample = Ret (encode encoders_sample)
  ∧ catAppendOnlyGenericCommand [] encoders_sample = Ret (encode encoders_sample).
Proof.
  apply (encoders_agree [] encoders_sample). split; [by vm_compute|]. repeat constructor; by vm_compute.
Defined.

(** ** The parser reads what the encoders write *)

Lemma sdsrange_drop s pos : pos ≤ length s → sdsrange s (Z.of_nat pos) (-1) = drop pos s.
Proof.
  intros Hp. unfold sdsrange.
  destruct (decide (length s = 0)) as [E|E].
  { rewrite bool_decide_eq_true_2 by lia. apply nil_length_inv in E as ->. by rewrite drop_nil. }
  repeat (case_bool_decide; try lia); try (rewrite drop_ge by lia; done).
  rewrite Nat2Z.id. apply take_ge. rewrite length_drop. lia.
Qed.

Lemma trim_drop qb pos : pos ≤ length qb → trim qb pos = drop pos qb.
Proof. intros Hp. unfold trim. case_bool_decide as E; [by rewrite E|by apply sdsrange_drop]. Qed.

(** A line that is only partly in the buffer. *)
Lemma strchr_line p : ∀ s fut t,
  nul_free p → CR ∉ p → s ++ fut = p ++ CR :: t →
  strchr_at s CR = if bool_decide (length p < length s) then Some (length p) else None.
Proof.
  induction p as [|x p IH]; intros s fut t Hn Hc E.
  - destruct s as [|y s]; [done|]. by injection E as -> E.
  - destruct s as [|y s]; [done|]. injection E as -> E.
    apply nul_free_cons in Hn as [Hx Hn]. apply not_elem_of_cons in Hc as [Hxc Hc].
    specialize (IH s fut t Hn Hc E). unfold strchr_at in *. cbn [cstr].
    rewrite bool_decide_eq_false_2 by done. cbn [list_find].
    destruct (decide (x = CR)) as [->|_]; [done|].
    destruct (list_find (λ x, x = CR) (cstr s)) as [[i y]|]; simpl in *.
    all: repeat case_bool_decide; simpl in *; try lia; congruence.
Qed.

Lemma fmt_plain n : nul_free (fmt n) ∧ CR ∉ fmt n.
Proof.
  assert (∀ v, (0 ≤ v)%Z → nul_free (dec v) ∧ CR ∉ dec v) as Hd.
  { intros v Hv. pose proof (dec_digits v Hv) as H. rewrite Forall_forall in H.
    split; intros Hin; destruct (H _ Hin) as [Hd _]; by apply Hd. }
  destruct (decide (0 ≤ n)%Z); [rewrite fmt_nonneg by done; by apply Hd|].
  rewrite fmt_neg by lia. destruct (Hd (- n)%Z) as [H1 H2]; [lia|].
  split; [apply nul_free_cons|apply not_elem_of_cons]; split; done.
Qed.

Lemma length_hdr prefix n : length (hdr prefix n) = length (fmt n) + 3.
Proof. unfold hdr. simpl. rewrite length_app. simpl. lia. Qed.

(** Two ways to cut the same bytes. *)
Lemma cut_long {A} (s fut p t : list A) :
  s ++ fut = p ++ t → length p ≤ length s → s = p ++ drop (length p) s ∧ drop (length p) s ++ fut = t.
Proof.
  intros E Hl. assert (take (length p) s = p) as Ep.
  { apply (f_equal (take (length p))) in E. by rewrite take_app_le, take_app_length in E by lia. }
  rewrite <-(take_drop (length p) s) in E. rewrite Ep, <-app_assoc in E. apply app_inv_head in E.
  split; [|done]. by rewrite <-Ep at 1; rewrite take_drop.
Qed.

(** The header of a line: not there yet, or the number behind the prefix. *)
Lemma header_found prefix n s fut t :
  prefix ≠ NUL → prefix ≠ CR → s ++ fut = hdr prefix n ++ t →
  strchr_at s CR = (if bool_decide (length (fmt n) + 1 < length s) then Some (length (fmt n) + 1) else None)
  ∧ (length (hdr prefix n) ≤ length s → s !! 0 = Some prefix ∧ take (length (fmt n)) (drop 1 s) = fmt n).
Proof.
  intros H0 H1 E. destruct (fmt_plain n) as [Hn Hc]. split.
  - rewrite (strchr_line (prefix :: fmt n) s fut (LF :: t)); simpl.
    + by rewrite Nat.add_1_r.
    + by apply nul_free_cons.
    + by apply not_elem_of_cons.
    + rewrite E. unfold hdr, CRLF. simpl. by rewrite <-app_assoc.
  - intros Hl. destruct (cut_long _ _ _ _ E Hl) as [-> _]. split; [done|].
    unfold hdr. simpl. rewrite <-!app_assoc. apply take_app_length.
Qed.

Lemma bulk_header_spec qb pos fut n t :
  pos ≤ length qb → (zlen qb ≤ PROTO_INLINE_MAX_SIZE)%Z → (0 ≤ n ≤ CONFIG_DEFAULT_PROTO_MAX_BULK_LEN)%Z →
  drop pos qb ++ fut = hdr "$" n ++ t →
  bulk_header qb pos =
    if bool_decide (pos + length (hdr "$" n) ≤ length qb) then
      if bool_decide (PROTO_MBULK_BIG_ARG ≤ n)%Z then HLen (drop (pos + length (hdr "$" n)) qb) 0 n
      else HLen qb (pos + length (hdr "$" n)) n
    else HMore.
Proof.
  intros Hp Hz Hn E. destruct (header_found "$" n _ _ _ ltac:(done) ltac:(done) E) as [HC HL].
  rewrite length_hdr, length_drop in *. unfold bulk_header. rewrite HC. unfold zlen in *.
  case_bool_decide as H1; [|rewrite !bool_decide_eq_false_2 by lia; done].
  case_bool_decide as H2; [rewrite bool_decide_eq_false_2 by lia; done|].
  rewrite (bool_decide_eq_true_2 (pos + (length (fmt n) + 3) ≤ length qb)) by lia. destruct HL as [HL1 HL2]; [lia|].
  rewrite lookup_drop, Nat.add_0_r in HL1. rewrite drop_drop in HL2.
  rewrite bool_decide_eq_false_2 by (intros Q; by apply Q).
  replace (length (fmt n) + 1 - 1) with (length (fmt n)) by lia. replace (S pos) with (pos + 1) by lia. rewrite HL2.
  rewrite (proj2 (string2ll_iff (fmt n) n)) by (split; [done|]; apply long_range; revert Hn;
    unfold CONFIG_DEFAULT_PROTO_MAX_BULK_LEN, LLONG_MAX; lia).
  rewrite bool_decide_eq_false_2 by lia.
  replace (pos + (length (fmt n) + 1) + 2) with (pos + (length (fmt n) + 3)) by lia.
  repeat case_bool_decide; try lia; [|done]. by rewrite sdsrange_drop by lia.
Qed.

(** What is still to come of a command: the arguments [todo], the first of them
    without its header when its length is known. *)
Definition body (bl : option Z) (todo : list bytes) : bytes :=
  match bl, todo with
  | Some _, a :: rest => (a ++ CRLF) ++ concat (bulk <$> rest)
  | _, _ => concat (bulk <$> todo)
  end.

Definition starts (bl : option Z) (a : bytes) : Prop := bl = None ∨ bl = Some (zlen a).

(** The bytes the parser waits for. *)
Definition awaited (bl : option Z) (a : bytes) : nat :=
  match bl with None => length (hdr "$" (zlen a)) | Some _ => length a + 2 end.

(** The query buffer is small, or holds (part of) one big argument only. *)
Definition fits (bl : option Z) (qb : bytes) (pos : nat) : Prop :=
  (zlen qb ≤ PROTO_INLINE_MAX_SIZE)%Z
  ∨ pos = 0 ∧ ∃ b, bl = Some b ∧ (PROTO_MBULK_BIG_ARG ≤ b)%Z ∧ (zlen qb ≤ b + 2)%Z.

Definition short (a : bytes) : Prop := (zlen a ≤ CONFIG_DEFAULT_PROTO_MAX_BULK_LEN)%Z.

(** Either all arguments were read, or the parser stopped in front of one. *)
Definition bulks_read (r : inbuf * bool) (don todo : list bytes) (fut more : bytes) : Prop :=
  ∃ qb,
    (r = (mk_in qb PROTO_REQ_MULTIBULK 0 None (don ++ todo) false, true)
     ∧ qb ++ fut = more ∧ (zlen qb ≤ PROTO_INLINE_MAX_SIZE)%Z)
    ∨ (∃ don' a rest bl,
         todo = don' ++ a :: rest ∧ starts bl a ∧ length qb < awaited bl a
         ∧ r = (mk_in qb PROTO_REQ_MULTIBULK (S (length rest)) bl (don ++ don') false, false)
         ∧ qb ++ fut = body bl (a :: rest) ++ more).

Lemma bulks_read_shift r don a todo fut more :
  bulks_read r (don ++ [a]) todo fut more → bulks_read r don (a :: todo) fut more.
Proof.
  intros (qb & [(E & H) | (don' & a' & rest & bl & -> & Hs & Hl & E & H)]); exists qb.
  - left. by rewrite <-app_assoc in E.
  - right. exists (a :: don'), a', rest, bl. by rewrite <-app_assoc in E.
Qed.

Definition loop_reads (todo : list bytes) : Prop := ∀ bl m don qb pos fut more,
  match todo with [] => bl = None | a :: _ => starts bl a end → pos ≤ length qb → fits bl qb pos →
  drop pos qb ++ fut = body bl todo ++ more →
  bulks_read (bulk_loop (length todo) (mk_in qb PROTO_REQ_MULTIBULK m bl don false) pos) don todo fut more.

(** One argument whose length is known. *)
Lemma bulk_known a rest m don qb pos fut more :
  loop_reads rest → pos ≤ length qb → fits (Some (zlen a)) qb pos →
  drop pos qb ++ fut = body (Some (zlen a)) (a :: rest) ++ more →
  bulks_read (bulk_loop (S (length rest)) (mk_in qb PROTO_REQ_MULTIBULK m (Some (zlen a)) don false) pos)
    don (a :: rest) fut more.
Proof.
  intros IH Hp Hf E. cbn [bulk_loop bulklen querybuf].
  case_bool_decide as H1; simpl.
  { exists (trim qb pos). right. exists [], a, rest, (Some (zlen a)). rewrite app_nil_r, trim_drop by done.
    split_and!; [done|by right| |done|done]. simpl. rewrite length_drop. unfold zlen in H1. lia. }
  unfold zlen in H1. simpl in E. rewrite <-app_assoc in E.
  destruct (cut_long _ _ _ _ E) as [Eq Er]; [rewrite length_app, length_drop; simpl; lia|].
  rewrite drop_drop, length_app in *. simpl in Eq, Er.
  apply bulks_read_shift. case_bool_decide as H2.
  - destruct H2 as (-> & Hb & Hq). unfold zlen in Hq. rewrite drop_0 in *.
    replace (take (length qb - 2) qb) with a.
    2:{ rewrite Eq at 2. rewrite <-app_assoc. replace (length qb - 2) with (length a) by lia. by rewrite take_app_length. }
    apply IH; [destruct rest; by try left|simpl; lia|left; by vm_compute|]. simpl.
    rewrite drop_ge in Er by (simpl; lia). exact Er.
  - replace (take (Z.to_nat (zlen a)) (drop pos qb)) with a.
    2:{ rewrite Eq. unfold zlen. rewrite Nat2Z.id, <-app_assoc. by rewrite take_app_length. }
    replace (pos + Z.to_nat (zlen a + 2)) with (pos + (length a + 2)) by (unfold zlen; lia).
    apply IH; [destruct rest; by try left|lia| |exact Er]. left.
    destruct Hf as [Hf | (-> & b & [= <-] & Hb & Hq)]; [done|]. exfalso. apply H2. unfold zlen in *. lia.
Qed.

Lemma bulk_loop_spec todo : Forall short todo → loop_reads todo.
Proof.
  induction 1 as [|a todo Ha _ IH]; intros bl m don qb pos fut more Hbl Hp Hf E.
  - subst bl. exists (trim qb pos). left. simpl in *. rewrite app_nil_r, trim_drop by done.
    split_and!; [done|done|]. destruct Hf as [Hf | (-> & b & Hb & _)]; [|done].
    unfold zlen in *. rewrite length_drop. lia.
  - destruct Hbl as [-> | ->]; [|by apply bulk_known].
    destruct Hf as [Hf | (-> & b & Hb & _)]; [|done].
    cbn [body fmap list_fmap concat] in E.
    change (bulk a) with (hdr "$" (zlen a) ++ a ++ CRLF) in E. rewrite <-!app_assoc in E.
    cbn [length bulk_loop bulklen querybuf].
    rewrite (bulk_header_spec qb pos fut (zlen a) _ Hp Hf ltac:(split; [apply zlen_nonneg|done]) E).
    case_bool_decide as H1; [|exists (trim qb pos); right; exists [], a, todo, None].
    + destruct (cut_long _ _ _ _ E) as [_ Er]; [rewrite length_drop; lia|]. rewrite drop_drop in Er.
      pose proof (bulk_known a todo m don) as HK.
      case_bool_decide as H2.
      * apply (HK (drop (pos + length (hdr "$" (zlen a))) qb) 0 fut more IH); [lia| |].
        { left. unfold zlen in *. rewrite length_drop. lia. }
        rewrite drop_0, Er. simpl. by rewrite <-!app_assoc.
      * apply (HK qb (pos + length (hdr "$" (zlen a))) fut more IH); [done|by left|].
        rewrite Er. simpl. by rewrite <-!app_assoc.
    + rewrite app_nil_r, trim_drop by done. split_and!; [done|by left| |done|].
      * rewrite length_drop. cbn [awaited]. lia.
      * rewrite E. cbn [body fmap list_fmap concat].
        change (bulk a) with (hdr "$" (zlen a) ++ a ++ CRLF). by rewrite <-!app_assoc.
Qed.

(** A command a client may send: at least one argument, at most 2^20 of them. *)
Definition sendable (argv : list bytes) : Prop :=
  argv ≠ [] ∧ (zlen argv ≤ 1024 * 1024)%Z ∧ Forall short argv.

Definition wire (cmds : list (list bytes)) : bytes := concat (encode <$> cmds).

(** The parser with [fut] still to be read, about to execute [cmds]: between two
    commands, at the count of a command, at an argument; the last number is
    how many bytes the next step needs. *)
Inductive parsing (fut : bytes) : inbuf → list (list bytes) → nat → Prop :=
  | at_rest qb cmds : qb ++ fut = wire cmds → parsing fut (mk_in qb 0 0 None [] false) cmds 1
  | at_count qb cmd cmds :
      qb ++ fut = wire (cmd :: cmds) →
      parsing fut (mk_in qb PROTO_REQ_MULTIBULK 0 None [] false) (cmd :: cmds) (length (hdr "*" (zlen cmd)))
  | at_bulk qb bl don a rest cmds :
      starts bl a → qb ++ fut = body bl (a :: rest) ++ wire cmds →
      parsing fut (mk_in qb PROTO_REQ_MULTIBULK (S (length rest)) bl don false) ((don ++ a :: rest) :: cmds)
        (awaited bl a).

Definition waiting (fut : bytes) (c : inbuf) (cmds : list (list bytes)) : Prop :=
  ∃ n, parsing fut c cmds n ∧ length (querybuf c) < n.

(** What [processMultibulkBuffer] does with the next command. *)
Definition command_read (r : inbuf * bool) (fut : bytes) (cmd : list bytes) (cmds : list (list bytes)) : Prop :=
  (∃ qb, r = (mk_in qb PROTO_REQ_MULTIBULK 0 None cmd false, true)
     ∧ qb ++ fut = wire cmds ∧ (zlen qb ≤ PROTO_INLINE_MAX_SIZE)%Z)
  ∨ (r.2 = false ∧ waiting fut r.1 (cmd :: cmds)).

Lemma bulks_read_command r don todo fut cmds :
  bulks_read r don todo fut (wire cmds) → command_read r fut (don ++ todo) cmds.
Proof.
  intros (qb & [H | (don' & a & rest & bl & -> & Hs & Hl & -> & E)]); [left; by exists qb|].
  right. split; [done|]. exists (awaited bl a). split; [|done]. rewrite app_assoc. by apply at_bulk.
Qed.

Lemma parsing_count qb fut cmd cmds :
  qb ++ fut = wire (cmd :: cmds) → sendable cmd → (zlen qb ≤ PROTO_INLINE_MAX_SIZE)%Z →
  ∃ r, processMultibulkBuffer (mk_in qb PROTO_REQ_MULTIBULK 0 None [] false) = Ret r ∧ command_read r fut cmd cmds.
Proof.
  intros E (Hne & Hmax & Hs) Hz.
  assert (qb ++ fut = hdr "*" (zlen cmd) ++ concat (bulk <$> cmd) ++ wire cmds) as E'.
  { rewrite E. unfold wire. cbn [fmap list_fmap concat]. unfold encode. by rewrite <-app_assoc. }
  destruct (header_found "*" (zlen cmd) _ _ _ ltac:(done) ltac:(done) E') as [HC HL]. rewrite length_hdr in *.
  assert (0 < zlen cmd)%Z as Hpos by (destruct cmd; [done|unfold zlen; simpl; lia]).
  assert (length qb < length (fmt (zlen cmd)) + 3 →
    command_read (mk_in qb PROTO_REQ_MULTIBULK 0 None [] false, false) fut cmd cmds) as HW.
  { intros Hl. right. split; [done|]. eexists. split; [by apply at_count|]. rewrite length_hdr. simpl. lia. }
  unfold processMultibulkBuffer. cbn [multibulklen in_argv querybuf]. rewrite (bool_decide_eq_true_2 (0 = 0)) by done.
  rewrite (bool_decide_eq_false_2 (([] : list bytes) ≠ [])) by (intros Q; by apply Q). rewrite HC. unfold zlen in Hz.
  case_bool_decide as H1; [|exists (mk_in qb PROTO_REQ_MULTIBULK 0 None [] false, false); split; [|apply HW; lia]].
  2:{ rewrite (bool_decide_eq_false_2 (zlen qb > PROTO_INLINE_MAX_SIZE)%Z) by (unfold zlen; lia). done. }
  case_bool_decide as H2; change (zlen qb) with (Z.of_nat (length qb)) in H2; [eexists; split; [done|apply HW; lia]|].
  destruct HL as [HL1 HL2]; [lia|].
  rewrite bool_decide_eq_false_2 by (intros Q; by apply Q).
  replace (length (fmt (zlen cmd)) + 1 - 1) with (length (fmt (zlen cmd))) by lia. rewrite HL2.
  rewrite (proj2 (string2ll_iff (fmt (zlen cmd)) (zlen cmd))) by (split; [done|]; apply long_range; unfold LLONG_MAX; lia).
  rewrite !bool_decide_eq_false_2 by lia. eexists. split; [done|]. unfold zlen at 1. rewrite Nat2Z.id.
  apply (bulks_read_command _ [] cmd). apply bulk_loop_spec; [done|destruct cmd; by try left|lia|by left|].
  destruct (cut_long _ _ _ _ E') as [_ Er]; [rewrite length_hdr; lia|]. rewrite length_hdr in Er.
  replace (length (fmt (zlen cmd)) + 1 + 2) with (length (fmt (zlen cmd)) + 3) by lia. done.
Qed.

Lemma parsing_bulk qb bl don a rest fut cmds :
  starts bl a → qb ++ fut = body bl (a :: rest) ++ wire cmds → sendable (don ++ a :: rest) → fits bl qb 0 →
  ∃ r, processMultibulkBuffer (mk_in qb PROTO_REQ_MULTIBULK (S (length rest)) bl don false) = Ret r
    ∧ command_read r fut (don ++ a :: rest) cmds.
Proof.
  intros Hb E (_ & _ & Hs) Hf. eexists. split; [done|]. apply bulks_read_command.
  apply Forall_app in Hs as [_ Hs]. apply (bulk_loop_spec (a :: rest)); [done|done|simpl; lia|done|done].
Qed.

Lemma wire_cons cmd cmds : wire (cmd :: cmds) = encode cmd ++ wire cmds.
Proof. done. Qed.

Lemma wire_app l1 l2 : wire (l1 ++ l2) = wire l1 ++ wire l2.
Proof. unfold wire. by rewrite fmap_app, concat_app. Qed.

Lemma length_encode cmd : 0 < length (encode cmd).
Proof. unfold encode. rewrite length_app, length_hdr. lia. Qed.

Lemma length_body bl a rest : 0 < length (body bl (a :: rest)).
Proof.
  destruct bl; cbn [body fmap list_fmap concat]; unfold bulk; rewrite !length_app, ?length_hdr; simpl; lia.
Qed.

Lemma parsing_step fut c cmds n :
  parsing fut c cmds n → querybuf c ≠ [] → Forall sendable cmds → fits (bulklen c) (querybuf c) 0 →
  ∃ cmd cmds' r, cmds = cmd :: cmds' ∧ next_request c = Ret r ∧ command_read r fut cmd cmds'
    ∧ (∀ qb, qb ++ fut = wire cmds' → length qb < length (querybuf c)).
Proof.
  intros HP Hq Hs Hf. destruct HP as [qb cmds E|qb cmd cmds E|qb bl don a rest cmds Hb E]; simpl in Hq, Hf.
  - assert (zlen qb ≤ PROTO_INLINE_MAX_SIZE)%Z as Hz by (by destruct Hf as [?|(_ & b & ? & _)]).
    destruct cmds as [|cmd cmds]; [by destruct qb|]. inversion Hs; subst.
    destruct (parsing_count qb fut cmd cmds) as (r & Er & Hr); [done..|]. exists cmd, cmds, r.
    split_and!; [done| |done|].
    + assert (qb !! 0 = Some "*"%char) as H0.
      { destruct qb as [|x qb]; [done|]. rewrite wire_cons in E. by injection E as -> _. }
      unfold next_request. simpl. rewrite (bool_decide_eq_true_2 (qb !! 0 = _)) by done. exact Er.
    + intros qb' E'. apply (f_equal length) in E, E'. rewrite wire_cons in E. pose proof (length_encode cmd).
      rewrite !length_app in *. simpl. lia.
  - assert (zlen qb ≤ PROTO_INLINE_MAX_SIZE)%Z as Hz by (by destruct Hf as [?|(_ & b & ? & _)]).
    inversion Hs; subst. destruct (parsing_count qb fut cmd cmds) as (r & Er & Hr); [done..|]. exists cmd, cmds, r.
    split_and!; [done|exact Er|done|].
    intros qb' E'. apply (f_equal length) in E, E'. rewrite wire_cons in E. pose proof (length_encode cmd).
    rewrite !length_app in *. simpl. lia.
  - inversion Hs; subst. destruct (parsing_bulk qb bl don a rest fut cmds) as (r & Er & Hr); [done..|].
    eexists _, cmds, r. split_and!; [done|exact Er|done|].
    intros qb' E'. apply (f_equal length) in E, E'. pose proof (length_body bl a rest).
    rewrite !length_app in *. simpl. lia.
Qed.

Lemma parsing_pos fut c cmds n : parsing fut c cmds n → 0 < n.
Proof. destruct 1 as [| |qb bl]; [lia|rewrite length_hdr; lia|destruct bl; simpl; [lia|]; simpl; lia]. Qed.

(** Where [reploff] is after the loop: unchanged when no command was executed,
    else at the end of the last one. *)
Definition applied_to (master : option Z) (off off' : Z) (don rest : list (list bytes)) (fut : bytes) : Prop :=
  match master with
  | None => off' = off
  | Some read_reploff =>
    (don = [] ∧ off' = off) ∨ ∃ left, left ++ fut = wire rest ∧ off' = (read_reploff - zlen left)%Z
  end.

Lemma applied_to_cons master qb off off' cmd don rest fut :
  qb ++ fut = wire (don ++ rest) →
  applied_to master (match master with Some rr => (rr - zlen qb)%Z | None => off end) off' don rest fut →
  applied_to master off off' (cmd :: don) rest fut.
Proof.
  destruct master as [rr|]; simpl; [|done]. intros E [[-> ->] | H]; right; [by exists qb|done].
Qed.

(** The buffer is worked off: some commands are executed, then the parser waits. *)
Lemma input_loop_spec fuel : ∀ fut c cmds n master off,
  length (querybuf c) ≤ fuel → parsing fut c cmds n → Forall sendable cmds → fits (bulklen c) (querybuf c) 0 →
  ∃ c' don rest off', input_loop fuel c master off = Ret (c', don, off') ∧ cmds = don ++ rest ∧ waiting fut c' rest
    ∧ applied_to master off off' don rest fut.
Proof.
  induction fuel as [|fuel IH]; intros fut c cmds n master off Hl HP Hs Hf.
  all: cbn [input_loop]; case_bool_decide as Hq.
  1, 3: exists c, [], cmds, off; split_and!; [done|done| |destruct master; by try left];
    exists n; split; [done|]; rewrite Hq; by eapply parsing_pos.
  { destruct (querybuf c); [done|simpl in Hl; lia]. }
  replace (closing c) with false by (by destruct HP).
  destruct (parsing_step fut c cmds n HP Hq Hs Hf) as (cmd & cmds' & [c1 ok] & -> & -> & Hr & Hlen). bind_red.
  inversion Hs as [|? ? Hcmd Hs']; subst.
  destruct Hr as [(qb & [= -> ->] & E & Hz) | [Hok Hw]]; simpl in *.
  - rewrite bool_decide_eq_false_2 by (apply Hcmd).
    destruct (IH fut (mk_in qb 0 0 None [] false) cmds' 1 master
      (match master with Some rr => (rr - zlen qb)%Z | None => off end)) as (c' & don & rest & off' & EL & -> & Hw & Ha).
    + specialize (Hlen qb E). simpl. lia.
    + by apply at_rest.
    + done.
    + by left.
    + unfold resetClient. simpl. rewrite EL. bind_red.
      exists c', (cmd :: don), rest, off'. split_and!; [done|done|done|by eapply applied_to_cons].
  - subst ok. exists c1, [], (cmd :: cmds'), off. split_and!; [done|done|done|destruct master; by try left].
Qed.

Definition extend (c : inbuf) (data : bytes) : inbuf :=
  mk_in (querybuf c ++ data) (reqtype c) (multibulklen c) (bulklen c) (in_argv c) (closing c).

Lemma parsing_extend data fut c cmds n :
  parsing (data ++ fut) c cmds n → parsing fut (extend c data) cmds n.
Proof. destruct 1; unfold extend; simpl; constructor; by rewrite <-?app_assoc. Qed.

Lemma length_hdr_bound prefix n : (0 ≤ n ≤ LLONG_MAX)%Z → length (hdr prefix n) ≤ 23.
Proof. intros Hn. rewrite length_hdr. pose proof (fmt_length n (long_range n Hn)). lia. Qed.

(** What is in the buffer while the parser waits. *)
Lemma waiting_bound fut c cmds :
  waiting fut c cmds → Forall sendable cmds →
  (bulklen c = None ∧ (zlen (querybuf c) ≤ 23)%Z)
  ∨ (reqtype c = PROTO_REQ_MULTIBULK ∧ multibulklen c ≠ 0 ∧ ∃ b, bulklen c = Some b
     ∧ (b ≤ CONFIG_DEFAULT_PROTO_MAX_BULK_LEN)%Z ∧ (zlen (querybuf c) < b + 2)%Z).
Proof.
  intros (n & HP & Hl) Hs. destruct HP as [qb cmds E|qb cmd cmds E|qb bl don a rest cmds Hb E];
    cbn [querybuf bulklen reqtype multibulklen] in *.
  - left. unfold zlen. split; [done|lia].
  - left. inversion Hs as [|? ? (_ & Hm & _)]; subst. pose proof (zlen_nonneg cmd).
    pose proof (length_hdr_bound "*" (zlen cmd) ltac:(unfold LLONG_MAX; lia)) as HB. split; [done|]. unfold zlen at 1. lia.
  - inversion Hs as [|? ? (_ & _ & Hm)]; subst. apply Forall_app in Hm as [_ Hm]. inversion Hm as [|? ? Ha]; subst.
    unfold short in Ha. pose proof (zlen_nonneg a). destruct Hb as [-> | ->]; cbn [awaited] in Hl; [left|right].
    + unfold CONFIG_DEFAULT_PROTO_MAX_BULK_LEN in Ha.
      pose proof (length_hdr_bound "$" (zlen a) ltac:(unfold LLONG_MAX; lia)) as HB. split; [done|]. unfold zlen at 1. lia.
    + split_and!; [done|done|]. exists (zlen a). split_and!; [done|done|]. unfold zlen. lia.
Qed.

(** A read never overfills the buffer, and asks for at least one byte. *)
Lemma read_fits fut c cmds data :
  waiting fut c cmds → Forall sendable cmds → (zlen data ≤ readlen c)%Z →
  fits (bulklen c) (querybuf c ++ data) 0 ∧ (zlen (querybuf c ++ data) ≤ PROTO_MAX_QUERYBUF_LEN)%Z.
Proof.
  intros Hw Hs Hd. unfold readlen, fits, zlen in *. rewrite length_app.
  destruct (waiting_bound fut c cmds Hw Hs) as [[HB HL] | (HT & HM & b & HB & Hb & HL)]; rewrite HB in *; unfold zlen in HL.
  - unfold PROTO_IOBUF_LEN, PROTO_INLINE_MAX_SIZE, PROTO_MAX_QUERYBUF_LEN in *. split; [left|]; lia.
  - unfold PROTO_IOBUF_LEN, PROTO_INLINE_MAX_SIZE, PROTO_MAX_QUERYBUF_LEN, CONFIG_DEFAULT_PROTO_MAX_BULK_LEN in *.
    case_bool_decide as HC.
    + destruct HC as (_ & _ & HC). split; [right; split; [done|]; exists b; split_and!; [done|lia|lia]|lia].
    + assert (b < PROTO_MBULK_BIG_ARG)%Z as H'.
      { destruct (decide (b >= PROTO_MBULK_BIG_ARG)%Z); [|lia]. exfalso. by apply HC. }
      unfold PROTO_MBULK_BIG_ARG in H'. split; [left|]; lia.
Qed.

Lemma readlen_pos fut c cmds : waiting fut c cmds → Forall sendable cmds → (0 < readlen c)%Z.
Proof.
  intros Hw Hs. unfold readlen.
  destruct (waiting_bound fut c cmds Hw Hs) as [[HB HL] | (HT & HM & b & HB & Hb & HL)]; rewrite HB; [done|].
  case_bool_decide; [|done]. unfold PROTO_IOBUF_LEN. lia.
Qed.

(** At the end of the stream the parser is between two commands. *)
Lemma waiting_end c cmds : waiting [] c cmds → c = createClient ∧ cmds = [].
Proof.
  intros (n & HP & Hl). destruct HP as [qb cmds E|qb cmd cmds E|qb bl don a rest cmds Hb E]; cbn [querybuf] in Hl.
  - destruct qb; [|simpl in Hl; lia]. destruct cmds as [|cmd cmds]; [done|].
    rewrite wire_cons in E. apply (f_equal length) in E. rewrite length_app in E. pose proof (length_encode cmd). simpl in E. lia.
  - exfalso. apply (f_equal length) in E. rewrite wire_cons in E. unfold encode in E. rewrite !length_app in E. simpl in *. lia.
  - exfalso. apply (f_equal length) in E. destruct Hb as [-> | ->]; cbn [body awaited fmap list_fmap concat] in *.
    + unfold bulk in E. rewrite !length_app in E. simpl in *. lia.
    + rewrite !length_app in E. simpl in *. lia.
Qed.

Lemma receive_spec reads : ∀ stream c cmds,
  waiting stream c cmds → Forall sendable cmds → Forall (λ n, 0 < n) reads → length stream ≤ length reads →
  receive c stream reads = Ret (Some (createClient, cmds)).
Proof.
  induction reads as [|n reads IH]; intros stream c cmds Hw Hs Hr Hl.
  { destruct stream; [|simpl in Hl; lia]. apply waiting_end in Hw as [-> ->]. done. }
  inversion Hr as [|? ? Hn Hr']; subst. destruct stream as [|x stream]; [apply waiting_end in Hw as [-> ->]; done|].
  pose proof (readlen_pos _ _ _ Hw Hs) as Hp. cbn [receive].
  set (k := Z.to_nat (Z.min (Z.of_nat n) (readlen c))). assert (1 ≤ k) as Hk by lia.
  assert (zlen (take k (x :: stream)) ≤ readlen c)%Z as Hd.
  { unfold zlen. rewrite length_take. lia. }
  destruct (read_fits _ _ _ _ Hw Hs Hd) as [Hf Hz]. destruct Hw as (m & HP & Hm).
  rewrite <-(take_drop k (x :: stream)) in HP. apply parsing_extend in HP.
  destruct (input_loop_spec _ _ _ _ _ None 0 (le_n _) HP Hs Hf) as (c' & don & rest & off' & EL & -> & Hw' & _).
  unfold readQueryFromClient. fold (extend c (take k (x :: stream))). cbn [querybuf extend] in *.
  rewrite bool_decide_eq_false_2 by lia. unfold processInputBuffer. simpl in EL. unfold extend in *. simpl in *.
  rewrite EL. bind_red. apply Forall_app in Hs as [_ Hs].
  rewrite (IH _ _ _ Hw' Hs Hr'); [by bind_red|]. rewrite length_drop. simpl in *. lia.
Qed.

(** C18: however the bytes of a sequence of commands are cut into reads (reads of at
    least one byte, enough of them to reach the end of the stream), the parser
    executes exactly these commands, in order, and ends in its initial state: no
    command is lost, split or duplicated, no protocol error is raised and the query
    buffer limit is not reached, with up to 2^20 arguments of up to 512 MB each. *)
Theorem parser_reads_commands cmds reads :
  Forall sendable cmds → Forall (λ n, 0 < n) reads → length (wire cmds) ≤ length reads →
  receive createClient (wire cmds) reads = Ret (Some (createClient, cmds)).
Proof.
  intros Hs Hr Hl. apply receive_spec; [|done..]. exists 1. split; [by apply at_rest|simpl; lia].
Qed.

Lemma parser_reads_commands_witness :
  receive createClient (wire [[str "union"; str "x"; str "1,2"]; [str "lpush"; []; replicate 40 "a"%char]])
    (replicate 200 7)
  = Ret (Some (createClient, [[str "union"; str "x"; str "1,2"]; [str "lpush"; []; replicate 40 "a"%char]])).
Proof.
  apply parser_reads_commands.
  - repeat constructor; try done; by vm_compute.
  - apply Forall_replicate. lia.
  - apply Nat.leb_le. by vm_compute.
Defined.
