(* ===== verification/Backlog.v ===== *)
(** * The replication backlog

    The circular buffer of src/src/replication.c: [createReplicationBacklog],
    [resizeReplicationBacklog], [feedReplicationBacklog], the reader
    [addReplyReplicationBacklog] and the decision of
    [masterTryPartialResynchronization].  It refines an abstract backlog, the list
    of all bytes fed since it was created: the ring holds the last ones, and a
    partial resynchronization gives exactly the bytes a slave misses to
    [addReplySds]; what becomes of them there is in Psync.v. *)
From Stdlib Require Import Ascii.
From S2P Require Import Prelude Sds GraphText Locate Util Args Resp Call.

Definition CONFIG_REPL_BACKLOG_MIN_SIZE : Z := 1024 * 16.

(** The fields [repl_backlog], [repl_backlog_size], [_idx], [_histlen], [_off] and
    [master_repl_offset] of the server. *)
Record ring := mk_ring {
  repl_backlog : option bytes; repl_backlog_size : Z; repl_backlog_idx : Z; repl_backlog_histlen : Z;
  repl_backlog_off : Z; master_repl_offset : Z }.

(** [zmalloc(n)]: [n] bytes of any content. *)
Definition zmalloc_ok (mem : bytes) (n : Z) : Prop := zlen mem = n.

Definition createReplicationBacklog (r : ring) (mem : bytes) : out ring :=
  match repl_backlog r with
  | Some _ => Fail AssertFail
  | None => Ret (mk_ring (Some mem) (repl_backlog_size r) 0 0 (master_repl_offset r + 1) (master_repl_offset r))
  end.

Definition resizeReplicationBacklog (r : ring) (newsize : Z) (mem : bytes) : ring :=
  let newsize := if bool_decide (newsize < CONFIG_REPL_BACKLOG_MIN_SIZE)%Z then CONFIG_REPL_BACKLOG_MIN_SIZE
                 else newsize in
  if bool_decide (repl_backlog_size r = newsize) then r
  else
    match repl_backlog r with
    | None => mk_ring None newsize (repl_backlog_idx r) (repl_backlog_histlen r) (repl_backlog_off r)
                (master_repl_offset r)
    | Some _ => mk_ring (Some mem) newsize 0 0 (master_repl_offset r + 1) (master_repl_offset r)
    end.

Definition freeReplicationBacklog (r : ring) (slaves : nat) : out ring :=
  if bool_decide (slaves ≠ 0) then Fail AssertFail
  else Ret (mk_ring None (repl_backlog_size r) (repl_backlog_idx r) (repl_backlog_histlen r) (repl_backlog_off r)
              (master_repl_offset r)).

(** [memcpy(mem+i,p,n)] and [sdsnewlen(mem+i,n)], checked. *)
Definition memcpy_to (mem : bytes) (i : Z) (p : bytes) : out bytes :=
  if bool_decide (0 ≤ i ∧ i + zlen p ≤ zlen mem)%Z
  then Ret (take (Z.to_nat i) mem ++ p ++ drop (Z.to_nat i + length p) mem) else Fail OutOfBounds.

Definition slice (mem : bytes) (i n : Z) : out bytes :=
  if bool_decide (0 ≤ i ∧ 0 ≤ n ∧ i + n ≤ zlen mem)%Z
  then Ret (take (Z.to_nat n) (drop (Z.to_nat i) mem)) else Fail OutOfBounds.

(** The loop of [feedReplicationBacklog]: memory, index, history length. *)
Fixpoint feed_loop (fuel : nat) (size : Z) (mem : bytes) (idx histlen : Z) (p : bytes) : out (bytes * Z * Z) :=
  if bool_decide (p = []) then Ret (mem, idx, histlen)
  else
    match fuel with
    | 0 => Fail OutOfFuel
    | S fuel =>
      let thislen := Z.min (size - idx) (zlen p) in
      mem ← memcpy_to mem idx (take (Z.to_nat thislen) p);
      let idx := (idx + thislen)%Z in
      let idx := if bool_decide (idx = size) then 0%Z else idx in
      feed_loop fuel size mem idx (histlen + thislen)%Z (drop (Z.to_nat thislen) p)
    end.

Definition feedReplicationBacklog (r : ring) (p : bytes) : out ring :=
  let off := (master_repl_offset r + zlen p)%Z in
  match repl_backlog r with
  | None => Fail OutOfBounds
  | Some mem =>
    '(mem, idx, histlen) ← feed_loop (length p) (repl_backlog_size r) mem (repl_backlog_idx r)
                             (repl_backlog_histlen r) p;
    let histlen := if bool_decide (histlen > repl_backlog_size r)%Z then repl_backlog_size r else histlen in
    Ret (mk_ring (Some mem) (repl_backlog_size r) idx histlen (off - histlen + 1) off)
  end.

(** The reader: the strings given to [addReplySds], one or two. *)
Fixpoint send_loop (fuel : nat) (size : Z) (mem : bytes) (j len : Z) : out (list bytes) :=
  if bool_decide (len = 0)%Z then Ret []
  else
    match fuel with
    | 0 => Fail OutOfFuel
    | S fuel =>
      let thislen := if bool_decide (size - j < len)%Z then (size - j)%Z else len in
      b ← slice mem j thislen;
      t ← send_loop fuel size mem 0 (len - thislen)%Z;
      Ret (b :: t)
    end.

Definition addReplyReplicationBacklog (r : ring) (offset : Z) : out (list bytes * Z) :=
  if bool_decide (repl_backlog_histlen r = 0)%Z then Ret ([], 0%Z)
  else
    match repl_backlog r with
    | None => Fail OutOfBounds
    | Some mem =>
      let size := repl_backlog_size r in
      let skip := (offset - repl_backlog_off r)%Z in
      let j := Z.rem (repl_backlog_idx r + (size - repl_backlog_histlen r)) size in
      let j := Z.rem (j + skip) size in
      b ← send_loop 2 size mem j (repl_backlog_histlen r - skip)%Z;
      Ret (b, (repl_backlog_histlen r - skip)%Z)
    end.

(** ** Partial resynchronization *)

(** [replid], [replid2], [second_replid_offset] of the server. *)
Record repl_ids := mk_ids { replid : bytes; replid2 : bytes; second_replid_offset : Z }.

Definition strcasecmp_eq (a b : bytes) : bool := bool_decide (tolower <$> cstr a = tolower <$> cstr b).

(** The outcomes: C_ERR; C_OK with the line written to the socket and the strings
    and the number of bytes of backlog given to [addReplySds]; C_OK with the slave
    dropped because the line could not be written. *)
Inductive psync_result := FullResync | Continue (line : bytes) (data : list bytes) (psync_len : Z) | Dropped.

Definition SLAVE_CAPA_PSYNC2 : Z := 2.

Definition continue_line (ids : repl_ids) (slave_capa : Z) : bytes :=
  if bool_decide (Z.land slave_capa SLAVE_CAPA_PSYNC2 ≠ 0)%Z
  then str "+CONTINUE " ++ replid ids ++ CRLF else str "+CONTINUE" ++ CRLF.

Definition masterTryPartialResynchronization
    (r : ring) (ids : repl_ids) (slave_capa : Z) (written : bool) (argv1 argv2 : bytes) : out psync_result :=
  match string2ll argv2 with
  | None => Ret FullResync
  | Some psync_offset =>
    if negb (strcasecmp_eq argv1 (replid ids))
       && (negb (strcasecmp_eq argv1 (replid2 ids)) || bool_decide (psync_offset > second_replid_offset ids)%Z)
    then Ret FullResync
    else if bool_decide (repl_backlog r = None) || bool_decide (psync_offset < repl_backlog_off r)%Z
            || bool_decide (psync_offset > repl_backlog_off r + repl_backlog_histlen r)%Z
    then Ret FullResync
    else if negb written then Ret Dropped
    else
      '(data, psync_len) ← addReplyReplicationBacklog r psync_offset;
      Ret (Continue (continue_line ids slave_capa) data psync_len)
  end.

(** ** The ring holds the last bytes *)

(** Memory, index and everything that was written. *)
Record kept (size : Z) (mem : bytes) (idx : Z) (s : bytes) : Prop := {
  kp_size : zlen mem = size;
  kp_pos : (0 < size)%Z;
  kp_idx : idx = (zlen s mod size)%Z;
  kp_byte k : (zlen s - size ≤ Z.of_nat k < zlen s)%Z → mem !! Z.to_nat (Z.of_nat k mod size) = s !! k;
}.

Lemma memcpy_to_lookup mem i q :
  (0 ≤ i)%Z → (i + zlen q ≤ zlen mem)%Z →
  ∃ mem', memcpy_to mem i q = Ret mem' ∧ zlen mem' = zlen mem
    ∧ (∀ j, j < length q → mem' !! (Z.to_nat i + j) = q !! j)
    ∧ (∀ j, j < Z.to_nat i ∨ Z.to_nat i + length q ≤ j → mem' !! j = mem !! j).
Proof.
  intros Hi Hq. unfold memcpy_to. rewrite bool_decide_eq_true_2 by done. eexists. split; [done|].
  unfold zlen in *. assert (Z.to_nat i + length q ≤ length mem) as Hl by lia.
  assert (length (take (Z.to_nat i) mem) = Z.to_nat i) as Ht by (rewrite length_take; lia).
  split_and!.
  - rewrite !length_app, Ht, length_drop. lia.
  - intros j Hj. rewrite lookup_app_r by lia. rewrite Ht, lookup_app_l by lia. f_equal. lia.
  - intros j [Hj | Hj].
    + rewrite lookup_app_l by lia. by rewrite lookup_take_lt by lia.
    + rewrite lookup_app_r by lia. rewrite Ht, lookup_app_r by lia. rewrite lookup_drop. f_equal. lia.
Qed.

(** Where byte [k] is: not wrapped, or wrapped once. *)
Lemma ring_index size n k :
  (0 < size)%Z → (n - size ≤ k < n)%Z → (0 ≤ k)%Z →
  (k mod size = n mod size - (n - k) ∨ k mod size = n mod size - (n - k) + size)%Z.
Proof.
  intros Hs Hk H0. pose proof (Z.mod_pos_bound n size Hs) as Hn. pose proof (Z.div_mod n size ltac:(lia)) as E.
  destruct (decide (n - k ≤ n mod size)%Z) as [H|H]; [left|right]; symmetry.
  - apply (Z.mod_unique k size (n / size)); lia.
  - apply (Z.mod_unique k size (n / size - 1)); lia.
Qed.

Lemma kept_write size mem s q :
  kept size mem (zlen s mod size) s → (zlen s mod size + zlen q ≤ size)%Z →
  ∃ mem', memcpy_to mem (zlen s mod size) q = Ret mem'
    ∧ kept size mem' (let i := (zlen s mod size + zlen q)%Z in if bool_decide (i = size) then 0%Z else i) (s ++ q).
Proof.
  intros [Hsz Hp _ Hb] Hq. pose proof (Z.mod_pos_bound (zlen s) size Hp) as Hi.
  destruct (memcpy_to_lookup mem (zlen s mod size) q) as (mem' & -> & Hl & HA & HB); [lia|lia|].
  exists mem'. split; [done|]. assert (zlen (s ++ q) = zlen s + zlen q)%Z as Ez by (unfold zlen; rewrite length_app; lia).
  pose proof (Z.div_mod (zlen s) size ltac:(lia)) as E.
  split; [lia|done| |]; rewrite Ez.
  - simpl. case_bool_decide as H.
    + apply (Z.mod_unique _ _ (zlen s / size + 1)); lia.
    + apply (Z.mod_unique _ _ (zlen s / size)); [|lia]. unfold zlen in *. lia.
  - intros k Hk. destruct (decide (Z.of_nat k < zlen s)%Z) as [H|H].
    + rewrite lookup_app_l by (unfold zlen in *; lia). rewrite <-Hb by (unfold zlen in *; lia). apply HB.
      pose proof (Z.mod_pos_bound (Z.of_nat k) size Hp) as Hm.
      destruct (ring_index size (zlen s) (Z.of_nat k)) as [Ek | Ek]; rewrite ?Ek in *; unfold zlen in *; lia.
    + rewrite lookup_app_r by (unfold zlen in *; lia).
      rewrite <-HA by (unfold zlen in *; lia). f_equal.
      rewrite <-(Z.mod_unique (Z.of_nat k) size (zlen s / size) (zlen s mod size + (Z.of_nat k - zlen s))).
      all: unfold zlen in *; lia.
Qed.

Lemma zlen_pos {A} (l : list A) : l ≠ [] → (0 < zlen l)%Z.
Proof. destruct l; [done|]. unfold zlen. simpl. lia. Qed.

Lemma ring_loop_spec fuel size histlen : ∀ mem idx s p,
  kept size mem idx s → length p ≤ fuel →
  ∃ mem' idx', feed_loop fuel size mem idx histlen p = Ret (mem', idx', (histlen + zlen p)%Z)
    ∧ kept size mem' idx' (s ++ p).
Proof.
  revert histlen. induction fuel as [|fuel IH]; intros histlen mem idx s p HK Hl.
  all: cbn [feed_loop]; case_bool_decide as Hp.
  1, 3: subst p; exists mem, idx; rewrite app_nil_r; split; [by rewrite Z.add_0_r|done].
  { destruct p; [done|simpl in Hl; lia]. }
  pose proof HK as [Hsz Hpos Hidx _]. pose proof (Z.mod_pos_bound (zlen s) size Hpos) as Hi. subst idx.
  set (n := Z.min (size - zlen s mod size) (zlen p)). pose proof (zlen_pos p Hp) as Hpp.
  assert (zlen (take (Z.to_nat n) p) = n) as En by (unfold zlen in *; rewrite length_take; lia).
  assert (zlen (drop (Z.to_nat n) p) = zlen p - n)%Z as Ed by (unfold zlen in *; rewrite length_drop; lia).
  destruct (kept_write size mem s (take (Z.to_nat n) p) HK) as (mem' & -> & HK'); [lia|]. bind_red.
  rewrite En in HK'.
  destruct (IH (histlen + n)%Z _ _ _ (drop (Z.to_nat n) p) HK') as (mem'' & idx'' & E & HK'').
  { unfold zlen in *. lia. }
  exists mem'', idx''. simpl in E. rewrite E, Ed. rewrite <-app_assoc, take_drop in HK''.
  split; [|done]. by replace (histlen + n + (zlen p - n))%Z with (histlen + zlen p)%Z by lia.
Qed.

(** The ring refines the abstract backlog: [base], the offset at which it was
    created, and [s], all bytes fed since. *)
Definition represents (r : ring) (base : Z) (s : bytes) : Prop :=
  ∃ mem, repl_backlog r = Some mem
    ∧ kept (repl_backlog_size r) mem (repl_backlog_idx r) s
    ∧ repl_backlog_histlen r = Z.min (repl_backlog_size r) (zlen s)
    ∧ master_repl_offset r = (base + zlen s)%Z
    ∧ repl_backlog_off r = (master_repl_offset r - repl_backlog_histlen r + 1)%Z.

Lemma represents_new size mem base off :
  (0 < size)%Z → zmalloc_ok mem size → off = (base + 1)%Z → represents (mk_ring (Some mem) size 0 0 off base) base [].
Proof.
  intros Hs Hm ->. exists mem. split_and!; simpl; [done| |unfold zlen; simpl; lia|unfold zlen; simpl; lia|lia].
  split; [done|done|done|]. intros k. unfold zlen. simpl. lia.
Qed.

Lemma feed_represents r base s p :
  represents r base s →
  ∃ r', feedReplicationBacklog r p = Ret r' ∧ represents r' base (s ++ p)
    ∧ repl_backlog_size r' = repl_backlog_size r.
Proof.
  intros (mem & Em & HK & Hh & Hm & Ho).
  destruct (ring_loop_spec (length p) _ (repl_backlog_histlen r) mem _ s p HK ltac:(lia)) as (mem' & idx' & E & HK').
  unfold feedReplicationBacklog. rewrite Em, E. bind_red. eexists. split_and!; [done| |done].
  exists mem'. pose proof (zlen_nonneg s). pose proof (zlen_nonneg p). pose proof (kp_pos _ _ _ _ HK).
  split_and!; simpl; rewrite ?zlen_app; [done|done| |lia|done].
  case_bool_decide; lia.
Qed.

Lemma feeds_represent ps : ∀ r base s,
  represents r base s →
  ∃ r', out_fold feedReplicationBacklog r ps = Ret r' ∧ represents r' base (s ++ concat ps)
    ∧ repl_backlog_size r' = repl_backlog_size r.
Proof.
  induction ps as [|p ps IH]; intros r base s HR; cbn [out_fold]; simpl; [exists r; by rewrite app_nil_r|].
  destruct (feed_represents r base s p HR) as (r1 & -> & HR1 & E1). bind_red.
  destruct (IH r1 base (s ++ p) HR1) as (r2 & -> & HR2 & E2). exists r2. rewrite app_assoc. by rewrite <-E1, <-E2.
Qed.

(** ** Reading it back *)

Lemma kept_slice size mem idx s k n :
  kept size mem idx s → (zlen s - size ≤ Z.of_nat k)%Z → (Z.of_nat k + n ≤ zlen s)%Z → (0 ≤ n)%Z →
  (Z.of_nat k mod size + n ≤ size)%Z →
  slice mem (Z.of_nat k mod size) n = Ret (take (Z.to_nat n) (drop k s)).
Proof.
  intros [Hsz Hp _ Hb] H1 H2 Hn Hw. pose proof (Z.mod_pos_bound (Z.of_nat k) size Hp) as Hi.
  unfold slice. rewrite bool_decide_eq_true_2 by lia. f_equal. apply list_eq. intros i.
  destruct (decide (i < Z.to_nat n)) as [H|H].
  - rewrite !lookup_take_lt, !lookup_drop by lia. rewrite <-Hb by (unfold zlen in *; lia). f_equal.
    rewrite <-(Z.mod_unique (Z.of_nat (k + i)) size (Z.of_nat k / size) (Z.of_nat k mod size + Z.of_nat i)); [lia|lia|].
    pose proof (Z.div_mod (Z.of_nat k) size ltac:(lia)). lia.
  - by rewrite !lookup_take_ge by lia.
Qed.

Lemma send_step fuel size mem j len :
  len ≠ 0%Z →
  send_loop (S fuel) size mem j len =
    (b ← slice mem j (Z.min (size - j) len); t ← send_loop fuel size mem 0 (len - Z.min (size - j) len)%Z; Ret (b :: t)).
Proof.
  intros H. cbn [send_loop]. rewrite bool_decide_eq_false_2 by done.
  replace (if bool_decide (size - j < len)%Z then (size - j)%Z else len) with (Z.min (size - j) len); [done|].
  case_bool_decide; lia.
Qed.

Lemma send_done fuel size mem j : send_loop fuel size mem j 0 = Ret [].
Proof. by destruct fuel. Qed.

Lemma send_spec size mem idx s k :
  kept size mem idx s → (zlen s - size ≤ Z.of_nat k ≤ zlen s)%Z →
  ∃ bs, send_loop 2 size mem (Z.of_nat k mod size) (zlen s - Z.of_nat k) = Ret bs ∧ concat bs = drop k s.
Proof.
  intros HK Hk. pose proof HK as [Hsz Hp _ _]. pose proof (Z.mod_pos_bound (Z.of_nat k) size Hp) as Hi.
  destruct (decide (zlen s - Z.of_nat k = 0)%Z) as [E0 | H0].
  { rewrite E0, send_done. exists []. split; [done|]. by rewrite drop_ge by (unfold zlen in *; lia). }
  rewrite send_step by done. set (n := Z.min (size - Z.of_nat k mod size) (zlen s - Z.of_nat k)).
  rewrite (kept_slice size mem idx s k n HK) by lia. bind_red.
  destruct (decide (zlen s - Z.of_nat k - n = 0)%Z) as [E1 | H1].
  { rewrite E1, send_done. bind_red. eexists. split; [done|]. simpl. rewrite app_nil_r.
    by rewrite take_ge by (rewrite length_drop; unfold zlen in *; lia). }
  assert (Z.of_nat (k + Z.to_nat n) mod size = 0)%Z as Hw.
  { symmetry. apply (Z.mod_unique _ _ (Z.of_nat k / size + 1)); [lia|].
    pose proof (Z.div_mod (Z.of_nat k) size ltac:(lia)). lia. }
  rewrite send_step by done.
  pose proof (kept_slice size mem idx s (k + Z.to_nat n) (Z.min (size - 0) (zlen s - Z.of_nat k - n)) HK) as KS.
  rewrite Hw in KS. rewrite KS by lia. bind_red.
  replace (zlen s - Z.of_nat k - n - Z.min (size - 0) (zlen s - Z.of_nat k - n))%Z with 0%Z by lia.
  rewrite send_done. bind_red. eexists. split; [done|]. simpl. rewrite app_nil_r, <-drop_drop.
  rewrite (take_ge (drop (Z.to_nat n) _)) by (rewrite !length_drop; unfold zlen in *; lia). by rewrite take_drop.
Qed.

(** Any offset in the window gives the bytes from there on. *)
Lemma reply_represents r base s offset :
  represents r base s →
  (repl_backlog_off r ≤ offset ≤ repl_backlog_off r + repl_backlog_histlen r)%Z →
  ∃ bs, addReplyReplicationBacklog r offset = Ret (bs, (master_repl_offset r + 1 - offset)%Z)
    ∧ concat bs = drop (Z.to_nat (offset - 1 - base)) s.
Proof.
  intros (mem & Em & HK & Hh & Hm & Ho) Hw. pose proof HK as [Hsz Hp Hidx _]. pose proof (zlen_nonneg s).
  unfold addReplyReplicationBacklog. rewrite Em.
  case_bool_decide as H0.
  { exists []. split; [do 2 f_equal; lia|]. by rewrite drop_ge by (unfold zlen in *; lia). }
  set (h := repl_backlog_histlen r) in *. set (size := repl_backlog_size r) in *.
  pose proof (Z.mod_pos_bound (zlen s) size Hp).
  rewrite (Z.rem_mod_nonneg (repl_backlog_idx r + (size - h)) size) by lia.
  pose proof (Z.mod_pos_bound (repl_backlog_idx r + (size - h)) size Hp).
  rewrite Z.rem_mod_nonneg by lia. rewrite Z.add_mod_idemp_l by lia.
  set (k := Z.to_nat (offset - 1 - base)).
  replace ((repl_backlog_idx r + (size - h) + (offset - repl_backlog_off r)) mod size)%Z with (Z.of_nat k mod size)%Z.
  2:{ rewrite Hidx. rewrite <-!Z.add_assoc, Z.add_mod_idemp_l by lia.
      replace (zlen s + (size - h + (offset - repl_backlog_off r)))%Z with (Z.of_nat k + 1 * size)%Z by lia.
      by rewrite Z.mod_add by lia. }
  replace (h - (offset - repl_backlog_off r))%Z with (zlen s - Z.of_nat k)%Z by lia.
  destruct (send_spec size mem (repl_backlog_idx r) s k HK) as (bs & -> & Ebs); [lia|]. bind_red. exists bs. split; [do 2 f_equal; lia|done].
Qed.

Lemma created_fed r mem ps :
  repl_backlog r = None → (0 < repl_backlog_size r)%Z → zmalloc_ok mem (repl_backlog_size r) →
  ∃ r0 r', createReplicationBacklog r mem = Ret r0 ∧ out_fold feedReplicationBacklog r0 ps = Ret r'
    ∧ represents r' (master_repl_offset r) (concat ps) ∧ repl_backlog_size r' = repl_backlog_size r.
Proof.
  intros Hn Hs Hm. unfold createReplicationBacklog. rewrite Hn. eexists.
  destruct (feeds_represent ps _ _ _ (represents_new _ mem (master_repl_offset r) _ Hs Hm eq_refl)) as (r' & E & HR & Hsz).
  exists r'. split_and!; [done|exact E|exact HR|exact Hsz].
Qed.

(** The decision about a request, on a ring that represents [s]. *)
Lemma psync_represents r base s ids capa argv1 argv2 :
  represents r base s →
  let last := master_repl_offset r in
  ∃ bs, masterTryPartialResynchronization r ids capa true argv1 argv2 =
    Ret (match string2ll argv2 with
         | Some o =>
           if (strcasecmp_eq argv1 (replid ids)
               || strcasecmp_eq argv1 (replid2 ids) && bool_decide (o ≤ second_replid_offset ids)%Z)
              && bool_decide (last - Z.min (repl_backlog_size r) (zlen s) < o ≤ last + 1)%Z
           then Continue (continue_line ids capa) bs (last + 1 - o)
           else FullResync
         | None => FullResync
         end)
    ∧ ∀ o, string2ll argv2 = Some o → (last - Z.min (repl_backlog_size r) (zlen s) < o ≤ last + 1)%Z →
        concat bs = drop (Z.to_nat (o - 1 - base)) s.
Proof.
  intros HR last. pose proof HR as (mem' & Em & HK & Hh & Hmo & Ho). unfold masterTryPartialResynchronization.
  destruct (string2ll argv2) as [o|]; [|by exists []].
  assert ((last - Z.min (repl_backlog_size r) (zlen s) < o ≤ last + 1)%Z ↔
    (repl_backlog_off r ≤ o ≤ repl_backlog_off r + repl_backlog_histlen r)%Z) as Hwin by (unfold last; lia).
  assert (∃ bs, (last - Z.min (repl_backlog_size r) (zlen s) < o ≤ last + 1)%Z →
    addReplyReplicationBacklog r o = Ret (bs, (last + 1 - o)%Z) ∧ concat bs = drop (Z.to_nat (o - 1 - base)) s) as (bs & Hbs).
  { destruct (decide (last - Z.min (repl_backlog_size r) (zlen s) < o ≤ last + 1)%Z) as [Hw|Hw]; [|by exists []].
    destruct (reply_represents r base s o HR) as (bs & E & Ebs); [by apply Hwin|]. by exists bs. }
  exists bs. split; [|intros o' [= <-] Hw; by apply Hbs].
  set (A := strcasecmp_eq argv1 (replid ids)). set (B := strcasecmp_eq argv1 (replid2 ids)).
  replace (negb A && (negb B || bool_decide (o > second_replid_offset ids)%Z))
    with (negb (A || B && bool_decide (o ≤ second_replid_offset ids)%Z)).
  2:{ destruct A, B; simpl; repeat case_bool_decide; (done || lia). }
  destruct (A || B && bool_decide (o ≤ second_replid_offset ids)%Z); [|done]. cbn [negb andb].
  rewrite Em. rewrite (bool_decide_eq_false_2 (Some mem' = None)) by done. cbn [orb].
  destruct (decide (last - Z.min (repl_backlog_size r) (zlen s) < o ≤ last + 1)%Z) as [Hw|Hw].
  - rewrite (bool_decide_eq_true_2 (_ ∧ _)) by done. rewrite !bool_decide_eq_false_2 by lia. cbn [orb].
    destruct (Hbs Hw) as [-> _]. by bind_red.
  - rewrite (bool_decide_eq_false_2 (_ ∧ _)) by done.
    assert (o < repl_backlog_off r ∨ o > repl_backlog_off r + repl_backlog_histlen r)%Z as [H|H] by lia.
    + by rewrite (bool_decide_eq_true_2 _ H).
    + rewrite (bool_decide_eq_true_2 _ H). by rewrite orb_true_r.
Qed.

(** C21: after any writes to a new backlog, of any sizes, a slave that asks for the
    bytes from offset [o] on, with one of the replication ids, is granted a partial
    resynchronization, and exactly those bytes of the stream are given to
    [addReplySds] for it, if the backlog still holds them (the last
    [repl_backlog_size] bytes, or all when fewer were written) or if nothing is
    missing; it is told to resynchronize in full otherwise; the ring is never read
    outside. *)
Theorem backlog_resync r mem ps ids capa argv1 argv2 :
  repl_backlog r = None → (0 < repl_backlog_size r)%Z → zmalloc_ok mem (repl_backlog_size r) →
  let s := concat ps in
  let last := (master_repl_offset r + zlen s)%Z in
  ∃ r0 r', createReplicationBacklog r mem = Ret r0 ∧ out_fold feedReplicationBacklog r0 ps = Ret r'
    ∧ master_repl_offset r' = last
    ∧ ∃ bs, masterTryPartialResynchronization r' ids capa true argv1 argv2 =
      Ret (match string2ll argv2 with
           | Some o =>
             if (strcasecmp_eq argv1 (replid ids)
                 || strcasecmp_eq argv1 (replid2 ids) && bool_decide (o ≤ second_replid_offset ids)%Z)
                && bool_decide (last - Z.min (repl_backlog_size r) (zlen s) < o ≤ last + 1)%Z
             then Continue (continue_line ids capa) bs (last + 1 - o)
             else FullResync
           | None => FullResync
           end)
      ∧ ∀ o, string2ll argv2 = Some o → (last - Z.min (repl_backlog_size r) (zlen s) < o ≤ last + 1)%Z →
          concat bs = drop (Z.to_nat (o - 1 - master_repl_offset r)) s.
Proof.
  intros Hn Hs Hm s last. subst last s. set (s := concat ps). destruct (created_fed r mem ps Hn Hs Hm) as (r0 & r' & E0 & E & HR & Hsz).
  fold s in HR. clearbody s. pose proof HR as (mem' & Em & HK & Hh & Hmo & Ho). rewrite Hsz in Hh.
  exists r0, r'. split; [done|]. split; [done|]. split; [done|]. rewrite <-Hmo.
  destruct (psync_represents r' (master_repl_offset r) s ids capa argv1 argv2 HR) as (bs & Eb & Hb).
  rewrite Hsz, Eb in *. exists bs. split; [done|]. intros o Eo Hw. apply Hb; [done|lia].
Qed.

(** A ring of 16 bytes that has wrapped. *)
Definition small_ring : ring := mk_ring None 16 0 0 0 100.
Definition small_ids : repl_ids := mk_ids (str "aabb") (str "ccdd") (-1).

Lemma backlog_resync_witness :
  ∃ r0 r', createReplicationBacklog small_ring (replicate 16 NUL) = Ret r0
    ∧ out_fold feedReplicationBacklog r0 [str "abcdefghij"; str "klmnopqrstuvwxyz"] = Ret r'
    ∧ masterTryPartialResynchronization r' small_ids 0 true (str "AABB") (str "121")
      = Ret (Continue (str "+CONTINUE" ++ CRLF) [str "uvwxyz"] 6)
    ∧ masterTryPartialResynchronization r' small_ids 0 true (str "AABB") (str "110") = Ret FullResync.
Proof.
  destruct (backlog_resync small_ring (replicate 16 NUL) [str "abcdefghij"; str "klmnopqrstuvwxyz"] small_ids 0
    (str "AABB") (str "121") eq_refl eq_refl eq_refl) as (r0 & r1 & E0 & E1 & _ & bs & _).
  exists r0, r1. split; [exact E0|]. split; [exact E1|]. vm_compute in E0. injection E0 as <-. vm_compute in E1. injection E1 as <-.
  split; vm_compute; reflexivity.
Defined.

(** ** Commands in the backlog *)

(** How the feed routines write a command: the count, then for every argument its
    header, the argument and the end of line. *)
Definition feed_arg (r : ring) (a : bytes) : out ring :=
  h ← number_hdr (LONG_STR_SIZE + 3) "$" (zlen a);
  r ← feedReplicationBacklog r h;
  r ← feedReplicationBacklog r a;
  feedReplicationBacklog r CRLF.

Definition feed_command (r : ring) (argv : list bytes) : out ring :=
  h ← number_hdr (LONG_STR_SIZE + 3) "*" (zlen argv);
  r ← feedReplicationBacklog r h;
  out_fold feed_arg r argv.

Lemma feed_arg_represents base r s a :
  (zlen a ≤ LLONG_MAX)%Z → represents r base s →
  ∃ r', feed_arg r a = Ret r' ∧ represents r' base (s ++ bulk a) ∧ repl_backlog_size r' = repl_backlog_size r.
Proof.
  intros Hb HR. unfold feed_arg.
  rewrite number_hdr_spec by first [apply long_range; split; [apply zlen_nonneg|done] | unfold LONG_STR_SIZE; lia].
  bind_red. destruct (feed_represents r base s (hdr "$" (zlen a)) HR) as (r1 & -> & H1 & S1). bind_red.
  destruct (feed_represents r1 _ _ a H1) as (r2 & -> & H2 & S2). bind_red.
  destruct (feed_represents r2 _ _ CRLF H2) as (r3 & -> & H3 & S3). exists r3. split_and!; [done| |congruence].
  unfold bulk. by rewrite <-!app_assoc in H3.
Qed.

Lemma feed_args_represent base argv : ∀ r s,
  Forall (λ a, (zlen a ≤ LLONG_MAX)%Z) argv → represents r base s →
  ∃ r', out_fold feed_arg r argv = Ret r' ∧ represents r' base (s ++ concat (bulk <$> argv))
    ∧ repl_backlog_size r' = repl_backlog_size r.
Proof.
  induction argv as [|a argv IH]; intros r s Ha HR; cbn [out_fold]; [exists r; simpl; by rewrite app_nil_r|].
  inversion Ha as [|? ? Hb Ha']; subst.
  destruct (feed_arg_represents base r s a Hb HR) as (r1 & -> & H1 & S1). bind_red.
  destruct (IH r1 _ Ha' H1) as (r2 & -> & H2 & S2). exists r2. split_and!; [done| |congruence].
  cbn [fmap list_fmap concat]. by rewrite <-app_assoc in H2.
Qed.

Lemma feed_command_represents base r s cmd :
  sized cmd → represents r base s →
  ∃ r', feed_command r cmd = Ret r' ∧ represents r' base (s ++ encode cmd)
    ∧ repl_backlog_size r' = repl_backlog_size r.
Proof.
  intros [Hn Ha] HR. unfold feed_command.
  rewrite number_hdr_spec by first [apply long_range; split; [apply zlen_nonneg|done] | unfold LONG_STR_SIZE; lia].
  bind_red. destruct (feed_represents r base s (hdr "*" (zlen cmd)) HR) as (r1 & -> & H1 & S1). bind_red.
  destruct (feed_args_represent base cmd r1 _ Ha H1) as (r2 & -> & H2 & S2). exists r2. split_and!; [done| |congruence].
  unfold encode. by rewrite <-app_assoc in H2.
Qed.

(** the commands fed to the replication backlog are in it as the bytes that are
    sent to the slaves, one command after the other: the ring represents the wire
    format of the command list. *)
Theorem backlog_commands r base s cmds :
  represents r base s → Forall sized cmds →
  ∃ r', out_fold feed_command r cmds = Ret r' ∧ represents r' base (s ++ wire cmds)
    ∧ repl_backlog_size r' = repl_backlog_size r.
Proof.
  intros HR Hs. revert r s HR. induction Hs as [|cmd cmds Hc _ IH]; intros r s HR; cbn [out_fold].
  { exists r. unfold wire. simpl. by rewrite app_nil_r. }
  destruct (feed_command_represents base r s cmd Hc HR) as (r1 & -> & H1 & S1). bind_red.
  destruct (IH r1 _ H1) as (r2 & -> & H2 & S2). exists r2. split_and!; [done| |congruence].
  rewrite wire_cons. by rewrite <-app_assoc in H2.
Qed.

Lemma backlog_commands_witness :
  ∃ r', out_fold feed_command (mk_ring (Some (replicate 16 NUL)) 16 0 0 101 100)
          [[str "union"; str "x"]; [str "find"; str "a"; str "u"]] = Ret r'
    ∧ represents r' 100 (wire [[str "union"; str "x"]; [str "find"; str "a"; str "u"]]).
Proof.
  destruct (backlog_commands (mk_ring (Some (replicate 16 NUL)) 16 0 0 101 100) 100 []
    [[str "union"; str "x"]; [str "find"; str "a"; str "u"]]) as (r' & E & HR & _).
  - by apply represents_new.
  - repeat constructor; by vm_compute.
  - exists r'. split; [exact E|exact HR].
Defined.

(** A new size empties the backlog: only later bytes can be asked for. *)
Lemma resize_flushes r base s newsize mem :
  represents r base s →
  let r' := resizeReplicationBacklog r newsize mem in
  zmalloc_ok mem (repl_backlog_size r') →
  r' = r ∨ represents r' (master_repl_offset r) [] ∧ master_repl_offset r' = master_repl_offset r
    ∧ (CONFIG_REPL_BACKLOG_MIN_SIZE ≤ repl_backlog_size r')%Z.
Proof.
  intros (m & Em & _). unfold resizeReplicationBacklog. rewrite Em.
  repeat case_bool_decide; simpl; intros Hm; try (by left); right.
  all: split_and!; [apply represents_new|done|]; unfold CONFIG_REPL_BACKLOG_MIN_SIZE in *; done || lia.
Qed.

(** The backlog of the master holds every command, but [replicationFeedExSlave]
    does not send a command to the slave it came from: the offset that slave has
    counted falls behind, and a partial resynchronization sends it bytes that do not
    continue what it has.  Here the second command came from the slave, the third
    went to all: the slave, which has the first and the third, asks for what follows
    and gets bytes from inside the third command. *)
Lemma excluded_slave_resync :
  let a := [str "union"; str "x"; str "1,2"] in
  let b := [str "split"; str "x"; str "3"] in
  let c := [str "union"; str "x"; str "4,5"] in
  let got := zlen (encode a ++ encode c) in
  ∃ r, out_fold feed_command (mk_ring (Some (replicate 200 NUL)) 200 0 0 1 0) [a; b; c] = Ret r
    ∧ masterTryPartialResynchronization r small_ids 0 true (str "aabb") (fmt (got + 1))
      = Ret (Continue (str "+CONTINUE" ++ CRLF) [drop (Z.to_nat (got - zlen (encode a))) (encode b ++ encode c)]
               (zlen (encode b))).
Proof. eexists. split; [vm_compute; reflexivity|vm_compute; reflexivity]. Qed.
