(* ===== verification/Dict.v ===== *)
(** * Hash tables

    src/src/dict.c: chained hash tables whose size is a power of two, resized by
    incremental rehashing.  While a table is being rehashed its entries are in two
    tables, and every operation moves one bucket.  The theorems: the invariant of the
    two tables is kept, and a dictionary behaves as a finite map, whatever resizing
    and rehashing goes on; rehashing ends (in DictMap).

    The hash function and the comparison of keys are those of the [dictType] of the
    dictionary, parameters of the model; a chain is the list of its entries. *)
From S2P Require Import Prelude.

Definition LONG_MAX : Z := 2 ^ 63 - 1.
Definition DICT_HT_INITIAL_SIZE : Z := 4.
Definition dict_force_resize_ratio : Z := 5.

(** [table] is [[]] for NULL. *)
Record dictht (K V : Type) := mk_ht { table : list (list (K * V)); size : Z; sizemask : Z; used : Z }.
Record dict (K V : Type) := mk_dict { ht0 : dictht K V; ht1 : dictht K V; rehashidx : Z; iterators : Z }.
Arguments mk_ht {K V}.
Arguments table {K V}.
Arguments size {K V}.
Arguments sizemask {K V}.
Arguments used {K V}.
Arguments mk_dict {K V}.
Arguments ht0 {K V}.
Arguments ht1 {K V}.
Arguments rehashidx {K V}.
Arguments iterators {K V}.

(** The doubling loop of [_dictNextPower]; 64 doublings reach any unsigned long. *)
Fixpoint next_power (fuel : nat) (i size : Z) : out Z :=
  if bool_decide (i >= size)%Z then Ret i
  else match fuel with 0 => Fail OutOfFuel | S fuel => next_power fuel ((i * 2) mod 2 ^ 64)%Z size end.

Definition dictNextPower (size : Z) : out Z :=
  if bool_decide (size >= LONG_MAX)%Z then Ret (LONG_MAX + 1)%Z else next_power 64 DICT_HT_INITIAL_SIZE size.

Section operations.
Context {K V : Type} (hashFunction : K → Z) (keyCompare : K → K → bool).

Definition dictReset : dictht K V := mk_ht [] 0 0 0.
Definition dictCreate : dict K V := mk_dict dictReset dictReset (-1) 0.
Definition dictIsRehashing (d : dict K V) : bool := bool_decide (rehashidx d ≠ -1)%Z.
Definition dictSize (d : dict K V) : Z := (used (ht0 d) + used (ht1 d))%Z.

(** [ht->table[i]] *)
Definition bucket (t : list (list (K * V))) (i : Z) : out (list (K * V)) :=
  match t !! Z.to_nat i with Some c => Ret c | None => Fail OutOfBounds end.

Definition index (h : dictht K V) (k : K) : Z := Z.land (hashFunction k) (sizemask h).

(** ** Resizing *)

(** [true] is DICT_OK. *)
Definition dictExpand (d : dict K V) (sz : Z) : out (dict K V * bool) :=
  realsize ← dictNextPower sz;
  if dictIsRehashing d || bool_decide (used (ht0 d) > sz)%Z then Ret (d, false)
  else if bool_decide (realsize = size (ht0 d)) then Ret (d, false)
  else
    let n := mk_ht (replicate (Z.to_nat realsize) []) realsize (realsize - 1) 0 in
    if bool_decide (table (ht0 d) = []) then Ret (mk_dict n (ht1 d) (rehashidx d) (iterators d), true)
    else Ret (mk_dict (ht0 d) n 0 (iterators d), true).

(** The number of entries as an [int]. *)
Definition minimal (n : Z) : Z := ((n + 2 ^ 31) mod 2 ^ 32 - 2 ^ 31)%Z.

Definition dictResize (dict_can_resize : bool) (d : dict K V) : out (dict K V * bool) :=
  if negb dict_can_resize || dictIsRehashing d then Ret (d, false)
  else
    let m := minimal (used (ht0 d)) in
    dictExpand d (if bool_decide (m < DICT_HT_INITIAL_SIZE)%Z then DICT_HT_INITIAL_SIZE else m).

Definition dictExpandIfNeeded (dict_can_resize : bool) (d : dict K V) : out (dict K V * bool) :=
  if dictIsRehashing d then Ret (d, true)
  else if bool_decide (size (ht0 d) = 0)%Z then dictExpand d DICT_HT_INITIAL_SIZE
  else if bool_decide (used (ht0 d) >= size (ht0 d))%Z
          && (dict_can_resize || bool_decide (used (ht0 d) / size (ht0 d) > dict_force_resize_ratio)%Z)
  then dictExpand d (used (ht0 d) * 2)%Z
  else Ret (d, true).

(** ** Rehashing *)

(** Over empty buckets; [None] when the visits are used up. *)
Fixpoint skip_empty (fuel : nat) (t : list (list (K * V))) (idx empty_visits : Z)
    : out (Z * option (Z * list (K * V))) :=
  c ← bucket t idx;
  match c with
  | _ :: _ => Ret (idx, Some (empty_visits, c))
  | [] =>
    if bool_decide (empty_visits - 1 = 0)%Z then Ret (idx + 1, None)%Z
    else match fuel with 0 => Fail OutOfFuel | S fuel => skip_empty fuel t (idx + 1) (empty_visits - 1) end
  end.

(** [ht->table[i] = e, followed by what was there] *)
Definition push (h : dictht K V) (i : Z) (e : K * V) : out (dictht K V) :=
  c ← bucket (table h) i;
  Ret (mk_ht (<[Z.to_nat i := e :: c]> (table h)) (size h) (sizemask h) (used h + 1)).

(** All entries of a bucket to the new table. *)
Fixpoint move_chain (de : list (K * V)) (h : dictht K V) : out (dictht K V) :=
  match de with
  | [] => Ret h
  | e :: de => h ← push h (index h e.1) e; move_chain de h
  end.

(** The loop of [dictRehash]; the flag is false when it returned in the middle. *)
Fixpoint rehash_loop (n : nat) (d : dict K V) (empty_visits : Z) : out (dict K V * bool) :=
  match n with
  | 0 => Ret (d, true)
  | S n =>
    if bool_decide (used (ht0 d) = 0)%Z then Ret (d, true)
    else if negb (bool_decide (size (ht0 d) > rehashidx d)%Z) then Fail AssertFail
    else
      '(idx, found) ← skip_empty (length (table (ht0 d))) (table (ht0 d)) (rehashidx d) empty_visits;
      match found with
      | None => Ret (mk_dict (ht0 d) (ht1 d) idx (iterators d), false)
      | Some (empty_visits, de) =>
        h1 ← move_chain de (ht1 d);
        let h0 := mk_ht (<[Z.to_nat idx := []]> (table (ht0 d))) (size (ht0 d)) (sizemask (ht0 d))
                    (used (ht0 d) - Z.of_nat (length de)) in
        rehash_loop n (mk_dict h0 h1 (idx + 1) (iterators d)) empty_visits
      end
  end.

(** [true] when there are keys left to move.  [empty_visits = n*10] is an int in the
    source; [n] is 1 or 100 in all calls. *)
Definition dictRehash (d : dict K V) (n : nat) : out (dict K V * bool) :=
  if negb (dictIsRehashing d) then Ret (d, false)
  else
    '(d, done) ← rehash_loop n d (Z.of_nat n * 10);
    if negb done then Ret (d, true)
    else if bool_decide (used (ht0 d) = 0)%Z then Ret (mk_dict (ht1 d) dictReset (-1) (iterators d), false)
    else Ret (d, true).

Definition dictRehashStep (d : dict K V) : out (dict K V) :=
  if bool_decide (iterators d = 0)%Z then '(d, _) ← dictRehash d 1; Ret d else Ret d.

Definition rehash_if_needed (d : dict K V) : out (dict K V) :=
  if dictIsRehashing d then dictRehashStep d else Ret d.

(** ** Searching *)

(** In a chain: equal pointers are equal keys. *)
Definition find_in (c : list (K * V)) (k : K) : option (nat * (K * V)) := list_find (λ e, keyCompare k e.1) c.

(** The table and the bucket an entry is in. *)
Definition find_both (d : dict K V) (k : K) : out (option (bool * Z * nat * (K * V))) :=
  c0 ← bucket (table (ht0 d)) (index (ht0 d) k);
  match find_in c0 k with
  | Some (i, e) => Ret (Some (false, index (ht0 d) k, i, e))
  | None =>
    if negb (dictIsRehashing d) then Ret None
    else
      c1 ← bucket (table (ht1 d)) (index (ht1 d) k);
      match find_in c1 k with
      | Some (i, e) => Ret (Some (true, index (ht1 d) k, i, e))
      | None => Ret None
      end
  end.

Definition dictFind (d : dict K V) (k : K) : out (dict K V * option (K * V)) :=
  if bool_decide (used (ht0 d) + used (ht1 d) = 0)%Z then Ret (d, None)
  else d ← rehash_if_needed d; r ← find_both d k;
       Ret (d, match r with Some (_, _, _, e) => Some e | None => None end).

Definition dictFetchValue (d : dict K V) (k : K) : out (dict K V * option V) :=
  '(d, r) ← dictFind d k; Ret (d, match r with Some e => Some e.2 | None => None end).

(** ** Adding, replacing, deleting *)

(** The dictionary with table [t] (the second when true) replaced. *)
Definition set_ht (d : dict K V) (t : bool) (h : dictht K V) : dict K V :=
  if t then mk_dict (ht0 d) h (rehashidx d) (iterators d) else mk_dict h (ht1 d) (rehashidx d) (iterators d).
Definition get_ht (d : dict K V) (t : bool) : dictht K V := if t then ht1 d else ht0 d.

(** An index for a new key, the existing entry, or neither when the table could not
    be expanded. *)
Inductive slot := Free (i : Z) | Existing (t : bool) (b : Z) (i : nat) (e : K * V) | NoRoom.

Definition dictKeyIndex (dict_can_resize : bool) (d : dict K V) (k : K) : out (dict K V * slot) :=
  '(d, ok) ← dictExpandIfNeeded dict_can_resize d;
  if negb ok then Ret (d, NoRoom)
  else
    r ← find_both d k;
    match r with
    | Some (t, b, i, e) => Ret (d, Existing t b i e)
    | None => Ret (d, Free (index (get_ht d (dictIsRehashing d)) k))
    end.

(** [dictAddRaw], with the value the caller sets next. *)
Definition dictAddRaw (dict_can_resize : bool) (d : dict K V) (k : K) (v : V) : out (dict K V * slot) :=
  d ← rehash_if_needed d;
  '(d, s) ← dictKeyIndex dict_can_resize d k;
  match s with
  | Free i =>
    let t := dictIsRehashing d in
    h ← push (get_ht d t) i (k, v); Ret (set_ht d t h, s)
  | _ => Ret (d, s)
  end.

Definition dictAdd (dict_can_resize : bool) (d : dict K V) (k : K) (v : V) : out (dict K V * bool) :=
  '(d, s) ← dictAddRaw dict_can_resize d k v; Ret (d, match s with Free _ => true | _ => false end).

(** The chain of an entry is changed. *)
Definition update_chain (h : dictht K V) (b : Z) (f : list (K * V) → list (K * V)) (n : Z) : out (dictht K V) :=
  c ← bucket (table h) b; Ret (mk_ht (<[Z.to_nat b := f c]> (table h)) (size h) (sizemask h) n).

(** [true] when the key was new. *)
Definition dictReplace (dict_can_resize : bool) (d : dict K V) (k : K) (v : V) : out (dict K V * bool) :=
  '(d, s) ← dictAddRaw dict_can_resize d k v;
  match s with
  | Free _ => Ret (d, true)
  | Existing t b i e =>
    h ← update_chain (get_ht d t) b (<[i := (e.1, v)]>) (used (get_ht d t)); Ret (set_ht d t h, false)
  | NoRoom => Fail NullDeref
  end.

(** The entry that was unlinked. *)
Definition dictGenericDelete (d : dict K V) (k : K) : out (dict K V * option (K * V)) :=
  if bool_decide (used (ht0 d) = 0)%Z && bool_decide (used (ht1 d) = 0)%Z then Ret (d, None)
  else
    d ← rehash_if_needed d;
    r ← find_both d k;
    match r with
    | None => Ret (d, None)
    | Some (t, b, i, e) =>
      h ← update_chain (get_ht d t) b (delete i) (used (get_ht d t) - 1)%Z; Ret (set_ht d t h, Some e)
    end.

Definition dictDelete (d : dict K V) (k : K) : out (dict K V * bool) :=
  '(d, r) ← dictGenericDelete d k; Ret (d, bool_decide (is_Some r)).

(** [dictUnlink] leaves the entry to the caller, [dictDelete] frees it. *)
Definition dictUnlink (d : dict K V) (k : K) : out (dict K V * option (K * V)) := dictGenericDelete d k.

(** The entry of the key, added with [v] when it is new. *)
Definition dictAddOrFind (dict_can_resize : bool) (d : dict K V) (k : K) (v : V) : out (dict K V * option (K * V)) :=
  '(d, s) ← dictAddRaw dict_can_resize d k v;
  Ret (d, match s with Free _ => Some (k, v) | Existing _ _ _ e => Some e | NoRoom => None end).

(** [_dictClear] on both tables. *)
Definition dictEmpty : dict K V := mk_dict dictReset dictReset (-1) 0.

(** ** Sequences of operations

    What a client may do with a dictionary; the flags are the setting
    [dict_can_resize] at that moment.  [Hold] and [Let] open and close a safe
    iterator, which stops rehashing. *)
Inductive dop :=
  | Find (k : K) | Add (can : bool) (k : K) (v : V) | Replace (can : bool) (k : K) (v : V) | Delete (k : K)
  | Rehash (n : nat) | Resize (can : bool) | Hold | Let.

Inductive dres := Entry (r : option (K * V)) | Flag (b : bool) | Done.

Definition hold (d : dict K V) (n : Z) : dict K V := mk_dict (ht0 d) (ht1 d) (rehashidx d) (iterators d + n).

Definition dict_step (d : dict K V) (o : dop) : out (dict K V * dres) :=
  match o with
  | Find k => '(d, r) ← dictFind d k; Ret (d, Entry r)
  | Add can k v => '(d, b) ← dictAdd can d k v; Ret (d, Flag b)
  | Replace can k v => '(d, b) ← dictReplace can d k v; Ret (d, Flag b)
  | Delete k => '(d, r) ← dictUnlink d k; Ret (d, Entry r)
  | Rehash n => '(d, _) ← dictRehash d (S n); Ret (d, Done)
  | Resize can => '(d, _) ← dictResize can d; Ret (d, Done)
  | Hold => Ret (hold d 1, Done)
  | Let => Ret (hold d (-1), Done)
  end.

Fixpoint dict_run (d : dict K V) (os : list dop) : out (dict K V * list dres) :=
  match os with
  | [] => Ret (d, [])
  | o :: os => '(d, r) ← dict_step d o; '(d, rs) ← dict_run d os; Ret (d, r :: rs)
  end.

(** [n] buckets at a time, [m] times. *)
Fixpoint rehash_times (m : nat) (d : dict K V) (n : nat) : out (dict K V) :=
  match m with 0 => Ret d | S m => '(d, _) ← dictRehash d n; rehash_times m d n end.

End operations.
