(* ===== verification/DictMap.v ===== *)
(** * Hash tables are finite maps

    The invariant of the dictionaries of Dict.v and the theorems on it: sequences of
    operations refine those on a finite map, and rehashing ends. *)
From stdpp Require Import gmap.
From S2P Require Import Prelude Dict.

(** ** The invariant

    What a [dictType] promises, as a class: on the keys that are used ([valid]),
    [canon] is what the comparison compares (the string itself, or the string in
    lower case), and equal keys have equal hashes. *)
Class DictType {K C : Type} (hashFunction : K → Z) (keyCompare : K → K → bool) (canon : K → C) (valid : K → Prop)
    : Prop := {
  hash_range k : (0 ≤ hashFunction k < 2 ^ 64)%Z;
  hash_canon k1 k2 : valid k1 → valid k2 → canon k1 = canon k2 → hashFunction k1 = hashFunction k2;
  compare_canon k1 k2 : valid k1 → valid k2 → keyCompare k1 k2 = true ↔ canon k1 = canon k2;
}.

Lemma concat_take_out {A} (t : list (list A)) i c :
  t !! i = Some c → concat t ≡ₚ c ++ concat (<[i := []]> t).
Proof.
  revert i. induction t as [|c' t IH]; intros [|i] E; simpl in *; [done|done|by simplify_eq|].
  rewrite (IH i E). by rewrite !(assoc_L (++)), (comm (++) c' c).
Qed.

Lemma concat_put {A} (t : list (list A)) i c c' :
  t !! i = Some c → concat (<[i := c']> t) ≡ₚ c' ++ concat (<[i := []]> t).
Proof.
  intros E. rewrite (concat_take_out (<[i := c']> t) i c'); [by rewrite list_insert_insert_eq|].
  apply list_lookup_insert_eq. by apply lookup_lt_Some in E.
Qed.

Lemma concat_bucket {A} (t : list (list A)) x : x ∈ concat t ↔ ∃ i c, t !! i = Some c ∧ x ∈ c.
Proof.
  induction t as [|c t IH]; simpl.
  - split; [by intros ?%not_elem_of_nil|]. intros (i & c & E & _). done.
  - rewrite elem_of_app, IH. split.
    + intros [Hx | (i & c' & E & Hx)]; [by exists 0, c|by exists (S i), c'].
    + intros ([|i] & c' & E & Hx); simpl in E; [left; by simplify_eq|right; by exists i, c'].
Qed.

Lemma insert_chain {A} (c : list A) i x y : c !! i = Some x → <[i := y]> c ≡ₚ y :: delete i c.
Proof.
  revert i. induction c as [|z c IH]; intros [|i] E; simpl in *; [done|done|done|].
  rewrite (IH i E). apply Permutation_swap.
Qed.

Section invariant.
Context {K V C : Type} `{Countable C} {hashFunction : K → Z} {keyCompare : K → K → bool} {canon : K → C} {valid : K → Prop}.
Context `{!DictType hashFunction keyCompare canon valid}.
Implicit Types (h : dictht K V) (d : dict K V) (e : K * V).

Notation index := (index hashFunction).
Notation key := (λ e : K * V, canon e.1).

(** A table: its size, counters, and every entry in the bucket of its hash. *)
Record ht_ok h : Prop := {
  hk_size : size h = Z.of_nat (length (table h));
  hk_mask : table h ≠ [] → ∃ n, (0 ≤ n)%Z ∧ size h = (2 ^ n)%Z ∧ sizemask h = (2 ^ n - 1)%Z;
  hk_used : used h = Z.of_nat (length (concat (table h)));
  hk_hash i c e : table h !! i = Some c → e ∈ c → index h e.1 = Z.of_nat i;
}.

Definition entries d : list (K * V) := concat (table (ht0 d)) ++ concat (table (ht1 d)).

(** The two tables: no rehashing and the second empty, or rehashing, with the buckets
    before [rehashidx] moved. *)
Record dict_ok d : Prop := {
  dk_0 : ht_ok (ht0 d);
  dk_1 : ht_ok (ht1 d);
  dk_all : NoDup (key <$> entries d) ∧ Forall (λ e, valid e.1) (entries d);
  dk_phase :
    (rehashidx d = -1)%Z ∧ ht1 d = dictReset
    ∨ (0 ≤ rehashidx d)%Z ∧ table (ht0 d) ≠ [] ∧ table (ht1 d) ≠ []
      ∧ ∀ i c, (Z.of_nat i < rehashidx d)%Z → table (ht0 d) !! i = Some c → c = [];
}.

Lemma dk_keys d : dict_ok d → NoDup (key <$> entries d).
Proof. intros Hd. apply (dk_all d Hd). Qed.

Lemma dk_valid d e : dict_ok d → e ∈ entries d → valid e.1.
Proof. intros Hd He. destruct (dk_all d Hd) as [_ HF]. rewrite Forall_forall in HF. by apply HF. Qed.

(** The map a dictionary stands for: from what keys are compared by to the entry. *)
Definition to_map d : gmap C (K * V) := list_to_map ((λ e, (canon e.1, e)) <$> entries d).

Lemma to_map_perm d d' :
  dict_ok d → entries d' ≡ₚ entries d → to_map d' = to_map d.
Proof.
  intros Hd HP. unfold to_map. apply list_to_map_proper; [|by rewrite HP].
  rewrite <-list_fmap_compose, HP. exact (dk_keys d Hd).
Qed.

Lemma to_map_lookup d k e :
  dict_ok d → to_map d !! canon k = Some e ↔ e ∈ entries d ∧ canon e.1 = canon k.
Proof.
  intros Hd. unfold to_map. rewrite <-elem_of_list_to_map.
  - rewrite list_elem_of_fmap. split.
    + by intros (e' & [= E ->] & Hin).
    + intros [Hin E]. exists e. by rewrite E.
  - rewrite <-list_fmap_compose. exact (dk_keys d Hd).
Qed.

Lemma index_range h k : ht_ok h → table h ≠ [] → (0 ≤ index h k < size h)%Z.
Proof.
  intros Hh Hn. destruct (hk_mask h Hh Hn) as (n & Hn0 & -> & Hm). unfold Dict.index. rewrite Hm.
  rewrite Z.sub_1_r, <-Z.ones_equiv, Z.land_ones by done. apply Z.mod_pos_bound. lia.
Qed.

Lemma bucket_in h k : ht_ok h → table h ≠ [] → ∃ c, bucket (table h) (index h k) = Ret c
  ∧ table h !! Z.to_nat (index h k) = Some c.
Proof.
  intros Hh Hn. pose proof (index_range h k Hh Hn) as Hi. rewrite (hk_size h Hh) in Hi. unfold bucket.
  destruct (lookup_lt_is_Some_2 (table h) (Z.to_nat (index h k))) as [c E]; [lia|]. rewrite E. by exists c.
Qed.

Lemma ht_ok_reset : ht_ok dictReset.
Proof. split; [done|done|done|done]. Qed.

(** A bucket is replaced by another one with the right keys. *)
Lemma ht_ok_insert h i c c' n :
  ht_ok h → table h !! i = Some c → (∀ e, e ∈ c' → index h e.1 = Z.of_nat i) →
  n = (used h - Z.of_nat (length c) + Z.of_nat (length c'))%Z →
  ht_ok (mk_ht (<[i := c']> (table h)) (size h) (sizemask h) n).
Proof.
  intros [H1 H2 H3 H4] E Hc ->. split; simpl.
  - by rewrite length_insert.
  - intros Hn. apply H2. intros E'. rewrite E' in E. done.
  - rewrite H3. rewrite (concat_put _ _ _ c' E), (concat_take_out _ _ _ E), !length_app. lia.
  - intros j cj e Ej He. change (index h e.1 = Z.of_nat j). destruct (decide (i = j)) as [<-|Hij].
    + rewrite list_lookup_insert_eq in Ej by (by apply lookup_lt_Some in E). simplify_eq. by apply Hc.
    + rewrite list_lookup_insert_ne in Ej by done. by apply (H4 j cj).
Qed.

Definition same_shape h h' : Prop := size h' = size h ∧ sizemask h' = sizemask h ∧ length (table h') = length (table h).

Lemma same_shape_index h h' k : same_shape h h' → index h' k = index h k.
Proof. intros (_ & E & _). unfold Dict.index. by rewrite E. Qed.

Lemma nonempty_length {A} (l l' : list A) : length l' = length l → l ≠ [] → l' ≠ [].
Proof. by destruct l, l'. Qed.

Lemma push_spec h e :
  ht_ok h → table h ≠ [] →
  ∃ h', push h (index h e.1) e = Ret h' ∧ ht_ok h' ∧ concat (table h') ≡ₚ e :: concat (table h) ∧ same_shape h h'.
Proof.
  intros Hh Hn. destruct (bucket_in h e.1 Hh Hn) as (c & Eb & El). unfold push. rewrite Eb. bind_red.
  pose proof (index_range h e.1 Hh Hn) as Hi.
  eexists. split; [done|]. split_and!; simpl.
  - apply (ht_ok_insert h _ c); [done|done| |simpl; lia].
    intros e' [-> | He']%elem_of_cons; [lia|]. by apply (hk_hash h Hh _ c).
  - by rewrite (concat_put _ _ _ (e :: c) El), (concat_take_out _ _ _ El).
  - split_and!; simpl; [done|done|by rewrite length_insert].
Qed.

Lemma move_chain_spec de : ∀ h,
  ht_ok h → table h ≠ [] →
  ∃ h', move_chain hashFunction de h = Ret h' ∧ ht_ok h' ∧ table h' ≠ [] ∧ concat (table h') ≡ₚ de ++ concat (table h).
Proof.
  induction de as [|e de IH]; intros h Hh Hn; cbn [move_chain]; [by exists h|].
  destruct (push_spec h e Hh Hn) as (h1 & -> & Hh1 & HP & (_ & _ & HL)). bind_red.
  destruct (IH h1 Hh1 (nonempty_length _ _ HL Hn)) as (h2 & -> & Hh2 & Hn2 & HP2).
  exists h2. split_and!; [done|done|done|]. rewrite HP2, HP. simpl. by rewrite Permutation_middle.
Qed.

(** *** Rehashing *)

Lemma skip_empty_spec (t : list (list (K * V))) fuel : ∀ idx ev j c,
  (0 ≤ idx)%Z → (idx ≤ Z.of_nat j)%Z → (Z.of_nat j - idx ≤ Z.of_nat fuel)%Z → (1 ≤ ev)%Z →
  t !! j = Some c → c ≠ [] →
  ∃ idx' r, skip_empty fuel t idx ev = Ret (idx', r) ∧ (idx ≤ idx' ≤ Z.of_nat j)%Z
    ∧ (∀ i c', (idx ≤ Z.of_nat i < idx')%Z → t !! i = Some c' → c' = [])
    ∧ match r with
      | Some (ev', c') => t !! Z.to_nat idx' = Some c' ∧ c' ≠ [] ∧ (1 ≤ ev')%Z
      | None => (idx < idx')%Z
      end.
Proof.
  induction fuel as [|fuel IH]; intros idx ev j c H0 H1 H2 Hev Ej Hc.
  all: assert (∃ b, t !! Z.to_nat idx = Some b) as [b Eb]
    by (apply lookup_lt_is_Some_2; apply lookup_lt_Some in Ej; lia).
  all: cbn [skip_empty]; unfold bucket; rewrite Eb; bind_red; destruct b as [|e b].
  2, 4: exists idx, (Some (ev, e :: b)); split; [done|]; split; [lia|]; split; [intros i c' Hi; lia|done].
  all: assert (idx ≠ Z.of_nat j) as Hne by (intros ->; rewrite Nat2Z.id in Eb; by simplify_eq).
  1: lia.
  assert (∀ i c', (idx ≤ Z.of_nat i < idx + 1)%Z → t !! i = Some c' → c' = []) as Hone.
  { intros i c' Hi Ei. replace i with (Z.to_nat idx) in Ei by lia. by simplify_eq. }
  case_bool_decide; [exists (idx + 1)%Z, None; split_and!; (done || lia)|].
  destruct (IH (idx + 1)%Z (ev - 1)%Z j c) as (idx' & r & -> & Hr & He & Hm); [lia..|done|done|].
  exists idx', r. split_and!; [done|lia|lia| |].
  - intros i c' Hi Ei. destruct (decide (Z.of_nat i = idx)); [apply (Hone i); [lia|done]|apply (He i); [lia|done]].
  - destruct r as [[ev' c']|]; [done|lia].
Qed.

(** While there are entries in the old table, one is in a bucket not yet visited. *)
Lemma bucket_ahead d :
  dict_ok d → (0 ≤ rehashidx d)%Z → used (ht0 d) ≠ 0%Z →
  ∃ j c, (rehashidx d ≤ Z.of_nat j)%Z ∧ table (ht0 d) !! j = Some c ∧ c ≠ [].
Proof.
  intros [H0 _ _ [[E _] | (_ & _ & _ & Hpre)]] Hr Hu; [lia|]. rewrite (hk_used _ H0) in Hu.
  destruct (concat (table (ht0 d))) as [|e l] eqn:E; [done|].
  assert (e ∈ concat (table (ht0 d))) as He by (rewrite E; by left).
  apply concat_bucket in He as (j & c & Ej & Hc). exists j, c. split_and!; [|done|intros ->; by apply not_elem_of_nil in Hc].
  destruct (decide (rehashidx d ≤ Z.of_nat j)%Z); [done|].
  assert (c = []) as -> by (apply (Hpre j); [lia|done]). by apply not_elem_of_nil in Hc.
Qed.

(** The rehashing part of a step keeps the invariant. *)
Lemma dict_ok_idx d idx' :
  dict_ok d → (0 ≤ rehashidx d ≤ idx')%Z →
  (∀ i c, (rehashidx d ≤ Z.of_nat i < idx')%Z → table (ht0 d) !! i = Some c → c = []) →
  dict_ok (mk_dict (ht0 d) (ht1 d) idx' (iterators d)).
Proof.
  intros [H0 H1 H2 [[E _] | (Hr & Hn0 & Hn1 & Hpre)]] Hi He; [lia|].
  split; simpl; [done|done|done|]. right. split_and!; [lia|done|done|].
  intros i c Hic Ei. destruct (decide (Z.of_nat i < rehashidx d)%Z); [by apply (Hpre i)|apply (He i); [lia|done]].
Qed.

Lemma dict_ok_moved d c h1 :
  dict_ok d → (0 ≤ rehashidx d)%Z → table (ht0 d) !! Z.to_nat (rehashidx d) = Some c →
  move_chain hashFunction c (ht1 d) = Ret h1 →
  let d' := mk_dict (mk_ht (<[Z.to_nat (rehashidx d) := []]> (table (ht0 d))) (size (ht0 d)) (sizemask (ht0 d))
              (used (ht0 d) - Z.of_nat (length c))) h1 (rehashidx d + 1) (iterators d) in
  dict_ok d' ∧ entries d' ≡ₚ entries d.
Proof.
  intros [H0 H1 H2 [[E _] | (Hr & Hn0 & Hn1 & Hpre)]] Hi Ec EM d'; [lia|].
  destruct (move_chain_spec c (ht1 d) H1 Hn1) as (h1' & EM' & Hh1 & Hn1' & HP). rewrite EM in EM'. injection EM' as <-.
  assert (entries d' ≡ₚ entries d) as HE.
  { unfold entries. simpl. rewrite HP, (concat_take_out _ _ _ Ec). by rewrite !(assoc_L (++)), (comm (++) c). }
  split; [|done]. split; simpl.
  - apply (ht_ok_insert _ _ c); [done|done|by intros e ?%not_elem_of_nil|simpl; lia].
  - done.
  - by rewrite HE.
  - right. split_and!; [lia|by destruct (table (ht0 d)), (Z.to_nat (rehashidx d))|done|].
    intros i c' Hic Ei. destruct (decide (i = Z.to_nat (rehashidx d))) as [->|Hne].
    + rewrite list_lookup_insert_eq in Ei by (by apply lookup_lt_Some in Ec). by simplify_eq.
    + rewrite list_lookup_insert_ne in Ei by done. apply (Hpre i); [lia|done].
Qed.

Lemma rehash_loop_spec n : ∀ d ev,
  dict_ok d → (0 ≤ rehashidx d)%Z → (1 ≤ ev)%Z →
  ∃ d' b, rehash_loop hashFunction n d ev = Ret (d', b) ∧ dict_ok d' ∧ (rehashidx d ≤ rehashidx d')%Z
    ∧ entries d' ≡ₚ entries d ∧ iterators d' = iterators d ∧ size (ht0 d') = size (ht0 d)
    ∧ (n ≠ 0 → used (ht0 d') ≠ 0%Z → (rehashidx d < rehashidx d')%Z) ∧ (b = false → used (ht0 d') ≠ 0%Z).
Proof.
  induction n as [|n IH]; intros d ev Hd Hr Hev; cbn [rehash_loop].
  { exists d, true. split_and!; done. }
  case_bool_decide as Hu; [exists d, true; split_and!; done|].
  destruct (bucket_ahead d Hd Hr Hu) as (j & c & Hj & Ej & Hc).
  pose proof (lookup_lt_Some _ _ _ Ej) as Hjl. pose proof (hk_size _ (dk_0 d Hd)) as Hsz.
  rewrite (bool_decide_eq_true_2 (size (ht0 d) > rehashidx d)%Z) by lia. cbn [negb].
  destruct (skip_empty_spec (table (ht0 d)) (length (table (ht0 d))) (rehashidx d) ev j c) as (idx & r & -> & Hi & He & Hm);
    [lia..|done|done|]. bind_red.
  pose proof (dict_ok_idx d idx Hd ltac:(lia) He) as Hd1.
  destruct r as [[ev' c']|]; [|eexists _, _; split_and!; [done|done|simpl; lia|done|done|done|simpl; lia|done]].
  destruct Hm as (Ec & Hc' & Hev').
  destruct (dk_phase d Hd) as [[E _] | (_ & _ & Hn1 & _)]; [lia|].
  destruct (move_chain_spec c' (ht1 d) (dk_1 d Hd) Hn1) as (h1 & EM & _). rewrite EM. bind_red.
  destruct (dict_ok_moved (mk_dict (ht0 d) (ht1 d) idx (iterators d)) c' h1 Hd1 ltac:(simpl; lia) Ec EM) as [Hd2 HE2].
  simpl in Hd2, HE2.
  destruct (IH _ ev' Hd2 ltac:(simpl; lia) Hev') as (d' & b & E & Hd' & Hr' & HE & Hit & Hs & _ & Hb).
  exists d', b. rewrite E. simpl in *. split_and!; [done|done|lia| |done|done|lia|done]. by rewrite HE, HE2.
Qed.

(** The old table is empty: the new one takes its place. *)
Lemma rehash_done d :
  dict_ok d → (0 ≤ rehashidx d)%Z → used (ht0 d) = 0%Z →
  let d' := mk_dict (ht1 d) dictReset (-1) (iterators d) in dict_ok d' ∧ entries d' ≡ₚ entries d.
Proof.
  intros [H0 H1 H2 [[E _] | (Hr & Hn0 & Hn1 & Hpre)]] Hi Hu d'; [lia|].
  assert (entries d' = entries d) as HE.
  { unfold entries. simpl. rewrite (hk_used _ H0) in Hu. rewrite app_nil_r.
    rewrite (nil_length_inv (concat (table (ht0 d)))); [done|lia]. }
  split; [|by rewrite HE]. split; simpl; [done|apply ht_ok_reset|by rewrite HE|by left].
Qed.

Lemma rehashing_idx d : dict_ok d → dictIsRehashing d = true → (0 ≤ rehashidx d)%Z.
Proof.
  intros Hd ER. destruct (dk_phase d Hd) as [[E _] | [? _]]; [|done]. unfold dictIsRehashing in ER. by rewrite E in ER.
Qed.

Lemma dictRehash_spec d n :
  dict_ok d → n ≠ 0 →
  ∃ d' b, dictRehash hashFunction d n = Ret (d', b) ∧ dict_ok d' ∧ entries d' ≡ₚ entries d ∧ iterators d' = iterators d
    ∧ (dictIsRehashing d' = true → dictIsRehashing d = true ∧ size (ht0 d') = size (ht0 d)
        ∧ (rehashidx d < rehashidx d' < size (ht0 d'))%Z).
Proof.
  intros Hd Hn. unfold dictRehash. destruct (dictIsRehashing d) eqn:ER; cbn [negb].
  2:{ exists d, false. split_and!; [done|done|done|done|by rewrite ER]. }
  pose proof (rehashing_idx d Hd ER) as Hr.
  destruct (rehash_loop_spec n d (Z.of_nat n * 10) Hd Hr ltac:(lia)) as (d1 & b & -> & Hd1 & Hr1 & HE1 & Hi1 & Hs1 & Hp1 & Hb1).
  bind_red.
  assert (used (ht0 d1) ≠ 0%Z → (rehashidx d < rehashidx d1 < size (ht0 d1))%Z) as Hgo.
  { intros Hu. destruct (bucket_ahead d1 Hd1 ltac:(lia) Hu) as (j & c & Hj & Ej & _).
    apply lookup_lt_Some in Ej. rewrite (hk_size _ (dk_0 d1 Hd1)). specialize (Hp1 Hn Hu). lia. }
  destruct b; cbn [negb]; [case_bool_decide as Hu|].
  - destruct (rehash_done d1 Hd1 ltac:(lia) Hu) as [Hd2 HE2]. eexists _, _.
    split_and!; [done|exact Hd2|by rewrite HE2|done|done].
  - eexists d1, _. split_and!; [done|done|done|done|]. intros _. split_and!; [done|done|apply Hgo, Hu..].
  - eexists d1, _. split_and!; [done|done|done|done|]. intros _. split_and!; [done|done|by apply Hgo, Hb1..].
Qed.
Lemma rehash_if_needed_spec d :
  dict_ok d →
  ∃ d', rehash_if_needed hashFunction d = Ret d' ∧ dict_ok d' ∧ entries d' ≡ₚ entries d ∧ iterators d' = iterators d.
Proof.
  intros Hd. unfold rehash_if_needed, dictRehashStep. destruct (dictIsRehashing d); [|by exists d].
  case_bool_decide; [|by exists d].
  destruct (dictRehash_spec d 1 Hd ltac:(done)) as (d' & b & -> & Hd' & HE & Hi & _). bind_red. by exists d'.
Qed.

(** *** Searching *)

Lemma chain_spec h k :
  ht_ok h → table h ≠ [] → valid k → (∀ e, e ∈ concat (table h) → valid e.1) →
  ∃ c, bucket (table h) (index h k) = Ret c ∧ table h !! Z.to_nat (index h k) = Some c
    ∧ (find_in keyCompare c k = None → ∀ e, e ∈ concat (table h) → canon e.1 ≠ canon k)
    ∧ (∀ i e, find_in keyCompare c k = Some (i, e) → c !! i = Some e ∧ canon e.1 = canon k).
Proof.
  intros Hh Hn Hv HV. destruct (bucket_in h k Hh Hn) as (c & Eb & El). exists c. split_and!; [done|done| |].
  - intros Hf e He Hk. pose proof (HV e He) as Hve. apply concat_bucket in He as (i & c' & Ei & He).
    assert (i = Z.to_nat (index h k)) as ->.
    { rewrite <-(Nat2Z.id i), <-(hk_hash h Hh i c' e Ei He). unfold Dict.index. by rewrite (hash_canon e.1 k Hve Hv Hk). }
    rewrite El in Ei. injection Ei as <-. apply list_find_None in Hf. rewrite Forall_forall in Hf.
    apply (Hf e He). by apply Is_true_true, compare_canon.
  - intros i e Hf. apply list_find_Some in Hf as (Ei & Hk & _). split; [done|].
    apply Is_true_true, compare_canon in Hk; [done|done|]. apply HV, concat_bucket. exists (Z.to_nat (index h k)), c.
    split; [done|]. by apply list_elem_of_lookup_2 in Ei.
Qed.

Lemma find_both_spec d k :
  dict_ok d → table (ht0 d) ≠ [] → valid k →
  ∃ r, find_both hashFunction keyCompare d k = Ret r ∧
    match r with
    | None => ∀ e, e ∈ entries d → canon e.1 ≠ canon k
    | Some (t, b, i, e) =>
      canon e.1 = canon k ∧ (t = true → dictIsRehashing d = true) ∧ (0 ≤ b)%Z
      ∧ ∃ c, table (get_ht d t) !! Z.to_nat b = Some c ∧ c !! i = Some e
    end.
Proof.
  intros Hd Hn Hv. unfold find_both.
  destruct (chain_spec (ht0 d) k (dk_0 d Hd) Hn Hv) as (c0 & -> & E0 & N0 & S0);
    [intros e He; apply (dk_valid d); [done|]; apply elem_of_app; by left|]. bind_red.
  pose proof (index_range (ht0 d) k (dk_0 d Hd) Hn) as Hi0.
  destruct (find_in keyCompare c0 k) as [[i e]|].
  { destruct (S0 i e eq_refl) as [Ei Hk]. eexists. split; [done|]. simpl. split_and!; [done|done|lia|by exists c0]. }
  destruct (dictIsRehashing d) eqn:ER; cbn [negb].
  - destruct (dk_phase d Hd) as [[E _] | (Hr & _ & Hn1 & _)]; [unfold dictIsRehashing in ER; by rewrite E in ER|].
    destruct (chain_spec (ht1 d) k (dk_1 d Hd) Hn1 Hv) as (c1 & -> & E1 & N1 & S1);
      [intros e He; apply (dk_valid d); [done|]; apply elem_of_app; by right|]. bind_red.
    pose proof (index_range (ht1 d) k (dk_1 d Hd) Hn1) as Hi1.
    destruct (find_in keyCompare c1 k) as [[i e]|]; eexists; (split; [done|]).
    + destruct (S1 i e eq_refl) as [Ei Hk]. simpl. split_and!; [done|done|lia|by exists c1].
    + intros e [He|He]%elem_of_app; [by apply N0|by apply N1].
  - eexists. split; [done|]. intros e [He|He]%elem_of_app; [by apply N0|].
    destruct (dk_phase d Hd) as [[_ E] | (Hr & _)]; [rewrite E in He; by apply not_elem_of_nil in He|].
    unfold dictIsRehashing in ER. apply bool_decide_eq_false_1 in ER. lia.
Qed.

Lemma dictSize_entries d : dict_ok d → dictSize d = Z.of_nat (length (entries d)).
Proof.
  intros Hd. unfold dictSize, entries. rewrite (hk_used _ (dk_0 d Hd)), (hk_used _ (dk_1 d Hd)), length_app. lia.
Qed.

Lemma nonempty_table d e : dict_ok d → e ∈ entries d → table (ht0 d) ≠ [].
Proof.
  intros Hd He. destruct (dk_phase d Hd) as [[_ E1] | (_ & Hn & _)]; [|done].
  intros E. unfold entries in He. rewrite E, E1 in He. by apply not_elem_of_nil in He.
Qed.

Lemma entries_nonempty d d' :
  dict_ok d → dict_ok d' → entries d' ≡ₚ entries d → dictSize d ≠ 0%Z → table (ht0 d') ≠ [].
Proof.
  intros Hd Hd' HE Hs. rewrite (dictSize_entries d Hd) in Hs. destruct (entries d) as [|e l] eqn:E; [done|].
  apply (nonempty_table d' e Hd'). rewrite HE. by left.
Qed.

Lemma chain_entries d t b i c e :
  table (get_ht d t) !! b = Some c → c !! i = Some e → e ∈ entries d.
Proof.
  intros Ec Ei. unfold entries. apply elem_of_app.
  destruct t; [right|left]; apply concat_bucket; exists b, c; (split; [done|]); by apply list_elem_of_lookup_2 in Ei.
Qed.

(** Looking a key up gives its entry in the map. *)
Lemma dictFind_spec d k :
  dict_ok d → valid k →
  ∃ d', dictFind hashFunction keyCompare d k = Ret (d', to_map d !! canon k) ∧ dict_ok d'
    ∧ entries d' ≡ₚ entries d ∧ iterators d' = iterators d.
Proof.
  intros Hd Hv. unfold dictFind. case_bool_decide as Hu.
  { exists d. split_and!; [|done|done|done]. do 2 f_equal. symmetry. apply eq_None_not_Some. intros [e He].
    apply (to_map_lookup d k e Hd) in He as [He _]. fold (dictSize d) in Hu. rewrite (dictSize_entries d Hd) in Hu.
    apply list_elem_of_lookup in He as [i Hi]. apply lookup_lt_Some in Hi. lia. }
  destruct (rehash_if_needed_spec d Hd) as (d1 & -> & Hd1 & HE & Hi). bind_red.
  destruct (find_both_spec d1 k Hd1 (entries_nonempty d d1 Hd Hd1 HE Hu) Hv) as (r & -> & Hr). bind_red.
  exists d1. split_and!; [|done|done|done]. rewrite <-(to_map_perm d d1 Hd HE). do 2 f_equal.
  destruct r as [[[[t b] i] e]|]; symmetry.
  - destruct Hr as (Hk & _ & _ & c & Ec & Ei). apply to_map_lookup; [done|]. split; [by eapply chain_entries|done].
  - apply eq_None_not_Some. intros [e He]. apply (to_map_lookup d1 k e Hd1) in He as [He Hk]. by apply (Hr e).
Qed.

(** *** Resizing *)

Lemma next_power_spec fuel : ∀ a sz,
  (0 ≤ a)%Z → (sz ≤ 2 ^ 62)%Z → (62 ≤ a + Z.of_nat fuel)%Z → (2 ^ a < 2 ^ 63)%Z →
  ∃ b, (a ≤ b)%Z ∧ next_power fuel (2 ^ a) sz = Ret (2 ^ b)%Z ∧ (sz ≤ 2 ^ b)%Z.
Proof.
  induction fuel as [|fuel IH]; intros a sz Ha Hs Hf Hlt; cbn [next_power]; case_bool_decide as Hc.
  - exists a. split_and!; [lia|done|lia].
  - exfalso. assert (2 ^ 62 ≤ 2 ^ a)%Z by (apply Z.pow_le_mono_r; lia). lia.
  - exists a. split_and!; [lia|done|lia].
  - assert (a < 62)%Z as Ha'.
    { destruct (decide (a < 62)%Z); [done|]. assert (2 ^ 62 ≤ 2 ^ a)%Z by (apply Z.pow_le_mono_r; lia). lia. }
    assert (2 ^ (a + 1) = 2 ^ a * 2)%Z as E by (rewrite Z.pow_add_r by lia; lia).
    assert (2 ^ (a + 1) ≤ 2 ^ 62)%Z as Hle by (apply Z.pow_le_mono_r; lia).
    assert (0 < 2 ^ a)%Z by (apply Z.pow_pos_nonneg; lia).
    rewrite Z.mod_small by lia. rewrite <-E.
    destruct (IH (a + 1)%Z sz) as (b & Hb & -> & Hsb); [lia..|]. exists b. split_and!; [lia|done|done].
Qed.

Lemma dictNextPower_spec sz :
  (sz ≤ 2 ^ 62)%Z → ∃ b, (2 ≤ b)%Z ∧ dictNextPower sz = Ret (2 ^ b)%Z ∧ (sz ≤ 2 ^ b)%Z.
Proof.
  intros Hs. unfold dictNextPower, LONG_MAX. rewrite bool_decide_eq_false_2 by lia.
  apply (next_power_spec 64 2); lia.
Qed.

(** A new table. *)
Lemma ht_ok_new b : (0 ≤ b)%Z → ht_ok (mk_ht (replicate (Z.to_nat (2 ^ b)) []) (2 ^ b) (2 ^ b - 1) 0).
Proof.
  intros Hb. assert (0 < 2 ^ b)%Z by (apply Z.pow_pos_nonneg; lia).
  assert (concat (replicate (Z.to_nat (2 ^ b)) ([] : list (K * V))) = []) as E.
  { generalize (Z.to_nat (2 ^ b)). intros m. induction m; [done|]. by simpl. }
  split; simpl.
  - rewrite length_replicate. lia.
  - intros _. by exists b.
  - by rewrite E.
  - intros i c e Ei He. apply lookup_replicate in Ei as [-> _]. by apply not_elem_of_nil in He.
Qed.

Lemma dictExpand_spec d sz :
  dict_ok d → dictIsRehashing d = false → (used (ht0 d) ≤ sz ≤ 2 ^ 62)%Z →
  ∃ d' b, dictExpand d sz = Ret (d', b) ∧ dict_ok d' ∧ entries d' = entries d ∧ iterators d' = iterators d
    ∧ (b = true → table (ht0 d') ≠ []) ∧ (b = false → d' = d)
    ∧ ((size (ht0 d) < sz)%Z → b = true).
Proof.
  intros Hd HR Hs. unfold dictExpand. destruct (dictNextPower_spec sz) as (b & Hb & -> & Hsb); [lia|]. bind_red.
  rewrite HR. rewrite bool_decide_eq_false_2 by lia. cbn [orb].
  case_bool_decide as Heq; [exists d, false; split_and!; (done || lia)|].
  pose proof (ht_ok_new b ltac:(lia)) as Hnew. assert (0 < 2 ^ b)%Z as Hbp by (apply Z.pow_pos_nonneg; lia).
  assert (replicate (Z.to_nat (2 ^ b)) ([] : list (K * V)) ≠ []) as Hne.
  { intros E. apply (f_equal length) in E. rewrite length_replicate in E. simpl in E. lia. }
  assert (concat (replicate (Z.to_nat (2 ^ b)) ([] : list (K * V))) = []) as Ec.
  { pose proof (hk_used _ Hnew) as E. simpl in E. apply nil_length_inv. lia. }
  destruct Hd as [H0 H1 H2 [[E E1] | [Hr _]]];
    [|unfold dictIsRehashing in HR; apply bool_decide_eq_false_1 in HR; lia].
  case_bool_decide as Ht; eexists _, _; (split; [done|]).
  - assert (entries (mk_dict (mk_ht (replicate (Z.to_nat (2 ^ b)) []) (2 ^ b) (2 ^ b - 1) 0) (ht1 d) (rehashidx d)
      (iterators d)) = entries d) as HE by (unfold entries; simpl; by rewrite Ec, Ht).
    split_and!; [|done|done|done|done|done]. split; simpl; [done|done|by rewrite HE|by left].
  - assert (entries (mk_dict (ht0 d) (mk_ht (replicate (Z.to_nat (2 ^ b)) []) (2 ^ b) (2 ^ b - 1) 0) 0 (iterators d))
      = entries d) as HE by (unfold entries; simpl; by rewrite Ec, E1).
    split_and!; [|done|done|done|done|done]. split; simpl; [done|done|by rewrite HE|right].
    split_and!; [lia|done|done|]. intros i c Hi. lia.
Qed.

Lemma dictExpandIfNeeded_spec can d :
  dict_ok d → (dictSize d ≤ 2 ^ 61)%Z →
  ∃ d', dictExpandIfNeeded can d = Ret (d', true) ∧ dict_ok d' ∧ entries d' = entries d ∧ iterators d' = iterators d
    ∧ table (ht0 d') ≠ [].
Proof.
  intros Hd Hs. unfold dictExpandIfNeeded. destruct (dictIsRehashing d) eqn:HR.
  { exists d. split_and!; [done|done|done|done|].
    destruct (dk_phase d Hd) as [[E _] | (_ & Hn & _)]; [unfold dictIsRehashing in HR; by rewrite E in HR|done]. }
  pose proof (hk_used _ (dk_0 d Hd)) as Hu. pose proof (hk_used _ (dk_1 d Hd)) as Hu1.
  pose proof (hk_size _ (dk_0 d Hd)) as Hsz. unfold dictSize in Hs.
  case_bool_decide as H0.
  { assert (table (ht0 d) = []) as Et by (apply nil_length_inv; lia). rewrite Et in Hu. simpl in Hu.
    destruct (dictExpand_spec d DICT_HT_INITIAL_SIZE Hd HR) as (d' & b & E & Hd' & HE & Hi & Hb & _ & HT);
      [unfold DICT_HT_INITIAL_SIZE; lia|].
    assert (b = true) as -> by (apply HT; unfold DICT_HT_INITIAL_SIZE; lia).
    exists d'. split_and!; [done|done|done|done|by apply Hb]. }
  destruct (bool_decide (used (ht0 d) >= size (ht0 d))%Z && _) eqn:Hc.
  - apply andb_true_iff in Hc as [Hc%bool_decide_eq_true_1 _].
    destruct (dictExpand_spec d (used (ht0 d) * 2) Hd HR) as (d' & b & E & Hd' & HE & Hi & Hb & _ & HT); [lia|].
    assert (b = true) as -> by (apply HT; lia). exists d'. split_and!; [done|done|done|done|by apply Hb].
  - exists d. split_and!; [done|done|done|done|]. intros E. rewrite E in Hsz. simpl in Hsz. lia.
Qed.

(** *** Changing one table *)

Lemma dict_ok_set d t h :
  dict_ok d → ht_ok h → same_shape (get_ht d t) h → (t = true → dictIsRehashing d = true) →
  (t = false → ∀ i c, (Z.of_nat i < rehashidx d)%Z → table h !! i = Some c → c = []) →
  NoDup (key <$> entries (set_ht d t h)) ∧ Forall (λ e, valid e.1) (entries (set_ht d t h)) → dict_ok (set_ht d t h).
Proof.
  intros [H0 H1 H2 HP] Hh (_ & _ & Hl) Ht He HN. destruct t; simpl in *; split; simpl; try done.
  - right. destruct HP as [[E _] | (Hr & Hn0 & Hn1 & Hpre)].
    + unfold dictIsRehashing in Ht. rewrite E in Ht. by specialize (Ht eq_refl).
    + split_and!; [done|done|by eapply nonempty_length|done].
  - destruct HP as [[E1 E2] | (Hr & Hn0 & Hn1 & Hpre)]; [by left|right].
    split_and!; [done|by eapply nonempty_length|done|by apply He].
Qed.

Lemma entries_set d t h l l' :
  concat (table h) ++ l ≡ₚ concat (table (get_ht d t)) ++ l' → entries (set_ht d t h) ++ l ≡ₚ entries d ++ l'.
Proof.
  intros HP. destruct t; unfold entries; simpl in *.
  - by rewrite <-!(assoc_L (++)), HP.
  - rewrite <-!(assoc_L (++)), (comm (++) _ l), (comm (++) _ l'), !(assoc_L (++)). by rewrite HP.
Qed.

(** An entry is replaced in its chain by [es]: nothing, or an entry with its key. *)
Lemma chain_update d t b i e c c' es n :
  dict_ok d → (t = true → dictIsRehashing d = true) → table (get_ht d t) !! b = Some c → c !! i = Some e →
  c' ≡ₚ es ++ delete i c → es = [] ∨ (∃ e', es = [e'] ∧ e'.1 = e.1) →
  n = (used (get_ht d t) - 1 + Z.of_nat (length es))%Z →
  let d' := set_ht d t (mk_ht (<[b := c']> (table (get_ht d t))) (size (get_ht d t)) (sizemask (get_ht d t)) n) in
  dict_ok d' ∧ ∃ l, entries d ≡ₚ e :: l ∧ entries d' ≡ₚ es ++ l.
Proof.
  intros Hd Ht Eb Ei Hc' Hes Hn d'. set (h := get_ht d t) in *.
  assert (ht_ok h) as Hh by (unfold h; destruct t; [apply (dk_1 d Hd)|apply (dk_0 d Hd)]).
  assert (c ≡ₚ e :: delete i c) as Hc by (by apply delete_Permutation).
  assert (∃ l, entries d ≡ₚ e :: l ∧ entries d' ≡ₚ es ++ l) as (l & HE & HE').
  { set (rest := if t then concat (table (ht0 d)) else concat (table (ht1 d))).
    exists (delete i c ++ concat (<[b := []]> (table h)) ++ rest).
    assert (entries d ≡ₚ concat (table h) ++ rest) as ->.
    { unfold entries, h, rest. destruct t; simpl; [apply Permutation_app_comm|done]. }
    assert (entries d' ≡ₚ concat (<[b := c']> (table h)) ++ rest) as ->.
    { unfold d', entries, rest. destruct t; simpl; [apply Permutation_app_comm|done]. }
    rewrite (concat_take_out _ _ _ Eb), (concat_put _ _ _ c' Eb), Hc', <-!(assoc_L (++)).
    split; [|done]. rewrite Hc at 1. done. }
  split; [|by exists l]. apply dict_ok_set; [done| | |done| |].
  - apply (ht_ok_insert h b c); [done|done| |].
    + intros e2 He2. rewrite Hc' in He2. apply elem_of_app in He2 as [He2|He2].
      * destruct Hes as [-> | (e' & -> & Hk)]; [by apply not_elem_of_nil in He2|].
        apply list_elem_of_singleton in He2 as ->. rewrite <-(hk_hash h Hh b c e Eb).
        -- unfold Dict.index. by rewrite Hk.
        -- by apply list_elem_of_lookup_2 in Ei.
      * apply (hk_hash h Hh b c e2 Eb). rewrite Hc. by right.
    + rewrite Hn, (Permutation_length Hc'), length_app. apply Permutation_length in Hc. simpl in Hc. lia.
  - split_and!; simpl; [done|done|by rewrite length_insert].
  - intros -> j cj Hj Ej. destruct (dk_phase d Hd) as [[E _] | (_ & _ & _ & Hpre)]; [lia|].
    destruct (decide (j = b)) as [->|Hjb]; simpl in Ej.
    + exfalso. rewrite (Hpre b c Hj Eb) in Ei. done.
    + rewrite list_lookup_insert_ne in Ej by done. by apply (Hpre j).
  - fold d'. destruct (dk_all d Hd) as [HN HF]. rewrite HE in HN, HF. rewrite HE'. simpl in HN. rewrite fmap_app.
    apply NoDup_cons in HN as [Hne HN]. apply Forall_cons in HF as [Hve HF].
    destruct Hes as [-> | (e' & -> & Hk)]; simpl; [done|].
    rewrite Hk. split; [by apply NoDup_cons|]. apply Forall_cons. by rewrite Hk.
Qed.

(** The map after an entry was added, replaced or removed. *)
Lemma to_map_cons d e l :
  dict_ok d → entries d ≡ₚ e :: l →
  to_map d = <[canon e.1 := e]> (list_to_map ((λ e, (canon e.1, e)) <$> l))
  ∧ (list_to_map ((λ e, (canon e.1, e)) <$> l) : gmap C (K * V)) !! canon e.1 = None
  ∧ (∀ d', dict_ok d' → entries d' ≡ₚ l → to_map d' = delete (canon e.1) (to_map d))
  ∧ (∀ d' e', dict_ok d' → entries d' ≡ₚ e' :: l → canon e'.1 = canon e.1 → to_map d' = <[canon e.1 := e']> (to_map d)).
Proof.
  intros Hd HE. pose proof (dk_keys d Hd) as HN. rewrite HE in HN. simpl in HN. apply NoDup_cons in HN as [Hne HN].
  set (m := list_to_map ((λ e, (canon e.1, e)) <$> l) : gmap C (K * V)).
  assert (m !! canon e.1 = None) as Hm.
  { apply not_elem_of_list_to_map. by rewrite <-list_fmap_compose. }
  assert (to_map d = <[canon e.1 := e]> m) as Em.
  { unfold to_map. rewrite (list_to_map_proper _ ((λ e, (canon e.1, e)) <$> (e :: l))); [done| |by rewrite HE].
    rewrite <-list_fmap_compose. exact (dk_keys d Hd). }
  split_and!; [done|done| |].
  - intros d' Hd' HE'. rewrite Em, delete_insert_id by done. unfold to_map.
    apply list_to_map_proper; [|by rewrite HE']. rewrite <-list_fmap_compose. exact (dk_keys d' Hd').
  - intros d' e' Hd' HE' Hk. rewrite Em, insert_insert_eq, <-Hk. unfold to_map.
    rewrite (list_to_map_proper _ ((λ e, (canon e.1, e)) <$> (e' :: l))); [done| |by rewrite HE'].
    rewrite <-list_fmap_compose. exact (dk_keys d' Hd').
Qed.

(** *** Adding, replacing, deleting *)

Lemma dictAddRaw_spec can d k v :
  dict_ok d → (dictSize d ≤ 2 ^ 61)%Z → valid k →
  ∃ d' s, dictAddRaw hashFunction keyCompare can d k v = Ret (d', s) ∧ dict_ok d' ∧ iterators d' = iterators d ∧
    match s with
    | Free _ => to_map d !! canon k = None ∧ entries d' ≡ₚ (k, v) :: entries d
    | Existing t b i e =>
      to_map d !! canon k = Some e ∧ entries d' ≡ₚ entries d ∧ canon e.1 = canon k
      ∧ (t = true → dictIsRehashing d' = true) ∧ (0 ≤ b)%Z
      ∧ ∃ c, table (get_ht d' t) !! Z.to_nat b = Some c ∧ c !! i = Some e
    | NoRoom => False
    end.
Proof.
  intros Hd Hs Hv. unfold dictAddRaw. destruct (rehash_if_needed_spec d Hd) as (d1 & -> & Hd1 & HE1 & Hi1). bind_red.
  assert (dictSize d1 ≤ 2 ^ 61)%Z as Hs1.
  { rewrite (dictSize_entries d Hd) in Hs. rewrite (dictSize_entries d1 Hd1), HE1. done. }
  unfold dictKeyIndex. destruct (dictExpandIfNeeded_spec can d1 Hd1 Hs1) as (d2 & -> & Hd2 & HE2 & Hi2 & Hn2). bind_red.
  cbn [negb]. destruct (find_both_spec d2 k Hd2 Hn2 Hv) as (r & -> & Hr). bind_red.
  rewrite <-HE2 in HE1. destruct r as [[[[t b] i] e]|]; bind_red.
  - destruct Hr as (Hk & Ht & Hb & c & Ec & Ei). eexists d2, _. split_and!; [done|done|congruence|].
    split_and!; [|done|done|done|done|by exists c]. rewrite <-(to_map_perm d d2 Hd HE1).
    apply to_map_lookup; [done|]. split; [by eapply chain_entries|done].
  - set (t := dictIsRehashing d2).
    assert (ht_ok (get_ht d2 t)) as Hh by (destruct t; [apply (dk_1 d2 Hd2)|apply (dk_0 d2 Hd2)]).
    assert (table (get_ht d2 t) ≠ []) as Hnt.
    { unfold t. destruct (dictIsRehashing d2) eqn:ER; [|done].
      destruct (dk_phase d2 Hd2) as [[E _] | (_ & _ & Hn & _)]; [unfold dictIsRehashing in ER; by rewrite E in ER|done]. }
    destruct (push_spec (get_ht d2 t) (k, v) Hh Hnt) as (h & E & Hh' & HP & Hsh). simpl in E. rewrite E. bind_red.
    assert (entries (set_ht d2 t h) ≡ₚ (k, v) :: entries d) as HEs.
    { pose proof (entries_set d2 t h [] [(k, v)]) as HQ. rewrite !app_nil_r in HQ.
      rewrite HQ by (rewrite HP; by rewrite (comm (++) _ [(k, v)])). rewrite HE1. by rewrite (comm (++) _ [(k, v)]). }
    assert (∀ e, e ∈ entries d → canon e.1 ≠ canon k) as Hfresh.
    { intros e He. apply Hr. by rewrite HE1. }
    eexists _, _. split; [done|]. split.
    + apply dict_ok_set; [done|done|done|done| |].
      * intros Et i c Hi. destruct (dk_phase d2 Hd2) as [[Er _] | (Hr0 & _)]; [lia|].
        unfold t, dictIsRehashing in Et. apply bool_decide_eq_false_1 in Et. lia.
      * destruct (dk_all d Hd) as [HN HF]. rewrite HEs. simpl. split; [|by apply Forall_cons].
        apply NoDup_cons. split; [|done]. intros (e & Ee & He)%list_elem_of_fmap. by apply (Hfresh e He).
    + split; [destruct t; simpl; congruence|]. split; [|done].
      apply eq_None_not_Some. intros [e He]. apply (to_map_lookup d k e Hd) in He as [He Hk]. by apply (Hfresh e).
Qed.

Lemma dictAdd_spec can d k v :
  dict_ok d → (dictSize d ≤ 2 ^ 61)%Z → valid k →
  ∃ d', dictAdd hashFunction keyCompare can d k v = Ret (d', bool_decide (to_map d !! canon k = None))
    ∧ dict_ok d' ∧ iterators d' = iterators d
    ∧ to_map d' = match to_map d !! canon k with None => <[canon k := (k, v)]> (to_map d) | Some _ => to_map d end.
Proof.
  intros Hd Hs Hv. unfold dictAdd. destruct (dictAddRaw_spec can d k v Hd Hs Hv) as (d' & s & -> & Hd' & Hi & Hm). bind_red.
  exists d'. destruct s as [ix|t b i e|]; [| |done].
  - destruct Hm as [Hn HE]. rewrite Hn. split_and!; [done|done|done|].
    destruct (to_map_cons d' (k, v) (entries d) Hd' HE) as (-> & _). done.
  - destruct Hm as (He & HE & _). rewrite He. split_and!; [done|done|done|by apply to_map_perm].
Qed.

Lemma dictReplace_spec can d k v :
  dict_ok d → (dictSize d ≤ 2 ^ 61)%Z → valid k →
  ∃ d', dictReplace hashFunction keyCompare can d k v = Ret (d', bool_decide (to_map d !! canon k = None))
    ∧ dict_ok d' ∧ iterators d' = iterators d
    ∧ to_map d' = <[canon k := (match to_map d !! canon k with Some e => e.1 | None => k end, v)]> (to_map d).
Proof.
  intros Hd Hs Hv. unfold dictReplace. destruct (dictAddRaw_spec can d k v Hd Hs Hv) as (d1 & s & -> & Hd1 & Hi & Hm). bind_red.
  destruct s as [ix|t b i e|]; [| |done].
  - destruct Hm as [Hn HE]. rewrite Hn. exists d1. split_and!; [done|done|done|].
    destruct (to_map_cons d1 (k, v) (entries d) Hd1 HE) as (-> & _). done.
  - destruct Hm as (He & HE & Hk & Ht & Hb & c & Ec & Ei). rewrite He.
    unfold update_chain, bucket. rewrite Ec. bind_red. eexists. split; [done|].
    destruct (chain_update d1 t (Z.to_nat b) i e c (<[i := (e.1, v)]> c) [(e.1, v)] (used (get_ht d1 t)) Hd1 Ht Ec Ei)
      as (Hd2 & l & HE1 & HE2).
    + simpl. by apply (insert_chain c i e).
    + right. by exists (e.1, v).
    + simpl. lia.
    + split_and!; [exact Hd2|destruct t; simpl; done|].
      destruct (to_map_cons d1 e l Hd1 HE1) as (_ & _ & _ & HR). rewrite (HR _ (e.1, v) Hd2 HE2 eq_refl).
      rewrite Hk. by rewrite (to_map_perm d d1 Hd HE).
Qed.

Lemma dictGenericDelete_spec d k :
  dict_ok d → valid k →
  ∃ d', dictGenericDelete hashFunction keyCompare d k = Ret (d', to_map d !! canon k)
    ∧ dict_ok d' ∧ iterators d' = iterators d ∧ to_map d' = delete (canon k) (to_map d).
Proof.
  intros Hd Hv. unfold dictGenericDelete. destruct (_ && _) eqn:Hu.
  { apply andb_true_iff in Hu as [Hu0%bool_decide_eq_true_1 Hu1%bool_decide_eq_true_1].
    assert (to_map d !! canon k = None) as Hn.
    { apply eq_None_not_Some. intros [e He]. apply (to_map_lookup d k e Hd) in He as [He _].
      apply list_elem_of_lookup in He as [i Hi]. apply lookup_lt_Some in Hi.
      pose proof (dictSize_entries d Hd) as E. unfold dictSize in E. lia. }
    exists d. rewrite Hn. split_and!; [done|done|done|]. by rewrite delete_id. }
  assert (dictSize d ≠ 0%Z) as Hs.
  { pose proof (hk_used _ (dk_0 d Hd)). pose proof (hk_used _ (dk_1 d Hd)). unfold dictSize.
    apply andb_false_iff in Hu as [Hu%bool_decide_eq_false_1 | Hu%bool_decide_eq_false_1]; lia. }
  destruct (rehash_if_needed_spec d Hd) as (d1 & -> & Hd1 & HE & Hi). bind_red.
  destruct (find_both_spec d1 k Hd1 (entries_nonempty d d1 Hd Hd1 HE Hs) Hv) as (r & -> & Hr). bind_red.
  rewrite <-(to_map_perm d d1 Hd HE). destruct r as [[[[t b] i] e]|].
  - destruct Hr as (Hk & Ht & Hb & c & Ec & Ei).
    assert (to_map d1 !! canon k = Some e) as Hm.
    { apply to_map_lookup; [done|]. split; [by eapply chain_entries|done]. }
    unfold update_chain, bucket. rewrite Ec. bind_red. rewrite Hm. eexists. split; [done|].
    destruct (chain_update d1 t (Z.to_nat b) i e c (delete i c) [] (used (get_ht d1 t) - 1)%Z Hd1 Ht Ec Ei)
      as (Hd2 & l & HE1 & HE2); [done|by left|simpl; lia|].
    split_and!; [exact Hd2|destruct t; simpl; done|].
    destruct (to_map_cons d1 e l Hd1 HE1) as (_ & _ & HD & _). rewrite (HD _ Hd2 HE2). by rewrite Hk.
  - assert (to_map d1 !! canon k = None) as Hm.
    { apply eq_None_not_Some. intros [e He]. apply (to_map_lookup d1 k e Hd1) in He as [He Hk]. by apply (Hr e). }
    exists d1. rewrite Hm. split_and!; [done|done|done|]. by rewrite delete_id.
Qed.

(** ** A dictionary is a finite map *)

(** The abstract map and the results it gives. *)
Definition map_step (m : gmap C (K * V)) (o : dop (K := K) (V := V)) : gmap C (K * V) * dres :=
  match o with
  | Find k => (m, Entry (m !! canon k))
  | Add _ k v =>
    match m !! canon k with Some _ => (m, Flag false) | None => (<[canon k := (k, v)]> m, Flag true) end
  | Replace _ k v =>
    match m !! canon k with
    | Some e => (<[canon k := (e.1, v)]> m, Flag false)
    | None => (<[canon k := (k, v)]> m, Flag true)
    end
  | Delete k => (delete (canon k) m, Entry (m !! canon k))
  | Rehash _ | Resize _ | Hold | Let => (m, Done)
  end.

Fixpoint map_run (m : gmap C (K * V)) (os : list (dop (K := K) (V := V))) : gmap C (K * V) * list dres :=
  match os with
  | [] => (m, [])
  | o :: os => let '(m, r) := map_step m o in let '(m, rs) := map_run m os in (m, r :: rs)
  end.

(** The keys an operation uses. *)
Definition dop_valid (o : dop (K := K) (V := V)) : Prop :=
  match o with Find k | Add _ k _ | Replace _ k _ | Delete k => valid k | _ => True end.

Lemma dict_ok_hold d n : dict_ok d → dict_ok (hold d n).
Proof. intros [H0 H1 H2 H3]. by split. Qed.

(** With fewer than 2^31 entries the [int] is their number; with more it is smaller,
    and the request is refused. *)
Lemma minimal_spec n :
  (0 ≤ n)%Z → if bool_decide (n < 2 ^ 31)%Z then minimal n = n else (minimal n < n - DICT_HT_INITIAL_SIZE)%Z.
Proof.
  intros Hn. unfold minimal, DICT_HT_INITIAL_SIZE. case_bool_decide.
  - rewrite Z.mod_small by lia. lia.
  - pose proof (Z.mod_le (n + 2 ^ 31 - 2 ^ 32) (2 ^ 32)) as H1. pose proof (Z.mod_pos_bound (n + 2 ^ 31) (2 ^ 32)).
    rewrite <-(Z_mod_plus_full (n + 2 ^ 31) (-1) (2 ^ 32)). replace (n + 2 ^ 31 + -1 * 2 ^ 32)%Z with (n + 2 ^ 31 - 2 ^ 32)%Z by lia.
    lia.
Qed.

Lemma dictExpand_refused d sz :
  (sz ≤ 2 ^ 62)%Z → (sz < used (ht0 d))%Z → dictExpand d sz = Ret (d, false).
Proof.
  intros Hs Hu. unfold dictExpand. destruct (dictNextPower_spec sz) as (b & _ & -> & _); [done|]. bind_red.
  rewrite (bool_decide_eq_true_2 (used (ht0 d) > sz)%Z) by lia. by rewrite orb_true_r.
Qed.

(** A table with 2^31 or more entries is never made smaller: the number of entries
    does not fit the [int]. *)
Lemma dictResize_large can d :
  (2 ^ 31 ≤ used (ht0 d) ≤ 2 ^ 61)%Z → dictResize can d = Ret (d, false).
Proof.
  intros Hu. unfold dictResize. destruct (_ || _); [done|]. pose proof (minimal_spec (used (ht0 d)) ltac:(lia)) as Hm.
  rewrite bool_decide_eq_false_2 in Hm by lia. apply dictExpand_refused; unfold DICT_HT_INITIAL_SIZE in *; case_bool_decide; lia.
Qed.

Lemma dictResize_spec can d :
  dict_ok d → (dictSize d ≤ 2 ^ 61)%Z →
  ∃ d' b, dictResize can d = Ret (d', b) ∧ dict_ok d' ∧ entries d' = entries d.
Proof.
  intros Hd Hs. pose proof (hk_used _ (dk_0 d Hd)) as H0. pose proof (hk_used _ (dk_1 d Hd)) as H1. unfold dictSize in Hs.
  destruct (decide (used (ht0 d) < 2 ^ 31)%Z) as [Hl|Hl]; [|exists d, false; split; [apply dictResize_large; lia|done]].
  unfold dictResize. destruct (dictIsRehashing d) eqn:HR.
  { rewrite orb_true_r. by exists d, false. }
  destruct can; cbn [negb orb]; [|by exists d, false].
  pose proof (minimal_spec (used (ht0 d)) ltac:(lia)) as Hm. rewrite bool_decide_eq_true_2 in Hm by done. rewrite Hm.
  destruct (dictExpand_spec d (if bool_decide (used (ht0 d) < DICT_HT_INITIAL_SIZE)%Z then DICT_HT_INITIAL_SIZE
    else used (ht0 d)) Hd HR) as (d' & b & -> & Hd' & HE & _); [|by exists d', b].
  unfold DICT_HT_INITIAL_SIZE. case_bool_decide; lia.
Qed.

Lemma dictSize_map d : dict_ok d → dictSize d = Z.of_nat (base.size (to_map d)).
Proof.
  intros Hd. rewrite (dictSize_entries d Hd). unfold to_map. rewrite map_size_list_to_map; [by rewrite length_fmap|].
  rewrite <-list_fmap_compose. exact (dk_keys d Hd).
Qed.

Lemma dict_step_spec d o :
  dict_ok d → (dictSize d ≤ 2 ^ 61)%Z → dop_valid o →
  ∃ d' r, dict_step hashFunction keyCompare d o = Ret (d', r) ∧ dict_ok d' ∧ (dictSize d' ≤ dictSize d + 1)%Z
    ∧ map_step (to_map d) o = (to_map d', r).
Proof.
  intros Hd Hs Hv. assert (∀ d', dict_ok d' → to_map d' = to_map d → (dictSize d' ≤ dictSize d + 1)%Z) as Hsame.
  { intros d' Hd' E. rewrite (dictSize_map d Hd), (dictSize_map d' Hd'), E. lia. }
  assert (∀ d' m, dict_ok d' → to_map d' = m → base.size m ≤ S (base.size (to_map d)) →
    (dictSize d' ≤ dictSize d + 1)%Z) as Hone.
  { intros d' m Hd' <- Hle. rewrite (dictSize_map d Hd), (dictSize_map d' Hd'). lia. }
  destruct o as [k|can k v|can k v|k|n|can| |]; cbn [dict_step map_step]; simpl in Hv.
  - destruct (dictFind_spec d k Hd Hv) as (d' & -> & Hd' & HE & _). bind_red. pose proof (to_map_perm d d' Hd HE) as E.
    eexists d', _. split_and!; [done|done|by apply Hsame|by rewrite E].
  - destruct (dictAdd_spec can d k v Hd Hs Hv) as (d' & -> & Hd' & _ & E). bind_red.
    eexists d', _. split_and!; [done|done| |by rewrite E; destruct (to_map d !! canon k)].
    apply (Hone d' _ Hd' E). destruct (to_map d !! canon k) eqn:Ek; [lia|]. by rewrite map_size_insert_None.
  - destruct (dictReplace_spec can d k v Hd Hs Hv) as (d' & -> & Hd' & _ & E). bind_red.
    eexists d', _. split_and!; [done|done| |by rewrite E; destruct (to_map d !! canon k)].
    apply (Hone d' _ Hd' E). rewrite map_size_insert. destruct (to_map d !! canon k); simpl; lia.
  - unfold dictUnlink. destruct (dictGenericDelete_spec d k Hd Hv) as (d' & -> & Hd' & _ & E). bind_red.
    eexists d', _. split_and!; [done|done| |by rewrite E].
    apply (Hone d' _ Hd' E). rewrite map_size_delete. destruct (to_map d !! canon k); simpl; lia.
  - destruct (dictRehash_spec d (S n) Hd ltac:(done)) as (d' & b & -> & Hd' & HE & _). bind_red.
    pose proof (to_map_perm d d' Hd HE) as E. eexists d', _. split_and!; [done|done|by apply Hsame|by rewrite E].
  - destruct (dictResize_spec can d Hd Hs) as (d' & b & -> & Hd' & HE). bind_red.
    assert (to_map d' = to_map d) as E by (apply to_map_perm; [done|by rewrite HE]).
    eexists d', _. split_and!; [done|done|by apply Hsame|by rewrite E].
  - eexists _, _. split_and!; [done|by apply dict_ok_hold|apply Hsame; [by apply dict_ok_hold|done]|done].
  - eexists _, _. split_and!; [done|by apply dict_ok_hold|apply Hsame; [by apply dict_ok_hold|done]|done].
Qed.

Lemma dict_run_spec os : ∀ d,
  dict_ok d → (dictSize d + Z.of_nat (length os) ≤ 2 ^ 61)%Z → Forall dop_valid os →
  ∃ d' rs, dict_run hashFunction keyCompare d os = Ret (d', rs) ∧ dict_ok d' ∧ map_run (to_map d) os = (to_map d', rs).
Proof.
  induction os as [|o os IH]; intros d Hd Hs HV; cbn [dict_run map_run]; [by exists d, []|]. simpl in Hs.
  apply Forall_cons in HV as [Hv HV]. destruct (dict_step_spec d o Hd ltac:(lia) Hv) as (d1 & r & -> & Hd1 & Hs1 & ->). bind_red.
  destruct (IH d1 Hd1 ltac:(lia) HV) as (d2 & rs & -> & Hd2 & ->). bind_red. by exists d2, (r :: rs).
Qed.

Lemma dict_ok_create : dict_ok dictCreate.
Proof. split; simpl; [apply ht_ok_reset|apply ht_ok_reset|split; constructor|by left]. Qed.

Lemma rehash_times_spec n m : ∀ d,
  dict_ok d → n ≠ 0 → (dictIsRehashing d = true → (size (ht0 d) - rehashidx d ≤ Z.of_nat m)%Z ∧ m ≠ 0) →
  ∃ d', rehash_times hashFunction m d n = Ret d' ∧ dict_ok d' ∧ entries d' ≡ₚ entries d ∧ dictIsRehashing d' = false.
Proof.
  induction m as [|m IH]; intros d Hd Hn Hm; cbn [rehash_times].
  - exists d. split_and!; [done|done|done|]. destruct (dictIsRehashing d); [|done]. by destruct Hm.
  - destruct (dictRehash_spec d n Hd Hn) as (d1 & b & -> & Hd1 & HE1 & _ & Hp). bind_red.
    destruct (IH d1 Hd1 Hn) as (d2 & -> & Hd2 & HE2 & HR2).
    { intros ER. destruct (Hp ER) as (ER0 & Hs & Hi). destruct (Hm ER0) as [Hm' _]. lia. }
    exists d2. split_and!; [done|done|by rewrite HE2|done].
Qed.

End invariant.

(** *** Properties *)

(** C30: a dictionary behaves as a finite map: any sequence of lookups, additions,
    replacements and deletions, with resizing allowed or not, rehashing steps,
    shrinking and iterators that stop rehashing in between, returns and gives the
    results of the same operations on the map from keys (as far as the comparison
    tells them apart) to entries; the counters stay exact and every entry stays in
    the bucket of its hash. *)
Theorem dict_refines_map {K V C : Type} `{Countable C} (hashFunction : K → Z) (keyCompare : K → K → bool)
    (canon : K → C) (valid : K → Prop) (os : list (dop (K := K) (V := V))) :
  DictType hashFunction keyCompare canon valid → (Z.of_nat (length os) ≤ 2 ^ 61)%Z → Forall (dop_valid (valid := valid)) os →
  ∃ d rs, dict_run hashFunction keyCompare dictCreate os = Ret (d, rs)
    ∧ dict_ok (hashFunction := hashFunction) (canon := canon) (valid := valid) d
    ∧ map_run (canon := canon) ∅ os = (to_map (canon := canon) d, rs)
    ∧ dictSize d = Z.of_nat (base.size (to_map (canon := canon) d)).
Proof.
  intros HT Hl HV. destruct (dict_run_spec os dictCreate dict_ok_create) as (d & rs & E & Hd & Em);
    [unfold dictSize; simpl; lia|done|].
  exists d, rs. split_and!; [done|done|done|exact (dictSize_map d Hd)].
Qed.

#[export] Instance nat_dict_type : DictType (λ k : nat, Z.of_nat k mod 2 ^ 64)%Z (λ a b, bool_decide (a = b)) (λ k : nat, k)
  (λ _, True).
Proof.
  split.
  - intros k. apply Z.mod_pos_bound. lia.
  - by intros k1 k2 _ _ ->.
  - intros k1 k2 _ _. apply bool_decide_eq_true.
Qed.

Definition dict_sample : list (dop (K := nat) (V := bool)) :=
  [Add true 1 true; Add true 5 false; Add true 9 true; Add true 13 false; Add true 2 true; Find 13; Replace true 5 true;
   Hold; Delete 9; Find 9; Let; Rehash 0; Add true 1 false; Find 5].

Lemma dict_refines_map_witness :
  ∃ d rs, dict_run (λ k : nat, Z.of_nat k mod 2 ^ 64)%Z (λ a b, bool_decide (a = b)) dictCreate dict_sample = Ret (d, rs)
    ∧ rs = [Flag true; Flag true; Flag true; Flag true; Flag true; Entry (Some (13, false)); Flag false; Done;
            Entry (Some (9, true)); Entry None; Done; Done; Flag false; Entry (Some (5, true))].
Proof.
  destruct (dict_refines_map (λ k : nat, Z.of_nat k mod 2 ^ 64)%Z (λ a b, bool_decide (a = b)) (λ k : nat, k) (λ _, True)
    dict_sample nat_dict_type) as (d & rs & E & _ & Em & _).
  - vm_compute. discriminate.
  - repeat constructor.
  - exists d, rs. split; [exact E|]. pose proof (f_equal snd Em) as Es. simpl in Es. rewrite <-Es. reflexivity.
Defined.

(** rehashing ends: on any dictionary, calling [dictRehash] as often as the old
    table has buckets leaves a dictionary that is not being rehashed, with the same
    entries. *)
Theorem dict_rehash_ends {K V C : Type} `{Countable C} (hashFunction : K → Z) (keyCompare : K → K → bool)
    (canon : K → C) (valid : K → Prop) (d : dict K V) n :
  DictType hashFunction keyCompare canon valid → dict_ok (hashFunction := hashFunction) (canon := canon) (valid := valid) d → n ≠ 0 →
  ∃ d', rehash_times hashFunction (Z.to_nat (size (ht0 d))) d n = Ret d'
    ∧ dict_ok (hashFunction := hashFunction) (canon := canon) (valid := valid) d' ∧ dictIsRehashing d' = false
    ∧ to_map (canon := canon) d' = to_map (canon := canon) d.
Proof.
  intros HT Hd Hn. destruct (rehash_times_spec n (Z.to_nat (size (ht0 d))) d Hd Hn) as (d' & E & Hd' & HE & HR).
  - intros ER. pose proof (hk_size _ (dk_0 d Hd)) as Hs.
    destruct (dk_phase d Hd) as [[Ei _] | (Hi & Hn0 & _)]; [unfold dictIsRehashing in ER; by rewrite Ei in ER|].
    assert (0 < length (table (ht0 d))) by (destruct (table (ht0 d)); [done|simpl; lia]). lia.
  - exists d'. split_and!; [done|done|done|]. exact (to_map_perm d d' Hd HE).
Qed.

(** A dictionary in the middle of a rehashing. *)
Definition rehashing_sample : dict nat bool :=
  match dict_run (λ k : nat, Z.of_nat k mod 2 ^ 64)%Z (λ a b, bool_decide (a = b)) dictCreate
          [Add true 1 true; Add true 5 false; Add true 9 true; Add true 14 false; Add true 2 true] with
  | Ret (d, _) => d
  | Fail _ => dictCreate
  end.

Lemma rehashing_sample_ok :
  dict_ok (hashFunction := λ k : nat, Z.of_nat k mod 2 ^ 64)%Z (canon := λ k : nat, k) (valid := λ _, True) rehashing_sample.
Proof.
  unfold rehashing_sample.
  destruct (dict_run_spec (canon := λ k : nat, k) (valid := λ _, True) [Add true 1 true; Add true 5 false; Add true 9 true; Add true 14 false; Add true 2 true]
    dictCreate dict_ok_create) as (d & rs & -> & Hd & _);
    [vm_compute; discriminate|repeat constructor|exact Hd].
Qed.

Lemma dict_rehash_ends_witness :
  dictIsRehashing rehashing_sample = true
  ∧ ∃ d', rehash_times (λ k : nat, Z.of_nat k mod 2 ^ 64)%Z 4 rehashing_sample 1 = Ret d' ∧ dictIsRehashing d' = false.
Proof.
  split; [reflexivity|].
  destruct (dict_rehash_ends (λ k : nat, Z.of_nat k mod 2 ^ 64)%Z (λ a b, bool_decide (a = b)) (λ k : nat, k) (λ _, True)
    rehashing_sample 1 nat_dict_type rehashing_sample_ok ltac:(lia)) as (d' & E & _ & HR & _).
  exists d'. split; [exact E|exact HR].
Defined.
