(* ===== verification/Scan.v ===== *)
(** * Scanning a hash table

    [dictScan] and [rev] of src/src/dict.c: a cursor that counts with its bits reversed,
    so that a scan survives that the table grows.  The theorems: a scan from cursor 0
    to cursor 0 returns every entry that is there all the time, whatever else is done
    to the dictionary but shrinking it; when the table is being made smaller, entries
    can be missed. *)
From stdpp Require Import gmap.
From S2P Require Import Prelude Dict DictMap.

(** Unsigned longs. *)
Definition wrap (x : Z) : Z := (x mod 2 ^ 64)%Z.

Fixpoint rev_loop (fuel : nat) (s mask v : Z) : Z :=
  match fuel with
  | 0 => v
  | S fuel =>
    let s := Z.shiftr s 1 in
    if bool_decide (s > 0)%Z then
      let mask := Z.lxor mask (wrap (Z.shiftl mask s)) in
      rev_loop fuel s mask (Z.lor (Z.land (Z.shiftr v s) mask) (Z.land (wrap (Z.shiftl v s)) (wrap (Z.lnot mask))))
    else v
  end.

(** Seven tests of the loop condition: 32, 16, 8, 4, 2, 1, 0. *)
Definition rev (v : Z) : Z := rev_loop 7 64 (wrap (Z.lnot 0)) v.

Section scan.
Context {K V : Type} (hashFunction : K → Z).
Implicit Types (d : dict K V).

(** The loop over the larger table: all buckets whose index ends in the bits of the
    cursor. *)
Fixpoint expansions (fuel : nat) (t1 : list (list (K * V))) (m0 m1 v : Z) : out (Z * list (K * V)) :=
  c ← bucket t1 (Z.land v m1);
  let v := Z.lor (Z.land (wrap (Z.lor v m0 + 1)) (wrap (Z.lnot m0))) (Z.land v m0) in
  if bool_decide (Z.land v (Z.lxor m0 m1) ≠ 0)%Z then
    match fuel with
    | 0 => Fail OutOfFuel
    | S fuel => '(v, cs) ← expansions fuel t1 m0 m1 v; Ret (v, c ++ cs)
    end
  else Ret (v, c).

Definition next_cursor (m0 v : Z) : Z := rev (wrap (rev (Z.lor v (wrap (Z.lnot m0))) + 1)).

(** The new cursor and the entries the callback was called with. *)
Definition dictScan d (v : Z) : out (Z * list (K * V)) :=
  if bool_decide (dictSize d = 0)%Z then Ret (0%Z, [])
  else if negb (dictIsRehashing d) then
    let m0 := sizemask (ht0 d) in
    c ← bucket (table (ht0 d)) (Z.land v m0);
    Ret (next_cursor m0 v, c)
  else
    let '(t0, t1) := if bool_decide (size (ht0 d) > size (ht1 d))%Z then (ht1 d, ht0 d) else (ht0 d, ht1 d) in
    let m0 := sizemask t0 in
    let m1 := sizemask t1 in
    c ← bucket (table t0) (Z.land v m0);
    '(v, cs) ← expansions (length (table t1)) (table t1) m0 m1 v;
    Ret (next_cursor m0 v, c ++ cs).
End scan.

(** ** Reversing bits *)

Lemma wrap_range x : (0 ≤ wrap x < 2 ^ 64)%Z.
Proof. apply Z.mod_pos_bound. done. Qed.

Lemma wrap_small x : (0 ≤ x < 2 ^ 64)%Z → wrap x = x.
Proof. apply Z.mod_small. Qed.

Lemma wrap_bits x i : (0 ≤ i < 64)%Z → Z.testbit (wrap x) i = Z.testbit x i.
Proof. intros Hi. unfold wrap. apply Z.mod_pow2_bits_low. lia. Qed.

Lemma bits_high x i : (0 ≤ x < 2 ^ 64)%Z → (64 ≤ i)%Z → Z.testbit x i = false.
Proof.
  intros Hx Hi. rewrite <-(Z.mod_small x (2 ^ 64)) by done. apply Z.mod_pow2_bits_high. lia.
Qed.

(** 64 bit numbers are equal when their bits are. *)
Lemma bits64_inj x y :
  (0 ≤ x < 2 ^ 64)%Z → (0 ≤ y < 2 ^ 64)%Z → (∀ i, (0 ≤ i < 64)%Z → Z.testbit x i = Z.testbit y i) → x = y.
Proof.
  intros Hx Hy H. apply Z.bits_inj'. intros i Hi. destruct (decide (i < 64)%Z); [by apply H|].
  by rewrite !bits_high by (done || lia).
Qed.

(** One round exchanges the blocks of [s] bits; the mask has the bits of the lower
    blocks. *)
Definition swap (s mask v : Z) : Z :=
  Z.lor (Z.land (Z.shiftr v s) mask) (Z.land (wrap (Z.shiftl v s)) (wrap (Z.lnot mask))).

Definition mask_ok (s mask : Z) : bool :=
  forallb (λ n, let i := Z.of_nat n in
    if Z.testbit mask i then bool_decide (Z.lxor i s = i + s)%Z && bool_decide (i + s < 64)%Z
    else bool_decide (Z.lxor i s = i - s)%Z && bool_decide (0 ≤ i - s)%Z) (seq 0 64).

Lemma swap_bits s mask v i :
  mask_ok s mask = true → (0 < s)%Z → (0 ≤ v < 2 ^ 64)%Z → (0 ≤ i < 64)%Z →
  Z.testbit (swap s mask v) i = Z.testbit v (Z.lxor i s) ∧ (0 ≤ Z.lxor i s < 64)%Z.
Proof.
  intros Hm Hs Hv Hi. unfold mask_ok in Hm. rewrite forallb_forall in Hm.
  specialize (Hm (Z.to_nat i)). rewrite Z2Nat.id in Hm by lia. rewrite in_seq in Hm. specialize (Hm ltac:(lia)). cbv zeta in Hm.
  unfold swap. rewrite Z.lor_spec, !Z.land_spec, !wrap_bits, Z.lnot_spec, Z.shiftr_spec, Z.shiftl_spec by lia.
  destruct (Z.testbit mask i); apply andb_true_iff in Hm as [->%bool_decide_eq_true H%bool_decide_eq_true]; simpl.
  - rewrite andb_true_r, andb_false_r, orb_false_r. split; [done|lia].
  - rewrite andb_false_r, andb_true_r. split; [done|lia].
Qed.

Lemma swap_range s mask v : (0 ≤ s)%Z → (0 ≤ mask < 2 ^ 64)%Z → (0 ≤ v)%Z → (0 ≤ swap s mask v < 2 ^ 64)%Z.
Proof.
  intros Hs Hm Hv. assert (0 ≤ swap s mask v)%Z as H0.
  { apply Z.lor_nonneg. split; apply Z.land_nonneg; left; [by apply Z.shiftr_nonneg|apply wrap_range]. }
  split; [done|]. destruct (decide (swap s mask v = 0)%Z) as [->|Hn]; [done|]. apply Z.log2_lt_pow2; [lia|].
  destruct (Z.lt_ge_cases (Z.log2 (swap s mask v)) 64) as [|Hg]; [done|exfalso].
  pose proof (Z.bit_log2 (swap s mask v) ltac:(lia)) as Hb. revert Hb. unfold swap at 1.
  rewrite Z.lor_spec, !Z.land_spec. rewrite (bits_high mask) by done.
  rewrite (bits_high (wrap (Z.lnot mask))) by (apply wrap_range || done). by rewrite !andb_false_r.
Qed.

Lemma rev_swaps v :
  rev v = swap 1 0x5555555555555555 (swap 2 0x3333333333333333 (swap 4 0x0F0F0F0F0F0F0F0F
    (swap 8 0x00FF00FF00FF00FF (swap 16 0x0000FFFF0000FFFF (swap 32 0x00000000FFFFFFFF v))))).
Proof. reflexivity. Qed.

Lemma rev_spec v : (0 ≤ v < 2 ^ 64)%Z →
  (0 ≤ rev v < 2 ^ 64)%Z ∧ ∀ i, (0 ≤ i < 64)%Z → Z.testbit (rev v) i = Z.testbit v (63 - i).
Proof.
  intros Hv. rewrite rev_swaps.
  pose proof (swap_range 32 0x00000000FFFFFFFF v ltac:(lia) ltac:(lia) ltac:(lia)) as H1.
  pose proof (swap_range 16 0x0000FFFF0000FFFF _ ltac:(lia) ltac:(lia) (proj1 H1)) as H2.
  pose proof (swap_range 8 0x00FF00FF00FF00FF _ ltac:(lia) ltac:(lia) (proj1 H2)) as H3.
  pose proof (swap_range 4 0x0F0F0F0F0F0F0F0F _ ltac:(lia) ltac:(lia) (proj1 H3)) as H4.
  pose proof (swap_range 2 0x3333333333333333 _ ltac:(lia) ltac:(lia) (proj1 H4)) as H5.
  pose proof (swap_range 1 0x5555555555555555 _ ltac:(lia) ltac:(lia) (proj1 H5)) as H6.
  split; [exact H6|]. intros i Hi.
  destruct (swap_bits 1 0x5555555555555555 _ i eq_refl ltac:(lia) H5 Hi) as [-> R1].
  destruct (swap_bits 2 0x3333333333333333 _ _ eq_refl ltac:(lia) H4 R1) as [-> R2].
  destruct (swap_bits 4 0x0F0F0F0F0F0F0F0F _ _ eq_refl ltac:(lia) H3 R2) as [-> R3].
  destruct (swap_bits 8 0x00FF00FF00FF00FF _ _ eq_refl ltac:(lia) H2 R3) as [-> R4].
  destruct (swap_bits 16 0x0000FFFF0000FFFF _ _ eq_refl ltac:(lia) H1 R4) as [-> R5].
  destruct (swap_bits 32 0x00000000FFFFFFFF v _ eq_refl ltac:(lia) Hv R5) as [-> R6].
  f_equal. rewrite !Z.lxor_assoc. change (Z.lxor 1 _) with 63%Z.
  assert (∀ n : nat, (n < 64)%nat → Z.lxor (Z.of_nat n) 63 = 63 - Z.of_nat n)%Z as Hx.
  { intros n Hn. do 64 (destruct n as [|n]; [reflexivity|]). lia. }
  specialize (Hx (Z.to_nat i)). rewrite Z2Nat.id in Hx by lia. apply Hx. lia.
Qed.

Lemma rev_0 : rev 0 = 0%Z.
Proof. vm_compute. reflexivity. Qed.

Lemma rev_invol v : (0 ≤ v < 2 ^ 64)%Z → rev (rev v) = v.
Proof.
  intros Hv. destruct (rev_spec v Hv) as [H1 H2]. destruct (rev_spec (rev v) H1) as [H3 H4].
  apply bits64_inj; [done|done|]. intros i Hi. rewrite H4, H2 by lia. f_equal. lia.
Qed.

(** The low [n] bits of a number are the high bits of the reversed number. *)
Lemma rev_high_bits n v i :
  (0 ≤ n ≤ 64)%Z → (0 ≤ v < 2 ^ 64)%Z → (0 ≤ i)%Z →
  Z.testbit (rev v / 2 ^ (64 - n)) i = if bool_decide (i < n)%Z then Z.testbit v (n - 1 - i) else false.
Proof.
  intros Hn Hv Hi. destruct (rev_spec v Hv) as [H1 H2]. rewrite Z.div_pow2_bits by lia. case_bool_decide.
  - rewrite H2 by lia. f_equal. lia.
  - apply bits_high; [done|lia].
Qed.

Lemma rev_block n u v :
  (0 ≤ n ≤ 64)%Z → (0 ≤ u < 2 ^ 64)%Z → (0 ≤ v < 2 ^ 64)%Z →
  (u mod 2 ^ n = v mod 2 ^ n)%Z ↔ (rev u / 2 ^ (64 - n) = rev v / 2 ^ (64 - n))%Z.
Proof.
  intros Hn Hu Hv. split; intros E; apply Z.bits_inj'; intros i Hi.
  - rewrite !rev_high_bits by done. case_bool_decide; [|done].
    rewrite <-(Z.mod_pow2_bits_low u n), <-(Z.mod_pow2_bits_low v n) by lia. by rewrite E.
  - destruct (decide (i < n)%Z); [|by rewrite !Z.mod_pow2_bits_high by lia]. rewrite !Z.mod_pow2_bits_low by lia.
    assert (∀ x, (0 ≤ x < 2 ^ 64)%Z → Z.testbit x i = Z.testbit (rev x / 2 ^ (64 - n)) (n - 1 - i)) as H.
    { intros x Hx. rewrite rev_high_bits by lia. rewrite bool_decide_eq_true_2 by lia. f_equal. lia. }
    by rewrite (H u Hu), (H v Hv), E.
Qed.

(** A number has [n] bits when the reversed number has its low bits clear. *)
Lemma rev_small n v : (0 ≤ n ≤ 64)%Z → (0 ≤ v < 2 ^ 64)%Z → (v < 2 ^ n)%Z ↔ (rev v mod 2 ^ (64 - n) = 0)%Z.
Proof.
  intros Hn Hv. destruct (rev_spec v Hv) as [H1 H2]. split.
  - intros Hl. apply Z.bits_inj'. intros i Hi. rewrite Z.bits_0. destruct (decide (i < 64 - n)%Z).
    + rewrite Z.mod_pow2_bits_low, H2 by lia. rewrite <-(Z.mod_small v (2 ^ n)) by lia. apply Z.mod_pow2_bits_high. lia.
    + apply Z.mod_pow2_bits_high. lia.
  - intros E. assert (v = v mod 2 ^ n)%Z as ->; [|apply Z.mod_pos_bound, Z.pow_pos_nonneg; lia].
    apply Z.bits_inj'. intros i Hi. destruct (decide (i < n)%Z) as [|Hin]; [by rewrite Z.mod_pow2_bits_low by lia|].
    rewrite Z.mod_pow2_bits_high by lia. destruct (decide (i < 64)%Z); [|apply bits_high; [done|lia]].
    assert (Z.testbit (rev v mod 2 ^ (64 - n)) (63 - i) = false) as Hb by (rewrite E; apply Z.bits_0).
    rewrite Z.mod_pow2_bits_low, H2 in Hb by lia. rewrite <-Hb. f_equal. lia.
Qed.

(** *** Masks *)

Lemma land_mask v n : (0 ≤ n)%Z → Z.land v (2 ^ n - 1) = (v mod 2 ^ n)%Z.
Proof. intros Hn. by rewrite Z.sub_1_r, <-Z.ones_equiv, Z.land_ones. Qed.

Lemma mask_bits n i : (0 ≤ n)%Z → (0 ≤ i)%Z → Z.testbit (2 ^ n - 1) i = bool_decide (i < n)%Z.
Proof.
  intros Hn Hi. rewrite Z.sub_1_r, <-Z.ones_equiv. case_bool_decide.
  - by apply Z.ones_spec_low.
  - apply Z.ones_spec_high. lia.
Qed.

(** The cursor with the bits above the mask set. *)
Lemma rev_unmasked n v :
  (0 ≤ n ≤ 64)%Z → (0 ≤ v < 2 ^ 64)%Z →
  (rev (Z.lor v (wrap (Z.lnot (2 ^ n - 1)))) + 1 = (rev v / 2 ^ (64 - n) + 1) * 2 ^ (64 - n))%Z
  ∧ (0 ≤ Z.lor v (wrap (Z.lnot (2 ^ n - 1))) < 2 ^ 64)%Z.
Proof.
  intros Hn Hv. set (a := Z.lor v _).
  assert (0 ≤ a < 2 ^ 64)%Z as Ha.
  { split; [apply Z.lor_nonneg; split; [lia|apply wrap_range]|].
    destruct (decide (a = 0)%Z) as [->|Hz]; [done|]. assert (0 ≤ a)%Z by (apply Z.lor_nonneg; split; [lia|apply wrap_range]).
    apply Z.log2_lt_pow2; [lia|]. unfold a. rewrite Z.log2_lor by (lia || apply wrap_range).
    assert (∀ x, (0 ≤ x < 2 ^ 64)%Z → (Z.log2 x < 64)%Z) as Hlog.
    { intros x Hx. destruct (decide (x = 0)%Z) as [->|]; [done|]. apply Z.log2_lt_pow2; lia. }
    apply Z.max_lub_lt; apply Hlog; [done|apply wrap_range]. }
  split; [|done]. destruct (rev_spec a Ha) as [H1 H2].
  assert (rev a / 2 ^ (64 - n) = rev v / 2 ^ (64 - n))%Z as Eq.
  { apply rev_block; [done|done|done|]. apply Z.bits_inj'. intros i Hi. destruct (decide (i < n)%Z).
    - rewrite !Z.mod_pow2_bits_low by lia. unfold a. rewrite Z.lor_spec, wrap_bits, Z.lnot_spec, mask_bits by lia.
      rewrite bool_decide_eq_true_2 by done. apply orb_false_r.
    - by rewrite !Z.mod_pow2_bits_high by lia. }
  assert (rev a mod 2 ^ (64 - n) = 2 ^ (64 - n) - 1)%Z as Er.
  { apply Z.bits_inj'. intros i Hi. rewrite mask_bits by lia. case_bool_decide.
    - rewrite Z.mod_pow2_bits_low, H2 by lia. unfold a. rewrite Z.lor_spec, wrap_bits, Z.lnot_spec, mask_bits by lia.
      rewrite bool_decide_eq_false_2 by lia. apply orb_true_r.
    - apply Z.mod_pow2_bits_high. lia. }
  pose proof (Z.pow_pos_nonneg 2 (64 - n) ltac:(lia) ltac:(lia)).
  pose proof (Z.div_mod (rev a) (2 ^ (64 - n)) ltac:(lia)) as Ed. rewrite Eq, Er in Ed. lia.
Qed.

Lemma next_cursor_spec n v :
  (0 ≤ n ≤ 64)%Z → (0 ≤ v < 2 ^ 64)%Z →
  let v' := next_cursor (2 ^ n - 1) v in
  rev v' = wrap ((rev v / 2 ^ (64 - n) + 1) * 2 ^ (64 - n)) ∧ (0 ≤ v' < 2 ^ n)%Z.
Proof.
  intros Hn Hv v'. destruct (rev_unmasked n v Hn Hv) as [E Ha]. unfold v', next_cursor. rewrite E.
  set (r := wrap _). pose proof (wrap_range ((rev v / 2 ^ (64 - n) + 1) * 2 ^ (64 - n))) as Hr. fold r in Hr.
  destruct (rev_spec r Hr) as [H1 _]. rewrite rev_invol by done. split; [done|]. split; [lia|].
  apply (rev_small n (rev r) Hn H1). rewrite rev_invol by done. unfold r, wrap.
  pose proof (Z.pow_pos_nonneg 2 (64 - n) ltac:(lia) ltac:(lia)).
  replace (2 ^ 64)%Z with (2 ^ n * 2 ^ (64 - n))%Z by (rewrite <-Z.pow_add_r by lia; f_equal; lia).
  rewrite Z.mul_mod_distr_r by (try (apply Z.pow_nonzero; lia); lia). apply Z.mod_mul. lia.
Qed.

(** One step of the cursor covers the numbers that end in its bits, and no number
    between the old and the new cursor, in reversed order, is left out. *)
Lemma next_cursor_covers n v v2 h :
  (0 ≤ n ≤ 64)%Z → (0 ≤ v < 2 ^ n)%Z → (0 ≤ v2 < 2 ^ 64)%Z → (v2 mod 2 ^ n = v)%Z → (0 ≤ h < 2 ^ 64)%Z →
  (rev v ≤ rev h)%Z →
  (h mod 2 ^ n = v)%Z ∨ next_cursor (2 ^ n - 1) v2 ≠ 0%Z ∧ (rev (next_cursor (2 ^ n - 1) v2) ≤ rev h)%Z.
Proof.
  intros Hn Hv Hv2 E Hh Hle. pose proof (Z.pow_le_mono_r 2 n 64 ltac:(lia) ltac:(lia)) as Hp.
  destruct (next_cursor_spec n v2 Hn Hv2) as [Er Hr]. destruct (rev_spec h Hh) as [Hrh _].
  assert (rev v2 / 2 ^ (64 - n) = rev v / 2 ^ (64 - n))%Z as Eq.
  { apply rev_block; [done|done|lia|]. by rewrite E, Z.mod_small. }
  rewrite Eq in Er. pose proof (Z.pow_pos_nonneg 2 (64 - n) ltac:(lia) ltac:(lia)) as Hpos.
  pose proof (Z.div_le_mono _ _ (2 ^ (64 - n)) Hpos Hle) as Hd.
  destruct (decide (rev h / 2 ^ (64 - n) = rev v / 2 ^ (64 - n))%Z) as [Eh|Eh].
  { left. apply rev_block in Eh; [|done|done|lia]. by rewrite Eh, Z.mod_small. }
  right. pose proof (Z.mul_div_le (rev h) (2 ^ (64 - n)) Hpos) as Hm.
  assert ((rev v / 2 ^ (64 - n) + 1) * 2 ^ (64 - n) ≤ rev h)%Z as Hb by nia.
  assert (0 ≤ rev v / 2 ^ (64 - n))%Z by (apply Z.div_pos; [apply rev_spec; lia|done]).
  rewrite wrap_small in Er by nia. split; [|lia].
  intros Hz. rewrite Hz, rev_0 in Er. nia.
Qed.

(** How far one step goes. *)
Lemma next_cursor_advance n v v2 :
  (0 ≤ n ≤ 64)%Z → (0 ≤ v < 2 ^ n)%Z → (0 ≤ v2 < 2 ^ 64)%Z → (v2 mod 2 ^ n = v)%Z →
  next_cursor (2 ^ n - 1) v2 = 0%Z ∨ ((rev (next_cursor (2 ^ n - 1) v2) - rev v) * 2 ^ n = 2 ^ 64)%Z.
Proof.
  intros Hn Hv Hv2 E. pose proof (Z.pow_le_mono_r 2 n 64 ltac:(lia) ltac:(lia)) as Hp.
  destruct (next_cursor_spec n v2 Hn Hv2) as [Er Hr]. set (v' := next_cursor _ _) in *.
  assert (rev v2 / 2 ^ (64 - n) = rev v / 2 ^ (64 - n))%Z as Eq.
  { apply rev_block; [done|done|lia|]. by rewrite E, Z.mod_small. }
  rewrite Eq in Er. pose proof (Z.pow_pos_nonneg 2 (64 - n) ltac:(lia) ltac:(lia)) as Hpos.
  assert (rev v mod 2 ^ (64 - n) = 0)%Z as Hm by (apply (rev_small n v Hn); lia).
  pose proof (Z.div_mod (rev v) (2 ^ (64 - n)) ltac:(lia)) as Hdm.
  assert (2 ^ 64 = 2 ^ (64 - n) * 2 ^ n)%Z as Hs by (rewrite <-Z.pow_add_r by lia; f_equal; lia).
  destruct (rev_spec v ltac:(lia)) as [Hrv _].
  destruct (decide ((rev v / 2 ^ (64 - n) + 1) * 2 ^ (64 - n) < 2 ^ 64)%Z) as [Hl|Hl].
  - right. rewrite wrap_small in Er by nia. rewrite Er. nia.
  - left. assert ((rev v / 2 ^ (64 - n) + 1) * 2 ^ (64 - n) = 2 ^ 64)%Z as Hw.
    { assert (rev v / 2 ^ (64 - n) < 2 ^ n)%Z by (apply Z.div_lt_upper_bound; lia). nia. }
    rewrite Hw in Er. change (wrap (2 ^ 64)) with 0%Z in Er. rewrite <-(rev_invol v') by lia. by rewrite Er, rev_0.
Qed.

(** ** The larger table *)

Lemma next_same_bits p v j : (0 < p)%Z → (v < j)%Z → (j mod p = v mod p)%Z → (v + p ≤ j)%Z.
Proof.
  intros Hp Hl E. pose proof (Z.div_mod v p ltac:(lia)). pose proof (Z.div_mod j p ltac:(lia)).
  assert (v / p < j / p)%Z by nia. nia.
Qed.

Section expansions.
Context {K V : Type} (t1 : list (list (K * V))) (n0 n1 : Z).
Context (Hn : (0 ≤ n0 ≤ n1)%Z) (Hn1 : (n1 ≤ 64)%Z) (Ht : Z.of_nat (length t1) = (2 ^ n1)%Z).
#[local] Notation m0 := (2 ^ n0 - 1)%Z.
#[local] Notation m1 := (2 ^ n1 - 1)%Z.

(** The next index with the same low bits. *)
Lemma increment v :
  (0 ≤ v < 2 ^ n1)%Z →
  Z.lor (Z.land (wrap (Z.lor v m0 + 1)) (wrap (Z.lnot m0))) (Z.land v m0)
  = (wrap ((v / 2 ^ n0 + 1) * 2 ^ n0) + v mod 2 ^ n0)%Z.
Proof.
  intros Hv. pose proof (Z.pow_pos_nonneg 2 n0 ltac:(lia) ltac:(lia)) as Hp.
  assert (Z.lor v m0 + 1 = (v / 2 ^ n0 + 1) * 2 ^ n0)%Z as ->.
  { assert (Z.lor v m0 / 2 ^ n0 = v / 2 ^ n0)%Z as E1.
    { rewrite <-!Z.shiftr_div_pow2 by lia. apply Z.bits_inj'. intros i Hi. rewrite !Z.shiftr_spec, Z.lor_spec, mask_bits by lia.
      rewrite bool_decide_eq_false_2 by lia. apply orb_false_r. }
    assert (Z.lor v m0 mod 2 ^ n0 = m0)%Z as E2.
    { rewrite <-Z.land_ones by lia. apply Z.bits_inj'. intros i Hi. rewrite Z.land_spec, Z.lor_spec, Z.testbit_ones, mask_bits by lia.
      repeat case_bool_decide; destruct (Z.testbit v i); destruct (0 <=? i)%Z eqn:?, (i <? n0)%Z eqn:?; simpl; try done; lia. }
    pose proof (Z.div_mod (Z.lor v m0) (2 ^ n0) ltac:(lia)) as Ed. rewrite E1, E2 in Ed. lia. }
  rewrite land_mask by lia. set (w := wrap _).
  assert (Z.land w (wrap (Z.lnot m0)) = w) as ->.
  { pose proof (wrap_range ((v / 2 ^ n0 + 1) * 2 ^ n0)) as Hw. fold w in Hw.
    apply Z.bits_inj'. intros i Hi. rewrite Z.land_spec. destruct (decide (i < 64)%Z); [|by rewrite (bits_high w) by (done || lia)].
    rewrite wrap_bits, Z.lnot_spec, mask_bits by lia. case_bool_decide; [|apply andb_true_r]. simpl. rewrite andb_false_r. symmetry.
    unfold w. rewrite wrap_bits by lia. rewrite Z.mul_pow2_bits_low; [done|lia]. }
  assert (Z.land w (v mod 2 ^ n0) = 0)%Z as E0; [|by rewrite Z.add_nocarry_lxor, Z.lxor_lor].
  apply Z.bits_inj'. intros i Hi. rewrite Z.land_spec, Z.bits_0.
  destruct (decide (i < n0)%Z); [|rewrite (Z.mod_pow2_bits_high v) by lia; apply andb_false_r].
  unfold w. rewrite wrap_bits by lia. by rewrite Z.mul_pow2_bits_low by lia.
Qed.

Lemma land_diff v : Z.land v (Z.lxor m0 m1) = 0%Z ↔ (v mod 2 ^ n0 = v mod 2 ^ n1)%Z.
Proof.
  rewrite <-!land_mask by lia.
  assert (Z.land v (Z.lxor m0 m1) = Z.lxor (Z.land v m0) (Z.land v m1)) as ->; [|apply Z.lxor_eq_0_iff].
  apply Z.bits_inj'. intros i _. rewrite Z.lxor_spec, !Z.land_spec, Z.lxor_spec. by destruct (Z.testbit v i), (Z.testbit m0 i), (Z.testbit m1 i).
Qed.

Lemma step_index v :
  (0 ≤ v < 2 ^ n1)%Z →
  let v' := (wrap ((v / 2 ^ n0 + 1) * 2 ^ n0) + v mod 2 ^ n0)%Z in
  (0 ≤ v' < 2 ^ 64)%Z ∧ (v' mod 2 ^ n0 = v mod 2 ^ n0)%Z
  ∧ if bool_decide (v + 2 ^ n0 < 2 ^ n1)%Z then (v' = v + 2 ^ n0)%Z ∧ (v' mod 2 ^ n0 ≠ v' mod 2 ^ n1)%Z
    else (v' mod 2 ^ n0 = v' mod 2 ^ n1)%Z.
Proof.
  intros Hv v'. pose proof (Z.pow_pos_nonneg 2 n0 ltac:(lia) ltac:(lia)) as Hp.
  pose proof (Z.pow_le_mono_r 2 n1 64 ltac:(lia) Hn1) as Hp1.
  pose proof (Z.mod_pos_bound v (2 ^ n0) Hp) as Hvm. pose proof (Z.div_mod v (2 ^ n0) ltac:(lia)) as Hdm.
  assert (2 ^ n1 = 2 ^ (n1 - n0) * 2 ^ n0)%Z as Hsplit by (rewrite <-Z.pow_add_r by lia; f_equal; lia).
  assert (v / 2 ^ n0 < 2 ^ (n1 - n0))%Z as Hq by (apply Z.div_lt_upper_bound; [done|lia]).
  assert (0 ≤ v / 2 ^ n0)%Z as Hq0 by (apply Z.div_pos; lia).
  case_bool_decide as Hlt.
  - assert (v' = v + 2 ^ n0)%Z as Ev.
    { unfold v'. rewrite wrap_small by nia. nia. }
    rewrite Ev. split; [lia|]. split; [by rewrite <-(Z.mul_1_l (2 ^ n0)) at 1; rewrite Z.mod_add by lia|]. split; [done|].
    rewrite (Z.mod_small _ (2 ^ n1)) by lia. pose proof (Z.mod_pos_bound (v + 2 ^ n0) (2 ^ n0) Hp). lia.
  - assert (2 ^ (n1 - n0) - 1 ≤ v / 2 ^ n0)%Z by (apply Z.div_le_lower_bound; lia).
    assert ((v / 2 ^ n0 + 1) * 2 ^ n0 = 2 ^ n1)%Z as E by (rewrite Hsplit; f_equal; lia).
    assert (∀ a, (2 ^ n1 * a + v mod 2 ^ n0) mod 2 ^ n0 = v mod 2 ^ n0)%Z as H0.
    { intros a. rewrite Hsplit. replace (2 ^ (n1 - n0) * 2 ^ n0 * a)%Z with (2 ^ (n1 - n0) * a * 2 ^ n0)%Z by lia.
      by rewrite Z.add_comm, Z.mod_add, Z.mod_mod by lia. }
    assert (∀ a, (2 ^ n1 * a + v mod 2 ^ n0) mod 2 ^ n1 = v mod 2 ^ n0)%Z as H1.
    { intros a. rewrite Z.add_comm, Z.mul_comm, Z.mod_add by lia. apply Z.mod_small. nia. }
    unfold v'. rewrite E. destruct (decide (n1 = 64)%Z) as [En|Hne].
    + assert (wrap (2 ^ n1) = 2 ^ n1 * 0)%Z as -> by (by rewrite En). rewrite H0, H1. split; [nia|done].
    + assert (2 ^ n1 < 2 ^ 64)%Z as Hl by (apply Z.pow_lt_mono_r; lia).
      rewrite wrap_small by lia. replace (2 ^ n1 + v mod 2 ^ n0)%Z with (2 ^ n1 * 1 + v mod 2 ^ n0)%Z by lia. rewrite H0, H1. split; [|done].
      assert (2 ^ n1 * 2 ^ 1 ≤ 2 ^ 64)%Z; [rewrite <-Z.pow_add_r by lia; apply Z.pow_le_mono_r; lia|nia].
Qed.

(** From index [v] on, the loop visits all indices with the low bits of [v]. *)
Lemma expansions_spec fuel : ∀ v,
  (0 ≤ v < 2 ^ n1)%Z → (2 ^ n1 - v ≤ Z.of_nat fuel + 1)%Z →
  ∃ v' cs, expansions fuel t1 m0 m1 v = Ret (v', cs) ∧ (0 ≤ v' < 2 ^ 64)%Z ∧ (v' mod 2 ^ n0 = v mod 2 ^ n0)%Z
    ∧ ∀ j c e, t1 !! j = Some c → e ∈ c → (v ≤ Z.of_nat j)%Z → (Z.of_nat j mod 2 ^ n0 = v mod 2 ^ n0)%Z → e ∈ cs.
Proof.
  pose proof (Z.pow_pos_nonneg 2 n0 ltac:(lia) ltac:(lia)) as Hp.
  pose proof (Z.pow_le_mono_r 2 n1 64 ltac:(lia) Hn1) as Hp1.
  assert (∀ v, (0 ≤ v < 2 ^ n1)%Z → ∃ c, bucket t1 (Z.land v m1) = Ret c ∧ t1 !! Z.to_nat v = Some c) as Hbucket.
  { intros v Hv. destruct (lookup_lt_is_Some_2 t1 (Z.to_nat v)) as [c E]; [lia|]. exists c. split; [|done].
    unfold bucket. rewrite land_mask, Z.mod_small by lia. by rewrite E. }
  induction fuel as [|fuel IH]; intros v Hv Hf; cbn [expansions]; destruct (Hbucket v Hv) as (c & -> & Ec); bind_red;
    rewrite increment by done; destruct (step_index v Hv) as (Hr & Hm & Hd).
  - rewrite bool_decide_eq_false_2 in Hd by lia.
    rewrite bool_decide_eq_false_2; [|intros H; by apply H, land_diff]. eexists _, c. split; [done|]. split_and!; [lia|lia|done|].
    intros j c' e Ej He Hj Hjm. apply lookup_lt_Some in Ej as Hlt. assert (j = Z.to_nat v) as -> by lia. by simplify_eq.
  - set (v1 := (wrap _ + _)%Z) in *. destruct (decide (v + 2 ^ n0 < 2 ^ n1)%Z) as [Hlt|Hlt];
      [rewrite bool_decide_eq_true_2 in Hd by done; destruct Hd as [Ev Hd]|rewrite bool_decide_eq_false_2 in Hd by done].
    + rewrite bool_decide_eq_true_2 by (by rewrite land_diff).
      destruct (IH v1) as (v' & cs & -> & Hr' & Hm' & Hcs); [lia|lia|]. bind_red. eexists _, _. split; [done|].
      split_and!; [lia|lia|lia|]. intros j c' e Ej He Hj Hjm. apply elem_of_app.
      destruct (decide (Z.of_nat j = v)) as [Ejv|Hne]; [left; assert (j = Z.to_nat v) as -> by lia; by simplify_eq|right].
      apply (Hcs j c' e Ej He); [|lia]. rewrite Ev. apply next_same_bits; lia.
    + rewrite bool_decide_eq_false_2 by (intros H; by apply H, land_diff). eexists _, c. split; [done|]. split_and!; [lia|lia|done|].
      intros j c' e Ej He Hj Hjm. apply lookup_lt_Some in Ej as Hl.
      destruct (decide (Z.of_nat j = v)) as [Ejv|Hne]; [assert (j = Z.to_nat v) as -> by lia; by simplify_eq|].
      pose proof (next_same_bits (2 ^ n0) v (Z.of_nat j) Hp ltac:(lia) Hjm). lia.
Qed.
End expansions.

(** ** One call *)

Section complete.
Context {K V C : Type} `{Countable C} {hashFunction : K → Z} {keyCompare : K → K → bool} {canon : K → C} {valid : K → Prop}.
Context `{!DictType hashFunction keyCompare canon valid}.
Implicit Types (d : dict K V) (h : dictht K V) (e : K * V).
Notation ht_ok := (ht_ok (hashFunction := hashFunction)).
Notation dict_ok := (dict_ok (hashFunction := hashFunction) (canon := canon) (valid := valid)).

(** Sizes are unsigned longs. *)
Definition sized d : Prop := (size (ht0 d) < 2 ^ 64 ∧ size (ht1 d) < 2 ^ 64)%Z.

(** The size of the smaller table. *)
Definition small d : Z := if dictIsRehashing d then Z.min (size (ht0 d)) (size (ht1 d)) else size (ht0 d).

(** Cursors are 0 or indices of the smaller table. *)
Definition cursor_ok d (v : Z) : Prop := (0 ≤ v < Z.max 1 (small d))%Z.

(** A table in use. *)
Lemma table_shape h :
  ht_ok h → table h ≠ [] → (size h < 2 ^ 64)%Z →
  ∃ n, (0 ≤ n ≤ 64)%Z ∧ size h = (2 ^ n)%Z ∧ sizemask h = (2 ^ n - 1)%Z ∧ Z.of_nat (length (table h)) = (2 ^ n)%Z
    ∧ (∀ v, (0 ≤ v < 2 ^ n)%Z → ∃ c, bucket (table h) (Z.land v (2 ^ n - 1)) = Ret c ∧ table h !! Z.to_nat v = Some c)
    ∧ ∀ e, e ∈ concat (table h) → ∃ c, table h !! Z.to_nat (hashFunction e.1 mod 2 ^ n) = Some c ∧ e ∈ c.
Proof.
  intros Hh Ht Hs. destruct (hk_mask h Hh Ht) as (n & Hn & E1 & E2). exists n.
  assert (n < 64)%Z as Hn64 by (apply (Z.pow_lt_mono_r_iff 2); lia).
  pose proof (hk_size h Hh) as E3. split_and!; [lia|lia|done|done|lia| |].
  - intros v Hv. destruct (lookup_lt_is_Some_2 (table h) (Z.to_nat v)) as [c E]; [lia|]. exists c. split; [|done].
    unfold bucket. rewrite land_mask, Z.mod_small by lia. by rewrite E.
  - intros e (i & c & E & He)%concat_bucket. exists c. split; [|done].
    pose proof (hk_hash h Hh i c e E He) as Hi. unfold index in Hi. rewrite E2, land_mask in Hi by done. by rewrite Hi, Nat2Z.id.
Qed.

Definition covers (v v' : Z) (es : list (K * V)) (e : K * V) : Prop :=
  (rev v ≤ rev (hashFunction e.1))%Z → e ∈ es ∨ v' ≠ 0%Z ∧ (rev v' ≤ rev (hashFunction e.1))%Z.

(** In reversed order the cursors go up by the same amount. *)
Definition advances d (v v' : Z) : Prop := v' = 0%Z ∨ ((rev v' - rev v) * small d = 2 ^ 64)%Z.

Lemma scan_one d v :
  dict_ok d → sized d → cursor_ok d v → dictIsRehashing d = false → table (ht0 d) ≠ [] →
  ∃ v' c, bucket (table (ht0 d)) (Z.land v (sizemask (ht0 d))) = Ret c ∧ next_cursor (sizemask (ht0 d)) v = v'
    ∧ cursor_ok d v' ∧ advances d v v' ∧ ∀ e, e ∈ entries d → covers v v' c e.
Proof.
  intros Hd [Hs _] Hv Hr Ht. unfold advances, cursor_ok, small in *. rewrite Hr in *.
  destruct (table_shape (ht0 d) (dk_0 d Hd) Ht Hs) as (n & Hn & E1 & E2 & E3 & Hb & He). rewrite E1 in Hv. rewrite E1, E2.
  pose proof (Z.pow_pos_nonneg 2 n ltac:(lia) ltac:(lia)). pose proof (Z.pow_le_mono_r 2 n 64 ltac:(lia) ltac:(lia)).
  destruct (Hb v ltac:(lia)) as (c & Ec & Ec'). exists (next_cursor (2 ^ n - 1) v), c. split; [done|]. split; [done|].
  destruct (next_cursor_spec n v Hn ltac:(lia)) as [_ Hv']. split; [lia|].
  split; [apply next_cursor_advance; [done|lia|lia|apply Z.mod_small; lia]|]. intros e Hin Hle. destruct (next_cursor_covers n v v (hashFunction e.1) Hn) as [Hm | Hm]; [lia|lia|apply Z.mod_small; lia|apply hash_range|done| |by right].
  left. unfold entries in Hin. destruct Hd as [_ _ _ [[_ E] | [Hr' _]]].
  - rewrite E, app_nil_r in Hin. destruct (He e Hin) as (c' & Ec'' & Hc'). rewrite Hm in Ec''. by simplify_eq.
  - unfold dictIsRehashing in Hr. apply bool_decide_eq_false_1 in Hr. lia.
Qed.

(** Two tables, the smaller one first. *)
Lemma scan_two t0 t1 v :
  ht_ok t0 → ht_ok t1 → table t0 ≠ [] → table t1 ≠ [] → (size t0 ≤ size t1 < 2 ^ 64)%Z → (0 ≤ v < size t0)%Z →
  ∃ v2 c cs, bucket (table t0) (Z.land v (sizemask t0)) = Ret c
    ∧ expansions (length (table t1)) (table t1) (sizemask t0) (sizemask t1) v = Ret (v2, cs)
    ∧ (0 ≤ next_cursor (sizemask t0) v2 < size t0)%Z
    ∧ (next_cursor (sizemask t0) v2 = 0%Z ∨ ((rev (next_cursor (sizemask t0) v2) - rev v) * size t0 = 2 ^ 64)%Z)
    ∧ ∀ e, e ∈ concat (table t0) ++ concat (table t1) → covers v (next_cursor (sizemask t0) v2) (c ++ cs) e.
Proof.
  intros H0 H1 N0 N1 Hs Hv.
  destruct (table_shape t0 H0 N0 ltac:(lia)) as (n0 & Hn0 & S0 & M0 & L0 & B0 & I0).
  destruct (table_shape t1 H1 N1 ltac:(lia)) as (n1 & Hn1 & S1 & M1 & L1 & B1 & I1).
  assert (n0 ≤ n1)%Z as Hnn by (apply (Z.pow_le_mono_r_iff 2); lia).
  rewrite S0 in Hv. rewrite M0, M1, S0. pose proof (Z.pow_pos_nonneg 2 n0 ltac:(lia) ltac:(lia)) as Hp.
  pose proof (Z.pow_le_mono_r 2 n0 n1 ltac:(lia) Hnn). pose proof (Z.pow_le_mono_r 2 n1 64 ltac:(lia) ltac:(lia)).
  destruct (B0 v Hv) as (c & Ec & Ec').
  destruct (expansions_spec (table t1) n0 n1 ltac:(lia) ltac:(lia) L1 (length (table t1)) v ltac:(lia) ltac:(lia))
    as (v2 & cs & Ex & Hv2 & Hm2 & Hcs).
  rewrite (Z.mod_small v) in Hm2, Hcs by lia.
  exists v2, c, cs. split; [done|]. split; [done|]. split; [by destruct (next_cursor_spec n0 v2 Hn0 Hv2)|].
  split; [by apply next_cursor_advance|]. intros e Hin Hle.
  destruct (next_cursor_covers n0 v v2 (hashFunction e.1) Hn0 Hv Hv2 Hm2 (hash_range e.1) Hle) as [Hm | Hm]; [left|by right].
  apply elem_of_app. apply elem_of_app in Hin as [Hin | Hin]; [left|right].
  - destruct (I0 e Hin) as (c' & Ec'' & Hc'). rewrite Hm in Ec''. by simplify_eq.
  - destruct (I1 e Hin) as (c' & Ec'' & Hc'). set (j := (hashFunction e.1 mod 2 ^ n1)%Z) in *.
    assert (0 ≤ j)%Z as Hj by (apply Z.mod_pos_bound; lia).
    assert (j mod 2 ^ n0 = v)%Z as Hjm.
    { rewrite <-Hm. unfold j. replace (2 ^ n1)%Z with (2 ^ n0 * 2 ^ (n1 - n0))%Z by (rewrite <-Z.pow_add_r by lia; f_equal; lia).
      rewrite Z.rem_mul_r by (try (apply Z.pow_pos_nonneg; lia); lia). rewrite Z.mul_comm, Z.mod_add, Z.mod_mod by lia. done. }
    apply (Hcs (Z.to_nat j) c' e Ec'' Hc'); rewrite Z2Nat.id by done; [|done]. rewrite <-Hjm. apply Z.mod_le; lia.
Qed.

Lemma dictScan_spec d v :
  dict_ok d → sized d → cursor_ok d v →
  ∃ v' es, dictScan d v = Ret (v', es) ∧ cursor_ok d v' ∧ advances d v v' ∧ ∀ e, e ∈ entries d → covers v v' es e.
Proof.
  intros Hd Hs Hv. unfold dictScan. pose proof (hk_used _ (dk_0 d Hd)) as U0. pose proof (hk_used _ (dk_1 d Hd)) as U1.
  case_bool_decide as Hz; unfold dictSize in Hz.
  { exists 0%Z, []. split; [done|]. split; [unfold cursor_ok; lia|]. split; [by left|]. intros e He. exfalso.
    assert (entries d = []) as E; [|rewrite E in He; by apply not_elem_of_nil in He].
    apply nil_length_inv. unfold entries. rewrite length_app. lia. }
  destruct (dictIsRehashing d) eqn:Hr; cbn [negb].
  - pose proof (dk_phase d Hd) as [[E _] | (_ & N0 & N1 & _)].
    { unfold dictIsRehashing in Hr. rewrite E in Hr. done. }
    destruct Hs as [Hs0 Hs1]. unfold advances, cursor_ok, small in *. rewrite Hr in *.
    pose proof (hk_size _ (dk_0 d Hd)) as L0. pose proof (hk_size _ (dk_1 d Hd)) as L1.
    assert (0 < size (ht0 d) ∧ 0 < size (ht1 d))%Z as [P0 P1].
    { rewrite L0, L1. destruct (table (ht0 d)), (table (ht1 d)); simpl; try done; lia. }
    case_bool_decide as Hc.
    + destruct (scan_two (ht1 d) (ht0 d) v (dk_1 d Hd) (dk_0 d Hd) N1 N0 ltac:(lia) ltac:(lia)) as (v2 & c & cs & -> & Ex & Hn & Ha & He).
      bind_red. rewrite Ex. bind_red. eexists _, _. split; [done|]. split; [lia|]. rewrite Z.min_r by lia. split; [done|].
      intros e Hin. apply He.
      unfold entries in Hin. set_solver.
    + destruct (scan_two (ht0 d) (ht1 d) v (dk_0 d Hd) (dk_1 d Hd) N0 N1 ltac:(lia) ltac:(lia)) as (v2 & c & cs & -> & Ex & Hn & Ha & He).
      bind_red. rewrite Ex. bind_red. eexists _, _. split; [done|]. split; [lia|]. rewrite Z.min_l by lia. split; [done|exact He].
  - assert (table (ht0 d) ≠ []) as Ht.
    { intros E. destruct (dk_phase d Hd) as [[_ E1] | [Hr' _]].
      - rewrite E1 in U1. rewrite E in U0. simpl in U0, U1. rewrite E1 in Hz. simpl in Hz. lia.
      - unfold dictIsRehashing in Hr. apply bool_decide_eq_false_1 in Hr. lia. }
    destruct (scan_one d v Hd Hs Hv Hr Ht) as (v' & c & -> & -> & Hv' & He). bind_red. by exists v', c.
Qed.

(** ** Operations between the calls *)

(** The smaller table does not become smaller. *)
Definition grows d d' : Prop := (small d ≤ small d')%Z ∧ (sized d → sized d').

Lemma grows_refl d : grows d d.
Proof. split; [lia|done]. Qed.

Lemma grows_trans d1 d2 d3 : grows d1 d2 → grows d2 d3 → grows d1 d3.
Proof. intros [H1 H2] [H3 H4]. split; [lia|auto]. Qed.

(** Entries are changed and the tables stay. *)
Lemma grows_same d d' :
  size (ht0 d') = size (ht0 d) → size (ht1 d') = size (ht1 d) → dictIsRehashing d' = dictIsRehashing d → grows d d'.
Proof. intros E0 E1 Er. unfold grows, small, sized. rewrite E0, E1, Er. split; [lia|done]. Qed.

Lemma push_size h i e h' : push h i e = Ret h' → size h' = size h.
Proof. unfold push. destruct (bucket _ _); bind_red; [|done]. by intros [= <-]. Qed.

Lemma update_chain_size h b f n h' : update_chain h b f n = Ret h' → size h' = size h.
Proof. unfold update_chain. destruct (bucket _ _); bind_red; [|done]. by intros [= <-]. Qed.

Lemma grows_set d t h : size h = size (get_ht d t) → grows d (set_ht d t h).
Proof. destruct t; intros E; by apply grows_same. Qed.

Lemma move_chain_size de : ∀ h h', move_chain hashFunction de h = Ret h' → size h' = size h.
Proof.
  induction de as [|e de IH]; intros h h'; cbn [move_chain]; [by intros [= <-]|].
  destruct (push h _ e) as [h1|] eqn:E; bind_red; [|done]. intros Em. rewrite (IH _ _ Em). by apply push_size in E.
Qed.

Lemma rehash_loop_sizes n : ∀ d ev d' b,
  rehash_loop hashFunction n d ev = Ret (d', b) → size (ht0 d') = size (ht0 d) ∧ size (ht1 d') = size (ht1 d).
Proof.
  induction n as [|n IH]; intros d ev d' b; cbn [rehash_loop]; [by intros [= <- _]|].
  case_bool_decide; [by intros [= <- _]|]. case_bool_decide; cbn [negb]; [|done].
  destruct (skip_empty _ _ _ _) as [[idx [[ev' de]|]]|]; bind_red; [|by intros [= <- _]|done].
  destruct (move_chain _ _ _) as [h1|] eqn:Em; bind_red; [|done]. intros [E1 E2]%IH. simpl in E1, E2.
  by rewrite E1, E2, (move_chain_size _ _ _ Em).
Qed.

Lemma dictRehash_grows d n d' b :
  dict_ok d → dictRehash hashFunction d n = Ret (d', b) → grows d d'.
Proof.
  intros Hd. unfold dictRehash. destruct (dictIsRehashing d) eqn:Hr; cbn [negb]; [|intros [= <- _]; apply grows_refl].
  assert (0 ≤ rehashidx d)%Z as Hi.
  { unfold dictIsRehashing in Hr. apply bool_decide_eq_true in Hr. destruct (dk_phase d Hd) as [[? _] | [? _]]; lia. }
  destruct n as [|n]; [cbn [rehash_loop]; bind_red; cbn [negb]|].
  { case_bool_decide; intros [= <- _]; [|apply grows_refl]. unfold grows, small, sized. rewrite Hr. simpl.
    change (dictIsRehashing (mk_dict (ht1 d) dictReset (-1) (iterators d))) with false. split; lia. }
  destruct (rehash_loop_spec (S n) d (Z.of_nat (S n) * 10) Hd Hi ltac:(lia)) as (d1 & b1 & E & Hd1 & Hle & _).
  rewrite E. bind_red. destruct (rehash_loop_sizes _ _ _ _ _ E) as [E0 E1].
  assert (dictIsRehashing d1 = true) as Hr1 by (unfold dictIsRehashing; apply bool_decide_eq_true_2; lia).
  assert (grows d d1) as Hg by (apply grows_same; [done|done|by rewrite Hr1, Hr]).
  destruct b1; cbn [negb]; [|by intros [= <- _]]. case_bool_decide; [|by intros [= <- _]]. intros [= <- _].
  apply (grows_trans _ d1); [done|]. unfold grows, small, sized. rewrite Hr1.
  change (dictIsRehashing (mk_dict (ht1 d1) dictReset (-1) (iterators d1))) with false. simpl. split; lia.
Qed.

Lemma rehash_if_needed_grows d d' : dict_ok d → rehash_if_needed hashFunction d = Ret d' → grows d d'.
Proof.
  intros Hd. unfold rehash_if_needed, dictRehashStep. destruct (dictIsRehashing d); [|intros [= <-]; apply grows_refl].
  case_bool_decide; [|intros [= <-]; apply grows_refl]. destruct (dictRehash _ _ _) as [[d1 b]|] eqn:E; bind_red; [|done].
  intros [= <-]. by apply (dictRehash_grows _ _ _ _ Hd E).
Qed.

Lemma next_power_range fuel : ∀ i sz r, (0 ≤ i < 2 ^ 64)%Z → next_power fuel i sz = Ret r → (0 ≤ r < 2 ^ 64)%Z.
Proof.
  induction fuel as [|fuel IH]; intros i sz r Hi; cbn [next_power]; (case_bool_decide; [intros [= <-]; lia|]); [done|].
  apply IH. apply Z.mod_pos_bound. done.
Qed.

Lemma dictExpand_grows d sz d' b :
  dictIsRehashing d = false → (size (ht0 d) ≤ sz ≤ 2 ^ 62)%Z → dictExpand d sz = Ret (d', b) → grows d d'.
Proof.
  intros Hr Hs. unfold dictExpand. destruct (dictNextPower_spec sz) as (k & _ & E & Hk); [lia|]. rewrite E. bind_red.
  assert (2 ^ k < 2 ^ 64)%Z as Hb.
  { revert E. unfold dictNextPower. case_bool_decide; [unfold LONG_MAX in *; lia|]. intros E. apply next_power_range in E; [lia|done]. }
  destruct (_ || _); [intros [= <- _]; apply grows_refl|]. case_bool_decide; [intros [= <- _]; apply grows_refl|].
  case_bool_decide; intros [= <- _]; unfold grows, small, sized; rewrite Hr; simpl.
  - unfold dictIsRehashing in *. simpl. rewrite Hr. split; lia.
  - change (dictIsRehashing (mk_dict (ht0 d) _ 0 (iterators d))) with true. split; lia.
Qed.

Lemma dictExpandIfNeeded_grows can d d' b :
  dict_ok d → (dictSize d ≤ 2 ^ 61)%Z → dictExpandIfNeeded can d = Ret (d', b) → grows d d'.
Proof.
  intros Hd Hs. pose proof (hk_used _ (dk_0 d Hd)). pose proof (hk_used _ (dk_1 d Hd)). unfold dictSize in Hs.
  unfold dictExpandIfNeeded. destruct (dictIsRehashing d) eqn:Hr; [intros [= <- _]; apply grows_refl|].
  case_bool_decide as Hz; [apply dictExpand_grows; [done|unfold DICT_HT_INITIAL_SIZE; lia]|].
  destruct (bool_decide (used (ht0 d) >= size (ht0 d))%Z) eqn:Hu; cbn [andb]; [|intros [= <- _]; apply grows_refl].
  apply bool_decide_eq_true in Hu. destruct (_ || _); [|intros [= <- _]; apply grows_refl]. apply dictExpand_grows; [done|lia].
Qed.

Lemma dictAddRaw_grows can d k v d' r :
  dict_ok d → (dictSize d ≤ 2 ^ 61)%Z → dictAddRaw hashFunction keyCompare can d k v = Ret (d', r) → grows d d'.
Proof.
  intros Hd Hs. unfold dictAddRaw.
  destruct (rehash_if_needed_spec d Hd) as (d1 & E1 & Hd1 & HE & _). rewrite E1. bind_red.
  apply rehash_if_needed_grows in E1; [|done].
  assert (dictSize d1 = dictSize d) as Hs1 by (by rewrite (dictSize_map d Hd), (dictSize_map d1 Hd1), (to_map_perm d d1 Hd HE)).
  unfold dictKeyIndex. destruct (dictExpandIfNeeded can d1) as [[d2 ok]|] eqn:E2; bind_red; [|done].
  apply dictExpandIfNeeded_grows in E2; [|done|lia]. pose proof (grows_trans _ _ _ E1 E2) as Hg.
  destruct ok; cbn [negb]; bind_red; [|by intros [= <- _]].
  destruct (find_both _ _ _ _) as [[[[[t b] i] e]|]|]; bind_red; [by intros [= <- _]| |done].
  destruct (push _ _ _) as [h|] eqn:Ep; bind_red; [|done]. intros [= <- _]. apply (grows_trans _ d2); [done|].
  apply grows_set. by apply push_size in Ep.
Qed.

Lemma dictGenericDelete_grows d k d' r :
  dict_ok d → dictGenericDelete hashFunction keyCompare d k = Ret (d', r) → grows d d'.
Proof.
  intros Hd. unfold dictGenericDelete. destruct (_ && _); [intros [= <- _]; apply grows_refl|].
  destruct (rehash_if_needed hashFunction d) as [d1|] eqn:E1; bind_red; [|done]. apply rehash_if_needed_grows in E1; [|done].
  destruct (find_both _ _ _ _) as [[[[[t b] i] e]|]|]; bind_red; [|by intros [= <- _]|done].
  destruct (update_chain _ _ _ _) as [h|] eqn:Ep; bind_red; [|done]. intros [= <- _]. apply (grows_trans _ d1); [done|].
  apply grows_set. by apply update_chain_size in Ep.
Qed.

(** Not [dictResize], the only operation that can make a table smaller. *)
Definition not_resize (o : dop (K := K) (V := V)) : Prop := match o with Resize _ => False | _ => True end.

Lemma dict_step_grows d o d' r :
  dict_ok d → (dictSize d ≤ 2 ^ 61)%Z → not_resize o → dict_step hashFunction keyCompare d o = Ret (d', r) → grows d d'.
Proof.
  intros Hd Hs Ho. destruct o; cbn [dict_step]; try done.
  - unfold dictFind. case_bool_decide; [bind_red; intros [= <- _]; apply grows_refl|].
    destruct (rehash_if_needed hashFunction d) as [d1|] eqn:E1; bind_red; [|done]. destruct (find_both _ _ _ _); bind_red; [|done].
    intros [= <- _]. by apply rehash_if_needed_grows in E1.
  - unfold dictAdd. destruct (dictAddRaw _ _ _ _ _ _) as [[d1 s]|] eqn:E; bind_red; [|done]. intros [= <- _].
    by apply dictAddRaw_grows in E.
  - unfold dictReplace. destruct (dictAddRaw _ _ _ _ _ _) as [[d1 s]|] eqn:E; bind_red; [|done].
    apply dictAddRaw_grows in E; [|done|done]. destruct s as [i|t b i e|]; bind_red; [by intros [= <- _]| |done].
    destruct (update_chain _ _ _ _) as [h|] eqn:Ep; bind_red; [|done]. intros [= <- _]. apply (grows_trans _ d1); [done|].
    apply grows_set. by apply update_chain_size in Ep.
  - unfold dictUnlink. destruct (dictGenericDelete _ _ _ _) as [[d1 e]|] eqn:E; bind_red; [|done]. intros [= <- _].
    by apply dictGenericDelete_grows in E.
  - destruct (dictRehash _ _ _) as [[d1 b]|] eqn:E; bind_red; [|done]. intros [= <- _]. by apply dictRehash_grows in E.
  - intros [= <- _]. by apply grows_same.
  - intros [= <- _]. by apply grows_same.
Qed.

(** ** Whole scans *)

(** Before every call other operations are done; the scan ends when the cursor is 0
    again.  The result: the entries returned, and whether the scan ended. *)
Fixpoint scan d (v : Z) (oss : list (list (dop (K := K) (V := V)))) : out (list (K * V) * bool) :=
  match oss with
  | [] => Ret ([], false)
  | os :: oss =>
    '(d, _) ← dict_run hashFunction keyCompare d os;
    '(v, es) ← dictScan d v;
    if bool_decide (v = 0)%Z then Ret (es, true)
    else '(es', b) ← scan d v oss; Ret (es ++ es', b)
  end.

(** What the clients may do while the entry of [c] is to be found: anything but
    shrinking the table and deleting that entry. *)
Definition leaves (c : C) (o : dop (K := K) (V := V)) : Prop :=
  dop_valid (valid := valid) o ∧ not_resize o ∧ match o with Delete k => canon k ≠ c | _ => True end.

Lemma leaves_map c o m :
  leaves c o → is_Some ((m : gmap C (K * V)) !! c) → is_Some ((map_step (canon := canon) m o).1 !! c).
Proof.
  intros (_ & _ & Ho) Hm. destruct o; simpl; try done.
  - case_match; simpl; [done|]. rewrite lookup_insert_is_Some'. by right.
  - case_match; simpl; rewrite lookup_insert_is_Some'; by right.
  - by rewrite lookup_delete_ne.
Qed.

Lemma run_leaves c os : ∀ d,
  dict_ok d → (dictSize d + Z.of_nat (length os) ≤ 2 ^ 61)%Z → Forall (leaves c) os → is_Some (to_map (canon := canon) d !! c) →
  ∃ d' rs, dict_run hashFunction keyCompare d os = Ret (d', rs) ∧ dict_ok d' ∧ grows d d'
    ∧ (dictSize d' ≤ dictSize d + Z.of_nat (length os))%Z ∧ is_Some (to_map (canon := canon) d' !! c).
Proof.
  induction os as [|o os IH]; intros d Hd Hs Ho Hc; cbn [dict_run].
  { exists d, []. split_and!; [done|done|apply grows_refl|lia|done]. }
  apply Forall_cons in Ho as [Ho Hos]. simpl in Hs.
  destruct (dict_step_spec d o Hd ltac:(lia) ltac:(apply Ho)) as (d1 & r & E & Hd1 & Hs1 & Em). rewrite E. bind_red.
  apply dict_step_grows in E as Hg; [|done|lia|apply Ho].
  pose proof (leaves_map c o _ Ho Hc) as Hc1. rewrite Em in Hc1. simpl in Hc1.
  destruct (IH d1 Hd1 ltac:(lia) Hos Hc1) as (d' & rs & -> & Hd' & Hg' & Hs' & Hc'). bind_red.
  exists d', (r :: rs). split_and!; [done|done|by apply (grows_trans _ d1)|simpl; lia|done].
Qed.

Definition scan_ops (oss : list (list (dop (K := K) (V := V)))) : Z := Z.of_nat (length (concat oss)).

Lemma cursor_grows d d' v : grows d d' → cursor_ok d v → cursor_ok d' v.
Proof. intros [Hg _]. unfold cursor_ok. lia. Qed.

Lemma scan_spec k oss : ∀ d v,
  dict_ok d → sized d → cursor_ok d v → (dictSize d + scan_ops oss ≤ 2 ^ 61)%Z → Forall (Forall (leaves (canon k))) oss →
  valid k → is_Some (to_map (canon := canon) d !! canon k) →
  ∃ es b, scan d v oss = Ret (es, b) ∧ (b = true → (rev v ≤ rev (hashFunction k))%Z → ∃ e, e ∈ es ∧ canon e.1 = canon k).
Proof.
  unfold scan_ops. induction oss as [|os oss IH]; intros d v Hd Hsz Hv Hs Ho Hk Hc; cbn [scan].
  { by exists [], false. }
  apply Forall_cons in Ho as [Ho Hos]. cbn [concat] in Hs. rewrite length_app in Hs.
  destruct (run_leaves (canon k) os d Hd ltac:(lia) Ho Hc) as (d1 & rs & -> & Hd1 & Hg & Hs1 & Hc1). bind_red.
  destruct (dictScan_spec d1 v Hd1 (proj2 Hg Hsz) (cursor_grows _ _ _ Hg Hv)) as (v' & es & -> & Hv' & _ & Hcov). bind_red.
  assert ((rev v ≤ rev (hashFunction k))%Z →
    (∃ e, e ∈ es ∧ canon e.1 = canon k) ∨ v' ≠ 0%Z ∧ (rev v' ≤ rev (hashFunction k))%Z) as Hone.
  { intros Hle. destruct Hc1 as [e He]. apply (to_map_lookup d1 k e Hd1) in He as [Hin Ek].
    assert (hashFunction e.1 = hashFunction k) as Eh by (apply hash_canon; [exact (dk_valid d1 e Hd1 Hin)|done|done]).
    unfold covers in Hcov. specialize (Hcov e Hin). rewrite Eh in Hcov. destruct (Hcov Hle) as [?|?]; [left; by exists e|by right]. }
  case_bool_decide as Hz.
  - exists es, true. split; [done|]. intros _ Hle. destruct (Hone Hle) as [?|[? _]]; done.
  - destruct (IH d1 v' Hd1 (proj2 Hg Hsz) Hv' ltac:(lia) Hos Hk Hc1) as (es' & b & -> & Hb). bind_red.
    exists (es ++ es'), b. split; [done|]. intros Hbt Hle.
    destruct (Hone Hle) as [(e & He & Ek) | [_ Hle']]; [exists e|destruct (Hb Hbt Hle') as (e & He & Ek); exists e];
      (split; [apply elem_of_app; tauto|done]).
Qed.

(** Without other operations a scan ends after as many calls as the smaller table has
    buckets, or earlier. *)
Lemma scan_ends_from n : ∀ d v,
  dict_ok d → sized d → cursor_ok d v → (small d * 2 ^ 64 ≤ rev v * small d + Z.of_nat n * 2 ^ 64)%Z → 0 < n →
  ∃ es, scan d v (replicate n []) = Ret (es, true).
Proof.
  induction n as [|n IH]; intros d v Hd Hsz Hv Hn Hp; [lia|]. cbn [replicate scan dict_run]. bind_red.
  destruct (dictScan_spec d v Hd Hsz Hv) as (v' & es & -> & Hv' & Ha & _). bind_red.
  case_bool_decide as Hz; [by exists es|]. destruct Ha as [Ha | Ha]; [done|].
  unfold cursor_ok in Hv'. destruct Hsz as [Hs0 Hs1].
  assert (small d < 2 ^ 64)%Z as Hs by (unfold small; destruct (dictIsRehashing d); lia).
  destruct (rev_spec v' ltac:(lia)) as [Hr _].
  destruct (IH d v' Hd (conj Hs0 Hs1) Hv') as (es' & E); [nia| |].
  - destruct n; [|lia]. exfalso. assert (0 < small d)%Z by lia. nia.
  - rewrite E. bind_red. by exists (es ++ es').
Qed.

Lemma scan_ends d :
  dict_ok d → sized d → ∃ es, scan d 0 (replicate (Z.to_nat (Z.max 1 (small d))) []) = Ret (es, true).
Proof.
  intros Hd Hs. apply scan_ends_from; [done|done|unfold cursor_ok; lia|rewrite rev_0; nia|lia].
Qed.

(** C31: a scan that starts with cursor 0 and ends when the cursor is 0 again returns
    every key that is in the dictionary at the start and not deleted, while entries
    are found, added, replaced and deleted, iterators come and go and the table grows
    and is rehashed between the calls.  Without such operations it ends after at most
    as many calls as the smaller table has buckets. *)
Theorem scan_complete k oss d :
  dict_ok d → sized d → (dictSize d + scan_ops oss ≤ 2 ^ 61)%Z → Forall (Forall (leaves (canon k))) oss →
  valid k → is_Some (to_map (canon := canon) d !! canon k) →
  (∃ es b, scan d 0 oss = Ret (es, b) ∧ (b = true → ∃ e, e ∈ es ∧ canon e.1 = canon k))
  ∧ ∃ es, scan d 0 (replicate (Z.to_nat (Z.max 1 (small d))) []) = Ret (es, true).
Proof.
  intros Hd Hsz Hs Ho Hk Hc. split; [|by apply scan_ends].
  destruct (scan_spec k oss d 0 Hd Hsz) as (es & b & E & Hb); [|done|done|done|done|].
  { unfold cursor_ok. lia. }
  exists es, b. split; [done|]. intros Hbt. apply Hb; [done|]. rewrite rev_0. apply rev_spec, hash_range.
Qed.
End complete.

(** ** Shrinking

    A table of 16 buckets with the keys 0, 1, 2 and 4; after the first call it is made
    smaller, to 4 buckets.  The cursor 8 that the first call returned is continued
    with 8 and 12 in the old table: bucket 4 is never visited. *)
Definition shrink_ops : list (list (dop (K := Z) (V := unit))) :=
  [(λ n, Add true (Z.of_nat n) ()) <$> seq 0 9; [Rehash 20]; (λ n, Delete (Z.of_nat n)) <$> [3; 5; 6; 7; 8]].

Definition id_hash (k : Z) : Z := wrap k.

Lemma scan_misses_when_shrinking :
  ∃ d rs es, dict_run id_hash Z.eqb dictCreate (concat shrink_ops) = Ret (d, rs)
    ∧ entries d = [(0, ()); (1, ()); (2, ()); (4, ())]%Z
    ∧ scan (hashFunction := id_hash) (keyCompare := Z.eqb) d 0 ([] :: [Resize true] :: replicate 16 []) = Ret (es, true)
    ∧ (4, ())%Z ∉ es.
Proof. do 3 eexists. split; [vm_compute; reflexivity|]. split; [vm_compute; reflexivity|]. split; [vm_compute; reflexivity|]. apply (bool_decide_unpack _). vm_compute. exact I. Qed.

(** A scan that starts in the middle of a rehashing, with operations in between. *)
Definition scan_sample : list (list (dop (K := nat) (V := bool))) :=
  [[]; [Add true 3 true; Delete 5]; [Rehash 10]; [Find 9]; []; []; []; []; []].

Lemma scan_complete_witness :
  ∃ es, scan (hashFunction := λ k : nat, Z.of_nat k mod 2 ^ 64)%Z (keyCompare := λ a b, bool_decide (a = b))
      rehashing_sample 0 scan_sample = Ret (es, true)
    ∧ ∃ e, e ∈ es ∧ e.1 = 14.
Proof.
  destruct (scan_complete (hashFunction := λ k : nat, Z.of_nat k mod 2 ^ 64)%Z (keyCompare := λ a b, bool_decide (a = b))
    (canon := λ k : nat, k) (valid := λ _, True) 14 scan_sample rehashing_sample) as [(es & b & E & Hb) _].
  - exact rehashing_sample_ok.
  - vm_compute. split; reflexivity.
  - vm_compute. discriminate.
  - repeat constructor; discriminate.
  - exact I.
  - vm_compute. eexists. reflexivity.
  - exists es. assert (b = true) as Ebt by (vm_compute in E; injection E as _ E; symmetry; exact E).
    rewrite Ebt in E, Hb. split; [exact E|]. exact (Hb eq_refl).
Defined.
