(* ===== verification/Iter.v ===== *)
(** * Iterators over hash tables

    src/src/dict.c: an iterator walks over the buckets of the first table and, during
    a rehashing, of the second.  A safe one stops rehashing as long as it is open, and
    saves the entry after the one it returns, which the caller may delete; an unsafe
    one is only for walks without other operations, which a fingerprint of the
    dictionary checks at the end.

    An entry is known by its key: its address is the address of the entry of that key
    as long as it is not deleted. *)
From stdpp Require Import gmap.
From S2P Require Import Prelude Dict DictMap.

(** ** Fingerprints *)

(** Signed 64 bit integers. *)
Definition s64 (x : Z) : Z := ((x + 2 ^ 63) mod 2 ^ 64 - 2 ^ 63)%Z.

(** The hashing step. *)
Definition mix (hash : Z) : Z :=
  let hash := s64 (Z.lnot hash + Z.shiftl hash 21) in
  let hash := Z.lxor hash (Z.shiftr hash 24) in
  let hash := s64 ((hash + Z.shiftl hash 3) + Z.shiftl hash 8) in
  let hash := Z.lxor hash (Z.shiftr hash 14) in
  let hash := s64 ((hash + Z.shiftl hash 2) + Z.shiftl hash 4) in
  let hash := Z.lxor hash (Z.shiftr hash 28) in
  s64 (hash + Z.shiftl hash 31).

(** Shifting a negative number to the right copies its sign, so that a number and its
    complement are mixed to the same value: the step loses information. *)
Lemma mix_collides : mix 0 = mix 9223367638806167551.
Proof. vm_compute. reflexivity. Qed.

(** [addr] are the addresses of the two tables. *)
Definition dictFingerprint {K V} (addr : Z * Z) (d : dict K V) : Z :=
  foldl (λ hash i, mix (s64 (hash + i)))%Z 0%Z
    [addr.1; size (ht0 d); used (ht0 d); addr.2; size (ht1 d); used (ht1 d)].

(** ** Iterators *)

(** [it_entry]: the entry is not NULL; [it_next]: the key of the saved entry. *)
Record dictIterator (K : Type) := mk_iter {
  it_table : bool; it_index : Z; it_safe : bool; it_entry : bool; it_next : option K; it_fingerprint : Z }.
Arguments mk_iter {K}.
Arguments it_table {K}.
Arguments it_index {K}.
Arguments it_safe {K}.
Arguments it_entry {K}.
Arguments it_next {K}.
Arguments it_fingerprint {K}.

Definition dictGetIterator {K} : dictIterator K := mk_iter false (-1) false false None 0.
Definition dictGetSafeIterator {K} : dictIterator K :=
  let i := dictGetIterator in
  mk_iter (it_table i) (it_index i) true (it_entry i) (it_next i) (it_fingerprint i).

Section iterators.
Context {K V : Type} (hashFunction : K → Z) (keyCompare : K → K → bool) (addr : Z * Z).
Implicit Types (d : dict K V) (it : dictIterator K).

(** The loop of [dictNext]. *)
Fixpoint next_loop (fuel : nat) d it : out (dict K V * dictIterator K * option (K * V)) :=
  match fuel with
  | 0 => Fail OutOfFuel
  | S fuel =>
    if it_entry it then
      match it_next it with
      | None => next_loop fuel d (mk_iter (it_table it) (it_index it) (it_safe it) false None (it_fingerprint it))
      | Some k =>
        c ← bucket (table (get_ht d (it_table it))) (it_index it);
        match find_in keyCompare c k with
        | None => Fail Dangling
        | Some (i, e) =>
          Ret (d, mk_iter (it_table it) (it_index it) (it_safe it) true (fst <$> c !! S i) (it_fingerprint it), Some e)
        end
      end
    else
      let first := bool_decide (it_index it = -1)%Z && negb (it_table it) in
      let fp := if first && negb (it_safe it) then dictFingerprint addr d else it_fingerprint it in
      let d := if first && it_safe it then hold d 1 else d in
      let index := (it_index it + 1)%Z in
      let visit t index :=
        c ← bucket (table (get_ht d t)) index;
        match c with
        | [] => next_loop fuel d (mk_iter t index (it_safe it) false (it_next it) fp)
        | e :: c => Ret (d, mk_iter t index (it_safe it) true (fst <$> head c) fp, Some e)
        end in
      if bool_decide (index >= size (get_ht d (it_table it)))%Z then
        if dictIsRehashing d && negb (it_table it) then visit true 0%Z
        else Ret (d, mk_iter (it_table it) index (it_safe it) false (it_next it) fp, None)
      else visit (it_table it) index
  end.

(** Every round but the first moves to another bucket. *)
Definition dictNext d it : out (dict K V * dictIterator K * option (K * V)) :=
  next_loop (length (table (ht0 d)) + length (table (ht1 d)) + 3) d it.

Definition dictReleaseIterator d it : out (dict K V) :=
  if bool_decide (it_index it = -1)%Z && negb (it_table it) then Ret d
  else if it_safe it then Ret (hold d (-1))
  else if bool_decide (it_fingerprint it = dictFingerprint addr d) then Ret d
  else Fail AssertFail.

(** ** A walk

    After every entry the caller may delete it, and do other operations.  The result:
    the entries returned, and whether the end was reached. *)
Fixpoint iterate d it (oss : list (bool * list (dop (K := K) (V := V))))
    : out (dict K V * dictIterator K * list (K * V) * bool) :=
  '(d, it, r) ← dictNext d it;
  match r with
  | None => Ret (d, it, [], true)
  | Some e =>
    match oss with
    | [] => Ret (d, it, [e], false)
    | (del, os) :: oss =>
      d ← (if (del : bool) then '(d, _) ← dictDelete hashFunction keyCompare d e.1; Ret d else Ret d);
      '(d, _) ← dict_run hashFunction keyCompare d os;
      '(d, it, es, b) ← iterate d it oss;
      Ret (d, it, e :: es, b)
    end
  end.

End iterators.

(** ** What is left to return *)

Lemma concat_imap_change {A} (f g : nat → list A → list A) (T : list (list A)) j c e :
  T !! j = Some c → (∀ i c', i ≠ j → T !! i = Some c' → f i c' = g i c') → f j c = e :: g j c →
  concat (imap f T) ≡ₚ e :: concat (imap g T).
Proof.
  intros Ej Hne Hj. assert (imap f T = <[j := e :: g j c]> (imap g T)) as ->.
  { apply list_eq. intros i. rewrite list_lookup_imap. destruct (decide (i = j)) as [->|Hij].
    - rewrite Ej, list_lookup_insert_eq; [simpl; by rewrite Hj|]. rewrite length_imap. by apply lookup_lt_Some in Ej.
    - rewrite list_lookup_insert_ne, list_lookup_imap by done. destruct (T !! i) as [c'|] eqn:Ei; simpl; [|done]. by rewrite (Hne i). }
  assert (imap g T !! j = Some (g j c)) as Eg by (by rewrite list_lookup_imap, Ej).
  rewrite (concat_put _ _ _ _ Eg), (concat_take_out _ _ _ Eg). done.
Qed.

Lemma imap_insert {A B} (f : nat → A → B) (T : list A) j c : imap f (<[j := c]> T) = <[j := f j c]> (imap f T).
Proof.
  apply list_eq. intros i. rewrite list_lookup_imap. destruct (decide (i = j)) as [->|Hij].
  - destruct (decide (j < length T)) as [Hl|Hl].
    + by rewrite !list_lookup_insert_eq by (rewrite ?length_imap; done).
    + rewrite !list_insert_ge by (rewrite ?length_imap; lia). by rewrite list_lookup_imap.
  - by rewrite !list_lookup_insert_ne, list_lookup_imap by done.
Qed.

(** A bucket is replaced: what the view shows of it, too. *)
Lemma concat_imap_put {A} (f : nat → list A → list A) (T : list (list A)) j c c' :
  T !! j = Some c → concat (imap f (<[j := c']> T)) ++ f j c ≡ₚ concat (imap f T) ++ f j c'.
Proof.
  intros Ej. rewrite imap_insert. assert (imap f T !! j = Some (f j c)) as Ef by (by rewrite list_lookup_imap, Ej).
  rewrite (concat_put _ _ _ _ Ef), (concat_take_out _ _ _ Ef). rewrite <-!(assoc_L (++)).
  rewrite (comm (++) (concat _) (f j c)), !(assoc_L (++)). by rewrite (comm (++) (f j c') (f j c)), <-(assoc_L (++)), (comm (++) (f j c')), (assoc_L (++)).
Qed.

Section walk.
Context {K V C : Type} `{Countable C} {hashFunction : K → Z} {keyCompare : K → K → bool} {canon : K → C} {valid : K → Prop}.
Context `{!DictType hashFunction keyCompare canon valid} {addr : Z * Z}.
Implicit Types (d : dict K V) (e : K * V) (it : dictIterator K) (c : list (K * V)).

Notation key := (λ e : K * V, canon e.1).
Notation dict_ok := (dict_ok (K := K) (V := V) (hashFunction := hashFunction) (canon := canon) (valid := valid)).

(** The part of the current chain from the saved entry on. *)
Definition suffix it c : list (K * V) :=
  match it_entry it, it_next it with
  | true, Some k => match find_in keyCompare c k with Some (i, _) => drop i c | None => [] end
  | _, _ => []
  end.

(** What is left of bucket [j] of table [t]. *)
Definition left it (t : bool) (j : nat) c : list (K * V) :=
  if bool_decide (it_table it = t) then
    if bool_decide (Z.of_nat j < it_index it)%Z then []
    else if bool_decide (Z.of_nat j = it_index it) then suffix it c else c
  else if t then c else [].

Definition remaining d it : list (K * V) :=
  concat (imap (left it false) (table (ht0 d))) ++ concat (imap (left it true) (table (ht1 d))).

(** The state of an iterator: the saved entry is in the current bucket. *)
Record it_ok d it : Prop := {
  io_index : (-1 ≤ it_index it < size (get_ht d (it_table it)))%Z;
  io_start : it_index it = (-1)%Z → it_table it = false ∧ it_entry it = false;
  io_rehash : it_table it = true → dictIsRehashing d = true;
  io_entry : it_entry it = true →
    ∃ c, table (get_ht d (it_table it)) !! Z.to_nat (it_index it) = Some c
      ∧ ∀ k, it_next it = Some k → valid k ∧ ∃ i e, find_in keyCompare c k = Some (i, e);
}.

(** *** Chains *)

Lemma chain_keys d t j c :
  dict_ok d → table (get_ht d t) !! j = Some c → NoDup (key <$> c) ∧ Forall (λ e, valid e.1) c.
Proof.
  intros Hd E. destruct (dk_all d Hd) as [HN HF].
  assert (c ⊆+ entries d) as Hc.
  { unfold entries. apply concat_take_out in E. destruct t; simpl in E; rewrite E.
    - apply submseteq_inserts_l. by apply submseteq_inserts_r.
    - apply submseteq_inserts_r. by apply submseteq_inserts_r. }
  split.
  - apply submseteq_Permutation in Hc as [l HP]. rewrite HP, fmap_app in HN. by apply NoDup_app in HN as [? _].
  - rewrite Forall_forall in HF |- *. intros e He. apply HF. by eapply elem_of_submseteq.
Qed.

Lemma chain_find c i e :
  NoDup (key <$> c) → Forall (λ e, valid e.1) c → c !! i = Some e → find_in keyCompare c e.1 = Some (i, e).
Proof.
  intros HN HV Ei. apply list_find_Some. rewrite Forall_forall in HV.
  assert (valid e.1) as Hv by (apply HV; by apply list_elem_of_lookup_2 in Ei).
  split_and!; [done|by apply Is_true_true, compare_canon|].
  intros j y Ej Hj Hc. assert (valid y.1) as Hvy by (apply HV; by apply list_elem_of_lookup_2 in Ej).
  apply Is_true_true, compare_canon in Hc; [|done|done].
  assert (i = j); [|lia]. eapply NoDup_lookup; [exact HN| |]; rewrite list_lookup_fmap; [by rewrite Ei|by rewrite Ej, Hc].
Qed.

Lemma suffix_next t j s fp c i :
  NoDup (key <$> c) → Forall (λ e, valid e.1) c → suffix (mk_iter t j s true (fst <$> c !! i) fp) c = drop i c.
Proof.
  intros HN HV. unfold suffix. simpl. destruct (c !! i) as [e|] eqn:Ei; simpl.
  - by rewrite (chain_find c i e).
  - symmetry. apply drop_ge. by apply lookup_ge_None.
Qed.

Lemma next_found t j s fp c i k :
  NoDup (key <$> c) → Forall (λ e, valid e.1) c → it_next (mk_iter t j s true (fst <$> c !! i) fp) = Some k →
  valid k ∧ ∃ i e, find_in keyCompare c k = Some (i, e).
Proof.
  intros HN HV. simpl. destruct (c !! i) as [e|] eqn:Ei; simpl; [|done]. intros [= <-]. split.
  - rewrite Forall_forall in HV. apply HV. by apply list_elem_of_lookup_2 in Ei.
  - exists i, e. by apply chain_find.
Qed.

(** *** [dictNext] *)

(** The first call counts a safe iterator, and takes the fingerprint for an unsafe one. *)
Definition fresh it : bool := negb (it_entry it) && bool_decide (it_index it = -1)%Z && negb (it_table it).
Definition begin d it : dict K V := if fresh it && it_safe it then hold d 1 else d.
Definition taken d it : Z := if fresh it && negb (it_safe it) then dictFingerprint addr d else it_fingerprint it.

(** Buckets in front of the iterator, and rounds. *)
Definition ahead d it : Z :=
  ((if it_table it then size (ht1 d) - it_index it else size (ht0 d) - it_index it + size (ht1 d)) + Z.b2z (it_entry it))%Z.

(** What a call of [dictNext] does. *)
Definition stepped d it d' it' (r : option (K * V)) : Prop :=
  d' = begin d it ∧ it_safe it' = it_safe it ∧ (0 ≤ it_index it')%Z ∧ it_fingerprint it' = taken d it ∧
  match r with
  | None => remaining d it = []
  | Some e => it_ok d' it' ∧ it_entry it' = true ∧ remaining d it ≡ₚ e :: remaining d' it'
  end.

Lemma left_in t (T : list (list (K * V))) f g j c e :
  T !! j = Some c → (∀ i c', i ≠ j → left f t i c' = left g t i c') → left f t j c = e :: left g t j c →
  concat (imap (left f t) T) ≡ₚ e :: concat (imap (left g t) T).
Proof. intros Ej Hne Hj. by apply (concat_imap_change _ _ T j c e Ej); [intros i c' Hi _; apply Hne|]. Qed.

Lemma left_same d f g :
  (∀ t i c, left f t i c = left g t i c) → remaining d f = remaining d g.
Proof. intros Hs. unfold remaining. f_equal; f_equal; apply imap_ext; intros; apply Hs. Qed.

Lemma left_cur it c : (0 ≤ it_index it)%Z → left it (it_table it) (Z.to_nat (it_index it)) c = suffix it c.
Proof.
  intros Hi. unfold left. rewrite bool_decide_eq_true_2 by done. rewrite bool_decide_eq_false_2 by lia.
  by rewrite bool_decide_eq_true_2 by lia.
Qed.

(** The iterator moves on inside a chain. *)
Lemma taken_in_chain d it k c i e :
  dict_ok d → it_ok d it → it_entry it = true → it_next it = Some k →
  table (get_ht d (it_table it)) !! Z.to_nat (it_index it) = Some c → find_in keyCompare c k = Some (i, e) →
  let it' := mk_iter (it_table it) (it_index it) (it_safe it) true (fst <$> c !! S i) (it_fingerprint it) in
  stepped d it d it' (Some e).
Proof.
  intros Hd [I1 I2 I3 I4] He Hn Ec Ef it'. destruct (chain_keys d _ _ c Hd Ec) as [HN HV].
  assert (it_index it ≠ -1)%Z as Hi by (intros Hi; apply I2 in Hi; destruct Hi; congruence).
  split_and!; [unfold begin, fresh; by rewrite He|done|simpl; lia|unfold taken, fresh; by rewrite He| |done|].
  - split; [done|done|done|]. intros _. exists c. split; [done|]. intros k'. unfold it'. by apply next_found.
  - pose proof Ef as (Ei & _ & _)%list_find_Some.
    assert (left it (it_table it) (Z.to_nat (it_index it)) c = e :: left it' (it_table it) (Z.to_nat (it_index it)) c) as Hl.
    { rewrite (left_cur it c) by lia. change (left it' (it_table it) (Z.to_nat (it_index it)) c)
        with (left it' (it_table it') (Z.to_nat (it_index it')) c). rewrite (left_cur it' c) by (simpl; lia). unfold it'.
      rewrite suffix_next by done. unfold suffix. rewrite He, Hn, Ef. by apply drop_S. }
    assert (∀ t' i' c', i' ≠ Z.to_nat (it_index it) → left it t' i' c' = left it' t' i' c') as Hne.
    { intros t' i' c' Hi'. unfold left. simpl. case_bool_decide; [|done]. case_bool_decide; [done|].
      by rewrite !bool_decide_eq_false_2 by lia. }
    unfold remaining. destruct (it_table it) eqn:Et; simpl in Ec.
    + rewrite (left_in true _ it it' _ c e Ec (Hne true) Hl).
      assert (imap (left it false) (table (ht0 d)) = imap (left it' false) (table (ht0 d))) as ->.
      { apply imap_ext. intros j c' _. unfold left. simpl. by rewrite Et. }
      by rewrite <-Permutation_middle.
    + rewrite (left_in false _ it it' _ c e Ec (Hne false) Hl).
      assert (imap (left it true) (table (ht1 d)) = imap (left it' true) (table (ht1 d))) as ->.
      { apply imap_ext. intros j c' _. unfold left. simpl. by rewrite Et. }
      done.
Qed.

(** The iterator moves to the next bucket [idx] of table [t]: the next one of its
    table, or the first of the second table. *)
Definition next_bucket d it (t : bool) (idx : Z) : Prop :=
  (t = it_table it ∧ idx = it_index it + 1 ∧ idx < size (get_ht d t)
   ∨ t = true ∧ it_table it = false ∧ idx = 0 ∧ size (ht0 d) ≤ it_index it + 1)%Z.

Lemma bucket_left d it t idx n fp :
  dict_ok d → it_ok d it → it_entry it = false → next_bucket d it t idx →
  let cur := mk_iter t idx (it_safe it) false n fp in
  ∀ t' i c, table (get_ht d t') !! i = Some c →
    left it t' i c = if bool_decide (t' = t ∧ Z.of_nat i = idx) then c else left cur t' i c.
Proof.
  intros Hd [I1 _ _ _] He Hn cur t' i c Ei.
  assert (suffix it c = []) as Es by (unfold suffix; by rewrite He). assert (suffix cur c = []) as Es' by done.
  assert (t' = false → Z.of_nat i < size (ht0 d))%Z as Hlt.
  { intros ->. rewrite (hk_size _ (dk_0 d Hd)). apply lookup_lt_Some in Ei. simpl in Ei. lia. }
  unfold left. rewrite Es, Es'. simpl. destruct Hn as [(-> & -> & _) | (-> & Et & -> & Hs)].
  - repeat case_bool_decide; try done; try lia; naive_solver lia.
  - rewrite Et. destruct t'; simpl.
    + repeat case_bool_decide; try done; try lia; naive_solver lia.
    + specialize (Hlt eq_refl). repeat case_bool_decide; try done; try lia; naive_solver lia.
Qed.

(** An empty bucket: nothing changes. *)
Lemma empty_bucket d it t idx n fp :
  dict_ok d → it_ok d it → it_entry it = false → next_bucket d it t idx →
  table (get_ht d t) !! Z.to_nat idx = Some [] →
  remaining d it = remaining d (mk_iter t idx (it_safe it) false n fp).
Proof.
  intros Hd Hi He Hn Eb. pose proof (bucket_left d it t idx n fp Hd Hi He Hn) as Hl. cbv zeta in Hl.
  unfold remaining. f_equal; f_equal; apply imap_ext; intros i c Ei.
  - rewrite (Hl false i c Ei). case_bool_decide as Hc; [|done]. destruct Hc as [<- <-]. rewrite Nat2Z.id in Eb.
    simpl in Eb. rewrite Ei in Eb. simplify_eq. unfold left. by repeat case_bool_decide.
  - rewrite (Hl true i c Ei). case_bool_decide as Hc; [|done]. destruct Hc as [<- <-]. rewrite Nat2Z.id in Eb.
    simpl in Eb. rewrite Ei in Eb. simplify_eq. unfold left. by repeat case_bool_decide.
Qed.

(** A bucket that is not empty: its first entry is returned. *)
Lemma full_bucket d it t idx fp e c :
  dict_ok d → it_ok d it → it_entry it = false → next_bucket d it t idx → (0 ≤ idx)%Z →
  table (get_ht d t) !! Z.to_nat idx = Some (e :: c) →
  remaining d it ≡ₚ e :: remaining d (mk_iter t idx (it_safe it) true (fst <$> head c) fp).
Proof.
  intros Hd Hi He Hn H0 Eb. set (it1 := mk_iter t idx (it_safe it) true (fst <$> head c) fp).
  pose proof (bucket_left d it t idx None fp Hd Hi He Hn) as Hl. cbv zeta in Hl.
  destruct (chain_keys d t _ _ Hd Eb) as [HN HV].
  assert (∀ t' i c', (t' = t ∧ Z.of_nat i = idx → False) → table (get_ht d t') !! i = Some c' → left it t' i c' = left it1 t' i c') as Hne.
  { intros t' i c' Hni Ei. rewrite (Hl t' i c' Ei), bool_decide_eq_false_2 by done. unfold left, it1. simpl.
    repeat case_bool_decide; try done. naive_solver. }
  assert (left it t (Z.to_nat idx) (e :: c) = e :: left it1 t (Z.to_nat idx) (e :: c)) as Hcur.
  { rewrite (Hl t _ _ Eb), bool_decide_eq_true_2 by (split; [done|lia]). f_equal.
    change (c = left it1 (it_table it1) (Z.to_nat (it_index it1)) (e :: c)). rewrite left_cur by done. unfold it1.
    assert (head c = (e :: c) !! 1) as -> by (by destruct c). rewrite suffix_next by done. done. }
  unfold remaining. destruct t; simpl in Eb.
  - rewrite (concat_imap_change (left it true) (left it1 true) _ _ _ e Eb); [|intros i c' Hic Ei; apply (Hne true); [lia|done]|done].
    assert (imap (left it false) (table (ht0 d)) = imap (left it1 false) (table (ht0 d))) as ->.
    { apply imap_ext. intros i c' Ei. apply (Hne false); [by intros [? _]|done]. }
    by rewrite <-Permutation_middle.
  - rewrite (concat_imap_change (left it false) (left it1 false) _ _ _ e Eb); [|intros i c' Hic Ei; apply (Hne false); [lia|done]|done].
    assert (imap (left it true) (table (ht1 d)) = imap (left it1 true) (table (ht1 d))) as ->; [|done].
    apply imap_ext. intros i c' Ei. apply (Hne true); [by intros [? _]|done].
Qed.

(** No bucket is left. *)
Lemma no_bucket d it :
  dict_ok d → it_ok d it → it_entry it = false → (size (get_ht d (it_table it)) ≤ it_index it + 1)%Z →
  dictIsRehashing d && negb (it_table it) = false → remaining d it = [].
Proof.
  intros Hd [I1 _ I3 _] He Hs Hr.
  assert (∀ T t, (∀ i c, T !! i = Some c → left it t i c = []) → concat (imap (left it t) T) = []) as Hnil.
  { intros T t HT. assert (imap (left it t) T = replicate (length T) []) as ->.
    { apply list_eq. intros i. rewrite list_lookup_imap. destruct (T !! i) as [c|] eqn:Ei; simpl.
      - rewrite (HT i c Ei). symmetry. apply lookup_replicate_2. by apply lookup_lt_Some in Ei.
      - symmetry. apply lookup_ge_None. rewrite length_replicate. by apply lookup_ge_None. }
    clear. induction (length T); done. }
  assert (∀ c, suffix it c = []) as Es by (intros c; unfold suffix; by rewrite He).
  assert (∀ h i c, ht_ok (hashFunction := hashFunction) h → table h !! i = Some c → (Z.of_nat i < size h)%Z) as Hlt.
  { intros h i c Hh Ei. rewrite (hk_size _ Hh). apply lookup_lt_Some in Ei. lia. }
  unfold remaining. rewrite !Hnil; [done| |].
  - intros i c Ei. apply (Hlt _ _ _ (dk_1 d Hd)) in Ei. unfold left. rewrite Es. case_bool_decide as Et.
    + rewrite Et in Hs. simpl in Hs. repeat case_bool_decide; try done. lia.
    + exfalso. assert (it_table it = false) as Et' by (by destruct (it_table it)). rewrite Et', andb_true_r in Hr.
      destruct (dk_phase d Hd) as [[_ E1] | (Hr' & _)]; [rewrite E1 in Ei; simpl in Ei; lia|].
      unfold dictIsRehashing in Hr. apply bool_decide_eq_false_1 in Hr. lia.
  - intros i c Ei. apply (Hlt _ _ _ (dk_0 d Hd)) in Ei. unfold left. rewrite Es. case_bool_decide as Et; [|done].
    rewrite Et in Hs. simpl in Hs. repeat case_bool_decide; try done. lia.
Qed.

Lemma it_ok_hold d n it : it_ok d it → it_ok (hold d n) it.
Proof.
  intros [I1 I2 I3 I4]. assert (get_ht (hold d n) (it_table it) = get_ht d (it_table it)) as E by (by destruct (it_table it)).
  by split; rewrite ?E.
Qed.

Lemma get_ht_ok d t : dict_ok d → ht_ok (hashFunction := hashFunction) (get_ht d t).
Proof. intros Hd. destruct t; [apply (dk_1 d Hd)|apply (dk_0 d Hd)]. Qed.

(** The bucket the iterator looks at next, in range. *)
Lemma next_bucket_in d it t idx :
  dict_ok d → it_ok d it → next_bucket d it t idx → (t = true → dictIsRehashing d = true) →
  ∃ c, table (get_ht d t) !! Z.to_nat idx = Some c ∧ (0 ≤ idx < size (get_ht d t))%Z
    ∧ (size (get_ht d t) - idx + (if t then 0 else size (ht1 d))
       < size (get_ht d (it_table it)) - it_index it + (if it_table it then 0 else size (ht1 d)))%Z.
Proof.
  intros Hd [I1 _ _ _] Hn Hr. pose proof (hk_size _ (dk_0 d Hd)) as H0. pose proof (hk_size _ (get_ht_ok d t Hd)) as Ht.
  assert (0 ≤ idx < size (get_ht d t))%Z as Hi.
  { destruct Hn as [(-> & -> & ?) | (-> & _ & -> & _)]; [lia|]. split; [done|]. simpl in *. rewrite Ht.
    destruct (dk_phase d Hd) as [[E _] | (_ & _ & Hn1 & _)]; [specialize (Hr eq_refl); unfold dictIsRehashing in Hr; by rewrite E in Hr|].
    destruct (table (ht1 d)); [done|simpl; lia]. }
  destruct (lookup_lt_is_Some_2 (table (get_ht d t)) (Z.to_nat idx)) as [c Ec]; [lia|]. exists c. split; [done|]. split; [done|].
  destruct Hn as [(-> & -> & ?) | (-> & Et & -> & ?)]; [destruct (it_table it); lia|]. rewrite Et in *. simpl in *. lia.
Qed.

(** A loop that steps when at most [n] rounds are ahead. *)
Definition steps_below (n : Z) (loop : dict K V → dictIterator K → out (dict K V * dictIterator K * option (K * V))) : Prop :=
  ∀ d it, dict_ok d → it_ok d it → (ahead d it < n)%Z → ∃ d' it' r, loop d it = Ret (d', it', r) ∧ stepped d it d' it' r.

(** The saved entry was the last of its chain. *)
Lemma chain_end n loop d it :
  steps_below n loop → dict_ok d → it_ok d it → it_entry it = true → it_next it = None → (ahead d it < n + 1)%Z →
  ∃ d' it' r, loop d (mk_iter (it_table it) (it_index it) (it_safe it) false None (it_fingerprint it)) = Ret (d', it', r)
    ∧ stepped d it d' it' r.
Proof.
  intros IH Hd [I1 I2 I3 I4] He Hn Hf. set (it0 := mk_iter _ _ _ _ _ _).
  assert (0 ≤ it_index it)%Z as H0.
  { destruct (decide (it_index it = -1)%Z) as [E|E]; [|lia]. destruct (I2 E). congruence. }
  destruct (IH d it0) as (d' & it' & r & E & S1 & S2 & S3 & S4 & S5); [done|by split; [done|intros E; simpl in E; lia|done|done]| |].
  { unfold ahead in *. simpl. rewrite He in Hf. simpl in Hf. lia. }
  assert (fresh it = false ∧ fresh it0 = false) as [F1 F2].
  { unfold fresh. simpl. rewrite He. by rewrite bool_decide_eq_false_2 by lia. }
  assert (remaining d it = remaining d it0) as Er.
  { apply left_same. intros t i c'. unfold left. simpl. repeat case_bool_decide; try done. unfold suffix. simpl. by rewrite He, Hn. }
  exists d', it', r. split; [done|]. unfold stepped, begin, taken in *. rewrite F1, Er. rewrite F2 in S1, S4. done.
Qed.

(** At a new bucket. *)
Lemma visit_bucket n loop d it t idx :
  steps_below n loop → dict_ok d → it_ok d it → it_entry it = false → (ahead d it < n + 1)%Z →
  next_bucket d it t idx → (t = true → dictIsRehashing d = true) →
  ∃ d' it' r,
    (c ← bucket (table (get_ht (begin d it) t)) idx;
     match c with
     | [] => loop (begin d it) (mk_iter t idx (it_safe it) false (it_next it) (taken d it))
     | e :: c => Ret (begin d it, mk_iter t idx (it_safe it) true (fst <$> head c) (taken d it), Some e)
     end) = Ret (d', it', r) ∧ stepped d it d' it' r.
Proof.
  intros IH Hd Hi He Hf Hn Hr. destruct (next_bucket_in d it t idx Hd Hi Hn Hr) as (c & Ec & Hidx & Hdec).
  assert (get_ht (begin d it) t = get_ht d t) as Eg by (unfold begin; by destruct (_ && _), t).
  assert (ht1 (begin d it) = ht1 d) as E1 by (unfold begin; by destruct (_ && _)).
  assert (dict_ok (begin d it)) as Hd1 by (unfold begin; destruct (_ && _); [by apply dict_ok_hold|done]).
  assert (∀ it2, remaining (begin d it) it2 = remaining d it2) as Erem by (intros it2; unfold begin; by destruct (_ && _)).
  assert (dictIsRehashing (begin d it) = dictIsRehashing d) as Erh by (unfold begin; by destruct (_ && _)).
  unfold bucket. rewrite Eg, Ec. bind_red. destruct c as [|e c].
  - set (it2 := mk_iter t idx (it_safe it) false (it_next it) (taken d it)).
    destruct (IH (begin d it) it2) as (d' & it' & r & E & S1 & S2 & S3 & S4 & S5); [done| | |].
    { split; simpl; [rewrite Eg; lia|lia|by rewrite Erh|done]. }
    { change (it_table it2) with t in *. unfold ahead in *. rewrite He in Hf. simpl. destruct t, (it_table it); simpl in *; rewrite ?Eg, ?E1; lia. }
    assert (fresh it2 = false) as F2 by (unfold fresh; simpl; by rewrite bool_decide_eq_false_2 by lia).
    exists d', it', r. split; [exact E|]. assert (d' = begin d it) as -> by (rewrite S1; unfold begin at 1; by rewrite F2).
    split_and!; [done|done|done|by rewrite S4; unfold taken at 1; rewrite F2|]. rewrite Erem in S5. rewrite (empty_bucket d it t idx (it_next it) (taken d it) Hd Hi He Hn Ec). exact S5.
  - destruct (chain_keys d t _ _ Hd Ec) as [HN HV]. eexists _, _, _. split; [done|]. split_and!; [done|done|simpl; lia|done| |done|].
    + split; simpl; [rewrite Eg; lia|lia|by rewrite Erh|]. intros _. exists (e :: c). rewrite Eg. split; [done|].
      assert (head c = (e :: c) !! 1) as -> by (by destruct c). intros k. exact (next_found t idx (it_safe it) (taken d it) (e :: c) 1 k HN HV).
    + rewrite Erem. apply (full_bucket d it t idx _ e c); (done || lia).
Qed.

Lemma next_loop_spec fuel : steps_below (Z.of_nat fuel) (next_loop keyCompare addr fuel).
Proof.
  induction fuel as [|fuel IH]; intros d it Hd Hi Hf; pose proof Hi as [I1 I2 I3 I4].
  { exfalso. unfold ahead in Hf. pose proof (hk_size _ (dk_1 d Hd)). destruct (it_table it), (it_entry it); simpl in *; lia. }
  cbn [next_loop]. destruct (it_entry it) eqn:He.
  - destruct (I4 eq_refl) as (c & Ec & Hk). destruct (it_next it) as [k|] eqn:Hn.
    + destruct (Hk k eq_refl) as (_ & i & e & Ef). unfold bucket. rewrite Ec. bind_red. rewrite Ef.
      eexists _, _, _. split; [done|]. by apply (taken_in_chain d it k c i e).
    + apply (chain_end (Z.of_nat fuel) (next_loop keyCompare addr fuel)); (done || lia).
  - assert ((bool_decide (it_index it = -1)%Z && negb (it_table it)) = fresh it) as -> by (unfold fresh; by rewrite He).
    change (if fresh it && negb (it_safe it) then dictFingerprint addr d else it_fingerprint it) with (taken d it).
    change (if fresh it && it_safe it then hold d 1 else d) with (begin d it).
    assert (size (get_ht (begin d it) (it_table it)) = size (get_ht d (it_table it))) as -> by (unfold begin; by destruct (_ && _), (it_table it)).
    assert (dictIsRehashing (begin d it) = dictIsRehashing d) as -> by (unfold begin; by destruct (_ && _)).
    case_bool_decide as Hend.
    + destruct (dictIsRehashing d && negb (it_table it)) eqn:Hr.
      * apply andb_true_iff in Hr as [Hr Et%negb_true_iff].
        apply (visit_bucket (Z.of_nat fuel) (next_loop keyCompare addr fuel)); try (done || lia). right. rewrite Et in Hend. simpl in Hend. split_and!; (done || lia).
      * eexists _, _, _. split; [done|]. split_and!; [done|done|simpl; lia|done|]. apply no_bucket; (done || lia).
    + apply (visit_bucket (Z.of_nat fuel) (next_loop keyCompare addr fuel)); try (done || lia). left. split_and!; (done || lia).
Qed.

Lemma dictNext_spec d it :
  dict_ok d → it_ok d it → ∃ d' it' r, dictNext keyCompare addr d it = Ret (d', it', r) ∧ stepped d it d' it' r.
Proof.
  intros Hd Hi. apply next_loop_spec; [done|done|]. destruct Hi as [I1 I2 _ _]. unfold ahead.
  pose proof (hk_size _ (dk_0 d Hd)). pose proof (hk_size _ (dk_1 d Hd)). destruct (it_table it), (it_entry it); simpl in *; lia.
Qed.

(** ** Operations under an open iterator *)

Definition rkeys d it : list C := key <$> remaining d it.

(** The iterator stays good, and [new] comes to the keys to return. *)
Definition viewed d d' it (new : list C) : Prop :=
  it_ok d' it ∧ iterators d' = iterators d ∧ rkeys d' it ≡ₚ new ++ rkeys d it.

Lemma viewed_refl d it : it_ok d it → viewed d d it [].
Proof. by intros Hi. Qed.

Lemma viewed_trans d1 d2 d3 it n1 n2 : viewed d1 d2 it n1 → viewed d2 d3 it n2 → viewed d1 d3 it (n2 ++ n1).
Proof. intros (_ & I1 & P1) (H2 & I2 & P2). split_and!; [done|congruence|]. by rewrite P2, P1, (assoc_L (++)). Qed.

(** *** One chain changes *)

Lemma find_canon c i e k :
  NoDup (key <$> c) → Forall (λ e, valid e.1) c → valid k → c !! i = Some e → canon e.1 = canon k →
  find_in keyCompare c k = Some (i, e).
Proof.
  intros HN HV Hk Ei Ek. pose proof (chain_find c i e HN HV Ei) as Hf. rewrite Forall_forall in HV.
  apply list_find_Some in Hf as (_ & _ & Hb). apply list_find_Some. split_and!; [done| |].
  - apply Is_true_true, compare_canon; [done|apply HV; by apply list_elem_of_lookup_2 in Ei|done].
  - intros j y Ej Hj Hy. apply (Hb j y Ej Hj). assert (valid y.1) as Hvy by (apply HV; by apply list_elem_of_lookup_2 in Ej).
    apply Is_true_true, compare_canon in Hy; [|done|done]. apply Is_true_true, compare_canon; [|done|congruence].
    apply HV. by apply list_elem_of_lookup_2 in Ei.
Qed.

Lemma find_elem c k i e :
  Forall (λ e, valid e.1) c → valid k → find_in keyCompare c k = Some (i, e) → c !! i = Some e ∧ canon e.1 = canon k.
Proof.
  intros HV Hk Hf. apply list_find_Some in Hf as (Ei & Hc & _). split; [done|]. rewrite Forall_forall in HV.
  apply Is_true_true, compare_canon in Hc; [done|done|]. apply HV. by apply list_elem_of_lookup_2 in Ei.
Qed.

(** The saved entry of the iterator, when the chain is the current one. *)
Definition saved_in it c : Prop := ∀ k, it_next it = Some k → valid k ∧ ∃ i e, find_in keyCompare c k = Some (i, e).

Lemma suffix_push it c k v :
  NoDup (key <$> (k, v) :: c) → Forall (λ e, valid e.1) ((k, v) :: c) → saved_in it c →
  suffix it ((k, v) :: c) = suffix it c ∧ saved_in it ((k, v) :: c).
Proof.
  intros HN HV Hs. pose proof HN as [Hni HNc]%NoDup_cons. pose proof HV as [_ HVc]%Forall_cons.
  assert (∀ k0, it_next it = Some k0 → ∃ i e, find_in keyCompare c k0 = Some (i, e) ∧ find_in keyCompare ((k, v) :: c) k0 = Some (S i, e)) as Hf.
  { intros k0 Hn. destruct (Hs k0 Hn) as (Hv & i & e & Ef). exists i, e. split; [done|].
    destruct (find_elem c k0 i e HVc Hv Ef) as [Ei Ek]. by apply find_canon. }
  split.
  - unfold suffix. destruct (it_entry it); [|done]. destruct (it_next it) as [k0|] eqn:Hn; [|done].
    destruct (Hf k0 eq_refl) as (i & e & -> & ->). done.
  - intros k0 Hn. destruct (Hf k0 Hn) as (i & e & _ & E). split; [by destruct (Hs k0 Hn)|by exists (S i), e].
Qed.

Lemma suffix_delete it c i e :
  NoDup (key <$> c) → Forall (λ e, valid e.1) c → c !! i = Some e → saved_in it c → it_entry it = true →
  canon e.1 ∉ key <$> suffix it c → suffix it (delete i c) = suffix it c ∧ saved_in it (delete i c).
Proof.
  intros HN HV Ei Hs He Hni. unfold suffix in *. rewrite He in *. destruct (it_next it) as [k|] eqn:Hn; [|by split; [|intros k; rewrite Hn]].
  destruct (Hs k Hn) as (Hv & j & e' & Ef). rewrite Ef in Hni. destruct (find_elem c k j e' HV Hv Ef) as [Ej Ek].
  assert (i < j) as Hij.
  { destruct (decide (i < j)) as [|Hge]; [done|]. exfalso. apply Hni. apply list_elem_of_fmap. exists e. split; [done|].
    apply list_elem_of_lookup_2 with (i - j). rewrite lookup_drop. by replace (j + (i - j)) with i by lia. }
  pose proof (lookup_lt_Some _ _ _ Ej) as Hlj.
  assert (find_in keyCompare (delete i c) k = Some (j - 1, e')) as Ef'.
  { apply find_canon; [|by apply Forall_delete|done| |done].
    - rewrite list_fmap_delete. by eapply sublist_NoDup; [|apply sublist_delete].
    - rewrite list_lookup_delete_ge by lia. by replace (S (j - 1)) with j by lia. }
  split.
  - rewrite Ef, Ef'. rewrite delete_take_drop, drop_app_ge by (rewrite length_take; lia). rewrite drop_drop, length_take. f_equal. lia.
  - intros k0 E0. rewrite Hn in E0. injection E0 as <-. split; [done|by exists (j - 1), e'].
Qed.

Lemma find_in_keys c c' k : c.*1 = c'.*1 → fst <$> find_in keyCompare c k = fst <$> find_in keyCompare c' k.
Proof.
  unfold find_in. revert c'. induction c as [|e c IH]; intros [|e' c'] E; simpl in *; [done|done|done|]. injection E as E1 E.
  rewrite E1. case_decide; [done|]. specialize (IH c' E). destruct (list_find _ c) as [[i x]|], (list_find _ c') as [[i' x']|]; simpl in *; naive_solver.
Qed.

Lemma suffix_keys it c c' : c.*1 = c'.*1 → (suffix it c).*1 = (suffix it c').*1 ∧ (saved_in it c → saved_in it c').
Proof.
  intros E. split.
  - unfold suffix. destruct (it_entry it); [|done]. destruct (it_next it) as [k|]; [|done]. pose proof (find_in_keys c c' k E) as Hf.
    destruct (find_in keyCompare c k) as [[i x]|], (find_in keyCompare c' k) as [[i' x']|]; simpl in *; simplify_eq; [|done].
    by rewrite !fmap_drop, E.
  - intros Hs k Hn. destruct (Hs k Hn) as (Hv & i & x & Ef). split; [done|]. pose proof (find_in_keys c c' k E) as Hf. rewrite Ef in Hf.
    destruct (find_in keyCompare c' k) as [[i' x']|]; [by eexists _, _|done].
Qed.

Lemma fmap_key (l : list (K * V)) : key <$> l = canon <$> l.*1.
Proof. by rewrite <-list_fmap_compose. Qed.

Lemma chain_view d it t b c c' n new :
  it_ok d it → table (get_ht d t) !! b = Some c →
  key <$> left it t b c' ≡ₚ new ++ (key <$> left it t b c) → (it_table it = t → it_index it = Z.of_nat b → it_entry it = true → saved_in it c') →
  viewed d (set_ht d t (mk_ht (<[b := c']> (table (get_ht d t))) (size (get_ht d t)) (sizemask (get_ht d t)) n)) it new.
Proof.
  intros [I1 I2 I3 I4] Eb Hk Hsv. set (d' := set_ht _ _ _).
  assert (∀ t', size (get_ht d' t') = size (get_ht d t') ∧ table (get_ht d' t') = if bool_decide (t' = t) then <[b := c']> (table (get_ht d t)) else table (get_ht d t')) as Hg.
  { intros t'. unfold d'. by destruct t, t'. }
  split_and!; [|by unfold d'; destruct t|].
  - split; [by rewrite (proj1 (Hg _))|done|intros Ht; rewrite <-(I3 Ht); unfold d'; by destruct t|].
    intros He. destruct (I4 He) as (c0 & E0 & Hs). rewrite (proj2 (Hg _)). case_bool_decide as Et; [|by exists c0]. rewrite Et in E0.
    destruct (decide (Z.to_nat (it_index it) = b)) as [Ej|Ej].
    + exists c'. rewrite Ej, list_lookup_insert_eq by (by apply lookup_lt_Some in Eb). split; [done|].
      assert (it_index it ≠ -1)%Z as Hn1 by (intros Hn1; apply I2 in Hn1 as [_ Hn1]; congruence). apply Hsv; [done|lia|done].
    + exists c0. by rewrite list_lookup_insert_ne.
  - pose proof (concat_imap_put (left it t) (table (get_ht d t)) b c c' Eb) as HP.
    assert (remaining d' it ++ left it t b c ≡ₚ remaining d it ++ left it t b c') as HR.
    { unfold remaining, d'. destruct t; simpl in HP |- *.
      - by rewrite <-!(assoc_L (++)), HP.
      - rewrite <-!(assoc_L (++)), (comm (++) _ (left it false b c)), (comm (++) _ (left it false b c')), !(assoc_L (++)). by rewrite HP. }
    apply (fmap_Permutation key) in HR. rewrite !fmap_app, Hk in HR. unfold rkeys.
    rewrite (comm (++) new (key <$> left it t b c)), (assoc_L (++)), <-(assoc_L (++)), (comm (++) (key <$> left it t b c) new), (assoc_L (++)) in HR.
    apply Permutation_app_inv_r in HR. by rewrite HR, (comm (++) new).
Qed.

(** What is left of the chains. *)
Lemma left_push it t b c k v :
  NoDup (key <$> (k, v) :: c) → Forall (λ e, valid e.1) ((k, v) :: c) →
  (it_table it = t → it_index it = Z.of_nat b → it_entry it = true → saved_in it c) →
  left it t b ((k, v) :: c) = left it t b c ∨ left it t b ((k, v) :: c) = (k, v) :: left it t b c.
Proof.
  intros HN HV Hs. unfold left. repeat case_bool_decide; try (by left); try (by right); [|destruct t; [by right|by left]].
  left. destruct (it_entry it) eqn:He; [|unfold suffix; by rewrite He]. apply suffix_push; [done|done|]. by apply Hs.
Qed.

Lemma left_keys it t b c c' : c.*1 = c'.*1 → key <$> left it t b c' = key <$> left it t b c.
Proof.
  intros E. rewrite !fmap_key. f_equal. unfold left. repeat case_bool_decide; try done; [|by destruct t].
  by destruct (suffix_keys it c c' E) as [-> _].
Qed.

Lemma left_delete it t b c i e :
  NoDup (key <$> c) → Forall (λ e, valid e.1) c → c !! i = Some e →
  (it_table it = t → it_index it = Z.of_nat b → it_entry it = true → saved_in it c) →
  canon e.1 ∉ key <$> left it t b c → left it t b (delete i c) = left it t b c.
Proof.
  intros HN HV Ei Hs. assert (canon e.1 ∈ key <$> c) as Hin.
  { apply list_elem_of_fmap. exists e. split; [done|]. by apply list_elem_of_lookup_2 in Ei. }
  unfold left. repeat case_bool_decide; try done; [|by destruct t]. intros Hni.
  destruct (it_entry it) eqn:He; [|unfold suffix; by rewrite He]. apply (suffix_delete it c i e); try done. by apply Hs.
Qed.

Lemma saved_cur d it t b c :
  it_ok d it → table (get_ht d t) !! b = Some c → it_table it = t → it_index it = Z.of_nat b → it_entry it = true → saved_in it c.
Proof.
  intros [_ _ _ I4] Eb Et Ei He. destruct (I4 He) as (c0 & E0 & Hs). rewrite Et, Ei, Nat2Z.id, Eb in E0. by injection E0 as <-.
Qed.

(** *** Operations *)

Lemma no_rehash d : iterators d ≠ 0%Z → rehash_if_needed hashFunction d = Ret d.
Proof. intros Hi. unfold rehash_if_needed, dictRehashStep. destruct (dictIsRehashing d); [|done]. by rewrite bool_decide_eq_false_2. Qed.

Lemma entry_table d it : dict_ok d → it_ok d it → it_entry it = true → table (ht0 d) ≠ [].
Proof.
  intros Hd [_ _ I3 I4] He E. destruct (I4 He) as (c & Ec & _). destruct (it_table it) eqn:Et.
  - destruct (dk_phase d Hd) as [[E1 _] | (_ & Hn & _)]; [|done]. specialize (I3 eq_refl). unfold dictIsRehashing in I3. by rewrite E1 in I3.
  - simpl in Ec. by rewrite E in Ec.
Qed.

Lemma expand_view d it sz d' b :
  dict_ok d → it_ok d it → it_entry it = true → dictExpand d sz = Ret (d', b) → viewed d d' it [].
Proof.
  intros Hd Hi He. pose proof (entry_table d it Hd Hi He) as Hn. pose proof Hi as [I1 I2 I3 I4]. unfold dictExpand.
  destruct (dictNextPower sz) as [realsize|]; bind_red; [|done].
  destruct (dictIsRehashing d) eqn:Hr; cbn [orb]; [intros [= <- _]; by apply viewed_refl|].
  case_bool_decide; [intros [= <- _]; by apply viewed_refl|]. case_bool_decide; [intros [= <- _]; by apply viewed_refl|].
  rewrite bool_decide_eq_false_2 by done. intros [= <- _].
  assert (it_table it = false) as Et by (destruct (it_table it); [by specialize (I3 eq_refl)|done]).
  split_and!; [|done|].
  - rewrite Et in I1, I4. split; rewrite ?Et; [done|intros E; by destruct (I2 E)|done|done].
  - unfold rkeys, remaining. simpl. destruct (dk_phase d Hd) as [[_ E1] | (Hr' & _)].
    + rewrite E1. simpl. assert (∀ m, concat (imap (left it true) (replicate m [])) = []) as ->; [|done].
      intros m. assert (imap (left it true) (replicate m []) = replicate m []) as ->.
      { apply list_eq. intros i. rewrite list_lookup_imap. destruct (replicate m [] !! i) as [c|] eqn:Ei; simpl; [|done].
        apply lookup_replicate in Ei as [-> _]. unfold left. by rewrite Et. }
      by induction m.
    + unfold dictIsRehashing in Hr. apply bool_decide_eq_false_1 in Hr. lia.
Qed.

Lemma expandIfNeeded_view can d it d' b :
  dict_ok d → it_ok d it → it_entry it = true → dictExpandIfNeeded can d = Ret (d', b) → viewed d d' it [].
Proof.
  intros Hd Hi He. unfold dictExpandIfNeeded. destruct (dictIsRehashing d); [intros [= <- _]; by apply viewed_refl|].
  case_bool_decide; [by apply expand_view|]. destruct (_ && _); [by apply expand_view|intros [= <- _]; by apply viewed_refl].
Qed.

(** Adding and replacing. *)
Lemma addRaw_view can d it k v d' s :
  dict_ok d → (dictSize d ≤ 2 ^ 61)%Z → valid k → it_ok d it → it_entry it = true → iterators d ≠ 0%Z →
  dictAddRaw hashFunction keyCompare can d k v = Ret (d', s) →
  viewed d d' it [] ∨ (∃ i, s = Free i) ∧ viewed d d' it [canon k].
Proof.
  intros Hd Hs Hv Hi He Hit. unfold dictAddRaw. rewrite (no_rehash d Hit). bind_red. unfold dictKeyIndex.
  destruct (dictExpandIfNeeded_spec can d Hd Hs) as (d1 & E1 & Hd1 & HE1 & _ & Hn1). rewrite E1. bind_red. cbn [negb].
  pose proof (expandIfNeeded_view can d it d1 true Hd Hi He E1) as V1. pose proof V1 as (Hi1 & _).
  destruct (find_both_spec d1 k Hd1 Hn1 Hv) as (r & -> & Hr). bind_red.
  destruct r as [[[[t b] i] e]|]; bind_red; [intros [= <- _]; by left|].
  set (t := dictIsRehashing d1). assert (table (get_ht d1 t) ≠ []) as Hnt.
  { unfold t. destruct (dictIsRehashing d1) eqn:ER; [|done].
    destruct (dk_phase d1 Hd1) as [[E _] | (_ & _ & Hn & _)]; [unfold dictIsRehashing in ER; by rewrite E in ER|done]. }
  destruct (bucket_in (get_ht d1 t) k (get_ht_ok d1 t Hd1) Hnt) as (c & Eb & Ec). unfold push. rewrite Eb. bind_red. intros [= <- <-].
  destruct (chain_keys d1 t _ c Hd1 Ec) as [HN HV].
  assert (NoDup (key <$> (k, v) :: c) ∧ Forall (λ e, valid e.1) ((k, v) :: c)) as [HN' HV'].
  { split; [|by constructor]. apply NoDup_cons. split; [|done]. intros (e & Ee & He')%list_elem_of_fmap. apply (Hr e); [|done].
    apply list_elem_of_lookup in He' as [i Ei]. by eapply chain_entries. }
  assert (it_table it = t → it_index it = Z.of_nat (Z.to_nat (index hashFunction (get_ht d1 t) k)) → it_entry it = true → saved_in it c) as Hsv
    by (by apply (saved_cur d1)).
  assert (∀ new, key <$> left it t (Z.to_nat (index hashFunction (get_ht d1 t) k)) ((k, v) :: c) ≡ₚ new ++ (key <$> left it t (Z.to_nat (index hashFunction (get_ht d1 t) k)) c) →
    viewed d (set_ht d1 t (mk_ht (<[Z.to_nat (index hashFunction (get_ht d1 t) k) := (k, v) :: c]> (table (get_ht d1 t))) (size (get_ht d1 t)) (sizemask (get_ht d1 t)) (used (get_ht d1 t) + 1))) it new) as Hgo.
  { intros new Hnew. rewrite <-(app_nil_r new). eapply viewed_trans; [exact V1|]. apply (chain_view d1 it t _ c); [done|done|done|].
    intros Et Ei He'. apply suffix_push; [done|done|by apply Hsv]. }
  destruct (left_push it t (Z.to_nat (index hashFunction (get_ht d1 t) k)) c k v HN' HV' Hsv) as [E|E]; [left|right; split; [by eexists|]]; apply Hgo; by rewrite E.
Qed.

Lemma replace_view can d it k v d' b :
  dict_ok d → (dictSize d ≤ 2 ^ 61)%Z → valid k → it_ok d it → it_entry it = true → iterators d ≠ 0%Z →
  dictReplace hashFunction keyCompare can d k v = Ret (d', b) → viewed d d' it [] ∨ viewed d d' it [canon k].
Proof.
  intros Hd Hs Hv Hi He Hit. unfold dictReplace.
  destruct (dictAddRaw_spec can d k v Hd Hs Hv) as (d1 & s & E1 & Hd1 & _ & Hm). rewrite E1. bind_red.
  destruct (addRaw_view can d it k v d1 s Hd Hs Hv Hi He Hit E1) as [V1|[[i ->] V1]]; [|intros [= <- _]; by right].
  destruct s as [ix|t b0 i e|]; [intros [= <- _]; by left| |done]. destruct Hm as (_ & _ & _ & _ & _ & c & Ec & Ei).
  unfold update_chain, bucket. rewrite Ec. bind_red. intros [= <- _]. left. change (@nil C) with ([] ++ @nil C). eapply viewed_trans; [exact V1|].
  pose proof V1 as (Hi1 & _). assert (c.*1 = (<[i := (e.1, v)]> c).*1) as Ek.
  { rewrite list_fmap_insert. simpl. symmetry. apply list_insert_id. by rewrite list_lookup_fmap, Ei. }
  apply (chain_view d1 it t _ c); [done|done|by rewrite (left_keys it t _ _ _ Ek)|].
  intros Et Ej He'. apply (suffix_keys it c _ Ek). by apply (saved_cur d1 it t (Z.to_nat b0)).
Qed.

(** Deleting an entry that has been returned. *)
Lemma delete_view d it e d' b :
  dict_ok d → it_ok d it → it_entry it = true → iterators d ≠ 0%Z → valid e.1 → canon e.1 ∉ rkeys d it →
  dictDelete hashFunction keyCompare d e.1 = Ret (d', b) → viewed d d' it [].
Proof.
  intros Hd Hi He Hit Hv Hni. unfold dictDelete, dictGenericDelete. destruct (_ && _); bind_red; [intros [= <- _]; by apply viewed_refl|].
  rewrite (no_rehash d Hit). bind_red. destruct (find_both_spec d e.1 Hd (entry_table d it Hd Hi He) Hv) as (r & -> & Hr). bind_red.
  destruct r as [[[[t b0] i] e0]|]; bind_red; [|intros [= <- _]; by apply viewed_refl]. destruct Hr as (Ek & _ & _ & c & Ec & Ei).
  unfold update_chain, bucket. rewrite Ec. bind_red. intros [= <- _]. destruct (chain_keys d t _ c Hd Ec) as [HN HV].
  pose proof (saved_cur d it t _ c Hi Ec) as Hsv.
  assert (canon e0.1 ∉ key <$> left it t (Z.to_nat b0) c) as Hnl.
  { rewrite Ek. intros (x & Ex & Hx)%list_elem_of_fmap. apply Hni. unfold rkeys, remaining. apply list_elem_of_fmap. exists x. split; [done|].
    apply elem_of_app. destruct t; [right|left]; apply concat_bucket; eexists (Z.to_nat b0), _; (split; [|exact Hx]);
      simpl in Ec; by rewrite list_lookup_imap, Ec. }
  apply (chain_view d it t _ c); [done|done|by rewrite (left_delete it t _ c i e0 HN HV Ei Hsv Hnl)|].
  intros Et Ej He'. specialize (Hsv Et Ej He'). apply (suffix_delete it c i e0); try done.
  rewrite <-(left_cur it c) by lia. by rewrite Et, Ej, Nat2Z.id.
Qed.

(** What the caller may do between two calls. *)
Definition polite (o : dop (K := K) (V := V)) : Prop :=
  dop_valid (valid := valid) o ∧ match o with Find _ | Add _ _ _ | Replace _ _ _ | Resize _ => True | _ => False end.

Definition added (o : dop (K := K) (V := V)) : list C := match o with Add _ k _ | Replace _ k _ => [canon k] | _ => [] end.

Lemma step_view d it o d' r :
  dict_ok d → (dictSize d ≤ 2 ^ 61)%Z → polite o → it_ok d it → it_entry it = true → iterators d ≠ 0%Z →
  dict_step hashFunction keyCompare d o = Ret (d', r) → viewed d d' it [] ∨ viewed d d' it (added o).
Proof.
  intros Hd Hs [Hv Ho] Hi He Hit. destruct o as [k|can k v|can k v|k|n|can| |]; try done; cbn [dict_step]; simpl in Hv.
  - unfold dictFind. case_bool_decide; [bind_red; intros [= <- _]; left; by apply viewed_refl|].
    rewrite (no_rehash d Hit). bind_red. destruct (find_both _ _ _ _); bind_red; [|done]. intros [= <- _]. left. by apply viewed_refl.
  - unfold dictAdd. destruct (dictAddRaw _ _ _ _ _ _) as [[d1 s]|] eqn:E; bind_red; [|done]. intros [= <- _].
    apply (addRaw_view can d it k v) in E; try done. destruct E as [V1|[_ V1]]; [by left|by right].
  - destruct (dictReplace _ _ _ _ _ _) as [[d1 b]|] eqn:E; bind_red; [|done]. intros [= <- _]. by apply (replace_view can d it) in E.
  - destruct (dictResize can d) as [[d1 b]|] eqn:E; bind_red; [|done]. intros [= <- _]. left. revert E. unfold dictResize.
    destruct (_ || _); [intros [= <- _]; by apply viewed_refl|]. by apply expand_view.
Qed.

Lemma run_view os : ∀ d it,
  dict_ok d → (dictSize d + Z.of_nat (length os) ≤ 2 ^ 61)%Z → Forall polite os → it_ok d it → it_entry it = true → iterators d ≠ 0%Z →
  ∃ d' rs new, dict_run hashFunction keyCompare d os = Ret (d', rs) ∧ dict_ok d' ∧ (dictSize d' ≤ dictSize d + Z.of_nat (length os))%Z
    ∧ viewed d d' it new ∧ new ⊆+ concat (added <$> os).
Proof.
  induction os as [|o os IH]; intros d it Hd Hs Ho Hi He Hit; cbn [dict_run].
  { exists d, [], []. split_and!; [done|done|lia|by apply viewed_refl|done]. }
  apply Forall_cons in Ho as [Ho Hos]. simpl in Hs. pose proof Ho as [Hv _].
  destruct (dict_step_spec d o Hd ltac:(lia) Hv) as (d1 & r & E & Hd1 & Hs1 & _). rewrite E. bind_red.
  apply (step_view d it) in E; try done; [|lia].
  assert (∃ n1, viewed d d1 it n1 ∧ n1 ⊆+ added o) as (n1 & V1 & Hn1).
  { destruct E as [V1|V1]; [exists []; split; [done|apply submseteq_nil_l]|by exists (added o)]. }
  pose proof V1 as (Hi1 & Hit1 & _).
  destruct (IH d1 it Hd1 ltac:(lia) Hos Hi1 He) as (d2 & rs & n2 & -> & Hd2 & Hs2 & V2 & Hn2); [congruence|]. bind_red.
  exists d2, (r :: rs), (n2 ++ n1). split_and!; [done|done|simpl; lia|by apply (viewed_trans _ d1)|].
  rewrite fmap_cons. cbn [concat]. rewrite (comm (++) n2 n1). by apply submseteq_app.
Qed.

(** ** Whole walks *)

Lemma concat_imap_sub {A} (f : nat → list A → list A) (T : list (list A)) : (∀ i (l : list A), f i l ⊆+ l) → concat (imap f T) ⊆+ concat T.
Proof.
  revert f. induction T as [|l T IH]; intros f Hf; [done|]. rewrite imap_cons. cbn [concat]. apply submseteq_app; [apply Hf|].
  apply IH. intros i l'. apply Hf.
Qed.

Lemma remaining_sub d it : remaining d it ⊆+ entries d.
Proof.
  assert (∀ t i c, left it t i c ⊆+ c) as Hl.
  { intros t i c. unfold left. repeat case_bool_decide; try done; try apply submseteq_nil_l; [|destruct t; [done|apply submseteq_nil_l]].
    unfold suffix. destruct (it_entry it), (it_next it) as [k|]; try apply submseteq_nil_l.
    destruct (find_in keyCompare c k) as [[j x]|]; [apply sublist_submseteq, sublist_drop|apply submseteq_nil_l]. }
  unfold remaining, entries. by apply submseteq_app; apply concat_imap_sub.
Qed.

Lemma returned_key d it d' it' e :
  dict_ok d → stepped d it d' it' (Some e) → valid e.1 ∧ canon e.1 ∉ rkeys d' it'.
Proof.
  intros Hd (_ & _ & _ & _ & _ & _ & HP). pose proof (remaining_sub d it) as Hs. rewrite HP in Hs.
  destruct (dk_all d Hd) as [HN HF]. apply submseteq_Permutation in Hs as [l Hl]. rewrite Hl in HN, HF. simpl in HN, HF.
  apply NoDup_cons in HN as [Hni _]. apply Forall_cons in HF as [Hv _]. split; [done|].
  intros Hin. apply Hni. rewrite fmap_app. apply elem_of_app. by left.
Qed.

(** The caller's part after an entry was returned. *)
Lemma between_view (del : bool) os d it e :
  dict_ok d → (dictSize d + Z.of_nat (length os) ≤ 2 ^ 61)%Z → Forall polite os → it_ok d it → it_entry it = true →
  iterators d ≠ 0%Z → valid e.1 → canon e.1 ∉ rkeys d it →
  ∃ d1 d' rs new,
    (if del then '(d, _) ← dictDelete hashFunction keyCompare d e.1; Ret d else Ret d) = Ret d1
    ∧ dict_run hashFunction keyCompare d1 os = Ret (d', rs) ∧ dict_ok d'
    ∧ (dictSize d' ≤ dictSize d + Z.of_nat (length os))%Z ∧ viewed d d' it new ∧ new ⊆+ concat (added <$> os).
Proof.
  intros Hd Hs Ho Hi He Hit Hv Hni.
  assert (∃ d1, (if del then '(d, _) ← dictDelete hashFunction keyCompare d e.1; Ret d else Ret d) = Ret d1
    ∧ dict_ok d1 ∧ (dictSize d1 ≤ dictSize d)%Z ∧ viewed d d1 it []) as (d1 & E1 & Hd1 & Hs1 & V1).
  { destruct del; [|exists d; split_and!; [done|done|lia|by apply viewed_refl]].
    destruct (dictGenericDelete_spec d e.1 Hd Hv) as (d1 & E & Hd1 & _ & Em).
    assert (dictDelete hashFunction keyCompare d e.1 = Ret (d1, bool_decide (is_Some (to_map (canon := canon) d !! canon e.1)))) as Ed
      by (unfold dictDelete; by rewrite E).
    rewrite Ed. bind_red. exists d1. split_and!; [done|done| |by eapply delete_view].
    rewrite (dictSize_map d Hd), (dictSize_map d1 Hd1), Em, map_size_delete. destruct (to_map (canon := canon) d !! canon e.1); simpl; lia. }
  pose proof V1 as (Hi1 & Hit1 & _).
  destruct (run_view os d1 it Hd1 ltac:(lia) Ho Hi1 He) as (d2 & rs & n2 & E2 & Hd2 & Hs2 & V2 & Hn2); [congruence|].
  exists d1, d2, rs, n2. split_and!; [done|done|done|lia| |done]. rewrite <-(app_nil_r n2). by apply (viewed_trans _ d1).
Qed.

(** The operations of a walk. *)
Definition walk_ops (oss : list (bool * list (dop (K := K) (V := V)))) : list (dop (K := K) (V := V)) := concat oss.*2.

Lemma iterate_spec oss : ∀ d it,
  dict_ok d → it_ok d it → it_safe it = true → (0 ≤ iterators d)%Z → fresh it = true ∨ it_entry it = true ∧ iterators d ≠ 0%Z →
  (dictSize d + Z.of_nat (length (walk_ops oss)) ≤ 2 ^ 61)%Z → Forall polite (walk_ops oss) →
  ∃ d' it' es b new rest, iterate hashFunction keyCompare addr d it oss = Ret (d', it', es, b) ∧ dict_ok d'
    ∧ it_safe it' = true ∧ (0 ≤ it_index it')%Z ∧ iterators d' = (iterators d + Z.b2z (fresh it))%Z
    ∧ (key <$> es) ++ rest ≡ₚ new ++ rkeys d it ∧ new ⊆+ concat (added <$> walk_ops oss)
    ∧ (b = true → rest = []) ∧ (b = false → length es = S (length oss)).
Proof.
  induction oss as [|[del os] oss IH]; intros d it Hd Hi Hsf Hit0 Hst Hs Ho; cbn [iterate];
    (destruct (dictNext_spec d it Hd Hi) as (d1 & it1 & r & -> & HS); bind_red; pose proof HS as (E1 & S2 & S3 & _ & S5);
     assert (dict_ok d1 ∧ iterators d1 = (iterators d + Z.b2z (fresh it))%Z ∧ dictSize d1 = dictSize d) as (Hd1 & Hit1 & Hsz1);
     [rewrite E1; unfold begin; rewrite Hsf, andb_true_r; destruct (fresh it); simpl; split_and!; (by apply dict_ok_hold) || done || lia|];
     (destruct r as [e|]; [|eexists d1, it1, [], true, [], []; split_and!;
        [done|done|congruence|done|done|unfold rkeys; by rewrite S5|apply submseteq_nil_l|done|done]])).
  - destruct S5 as (Hi1 & He1 & HP). eexists d1, it1, [e], false, [], (rkeys d1 it1).
    split_and!; [done|done|congruence|done|done|unfold rkeys; by rewrite HP|apply submseteq_nil_l|done|done].
  - destruct S5 as (Hi1 & He1 & HP). destruct (returned_key d it d1 it1 e Hd HS) as [Hv Hni].
    change (walk_ops ((del, os) :: oss)) with (os ++ walk_ops oss) in *. rewrite length_app in Hs. apply Forall_app in Ho as [Ho Hos].
    assert (iterators d1 ≠ 0%Z) as Hne.
    { rewrite Hit1. destruct Hst as [-> | [_ ?]]; [simpl; lia|]. destruct (fresh it); simpl; lia. }
    destruct (between_view del os d1 it1 e Hd1 ltac:(lia) Ho Hi1 He1 Hne Hv Hni) as (d2 & d3 & rs & n1 & -> & E3 & Hd3 & Hs3 & HVw & Hn1).
    bind_red. rewrite E3. bind_red. destruct HVw as (Hi3 & Hit3 & HV).
    destruct (IH d3 it1 Hd3 Hi3) as (d' & it' & es & b & new & rest & -> & Hd' & T1 & T2 & T3 & T4 & T5 & T6 & T7);
      [congruence|rewrite Hit3, Hit1; destruct (fresh it); simpl; lia|right; split; [done|congruence]|lia|done|]. bind_red.
    assert (fresh it1 = false) as F1 by (unfold fresh; by rewrite He1). rewrite F1 in T3. simpl in T3.
    exists d', it', (e :: es), b, (new ++ n1), rest. split_and!; [done|done|done|done|lia| | |done|intros Hb; simpl; by rewrite (T7 Hb)].
    + rewrite fmap_cons. simpl. rewrite T4, HV. unfold rkeys. rewrite HP. simpl. rewrite <-Permutation_middle, (assoc_L (++)). done.
    + rewrite fmap_app, concat_app, (comm (++) new n1). by apply submseteq_app.
Qed.

Lemma fresh_ok d : dict_ok d → it_ok d dictGetSafeIterator ∧ it_ok d dictGetIterator
  ∧ remaining d dictGetSafeIterator = entries d ∧ remaining d dictGetIterator = entries d.
Proof.
  intros Hd. pose proof (hk_size _ (dk_0 d Hd)).
  assert (∀ it, it_table it = false → it_index it = (-1)%Z → remaining d it = entries d) as Hr.
  { intros it Et Ei. assert (∀ t T, imap (left it t) T = T) as Hl; [|unfold remaining, entries; by rewrite !Hl].
    intros t T. apply list_eq. intros i. rewrite list_lookup_imap. destruct (T !! i) as [c|]; simpl; [|done].
    unfold left. rewrite Et, Ei. destruct t; simpl; [done|]. by rewrite !bool_decide_eq_false_2 by lia. }
  split_and!; [by split; simpl; [lia|done|done|done]|by split; simpl; [lia|done|done|done]|by apply Hr|by apply Hr].
Qed.

(** A walk with an unsafe iterator, without other operations. *)
Lemma unsafe_walk n : ∀ d it,
  dict_ok d → it_ok d it → it_safe it = false → fresh it = true ∨ it_entry it = true ∧ it_fingerprint it = dictFingerprint addr d →
  ∃ it' es b rest, iterate hashFunction keyCompare addr d it (replicate n (false, [])) = Ret (d, it', es, b)
    ∧ es ++ rest ≡ₚ remaining d it ∧ (b = true → rest = []) ∧ (b = false → length es = S n)
    ∧ it_safe it' = false ∧ (0 ≤ it_index it')%Z ∧ it_fingerprint it' = dictFingerprint addr d.
Proof.
  induction n as [|n IH]; intros d it Hd Hi Hsf Hst; cbn [replicate iterate];
    (destruct (dictNext_spec d it Hd Hi) as (d1 & it1 & r & -> & HS); bind_red; destruct HS as (E1 & S2 & S3 & S4 & S5);
     assert (d1 = d) as -> by (rewrite E1; unfold begin; by rewrite Hsf, andb_false_r);
     assert (it_fingerprint it1 = dictFingerprint addr d) as Efp;
       [rewrite S4; unfold taken; rewrite Hsf, andb_true_r; destruct Hst as [-> | [He Hfp]]; [done|];
        assert (fresh it = false) as -> by (unfold fresh; by rewrite He); done|];
     (destruct r as [e|]; [|exists it1, [], true, []; split_and!; [done|by rewrite S5|done|done|congruence|done|done]])).
  - destruct S5 as (Hi1 & He1 & HP). exists it1, [e], false, (remaining d it1). split_and!; [done|by rewrite HP|done|done|congruence|done|done].
  - destruct S5 as (Hi1 & He1 & HP).
    destruct (IH d it1 Hd Hi1) as (it' & es & b & rest & E & T1 & T2 & T3 & T4); [congruence|by right|]. cbn [dict_run]. bind_red. rewrite E. bind_red.
    exists it', (e :: es), b, rest. split_and!; [done|simpl; by rewrite T1, HP|done|intros Hb; simpl; by rewrite (T3 Hb)|apply T4..].
Qed.

Lemma unsafe_iteration d :
  dict_ok d → ∃ it' es, iterate hashFunction keyCompare addr d dictGetIterator (replicate (length (entries d)) (false, [])) = Ret (d, it', es, true)
    ∧ es ≡ₚ entries d ∧ dictReleaseIterator addr d it' = Ret d.
Proof.
  intros Hd. destruct (fresh_ok d Hd) as (_ & Hi & _ & Er).
  destruct (unsafe_walk (length (entries d)) d dictGetIterator Hd Hi eq_refl (or_introl eq_refl)) as (it' & es & b & rest & E & T1 & T2 & T3 & T4 & T5 & T6).
  rewrite Er in T1. assert (b = true) as ->.
  { destruct b; [done|]. apply Permutation_length in T1. rewrite length_app, T3 in T1 by done. lia. }
  exists it', es. split_and!; [done|by rewrite T2, app_nil_r in T1|].
  unfold dictReleaseIterator. rewrite bool_decide_eq_false_2 by lia. cbn [andb]. by rewrite T4, bool_decide_eq_true_2.
Qed.

(** C32: a walk over a dictionary with a safe iterator, during which the caller deletes
    entries that were returned, adds, replaces and finds others and resizes the
    table, does not touch freed memory.  At the end of the walk every entry that was
    there at the beginning has been returned, exactly once unless it was added again
    in between; releasing the iterator lets rehashing go on.  The walk ends after at
    most as many calls as there were entries and other operations, and one. *)
Theorem safe_iteration d oss :
  dict_ok d → (0 ≤ iterators d)%Z → (dictSize d + Z.of_nat (length (walk_ops oss)) ≤ 2 ^ 61)%Z → Forall polite (walk_ops oss) →
  ∃ d' it' es b d'', iterate hashFunction keyCompare addr d dictGetSafeIterator oss = Ret (d', it', es, b)
    ∧ dictReleaseIterator addr d' it' = Ret d'' ∧ dict_ok d'' ∧ iterators d'' = iterators d
    ∧ (b = true → ∀ e, e ∈ entries d → canon e.1 ∈ key <$> es
        ∧ (canon e.1 ∉ concat (added <$> walk_ops oss) → ∃ l1 l2, key <$> es = l1 ++ canon e.1 :: l2 ∧ canon e.1 ∉ l1 ++ l2))
    ∧ (length (entries d) + length (walk_ops oss) ≤ length oss → b = true).
Proof.
  intros Hd Hit Hs Ho. destruct (fresh_ok d Hd) as (Hi & _ & Er & _).
  destruct (iterate_spec oss d dictGetSafeIterator Hd Hi eq_refl Hit (or_introl eq_refl) Hs Ho)
    as (d' & it' & es & b & new & rest & E & Hd' & T1 & T2 & T3 & T4 & T5 & T6 & T7).
  unfold rkeys in T4. rewrite Er in T4. exists d', it', es, b, (hold d' (-1)). split_and!; [done| |by apply dict_ok_hold|simpl; rewrite T3; simpl; lia| |].
  - unfold dictReleaseIterator. rewrite bool_decide_eq_false_2 by lia. cbn [andb]. by rewrite T1.
  - intros -> e He. rewrite (T6 eq_refl), app_nil_r in T4.
    assert (canon e.1 ∈ key <$> entries d) as Hk by (apply list_elem_of_fmap; by exists e).
    assert (canon e.1 ∈ key <$> es) as Hin by (rewrite T4; apply elem_of_app; by right). split; [done|]. intros Hna.
    apply list_elem_of_split in Hin as (l1 & l2 & El). exists l1, l2. split; [done|].
    apply list_elem_of_split in Hk as (k1 & k2 & Ek). pose proof (dk_keys d Hd) as HN. rewrite Ek in T4, HN. rewrite El in T4.
    rewrite <-!Permutation_middle in T4. rewrite <-Permutation_middle in HN. apply NoDup_cons in HN as [Hnk _].
    apply Permutation_cons_inv in T4. rewrite T4. intros [Hn|Hn]%elem_of_app; [|done]. apply Hna. by eapply elem_of_submseteq.
  - intros Hl. destruct b; [done|]. apply Permutation_length in T4. rewrite !length_app, !length_fmap, T7 in T4 by done.
    apply submseteq_length in T5. assert (∀ os, length (concat (added <$> os)) ≤ length os) as Hadd.
    { induction os as [|o os IHo]; [done|]. rewrite fmap_cons. cbn [concat length]. rewrite length_app.
      assert (length (added o) ≤ 1) by (destruct o; simpl; lia). lia. }
    specialize (Hadd (walk_ops oss)). lia.
Qed.
End walk.

(** A walk that starts in the middle of a rehashing: entries are deleted as they come,
    one is added and a lookup is made. *)
Definition walk_sample : list (bool * list (dop (K := nat) (V := bool))) :=
  [(true, []); (false, [Add true 77 true]); (true, [Find 9]); (false, [Resize true])] ++ replicate 12 (false, []).

Lemma safe_iteration_witness :
  ∃ d' it' es, iterate (λ k : nat, Z.of_nat k mod 2 ^ 64)%Z (λ a b, bool_decide (a = b)) (0, 0)%Z rehashing_sample dictGetSafeIterator walk_sample
      = Ret (d', it', es, true)
    ∧ 14 ∈ es.*1.
Proof.
  destruct (safe_iteration (hashFunction := λ k : nat, Z.of_nat k mod 2 ^ 64)%Z (keyCompare := λ a b, bool_decide (a = b))
    (canon := λ k : nat, k) (valid := λ _, True) (addr := (0, 0)%Z) rehashing_sample walk_sample)
    as (d' & it' & es & b & d'' & E & _ & _ & _ & Hb & _).
  - exact rehashing_sample_ok.
  - vm_compute. discriminate.
  - vm_compute. discriminate.
  - repeat constructor.
  - assert (b = true) as Ebt by (vm_compute in E; injection E as _ _ _ E; symmetry; exact E).
    rewrite Ebt in E, Hb. exists d', it', es. split; [exact E|].
    assert ((14, false) ∈ entries rehashing_sample) as Hin by concrete.
    destruct (Hb eq_refl (14, false) Hin) as [Hk _]. exact Hk.
Defined.

(** Deleting the entry after the one that was returned leaves the iterator with a
    dangling pointer: 1, 5 and 9 are in one chain. *)
Lemma saved_entry_deleted :
  ∃ d1 it1 e k d2 b, dictNext (λ a b, bool_decide (a = b)) (0, 0)%Z rehashing_sample dictGetSafeIterator = Ret (d1, it1, Some e)
    ∧ it_next it1 = Some k ∧ dictDelete (λ k : nat, Z.of_nat k mod 2 ^ 64)%Z (λ a b, bool_decide (a = b)) d1 k = Ret (d2, b)
    ∧ dictNext (λ a b, bool_decide (a = b)) (0, 0)%Z d2 it1 = Fail Dangling.
Proof.
  do 6 eexists. split; [vm_compute; reflexivity|]. split; [vm_compute; reflexivity|]. split; [vm_compute; reflexivity|]. vm_compute. reflexivity.
Qed.
