(* ===== verification/Sample.v ===== *)
(** * Random entries of hash tables

    [dictGetRandomKey], [dictGetSomeKeys] and [dictRehashMilliseconds] of src/src/dict.c.  [random()] is a sequence of
    numbers, an argument.  Every entry can be picked, also while the table is being
    rehashed; samples consist of entries of the table, and sampling ends. *)
From S2P Require Import Prelude Dict DictMap Scan.

Section operations.
Context {K V : Type} (hashFunction : K → Z) (rnd : nat → Z).
Implicit Types d : dict K V.

(** The body of the loops of [dictGetRandomKey]: the bucket a number stands for. *)
Definition chosen_bucket d (r : Z) : out (list (K * V)) :=
  if dictIsRehashing d then
    let h := (rehashidx d + r mod (size (ht0 d) + size (ht1 d) - rehashidx d))%Z in
    if bool_decide (h >= size (ht0 d))%Z then bucket (table (ht1 d)) (h - size (ht0 d)) else bucket (table (ht0 d)) h
  else bucket (table (ht0 d)) (Z.land r (sizemask (ht0 d))).

(** Until a bucket is not empty, at most [fuel] times: the bucket and the number of calls
    of [random]. *)
Fixpoint pick_loop (fuel k : nat) d : out (option (list (K * V) * nat)) :=
  match fuel with
  | 0 => Ret None
  | S fuel =>
    he ← chosen_bucket d (rnd k);
    match he with [] => pick_loop fuel (S k) d | _ => Ret (Some (he, S k)) end
  end.

(** NULL, an entry, or the loop has not ended yet. *)
Inductive picked := NoKey | Key (e : K * V) | Looping.

Definition dictGetRandomKey (fuel : nat) d : out (dict K V * picked) :=
  if bool_decide (dictSize d = 0)%Z then Ret (d, NoKey)
  else
    d ← rehash_if_needed hashFunction d;
    p ← pick_loop fuel 0 d;
    match p with
    | None => Ret (d, Looping)
    | Some (he, k) =>
      match he !! Z.to_nat (rnd k mod Z.of_nat (length he)) with Some e => Ret (d, Key e) | None => Fail NullDeref end
    end.

(** ** Samples *)

(** The state of the loops: the index, the empty buckets in a row, what was stored, and
    the number of calls of [random]; [sm_done] after [return]. *)
Record sampling := mk_sm { sm_i : Z; sm_empty : Z; sm_des : list (K * V); sm_k : nat; sm_done : bool }.

(** The body of the loop over the tables, [j] is true for the second one. *)
Definition visit d (tables : Z) (maxsizemask count : Z) (st : sampling) (j : bool) : out sampling :=
  if sm_done st then Ret st
  else if bool_decide (tables = 2)%Z && negb j && bool_decide (sm_i st < rehashidx d)%Z then
    Ret (if bool_decide (sm_i st >= size (ht1 d))%Z then mk_sm (rehashidx d) (sm_empty st) (sm_des st) (sm_k st) false else st)
  else if bool_decide (sm_i st >= size (get_ht d j))%Z then Ret st
  else
    he ← bucket (table (get_ht d j)) (sm_i st);
    match he with
    | [] =>
      let n := (sm_empty st + 1)%Z in
      if bool_decide (n >= 5)%Z && bool_decide (n > count)%Z
      then Ret (mk_sm (Z.land (rnd (sm_k st)) maxsizemask) 0 (sm_des st) (S (sm_k st)) false)
      else Ret (mk_sm (sm_i st) n (sm_des st) (sm_k st) false)
    | _ =>
      let des := sm_des st ++ take (Z.to_nat count - length (sm_des st)) he in
      Ret (mk_sm (sm_i st) 0 des (sm_k st) (bool_decide (Z.of_nat (length des) = count)))
    end.

Fixpoint sample_loop (maxsteps : nat) d (tables maxsizemask count : Z) (st : sampling) : out sampling :=
  match maxsteps with
  | 0 => Ret st
  | S maxsteps =>
    if negb (bool_decide (Z.of_nat (length (sm_des st)) < count)%Z) then Ret st
    else
      st ← out_fold (visit d tables maxsizemask count) st (if bool_decide (tables = 2)%Z then [false; true] else [false]);
      if sm_done st then Ret st
      else sample_loop maxsteps d tables maxsizemask count
             (mk_sm (Z.land (sm_i st + 1) maxsizemask) (sm_empty st) (sm_des st) (sm_k st) false)
  end.

(** [for (j = 0; j < count; j++)]: some rehashing. *)
Fixpoint rehash_some (n : nat) d : out (dict K V) :=
  match n with 0 => Ret d | S n => if dictIsRehashing d then d ← dictRehashStep hashFunction d; rehash_some n d else Ret d end.

Definition dictGetSomeKeys d (count : Z) : out (dict K V * list (K * V)) :=
  let count := if bool_decide (dictSize d < count)%Z then dictSize d else count in
  d ← rehash_some (Z.to_nat count) d;
  let tables := if dictIsRehashing d then 2%Z else 1%Z in
  let m := sizemask (ht0 d) in
  let m := if bool_decide (tables > 1)%Z && bool_decide (m < sizemask (ht1 d))%Z then sizemask (ht1 d) else m in
  st ← sample_loop (Z.to_nat (count * 10)) d tables m count (mk_sm (Z.land (rnd 0) m) 0 [] 1 false);
  Ret (d, sm_des st).

(** The loop of [dictRehashMilliseconds]: the clock allows [n] more rounds after the first
    one; with the number of steps done. *)
Fixpoint rehash_rounds (steps n : nat) d (rehashes : Z) : out (dict K V * Z) :=
  '(d, more) ← dictRehash hashFunction d steps;
  if (more : bool) then
    let rehashes := (rehashes + Z.of_nat steps)%Z in
    match n with 0 => Ret (d, rehashes) | S n => rehash_rounds steps n d rehashes end
  else Ret (d, rehashes).

Definition dictRehashMilliseconds (n : nat) d : out (dict K V * Z) := rehash_rounds 100 n d 0.
End operations.

(** ** Properties *)

Section sampling.
Context {K V C : Type} `{Countable C} {hashFunction : K → Z} {keyCompare : K → K → bool} {canon : K → C} {valid : K → Prop}.
Context `{!DictType hashFunction keyCompare canon valid}.
Implicit Types (d : dict K V) (e : K * V).

Notation dict_ok := (dict_ok (hashFunction := hashFunction) (canon := canon) (valid := valid)).
Notation ht_ok := (ht_ok (hashFunction := hashFunction)).

Lemma bucket_at (h : dictht K V) i :
  ht_ok h → (0 ≤ i < size h)%Z → ∃ c, bucket (table h) i = Ret c ∧ table h !! Z.to_nat i = Some c.
Proof.
  intros Hh Hi. unfold bucket. rewrite (hk_size _ Hh) in Hi.
  destruct (lookup_lt_is_Some_2 (table h) (Z.to_nat i)) as [c ->]; [lia|]. by eexists.
Qed.

Lemma bucket_entries d t i c e : table (get_ht d t) !! i = Some c → e ∈ c → e ∈ entries d.
Proof. intros Ec (j & Ej)%list_elem_of_lookup. by apply (chain_entries d t i j c). Qed.

Lemma mask_range (h : dictht K V) r : ht_ok h → table h ≠ [] → (0 ≤ Z.land r (sizemask h) < size h)%Z.
Proof.
  intros Hh Hn. destruct (hk_mask _ Hh Hn) as (n & Hn0 & -> & ->). replace (2 ^ n - 1)%Z with (Z.ones n) by (rewrite Z.ones_equiv; lia).
  rewrite Z.land_ones by done. apply Z.mod_pos_bound. lia.
Qed.

Lemma mask_small (h : dictht K V) r : ht_ok h → table h ≠ [] → (0 ≤ r < size h)%Z → Z.land r (sizemask h) = r.
Proof.
  intros Hh Hn Hr. destruct (hk_mask _ Hh Hn) as (n & Hn0 & E & ->). rewrite E in Hr. replace (2 ^ n - 1)%Z with (Z.ones n) by (rewrite Z.ones_equiv; lia).
  rewrite Z.land_ones by done. by apply Z.mod_small.
Qed.

(** *** One entry *)

Lemma rehash_room d : dict_ok d → dictIsRehashing d = true → table (ht0 d) ≠ [] → (0 ≤ rehashidx d)%Z ∧ table (ht1 d) ≠ [].
Proof.
  intros Hd ER Hn. destruct (dk_phase d Hd) as [[E _] | (Hr & _ & H1 & _)]; [|done]. unfold dictIsRehashing in ER. by rewrite E in ER.
Qed.

(** While it is rehashed a table has a bucket to be moved. *)
Definition ahead d : Prop := dictIsRehashing d = true → (rehashidx d < size (ht0 d))%Z.

Lemma chosen_total d r :
  dict_ok d → table (ht0 d) ≠ [] → ahead d → ∃ c, chosen_bucket d r = Ret c ∧ ∀ e, e ∈ c → e ∈ entries d.
Proof.
  intros Hd Hn Ha. unfold chosen_bucket. destruct (dictIsRehashing d) eqn:ER.
  - destruct (rehash_room d Hd ER Hn) as [Hr _]. specialize (Ha ER). pose proof (hk_size _ (dk_1 d Hd)) as S1.
    set (total := (size (ht0 d) + size (ht1 d) - rehashidx d)%Z). pose proof (Z.mod_pos_bound r total ltac:(lia)) as Hm.
    case_bool_decide as Hh.
    + destruct (bucket_at (ht1 d) (rehashidx d + r mod total - size (ht0 d)) (dk_1 d Hd)) as (c & -> & Hc); [lia|].
      exists c. split; [done|]. intros e. exact (bucket_entries d true _ c e Hc).
    + destruct (bucket_at (ht0 d) (rehashidx d + r mod total) (dk_0 d Hd)) as (c & -> & Hc); [lia|].
      exists c. split; [done|]. intros e. exact (bucket_entries d false _ c e Hc).
  - destruct (bucket_at (ht0 d) (Z.land r (sizemask (ht0 d))) (dk_0 d Hd)) as (c & -> & Hc); [by apply mask_range, Hn; apply Hd|].
    exists c. split; [done|]. intros e. exact (bucket_entries d false _ c e Hc).
Qed.

(** For every entry there is a number that leads to its bucket. *)
Lemma chosen_hits d e :
  dict_ok d → ahead d → e ∈ entries d → ∃ r c, (0 ≤ r)%Z ∧ chosen_bucket d r = Ret c ∧ e ∈ c.
Proof.
  intros Hd Ha He. pose proof (nonempty_table d e Hd He) as Hn. unfold entries in He.
  pose proof (hk_size _ (dk_0 d Hd)) as S0. pose proof (hk_size _ (dk_1 d Hd)) as S1. unfold chosen_bucket.
  apply elem_of_app in He as [(i & c & Hi & Hc)%concat_bucket|(i & c & Hi & Hc)%concat_bucket];
    pose proof (lookup_lt_Some _ _ _ Hi) as Hl.
  - destruct (dictIsRehashing d) eqn:ER.
    + destruct (dk_phase d Hd) as [[E _] | (Hr & _ & _ & Hemp)]; [unfold dictIsRehashing in ER; by rewrite E in ER|].
      assert (rehashidx d ≤ Z.of_nat i)%Z as Hri.
      { destruct (decide (Z.of_nat i < rehashidx d)%Z) as [Hlt|]; [|lia]. rewrite (Hemp i c Hlt Hi) in Hc. by apply not_elem_of_nil in Hc. }
      exists (Z.of_nat i - rehashidx d)%Z, c. split; [lia|]. split; [|done]. rewrite Z.mod_small by lia.
      rewrite bool_decide_eq_false_2 by lia. unfold bucket. replace (Z.to_nat _) with i by lia. by rewrite Hi.
    + exists (Z.of_nat i), c. split; [lia|]. split; [|done]. rewrite mask_small by (done || apply Hd || lia).
      unfold bucket. by rewrite Nat2Z.id, Hi.
  - destruct (dk_phase d Hd) as [[_ E1] | (Hr & _ & _ & _)]; [by rewrite E1 in Hi|].
    assert (dictIsRehashing d = true) as ER by (unfold dictIsRehashing; apply bool_decide_eq_true; lia). specialize (Ha ER). rewrite ER.
    exists (size (ht0 d) + Z.of_nat i - rehashidx d)%Z, c. split; [lia|]. split; [|done]. rewrite Z.mod_small by lia.
    rewrite bool_decide_eq_true_2 by lia. unfold bucket. replace (Z.to_nat _) with i by lia. by rewrite Hi.
Qed.

Lemma pick_loop_spec rnd d fuel : ∀ k,
  dict_ok d → table (ht0 d) ≠ [] → ahead d →
  ∃ p, pick_loop rnd fuel k d = Ret p
    ∧ (∀ c n, p = Some (c, n) → c ≠ [] ∧ ∀ e, e ∈ c → e ∈ entries d)
    ∧ (∀ j c, k ≤ j < k + fuel → chosen_bucket d (rnd j) = Ret c → c ≠ [] → p ≠ None).
Proof.
  induction fuel as [|fuel IH]; intros k Hd Hn Ha; cbn [pick_loop].
  { exists None. split; [done|]. split; [done|]. intros j c Hj. lia. }
  destruct (chosen_total d (rnd k) Hd Hn Ha) as (c & E & Hc). rewrite E. bind_red. destruct c as [|e c].
  - destruct (IH (S k) Hd Hn Ha) as (p & -> & H1 & H2). exists p. split; [done|]. split; [done|]. intros j c Hj Ec Hne.
    destruct (decide (j = k)) as [->|]; [congruence|]. apply (H2 j c); [lia|done|done].
  - eexists. split; [done|]. split; [|done]. intros c' n [= <- <-]. done.
Qed.

(** Rehashing keeps [ahead]. *)
Lemma step_ahead d :
  dict_ok d → ahead d → ∃ d', dictRehashStep hashFunction d = Ret d' ∧ dict_ok d' ∧ entries d' ≡ₚ entries d ∧ ahead d'.
Proof.
  intros Hd Ha. unfold dictRehashStep. case_bool_decide; [|by exists d].
  destruct (dictRehash_spec d 1 Hd ltac:(done)) as (d' & b & -> & Hd' & HE & _ & Hp). bind_red. exists d'. split; [done|]. split; [done|]. split; [done|].
  intros ER. destruct (Hp ER) as (_ & _ & H2). lia.
Qed.

Lemma needed_ahead d :
  dict_ok d → ahead d → ∃ d', rehash_if_needed hashFunction d = Ret d' ∧ dict_ok d' ∧ entries d' ≡ₚ entries d ∧ ahead d'.
Proof. intros Hd Ha. unfold rehash_if_needed. destruct (dictIsRehashing d); [by apply step_ahead|by exists d]. Qed.

(** A random key is an entry; the dictionary stands for the same map; and there is a
    number with which the loop ends as soon as [random] gives it. *)
Lemma random_key rnd fuel d :
  dict_ok d → ahead d →
  ∃ d' p, dictGetRandomKey hashFunction rnd fuel d = Ret (d', p) ∧ dict_ok d' ∧ entries d' ≡ₚ entries d
    ∧ match p with NoKey => entries d = [] | Key e => e ∈ entries d | Looping => entries d ≠ [] end.
Proof.
  intros Hd Ha. unfold dictGetRandomKey. case_bool_decide as Hs.
  { exists d, NoKey. split_and!; [done|done|done|]. rewrite (dictSize_entries d Hd) in Hs. destruct (entries d); [done|simpl in Hs; lia]. }
  destruct (needed_ahead d Hd Ha) as (d' & -> & Hd' & HE & Ha'). bind_red. pose proof (entries_nonempty d d' Hd Hd' HE Hs) as Hn.
  destruct (pick_loop_spec rnd d' fuel 0 Hd' Hn Ha') as (p & -> & H1 & _). bind_red. destruct p as [[c n]|].
  - destruct (H1 c n eq_refl) as [Hc Hin]. pose proof (Z.mod_pos_bound (rnd n) (Z.of_nat (length c))) as Hm.
    assert (0 < length c) by (destruct c; [done|simpl; lia]).
    destruct (lookup_lt_is_Some_2 c (Z.to_nat (rnd n mod Z.of_nat (length c)))) as [e He]; [lia|]. rewrite He.
    exists d', (Key e). split_and!; [done|done|done|]. rewrite <-HE. apply Hin. by apply list_elem_of_lookup_2 in He.
  - exists d', Looping. split_and!; [done|done|done|]. intros E. rewrite (dictSize_entries d Hd), E in Hs. done.
Qed.

(** Every entry can be picked: by two numbers, for its bucket and its place in it. *)
Lemma every_key_possible d e :
  dict_ok d → ahead d → e ∈ entries d →
  ∃ r1 r2, (0 ≤ r1)%Z ∧ (0 ≤ r2)%Z ∧ ∀ rnd fuel, rnd 0 = r1 → rnd 1 = r2 →
    ∃ d', dictGetRandomKey hashFunction rnd (S fuel) d = Ret (d', Key e).
Proof.
  intros Hd Ha He. destruct (needed_ahead d Hd Ha) as (d' & E & Hd' & HE & Ha').
  assert (e ∈ entries d') as He' by (by rewrite HE). destruct (chosen_hits d' e Hd' Ha' He') as (r1 & c & Hr & Ec & Hin).
  pose proof Hin as (j & Hj)%list_elem_of_lookup. pose proof (lookup_lt_Some _ _ _ Hj) as Hl.
  exists r1, (Z.of_nat j). split; [done|]. split; [lia|]. intros rnd fuel E1 E2. exists d'. unfold dictGetRandomKey.
  rewrite bool_decide_eq_false_2. 2:{ rewrite (dictSize_entries d Hd). destruct (entries d); [by apply not_elem_of_nil in He|simpl; lia]. }
  rewrite E. bind_red. cbn [pick_loop]. rewrite E1, Ec. bind_red. destruct c as [|x c]; [by apply not_elem_of_nil in Hin|]. bind_red.
  rewrite E2, Z.mod_small by lia. by rewrite Nat2Z.id, Hj.
Qed.

(** *** [ahead] is kept by every operation *)

Lemma rehash_ahead d n d' b : dict_ok d → n ≠ 0 → dictRehash hashFunction d n = Ret (d', b) → dict_ok d' ∧ ahead d'.
Proof.
  intros Hd Hn E. destruct (dictRehash_spec d n Hd Hn) as (d1 & b1 & E1 & Hd1 & _ & _ & Hp). rewrite E in E1. simplify_eq.
  split; [done|]. intros ER. destruct (Hp ER) as (_ & _ & H2). lia.
Qed.

Lemma needed_keeps d d' : dict_ok d → ahead d → rehash_if_needed hashFunction d = Ret d' → dict_ok d' ∧ ahead d'.
Proof. intros Hd Ha E. destruct (needed_ahead d Hd Ha) as (d1 & E1 & Hd1 & _ & Ha1). rewrite E in E1. by simplify_eq. Qed.

Lemma expand_ahead d sz d' b : dict_ok d → ahead d → dictExpand d sz = Ret (d', b) → ahead d'.
Proof.
  intros Hd Ha E. unfold dictExpand in E. destruct (dictNextPower sz) as [n|]; [|discriminate E]. simpl in E.
  destruct (dictIsRehashing d || _) eqn:ER; [by simplify_eq|]. apply orb_false_iff in ER as [ER _].
  case_bool_decide; [by simplify_eq|]. case_bool_decide as Ht; simplify_eq; intros E'; simpl in *.
  - unfold dictIsRehashing in *. simpl in E'. congruence.
  - rewrite (hk_size _ (dk_0 d Hd)). destruct (table (ht0 d)); [done|simpl; lia].
Qed.

Lemma set_ahead d t h : ahead d → size h = size (get_ht d t) → ahead (set_ht d t h).
Proof. intros Ha E ER. destruct t; simpl in *; [exact (Ha ER)|]. rewrite E. exact (Ha ER). Qed.

Lemma update_size (h : dictht K V) i f n h' : update_chain h i f n = Ret h' → size h' = size h.
Proof. unfold update_chain. intros E. out_inv E. by simplify_eq. Qed.

Lemma add_ahead can d k v d' s : dict_ok d → ahead d → dictAddRaw hashFunction keyCompare can d k v = Ret (d', s) → ahead d'.
Proof.
  intros Hd Ha E. unfold dictAddRaw in E. destruct (rehash_if_needed hashFunction d) as [d1|] eqn:E1; [|discriminate E]. simpl in E.
  destruct (needed_keeps d d1 Hd Ha E1) as [Hd1 Ha1]. unfold dictKeyIndex in E.
  destruct (dictExpandIfNeeded can d1) as [[d2 ok]|] eqn:E2; [|discriminate E]. simpl in E.
  assert (ahead d2) as Ha2.
  { unfold dictExpandIfNeeded in E2. destruct (dictIsRehashing d1); [by simplify_eq|].
    case_bool_decide; [exact (expand_ahead _ _ _ _ Hd1 Ha1 E2)|]. destruct (_ && _); [exact (expand_ahead _ _ _ _ Hd1 Ha1 E2)|by simplify_eq]. }
  destruct ok; simpl in E; [|by simplify_eq]. destruct (find_both hashFunction keyCompare d2 k) as [[[[[t b] i] e]|]|]; simpl in E; [by simplify_eq| |discriminate E].
  destruct (push _ _ _) as [h|] eqn:Eh; [|discriminate E]. simpl in E. simplify_eq. apply set_ahead; [done|]. by apply push_size in Eh.
Qed.

Lemma dict_step_ahead d o d' r : dict_ok d → ahead d → dict_step hashFunction keyCompare d o = Ret (d', r) → ahead d'.
Proof.
  intros Hd Ha E. destruct o as [k|can k v|can k v|k|n|can| |]; simpl in E.
  - unfold dictFind in E. case_bool_decide; [by simplify_eq/=|].
    destruct (rehash_if_needed hashFunction d) as [d1|] eqn:E1; [|discriminate E]. simpl in E. destruct (find_both _ _ d1 k); [|discriminate E]. simplify_eq/=. exact (proj2 (needed_keeps _ _ Hd Ha E1)).
  - unfold dictAdd in E. destruct (dictAddRaw _ _ can d k v) as [[d1 s]|] eqn:E1; [|discriminate E]. simplify_eq/=. by eapply add_ahead.
  - unfold dictReplace in E. destruct (dictAddRaw _ _ can d k v) as [[d1 s]|] eqn:E1; [|discriminate E]. simpl in E.
    assert (ahead d1) as Ha1 by (by eapply add_ahead). destruct s as [i|t b i e|]; [by simplify_eq/=| |discriminate E].
    destruct (update_chain _ _ _ _) as [h|] eqn:Eh; [|discriminate E]. simplify_eq/=. apply set_ahead; [done|]. by apply update_size in Eh.
  - unfold dictUnlink, dictGenericDelete in E. destruct (_ && _); [by simplify_eq/=|].
    destruct (rehash_if_needed hashFunction d) as [d1|] eqn:E1; [|discriminate E]. simpl in E. destruct (needed_keeps d d1 Hd Ha E1) as [_ Ha1].
    destruct (find_both _ _ d1 k) as [[[[[t b] i] e]|]|]; simpl in E; [|by simplify_eq/=|discriminate E].
    destruct (update_chain _ _ _ _) as [h|] eqn:Eh; [|discriminate E]. simplify_eq/=. apply set_ahead; [done|]. by apply update_size in Eh.
  - destruct (dictRehash hashFunction d (S n)) as [[d1 b]|] eqn:E1; [|discriminate E]. simplify_eq/=. exact (proj2 (rehash_ahead d (S n) _ _ Hd (Nat.neq_succ_0 n) E1)).
  - destruct (dictResize can d) as [[d1 b]|] eqn:E1; [|discriminate E]. simplify_eq/=. unfold dictResize in E1.
    destruct (_ || _); [by simplify_eq|]. exact (expand_ahead _ _ _ _ Hd Ha E1).
  - by simplify_eq.
  - by simplify_eq.
Qed.

(** However long it takes, the entries stay; with as many rounds as the old table has
    buckets it is done. *)
Lemma rehash_rounds_spec steps n : ∀ d rehashes,
  steps ≠ 0 → dict_ok d →
  ∃ d' r, rehash_rounds hashFunction steps n d rehashes = Ret (d', r) ∧ dict_ok d' ∧ entries d' ≡ₚ entries d
    ∧ ((dictIsRehashing d = true → size (ht0 d) - rehashidx d ≤ Z.of_nat n)%Z → dictIsRehashing d' = false).
Proof.
  induction n as [|n IH]; intros d rehashes Hs Hd; cbn [rehash_rounds];
    destruct (dictRehash_spec d steps Hd Hs) as (d2 & b2 & E1 & Hd1 & HE & _ & Hp); rewrite E1; bind_red.
  - assert ((dictIsRehashing d = true → size (ht0 d) - rehashidx d ≤ 0)%Z → dictIsRehashing d2 = false) as Hc.
    { intros Hn. destruct (dictIsRehashing d2) eqn:ER; [|done]. destruct (Hp eq_refl) as (ER0 & Hz & Hlt). specialize (Hn ER0). lia. }
    destruct b2; by eexists _, _.
  - assert (b2 = false → dictIsRehashing d2 = false) as Hb.
    { intros ->. unfold dictRehash in E1. destruct (dictIsRehashing d) eqn:ER; cbn [negb] in E1; [|by simplify_eq].
      destruct (rehash_loop _ _ _ _) as [[d3 done3]|]; [|discriminate E1]. cbn [mbind] in E1. destruct done3; [|discriminate E1].
      simpl in E1. case_bool_decide; [by simplify_eq|discriminate E1]. }
    destruct b2; [|eexists _, _; split; [done|]; split; [done|]; split; [done|]; auto].
    destruct (IH d2 (rehashes + Z.of_nat steps)%Z Hs Hd1) as (d' & r & E & Hd' & HE' & Hn'). exists d', r. split; [done|]. split; [done|].
    split; [by rewrite HE'|]. intros Hn. apply Hn'. intros ER. destruct (Hp ER) as (ER0 & Hz & Hlt). specialize (Hn ER0). lia.
Qed.

(** *** Samples *)

Definition sound d (count : Z) (st : sampling (K := K) (V := V)) : Prop :=
  (0 ≤ sm_i st)%Z ∧ (Z.of_nat (length (sm_des st)) ≤ count)%Z ∧ Forall (λ e, e ∈ entries d) (sm_des st).

Lemma visit_sound rnd d tables m count st j :
  dict_ok d → (∀ k, 0 ≤ rnd k)%Z → (0 ≤ rehashidx d)%Z ∨ tables = 1%Z → sound d count st →
  ∃ st', visit rnd d tables m count st j = Ret st' ∧ sound d count st'.
Proof.
  intros Hd Hr Ht (Hi & Hl & Hf). unfold visit. destruct (sm_done st); [by exists st|].
  destruct (bool_decide (tables = 2)%Z && negb j && _) eqn:Eg.
  { apply andb_true_iff in Eg as [[Et%bool_decide_eq_true _]%andb_true_iff _]. eexists. split; [done|]. case_bool_decide; [|done].
    split; [simpl; lia|done]. }
  destruct (bool_decide (sm_i st >= size (get_ht d j))%Z) eqn:Hs; [by exists st|]. apply bool_decide_eq_false in Hs. assert (ht_ok (get_ht d j)) as Hh by (destruct j; [apply (dk_1 d Hd)|apply (dk_0 d Hd)]).
  destruct (bucket_at (get_ht d j) (sm_i st) Hh) as (c & -> & Hc); [lia|]. bind_red. destruct c as [|e c].
  - destruct (bool_decide (sm_empty st + 1 >= 5)%Z && _); (eexists; split; [reflexivity|]); [|done].
    split; [|done]. simpl. apply Z.land_nonneg. left. apply Hr.
  - eexists. split; [done|]. split; [done|]. cbn [sm_des]. rewrite length_app, length_take. split; [lia|]. apply Forall_app. split; [done|].
    apply Forall_forall. intros x Hx. apply (bucket_entries d j _ (e :: c) x Hc). apply elem_of_take in Hx as (k & Hx & _). by apply list_elem_of_lookup_2 in Hx.
Qed.

Lemma visits_sound rnd d tables m count js : ∀ st,
  dict_ok d → (∀ k, 0 ≤ rnd k)%Z → (0 ≤ rehashidx d)%Z ∨ tables = 1%Z → sound d count st →
  ∃ st', out_fold (visit rnd d tables m count) st js = Ret st' ∧ sound d count st'.
Proof.
  induction js as [|j js IH]; intros st Hd Hr Ht Hs; cbn [out_fold]; [by exists st|].
  destruct (visit_sound rnd d tables m count st j Hd Hr Ht Hs) as (st1 & -> & H1). bind_red. by apply IH.
Qed.

Lemma sample_loop_sound rnd d tables m count steps : ∀ st,
  dict_ok d → (∀ k, 0 ≤ rnd k)%Z → (0 ≤ rehashidx d)%Z ∨ tables = 1%Z → sound d count st →
  ∃ st', sample_loop rnd steps d tables m count st = Ret st' ∧ sound d count st'.
Proof.
  induction steps as [|steps IH]; intros st Hd Hr Ht Hs; cbn [sample_loop]; [by exists st|].
  destruct (negb _); [by exists st|]. destruct (visits_sound rnd d tables m count (if bool_decide (tables = 2)%Z then [false; true] else [false]) st Hd Hr Ht Hs)
    as (st1 & -> & H1). bind_red. destruct (sm_done st1); [by exists st1|]. apply IH; [done|done|done|].
  destruct H1 as (Hi & Hl & Hf). split; [|done]. simpl. apply Z.land_nonneg. left. lia.
Qed.

Lemma rehash_some_spec n : ∀ d,
  dict_ok d → ahead d → ∃ d', rehash_some hashFunction n d = Ret d' ∧ dict_ok d' ∧ entries d' ≡ₚ entries d ∧ ahead d'.
Proof.
  induction n as [|n IH]; intros d Hd Ha; cbn [rehash_some]; [by exists d|]. destruct (dictIsRehashing d); [|by exists d].
  destruct (step_ahead d Hd Ha) as (d1 & -> & Hd1 & HE1 & Ha1). bind_red. destruct (IH d1 Hd1 Ha1) as (d2 & E & Hd2 & HE2 & Ha2).
  exists d2. split_and!; [done|done|by rewrite HE2|done].
Qed.

(** A sample ends, consists of entries, and has at most the number asked for. *)
Lemma some_keys rnd d count :
  dict_ok d → ahead d → (∀ k, 0 ≤ rnd k)%Z → (0 ≤ count)%Z →
  ∃ d' l, dictGetSomeKeys hashFunction rnd d count = Ret (d', l) ∧ dict_ok d' ∧ entries d' ≡ₚ entries d
    ∧ (Z.of_nat (length l) ≤ count)%Z ∧ Forall (λ e, e ∈ entries d) l.
Proof.
  intros Hd Ha Hr Hc. unfold dictGetSomeKeys. set (n := if bool_decide (dictSize d < count)%Z then dictSize d else count).
  assert (0 ≤ n ≤ count)%Z as Hn by (unfold n; case_bool_decide; [rewrite (dictSize_entries d Hd) in *; lia|lia]).
  destruct (rehash_some_spec (Z.to_nat n) d Hd Ha) as (d' & -> & Hd' & HE & Ha'). bind_red. set (tables := if dictIsRehashing d' then 2%Z else 1%Z). set (m := if _ && _ then _ else _).
  assert (0 ≤ rehashidx d' ∨ tables = 1)%Z as Ht by (unfold tables; destruct (dictIsRehashing d') eqn:ER; [left; exact (rehashing_idx d' Hd' ER)|by right]).
  edestruct (sample_loop_sound rnd d' tables m n (Z.to_nat (n * 10)) (mk_sm (Z.land (rnd 0) m) 0 [] 1 false))
    as (st & -> & (_ & Hl & Hf)); [done|done|done| |].
  - split; [apply Z.land_nonneg; left; apply Hr|]. split; [simpl; lia|by apply Forall_nil].
  - bind_red. exists d', (sm_des st). split_and!; [done|done|done|lia|]. eapply Forall_impl; [exact Hf|]. intros e He. cbv beta in *. by rewrite <-HE.
Qed.
End sampling.

(** ** Examples *)

(** A table of eight buckets that is being made smaller, with rehashing held up by an
    iterator at bucket 6, where the only entry is. *)
Definition shrinking : dict nat bool :=
  mk_dict (mk_ht ((replicate 6 []) ++ [[(6, true)]; []]) 8 7 1) (mk_ht (replicate 4 []) 4 3 0) 6 1.

(** A sample that begins at bucket 0 goes round and round and misses the entry: the jump
    to [rehashidx] is followed by [continue], so that this bucket is not looked at. *)
Lemma sample_misses :
  dictSize shrinking = 1%Z
  ∧ dictGetSomeKeys (λ k : nat, Z.of_nat k mod 2 ^ 64)%Z (λ _, 0%Z) shrinking 1 = Ret (shrinking, []).
Proof. vm_compute. done. Qed.

(** A random key finds it. *)
Lemma random_finds :
  dictGetRandomKey (λ k : nat, Z.of_nat k mod 2 ^ 64)%Z (λ k, Z.of_nat k) 10 shrinking = Ret (shrinking, Key (6, true)).
Proof. vm_compute. done. Qed.

(** The rehashing table of DictMap. *)
Lemma sample_run :
  ∃ d l, dictGetSomeKeys (λ k : nat, Z.of_nat k mod 2 ^ 64)%Z (λ k, Z.of_nat k) rehashing_sample 3 = Ret (d, l)
    ∧ (Z.of_nat (length l) ≤ 3)%Z ∧ Forall (λ e, e ∈ entries rehashing_sample) l.
Proof.
  destruct (some_keys (canon := λ k : nat, k) (valid := λ _, True) (λ k, Z.of_nat k) rehashing_sample 3 rehashing_sample_ok)
    as (d & l & E & _ & _ & H1 & H2); [intros _; vm_compute; reflexivity|lia|lia|]. exists d, l. exact (conj E (conj H1 H2)).
Qed.
