(* ===== verification/Table.v ===== *)
(** * The command table

    The table of all commands (src/src/server.c), with the C names of the
    functions it points to, and how [populateCommandTable] fills the hash tables
    in which commands are looked up without regard to case.  The hash function of
    these tables is a parameter: it maps a string to 64 bits, and strings that differ
    in case only to the same bits (siphash_nocase). *)
From Stdlib Require Import Ascii.
From stdpp Require Import gmap.
From S2P Require Import Prelude Sds GraphText Locate Util Args Resp Call Dict DictMap.

(** A row: functions are given by their names in the source. *)
Record redisCommand := mk_cmd {
  name : bytes; proc : bytes; arity : Z; sflags : bytes; getkeys_proc : option bytes; otproc : option bytes;
  firstkey : Z; lastkey : Z; keystep : Z }.

Notation no_proc := (@None bytes).

Definition CMD_WRITE : Z := Z.shiftl 1 0.
Definition CMD_READONLY : Z := Z.shiftl 1 1.
Definition CMD_DENYOOM : Z := Z.shiftl 1 2.
Definition CMD_ADMIN : Z := Z.shiftl 1 4.
Definition CMD_PUBSUB : Z := Z.shiftl 1 5.
Definition CMD_NOSCRIPT : Z := Z.shiftl 1 6.
Definition CMD_RANDOM : Z := Z.shiftl 1 7.
Definition CMD_SORT_FOR_SCRIPT : Z := Z.shiftl 1 8.
Definition CMD_LOADING : Z := Z.shiftl 1 9.
Definition CMD_STALE : Z := Z.shiftl 1 10.
Definition CMD_SKIP_MONITOR : Z := Z.shiftl 1 11.
Definition CMD_ASKING : Z := Z.shiftl 1 12.
Definition CMD_FAST : Z := Z.shiftl 1 13.

Open Scope Z_scope.

Definition redisCommandTable : list redisCommand := [
  mk_cmd (str "find") (str "findCommand") 3 (str "r") no_proc no_proc 0 0 0;
  mk_cmd (str "umembers") (str "umembersCommand") 2 (str "r") no_proc no_proc 0 0 0;
  mk_cmd (str "test") (str "testCommand") (-1) (str "r") no_proc no_proc 0 0 0;
  mk_cmd (str "union") (str "unionCommand") (-1) (str "r") no_proc (Some (str "otUfs")) 0 0 0;
  mk_cmd (str "split") (str "splitCommand") (-1) (str "r") no_proc (Some (str "otUfs")) 0 0 0;
  mk_cmd (str "uinit") (str "uinitCommand") 3 (str "r") no_proc no_proc 0 0 0;
  mk_cmd (str "module") (str "moduleCommand") (-2) (str "as") no_proc no_proc 0 0 0;
  mk_cmd (str "get") (str "getCommand") 2 (str "rF") no_proc no_proc 1 1 1;
  mk_cmd (str "set") (str "setCommand") (-3) (str "wm") no_proc no_proc 1 1 1;
  mk_cmd (str "setnx") (str "setnxCommand") 3 (str "wmF") no_proc no_proc 1 1 1;
  mk_cmd (str "setex") (str "setexCommand") 4 (str "wm") no_proc no_proc 1 1 1;
  mk_cmd (str "psetex") (str "psetexCommand") 4 (str "wm") no_proc no_proc 1 1 1;
  mk_cmd (str "append") (str "appendCommand") 3 (str "wm") no_proc no_proc 1 1 1;
  mk_cmd (str "strlen") (str "strlenCommand") 2 (str "rF") no_proc no_proc 1 1 1;
  mk_cmd (str "del") (str "delCommand") (-2) (str "w") no_proc no_proc 1 (-1) 1;
  mk_cmd (str "unlink") (str "unlinkCommand") (-2) (str "wF") no_proc no_proc 1 (-1) 1;
  mk_cmd (str "exists") (str "existsCommand") (-2) (str "rF") no_proc no_proc 1 (-1) 1;
  mk_cmd (str "setbit") (str "setbitCommand") 4 (str "wm") no_proc no_proc 1 1 1;
  mk_cmd (str "getbit") (str "getbitCommand") 3 (str "rF") no_proc no_proc 1 1 1;
  mk_cmd (str "bitfield") (str "bitfieldCommand") (-2) (str "wm") no_proc no_proc 1 1 1;
  mk_cmd (str "setrange") (str "setrangeCommand") 4 (str "wm") no_proc no_proc 1 1 1;
  mk_cmd (str "getrange") (str "getrangeCommand") 4 (str "r") no_proc no_proc 1 1 1;
  mk_cmd (str "substr") (str "getrangeCommand") 4 (str "r") no_proc no_proc 1 1 1;
  mk_cmd (str "incr") (str "incrCommand") 2 (str "wmF") no_proc no_proc 1 1 1;
  mk_cmd (str "decr") (str "decrCommand") 2 (str "wmF") no_proc no_proc 1 1 1;
  mk_cmd (str "mget") (str "mgetCommand") (-2) (str "rF") no_proc no_proc 1 (-1) 1;
  mk_cmd (str "rpush") (str "rpushCommand") (-3) (str "wmF") no_proc no_proc 1 1 1;
  mk_cmd (str "lpush") (str "lpushCommand") (-3) (str "wmF") no_proc no_proc 1 1 1;
  mk_cmd (str "rpushx") (str "rpushxCommand") (-3) (str "wmF") no_proc no_proc 1 1 1;
  mk_cmd (str "lpushx") (str "lpushxCommand") (-3) (str "wmF") no_proc no_proc 1 1 1;
  mk_cmd (str "linsert") (str "linsertCommand") 5 (str "wm") no_proc no_proc 1 1 1;
  mk_cmd (str "rpop") (str "rpopCommand") 2 (str "wF") no_proc no_proc 1 1 1;
  mk_cmd (str "lpop") (str "lpopCommand") 2 (str "wF") no_proc no_proc 1 1 1;
  mk_cmd (str "brpop") (str "brpopCommand") (-3) (str "ws") no_proc no_proc 1 (-2) 1;
  mk_cmd (str "brpoplpush") (str "brpoplpushCommand") 4 (str "wms") no_proc no_proc 1 2 1;
  mk_cmd (str "blpop") (str "blpopCommand") (-3) (str "ws") no_proc no_proc 1 (-2) 1;
  mk_cmd (str "llen") (str "llenCommand") 2 (str "rF") no_proc no_proc 1 1 1;
  mk_cmd (str "lindex") (str "lindexCommand") 3 (str "r") no_proc no_proc 1 1 1;
  mk_cmd (str "lset") (str "lsetCommand") 4 (str "wm") no_proc no_proc 1 1 1;
  mk_cmd (str "lrange") (str "lrangeCommand") 4 (str "r") no_proc no_proc 1 1 1;
  mk_cmd (str "ltrim") (str "ltrimCommand") 4 (str "w") no_proc no_proc 1 1 1;
  mk_cmd (str "lrem") (str "lremCommand") 4 (str "w") no_proc no_proc 1 1 1;
  mk_cmd (str "rpoplpush") (str "rpoplpushCommand") 3 (str "wm") no_proc no_proc 1 2 1;
  mk_cmd (str "sadd") (str "saddCommand") (-3) (str "wmF") no_proc no_proc 1 1 1;
  mk_cmd (str "srem") (str "sremCommand") (-3) (str "wF") no_proc no_proc 1 1 1;
  mk_cmd (str "smove") (str "smoveCommand") 4 (str "wF") no_proc no_proc 1 2 1;
  mk_cmd (str "sismember") (str "sismemberCommand") 3 (str "rF") no_proc no_proc 1 1 1;
  mk_cmd (str "scard") (str "scardCommand") 2 (str "rF") no_proc no_proc 1 1 1;
  mk_cmd (str "spop") (str "spopCommand") (-2) (str "wRF") no_proc no_proc 1 1 1;
  mk_cmd (str "srandmember") (str "srandmemberCommand") (-2) (str "rR") no_proc no_proc 1 1 1;
  mk_cmd (str "sinter") (str "sinterCommand") (-2) (str "rS") no_proc no_proc 1 (-1) 1;
  mk_cmd (str "sinterstore") (str "sinterstoreCommand") (-3) (str "wm") no_proc no_proc 1 (-1) 1;
  mk_cmd (str "sunion") (str "sunionCommand") (-2) (str "rS") no_proc no_proc 1 (-1) 1;
  mk_cmd (str "sunionstore") (str "sunionstoreCommand") (-3) (str "wm") no_proc no_proc 1 (-1) 1;
  mk_cmd (str "sdiff") (str "sdiffCommand") (-2) (str "rS") no_proc no_proc 1 (-1) 1;
  mk_cmd (str "sdiffstore") (str "sdiffstoreCommand") (-3) (str "wm") no_proc no_proc 1 (-1) 1;
  mk_cmd (str "smembers") (str "sinterCommand") 2 (str "rS") no_proc no_proc 1 1 1;
  mk_cmd (str "sscan") (str "sscanCommand") (-3) (str "rR") no_proc no_proc 1 1 1;
  mk_cmd (str "zadd") (str "zaddCommand") (-4) (str "wmF") no_proc no_proc 1 1 1;
  mk_cmd (str "zincrby") (str "zincrbyCommand") 4 (str "wmF") no_proc no_proc 1 1 1;
  mk_cmd (str "zrem") (str "zremCommand") (-3) (str "wF") no_proc no_proc 1 1 1;
  mk_cmd (str "zremrangebyscore") (str "zremrangebyscoreCommand") 4 (str "w") no_proc no_proc 1 1 1;
  mk_cmd (str "zremrangebyrank") (str "zremrangebyrankCommand") 4 (str "w") no_proc no_proc 1 1 1;
  mk_cmd (str "zremrangebylex") (str "zremrangebylexCommand") 4 (str "w") no_proc no_proc 1 1 1;
  mk_cmd (str "zunionstore") (str "zunionstoreCommand") (-4) (str "wm") (Some (str "zunionInterGetKeys")) no_proc 0 0 0;
  mk_cmd (str "zinterstore") (str "zinterstoreCommand") (-4) (str "wm") (Some (str "zunionInterGetKeys")) no_proc 0 0 0;
  mk_cmd (str "zrange") (str "zrangeCommand") (-4) (str "r") no_proc no_proc 1 1 1;
  mk_cmd (str "zrangebyscore") (str "zrangebyscoreCommand") (-4) (str "r") no_proc no_proc 1 1 1;
  mk_cmd (str "zrevrangebyscore") (str "zrevrangebyscoreCommand") (-4) (str "r") no_proc no_proc 1 1 1;
  mk_cmd (str "zrangebylex") (str "zrangebylexCommand") (-4) (str "r") no_proc no_proc 1 1 1;
  mk_cmd (str "zrevrangebylex") (str "zrevrangebylexCommand") (-4) (str "r") no_proc no_proc 1 1 1;
  mk_cmd (str "zcount") (str "zcountCommand") 4 (str "rF") no_proc no_proc 1 1 1;
  mk_cmd (str "zlexcount") (str "zlexcountCommand") 4 (str "rF") no_proc no_proc 1 1 1;
  mk_cmd (str "zrevrange") (str "zrevrangeCommand") (-4) (str "r") no_proc no_proc 1 1 1;
  mk_cmd (str "zcard") (str "zcardCommand") 2 (str "rF") no_proc no_proc 1 1 1;
  mk_cmd (str "zscore") (str "zscoreCommand") 3 (str "rF") no_proc no_proc 1 1 1;
  mk_cmd (str "zrank") (str "zrankCommand") 3 (str "rF") no_proc no_proc 1 1 1;
  mk_cmd (str "zrevrank") (str "zrevrankCommand") 3 (str "rF") no_proc no_proc 1 1 1;
  mk_cmd (str "zscan") (str "zscanCommand") (-3) (str "rR") no_proc no_proc 1 1 1;
  mk_cmd (str "hset") (str "hsetCommand") (-4) (str "wmF") no_proc no_proc 1 1 1;
  mk_cmd (str "hsetnx") (str "hsetnxCommand") 4 (str "wmF") no_proc no_proc 1 1 1;
  mk_cmd (str "hget") (str "hgetCommand") 3 (str "rF") no_proc no_proc 1 1 1;
  mk_cmd (str "hmset") (str "hsetCommand") (-4) (str "wmF") no_proc no_proc 1 1 1;
  mk_cmd (str "hmget") (str "hmgetCommand") (-3) (str "rF") no_proc no_proc 1 1 1;
  mk_cmd (str "hincrby") (str "hincrbyCommand") 4 (str "wmF") no_proc no_proc 1 1 1;
  mk_cmd (str "hincrbyfloat") (str "hincrbyfloatCommand") 4 (str "wmF") no_proc no_proc 1 1 1;
  mk_cmd (str "hdel") (str "hdelCommand") (-3) (str "wF") no_proc no_proc 1 1 1;
  mk_cmd (str "hlen") (str "hlenCommand") 2 (str "rF") no_proc no_proc 1 1 1;
  mk_cmd (str "hstrlen") (str "hstrlenCommand") 3 (str "rF") no_proc no_proc 1 1 1;
  mk_cmd (str "hkeys") (str "hkeysCommand") 2 (str "rS") no_proc no_proc 1 1 1;
  mk_cmd (str "hvals") (str "hvalsCommand") 2 (str "rS") no_proc no_proc 1 1 1;
  mk_cmd (str "hgetall") (str "hgetallCommand") 2 (str "r") no_proc no_proc 1 1 1;
  mk_cmd (str "hexists") (str "hexistsCommand") 3 (str "rF") no_proc no_proc 1 1 1;
  mk_cmd (str "hscan") (str "hscanCommand") (-3) (str "rR") no_proc no_proc 1 1 1;
  mk_cmd (str "incrby") (str "incrbyCommand") 3 (str "wmF") no_proc no_proc 1 1 1;
  mk_cmd (str "decrby") (str "decrbyCommand") 3 (str "wmF") no_proc no_proc 1 1 1;
  mk_cmd (str "incrbyfloat") (str "incrbyfloatCommand") 3 (str "wmF") no_proc no_proc 1 1 1;
  mk_cmd (str "getset") (str "getsetCommand") 3 (str "wm") no_proc no_proc 1 1 1;
  mk_cmd (str "mset") (str "msetCommand") (-3) (str "wm") no_proc no_proc 1 (-1) 2;
  mk_cmd (str "msetnx") (str "msetnxCommand") (-3) (str "wm") no_proc no_proc 1 (-1) 2;
  mk_cmd (str "randomkey") (str "randomkeyCommand") 1 (str "rR") no_proc no_proc 0 0 0;
  mk_cmd (str "select") (str "selectCommand") 2 (str "lF") no_proc no_proc 0 0 0;
  mk_cmd (str "swapdb") (str "swapdbCommand") 3 (str "wF") no_proc no_proc 0 0 0;
  mk_cmd (str "move") (str "moveCommand") 3 (str "wF") no_proc no_proc 1 1 1;
  mk_cmd (str "rename") (str "renameCommand") 3 (str "w") no_proc no_proc 1 2 1;
  mk_cmd (str "renamenx") (str "renamenxCommand") 3 (str "wF") no_proc no_proc 1 2 1;
  mk_cmd (str "expire") (str "expireCommand") 3 (str "wF") no_proc no_proc 1 1 1;
  mk_cmd (str "expireat") (str "expireatCommand") 3 (str "wF") no_proc no_proc 1 1 1;
  mk_cmd (str "pexpire") (str "pexpireCommand") 3 (str "wF") no_proc no_proc 1 1 1;
  mk_cmd (str "pexpireat") (str "pexpireatCommand") 3 (str "wF") no_proc no_proc 1 1 1;
  mk_cmd (str "keys") (str "keysCommand") 2 (str "rS") no_proc no_proc 0 0 0;
  mk_cmd (str "scan") (str "scanCommand") (-2) (str "rR") no_proc no_proc 0 0 0;
  mk_cmd (str "dbsize") (str "dbsizeCommand") 1 (str "rF") no_proc no_proc 0 0 0;
  mk_cmd (str "auth") (str "authCommand") 2 (str "sltF") no_proc no_proc 0 0 0;
  mk_cmd (str "ping") (str "pingCommand") (-1) (str "tF") no_proc no_proc 0 0 0;
  mk_cmd (str "echo") (str "echoCommand") 2 (str "F") no_proc no_proc 0 0 0;
  mk_cmd (str "save") (str "saveCommand") 1 (str "as") no_proc no_proc 0 0 0;
  mk_cmd (str "bgsave") (str "bgsaveCommand") (-1) (str "a") no_proc no_proc 0 0 0;
  mk_cmd (str "bgrewriteaof") (str "bgrewriteaofCommand") 1 (str "a") no_proc no_proc 0 0 0;
  mk_cmd (str "shutdown") (str "shutdownCommand") (-1) (str "alt") no_proc no_proc 0 0 0;
  mk_cmd (str "lastsave") (str "lastsaveCommand") 1 (str "RF") no_proc no_proc 0 0 0;
  mk_cmd (str "type") (str "typeCommand") 2 (str "rF") no_proc no_proc 1 1 1;
  mk_cmd (str "multi") (str "multiCommand") 1 (str "sF") no_proc no_proc 0 0 0;
  mk_cmd (str "exec") (str "execCommand") 1 (str "sM") no_proc no_proc 0 0 0;
  mk_cmd (str "discard") (str "discardCommand") 1 (str "sF") no_proc no_proc 0 0 0;
  mk_cmd (str "sync") (str "syncCommand") 1 (str "ars") no_proc no_proc 0 0 0;
  mk_cmd (str "psync") (str "syncCommand") 3 (str "ars") no_proc no_proc 0 0 0;
  mk_cmd (str "replconf") (str "replconfCommand") (-1) (str "aslt") no_proc no_proc 0 0 0;
  mk_cmd (str "flushdb") (str "flushdbCommand") (-1) (str "w") no_proc no_proc 0 0 0;
  mk_cmd (str "flushall") (str "flushallCommand") (-1) (str "w") no_proc no_proc 0 0 0;
  mk_cmd (str "sort") (str "sortCommand") (-2) (str "wm") (Some (str "sortGetKeys")) no_proc 1 1 1;
  mk_cmd (str "info") (str "infoCommand") (-1) (str "lt") no_proc no_proc 0 0 0;
  mk_cmd (str "monitor") (str "monitorCommand") 1 (str "as") no_proc no_proc 0 0 0;
  mk_cmd (str "ttl") (str "ttlCommand") 2 (str "rF") no_proc no_proc 1 1 1;
  mk_cmd (str "touch") (str "touchCommand") (-2) (str "rF") no_proc no_proc 1 1 1;
  mk_cmd (str "pttl") (str "pttlCommand") 2 (str "rF") no_proc no_proc 1 1 1;
  mk_cmd (str "persist") (str "persistCommand") 2 (str "wF") no_proc no_proc 1 1 1;
  mk_cmd (str "slaveof") (str "slaveofCommand") 3 (str "ast") no_proc no_proc 0 0 0;
  mk_cmd (str "role") (str "roleCommand") 1 (str "lst") no_proc no_proc 0 0 0;
  mk_cmd (str "debug") (str "debugCommand") (-1) (str "as") no_proc no_proc 0 0 0;
  mk_cmd (str "config") (str "configCommand") (-2) (str "lat") no_proc no_proc 0 0 0;
  mk_cmd (str "subscribe") (str "subscribeCommand") (-2) (str "pslt") no_proc no_proc 0 0 0;
  mk_cmd (str "unsubscribe") (str "unsubscribeCommand") (-1) (str "pslt") no_proc no_proc 0 0 0;
  mk_cmd (str "psubscribe") (str "psubscribeCommand") (-2) (str "pslt") no_proc no_proc 0 0 0;
  mk_cmd (str "punsubscribe") (str "punsubscribeCommand") (-1) (str "pslt") no_proc no_proc 0 0 0;
  mk_cmd (str "publish") (str "publishCommand") 3 (str "pltF") no_proc no_proc 0 0 0;
  mk_cmd (str "pubsub") (str "pubsubCommand") (-2) (str "pltR") no_proc no_proc 0 0 0;
  mk_cmd (str "watch") (str "watchCommand") (-2) (str "sF") no_proc no_proc 1 (-1) 1;
  mk_cmd (str "unwatch") (str "unwatchCommand") 1 (str "sF") no_proc no_proc 0 0 0;
  mk_cmd (str "cluster") (str "clusterCommand") (-2) (str "a") no_proc no_proc 0 0 0;
  mk_cmd (str "restore") (str "restoreCommand") (-4) (str "wm") no_proc no_proc 1 1 1;
  mk_cmd (str "restore-asking") (str "restoreCommand") (-4) (str "wmk") no_proc no_proc 1 1 1;
  mk_cmd (str "migrate") (str "migrateCommand") (-6) (str "w") (Some (str "migrateGetKeys")) no_proc 0 0 0;
  mk_cmd (str "asking") (str "askingCommand") 1 (str "F") no_proc no_proc 0 0 0;
  mk_cmd (str "readonly") (str "readonlyCommand") 1 (str "F") no_proc no_proc 0 0 0;
  mk_cmd (str "readwrite") (str "readwriteCommand") 1 (str "F") no_proc no_proc 0 0 0;
  mk_cmd (str "dump") (str "dumpCommand") 2 (str "r") no_proc no_proc 1 1 1;
  mk_cmd (str "object") (str "objectCommand") (-2) (str "r") no_proc no_proc 2 2 2;
  mk_cmd (str "memory") (str "memoryCommand") (-2) (str "r") no_proc no_proc 0 0 0;
  mk_cmd (str "client") (str "clientCommand") (-2) (str "as") no_proc no_proc 0 0 0;
  mk_cmd (str "eval") (str "evalCommand") (-3) (str "s") (Some (str "evalGetKeys")) no_proc 0 0 0;
  mk_cmd (str "evalsha") (str "evalShaCommand") (-3) (str "s") (Some (str "evalGetKeys")) no_proc 0 0 0;
  mk_cmd (str "slowlog") (str "slowlogCommand") (-2) (str "a") no_proc no_proc 0 0 0;
  mk_cmd (str "script") (str "scriptCommand") (-2) (str "s") no_proc no_proc 0 0 0;
  mk_cmd (str "time") (str "timeCommand") 1 (str "RF") no_proc no_proc 0 0 0;
  mk_cmd (str "bitop") (str "bitopCommand") (-4) (str "wm") no_proc no_proc 2 (-1) 1;
  mk_cmd (str "bitcount") (str "bitcountCommand") (-2) (str "r") no_proc no_proc 1 1 1;
  mk_cmd (str "bitpos") (str "bitposCommand") (-3) (str "r") no_proc no_proc 1 1 1;
  mk_cmd (str "wait") (str "waitCommand") 3 (str "s") no_proc no_proc 0 0 0;
  mk_cmd (str "command") (str "commandCommand") 0 (str "lt") no_proc no_proc 0 0 0;
  mk_cmd (str "geoadd") (str "geoaddCommand") (-5) (str "wm") no_proc no_proc 1 1 1;
  mk_cmd (str "georadius") (str "georadiusCommand") (-6) (str "w") (Some (str "georadiusGetKeys")) no_proc 1 1 1;
  mk_cmd (str "georadius_ro") (str "georadiusroCommand") (-6) (str "r") (Some (str "georadiusGetKeys")) no_proc 1 1 1;
  mk_cmd (str "georadiusbymember") (str "georadiusbymemberCommand") (-5) (str "w") (Some (str "georadiusGetKeys")) no_proc 1 1 1;
  mk_cmd (str "georadiusbymember_ro") (str "georadiusbymemberroCommand") (-5) (str "r") (Some (str "georadiusGetKeys")) no_proc 1 1 1;
  mk_cmd (str "geohash") (str "geohashCommand") (-2) (str "r") no_proc no_proc 1 1 1;
  mk_cmd (str "geopos") (str "geoposCommand") (-2) (str "r") no_proc no_proc 1 1 1;
  mk_cmd (str "geodist") (str "geodistCommand") (-4) (str "r") no_proc no_proc 1 1 1;
  mk_cmd (str "pfselftest") (str "pfselftestCommand") 1 (str "a") no_proc no_proc 0 0 0;
  mk_cmd (str "pfadd") (str "pfaddCommand") (-2) (str "wmF") no_proc no_proc 1 1 1;
  mk_cmd (str "pfcount") (str "pfcountCommand") (-2) (str "r") no_proc no_proc 1 (-1) 1;
  mk_cmd (str "pfmerge") (str "pfmergeCommand") (-2) (str "wm") no_proc no_proc 1 (-1) 1;
  mk_cmd (str "pfdebug") (str "pfdebugCommand") (-3) (str "w") no_proc no_proc 0 0 0;
  mk_cmd (str "post") (str "securityWarningCommand") (-1) (str "lt") no_proc no_proc 0 0 0;
  mk_cmd (str "host:") (str "securityWarningCommand") (-1) (str "lt") no_proc no_proc 0 0 0;
  mk_cmd (str "latency") (str "latencyCommand") (-2) (str "aslt") no_proc no_proc 0 0 0].

Close Scope Z_scope.

(** One letter of the flags; [None] is [serverPanic]. *)
Definition flag_bit (f : ascii) : option Z :=
  if bool_decide (f = "w"%char) then Some CMD_WRITE
  else if bool_decide (f = "r"%char) then Some CMD_READONLY
  else if bool_decide (f = "m"%char) then Some CMD_DENYOOM
  else if bool_decide (f = "a"%char) then Some CMD_ADMIN
  else if bool_decide (f = "p"%char) then Some CMD_PUBSUB
  else if bool_decide (f = "s"%char) then Some CMD_NOSCRIPT
  else if bool_decide (f = "R"%char) then Some CMD_RANDOM
  else if bool_decide (f = "S"%char) then Some CMD_SORT_FOR_SCRIPT
  else if bool_decide (f = "l"%char) then Some CMD_LOADING
  else if bool_decide (f = "t"%char) then Some CMD_STALE
  else if bool_decide (f = "M"%char) then Some CMD_SKIP_MONITOR
  else if bool_decide (f = "k"%char) then Some CMD_ASKING
  else if bool_decide (f = "F"%char) then Some CMD_FAST
  else None.

Definition cmd_flags (fs : bytes) : out Z :=
  out_fold (λ flags f, match flag_bit f with Some b => Ret (Z.lor flags b) | None => Fail AssertFail end) 0%Z fs.

(** *** The dictionaries *)

(** [strcasecmp(key1,key2) == 0] *)
Definition dictSdsKeyCaseCompare (key1 key2 : bytes) : bool := bool_decide (tolower <$> cstr key1 = tolower <$> cstr key2).

(** The promise of [dictSdsCaseHash]. *)
Class CaseHash (hash : bytes → Z) : Prop := {
  case_range s : (0 ≤ hash s < 2 ^ 64)%Z;
  case_same s t : tolower <$> s = tolower <$> t → hash s = hash t;
}.

Notation commands := (dict bytes (redisCommand * Z)).

Section populate.
Context (hash : bytes → Z).

(** One row, added to [server.commands] and [server.orig_commands]. *)
Definition populate_row (ds : commands * commands) (c : redisCommand) : out (commands * commands) :=
  flags ← cmd_flags (sflags c);
  '(d1, retval1) ← dictAdd hash dictSdsKeyCaseCompare true ds.1 (sdsnew (name c)) (c, flags);
  '(d2, retval2) ← dictAdd hash dictSdsKeyCaseCompare true ds.2 (sdsnew (name c)) (c, flags);
  if retval1 && retval2 then Ret (d1, d2) else Fail AssertFail.

Definition populateCommandTable (t : list redisCommand) : out (commands * commands) :=
  out_fold populate_row (dictCreate, dictCreate) t.

Definition lookupCommand (d : commands) (nm : bytes) : out (commands * option (redisCommand * Z)) :=
  dictFetchValue hash dictSdsKeyCaseCompare d nm.

(** Lookups one after the other. *)
Fixpoint lookups (d : commands) (names : list bytes) : out (commands * list (option (redisCommand * Z))) :=
  match names with
  | [] => Ret (d, [])
  | nm :: names => '(d, r) ← lookupCommand d nm; '(d, rs) ← lookups d names; Ret (d, r :: rs)
  end.
End populate.

(** ** Every command is found under its name *)

(** What a lookup should find: the row with the name, in any case, and its flags. *)
Definition flags_of (c : redisCommand) : Z := match cmd_flags (sflags c) with Ret f => f | Fail _ => 0%Z end.
Definition lower (s : bytes) : bytes := tolower <$> s.
Definition command_named (t : list redisCommand) (nm : bytes) : option (redisCommand * Z) :=
  match list_find (λ c, lower (name c) = lower nm) t with Some (_, c) => Some (c, flags_of c) | None => None end.

#[export] Instance case_dict_type hash :
  CaseHash hash → DictType hash dictSdsKeyCaseCompare lower nul_free.
Proof.
  intros [H1 H2]. split; [done|intros k1 k2 _ _; apply H2|].
  intros k1 k2 N1 N2. unfold dictSdsKeyCaseCompare. rewrite !cstr_id by done. apply bool_decide_eq_true.
Qed.

Section lookup.
Context (hash : bytes → Z) `{!CaseHash hash}.

(** The dictionary holds the rows [t]. *)
Definition serves (t : list redisCommand) (d : commands) : Prop :=
  dict_ok (hashFunction := hash) (canon := lower) (valid := nul_free) d
  ∧ ∀ nm, (λ e, e.2) <$> to_map (canon := lower) d !! lower nm = command_named t nm.

Lemma command_named_snoc t c nm :
  command_named (t ++ [c]) nm =
    match command_named t nm with
    | Some r => Some r
    | None => if bool_decide (lower (name c) = lower nm) then Some (c, flags_of c) else None
    end.
Proof.
  unfold command_named. induction t as [|x t IH]; simpl.
  - by case_decide; case_bool_decide.
  - destruct (decide (lower (name x) = lower nm)); [reflexivity|].
    destruct (list_find _ (t ++ [c])) as [[? ?]|], (list_find _ t) as [[? ?]|]; simpl in *; done.
Qed.

Lemma serves_add t d c :
  serves t d → (Z.of_nat (length t) < 2 ^ 60)%Z → (dictSize d ≤ Z.of_nat (length t))%Z → nul_free (name c) →
  command_named t (name c) = None →
  ∃ d', dictAdd hash dictSdsKeyCaseCompare true d (sdsnew (name c)) (c, flags_of c) = Ret (d', true)
    ∧ serves (t ++ [c]) d' ∧ (dictSize d' ≤ Z.of_nat (length (t ++ [c])))%Z.
Proof.
  intros [Hd Hm] Hl Hs Hn Hc. rewrite sdsnew_nul_free by done.
  destruct (dictAdd_spec (canon := lower) (valid := nul_free) true d (name c) (c, flags_of c) Hd ltac:(lia) Hn)
    as (d' & E & Hd' & _ & EM).
  assert (to_map (canon := lower) d !! lower (name c) = None) as Hnone.
  { specialize (Hm (name c)). rewrite Hc in Hm. by destruct (to_map d !! lower (name c)). }
  rewrite Hnone in E, EM. rewrite bool_decide_eq_true_2 in E by done. exists d'. split_and!; [done| |].
  - split; [done|]. intros nm. rewrite EM, command_named_snoc, <-Hm.
    destruct (decide (lower (name c) = lower nm)) as [En|En].
    + rewrite En, lookup_insert_eq, bool_decide_eq_true_2 by done. rewrite <-En, Hnone. done.
    + rewrite lookup_insert_ne, bool_decide_eq_false_2 by done. by destruct (to_map d !! lower nm).
  - rewrite (dictSize_map d' Hd'), EM, map_size_insert_None by done. rewrite (dictSize_map d Hd) in Hs.
    rewrite length_app. simpl. lia.
Qed.

Lemma populate_spec u : ∀ t d1 d2,
  serves t d1 → serves t d2 → (dictSize d1 ≤ Z.of_nat (length t))%Z → (dictSize d2 ≤ Z.of_nat (length t))%Z →
  (Z.of_nat (length t + length u) < 2 ^ 60)%Z →
  NoDup (lower <$> (name <$> (t ++ u))) → Forall (λ c, nul_free (name c) ∧ ∃ f, cmd_flags (sflags c) = Ret f) u →
  ∃ d1' d2', out_fold (populate_row hash) (d1, d2) u = Ret (d1', d2') ∧ serves (t ++ u) d1' ∧ serves (t ++ u) d2'.
Proof.
  induction u as [|c u IH]; intros t d1 d2 H1 H2 S1 S2 Hl Hn Hu; cbn [out_fold].
  { exists d1, d2. by rewrite app_nil_r. }
  apply Forall_cons in Hu as [[Hc [f Hf]] Hu]. simpl in Hl.
  assert (command_named t (name c) = None) as Hnew.
  { unfold command_named. destruct (list_find _ t) as [[i x]|] eqn:E; [|done]. exfalso.
    apply list_find_Some in E as (Ei & Ex & _). rewrite fmap_app, fmap_app, NoDup_app in Hn. destruct Hn as (_ & Hn & _).
    apply (Hn (lower (name c))); [|by left]. rewrite <-Ex. rewrite <-list_fmap_compose.
    apply list_elem_of_fmap. exists x. split; [done|]. by apply list_elem_of_lookup_2 in Ei. }
  assert (flags_of c = f) as <- by (unfold flags_of; by rewrite Hf).
  destruct (serves_add t d1 c H1 ltac:(lia) S1 Hc Hnew) as (d1' & E1 & H1' & S1').
  destruct (serves_add t d2 c H2 ltac:(lia) S2 Hc Hnew) as (d2' & E2 & H2' & S2').
  assert (populate_row hash (d1, d2) c = Ret (d1', d2')) as ->.
  { unfold populate_row. rewrite Hf. bind_red. cbn [fst snd]. rewrite E1. bind_red. rewrite E2. by bind_red. }
  bind_red.
  destruct (IH (t ++ [c]) d1' d2' H1' H2' S1' S2') as (d3 & d4 & E & H3 & H4); [|by rewrite <-app_assoc|done|].
  { rewrite length_app. simpl. lia. }
  exists d3, d4. by rewrite <-app_assoc in H3, H4.
Qed.
Lemma serves_lookup t d nm :
  serves t d → nul_free nm → ∃ d', lookupCommand hash d nm = Ret (d', command_named t nm) ∧ serves t d'.
Proof.
  intros [Hd Hm] Hn. unfold lookupCommand, dictFetchValue.
  destruct (dictFind_spec (canon := lower) (valid := nul_free) d nm Hd Hn) as (d' & -> & Hd' & HE & _). bind_red.
  exists d'. split.
  - rewrite <-Hm. by destruct (to_map d !! lower nm).
  - split; [done|]. intros nm'. rewrite <-Hm. by rewrite (to_map_perm d d' Hd HE).
Qed.

Lemma lookups_spec t names : ∀ d,
  serves t d → Forall nul_free names →
  ∃ d', lookups hash d names = Ret (d', command_named t <$> names) ∧ serves t d'.
Proof.
  induction names as [|nm names IH]; intros d Hd Hn; cbn [lookups]; [by exists d|].
  apply Forall_cons in Hn as [Hn1 Hn].
  destruct (serves_lookup t d nm Hd Hn1) as (d1 & -> & Hd1). bind_red.
  destruct (IH d1 Hd1 Hn) as (d2 & -> & Hd2). bind_red. by exists d2.
Qed.

Lemma serves_create : serves [] dictCreate.
Proof. split; [apply dict_ok_create|done]. Qed.
End lookup.

Lemma flags_ok fs : is_Some (mapM flag_bit fs) → ∃ f, cmd_flags fs = Ret f.
Proof.
  unfold cmd_flags. generalize 0%Z. induction fs as [|f fs IH]; intros z [bs Hb]; cbn [out_fold]; [by exists z|].
  simpl in Hb. destruct (flag_bit f) as [b|]; [|done]. simpl in Hb. destruct (mapM flag_bit fs) as [bs'|]; [|done].
  bind_red. by apply IH.
Qed.

Lemma names_differ : NoDup (lower <$> (name <$> redisCommandTable)).
Proof. apply (bool_decide_unpack _). vm_compute. exact I. Qed.

Lemma rows_fine : Forall (λ c, NUL ∉ name c ∧ is_Some (mapM flag_bit (sflags c))) redisCommandTable.
Proof. apply (bool_decide_unpack _). vm_compute. exact I. Qed.

Lemma table_populated hash :
  CaseHash hash →
  ∃ d1 d2, populateCommandTable hash redisCommandTable = Ret (d1, d2)
    ∧ serves hash redisCommandTable d1 ∧ serves hash redisCommandTable d2.
Proof.
  intros HH. apply (populate_spec hash redisCommandTable [] dictCreate dictCreate).
  - apply serves_create.
  - apply serves_create.
  - done.
  - done.
  - by vm_compute.
  - exact names_differ.
  - eapply Forall_impl; [exact rows_fine|]. intros c [H1 H2]. split; [exact H1|by apply flags_ok].
Qed.

(** [populateCommandTable] accepts the command table (no unknown flag, no name
    twice), and then any sequence of lookups finds every command, with the flags of
    its row, under its name in upper or lower case, and nothing else, while the
    hash table is being rehashed or not. *)
Theorem command_table_lookup hash names :
  CaseHash hash → Forall nul_free names →
  ∃ d1 d2 d, populateCommandTable hash redisCommandTable = Ret (d1, d2)
    ∧ lookups hash d1 names = Ret (d, command_named redisCommandTable <$> names).
Proof.
  intros HH Hn. destruct (table_populated hash HH) as (d1 & d2 & E & H1 & _).
  destruct (lookups_spec hash redisCommandTable names d1 H1 Hn) as (d & El & _). by exists d1, d2, d.
Qed.

(** A hash for examples: the sum of the lower case letters. *)
Definition sum_hash (s : bytes) : Z := (foldr (λ a n, Z.of_nat (nat_of_ascii (tolower a)) + n) 0 s mod 2 ^ 64)%Z.

#[export] Instance sum_case_hash : CaseHash sum_hash.
Proof.
  split; [intros s; apply Z.mod_pos_bound; lia|]. intros s t E. unfold sum_hash. f_equal.
  revert t E. induction s as [|a s IH]; intros [|b t] E; simpl in *; [done|done|done|].
  injection E as Ea E. rewrite Ea. by rewrite (IH t E).
Qed.

Lemma command_table_lookup_witness :
  ∃ d1 d2 d r, populateCommandTable sum_hash redisCommandTable = Ret (d1, d2)
    ∧ lookups sum_hash d1 [str "Union"; str "nosuch"] = Ret (d, [Some r; None]) ∧ name r.1 = str "union" ∧ r.2 = CMD_READONLY.
Proof.
  destruct (command_table_lookup sum_hash [str "Union"; str "nosuch"] sum_case_hash) as (d1 & d2 & d & E & El).
  - apply (bool_decide_unpack (Forall (λ s, NUL ∉ s) [str "Union"; str "nosuch"])). vm_compute. exact I.
  - eexists d1, d2, d, _. split; [exact E|]. split; [exact El|]. split; reflexivity.
Defined.

(** Rows by name. *)
Definition in_table (nm : bytes) : option redisCommand := snd <$> list_find (λ c, name c = nm) redisCommandTable.

(** The rows of the union-find commands, as [Call.commandTable] has them: the same
    arity, and read-only as their only flag. *)
Lemma commandTable_rows :
  Forall (λ r, ∃ c, in_table r.1.1 = Some c ∧ arity c = r.1.2 ∧ cmd_flags (sflags c) = Ret CMD_READONLY) commandTable.
Proof. repeat constructor; (eexists; split_and!; [vm_compute; reflexivity|reflexivity|reflexivity]). Qed.

(** The comparison stops at a NUL byte, the hash does not: whether a name with a
    NUL byte is taken for a command depends on the buckets the hash function
    gives. *)
Lemma nul_name_depends_on_hash :
  let row := mk_cmd (str "get") (str "getCommand") 2 (str "rF") None None 1 1 1 in
  let nm := str "get" ++ [NUL; "x"%char] in
  (∃ d1 d2 d, populateCommandTable (λ _, 0%Z) [row] = Ret (d1, d2)
     ∧ lookupCommand (λ _, 0%Z) d1 nm = Ret (d, Some (row, flags_of row)))
  ∧ (∃ d1 d2 d, populateCommandTable zlen [row] = Ret (d1, d2) ∧ lookupCommand zlen d1 nm = Ret (d, None)).
Proof.
  split; (do 3 eexists; split; [vm_compute; reflexivity|vm_compute; reflexivity]).
Qed.
