(* ===== verification/Gate.v ===== *)
(** * Which commands are executed

    The guards of [processCommand] (src/src/server.c), in their order, in front of
    [call]: authentication, cluster redirection, memory, persistence errors, missing
    or read-only slaves, Pub/Sub mode, a broken link to the master, loading, slow
    scripts and transactions. *)
From Stdlib Require Import Ascii.
From S2P Require Import Prelude Sds GraphText Locate Util Args Resp Commands Query Control Init Call Dict DictMap Table.

Definition CLIENT_MASTER : Z := Z.shiftl 1 1.
Definition CLIENT_MULTI : Z := Z.shiftl 1 3.
Definition CLIENT_DIRTY_CAS : Z := Z.shiftl 1 5.
Definition CLIENT_CLOSE_AFTER_REPLY : Z := Z.shiftl 1 6.
Definition CLIENT_LUA : Z := Z.shiftl 1 8.
Definition CLIENT_DIRTY_EXEC : Z := Z.shiftl 1 12.
Definition CLIENT_PUBSUB : Z := Z.shiftl 1 18.

(** What the guards look at: settings and state of the server.  [node_is_me] is
    whether [getNodeByQuery] gives this node, [memory_freed] whether
    [freeMemoryIfNeeded] succeeded and [client_freed] whether it freed the client. *)
Record genv := mk_genv {
  requirepass : bool; cluster_enabled : bool; lua_caller_flags : Z; node_is_me : bool; maxmemory : Z;
  memory_freed : bool; client_freed : bool; stop_writes_on_bgsave_err : bool; saveparamslen : Z;
  lastbgsave_ok : bool; aof_last_write_ok : bool; g_masterhost : bool; repl_min_slaves_to_write : Z;
  repl_min_slaves_max_lag : Z; repl_good_slaves_count : Z; g_slave_ro : bool; repl_connected : bool;
  repl_serve_stale_data : bool; loading : bool; lua_timedout : bool }.

(** The client: its flags, whether it is authenticated, its arguments. *)
Record gclient := mk_gclient { g_flags : Z; authenticated : bool; g_argv : list bytes }.

Inductive reason :=
  | NoSuchCommand | BadArity | NoAuth | Redirected | Oom | Misconf | NoReplicas | ReadOnlySlave
  | PubsubOnly | MasterDown | LoadingDb | SlowScript.

(** The outcome: QUIT, an error reply, the client is gone, the command is queued
    or executed. *)
Inductive outcome := Quit | Refused (r : reason) | Freed | Queued (cmd : redisCommand) | Executed (cmd : redisCommand).

Definition set_gflags (c : gclient) (f : Z) : gclient := mk_gclient f (authenticated c) (g_argv c).

Definition flagTransaction (c : gclient) : gclient :=
  if has (g_flags c) CLIENT_MULTI then set_gflags c (Z.lor (g_flags c) CLIENT_DIRTY_EXEC) else c.

(** The flags [discardTransaction] clears. *)
Definition discardTransaction (c : gclient) : gclient :=
  set_gflags c (Z.ldiff (g_flags c) (Z.lor (Z.lor CLIENT_MULTI CLIENT_DIRTY_CAS) CLIENT_DIRTY_EXEC)).

(** [cmd->proc == p] *)
Definition is_proc (cmd : redisCommand) (p : bytes) : bool := bool_decide (proc cmd = p).

(** [tolower(((char * )c->argv[1]->ptr)[0]) == x] for two arguments. *)
Definition arg1_is (argv : list bytes) (x : ascii) : bool :=
  match argv with
  | [_; a] => bool_decide (tolower (default NUL (head a)) = x)
  | _ => false
  end.

(** The guards after the command is known. *)
Definition guards (e : genv) (c : gclient) (cmd : redisCommand) (flags : Z) : outcome * gclient :=
  let f := g_flags c in
  if requirepass e && negb (authenticated c) && negb (is_proc cmd (str "authCommand"))
  then (Refused NoAuth, flagTransaction c)
  else if cluster_enabled e && negb (has f CLIENT_MASTER)
          && negb (has f CLIENT_LUA && has (lua_caller_flags e) CLIENT_MASTER)
          && negb (bool_decide (getkeys_proc cmd = None) && bool_decide (firstkey cmd = 0)%Z
                   && negb (is_proc cmd (str "execCommand")))
          && negb (node_is_me e)
  then (Refused Redirected, if is_proc cmd (str "execCommand") then discardTransaction c else flagTransaction c)
  else if bool_decide (maxmemory e ≠ 0)%Z && client_freed e then (Freed, c)
  else if bool_decide (maxmemory e ≠ 0)%Z && (has flags CMD_DENYOOM && negb (memory_freed e))
  then (Refused Oom, flagTransaction c)
  else if (stop_writes_on_bgsave_err e && bool_decide (saveparamslen e > 0)%Z && negb (lastbgsave_ok e)
           || negb (aof_last_write_ok e))
          && negb (g_masterhost e) && (has flags CMD_WRITE || is_proc cmd (str "pingCommand"))
  then (Refused Misconf, flagTransaction c)
  else if negb (g_masterhost e) && bool_decide (repl_min_slaves_to_write e ≠ 0)%Z
          && bool_decide (repl_min_slaves_max_lag e ≠ 0)%Z && has flags CMD_WRITE
          && bool_decide (repl_good_slaves_count e < repl_min_slaves_to_write e)%Z
  then (Refused NoReplicas, flagTransaction c)
  else if g_masterhost e && g_slave_ro e && negb (has f CLIENT_MASTER) && has flags CMD_WRITE
  then (Refused ReadOnlySlave, c)
  else if has f CLIENT_PUBSUB && negb (is_proc cmd (str "pingCommand")) && negb (is_proc cmd (str "subscribeCommand"))
          && negb (is_proc cmd (str "unsubscribeCommand")) && negb (is_proc cmd (str "psubscribeCommand"))
          && negb (is_proc cmd (str "punsubscribeCommand"))
  then (Refused PubsubOnly, c)
  else if g_masterhost e && negb (repl_connected e) && negb (repl_serve_stale_data e) && negb (has flags CMD_STALE)
  then (Refused MasterDown, flagTransaction c)
  else if loading e && negb (has flags CMD_LOADING) then (Refused LoadingDb, c)
  else if lua_timedout e && negb (is_proc cmd (str "authCommand")) && negb (is_proc cmd (str "replconfCommand"))
          && negb (is_proc cmd (str "shutdownCommand") && arg1_is (g_argv c) "n")
          && negb (is_proc cmd (str "scriptCommand") && arg1_is (g_argv c) "k")
  then (Refused SlowScript, flagTransaction c)
  else if has f CLIENT_MULTI && negb (is_proc cmd (str "execCommand")) && negb (is_proc cmd (str "discardCommand"))
          && negb (is_proc cmd (str "multiCommand")) && negb (is_proc cmd (str "watchCommand"))
  then (Queued cmd, c)
  else (Executed cmd, c).

(** [processCommand] up to [call] or [queueMultiCommand]; the lookup may rehash the
    dictionary of commands. *)
Definition gate (hash : bytes → Z) (d : commands) (e : genv) (c : gclient) : out (commands * outcome * gclient) :=
  match g_argv c with
  | [] => Fail OutOfBounds
  | nm :: _ =>
    if bool_decide (tolower <$> cstr nm = str "quit")
    then Ret (d, Quit, set_gflags c (Z.lor (g_flags c) CLIENT_CLOSE_AFTER_REPLY))
    else
      '(d, r) ← lookupCommand hash d nm;
      match r with
      | None => Ret (d, Refused NoSuchCommand, flagTransaction c)
      | Some (cmd, flags) =>
        let argc := zlen (g_argv c) in
        if bool_decide ((arity cmd > 0 ∧ arity cmd ≠ argc) ∨ argc < - arity cmd)%Z
        then Ret (d, Refused BadArity, flagTransaction c)
        else let '(o, c) := guards e c cmd flags in Ret (d, o, c)
      end
  end.

(** ** Admission of the union-find commands *)

Lemma tolower_nul a : tolower a = NUL ↔ a = NUL.
Proof.
  split; [|by intros ->]. destruct a as [[] [] [] [] [] [] [] []]; intros H; vm_compute in H; (discriminate H || reflexivity).
Qed.

Lemma tolower_cstr s : tolower <$> cstr s = cstr (tolower <$> s).
Proof.
  induction s as [|a s IH]; [done|]. simpl. pose proof (tolower_nul a).
  repeat case_bool_decide; [done|tauto|tauto|]. simpl. f_equal. exact IH.
Qed.

Lemma has_lor f g h : has (Z.lor f g) h = has f h || has g h.
Proof.
  unfold has. rewrite Z.land_lor_distr_l.
  repeat case_bool_decide; try done; rewrite Z.lor_eq_0_iff in *; tauto.
Qed.

Lemma flagTransaction_dirty c :
  has (g_flags c) CLIENT_MULTI = true → has (g_flags (flagTransaction c)) CLIENT_DIRTY_EXEC = true.
Proof. intros H. unfold flagTransaction. rewrite H. simpl. rewrite has_lor. apply orb_true_r. Qed.

(** The command is in the table of the union-find type, under any case, with enough
    arguments. *)
Definition ufs_request (c : gclient) (r : bytes * Z * (server → client → out (server * client))) : Prop :=
  r ∈ commandTable ∧ ∃ nm args, g_argv c = nm :: args ∧ lower nm = r.1.1
    ∧ ¬ ((r.1.2 > 0 ∧ r.1.2 ≠ zlen (g_argv c)) ∨ zlen (g_argv c) < - r.1.2)%Z.

(** The guards that matter for them. *)
Definition admitted (e : genv) (c : gclient) : bool :=
  negb (requirepass e && negb (authenticated c)) && negb (bool_decide (maxmemory e ≠ 0)%Z && client_freed e)
  && negb (has (g_flags c) CLIENT_PUBSUB)
  && negb (g_masterhost e && negb (repl_connected e) && negb (repl_serve_stale_data e))
  && negb (loading e) && negb (lua_timedout e).

Lemma ufs_rows r :
  r ∈ commandTable →
  ∃ cmd, in_table r.1.1 = Some cmd ∧ arity cmd = r.1.2
    ∧ command_named redisCommandTable r.1.1 = Some (cmd, CMD_READONLY)
    ∧ getkeys_proc cmd = None ∧ firstkey cmd = 0%Z
    ∧ proc cmd ∈ [str "findCommand"; str "umembersCommand"; str "unionCommand"; str "splitCommand"; str "uinitCommand"]
    ∧ (r.1.1 ≠ str "quit" ∧ lower r.1.1 = r.1.1) ∧ NUL ∉ r.1.1.
Proof.
  revert r. apply Forall_forall.
  repeat constructor; (eexists; split; [vm_compute; reflexivity|]; split; [reflexivity|]; split; [vm_compute; reflexivity|];
    split; [reflexivity|]; split; [reflexivity|]).
  all: apply (bool_decide_unpack _); vm_compute; exact I.
Qed.

Lemma command_named_lower t a b : lower a = lower b → command_named t a = command_named t b.
Proof. intros E. unfold command_named. by rewrite E. Qed.

Lemma not_proc cmd p :
  proc cmd ∈ [str "findCommand"; str "umembersCommand"; str "unionCommand"; str "splitCommand"; str "uinitCommand"] →
  p ∉ [str "findCommand"; str "umembersCommand"; str "unionCommand"; str "splitCommand"; str "uinitCommand"] →
  is_proc cmd p = false.
Proof. intros H1 H2. unfold is_proc. apply bool_decide_eq_false_2. by intros <-. Qed.

(** The guards that are left for a union-find command. *)
Lemma guards_ufs e c cmd :
  getkeys_proc cmd = None → firstkey cmd = 0%Z →
  proc cmd ∈ [str "findCommand"; str "umembersCommand"; str "unionCommand"; str "splitCommand"; str "uinitCommand"] →
  guards e c cmd CMD_READONLY =
    if requirepass e && negb (authenticated c) then (Refused NoAuth, flagTransaction c)
    else if bool_decide (maxmemory e ≠ 0)%Z && client_freed e then (Freed, c)
    else if has (g_flags c) CLIENT_PUBSUB then (Refused PubsubOnly, c)
    else if g_masterhost e && negb (repl_connected e) && negb (repl_serve_stale_data e)
    then (Refused MasterDown, flagTransaction c)
    else if loading e then (Refused LoadingDb, c)
    else if lua_timedout e then (Refused SlowScript, flagTransaction c)
    else (if has (g_flags c) CLIENT_MULTI then Queued cmd else Executed cmd, c).
Proof.
  intros Hk Hf Hp. unfold guards.
  rewrite !(not_proc cmd _ Hp) by (apply (bool_decide_unpack _); vm_compute; exact I).
  rewrite Hk, Hf. change (has CMD_READONLY CMD_WRITE) with false. change (has CMD_READONLY CMD_DENYOOM) with false.
  change (has CMD_READONLY CMD_STALE) with false. change (has CMD_READONLY CMD_LOADING) with false.
  rewrite !(bool_decide_eq_true_2 (None = None)), !(bool_decide_eq_true_2 (0 = 0)%Z) by done.
  cbn [andb orb negb]. rewrite ?andb_false_r, ?andb_true_r, ?orb_false_r. cbn [andb orb negb].
  destruct (has (g_flags c) CLIENT_MULTI); reflexivity.
Qed.

(** C29: a union, split, uinit, find or umembers command, in any case and with the right
    number of arguments, is executed (queued inside a transaction) exactly when
    the client is authenticated and alive, not in Pub/Sub mode, the link to the
    master is up or stale data is allowed, and the server is neither loading nor
    running a slow script.  Being a read-only slave, out of memory, unable to
    persist, short of slaves or in cluster mode makes no difference: the table
    calls these commands read-only. *)
Theorem union_find_admission hash d e c r :
  CaseHash hash → serves hash redisCommandTable d → ufs_request c r →
  ∃ d' cmd o c', in_table r.1.1 = Some cmd ∧ gate hash d e c = Ret (d', o, c') ∧ serves hash redisCommandTable d'
    ∧ (admitted e c = true ↔ o = if has (g_flags c) CLIENT_MULTI then Queued cmd else Executed cmd)
    ∧ (admitted e c = true → c' = c).
Proof.
  intros HH Hd (Hr & nm & args & Ea & Hn & Har).
  destruct (ufs_rows r Hr) as (cmd & Hin & Hari & Hnamed & Hk & Hf & Hp & (Hquit & Hlow) & Hnn).
  assert (nul_free nm) as Hnul.
  { intros HN. apply Hnn. rewrite <-Hn. apply list_elem_of_fmap. exists NUL. split; [done|exact HN]. }
  destruct (serves_lookup hash redisCommandTable d nm Hd Hnul) as (d' & El & Hd').
  exists d', cmd, (guards e c cmd CMD_READONLY).1, (guards e c cmd CMD_READONLY).2.
  assert (gate hash d e c = Ret (d', (guards e c cmd CMD_READONLY).1, (guards e c cmd CMD_READONLY).2)) as Eg.
  { unfold gate. rewrite Ea. rewrite bool_decide_eq_false_2.
    - rewrite El. bind_red. rewrite (command_named_lower _ nm r.1.1) by (by rewrite Hn, Hlow). rewrite Hnamed.
      rewrite <-Ea, Hari. rewrite bool_decide_eq_false_2 by done. by destruct (guards e c cmd CMD_READONLY).
    - rewrite (cstr_id nm) by done. unfold lower in Hn. rewrite Hn. apply Hquit. }
  split; [exact Hin|]. split; [exact Eg|]. split; [exact Hd'|].
  rewrite (guards_ufs e c cmd Hk Hf Hp). unfold admitted. clear. split.
  all: destruct (requirepass e && negb (authenticated c)); [by destruct (has (g_flags c) CLIENT_MULTI)|].
  all: destruct (bool_decide (maxmemory e ≠ 0)%Z && client_freed e); [by destruct (has (g_flags c) CLIENT_MULTI)|].
  all: destruct (has (g_flags c) CLIENT_PUBSUB); [by destruct (has (g_flags c) CLIENT_MULTI)|].
  all: destruct (g_masterhost e && negb (repl_connected e) && negb (repl_serve_stale_data e));
    [by destruct (has (g_flags c) CLIENT_MULTI)|].
  all: destruct (loading e); [by destruct (has (g_flags c) CLIENT_MULTI)|].
  all: destruct (lua_timedout e); by destruct (has (g_flags c) CLIENT_MULTI).
Qed.

Definition gate_env_sample : genv :=
  mk_genv false true 0 false 100 false false true 1 false true true 1 10 0 true true false false false.

Definition gate_client_sample : gclient := mk_gclient 0 false [str "UNION"; str "a"; str "b"; str "u"].

Lemma union_find_admission_witness :
  ∃ d d' cmd o c', in_table (str "union") = Some cmd
    ∧ gate sum_hash d gate_env_sample gate_client_sample = Ret (d', o, c')
    ∧ o = Executed cmd ∧ c' = gate_client_sample.
Proof.
  destruct (table_populated sum_hash sum_case_hash) as (d & _ & _ & Hd & _).
  destruct (union_find_admission sum_hash d gate_env_sample gate_client_sample (str "union", (-1)%Z, unionCommand)
    sum_case_hash Hd) as (d' & cmd & o & c' & Hin & Hg & _ & Ho & Hc).
  - split; [do 2 right; left|]. exists (str "UNION"), [str "a"; str "b"; str "u"].
    split; [reflexivity|]. split; [reflexivity|]. vm_compute. intros [[H _] | H]; discriminate H.
  - exists d, d', cmd, o, c'. split; [exact Hin|]. split; [exact Hg|].
    split; [apply Ho; reflexivity|apply Hc; reflexivity].
Defined.

(** ** Writes and transactions *)

(** A command that runs or is queued passed every guard. *)
Definition runs (o : outcome) : bool := match o with Executed _ | Queued _ => true | _ => false end.

(** A command with the write flag never runs, and is never queued, on a read-only
    slave, unless it comes from the master. *)
Lemma write_refused_on_readonly_slave e c cmd flags :
  has flags CMD_WRITE = true → g_masterhost e = true → g_slave_ro e = true → has (g_flags c) CLIENT_MASTER = false →
  runs (guards e c cmd flags).1 = false.
Proof.
  intros Hw Hm Hr Hc. unfold guards. rewrite Hw, Hm, Hr, Hc. cbn [andb orb negb].
  repeat (match goal with |- runs (fst (if ?b then _ else _)) = _ => destruct b end; [done|]). done.
Qed.

(** Which refusals leave the transaction alone. *)
Definition unflagged (r : reason) : bool :=
  match r with ReadOnlySlave | PubsubOnly | LoadingDb => true | _ => false end.

(** a command refused inside a transaction makes the coming EXEC fail, unless it
    is refused because the slave is read-only, the client is in Pub/Sub mode or the
    server is loading: then the client is unchanged, and EXEC runs the commands
    queued so far without it; a redirected EXEC drops the transaction. *)
Theorem refusal_flags_transaction hash d e c d' r c' :
  gate hash d e c = Ret (d', Refused r, c') → has (g_flags c) CLIENT_MULTI = true →
  if unflagged r then c' = c
  else has (g_flags c') CLIENT_DIRTY_EXEC = true ∨ r = Redirected ∧ c' = discardTransaction c.
Proof.
  intros Hg Hm. pose proof (flagTransaction_dirty c Hm) as HF. revert Hg. unfold gate. destruct (g_argv c) as [|nm args]; [done|].
  case_bool_decide; [done|]. destruct (lookupCommand hash d nm) as [[d1 o]|]; [|done]. bind_red.
  destruct o as [[cmd flags]|]; [|intros [= <- <- <-]; by left].
  case_bool_decide; [intros [= <- <- <-]; by left|]. unfold guards.
  repeat (match goal with |- (let '(_, _) := (if ?b then _ else _) in _) = _ → _ => destruct b end;
    [try done; intros [= <- <- <-]; try by (left || reflexivity)|]); [|done].
  destruct (is_proc cmd _); [by right|by left].
Qed.

Lemma refusal_flags_transaction_witness :
  ∃ d' c', gate sum_hash dictCreate gate_env_sample (mk_gclient 8 true [str "nosuch"])
      = Ret (d', Refused NoSuchCommand, c')
    ∧ has (g_flags c') CLIENT_DIRTY_EXEC = true.
Proof.
  do 2 eexists. split; [reflexivity|].
  pose proof (refusal_flags_transaction sum_hash dictCreate gate_env_sample (mk_gclient 8 true [str "nosuch"]) _
    NoSuchCommand _ eq_refl eq_refl) as H.
  destruct H as [H | [H _]]; [exact H|discriminate H].
Defined.

(** A union or split of a user is executed on a read-only slave (the default
    configuration) but sent to nobody: the guards let it through, and [call] reaches
    the master only when the slave is writable. *)
Lemma readonly_slave_keeps proc i c id st c' :
  proc (srv i) (set_flag c 0) = Ret (st, c') → masterhost st = true → repl_slave_ro i = true → aof_on i = false →
  call proc i c id false CMD_CALL_FULL = Ret (set_srv i st, c').
Proof.
  intros E Hm Hr Ha. unfold call. rewrite E. bind_red. cbn [set_srv repl_slave_ro]. rewrite Hm, Hr. cbn [andb negb].
  change (has CMD_CALL_FULL CMD_CALL_PROPAGATE && _) with true. cbn match.
  case_bool_decide; [|by bind_red]. unfold propagate, feedAppendOnlyFile, replicationFeedSlaves. simpl. rewrite Ha. simpl.
  rewrite Hm. by destruct (has _ _).
Qed.
