(* ===== verification/Proxy.v ===== *)
(** * The stream of the master

    A slave reads the commands of its master with [readQueryFromClient]
    (src/src/networking.c) and hands on, to its own replication backlog and to the
    connections of its sub-slaves, the bytes of the commands it has executed
    ([replicationFeedSlavesFromMasterStream], src/src/replication.c).  The theorem:
    the backlog gets, at every moment, exactly the bytes of the executed commands,
    and the replication offset of the slave counts them; but the sub-slaves get
    nothing, because the loop over them does not set CLIENT_UNDER_FEED, without which
    [prepareClientToWrite] refuses to write to a slave. *)
From Stdlib Require Import Ascii.
From S2P Require Import Prelude Sds GraphText Locate Util Args Resp Call Backlog Gate Output.

(** The connection to the master, the replication backlog and the connections of the
    sub-slaves. *)
Record upstream := mk_up {
  up_in : inbuf; read_reploff : Z; reploff : Z; pending_querybuf : bytes; up_ring : ring;
  up_slaves : list oclient }.

Section proxy.
Context (e : oenv).

(** The body of the loop over the sub-slaves. *)
Definition feed_sub (buf : bytes) (slave : oclient) : oclient :=
  if bool_decide (o_replstate slave = SLAVE_STATE_WAIT_BGSAVE_START) then slave
  else addReplyString e slave buf.

Definition replicationFeedSlavesFromMasterStream (r : ring) (slaves : list oclient) (buf : bytes)
    : out (ring * list oclient) :=
  r ← (if bool_decide (repl_backlog r = None) then Ret r else feedReplicationBacklog r buf);
  Ret (r, feed_sub buf <$> slaves).

(** [data] has arrived from the master. *)
Definition readQueryFromMaster (u : upstream) (data : bytes) : out (option (upstream * list (list bytes))) :=
  let pending := sdscatlen (pending_querybuf u) data (length data) in
  let c := extend (up_in u) data in
  let read := (read_reploff u + zlen data)%Z in
  if bool_decide (zlen (querybuf c) > PROTO_MAX_QUERYBUF_LEN)%Z then Ret None
  else
    '(c, cmds, off) ← processInputBuffer c (Some read) (reploff u);
    let applied := (off - reploff u)%Z in
    if bool_decide (applied ≠ 0)%Z then
      buf ← slice pending 0 applied;
      '(r, slaves) ← replicationFeedSlavesFromMasterStream (up_ring u) (up_slaves u) buf;
      Ret (Some (mk_up c read off (sdsrange pending applied (-1)) r slaves, cmds))
    else Ret (Some (mk_up c read off pending (up_ring u) (up_slaves u), cmds)).

(** Reading the stream of the master. *)
Fixpoint receive_master (u : upstream) (stream : bytes) (reads : list nat)
    : out (option (upstream * list (list bytes))) :=
  match stream, reads with
  | [], _ | _, [] => Ret (Some (u, []))
  | _, n :: reads =>
    let k := Z.to_nat (Z.min (Z.of_nat n) (readlen (up_in u))) in
    r ← readQueryFromMaster u (take k stream);
    match r with
    | None => Ret None
    | Some (u, cmds) =>
      r ← receive_master u (drop k stream) reads;
      Ret (match r with Some (u, cmds') => Some (u, cmds ++ cmds') | None => None end)
    end
  end.

(** ** Only what was executed is handed on *)

(** Waiting for more, with the bytes that are read and not applied pending. *)
Definition in_step (u : upstream) (fut : bytes) (cmds : list (list bytes)) : Prop :=
  waiting fut (up_in u) cmds ∧ pending_querybuf u ++ fut = wire cmds
  ∧ reploff u = (read_reploff u - zlen (pending_querybuf u))%Z.

(** A slave's connection that is not being fed. *)
Definition unfed (s : oclient) : Prop :=
  has (o_flags s) (Z.lor CLIENT_LUA CLIENT_MODULE) = false
  ∧ has (o_flags s) CLIENT_SLAVE = true ∧ has (o_flags s) CLIENT_UNDER_FEED = false.

(** What the connection of a sub-slave gets of the bytes [b]: nothing without the mark;
    with the mark, and a snapshot under way or done, all of them. *)
Definition sub_gets (b : bytes) (s s' : oclient) : Prop :=
  (unfed s → s' = s)
  ∧ (o_replstate s = SLAVE_STATE_WAIT_BGSAVE_START → s' = s)
  ∧ (link_ok ToSlave true s → link_ok ToSlave true s' ∧ Output.pending s' = Output.pending s ++ b).

Lemma sub_gets_nil s : sub_gets [] s s.
Proof. split_and!; [done|done|]. intros H. by rewrite app_nil_r. Qed.

Lemma sub_gets_trans b1 b2 s1 s2 s3 : sub_gets b1 s1 s2 → sub_gets b2 s2 s3 → sub_gets (b1 ++ b2) s1 s3.
Proof.
  intros (A1 & A2 & A3) (B1 & B2 & B3). split_and!.
  - intros H. specialize (A1 H). subst s2. by apply B1.
  - intros H. specialize (A2 H). subst s2. by apply B2.
  - intros H. destruct (A3 H) as [H' P1]. destruct (B3 H') as [H'' P2]. split; [done|]. by rewrite P2, P1, app_assoc.
Qed.

Lemma unfed_refused s : unfed s → (prepareClientToWrite s) = (s, false).
Proof.
  intros (H1 & H2 & H3). unfold prepareClientToWrite. rewrite H1, H2, H3. cbn [andb negb].
  by repeat (destruct (has _ _ || _) || destruct (has _ _ && _) || destruct (has _ _)).
Qed.

Lemma feed_sub_gets b s : sub_gets b s (feed_sub b s).
Proof.
  unfold feed_sub. split_and!.
  - intros H. case_bool_decide; [done|]. unfold addReplyString. by rewrite unfed_refused.
  - intros H. by rewrite bool_decide_eq_true_2.
  - intros H. pose proof H as [_ _ _ _ Hst]. rewrite bool_decide_eq_false_2 by done.
    destruct (addReplyString_open e ToSlave s b H) as (s' & [= <-] & ? & ?). done.
Qed.

(** The bytes [b] were handed on between two states. *)
Definition handed_on (b : bytes) (u u' : upstream) : Prop :=
  reploff u' = (reploff u + zlen b)%Z
  ∧ Forall2 (sub_gets b) (up_slaves u) (up_slaves u')
  ∧ (repl_backlog (up_ring u) = None → up_ring u' = up_ring u)
  ∧ (∀ base s, represents (up_ring u) base s → represents (up_ring u') base (s ++ b)).

Lemma handed_on_nil u u' :
  reploff u' = reploff u → up_slaves u' = up_slaves u → up_ring u' = up_ring u → handed_on [] u u'.
Proof.
  intros E1 E2 E3. split_and!; [unfold zlen; simpl; lia| |done|].
  - rewrite E2. apply Forall_Forall2_diag, Forall_true. apply sub_gets_nil.
  - intros base s. by rewrite E3, app_nil_r.
Qed.

Lemma handed_on_trans b1 b2 u1 u2 u3 : handed_on b1 u1 u2 → handed_on b2 u2 u3 → handed_on (b1 ++ b2) u1 u3.
Proof.
  intros (E1 & E2 & E3 & E4) (F1 & F2 & F3 & F4). split_and!.
  - rewrite zlen_app. lia.
  - clear -E2 F2. revert F2. generalize (up_slaves u3). induction E2 as [|s1 s2 l1 l2 Hs _ IH]; intros l3 F2; inversion F2; subst; constructor;
      [by eapply sub_gets_trans|by apply IH].
  - intros H. rewrite F3; rewrite E3; done.
  - intros base s H. rewrite app_assoc. apply F4, E4, H.
Qed.

Definition ring_fine (r : ring) : Prop := repl_backlog r = None ∨ ∃ base s, represents r base s.

Lemma feed_stream r slaves buf :
  ring_fine r →
  ∃ r', replicationFeedSlavesFromMasterStream r slaves buf = Ret (r', feed_sub buf <$> slaves) ∧ ring_fine r'
    ∧ (repl_backlog r = None → r' = r) ∧ (∀ base s, represents r base s → represents r' base (s ++ buf)).
Proof.
  intros Hr. unfold replicationFeedSlavesFromMasterStream. case_bool_decide as H0.
  - bind_red. exists r. split_and!; [done|done|done|]. intros base s (mem & E & _). congruence.
  - destruct Hr as [?|(base & s & HR)]; [done|].
    destruct (feed_represents r base s buf HR) as (r' & E & HR' & _). rewrite E. bind_red.
    exists r'. split_and!; [done|right; by exists base, (s ++ buf)|done|].
    intros base' s' HR2. destruct (feed_represents r base' s' buf HR2) as (r'' & E' & HR'' & _). congruence.
Qed.

(** What the loop applied, as bytes: the pending buffer is the executed commands
    and what is left. *)
Lemma applied_split pending read off off' don rest fut :
  applied_to (Some read) off off' don rest fut → off = (read - zlen pending)%Z → pending ++ fut = wire (don ++ rest) →
  ∃ left, pending = wire don ++ left ∧ left ++ fut = wire rest ∧ off' = (read - zlen left)%Z.
Proof.
  intros [[-> ->] | (left & E & ->)] -> HP; [by exists pending|].
  exists left. split_and!; [|done|done]. rewrite wire_app, <-E, app_assoc in HP. by apply app_inv_tail in HP.
Qed.

Lemma read_step u data fut cmds :
  in_step u (data ++ fut) cmds → Forall sendable cmds → ring_fine (up_ring u) → (zlen data ≤ readlen (up_in u))%Z →
  ∃ u' don rest, readQueryFromMaster u data = Ret (Some (u', don)) ∧ cmds = don ++ rest
    ∧ in_step u' fut rest ∧ ring_fine (up_ring u') ∧ handed_on (wire don) u u'.
Proof.
  intros (Hw & Hp & Ho) Hs Hr Hd. destruct (read_fits _ _ _ _ Hw Hs Hd) as [Hf Hz]. destruct Hw as (m & HP & Hm).
  apply parsing_extend in HP. unfold readQueryFromMaster, sdscatlen. rewrite firstn_all.
  set (pending := pending_querybuf u ++ data). set (read := (read_reploff u + zlen data)%Z).
  rewrite bool_decide_eq_false_2 by (simpl; lia).
  destruct (input_loop_spec _ _ _ _ _ (Some read) (reploff u) (le_n _) HP Hs Hf)
    as (c' & don & rest & off' & EL & -> & Hw' & Ha).
  destruct (applied_split pending read _ off' don rest fut Ha) as (left & EP & El & ->).
  { unfold pending. rewrite zlen_app. unfold read. lia. }
  { unfold pending. by rewrite <-app_assoc. }
  unfold processInputBuffer. rewrite EL. bind_red.
  assert (read - zlen left - reploff u = zlen (wire don))%Z as EA.
  { apply (f_equal zlen) in EP. unfold pending in EP. rewrite !zlen_app in EP. unfold read. lia. }
  rewrite EA. case_bool_decide as H0.
  - assert (slice pending 0 (zlen (wire don)) = Ret (wire don)) as ->.
    { unfold slice. rewrite bool_decide_eq_true_2 by (rewrite EP, zlen_app; unfold zlen; lia).
      rewrite EP. unfold zlen. rewrite Nat2Z.id. change (Z.to_nat 0) with 0. by rewrite drop_0, take_app_length. }
    bind_red. destruct (feed_stream _ (up_slaves u) (wire don) Hr) as (r' & -> & Hr' & HN & HR). bind_red.
    eexists _, don, rest. split_and!; [done|done| |done|].
    + assert (sdsrange pending (zlen (wire don)) (-1) = left) as E.
      { unfold zlen. rewrite sdsrange_drop by (rewrite EP, length_app; lia). by rewrite EP, drop_app_length. }
      split_and!; simpl; rewrite ?E; done.
    + split_and!; simpl; [lia| |done|done]. clear. induction (up_slaves u); constructor; [apply feed_sub_gets|done].
  - assert (wire don = []) as ED by (apply nil_length_inv; unfold zlen in H0; lia). rewrite ED in *. simpl in EP.
    eexists _, don, rest. split_and!; [done|done| |done|].
    + split_and!; simpl; rewrite ?EP; done.
    + rewrite ED. apply handed_on_nil; simpl; [unfold zlen in *; simpl in *; lia|done|done].
Qed.

Lemma receive_master_spec reads : ∀ u stream cmds,
  in_step u stream cmds → Forall sendable cmds → ring_fine (up_ring u) → Forall (λ n, 0 < n) reads →
  ∃ u' don rest, receive_master u stream reads = Ret (Some (u', don)) ∧ cmds = don ++ rest
    ∧ handed_on (wire don) u u' ∧ (length stream ≤ length reads → rest = [] ∧ up_in u' = createClient).
Proof.
  assert (∀ u cmds, in_step u [] cmds → cmds = [] ∧ up_in u = createClient) as Hend.
  { intros u cmds (Hw & _). by destruct (waiting_end _ _ Hw). }
  induction reads as [|n reads IH]; intros u stream cmds Hi Hs Hr Hn.
  { exists u, [], cmds. split_and!; [by destruct stream|done|by apply handed_on_nil|].
    destruct stream; simpl; [intros _; by apply Hend|lia]. }
  inversion Hn as [|? ? Hn1 Hn']; subst. destruct stream as [|x stream].
  { exists u, [], cmds. split_and!; [done|done|by apply handed_on_nil|]. intros _. by apply Hend. }
  cbn [receive_master]. pose proof (readlen_pos _ _ _ (proj1 Hi) Hs) as Hp.
  set (k := Z.to_nat (Z.min (Z.of_nat n) (readlen (up_in u)))). rewrite <-(take_drop k (x :: stream)) in Hi.
  destruct (read_step u _ _ cmds Hi Hs Hr) as (u1 & don & rest & -> & -> & Hi1 & Hr1 & HH).
  { unfold zlen. rewrite length_take. lia. }
  bind_red. apply Forall_app in Hs as [_ Hs].
  destruct (IH u1 _ rest Hi1 Hs Hr1 Hn') as (u2 & don2 & rest2 & -> & -> & HH2 & HE). bind_red.
  exists u2, (don ++ don2), rest2. split_and!; [done|by rewrite app_assoc| |].
  - rewrite wire_app. by eapply handed_on_trans.
  - intros Hl. apply HE. rewrite length_drop. simpl in *. lia.
Qed.

(** When nobody is marked nobody gets anything. *)
Lemma unfed_nothing b l l' : Forall unfed l → Forall2 (sub_gets b) l l' → l' = l.
Proof.
  intros Hu. induction 1 as [|s s' l l' (Hs & _) _ IH]; [done|]. apply Forall_cons in Hu as [? ?].
  f_equal; [by apply Hs|by apply IH].
Qed.

End proxy.

Definition proxy_sample : upstream :=
  mk_up createClient 100 100 [] (mk_ring (Some (replicate 16 NUL)) 16 0 0 101 100)
    [slave_conn].

