(* ===== verification/Handshake.v ===== *)
(** * The replication state of a slave

    src/src/replication.c: the states of a slave from connecting to its master to
    being in sync: [syncWithMaster] with its handshake (PING, AUTH, REPLCONF, PSYNC),
    [slaveTryPartialResynchronization], the transfer of the snapshot
    ([readSyncBulkPayload]), the cached master that makes a partial resynchronization
    possible, and SLAVEOF.  What sockets, files and [rdbLoad] answer are arguments;
    times, the event loop, the selected database, [fsync] and the append only file are
    left out.

    The theorems: the states stay consistent in any run; the handshake says what it
    should; the snapshot is received whole. *)
From Stdlib Require Import Ascii.
From S2P Require Import Prelude Sds GraphText Locate Util Args Resp Call Backlog.

Definition CONFIG_RUN_ID_SIZE : nat := 40.
Definition REPL_STATE_NONE : Z := 0.
Definition REPL_STATE_CONNECT : Z := 1.
Definition REPL_STATE_CONNECTING : Z := 2.
Definition REPL_STATE_RECEIVE_PONG : Z := 3.
Definition REPL_STATE_SEND_AUTH : Z := 4.
Definition REPL_STATE_RECEIVE_AUTH : Z := 5.
Definition REPL_STATE_SEND_PORT : Z := 6.
Definition REPL_STATE_RECEIVE_PORT : Z := 7.
Definition REPL_STATE_SEND_IP : Z := 8.
Definition REPL_STATE_RECEIVE_IP : Z := 9.
Definition REPL_STATE_SEND_CAPA : Z := 10.
Definition REPL_STATE_RECEIVE_CAPA : Z := 11.
Definition REPL_STATE_SEND_PSYNC : Z := 12.
Definition REPL_STATE_RECEIVE_PSYNC : Z := 13.
Definition REPL_STATE_TRANSFER : Z := 14.
Definition REPL_STATE_CONNECTED : Z := 15.

(** The client of the master; [m_close]: CLIENT_CLOSE_ASAP, [m_pre_psync]: CLIENT_PRE_PSYNC. *)
Record mclient := mk_m { m_replid : bytes; m_reploff : Z; m_fd : Z; m_pre_psync : bool; m_close : bool }.

(** The transfer of a snapshot: the temporary file while it is open, the file
    [server.rdb_filename], and the static variables of [readSyncBulkPayload]. *)
Record transfer := mk_x {
  repl_transfer_size : Z; repl_transfer_read : Z; x_file : option bytes; rdb_file : bytes;
  usemark : bool; eofmark : bytes; lastbytes : bytes }.

Definition set_file (x : transfer) (f : option bytes) (rdb : bytes) : transfer :=
  mk_x (repl_transfer_size x) (repl_transfer_read x) f rdb (usemark x) (eofmark x) (lastbytes x).
Definition set_progress (x : transfer) (size read : Z) : transfer :=
  mk_x size read (x_file x) (rdb_file x) (usemark x) (eofmark x) (lastbytes x).
Definition set_mark (x : transfer) (use : bool) (mark last : bytes) : transfer :=
  mk_x (repl_transfer_size x) (repl_transfer_read x) (x_file x) (rdb_file x) use mark last.

(** The configuration. *)
Record rconf := mk_conf {
  masterauth : option bytes; slave_announce_ip : option bytes; slave_announce_port : Z; port : Z; cluster_enabled : bool }.

Record rserver := mk_r {
  repl_state : Z; masterhost : option (bytes * Z); master : option mclient; cached_master : option mclient;
  master_replid : bytes; master_initial_offset : Z; ids : repl_ids; rng : ring;
  repl_transfer_s : Z; xfer : transfer; nslaves : nat; conf : rconf }.

Definition set_state (s : rserver) (n : Z) : rserver :=
  mk_r n (masterhost s) (master s) (cached_master s) (master_replid s) (master_initial_offset s) (ids s) (rng s)
    (repl_transfer_s s) (xfer s) (nslaves s) (conf s).
Definition set_host (s : rserver) (h : option (bytes * Z)) : rserver :=
  mk_r (repl_state s) h (master s) (cached_master s) (master_replid s) (master_initial_offset s) (ids s) (rng s)
    (repl_transfer_s s) (xfer s) (nslaves s) (conf s).
Definition set_masters (s : rserver) (m cm : option mclient) : rserver :=
  mk_r (repl_state s) (masterhost s) m cm (master_replid s) (master_initial_offset s) (ids s) (rng s)
    (repl_transfer_s s) (xfer s) (nslaves s) (conf s).
Definition set_initial (s : rserver) (id : bytes) (off : Z) : rserver :=
  mk_r (repl_state s) (masterhost s) (master s) (cached_master s) id off (ids s) (rng s)
    (repl_transfer_s s) (xfer s) (nslaves s) (conf s).
Definition set_ids (s : rserver) (i : repl_ids) : rserver :=
  mk_r (repl_state s) (masterhost s) (master s) (cached_master s) (master_replid s) (master_initial_offset s) i (rng s)
    (repl_transfer_s s) (xfer s) (nslaves s) (conf s).
Definition set_ring (s : rserver) (r : ring) : rserver :=
  mk_r (repl_state s) (masterhost s) (master s) (cached_master s) (master_replid s) (master_initial_offset s) (ids s) r
    (repl_transfer_s s) (xfer s) (nslaves s) (conf s).
Definition set_socket (s : rserver) (fd : Z) : rserver :=
  mk_r (repl_state s) (masterhost s) (master s) (cached_master s) (master_replid s) (master_initial_offset s) (ids s) (rng s)
    fd (xfer s) (nslaves s) (conf s).
Definition set_xfer (s : rserver) (x : transfer) : rserver :=
  mk_r (repl_state s) (masterhost s) (master s) (cached_master s) (master_replid s) (master_initial_offset s) (ids s) (rng s)
    (repl_transfer_s s) x (nslaves s) (conf s).
Definition disconnectSlaves (s : rserver) : rserver :=
  mk_r (repl_state s) (masterhost s) (master s) (cached_master s) (master_replid s) (master_initial_offset s) (ids s) (rng s)
    (repl_transfer_s s) (xfer s) 0 (conf s).

Definition in_state (s : rserver) (n : Z) : bool := bool_decide (repl_state s = n).

(** ** Giving up *)

Definition slaveIsInHandshakeState (s : rserver) : bool :=
  bool_decide (REPL_STATE_RECEIVE_PONG <= repl_state s <= REPL_STATE_RECEIVE_PSYNC)%Z.

Definition undoConnectWithMaster (s : rserver) : rserver := set_socket s (-1).

(** The file is closed and removed. *)
Definition replicationAbortSyncTransfer (s : rserver) : out rserver :=
  if negb (in_state s REPL_STATE_TRANSFER) then Fail AssertFail
  else
    let s := undoConnectWithMaster s in
    let x := xfer s in
    match x_file x with
    | None => Fail Dangling
    | Some _ => Ret (set_xfer s (set_file x None (rdb_file x)))
    end.

Definition cancelReplicationHandshake (s : rserver) : out rserver :=
  if in_state s REPL_STATE_TRANSFER then
    s ← replicationAbortSyncTransfer s; Ret (set_state s REPL_STATE_CONNECT)
  else if in_state s REPL_STATE_CONNECTING || slaveIsInHandshakeState s then
    Ret (set_state (undoConnectWithMaster s) REPL_STATE_CONNECT)
  else Ret s.

(** ** The master that is kept for later *)

Definition replicationHandleMasterDisconnection (s : rserver) : rserver :=
  set_state (set_masters s None (cached_master s)) REPL_STATE_CONNECT.

Definition replicationCacheMaster (s : rserver) : out rserver :=
  match master s, cached_master s with
  | Some m, None => Ret (replicationHandleMasterDisconnection (set_masters s (Some m) (Some m)))
  | _, _ => Fail AssertFail
  end.

(** [freeClient(server.master)], called directly; [blocked]: CLIENT_CLOSE_AFTER_REPLY,
    CLIENT_BLOCKED or CLIENT_UNBLOCKED. *)
Definition freeClient_master (s : rserver) (blocked : bool) : out rserver :=
  match master s with
  | None => Fail NullDeref
  | Some m =>
    if negb (m_close m || blocked) then replicationCacheMaster s
    else Ret (replicationHandleMasterDisconnection s)
  end.

(** The queue of clients to be closed: the flag is taken off before the master is freed, so
    that here it is kept for a partial resynchronization. *)
Definition freeClientsInAsyncFreeQueue (s : rserver) (blocked : bool) : out rserver :=
  match master s with
  | Some m =>
    if m_close m
    then freeClient_master (set_masters s (Some (mk_m (m_replid m) (m_reploff m) (m_fd m) (m_pre_psync m) false)) (cached_master s)) blocked
    else Ret s
  | None => Ret s
  end.

Definition replicationDiscardCachedMaster (s : rserver) : rserver := set_masters s (master s) None.

Definition replicationCreateMasterClient (s : rserver) (fd : Z) : rserver :=
  let off := master_initial_offset s in
  set_masters s (Some (mk_m (master_replid s) off fd (bool_decide (off = -1)%Z) false)) (cached_master s).

Definition replicationCacheMasterUsingMyself (s : rserver) : rserver :=
  let s := set_initial s (master_replid s) (master_repl_offset (rng s)) in
  let s := replicationCreateMasterClient s (-1) in
  let m := mk_m (replid (ids s)) (master_initial_offset s) (-1) (bool_decide (master_initial_offset s = -1)%Z) false in
  set_masters s None (Some m).

(** [event_ok]: the read handler could be installed.  There is nothing to write: the
    buffers were emptied. *)
Definition replicationResurrectCachedMaster (s : rserver) (newfd : Z) (event_ok : bool) : out rserver :=
  match cached_master s with
  | None => Fail NullDeref
  | Some m =>
    Ret (set_state (set_masters s (Some (mk_m (m_replid m) (m_reploff m) newfd (m_pre_psync m) (negb event_ok))) None)
           REPL_STATE_CONNECTED)
  end.

(** ** Replication ids *)

Definition clearReplicationId2 (i : repl_ids) : repl_ids :=
  mk_ids (replid i) (replicate CONFIG_RUN_ID_SIZE "0"%char) (-1).

(** [newid]: forty random characters. *)
Definition shiftReplicationId (s : rserver) (newid : bytes) : rserver :=
  set_ids s (mk_ids newid (replid (ids s)) (master_repl_offset (rng s) + 1)).

(** ** PSYNC *)

(** What the world answers to a call of [syncWithMaster]: the state of the socket, the
    line that is read, whether writes, the temporary file and handlers are fine, and
    the memory of a new backlog. *)
Record sync_env := mk_env {
  sockerr : bool; line : option bytes; write_ok : bool; open_ok : bool; event_ok : bool; bmem : bytes }.

(** [sendSynchronousCommand], writing and reading. *)
Definition sync_command (args : list bytes) : bytes :=
  foldl (λ cmd a, sdscat (if bool_decide (cmd = []) then cmd else sdscatlen cmd (str " ") 1) a) sdsempty args ++ CRLF.

Definition sync_reply (e : sync_env) : bytes :=
  match line e with Some l => cstr l | None => str "-Reading from master: error" end.

Definition starts_with (p s : bytes) : bool := bool_decide (take (length p) s = p).
Definition first_char (s : bytes) : ascii := default NUL (s !! 0).

(** [strtoll(s,NULL,10)] *)
Fixpoint skip_spaces (s : bytes) : bytes :=
  match s with c :: t => if isspace c then skip_spaces t else s | [] => [] end.
Fixpoint digit_prefix (s : bytes) : bytes :=
  match s with c :: t => if is_digit c then c :: digit_prefix t else [] | [] => [] end.
Definition strtoll (s : bytes) : Z :=
  let s := skip_spaces s in
  let '(neg, s) := match s with
                   | c :: t => if bool_decide (c = "-"%char) then (true, t) else if bool_decide (c = "+"%char) then (false, t) else (false, s)
                   | [] => (false, [])
                   end in
  let v := decimal (digit_prefix s) in
  if (neg : bool) then Z.max LLONG_MIN (- v) else Z.min LLONG_MAX v.

Definition space_at (s : bytes) : option nat := fst <$> list_find (λ c, c = " "%char) s.

(** The id and the offset of a +FULLRESYNC line. *)
Definition parse_fullresync (reply : bytes) : option (bytes * bytes) :=
  match space_at reply with
  | None => None
  | Some i =>
    let id := drop (S i) reply in
    match space_at id with
    | None => None
    | Some j => if bool_decide (j = CONFIG_RUN_ID_SIZE) then Some (take j id, drop (S j) id) else None
    end
  end.

(** [end-reply-9] for the end of the line from the tenth character on. *)
Fixpoint line_length (s : bytes) : nat :=
  match s with
  | c :: t => if bool_decide (c = CR ∨ c = LF ∨ c = NUL) then 0 else S (line_length t)
  | [] => 0
  end.

Inductive psync := PSYNC_WAIT_REPLY | PSYNC_CONTINUE | PSYNC_FULLRESYNC | PSYNC_NOT_SUPPORTED | PSYNC_TRY_LATER.

(** The writing half: the command. *)
Definition psync_request (s : rserver) : rserver * list bytes :=
  (set_initial s (master_replid s) (-1),
   match cached_master s with
   | Some m => [str "PSYNC"; m_replid m; fmt (m_reploff m + 1)]
   | None => [str "PSYNC"; str "?"; str "-1"]
   end).

(** The new id of the master, when it is not the cached one. *)
Definition adopt_id (s : rserver) (reply : bytes) : out rserver :=
  if bool_decide (line_length (drop 9 reply) = S CONFIG_RUN_ID_SIZE) then
    let new := take CONFIG_RUN_ID_SIZE (drop 10 reply) in
    match cached_master s with
    | None => Fail NullDeref
    | Some m =>
      if bool_decide (new = cstr (m_replid m)) then Ret s
      else
        let s := set_ids s (mk_ids new (m_replid m) (master_repl_offset (rng s) + 1)) in
        let s := set_masters s (master s) (Some (mk_m new (m_reploff m) (m_fd m) (m_pre_psync m) (m_close m))) in
        Ret (disconnectSlaves s)
    end
  else Ret s.

(** The reading half. *)
Definition slaveTryPartialResynchronization (e : sync_env) (s : rserver) : out (rserver * psync) :=
  let reply := sync_reply e in
  if bool_decide (reply = []) then Ret (s, PSYNC_WAIT_REPLY)
  else if starts_with (str "+FULLRESYNC") reply then
    let s := match parse_fullresync reply with
             | None => set_initial s (replicate (S CONFIG_RUN_ID_SIZE) NUL) (master_initial_offset s)
             | Some (id, offset) => set_initial s id (strtoll offset)
             end in
    Ret (replicationDiscardCachedMaster s, PSYNC_FULLRESYNC)
  else if starts_with (str "+CONTINUE") reply then
    s ← adopt_id s reply;
    s ← replicationResurrectCachedMaster s (repl_transfer_s s) (event_ok e);
    r ← (if bool_decide (repl_backlog (rng s) = None) then createReplicationBacklog (rng s) (bmem e) else Ret (rng s));
    Ret (set_ring s r, PSYNC_CONTINUE)
  else if starts_with (str "-NOMASTERLINK") reply || starts_with (str "-LOADING") reply then Ret (s, PSYNC_TRY_LATER)
  else Ret (replicationDiscardCachedMaster s, PSYNC_NOT_SUPPORTED).

(** ** The handshake *)

(** A part of [syncWithMaster] returns, with the bytes written, or goes on. *)
Inductive flow := Stop (s : rserver) (w : bytes) | Go (s : rserver).

Definition and_then (f : flow) (k : rserver → flow) : flow := match f with Stop s w => Stop s w | Go s => k s end.

(** The label error. *)
Definition sync_error (s : rserver) : rserver := set_state (set_socket s (-1)) REPL_STATE_CONNECT.

(** A command is written, and the state becomes [next]. *)
Definition send (e : sync_env) (args : list bytes) (next : Z) (s : rserver) : flow :=
  if write_ok e then Stop (set_state s next) (sync_command args) else Stop (sync_error s) [].

Definition ping (e : sync_env) (s : rserver) : flow :=
  if in_state s REPL_STATE_CONNECTING then send e [str "PING"] REPL_STATE_RECEIVE_PONG s else Go s.

Definition pong (e : sync_env) (s : rserver) : flow :=
  if in_state s REPL_STATE_RECEIVE_PONG then
    let err := sync_reply e in
    if bool_decide (first_char err ≠ "+"%char) && negb (starts_with (str "-NOAUTH") err)
       && negb (starts_with (str "-ERR operation not permitted") err)
    then Stop (sync_error s) []
    else Go (set_state s REPL_STATE_SEND_AUTH)
  else Go s.

Definition send_auth (e : sync_env) (s : rserver) : flow :=
  if in_state s REPL_STATE_SEND_AUTH then
    match masterauth (conf s) with
    | Some pass => send e [str "AUTH"; pass] REPL_STATE_RECEIVE_AUTH s
    | None => Go (set_state s REPL_STATE_SEND_PORT)
    end
  else Go s.

Definition receive_auth (e : sync_env) (s : rserver) : flow :=
  if in_state s REPL_STATE_RECEIVE_AUTH then
    if bool_decide (first_char (sync_reply e) = "-"%char) then Stop (sync_error s) []
    else Go (set_state s REPL_STATE_SEND_PORT)
  else Go s.

Definition send_port (e : sync_env) (s : rserver) : flow :=
  if in_state s REPL_STATE_SEND_PORT then
    let p := if bool_decide (slave_announce_port (conf s) ≠ 0)%Z then slave_announce_port (conf s) else port (conf s) in
    send e [str "REPLCONF"; str "listening-port"; fmt p] REPL_STATE_RECEIVE_PORT s
  else Go s.

(** The reply is read and ignored. *)
Definition receive (from to : Z) (s : rserver) : flow := Go (if in_state s from then set_state s to else s).

Definition skip_ip (s : rserver) : flow :=
  Go (if in_state s REPL_STATE_SEND_IP && bool_decide (slave_announce_ip (conf s) = None)
      then set_state s REPL_STATE_SEND_CAPA else s).

Definition send_ip (e : sync_env) (s : rserver) : flow :=
  if in_state s REPL_STATE_SEND_IP then
    send e [str "REPLCONF"; str "ip-address"; default [] (slave_announce_ip (conf s))] REPL_STATE_RECEIVE_IP s
  else Go s.

Definition send_capa (e : sync_env) (s : rserver) : flow :=
  if in_state s REPL_STATE_SEND_CAPA then
    send e [str "REPLCONF"; str "capa"; str "eof"; str "capa"; str "psync2"] REPL_STATE_RECEIVE_CAPA s
  else Go s.

Definition send_psync (e : sync_env) (s : rserver) : flow :=
  if in_state s REPL_STATE_SEND_PSYNC then let '(s, args) := psync_request s in send e args REPL_STATE_RECEIVE_PSYNC s else Go s.

(** All stages up to the request. *)
Definition handshake (e : sync_env) (s : rserver) : flow :=
  and_then (ping e s) (λ s, and_then (pong e s) (λ s, and_then (send_auth e s) (λ s,
  and_then (receive_auth e s) (λ s, and_then (send_port e s) (λ s,
  and_then (receive REPL_STATE_RECEIVE_PORT REPL_STATE_SEND_IP s) (λ s,
  and_then (skip_ip s) (λ s, and_then (send_ip e s) (λ s,
  and_then (receive REPL_STATE_RECEIVE_IP REPL_STATE_SEND_CAPA s) (λ s,
  and_then (send_capa e s) (λ s,
  and_then (receive REPL_STATE_RECEIVE_CAPA REPL_STATE_SEND_PSYNC s) (λ s, send_psync e s))))))))))).

(** After the answer to PSYNC: the snapshot is prepared. *)
Definition start_transfer (e : sync_env) (s : rserver) (not_supported : bool) : out (rserver * bytes) :=
  let s := disconnectSlaves s in
  r ← freeReplicationBacklog (rng s) (nslaves s);
  let s := set_ring s r in
  if not_supported && negb (write_ok e) then Ret (sync_error s, [])
  else
    let w := if not_supported then str "SYNC" ++ CRLF else [] in
    if negb (open_ok e) then Ret (sync_error s, w)
    else if negb (event_ok e) then Ret (sync_error s, w)
    else
      Ret (set_xfer (set_state s REPL_STATE_TRANSFER) (set_file (set_progress (xfer s) (-1) 0) (Some []) (rdb_file (xfer s))), w).

Definition syncWithMaster (e : sync_env) (s : rserver) : out (rserver * bytes) :=
  if in_state s REPL_STATE_NONE then Ret (s, [])
  else if sockerr e then Ret (sync_error s, [])
  else
    match handshake e s with
    | Stop s w => Ret (s, w)
    | Go s =>
      if negb (in_state s REPL_STATE_RECEIVE_PSYNC) then Ret (sync_error s, [])
      else
        '(s, r) ← slaveTryPartialResynchronization e s;
        match r with
        | PSYNC_WAIT_REPLY => Ret (s, [])
        | PSYNC_TRY_LATER => Ret (sync_error s, [])
        | PSYNC_CONTINUE => Ret (s, [])
        | PSYNC_FULLRESYNC => start_transfer e s false
        | PSYNC_NOT_SUPPORTED => start_transfer e s true
        end
    end.

(** ** The snapshot *)

(** What the world answers to a call of [readSyncBulkPayload]: a line, bytes from the
    socket ([[]] for an error), the results of [write], [ftruncate], [rename] and
    [rdbLoad], and the memory of a new backlog. *)
Record payload_env := mk_pay {
  p_line : option bytes; p_data : bytes; file_ok : bool; truncate_ok : bool; rename_ok : bool; load_ok : bool; p_bmem : bytes }.

(** The header of the payload: a size, or a mark at the end. *)
Definition payload_header (e : payload_env) (s : rserver) : out rserver :=
  match p_line e with
  | None => cancelReplicationHandshake s
  | Some l =>
    let buf := cstr l in
    let x := xfer s in
    if bool_decide (first_char buf = "-"%char) then cancelReplicationHandshake s
    else if bool_decide (first_char buf = NUL) then Ret s
    else if bool_decide (first_char buf ≠ "$"%char) then cancelReplicationHandshake s
    else if starts_with (str "EOF:") (drop 1 buf) && bool_decide (CONFIG_RUN_ID_SIZE <= length (drop 5 buf)) then
      Ret (set_xfer s (set_progress (set_mark x true (take CONFIG_RUN_ID_SIZE (drop 5 buf)) (replicate CONFIG_RUN_ID_SIZE NUL))
                         0 (repl_transfer_read x)))
    else Ret (set_xfer s (set_progress (set_mark x false (eofmark x) (lastbytes x)) (strtoll (drop 1 buf)) (repl_transfer_read x)))
  end.

(** The last forty bytes after [data]. *)
Definition last_bytes (old data : bytes) : bytes :=
  if bool_decide (CONFIG_RUN_ID_SIZE <= length data) then drop (length data - CONFIG_RUN_ID_SIZE) data
  else drop (length data) old ++ data.

(** The snapshot is complete: it replaces [server.rdb_filename] and is loaded. *)
Definition payload_done (e : payload_env) (s : rserver) : out rserver :=
  if negb (rename_ok e) then cancelReplicationHandshake s
  else
    let s := set_xfer s (set_file (xfer s) (x_file (xfer s)) (default [] (x_file (xfer s)))) in
    if negb (load_ok e) then cancelReplicationHandshake s
    else
    let s := set_xfer s (set_file (xfer s) None (rdb_file (xfer s))) in
    let s := replicationCreateMasterClient s (repl_transfer_s s) in
    let s := set_state s REPL_STATE_CONNECTED in
    let i := mk_ids (master_replid s) (replid2 (ids s)) (second_replid_offset (ids s)) in
    let s := set_ids s (clearReplicationId2 i) in
    let r := rng s in
    let r := mk_ring (repl_backlog r) (repl_backlog_size r) (repl_backlog_idx r) (repl_backlog_histlen r) (repl_backlog_off r)
               (master_initial_offset s) in
    r ← (if bool_decide (repl_backlog r = None) then createReplicationBacklog r (p_bmem e) else Ret r);
    Ret (set_ring s r).

(** How much is asked of [read]; a negative number is a size above SSIZE_MAX, which
    [read] refuses with EINVAL. *)
Definition payload_readlen (x : transfer) : Z :=
  if usemark x then 4096%Z
  else
    let left := (repl_transfer_size x - repl_transfer_read x)%Z in
    if bool_decide (left < 4096)%Z then left else 4096%Z.

(** The bytes [buf] were read. *)
Definition payload_chunk (e : payload_env) (s : rserver) (buf : bytes) : out rserver :=
  let x := xfer s in
  let last := if usemark x then last_bytes (lastbytes x) buf else lastbytes x in
  let marked := usemark x && bool_decide (last = eofmark x) in
  let s := set_xfer s (set_mark x (usemark x) (eofmark x) last) in
  match x_file x with
  | None => Fail Dangling
  | Some file =>
    if negb (file_ok e) then cancelReplicationHandshake s
    else
      let read := (repl_transfer_read x + zlen buf)%Z in
      let s := set_xfer s (set_progress (set_file (xfer s) (Some (file ++ buf)) (rdb_file x)) (repl_transfer_size x) read) in
      if marked && negb (truncate_ok e) then cancelReplicationHandshake s
      else
        let s := if marked
                 then set_xfer s (set_file (xfer s) (Some (take (Z.to_nat (read - Z.of_nat CONFIG_RUN_ID_SIZE)) (file ++ buf))) (rdb_file x))
                 else s in
        if marked || negb (usemark x) && bool_decide (read = repl_transfer_size x) then payload_done e s else Ret s
  end.

Definition readSyncBulkPayload (e : payload_env) (s : rserver) : out rserver :=
  if bool_decide (repl_transfer_size (xfer s) = -1)%Z then payload_header e s
  else
    let buf := take (Z.to_nat (payload_readlen (xfer s))) (p_data e) in
    if bool_decide (buf = []) then cancelReplicationHandshake s else payload_chunk e s buf.

(** ** Connecting, and SLAVEOF *)

(** [fd]: the socket, if one could be opened. *)
Definition connectWithMaster (s : rserver) (fd : option Z) (event_ok : bool) : rserver :=
  match fd with
  | None => s
  | Some fd => if negb event_ok then s else set_state (set_socket s fd) REPL_STATE_CONNECTING
  end.

(** [freeClient(server.master)] if there is one. *)
Definition free_master (s : rserver) (blocked : bool) : out rserver :=
  if bool_decide (is_Some (master s)) then freeClient_master s blocked else Ret s.

(** The [int] a [long] becomes as an argument. *)
Definition int_of (p : Z) : Z := ((p + 2 ^ 31) mod 2 ^ 32 - 2 ^ 31)%Z.

Definition replicationSetMaster (s : rserver) (host : bytes) (p : Z) (blocked : bool) : out rserver :=
  let was_master := bool_decide (masterhost s = None) in
  let s := set_host s (Some (cstr host, int_of p)) in
  s ← free_master s blocked;
  let s := disconnectSlaves s in
  s ← cancelReplicationHandshake s;
  let s := if was_master then replicationCacheMasterUsingMyself s else s in
  Ret (set_state s REPL_STATE_CONNECT).

Definition replicationUnsetMaster (s : rserver) (newid : bytes) (blocked : bool) : out rserver :=
  if bool_decide (masterhost s = None) then Ret s
  else
    let s := set_host s None in
    let s := shiftReplicationId s newid in
    s ← free_master s blocked;
    let s := replicationDiscardCachedMaster s in
    s ← cancelReplicationHandshake s;
    let s := disconnectSlaves s in
    Ret (set_state s REPL_STATE_NONE).

(** SLAVEOF, with its reply; [newid]: the new id for NO ONE. *)
Definition slaveofCommand (s : rserver) (a1 a2 newid : bytes) (blocked : bool) : out (rserver * bytes) :=
  let ok := str "+OK" ++ CRLF in
  if cluster_enabled (conf s) then Ret (s, str "-ERR SLAVEOF not allowed in cluster mode." ++ CRLF)
  else if strcasecmp_eq a1 (str "no") && strcasecmp_eq a2 (str "one") then
    s ← (if bool_decide (is_Some (masterhost s)) then replicationUnsetMaster s newid blocked else Ret s);
    Ret (s, ok)
  else
    match string2ll a2 with
    | None => Ret (s, str "-ERR value is not an integer or out of range" ++ CRLF)
    | Some p =>
      let attached := match masterhost s with Some (h, q) => strcasecmp_eq h a1 && bool_decide (q = p) | None => false end in
      if attached then Ret (s, str "+OK Already connected to specified master" ++ CRLF)
      else s ← replicationSetMaster s a1 p blocked; Ret (s, ok)
    end.

(** The part of [replicationCron] for slaves.  The flags: the timeouts of the handshake,
    of the transfer and of the master. *)
Definition replicationCron (s : rserver) (t1 t2 t3 blocked : bool) (fd : option Z) (event_ok : bool) : out rserver :=
  let host := bool_decide (is_Some (masterhost s)) in
  s ← (if host && (in_state s REPL_STATE_CONNECTING || slaveIsInHandshakeState s) && t1
       then cancelReplicationHandshake s else Ret s);
  s ← (if host && in_state s REPL_STATE_TRANSFER && t2 then cancelReplicationHandshake s else Ret s);
  s ← (if host && in_state s REPL_STATE_CONNECTED && t3 then freeClient_master s blocked else Ret s);
  Ret (if in_state s REPL_STATE_CONNECT then connectWithMaster s fd event_ok else s).

(** ** Runs *)

(** The events: the socket of the handshake, the socket during the transfer, the loss of
    the connection, the queue of clients to be closed, SLAVEOF, the timer. *)
Inductive revent :=
  | Socket (e : sync_env)
  | Bulk (e : payload_env)
  | Lost (blocked : bool)
  | Closed (blocked : bool)
  | SlaveOf (a1 a2 newid : bytes) (blocked : bool)
  | Cron (t1 t2 t3 blocked : bool) (fd : option Z) (event_ok : bool).

(** An event whose handler is not installed does not happen. *)
Definition repl_step (s : rserver) (ev : revent) : out rserver :=
  match ev with
  | Socket e =>
    if in_state s REPL_STATE_CONNECTING || slaveIsInHandshakeState s then '(s, _) ← syncWithMaster e s; Ret s else Ret s
  | Bulk e => if in_state s REPL_STATE_TRANSFER then readSyncBulkPayload e s else Ret s
  | Lost blocked => if in_state s REPL_STATE_CONNECTED then freeClient_master s blocked else Ret s
  | Closed blocked => freeClientsInAsyncFreeQueue s blocked
  | SlaveOf a1 a2 newid blocked => '(s, _) ← slaveofCommand s a1 a2 newid blocked; Ret s
  | Cron t1 t2 t3 blocked fd ok => replicationCron s t1 t2 t3 blocked fd ok
  end.

(** ** The states are consistent *)

(** There is a client of the master exactly in the state CONNECTED, and then no old one
    and a backlog; the temporary file is open exactly during the transfer, when there is
    no old master and no backlog; there is no old master in the state NONE. *)
Record linked (s : rserver) : Prop := {
  co_master : is_Some (master s) ↔ repl_state s = REPL_STATE_CONNECTED;
  co_file : is_Some (x_file (xfer s)) ↔ repl_state s = REPL_STATE_TRANSFER;
  co_range : (REPL_STATE_NONE ≤ repl_state s ≤ REPL_STATE_CONNECTED)%Z;
  co_cached : is_Some (cached_master s) → (REPL_STATE_NONE < repl_state s < REPL_STATE_TRANSFER)%Z;
  co_backlog : repl_state s = REPL_STATE_CONNECTED → is_Some (repl_backlog (rng s));
  co_freed : repl_state s = REPL_STATE_TRANSFER → repl_backlog (rng s) = None;
}.

(** And the state is NONE exactly when the server has no master. *)
Definition consistent (s : rserver) : Prop := (masterhost s = None ↔ repl_state s = REPL_STATE_NONE) ∧ linked s.

Ltac states := unfold REPL_STATE_NONE, REPL_STATE_CONNECT, REPL_STATE_CONNECTING, REPL_STATE_RECEIVE_PONG,
  REPL_STATE_SEND_AUTH, REPL_STATE_RECEIVE_AUTH, REPL_STATE_SEND_PORT, REPL_STATE_RECEIVE_PORT, REPL_STATE_SEND_IP,
  REPL_STATE_RECEIVE_IP, REPL_STATE_SEND_CAPA, REPL_STATE_RECEIVE_CAPA, REPL_STATE_SEND_PSYNC, REPL_STATE_RECEIVE_PSYNC,
  REPL_STATE_TRANSFER, REPL_STATE_CONNECTED in *.

Lemma none_not_some {A} (o : option A) : ¬ is_Some o ↔ o = None.
Proof. symmetry. apply eq_None_not_Some. Qed.

(** While the connection is being made: the state moves between CONNECT and RECEIVE_PSYNC. *)
Definition under_way (n : Z) : Prop := (REPL_STATE_CONNECT ≤ n ≤ REPL_STATE_RECEIVE_PSYNC)%Z.

Lemma way_linked s s' :
  linked s → under_way (repl_state s) → under_way (repl_state s') →
  master s' = master s → x_file (xfer s') = x_file (xfer s) → linked s'.
Proof.
  intros [H2 H3 H4 H5 H6 H7] U U' E2 E3. unfold under_way in *.
  split; rewrite ?E2, ?E3, ?H2, ?H3; states; lia.
Qed.

Lemma consistent_kept s s' :
  consistent s → linked s' → masterhost s' = masterhost s →
  repl_state s ≠ REPL_STATE_NONE → repl_state s' ≠ REPL_STATE_NONE → consistent s'.
Proof. intros [H _] HL E H1 H2. split; [|done]. rewrite E, H. tauto. Qed.

(** The same server but for its state, the socket and the initial offset. *)
Definition moved (s s' : rserver) : Prop :=
  under_way (repl_state s')
  ∧ ∃ fd off, s' = set_state (set_socket (set_initial s (master_replid s) off) fd) (repl_state s').

Lemma moved_state s n : under_way n → moved s (set_state s n).
Proof. intros U. split; [done|]. exists (repl_transfer_s s), (master_initial_offset s). by destruct s. Qed.

Lemma moved_error s : moved s (sync_error s).
Proof. split; [unfold under_way; simpl; states; lia|]. exists (-1)%Z, (master_initial_offset s). by destruct s. Qed.

Lemma moved_trans s s1 s2 : moved s s1 → moved s1 s2 → moved s s2.
Proof.
  intros [_ (fd & off & ->)] [U (fd2 & off2 & E)]. split; [done|]. exists fd2, off2. rewrite E. by destruct s.
Qed.

Lemma moved_consistent s s' : consistent s → under_way (repl_state s) → moved s s' → consistent s'.
Proof.
  intros HC U [U' (fd & off & E)]. apply (consistent_kept s); [done| |by rewrite E|unfold under_way in *; states; lia..].
  apply (way_linked s); [apply HC|done|done|by rewrite E..].
Qed.

(** A part of the handshake ends the call, or leaves the states before [k] behind; the
    state RECEIVE_PSYNC is not reached without ending the call. *)
Definition passes (k : Z) (s : rserver) (f : flow) : Prop :=
  match f with
  | Stop s' _ => moved s s'
  | Go s' => (k ≤ repl_state s' ≤ REPL_STATE_RECEIVE_PSYNC)%Z ∧ s' = set_state s (repl_state s')
    ∧ (repl_state s' = REPL_STATE_RECEIVE_PSYNC → repl_state s = REPL_STATE_RECEIVE_PSYNC)
  end.

Lemma passes_then k k' s f g :
  (REPL_STATE_CONNECT ≤ k)%Z → passes k s f →
  (∀ s', (k ≤ repl_state s' ≤ REPL_STATE_RECEIVE_PSYNC)%Z → passes k' s' (g s')) →
  passes k' s (and_then f g).
Proof.
  intros Hk Hf Hg. destruct f as [s1 w|s1]; [done|]. destruct Hf as (Hr & E & Hp). specialize (Hg s1 Hr). simpl.
  assert (moved s s1) as HM by (rewrite E; apply moved_state; unfold under_way in *; states; lia).
  destruct (g s1) as [s2 w|s2]; simpl in *; [by apply (moved_trans _ s1)|].
  destruct Hg as (Hr2 & E2 & Hp2). split; [done|]. split; [rewrite E2, E; by destruct s|auto].
Qed.

Lemma passes_send k e args next s : under_way next → passes k s (send e args next s).
Proof. intros U. unfold send. destruct (write_ok e); [by apply moved_state|apply moved_error]. Qed.

Lemma passes_go k s n : (k ≤ n < REPL_STATE_RECEIVE_PSYNC)%Z → passes k s (Go (set_state s n)).
Proof. intros H. simpl. split; [lia|]. split; [done|lia]. Qed.

Lemma passes_skip k s : (k ≤ repl_state s ≤ REPL_STATE_RECEIVE_PSYNC)%Z → passes k s (Go s).
Proof. intros H. split; [done|]. split; [by destruct s|done]. Qed.

Ltac stage :=
  repeat (case_bool_decide || case_match); simplify_eq/=;
  first [ apply passes_send; unfold under_way; states; lia
        | apply passes_go; states; lia
        | apply passes_skip; states; lia
        | apply moved_error ].

Lemma handshake_passes e s :
  (REPL_STATE_CONNECTING ≤ repl_state s ≤ REPL_STATE_RECEIVE_PSYNC)%Z →
  passes REPL_STATE_RECEIVE_PSYNC s (handshake e s).
Proof.
  intros H. unfold handshake.
  apply (passes_then REPL_STATE_RECEIVE_PONG); [done|unfold ping, in_state; stage|clear; intros s H].
  apply (passes_then REPL_STATE_SEND_AUTH); [done|unfold pong, in_state; stage|clear; intros s H].
  apply (passes_then REPL_STATE_RECEIVE_AUTH); [done|unfold send_auth, in_state; stage|clear; intros s H].
  apply (passes_then REPL_STATE_SEND_PORT); [done|unfold receive_auth, in_state; stage|clear; intros s H].
  apply (passes_then REPL_STATE_RECEIVE_PORT); [done|unfold send_port, in_state; stage|clear; intros s H].
  apply (passes_then REPL_STATE_SEND_IP); [done|unfold receive, in_state; stage|clear; intros s H].
  apply (passes_then REPL_STATE_SEND_IP); [done|unfold skip_ip, in_state; stage|clear; intros s H].
  apply (passes_then REPL_STATE_RECEIVE_IP); [done|unfold send_ip, in_state; stage|clear; intros s H].
  apply (passes_then REPL_STATE_SEND_CAPA); [done|unfold receive, in_state; stage|clear; intros s H].
  apply (passes_then REPL_STATE_RECEIVE_CAPA); [done|unfold send_capa, in_state; stage|clear; intros s H].
  apply (passes_then REPL_STATE_SEND_PSYNC); [done|unfold receive, in_state; stage|clear; intros s H].
  unfold send_psync, psync_request, in_state. case_bool_decide; [|stage].
  unfold send. destruct (write_ok e); (split; [unfold under_way; simpl; states; lia|]).
  - by exists (repl_transfer_s s), (-1)%Z.
  - by exists (-1)%Z, (-1)%Z.
Qed.

(** ** Giving up and losing the master *)

Lemma in_state_spec s n : in_state s n = true ↔ repl_state s = n.
Proof. apply bool_decide_eq_true. Qed.

Lemma cancel_linked s :
  linked s → repl_state s ≠ REPL_STATE_NONE →
  ∃ s', cancelReplicationHandshake s = Ret s' ∧ linked s' ∧ master s' = master s ∧ cached_master s' = cached_master s
    ∧ masterhost s' = masterhost s
    ∧ (repl_state s' = REPL_STATE_CONNECT ∨ s' = s ∧ repl_state s = REPL_STATE_CONNECTED).
Proof.
  intros HC Hn. pose proof HC as [H2 H3 H4 H5 H6 H7].
  unfold cancelReplicationHandshake, replicationAbortSyncTransfer, slaveIsInHandshakeState, in_state.
  case_bool_decide as Ht; simpl.
  - destruct (proj2 H3 Ht) as [f Ef]. rewrite Ef. bind_red. eexists. split_and!; [done| |done..|by left].
    split; simpl; states; try lia; [by rewrite H2; lia|split; [by intros [? [=]]|lia]].
  - destruct (decide (repl_state s = REPL_STATE_CONNECT ∨ repl_state s = REPL_STATE_CONNECTED)) as [E|E].
    + rewrite !bool_decide_eq_false_2 by (states; lia). simpl. exists s. split_and!; try done. destruct E; auto.
    + replace (_ || _) with true.
      2:{ symmetry. apply orb_true_iff. rewrite !bool_decide_eq_true. states. lia. }
      eexists. split_and!; [done| |done..|by left].
      apply (way_linked s); [done| | |done..]; unfold under_way; simpl; states; lia.
Qed.

Lemma free_linked s blocked :
  linked s → repl_state s = REPL_STATE_CONNECTED →
  ∃ s', freeClient_master s blocked = Ret s' ∧ linked s' ∧ repl_state s' = REPL_STATE_CONNECT ∧ masterhost s' = masterhost s.
Proof.
  intros [H2 H3 H4 H5 H6 H7] E. destruct (proj2 H2 E) as [m Em].
  assert (cached_master s = None) as Ec by (destruct (cached_master s); [|done]; specialize (H5 ltac:(done)); states; lia).
  unfold freeClient_master, replicationCacheMaster. rewrite Em, Ec.
  assert (∀ cm, linked (set_state (set_masters s None cm) REPL_STATE_CONNECT)) as HC.
  { intros cm. split; simpl; states; try lia; [split; [by intros [? [=]]|lia]|rewrite H3; lia]. }
  case_match; eexists; (split; [done|]); (split; [apply HC|done]).
Qed.

(** The same for the queue. *)
Lemma closed_linked s blocked :
  linked s →
  freeClientsInAsyncFreeQueue s blocked = Ret s
  ∨ repl_state s = REPL_STATE_CONNECTED
    ∧ ∃ s', freeClientsInAsyncFreeQueue s blocked = Ret s' ∧ linked s' ∧ repl_state s' = REPL_STATE_CONNECT ∧ masterhost s' = masterhost s.
Proof.
  intros HL. pose proof HL as [H2 H3 H4 H5 H6 H7]. unfold freeClientsInAsyncFreeQueue. destruct (master s) as [m|] eqn:Em; [|by left].
  destruct (m_close m); [|by left]. right. assert (repl_state s = REPL_STATE_CONNECTED) as E by (apply H2; eauto).
  split; [done|]. apply (free_linked (set_masters s _ (cached_master s))); [|done]. split; simpl; try done.
Qed.

(** What becomes of a server that has a master. *)
Definition kept_host (s : rserver) (m : out rserver) : Prop :=
  ∃ s', m = Ret s' ∧ linked s' ∧ repl_state s' ≠ REPL_STATE_NONE ∧ masterhost s' = masterhost s.

Lemma cancel_kept s : linked s → repl_state s ≠ REPL_STATE_NONE → kept_host s (cancelReplicationHandshake s).
Proof.
  intros HL Hn. destruct (cancel_linked s HL Hn) as (s' & E & HL' & _ & _ & Eh & Hs).
  exists s'. split_and!; [done|done| |done]. destruct Hs as [->|[-> _]]; [by states|done].
Qed.

Lemma free_kept s blocked :
  linked s → repl_state s ≠ REPL_STATE_NONE →
  ∃ s', free_master s blocked = Ret s' ∧ linked s' ∧ repl_state s' ≠ REPL_STATE_NONE ∧ repl_state s' ≠ REPL_STATE_CONNECTED
    ∧ masterhost s' = masterhost s.
Proof.
  intros HL Hn. unfold free_master. case_bool_decide as Hm.
  - destruct (free_linked s blocked HL) as (s' & E & HL' & Es & Eh); [by apply HL|].
    exists s'. rewrite Es. by states.
  - exists s. rewrite (co_master s HL) in Hm. done.
Qed.

Lemma kept_consistent s m :
  consistent s → repl_state s ≠ REPL_STATE_NONE → kept_host s m → returns m consistent.
Proof.
  intros HC Hn (s' & -> & HL & Hn' & E). exists s'. split; [done|]. by apply (consistent_kept s).
Qed.

(** ** SLAVEOF and the timer *)

Lemma set_host_linked s h : linked s → linked (set_host s h).
Proof. intros []. by split. Qed.

Lemma disconnect_linked s : linked s → linked (disconnectSlaves s).
Proof. intros []. by split. Qed.

(** A master becomes a slave: its own history serves as the old master's. *)
Lemma set_master_first s host p blocked :
  consistent s → repl_state s = REPL_STATE_NONE → returns (replicationSetMaster s host p blocked) consistent.
Proof.
  intros [H1 [H2 H3 H4 H5 H6 H7]] E. unfold replicationSetMaster, free_master. simpl.
  rewrite (bool_decide_eq_true_2 (masterhost s = None)) by (by apply H1).
  rewrite (bool_decide_eq_false_2 (is_Some (master s))) by (rewrite H2; states; lia). bind_red.
  unfold cancelReplicationHandshake, slaveIsInHandshakeState, in_state. simpl. rewrite E. simpl. bind_red.
  eexists. split; [done|]. split; [simpl; states; split; [done|lia]|].
  split; simpl; states; try lia; [split; [by intros [? [=]]|lia]|rewrite H3; lia].
Qed.

Lemma linked_connect s m : linked s → repl_state s = REPL_STATE_CONNECT → m = REPL_STATE_CONNECT → linked (set_state s m).
Proof. intros HL E ->. replace (set_state s REPL_STATE_CONNECT) with s; [done|]. destruct s. simpl in *. by subst. Qed.

Lemma set_master_again s host p blocked :
  consistent s → repl_state s ≠ REPL_STATE_NONE → returns (replicationSetMaster s host p blocked) consistent.
Proof.
  intros [H1 HL] Hn. unfold replicationSetMaster. rewrite (bool_decide_eq_false_2 (masterhost s = None)) by (by rewrite H1).
  set (s0 := set_host s _).
  destruct (free_kept s0 blocked) as (s1 & -> & HL1 & Hn1 & Hc1 & E1); [by apply set_host_linked|done|].
  bind_red. destruct (cancel_linked (disconnectSlaves s1)) as (s2 & -> & HL2 & _ & _ & E2 & Hs2).
  { by apply disconnect_linked. } { done. }
  bind_red. eexists. split; [done|].
  assert (repl_state s2 = REPL_STATE_CONNECT) as Hst by (by destruct Hs2 as [?|[-> ?]]).
  split; [|by apply linked_connect]. simpl. rewrite E2. simpl. rewrite E1. by states.
Qed.

Lemma unset_master_consistent s newid blocked :
  consistent s → returns (replicationUnsetMaster s newid blocked) consistent.
Proof.
  intros [H1 HL]. unfold replicationUnsetMaster. case_bool_decide as Hh; [by exists s|]. rewrite H1 in Hh.
  set (s0 := shiftReplicationId _ _). assert (linked s0) as HL0 by (by destruct HL).
  destruct (free_kept s0 blocked) as (s1 & -> & HL1 & Hn1 & Hc1 & E1); [done|done|]. bind_red.
  assert (linked (replicationDiscardCachedMaster s1)) as HL1' by (destruct HL1; split; simpl; auto; by intros [? [=]]).
  destruct (cancel_linked _ HL1') as (s2 & -> & HL2 & Em & Ec & E2 & Hs2); [done|].
  bind_red. eexists. split; [done|]. simpl in *.
  assert (repl_state s2 = REPL_STATE_CONNECT) as Hst by (by destruct Hs2 as [?|[-> ?]]).
  split; [simpl; by rewrite E2, E1|]. destruct HL2 as [K2 K3 K4 K5 K6 K7].
  split; simpl; rewrite ?K2, ?K3, ?Ec; states; try lia. by intros [? [=]].
Qed.

Lemma slaveof_consistent s a1 a2 newid blocked :
  consistent s → returns (slaveofCommand s a1 a2 newid blocked) (λ r, consistent r.1).
Proof.
  intros HC. unfold slaveofCommand. destruct (cluster_enabled (conf s)); [by apply returns_ret|].
  destruct (strcasecmp_eq a1 (str "no") && strcasecmp_eq a2 (str "one")).
  - eapply returns_bind; [|intros s' HC'; apply returns_ret; exact HC'].
    case_bool_decide; [by apply unset_master_consistent|by apply returns_ret].
  - destruct (string2ll a2) as [p|]; [|by apply returns_ret]. cbv zeta. case_match; [by apply returns_ret|].
    eapply returns_bind; [|intros s' HC'; apply returns_ret; exact HC'].
    destruct (decide (repl_state s = REPL_STATE_NONE)); [by apply set_master_first|by apply set_master_again].
Qed.

Lemma connect_consistent s fd ok :
  consistent s → returns (Ret (if in_state s REPL_STATE_CONNECT then connectWithMaster s fd ok else s)) consistent.
Proof.
  intros HC. apply returns_ret. case_match eqn:E; [|done]. rewrite in_state_spec in E.
  unfold connectWithMaster. repeat case_match; [done| |done].
  apply (moved_consistent s); [done|unfold under_way; states; lia|]. split; [unfold under_way; simpl; states; lia|].
  eexists _, (master_initial_offset s). by destruct s.
Qed.

(** A step of the timer, for a server with a master. *)
Lemma timer_step s h (b : bool) (m : out rserver) :
  consistent s → masterhost s = h → (b = true → repl_state s ≠ REPL_STATE_NONE → kept_host s m) →
  returns (if bool_decide (is_Some h) && b then m else Ret s) (λ s', consistent s' ∧ masterhost s' = h).
Proof.
  intros HC <- Hm. case_bool_decide as Hh; [|by exists s]. destruct b; [|by exists s]. simpl.
  assert (repl_state s ≠ REPL_STATE_NONE) as Hn.
  { rewrite <-(proj1 HC). intros E. rewrite E in Hh. by destruct Hh. }
  destruct (Hm eq_refl Hn) as (s' & -> & HL & Hn' & E). exists s'. split_and!; [done|by apply (consistent_kept s)|done].
Qed.

Lemma cron_consistent s t1 t2 t3 blocked fd ok :
  consistent s → returns (replicationCron s t1 t2 t3 blocked fd ok) consistent.
Proof.
  intros HC. unfold replicationCron. rewrite <-andb_assoc.
  eapply returns_bind; [apply timer_step; [done|done|intros _ Hn; apply cancel_kept; [apply HC|done]]|].
  intros s1 [HC1 E1]. rewrite <-E1, <-andb_assoc.
  eapply returns_bind; [apply timer_step; [done|done|intros _ Hn; apply cancel_kept; [apply HC1|done]]|].
  intros s2 [HC2 E2]. rewrite <-E2, <-andb_assoc.
  eapply returns_bind; [apply timer_step; [done|done|]|intros s3 [HC3 _]; by apply connect_consistent].
  rewrite andb_true_iff, in_state_spec. intros [Hc _] Hn.
  destruct (free_linked s2 blocked) as (s' & E & HL & Hs' & Eh); [apply HC2|done|].
  exists s'. split_and!; [done|done|by rewrite Hs'; states|done].
Qed.

(** ** The answer to PSYNC *)

(** The master grants a partial resynchronization nobody asked for. *)
Definition uncalled_continue (s : rserver) (e : sync_env) : Prop :=
  repl_state s = REPL_STATE_RECEIVE_PSYNC ∧ cached_master s = None
  ∧ starts_with (str "+CONTINUE") (sync_reply e) = true.

Lemma adopt_id_spec s reply m :
  cached_master s = Some m →
  ∃ s' m', adopt_id s reply = Ret s' ∧ cached_master s' = Some m' ∧ m_reploff m' = m_reploff m
    ∧ s' = mk_r (repl_state s) (masterhost s) (master s) (Some m') (master_replid s) (master_initial_offset s) (ids s') (rng s)
             (repl_transfer_s s) (xfer s) (nslaves s') (conf s).
Proof.
  intros Em. unfold adopt_id. rewrite Em. repeat case_match; eexists _, _; (split; [done|]).
  all: split_and!; [first [exact Em|reflexivity]|done|destruct s; simpl in *; by subst].
Qed.

Lemma continue_linked s e m :
  linked s → repl_state s = REPL_STATE_RECEIVE_PSYNC → cached_master s = Some m →
  starts_with (str "+CONTINUE") (sync_reply e) = true → starts_with (str "+FULLRESYNC") (sync_reply e) = false →
  sync_reply e ≠ [] →
  ∃ s', slaveTryPartialResynchronization e s = Ret (s', PSYNC_CONTINUE) ∧ linked s'
    ∧ repl_state s' = REPL_STATE_CONNECTED ∧ masterhost s' = masterhost s.
Proof.
  intros [H2 H3 H4 H5 H6 H7] Es Em Hc Hf Hn. unfold slaveTryPartialResynchronization.
  rewrite bool_decide_eq_false_2 by done. rewrite Hf, Hc.
  destruct (adopt_id_spec s (sync_reply e) m Em) as (s1 & m1 & -> & Em1 & _ & E1). bind_red.
  unfold replicationResurrectCachedMaster. rewrite Em1. bind_red. simpl.
  assert (rng s1 = rng s ∧ x_file (xfer s1) = x_file (xfer s) ∧ masterhost s1 = masterhost s) as (Er & Ex & Eh) by (by rewrite E1).
  assert (∃ r, (if bool_decide (repl_backlog (rng s1) = None) then createReplicationBacklog (rng s1) (bmem e) else Ret (rng s1)) = Ret r
    ∧ is_Some (repl_backlog r)) as (r & -> & Hr).
  { unfold createReplicationBacklog. case_bool_decide as Hb; [rewrite Hb; eexists; split; done|].
    eexists. split; [done|]. by apply not_eq_None_Some. }
  bind_red. eexists. split_and!; [done| |done|done].
  split; simpl; rewrite ?Ex, ?H3; states; try lia; [by split|by intros [? [=]]|done].
Qed.

Lemma start_transfer_kept e s b :
  linked s → repl_state s = REPL_STATE_RECEIVE_PSYNC → cached_master s = None →
  ∃ s' w, start_transfer e s b = Ret (s', w) ∧ linked s' ∧ repl_state s' ≠ REPL_STATE_NONE ∧ masterhost s' = masterhost s.
Proof.
  intros [H2 H3 H4 H5 H6 H7] Es Ec. unfold start_transfer, freeReplicationBacklog. bind_red. simpl.
  repeat case_match; eexists _, _; (split; [done|]); (split; [|split; [by states|done]]).
  all: split; simpl; rewrite ?H2, ?H3, ?Ec; states; try lia; try done; by intros [? [=]].
Qed.

(** What the reading half answers. *)
Definition answer_ok (s s' : rserver) (r : psync) : Prop :=
  linked s' ∧ masterhost s' = masterhost s
  ∧ match r with
    | PSYNC_CONTINUE => repl_state s' = REPL_STATE_CONNECTED
    | PSYNC_WAIT_REPLY | PSYNC_TRY_LATER => s' = s
    | PSYNC_FULLRESYNC | PSYNC_NOT_SUPPORTED => repl_state s' = REPL_STATE_RECEIVE_PSYNC ∧ cached_master s' = None
    end.

Lemma discard_answer s id off :
  linked s → repl_state s = REPL_STATE_RECEIVE_PSYNC →
  answer_ok s (replicationDiscardCachedMaster (set_initial s id off)) PSYNC_FULLRESYNC.
Proof.
  intros [H2 H3 H4 H5 H6 H7] Es. split; [|done]. split; simpl; done || (by intros [? [=]]).
Qed.

Lemma answer_spec e s :
  linked s → repl_state s = REPL_STATE_RECEIVE_PSYNC →
  (∃ s' r, slaveTryPartialResynchronization e s = Ret (s', r) ∧ answer_ok s s' r)
  ∨ uncalled_continue s e ∧ slaveTryPartialResynchronization e s = Fail NullDeref.
Proof.
  intros HL Hs. destruct (decide (sync_reply e = [])) as [E0|E0].
  { left. exists s, PSYNC_WAIT_REPLY. split; [|done]. unfold slaveTryPartialResynchronization. by rewrite bool_decide_eq_true_2. }
  destruct (starts_with (str "+FULLRESYNC") (sync_reply e)) eqn:Ef.
  { left. unfold slaveTryPartialResynchronization. rewrite bool_decide_eq_false_2, Ef by done. eexists _, PSYNC_FULLRESYNC.
    split; [done|]. destruct (parse_fullresync (sync_reply e)) as [[id off]|]; by apply discard_answer. }
  destruct (starts_with (str "+CONTINUE") (sync_reply e)) eqn:Ec.
  - destruct (cached_master s) as [m|] eqn:Em.
    + left. destruct (continue_linked s e m) as (s' & E & HL' & Es' & Eh'); try done. by exists s', PSYNC_CONTINUE.
    + right. split; [done|]. unfold slaveTryPartialResynchronization, adopt_id. rewrite bool_decide_eq_false_2 by done.
      rewrite Ef, Ec, Em. case_bool_decide; bind_red; [done|]. unfold replicationResurrectCachedMaster. by rewrite Em.
  - left. unfold slaveTryPartialResynchronization. rewrite bool_decide_eq_false_2, Ef, Ec by done.
    case_match; [by exists s, PSYNC_TRY_LATER|]. eexists _, PSYNC_NOT_SUPPORTED. split; [done|].
    replace s with (set_initial s (master_replid s) (master_initial_offset s)) at 2 by (by destruct s). by apply discard_answer.
Qed.

Lemma sync_consistent e s :
  consistent s → (REPL_STATE_CONNECTING ≤ repl_state s ≤ REPL_STATE_RECEIVE_PSYNC)%Z →
  returns (syncWithMaster e s) (λ r, consistent r.1)
  ∨ uncalled_continue s e ∧ syncWithMaster e s = Fail NullDeref.
Proof.
  intros HC Hr. unfold syncWithMaster.
  assert (under_way (repl_state s)) as U by (unfold under_way; states; lia).
  destruct (in_state s REPL_STATE_NONE); [left; by apply returns_ret|].
  destruct (sockerr e); [left; apply returns_ret; apply (moved_consistent s); [done|done|apply moved_error]|].
  pose proof (handshake_passes e s Hr) as HP. destruct (handshake e s) as [s1 w|s1].
  { left. apply returns_ret. by apply (moved_consistent s). }
  destruct HP as (Hr1 & E1 & Hp). assert (repl_state s1 = REPL_STATE_RECEIVE_PSYNC) as Es1 by lia.
  rewrite (proj2 (in_state_spec s1 _) Es1). simpl. specialize (Hp Es1).
  assert (s1 = s) as -> by (rewrite E1, Es1, <-Hp; by destruct s). clear E1 Hr1 Es1.
  assert (repl_state s ≠ REPL_STATE_NONE) as Hn by (rewrite Hp; by states).
  destruct (answer_spec e s (proj2 HC) Hp) as [(s' & r & -> & HL' & Eh' & HA)|[HU ->]]; bind_red; [left|by right].
  assert (∀ b, repl_state s' = REPL_STATE_RECEIVE_PSYNC ∧ cached_master s' = None →
    returns (start_transfer e s' b) (λ r, consistent r.1)) as HT.
  { intros b [Es' Ec']. destruct (start_transfer_kept e s' b) as (s2 & w & -> & HL2 & Hn2 & Eh2); [done..|].
    apply returns_ret. apply (consistent_kept s); try done. simpl. by rewrite Eh2. }
  destruct r; [|..|]; try (by apply HT); apply returns_ret; simpl; subst; try done.
  - apply (consistent_kept s); try done. rewrite HA. by states.
  - apply (moved_consistent s); [done|done|apply moved_error].
Qed.

(** ** The snapshot keeps the states consistent *)

(** The transfer goes on. *)
Lemma transfer_linked s x :
  linked s → repl_state s = REPL_STATE_TRANSFER → is_Some (x_file x) → linked (set_xfer s x).
Proof. intros [H2 H3 H4 H5 H6 H7] Es Hx. by split. Qed.

Lemma set_xfer_twice s x y : set_xfer (set_xfer s x) y = set_xfer s y.
Proof. done. Qed.

Lemma cancel_transfer s x :
  linked s → repl_state s = REPL_STATE_TRANSFER → is_Some (x_file x) →
  kept_host s (cancelReplicationHandshake (set_xfer s x)).
Proof.
  intros HL Es Hx. destruct (cancel_kept (set_xfer s x)) as (s' & E & HL' & Hn & Eh); [by apply transfer_linked|simpl; by rewrite Es; states|].
  by exists s'.
Qed.

Lemma done_kept e s :
  linked s → repl_state s = REPL_STATE_TRANSFER → kept_host s (payload_done e s).
Proof.
  intros HL Es. pose proof HL as [H2 H3 H4 H5 H6 H7]. pose proof (proj2 H3 Es) as Hx. unfold payload_done.
  destruct (rename_ok e); [|by apply cancel_kept; [|rewrite Es; states]].
  destruct (load_ok e); [|by apply cancel_transfer].
  simpl. unfold createReplicationBacklog. simpl. rewrite (H7 Es). simpl. bind_red.
  eexists. split; [done|]. split; [|split; [simpl; by states|done]].
  split; simpl; states; try lia; try done; first [split; [by intros [? [=]]|lia]|intros Hc; specialize (H5 Hc); lia].
Qed.

Lemma payload_kept e s :
  linked s → repl_state s = REPL_STATE_TRANSFER → kept_host s (readSyncBulkPayload e s).
Proof.
  intros HL Es. assert (repl_state s ≠ REPL_STATE_NONE) as Hn by (rewrite Es; by states).
  destruct (proj2 (co_file s HL) Es) as [f Ef].
  assert (∀ x, is_Some (x_file x) → kept_host s (Ret (set_xfer s x))) as HR.
  { intros x Hx. eexists. split; [done|]. split; [by apply transfer_linked|done]. }
  assert (kept_host s (Ret s)) as H0 by (by exists s).
  pose proof (cancel_kept s HL Hn) as HK. unfold readSyncBulkPayload.
  case_bool_decide.
  { unfold payload_header. repeat case_match; try done; apply HR; simpl; by rewrite Ef. }
  case_bool_decide; [done|]. unfold payload_chunk. rewrite Ef.
  set (buf := take _ _). set (last := if usemark _ then _ else _). set (mk := usemark _ && _).
  destruct (file_ok e); [|apply cancel_transfer; [done|done|simpl; by rewrite Ef]]. cbn [negb].
  rewrite !set_xfer_twice. destruct (mk && negb (truncate_ok e)); [by apply cancel_transfer|].
  assert (∀ x, is_Some (x_file x) → kept_host s (payload_done e (set_xfer s x))) as HD.
  { intros x Hx. destruct (done_kept e (set_xfer s x)) as (s' & E & HL' & Hn' & Eh); [by apply transfer_linked|done|]. by exists s'. }
  destruct mk; cbn [orb]; rewrite ?set_xfer_twice; [by apply HD|]. case_match; [by apply HD|by apply HR].
Qed.

(** ** Any run *)

Lemma step_consistent s ev :
  consistent s →
  returns (repl_step s ev) consistent
  ∨ ∃ e, ev = Socket e ∧ uncalled_continue s e ∧ repl_step s ev = Fail NullDeref.
Proof.
  intros HC. destruct ev as [e|e|blocked|blocked|a1 a2 newid blocked|t1 t2 t3 blocked fd ok]; simpl.
  - case_match eqn:Hst; [|left; by apply returns_ret].
    destruct (sync_consistent e s HC) as [(r & -> & Hr)|[HU ->]]; [| |by right; exists e].
    + unfold in_state, slaveIsInHandshakeState in Hst. rewrite orb_true_iff, !bool_decide_eq_true in Hst. states. lia.
    + left. destruct r as [s' w]. bind_red. by apply returns_ret.
  - left. case_match eqn:Hst; [|by apply returns_ret]. rewrite in_state_spec in Hst.
    apply (kept_consistent s); [done|rewrite Hst; by states|apply payload_kept; [apply HC|done]].
  - left. case_match eqn:Hst; [|by apply returns_ret]. rewrite in_state_spec in Hst.
    destruct (free_linked s blocked) as (s' & -> & HL & Es & Eh); [apply HC|done|].
    apply returns_ret. apply (consistent_kept s); try done; rewrite ?Hst, ?Es; by states.
  - left. destruct (closed_linked s blocked) as [->|(Hst & s' & -> & HL & Es & Eh)]; [apply HC|by apply returns_ret|].
    apply returns_ret. apply (consistent_kept s); try done; rewrite ?Hst, ?Es; by states.
  - left. eapply returns_bind; [by apply slaveof_consistent|]. intros [s' w] HC'. by apply returns_ret.
  - left. by apply cron_consistent.
Qed.

(** C22: in any sequence of socket events, snapshot data, lost or closed connections,
    SLAVEOF commands and timer ticks, with any answers of the master and any failures of
    sockets and files, the states of a slave stay consistent and no assertion fails,
    unless the master grants a partial resynchronization to a slave that has kept no
    old master, which is a dereference of a null pointer. *)
Theorem replication_consistent s evs :
  consistent s →
  returns (out_fold repl_step s evs) consistent
  ∨ ∃ evs1 e evs2 s1, evs = evs1 ++ Socket e :: evs2 ∧ out_fold repl_step s evs1 = Ret s1 ∧ uncalled_continue s1 e
      ∧ out_fold repl_step s evs = Fail NullDeref.
Proof.
  revert s. induction evs as [|ev evs IH]; intros s HC; [left; by apply returns_ret|]. cbn [out_fold].
  destruct (step_consistent s ev HC) as [(s' & E & HC')|(e & -> & HU & E)].
  - rewrite E. bind_red. destruct (IH s' HC') as [H|(evs1 & e & evs2 & s1 & -> & E1 & HU & E2)]; [by left|].
    right. exists (ev :: evs1), e, evs2, s1. split_and!; [done| |done..]. cbn [out_fold]. by rewrite E.
  - right. exists [], e, evs, s. split_and!; try done. by rewrite E.
Qed.

(** ** The snapshot is received whole *)

(** The two forms of the payload: a size first, or a mark of forty bytes at the end. *)
Inductive form := Count | Mark (m : bytes).

Definition announcement (f : form) (data : bytes) : bytes :=
  match f with Count => "$"%char :: dec (zlen data) | Mark m => str "$EOF:" ++ m end.

Definition payload (f : form) (data : bytes) : bytes := match f with Count => data | Mark m => data ++ m end.

(** The mark is not found before the end. *)
Definition form_ok (f : form) (data : bytes) : Prop :=
  match f with
  | Count => (0 < zlen data ≤ LLONG_MAX)%Z
  | Mark m => length m = CONFIG_RUN_ID_SIZE ∧ nul_free m ∧ ∀ k, k < length data → take CONFIG_RUN_ID_SIZE (drop k (data ++ m)) ≠ m
  end.

(** Nothing fails; [mem] is the memory of the new backlog. *)
Definition header_env (l mem : bytes) : payload_env := mk_pay (Some l) [] true true true true mem.
Definition chunk_env (b mem : bytes) : payload_env := mk_pay None b true true true true mem.

(** Reading a stream until the transfer is over; each number is how many bytes the
    kernel returns at most. *)
Fixpoint download (s : rserver) (mem stream : bytes) (reads : list nat) : out (rserver * bytes) :=
  match reads with
  | [] => Ret (s, stream)
  | n :: reads =>
    if in_state s REPL_STATE_TRANSFER then
      let k := Z.to_nat (Z.min (Z.of_nat n) (payload_readlen (xfer s))) in
      s ← readSyncBulkPayload (chunk_env (take k stream) mem) s;
      download s mem (drop k stream) reads
    else Ret (s, stream)
  end.

Definition zeros : bytes := replicate CONFIG_RUN_ID_SIZE NUL.

(** [got] was received so far. *)
Definition downloading (f : form) (data got : bytes) (s : rserver) : Prop :=
  repl_state s = REPL_STATE_TRANSFER ∧ repl_backlog (rng s) = None
  ∧ repl_transfer_read (xfer s) = zlen got ∧ x_file (xfer s) = Some got
  ∧ match f with
    | Count => usemark (xfer s) = false ∧ repl_transfer_size (xfer s) = zlen data
    | Mark m => usemark (xfer s) = true ∧ repl_transfer_size (xfer s) = 0%Z ∧ eofmark (xfer s) = m
                ∧ lastbytes (xfer s) = drop (length got) (zeros ++ got)
    end.

(** The slave after a full synchronization: the data of the master, its id and its
    offset, and an empty backlog. *)
Definition synchronized (s s' : rserver) (data mem : bytes) : Prop :=
  let off := master_initial_offset s in
  repl_state s' = REPL_STATE_CONNECTED ∧ rdb_file (xfer s') = data ∧ x_file (xfer s') = None
  ∧ master s' = Some (mk_m (master_replid s) off (repl_transfer_s s) (bool_decide (off = -1)%Z) false)
  ∧ ids s' = mk_ids (master_replid s) (replicate CONFIG_RUN_ID_SIZE "0"%char) (-1)
  ∧ rng s' = mk_ring (Some mem) (repl_backlog_size (rng s)) 0 0 (off + 1) off.

Lemma last_bytes_spec got b :
  last_bytes (drop (length got) (zeros ++ got)) b = drop (length (got ++ b)) (zeros ++ got ++ b).
Proof.
  assert (length zeros = CONFIG_RUN_ID_SIZE) as Hz by (apply length_replicate). unfold last_bytes. rewrite length_app.
  case_bool_decide as H.
  - rewrite app_assoc, (drop_app_ge (zeros ++ got)) by (rewrite length_app; lia). f_equal. rewrite length_app. lia.
  - rewrite drop_drop, app_assoc, (drop_app_le (zeros ++ got)) by (rewrite length_app; lia). done.
Qed.

(** The last forty bytes are the mark only at the end. *)
Lemma mark_at_end data m got t :
  form_ok (Mark m) data → data ++ m = got ++ t → drop (length got) (zeros ++ got) = m ↔ t = [].
Proof.
  intros (Hm & Hn & Hk) E. assert (length zeros = CONFIG_RUN_ID_SIZE) as Hz by (apply length_replicate).
  assert (length data + length m = length got + length t) as El by (rewrite <-!length_app; by rewrite E).
  split.
  - intros Hd. destruct (decide (length got < CONFIG_RUN_ID_SIZE)) as [H|H].
    + exfalso. apply Hn. rewrite <-Hd, drop_app_le by lia. apply elem_of_app. left.
      unfold zeros. rewrite drop_replicate. apply elem_of_replicate. split; [done|lia].
    + destruct t as [|c t]; [done|]. exfalso. simpl in El.
      rewrite drop_app_ge, Hz in Hd by lia. apply (Hk (length got - CONFIG_RUN_ID_SIZE)); [lia|].
      rewrite E, drop_app_le, Hd by lia. rewrite take_app_le by lia. rewrite take_ge by lia. done.
  - intros ->. rewrite app_nil_r in E. subst got. rewrite app_assoc, drop_app_ge by (rewrite !length_app; lia).
    rewrite !length_app. by replace (_ - _) with 0 by lia.
Qed.

Lemma done_synchronized s x b mem data :
  repl_backlog (rng s) = None → x_file x = Some data →
  ∃ s', payload_done (chunk_env b mem) (set_xfer s x) = Ret s' ∧ synchronized s s' data mem.
Proof.
  intros Hb Hf. unfold payload_done, createReplicationBacklog. simpl. rewrite Hb, Hf. simpl. bind_red.
  eexists. split; [done|]. by unfold synchronized.
Qed.

Lemma readlen_left f data got s t :
  downloading f data got s → payload f data = got ++ t → t ≠ [] → (0 < payload_readlen (xfer s) ≤ 4096)%Z
  ∧ (f = Count → (payload_readlen (xfer s) ≤ zlen t)%Z).
Proof.
  intros (_ & _ & Hr & _ & Hf) E Ht. pose proof (zlen_pos t Ht). unfold payload_readlen. destruct f as [|m].
  - destruct Hf as [-> ->]. simpl in E. subst data. rewrite Hr, zlen_app. case_bool_decide; lia.
  - by destruct Hf as [-> _].
Qed.

(** One read. *)
Lemma payload_step f data got q t s mem :
  form_ok f data → downloading f data got s → payload f data = got ++ q ++ t → q ≠ [] →
  (zlen q ≤ payload_readlen (xfer s))%Z →
  ∃ s', readSyncBulkPayload (chunk_env q mem) s = Ret s'
    ∧ if bool_decide (t = []) then synchronized s s' data mem
      else ∃ x, s' = set_xfer s x ∧ downloading f data (got ++ q) s'.
Proof.
  intros Hok (Es & Hb & Hr & Hx & Hf) E Hq Hl. unfold readSyncBulkPayload.
  rewrite bool_decide_eq_false_2.
  2:{ destruct f; destruct Hf as (_ & H); [rewrite H|destruct H as [-> _]]; simpl in *; lia. }
  simpl. rewrite take_ge by (unfold zlen in *; lia). rewrite (bool_decide_eq_false_2 (q = [])) by done.
  unfold payload_chunk. rewrite Hx, Hr. simpl. rewrite andb_false_r, !set_xfer_twice. rewrite app_assoc in E.
  destruct f as [|m]; simpl in E.
  - destruct Hf as [Hu Hs]. rewrite Hu, Hs. simpl. subst data.
    rewrite <-!zlen_app, (bool_decide_ext _ (t = [])).
    2:{ rewrite (zlen_app _ t). split; [|intros ->; unfold zlen; simpl; lia]. intros H. destruct (decide (t = [])) as [|Ht]; [done|].
        pose proof (zlen_pos t Ht). lia. }
    case_bool_decide as Ht; [subst t; by apply done_synchronized; rewrite ?app_nil_r|].
    eexists. split; [done|]. by eexists.
  - destruct Hf as (Hu & Hs & Hm & Hla). rewrite Hu, Hm, Hla, Hs, last_bytes_spec. simpl.
    rewrite (bool_decide_ext _ (t = [])) by (by apply (mark_at_end data)).
    case_bool_decide as Ht; simpl.
    + subst t. rewrite app_nil_r in E. apply done_synchronized; [done|]. simpl. f_equal. rewrite <-E.
      destruct Hok as (Hlm & _). assert (zlen got + zlen q = zlen data + Z.of_nat CONFIG_RUN_ID_SIZE)%Z as Ez.
      { rewrite <-zlen_app, <-E, zlen_app. unfold zlen. lia. }
      rewrite Ez. apply take_app_length'. unfold zlen. lia.
    + eexists. split; [done|]. eexists. split; [done|]. unfold downloading. simpl.
      rewrite <-zlen_app. split_and!; try done.
Qed.

Lemma download_spec f data mem rest reads : ∀ got s t,
  form_ok f data → downloading f data got s → payload f data = got ++ t → t ≠ [] → f = Count ∨ rest = [] →
  Forall (λ n, 0 < n) reads → length t ≤ length reads →
  ∃ s', download s mem (t ++ rest) reads = Ret (s', rest) ∧ synchronized s s' data mem.
Proof.
  induction reads as [|n reads IH]; intros got s t Hok HD E Ht Hrest Hn Hl; [by destruct t; [|simpl in Hl; lia]|].
  apply Forall_cons in Hn as [Hn0 Hn]. cbn [download]. rewrite (proj2 (in_state_spec s _)) by apply HD.
  destruct (readlen_left f data got s t HD E Ht) as [Hr HrC].
  set (k := Z.to_nat (Z.min (Z.of_nat n) (payload_readlen (xfer s)))).
  assert (take k (t ++ rest) = take k t ∧ drop k (t ++ rest) = drop k t ++ rest) as [-> ->].
  { destruct Hrest as [->| ->]; [|by rewrite !app_nil_r]. specialize (HrC eq_refl).
    assert (k ≤ length t) by (unfold zlen in HrC; lia). by rewrite take_app_le, drop_app_le by done. }
  pose proof (zlen_pos t Ht) as Hpos.
  assert (take k t ≠ []) as Hq by (destruct t, k eqn:Ek; [done..|lia|done]).
  assert (zlen (take k t) ≤ payload_readlen (xfer s))%Z as Hlq by (unfold zlen; rewrite length_take; lia).
  destruct (payload_step f data got (take k t) (drop k t) s mem) as (s1 & -> & H1); [done|done|by rewrite take_drop|done|done|].
  bind_red. case_bool_decide as Hd.
  - rewrite Hd. exists s1. split; [|done]. destruct reads; simpl; [done|].
    unfold in_state. by rewrite (proj1 H1).
  - destruct H1 as (x & -> & HD1).
    destruct (IH (got ++ take k t) (set_xfer s x) (drop k t)) as (s' & E' & HS); try done.
    + by rewrite <-app_assoc, take_drop.
    + rewrite length_drop. destruct k eqn:Ek; [lia|]. simpl in Hl. lia.
    + by exists s'.
Qed.

Lemma digit_prefix_all s : Forall (λ c, digit c) s → digit_prefix s = s.
Proof.
  induction 1 as [|c s Hc _ IH]; [done|]. simpl. by rewrite (proj2 (is_digit_iff c) Hc), IH.
Qed.

Lemma digit_word c : digit c → isspace c = false ∧ c ≠ "-"%char ∧ c ≠ "+"%char ∧ c ≠ "E"%char ∧ c ≠ NUL ∧ c ≠ " "%char.
Proof.
  rewrite <-is_digit_iff. destruct c as [[] [] [] [] [] [] [] []]; intros H; vm_compute in H; try discriminate H;
    (split; [reflexivity|]); split_and!; discriminate.
Qed.

Lemma strtoll_dec v : (0 ≤ v ≤ LLONG_MAX)%Z → strtoll (dec v) = v.
Proof.
  intros Hv. pose proof (dec_digits v ltac:(lia)) as Hd. pose proof (dec_decimal v ltac:(lia)) as Ed.
  unfold strtoll. destruct (dec v) as [|c t] eqn:E; [by rewrite <-Ed|].
  pose proof Hd as Hc. apply Forall_cons in Hc as [Hc _]. destruct (digit_word c Hc) as (H1 & H2 & H3 & _).
  simpl skip_spaces. rewrite H1. rewrite !bool_decide_eq_false_2 by done.
  rewrite digit_prefix_all, Ed by done. lia.
Qed.

(** The line of the header is read. *)
Lemma header_read f data mem s :
  form_ok f data → repl_state s = REPL_STATE_TRANSFER → repl_backlog (rng s) = None →
  repl_transfer_size (xfer s) = (-1)%Z → repl_transfer_read (xfer s) = 0%Z → x_file (xfer s) = Some [] →
  ∃ x, readSyncBulkPayload (header_env (announcement f data) mem) s = Ret (set_xfer s x)
    ∧ downloading f data [] (set_xfer s x).
Proof.
  intros Hok Es Hb Hs Hr Hx. unfold readSyncBulkPayload. rewrite bool_decide_eq_true_2 by done. unfold payload_header.
  cbn [p_line header_env]. destruct f as [|m]; simpl in Hok.
  - pose proof (dec_digits (zlen data) ltac:(lia)) as Hd.
    assert (nul_free (dec (zlen data))) as Hn.
    { intros Hin. rewrite Forall_forall in Hd. destruct (digit_word _ (Hd _ Hin)) as (_ & _ & _ & _ & H & _). done. }
    assert (starts_with (str "EOF:") (dec (zlen data)) = false) as He.
    { apply bool_decide_eq_false_2. intros H. destruct (dec (zlen data)) as [|c t]; [done|]. injection H as -> _.
      apply Forall_cons in Hd as [Hd _]. by destruct (digit_word _ Hd) as (_ & _ & _ & H & _). }
    cbn [announcement]. rewrite cstr_id by (intros [H|H]%elem_of_cons; done).
    change (first_char ("$"%char :: dec (zlen data))) with "$"%char.
    change (drop 1 ("$"%char :: dec (zlen data))) with (dec (zlen data)).
    rewrite He, !bool_decide_eq_false_2 by (done || by intros H). cbn [andb].
    rewrite strtoll_dec by lia. eexists. split; [done|]. by unfold downloading.
  - destruct Hok as (Hm & Hn & _). cbn [announcement]. rewrite cstr_id.
    2:{ apply nul_free_app. split; [|done]. unfold nul_free. concrete. }
    change (first_char (str "$EOF:" ++ m)) with "$"%char. change (drop 1 (str "$EOF:" ++ m)) with (str "EOF:" ++ m).
    change (drop 5 (str "$EOF:" ++ m)) with m. change (starts_with (str "EOF:") (str "EOF:" ++ m)) with true.
    rewrite !bool_decide_eq_false_2 by (done || by intros H). rewrite bool_decide_eq_true_2 by lia. cbn [andb].
    rewrite (take_ge m) by lia. eexists. by split.
Qed.

(** a snapshot, announced with its size or with a mark at the end, is received whole
    whatever the sizes of the reads: the dump file holds exactly the bytes of the
    master, the slave is connected with the master's id and offset, its backlog starts
    empty at that offset, and nothing of what follows a sized snapshot is consumed. *)
Theorem snapshot_received f data mem rest reads e s0 b s w :
  start_transfer e s0 b = Ret (s, w) → repl_state s = REPL_STATE_TRANSFER →
  form_ok f data → f = Count ∨ rest = [] → Forall (λ n, 0 < n) reads → length (payload f data) ≤ length reads →
  ∃ s1 s', readSyncBulkPayload (header_env (announcement f data) mem) s = Ret s1
    ∧ download s1 mem (payload f data ++ rest) reads = Ret (s', rest)
    ∧ synchronized s s' data mem.
Proof.
  intros Hstart Es Hok Hrest Hn Hl.
  assert (repl_backlog (rng s) = None ∧ repl_transfer_size (xfer s) = (-1)%Z ∧ repl_transfer_read (xfer s) = 0%Z
    ∧ x_file (xfer s) = Some []) as (Hb & Hs & Hr & Hx).
  { unfold start_transfer, freeReplicationBacklog in Hstart. simpl in Hstart.
    repeat case_match; simplify_eq; try discriminate Es; done. }
  destruct (header_read f data mem s Hok Es Hb Hs Hr Hx) as (x & E1 & HD).
  destruct (download_spec f data mem rest reads [] (set_xfer s x) (payload f data)) as (s' & E2 & HS); try done.
  { destruct f; simpl in *; intros H; [subst data; unfold zlen in Hok; simpl in Hok; lia|].
    apply app_nil in H as [_ ->]. by destruct Hok. }
  by exists (set_xfer s x), s'.
Qed.

(** ** Examples *)

Definition sample_id : bytes := replicate CONFIG_RUN_ID_SIZE "a"%char.
Definition sample_conf : rconf := mk_conf (Some (str "secret")) None 0 6379 false.
Definition sample_slave (n : Z) : rserver :=
  mk_r n (Some (str "host", 6379%Z)) None (Some (mk_m sample_id 105 (-1) false false)) sample_id 100
    (mk_ids sample_id sample_id (-1)) (mk_ring None 16 0 0 0 105) 9 (mk_x (-1) 0 None [] false [] []) 0 sample_conf.

(** A server with no master. *)
Definition lone_server : rserver :=
  mk_r REPL_STATE_NONE None None None [] 0 (mk_ids sample_id sample_id (-1)) (mk_ring None 16 0 0 0 40) (-1)
    (mk_x 0 0 None [] false [] []) 0 (mk_conf None None 0 6379 false).

Definition says (l : bytes) : revent := Socket (mk_env false (Some l) true true true (replicate 16 NUL)).
Definition handshake_sample : list revent := Cron false false false false (Some 9%Z) true :: replicate 4 (says (str "+OK")).

(** SLAVEOF, a full synchronization, the connection lost, a partial one. *)
Definition sample_run : list revent :=
  SlaveOf (str "host") (str "6379") [] false :: handshake_sample
  ++ says (str "+FULLRESYNC " ++ sample_id ++ str " 100")
  :: Bulk (header_env (str "$5") (replicate 16 NUL)) :: Bulk (chunk_env (str "hello") (replicate 16 NUL))
  :: Lost false :: handshake_sample ++ [says (str "+CONTINUE")].

Lemma lone_consistent : consistent lone_server.
Proof.
  split; [done|]. split; simpl; states; try lia; try done; (split; [by intros [? [=]]|lia]) || by intros [? [=]].
Qed.

Lemma replication_consistent_witness :
  ∃ s, out_fold repl_step lone_server sample_run = Ret s ∧ consistent s ∧ repl_state s = REPL_STATE_CONNECTED
    ∧ rdb_file (xfer s) = str "hello" ∧ master s = Some (mk_m sample_id 100 9 false false).
Proof.
  destruct (replication_consistent lone_server sample_run lone_consistent) as [(s & E & HC)|(evs1 & e & evs2 & s1 & _ & _ & _ & E)].
  - exists s. split; [exact E|]. split; [exact HC|]. vm_compute in E. injection E as <-. vm_compute. repeat split.
  - vm_compute in E. discriminate E.
Defined.

(** The master grants what was not asked for, after PSYNC ? -1. *)
Lemma uncalled_continue_crashes :
  out_fold repl_step (set_masters (sample_slave REPL_STATE_CONNECT) None None) (handshake_sample ++ [says (str "+OK"); says (str "+CONTINUE")])
  = Fail NullDeref.
Proof. by vm_compute. Qed.

Lemma snapshot_received_witness :
  ∃ s1 s', readSyncBulkPayload (header_env (str "$EOF:" ++ sample_id) (replicate 16 NUL))
        (set_xfer (set_state (sample_slave REPL_STATE_RECEIVE_PSYNC) REPL_STATE_TRANSFER) (mk_x (-1) 0 (Some []) [] false [] [])) = Ret s1
    ∧ download s1 (replicate 16 NUL) (str "hello" ++ sample_id) (replicate 45 7) = Ret (s', [])
    ∧ rdb_file (xfer s') = str "hello" ∧ repl_state s' = REPL_STATE_CONNECTED.
Proof.
  destruct (snapshot_received (Mark sample_id) (str "hello") (replicate 16 NUL) [] (replicate 45 7)
    (mk_env false None true true true []) (sample_slave REPL_STATE_RECEIVE_PSYNC) false
    (set_xfer (set_state (sample_slave REPL_STATE_RECEIVE_PSYNC) REPL_STATE_TRANSFER) (mk_x (-1) 0 (Some []) [] false [] [])) [])
    as (s1 & s' & E1 & E2 & HS).
  - reflexivity.
  - reflexivity.
  - split; [reflexivity|]. split; [by apply (bool_decide_unpack _); vm_compute|]. intros k Hk.
    do 5 (destruct k as [|k]; [by vm_compute|]). simpl in Hk. lia.
  - right. reflexivity.
  - apply Forall_replicate. lia.
  - vm_compute. lia.
  - exists s1, s'. split; [exact E1|]. split; [exact E2|]. split; [apply (proj1 (proj2 HS))|apply (proj1 HS)].
Defined.
