(* ===== verification/Psync.v ===== *)
(** * The conversation between a slave and its master

    The slave of Handshake.v talks to the parser of Resp.v and to the decision of
    Backlog.v: what the handshake writes is what the master reads, a granted partial
    resynchronization gives both sides the same id and offset, and the answer to a full
    one carries the id and the offset of the master.  At the end, what becomes of the
    missing bytes: they are given to a connection that takes no replies. *)
From Stdlib Require Import Ascii.
From S2P Require Import Prelude Sds GraphText Locate Util Args Resp Call Backlog Gate Output Handshake.

(** ** Lines of plain words *)

(** A character that does not end or quote an argument. *)
Definition plain_char (c : ascii) : Prop := isspace c = false ∧ c ≠ NUL ∧ c ≠ DQ ∧ c ≠ SQ.
Definition plain (a : bytes) : Prop := a ≠ [] ∧ Forall plain_char a.

Lemma not_blank c : isspace c = false → ¬ (code c = 32 ∨ code c = 10 ∨ code c = 13 ∨ code c = 9).
Proof. unfold isspace. rewrite bool_decide_eq_false. lia. Qed.

Lemma token_plain a : ∀ q current,
  Forall plain_char a → token Plain (a ++ q) current = token Plain q (current ++ a).
Proof.
  induction a as [|c a IH]; intros q current Ha; [by rewrite app_nil_r|].
  apply Forall_cons in Ha as [(Hs & Hz & Hd & Hq) Ha]. simpl.
  rewrite (bool_decide_eq_false_2 _ (not_blank c Hs)), !bool_decide_eq_false_2 by done.
  rewrite IH by done. by rewrite <-app_assoc.
Qed.

Lemma skip_plain a q : plain a → skip_blanks (a ++ q) = a ++ q.
Proof. intros [Hn Ha]. destruct a as [|c a]; [done|]. apply Forall_cons in Ha as [(Hs & _) _]. simpl. by rewrite Hs. Qed.

Lemma split_plain l : ∀ fuel vector,
  Forall plain l → length l ≤ fuel → split_args fuel (join " " l) vector = Some (vector ++ l).
Proof.
  induction l as [|a l IH]; intros fuel vector Hl Hf; [destruct fuel; by rewrite app_nil_r|].
  apply Forall_cons in Hl as [Ha Hl]. destruct fuel as [|fuel]; [simpl in Hf; lia|]. simpl in Hf.
  assert (join " " (a :: l) = a ++ match l with [] => [] | _ => " "%char :: join " " l end) as ->.
  { destruct l; simpl; by rewrite ?app_nil_r. }
  set (q := match l with [] => [] | _ => _ end). cbn [split_args]. rewrite skip_plain by done. destruct Ha as [Hn Ha].
  assert (∃ c t, a ++ q = c :: t) as (c & t & E) by (destruct a; [done|by eexists _, _]).
  rewrite E, <-E, token_plain by done. unfold q. destruct l as [|b l]; [destruct fuel; done|].
  change (token Plain (" "%char :: join " " (b :: l)) ([] ++ a)) with (Some (a, join " " (b :: l))).
  cbv beta iota. rewrite IH by (done || lia). by rewrite <-app_assoc.
Qed.

Lemma plain_nul_free a : plain a → nul_free a.
Proof. intros [_ Ha] H. rewrite Forall_forall in Ha. by destruct (Ha _ H) as (_ & ? & _). Qed.

Lemma sdscat_plain s a : plain a → sdscat s a = s ++ a.
Proof.
  intros Ha. unfold sdscat, sdscatlen, strlen. rewrite cstr_id by (by apply plain_nul_free). by rewrite take_ge.
Qed.

Lemma join_space a l : l ≠ [] → join " " (a :: l) = a ++ " "%char :: join " " l.
Proof. by destruct l. Qed.

Lemma join_first a b l : join " " ((a ++ " "%char :: b) :: l) = join " " (a :: b :: l).
Proof. destruct l as [|c l]; [done|]. rewrite !join_space by done. by rewrite <-app_assoc. Qed.

(** What [sendSynchronousCommand] writes. *)
Lemma sync_command_plain l : Forall plain l → sync_command l = join " " l ++ CRLF.
Proof.
  intros Hl. unfold sync_command. f_equal.
  assert (∀ l cmd, Forall plain l → cmd ≠ [] →
    foldl (λ cmd a, sdscat (if bool_decide (cmd = []) then cmd else sdscatlen cmd (str " ") 1) a) cmd l
    = join " " (cmd :: l)) as Hgo.
  { clear. induction l as [|a l IH]; intros cmd Hl Hc; [done|]. apply Forall_cons in Hl as [Ha Hl]. cbn [foldl].
    rewrite bool_decide_eq_false_2 by done. rewrite sdscat_plain by done.
    change (sdscatlen cmd (str " ") 1) with (cmd ++ [" "%char]). rewrite <-app_assoc.
    rewrite IH by (done || by destruct cmd). apply join_first. }
  destruct l as [|a l]; [done|]. apply Forall_cons in Hl as [Ha Hl]. cbn [foldl].
  rewrite sdscat_plain by done. rewrite Hgo by (done || apply Ha). done.
Qed.

Lemma join_plain l : Forall plain l → Forall (λ c, c ≠ NUL ∧ c ≠ CR ∧ c ≠ LF) (join " " l).
Proof.
  assert (∀ a, plain a → Forall (λ c, c ≠ NUL ∧ c ≠ CR ∧ c ≠ LF) a) as Hp.
  { intros a [_ Ha]. eapply Forall_impl; [exact Ha|]. intros c (Hs & Hz & _). split_and!; [done|..]; by intros ->. }
  induction 1 as [|a l Ha Hl IH]; [done|]. destruct l as [|b l]; [by apply Hp|].
  apply Forall_app. split; [by apply Hp|]. by constructor.
Qed.

Lemma line_end l : Forall (λ c, c ≠ NUL ∧ c ≠ CR ∧ c ≠ LF) l → strchr_at (l ++ CRLF) LF = Some (S (length l)).
Proof.
  intros Hl. unfold strchr_at. rewrite cstr_id.
  2:{ apply nul_free_app. split; [|unfold nul_free; concrete]. intros H. rewrite Forall_forall in Hl. by destruct (Hl _ H). }
  assert (list_find (λ x, x = LF) (l ++ CRLF) = Some (S (length l), LF)) as ->; [|done].
  apply list_find_Some. split_and!; [|done|].
  - rewrite lookup_app_r by lia. by replace (S (length l) - length l) with 1 by lia.
  - intros j y Hy Hj. destruct (decide (j < length l)) as [H|H].
    + rewrite lookup_app_l in Hy by done. rewrite Forall_lookup in Hl. by destruct (Hl _ _ Hy) as (_ & _ & ?).
    + rewrite lookup_app_r in Hy by lia. replace (j - length l) with 0 in Hy by lia. by injection Hy as <-.
Qed.

Lemma join_nonempty a l : plain a → ∃ c t, join " " (a :: l) = c :: t ∧ a !! 0 = Some c.
Proof. intros [Hn _]. destruct a as [|c a]; [done|]. destruct l; by eexists _, _. Qed.

Lemma plain_kept l : Forall plain l → filter (λ x, x ≠ []) l = l.
Proof. induction 1 as [|a l [Hn _] _ IH]; [done|]. by rewrite filter_cons_True, IH. Qed.

Lemma join_length l : Forall plain l → length l ≤ length (join " " l).
Proof.
  induction 1 as [|a l [Hn _] _ IH]; [done|]. assert (0 < length a) by (destruct a; [done|simpl; lia]).
  destruct l as [|b l]; [simpl; lia|]. rewrite join_space, length_app by done. simpl in *. lia.
Qed.

Lemma plain_split l : Forall plain l → sdssplitargs (join " " l) = Some l.
Proof.
  intros Hl. unfold sdssplitargs. rewrite cstr_id.
  - rewrite split_plain; [done|done|by apply join_length].
  - intros H. pose proof (join_plain _ Hl) as Hj. rewrite Forall_forall in Hj. by destruct (Hj _ H).
Qed.

Lemma inline_plain l :
  Forall plain l →
  processInlineBuffer (mk_in (join " " l ++ CRLF) PROTO_REQ_INLINE 0 None [] false)
  = (mk_in [] PROTO_REQ_INLINE 0 None l false, true).
Proof.
  intros Hl. set (n := length (join " " l)). unfold processInlineBuffer. cbn [querybuf].
  rewrite (line_end _ (join_plain _ Hl)). fold n. rewrite bool_decide_eq_true_2.
  2:{ split; [done|]. replace (S n - 1) with n by lia. rewrite lookup_app_r by (unfold n; lia). unfold n. by rewrite Nat.sub_diag. }
  replace (S n - 1) with n by lia. unfold n. rewrite take_app_length, plain_split by done.
  rewrite plain_kept by done. rewrite sdsrange_drop by (rewrite length_app; simpl; lia).
  by rewrite drop_ge by (rewrite length_app; simpl; lia).
Qed.

(** The master reads the arguments of the slave. *)
Lemma line_parsed a l :
  plain a → Forall plain l → a !! 0 ≠ Some "*"%char →
  processInputBuffer (mk_in (sync_command (a :: l)) 0 0 None [] false) None 0 = Ret (createClient, [a :: l], 0%Z).
Proof.
  intros Ha Hl Hs. assert (Forall plain (a :: l)) as Hal by (by constructor).
  rewrite sync_command_plain by done. destruct (join_nonempty a l Ha) as (c & t & E & Ec).
  unfold processInputBuffer. cbn [querybuf]. set (q := join " " (a :: l) ++ CRLF).
  assert (∃ f, length q = S f) as [f ->] by (unfold q; rewrite E; by eexists).
  cbn [input_loop]. cbn [querybuf closing]. rewrite (bool_decide_eq_false_2 (q = [])) by (unfold q; by rewrite E).
  unfold next_request. cbn [querybuf reqtype multibulklen bulklen in_argv closing].
  rewrite (bool_decide_eq_true_2 (0 = 0)%Z) by done.
  rewrite (bool_decide_eq_false_2 (q !! 0 = _)) by (unfold q; rewrite E; simpl; by rewrite <-Ec).
  cbn [reqtype]. rewrite bool_decide_eq_true_2 by done. unfold q. rewrite inline_plain by done. bind_red.
  cbn [negb in_argv]. rewrite bool_decide_eq_false_2 by done. by destruct f.
Qed.

(** ** The handshake *)

(** Calls of [syncWithMaster], and what each writes. *)
Fixpoint talk (s : rserver) (es : list sync_env) : out (rserver * list bytes) :=
  match es with
  | [] => Ret (s, [])
  | e :: es => '(s, w) ← syncWithMaster e s; '(s, ws) ← talk s es; Ret (s, w :: ws)
  end.

(** The master answers with a status, and nothing fails. *)
Definition willing (e : sync_env) : Prop :=
  sockerr e = false ∧ write_ok e = true ∧ first_char (sync_reply e) = "+"%char.

(** What the slave has to say. *)
Definition auth_command (s : rserver) : list (list bytes) :=
  match masterauth (conf s) with Some pass => [[str "AUTH"; pass]] | None => [] end.
Definition port_command (s : rserver) : list bytes :=
  [str "REPLCONF"; str "listening-port";
   fmt (if bool_decide (slave_announce_port (conf s) = 0)%Z then port (conf s) else slave_announce_port (conf s))].
Definition ip_command (s : rserver) : list (list bytes) :=
  match slave_announce_ip (conf s) with Some ip => [[str "REPLCONF"; str "ip-address"; ip]] | None => [] end.
Definition capa_command : list bytes := [str "REPLCONF"; str "capa"; str "eof"; str "capa"; str "psync2"].
Definition psync_command (s : rserver) : list bytes :=
  match cached_master s with
  | Some m => [str "PSYNC"; m_replid m; fmt (m_reploff m + 1)]
  | None => [str "PSYNC"; str "?"; str "-1"]
  end.
Definition commands (s : rserver) : list (list bytes) :=
  [str "PING"] :: auth_command s ++ port_command s :: ip_command s ++ [capa_command; psync_command s].

(** A stage for another state is passed. *)
Ltac idle :=
  match goal with
  | |- context [and_then ?m ?k] => match m with context [set_state ?s ?n] => change m with (Go (set_state s n)); cbn [and_then] end
  end.

Section said.
Context (e : sync_env) (s : rserver) (He : willing e).

Lemma say args n m : send e args n (set_state s m) = Stop (set_state s n) (sync_command args).
Proof. unfold send. by rewrite (proj1 (proj2 He)). Qed.

Lemma sync_handshake n s' w :
  n ≠ REPL_STATE_NONE → handshake e (set_state s n) = Stop s' w → syncWithMaster e (set_state s n) = Ret (s', w).
Proof.
  intros Hn E. unfold syncWithMaster, in_state. rewrite bool_decide_eq_false_2 by done.
  by rewrite (proj1 He), E.
Qed.

Lemma say_ping :
  syncWithMaster e (set_state s REPL_STATE_CONNECTING) = Ret (set_state s REPL_STATE_RECEIVE_PONG, sync_command [str "PING"]).
Proof. apply sync_handshake; [done|]. unfold handshake, ping. by rewrite say. Qed.

Lemma pong_go : pong e (set_state s REPL_STATE_RECEIVE_PONG) = Go (set_state s REPL_STATE_SEND_AUTH).
Proof. unfold pong. by rewrite (proj2 (proj2 He)). Qed.

Lemma receive_auth_go : receive_auth e (set_state s REPL_STATE_RECEIVE_AUTH) = Go (set_state s REPL_STATE_SEND_PORT).
Proof. unfold receive_auth. by rewrite (proj2 (proj2 He)). Qed.

Lemma send_port_stop :
  send_port e (set_state s REPL_STATE_SEND_PORT) = Stop (set_state s REPL_STATE_RECEIVE_PORT) (sync_command (port_command s)).
Proof. unfold send_port. rewrite say. unfold port_command. simpl. by do 2 case_bool_decide. Qed.

Lemma say_after_pong :
  syncWithMaster e (set_state s REPL_STATE_RECEIVE_PONG) =
    Ret match masterauth (conf s) with
        | Some pass => (set_state s REPL_STATE_RECEIVE_AUTH, sync_command [str "AUTH"; pass])
        | None => (set_state s REPL_STATE_RECEIVE_PORT, sync_command (port_command s))
        end.
Proof.
  destruct (masterauth (conf s)) as [pass|] eqn:E; (apply sync_handshake; [done|]); unfold handshake; idle; rewrite pong_go; cbn [and_then].
  - unfold send_auth. simpl. rewrite E. by rewrite say.
  - assert (send_auth e (set_state s REPL_STATE_SEND_AUTH) = Go (set_state s REPL_STATE_SEND_PORT)) as ->.
    { unfold send_auth. simpl. by rewrite E. }
    cbn [and_then]. idle. by rewrite send_port_stop.
Qed.

Lemma say_after_auth :
  syncWithMaster e (set_state s REPL_STATE_RECEIVE_AUTH) = Ret (set_state s REPL_STATE_RECEIVE_PORT, sync_command (port_command s)).
Proof.
  apply sync_handshake; [done|]. unfold handshake. do 3 idle. rewrite receive_auth_go. cbn [and_then]. by rewrite send_port_stop.
Qed.

Lemma say_after_port :
  syncWithMaster e (set_state s REPL_STATE_RECEIVE_PORT) =
    Ret match slave_announce_ip (conf s) with
        | Some ip => (set_state s REPL_STATE_RECEIVE_IP, sync_command [str "REPLCONF"; str "ip-address"; ip])
        | None => (set_state s REPL_STATE_RECEIVE_CAPA, sync_command capa_command)
        end.
Proof.
  destruct (slave_announce_ip (conf s)) as [ip|] eqn:E; (apply sync_handshake; [done|]); unfold handshake; do 5 idle;
    change (Handshake.receive REPL_STATE_RECEIVE_PORT REPL_STATE_SEND_IP (set_state s REPL_STATE_RECEIVE_PORT)) with (Go (set_state s REPL_STATE_SEND_IP));
    cbn [and_then]; unfold skip_ip; simpl (slave_announce_ip _); rewrite E.
  - rewrite (bool_decide_eq_false_2 (Some ip = None)), andb_false_r by done. cbn [and_then]. unfold send_ip. simpl (slave_announce_ip _).
    rewrite E. by rewrite say.
  - rewrite (bool_decide_eq_true_2 (None = None)) by done. change (in_state _ _ && true) with true. cbn [and_then].
    change (set_state (set_state s ?n) ?m) with (set_state s m). do 2 idle. unfold send_capa. by rewrite say.
Qed.

Lemma say_after_ip :
  syncWithMaster e (set_state s REPL_STATE_RECEIVE_IP) = Ret (set_state s REPL_STATE_RECEIVE_CAPA, sync_command capa_command).
Proof.
  apply sync_handshake; [done|]. unfold handshake. do 8 idle.
  change (Handshake.receive REPL_STATE_RECEIVE_IP REPL_STATE_SEND_CAPA (set_state s REPL_STATE_RECEIVE_IP)) with (Go (set_state s REPL_STATE_SEND_CAPA)).
  cbn [and_then]. unfold send_capa. by rewrite say.
Qed.

Lemma say_after_capa :
  syncWithMaster e (set_state s REPL_STATE_RECEIVE_CAPA) =
    Ret (set_state (set_initial s (master_replid s) (-1)) REPL_STATE_RECEIVE_PSYNC, sync_command (psync_command s)).
Proof.
  apply sync_handshake; [done|]. unfold handshake. do 10 idle.
  change (Handshake.receive REPL_STATE_RECEIVE_CAPA REPL_STATE_SEND_PSYNC (set_state s REPL_STATE_RECEIVE_CAPA)) with (Go (set_state s REPL_STATE_SEND_PSYNC)).
  cbn [and_then]. unfold send_psync, psync_request, send. by rewrite (proj1 (proj2 He)).
Qed.
End said.

(** The password, the announced address and the id have no blanks and quotes. *)
Definition plain_words (s : rserver) : Prop :=
  from_option plain True (masterauth (conf s)) ∧ from_option plain True (slave_announce_ip (conf s))
  ∧ from_option (λ m, plain (m_replid m)) True (cached_master s).

Lemma dec_plain v : (0 ≤ v)%Z → plain (dec v).
Proof.
  intros Hv. split.
  - intros E. assert (1 ≤ v ∨ v = 0)%Z as [H| ->] by lia; [|done]. destruct (dec_head v H) as (c & t & E' & _). congruence.
  - eapply Forall_impl; [by apply dec_digits|]. intros c Hc. rewrite <-is_digit_iff in Hc.
    destruct c as [[] [] [] [] [] [] [] []]; vm_compute in Hc; try discriminate Hc; split_and!; done.
Qed.

Lemma fmt_word v : plain (fmt v).
Proof.
  destruct (decide (0 ≤ v)%Z); [rewrite fmt_nonneg by done; by apply dec_plain|]. rewrite fmt_neg by lia.
  destruct (dec_plain (- v)) as [_ H]; [lia|]. split; [done|]. by constructor.
Qed.

#[export] Instance plain_char_dec c : Decision (plain_char c).
Proof. unfold plain_char. apply _. Defined.

#[export] Instance plain_dec a : Decision (plain a).
Proof. unfold plain. apply _. Defined.

Lemma commands_plain s : plain_words s → Forall (Forall plain) (commands s).
Proof.
  intros (H1 & H2 & H3). unfold commands, auth_command, port_command, ip_command, psync_command.
  destruct (masterauth (conf s)), (slave_announce_ip (conf s)), (cached_master s); simpl in *.
  all: repeat (apply Forall_cons; split); try apply Forall_nil; try done; try apply fmt_word; concrete.
Qed.

(** The master reads [argv] from a line of the slave. *)
Definition read_as (w : bytes) (argv : list bytes) : Prop :=
  processInputBuffer (mk_in w 0 0 None [] false) None 0 = Ret (createClient, [argv], 0%Z).

Lemma commands_read s : plain_words s → Forall2 read_as (sync_command <$> commands s) (commands s).
Proof.
  intros Hw. apply Forall2_fmap_l. apply Forall_Forall2_diag. pose proof (commands_plain s Hw) as HP.
  assert (Forall (λ argv, ∃ a l, argv = a :: l ∧ a !! 0 ≠ Some "*"%char) (commands s)) as HS.
  { unfold commands, auth_command, port_command, ip_command, psync_command.
    destruct (masterauth (conf s)), (slave_announce_ip (conf s)), (cached_master s); simpl.
    all: repeat apply Forall_cons_2; first [done|apply Forall_nil|eexists _, _; (split; [reflexivity|done])]. }
  eapply Forall_impl; [apply Forall_and; split; [exact HP|exact HS]|].
  intros argv (Hp & a & l & -> & Hs). apply Forall_cons in Hp as [Ha Hl]. by apply line_parsed.
Qed.

(** The calls after the port. *)
Lemma talk_port s es :
  Forall willing es → length es = length (ip_command s ++ [capa_command; psync_command s]) →
  talk (set_state s REPL_STATE_RECEIVE_PORT) es =
    Ret (set_state (set_initial s (master_replid s) (-1)) REPL_STATE_RECEIVE_PSYNC,
         sync_command <$> ip_command s ++ [capa_command; psync_command s]).
Proof.
  intros Hw Hl. unfold ip_command in *. destruct (slave_announce_ip (conf s)) as [ip|] eqn:Ei.
  - destruct es as [|e1 [|e2 [|e3 [|]]]]; try discriminate Hl. rewrite !Forall_cons in Hw. destruct Hw as (H1 & H2 & H3 & _).
    cbn [talk]. rewrite say_after_port, Ei by done. bind_red. rewrite say_after_ip by done. bind_red.
    by rewrite say_after_capa by done.
  - destruct es as [|e1 [|e2 [|]]]; try discriminate Hl. rewrite !Forall_cons in Hw. destruct Hw as (H1 & H2 & _).
    cbn [talk]. rewrite say_after_port, Ei by done. bind_red. by rewrite say_after_capa by done.
Qed.

(** C23: a slave whose password and announced address, if any, and kept replication id
    are plain words (not empty, without white space, quotes and NULs) has connected to a
    master that answers every command with a status: it says PING, AUTH if it has a
    password, REPLCONF with its port, with its address if it announces one and with its
    capabilities, and PSYNC with the id and the next offset of the master it has kept, or
    with no id; one command for each call; then it waits for the answer to PSYNC.
    The parser of the master reads exactly these arguments.  (The commands are sent inline
    and unquoted: a password with a blank would be read as several words.) *)
Theorem handshake_conversation s es :
  repl_state s = REPL_STATE_CONNECTING → plain_words s → Forall willing es → length es = length (commands s) →
  talk s es = Ret (set_state (set_initial s (master_replid s) (-1)) REPL_STATE_RECEIVE_PSYNC, sync_command <$> commands s)
  ∧ Forall2 read_as (sync_command <$> commands s) (commands s).
Proof.
  intros Es Hp Hw Hl. split; [|by apply commands_read].
  assert (s = set_state s REPL_STATE_CONNECTING) as -> by (rewrite <-Es; by destruct s).
  clear Es Hp. unfold commands, auth_command in *. simpl (masterauth _) in *.
  destruct es as [|e1 es]; [discriminate Hl|]. apply Forall_cons in Hw as [H1 Hw]. cbn [talk].
  rewrite say_ping by done. bind_red. destruct (masterauth (conf s)) as [pass|] eqn:Ea.
  - destruct es as [|e2 [|e3 es]]; try discriminate Hl. rewrite !Forall_cons in Hw. destruct Hw as (H2 & H3 & Hw).
    cbn [talk]. rewrite say_after_pong, Ea by done. bind_red. rewrite say_after_auth by done. bind_red.
    rewrite talk_port; [done|done|]. simpl in Hl |- *. by injection Hl.
  - destruct es as [|e2 es]; try discriminate Hl. rewrite !Forall_cons in Hw. destruct Hw as (H2 & Hw).
    cbn [talk]. rewrite say_after_pong, Ea by done. bind_red.
    rewrite talk_port; [done|done|]. simpl in Hl |- *. by injection Hl.
Qed.

(** ** The answer *)

(** [masterTryPartialResynchronization] makes a slave of the client. *)
Definition online_slave (c : oclient) : oclient :=
  mk_o (Z.lor (o_flags c) CLIENT_SLAVE) (o_fd c) SLAVE_STATE_ONLINE false (o_buf c) (sentlen c) (o_reply c) (reply_bytes c)
    (obuf_soft_limit_reached_time c).

(** With the client: the line written to the socket, and the client with the strings of
    the backlog given to [addReplySds]; [None] is C_ERR. *)
Definition answer_psync (e : oenv) (r : ring) (ids : repl_ids) (capa : Z) (c : oclient) (argv1 argv2 : bytes)
    : out (option (oclient * bytes)) :=
  m ← masterTryPartialResynchronization r ids capa true argv1 argv2;
  Ret (match m with
       | Continue line data _ => Some (foldl (addReplySds e) (online_slave c) data, line)
       | FullResync | Dropped => None
       end).

Definition SLAVE_STATE_WAIT_BGSAVE_END : Z := 7.
Definition CLIENT_PRE_PSYNC : Z := Z.shiftl 1 16.

Definition full_line (ids : repl_ids) (offset : Z) : bytes := str "+FULLRESYNC " ++ replid ids ++ " "%char :: fmt offset ++ CRLF.

Definition replicationSetupSlaveForFullResync (ids : repl_ids) (c : oclient) (offset : Z) (written : bool) : oclient * bytes :=
  let c := mk_o (o_flags c) (o_fd c) SLAVE_STATE_WAIT_BGSAVE_END (put_online_on_ack c) (o_buf c) (sentlen c) (o_reply c)
             (reply_bytes c) (obuf_soft_limit_reached_time c) in
  if has (o_flags c) CLIENT_PRE_PSYNC then (c, [])
  else if written then (c, full_line ids offset) else (freeClientAsync c, []).

(** The line as [syncReadLine] gives it. *)
Definition line_env (l mem : bytes) : sync_env := mk_env false (Some l) true true true mem.

(** [syncReadLine(fd,ptr,size,timeout)]: the line and what is left on the socket; [None]
    when nothing more comes. *)
Definition strip_cr (l : bytes) : bytes := if bool_decide (last l = Some CR) then take (length l - 1) l else l.

Fixpoint read_line (size : nat) (stream acc : bytes) : option (bytes * bytes) :=
  match size with
  | 0 => Some (acc, stream)
  | S size =>
    match stream with
    | [] => None
    | c :: stream => if bool_decide (c = LF) then Some (strip_cr acc, stream) else read_line size stream (acc ++ [c])
    end
  end.

Definition syncReadLine (size : nat) (stream : bytes) : option (bytes * bytes) := read_line (size - 1) stream [].

Lemma read_line_spec l rest : ∀ size acc,
  LF ∉ l → length l + 2 ≤ size → read_line size (l ++ CRLF ++ rest) acc = Some (acc ++ l, rest).
Proof.
  induction l as [|c l IH]; intros size acc Hl Hs.
  - destruct size as [|[|size]]; [simpl in Hs; lia..|]. simpl.
    unfold strip_cr. rewrite last_snoc, bool_decide_eq_true_2 by done. rewrite length_app. simpl.
    rewrite app_nil_r. by rewrite Nat.add_sub, take_app_length.
  - apply not_elem_of_cons in Hl as [Hc Hl]. destruct size as [|size]; [simpl in Hs; lia|]. simpl in Hs |- *.
    rewrite bool_decide_eq_false_2 by done. rewrite IH by (done || lia). by rewrite <-app_assoc.
Qed.

(** A replication id: forty characters of a word. *)
Definition id_ok (id : bytes) : Prop := length id = CONFIG_RUN_ID_SIZE ∧ Forall plain_char id.

Lemma plain_no_line l : Forall plain_char l → LF ∉ l ∧ CR ∉ l ∧ nul_free l ∧ " "%char ∉ l.
Proof. intros H. rewrite Forall_forall in H. split_and!; intros Hin; by destruct (H _ Hin) as (? & ? & _). Qed.

Lemma space_at_app l t : " "%char ∉ l → space_at (l ++ " "%char :: t) = Some (length l).
Proof.
  intros Hl. unfold space_at. assert (list_find (λ c, c = " "%char) (l ++ " "%char :: t) = Some (length l, " "%char)) as ->; [|done].
  apply list_find_Some. split_and!; [by apply list_lookup_middle|done|].
  intros j y Hy Hj ->. rewrite lookup_app_l in Hy by done. apply Hl. by apply list_elem_of_lookup_2 in Hy.
Qed.

Lemma full_parsed id t : id_ok id → parse_fullresync (str "+FULLRESYNC " ++ id ++ " "%char :: t) = Some (id, t).
Proof.
  intros [Hl Hp]. destruct (plain_no_line id Hp) as (_ & _ & _ & Hs). unfold parse_fullresync.
  change (str "+FULLRESYNC " ++ id ++ " "%char :: t) with (str "+FULLRESYNC" ++ " "%char :: id ++ " "%char :: t).
  rewrite space_at_app by (unfold str; concrete). change (S (length (str "+FULLRESYNC"))) with 12.
  change (drop 12 (str "+FULLRESYNC" ++ " "%char :: id ++ " "%char :: t)) with (id ++ " "%char :: t).
  rewrite space_at_app by done. rewrite bool_decide_eq_true_2 by done.
  rewrite take_app_length. do 2 f_equal. rewrite <-(Nat.add_1_r (length id)), <-drop_drop, drop_app_length. done.
Qed.

Lemma strtoll_fmt v : (LLONG_MIN ≤ v ≤ LLONG_MAX)%Z → strtoll (fmt v) = v.
Proof.
  intros Hv. destruct (decide (0 ≤ v)%Z); [rewrite fmt_nonneg by done; apply strtoll_dec; lia|].
  rewrite fmt_neg by lia. unfold strtoll. simpl skip_spaces. cbn [bool_decide].
  change (isspace "-"%char) with false. cbv beta iota zeta. rewrite bool_decide_eq_true_2 by done.
  rewrite digit_prefix_all by (apply dec_digits; lia). rewrite dec_decimal by lia. lia.
Qed.

Lemma line_length_all l : Forall plain_char l → line_length l = length l.
Proof.
  induction 1 as [|c l (Hs & Hz & _) _ IH]; [done|]. simpl. rewrite bool_decide_eq_false_2, IH; [done|].
  intros [->|[->| ->]]; done.
Qed.

Lemma id_line_ok prefix id t rest :
  id_ok id → length prefix ≤ 20 → length t ≤ 22 → LF ∉ prefix → LF ∉ t →
  syncReadLine 256 ((prefix ++ id ++ t) ++ CRLF ++ rest) = Some (prefix ++ id ++ t, rest).
Proof.
  intros [Hl Hp] H1 H2 H3 H4. apply (read_line_spec _ _ _ []).
  - rewrite !elem_of_app. destruct (plain_no_line id Hp) as (H & _). tauto.
  - rewrite !length_app, Hl. unfold CONFIG_RUN_ID_SIZE. lia.
Qed.

(** The slave after +CONTINUE: its old master is connected again, under the new id. *)
Lemma continue_parsed s m id mem :
  cached_master s = Some m → id_ok id → id_ok (m_replid m) →
  ∃ s', slaveTryPartialResynchronization (line_env (str "+CONTINUE " ++ id) mem) s = Ret (s', PSYNC_CONTINUE)
    ∧ repl_state s' = REPL_STATE_CONNECTED ∧ cached_master s' = None
    ∧ master s' = Some (mk_m id (m_reploff m) (repl_transfer_s s) (m_pre_psync m) false).
Proof.
  intros Em [Hl Hp] [Hlm Hpm]. destruct (plain_no_line id Hp) as (_ & _ & Hn & _). destruct (plain_no_line _ Hpm) as (_ & _ & Hnm & _).
  unfold slaveTryPartialResynchronization.
  assert (sync_reply (line_env (str "+CONTINUE " ++ id) mem) = str "+CONTINUE " ++ id) as ->.
  { unfold sync_reply. simpl line. apply cstr_id. apply nul_free_app. split; [unfold nul_free, str; concrete|done]. }
  rewrite bool_decide_eq_false_2 by done.
  change (starts_with (str "+FULLRESYNC") (str "+CONTINUE " ++ id)) with false.
  change (starts_with (str "+CONTINUE") (str "+CONTINUE " ++ id)) with true. cbv beta iota.
  assert (∃ s1, adopt_id s (str "+CONTINUE " ++ id) = Ret s1
    ∧ cached_master s1 = Some (mk_m id (m_reploff m) (m_fd m) (m_pre_psync m) (m_close m)) ∧ repl_transfer_s s1 = repl_transfer_s s)
    as (s1 & -> & E1 & E2).
  { unfold adopt_id. change (drop 9 (str "+CONTINUE " ++ id)) with (" "%char :: id).
    assert (line_length (" "%char :: id) = S (length id)) as -> by (simpl; by rewrite line_length_all).
    rewrite Hl, bool_decide_eq_true_2 by done. change (drop 10 (str "+CONTINUE " ++ id)) with id. rewrite take_ge by lia.
    rewrite Em, cstr_id by done. case_bool_decide as Hi.
    - eexists. split_and!; [done|rewrite Em, Hi; by destruct m|done].
    - eexists. by split_and!. }
  bind_red. unfold replicationResurrectCachedMaster. rewrite E1. bind_red.
  simpl (rng _). assert (∃ r', (if bool_decide (repl_backlog (rng s1) = None)
    then createReplicationBacklog (rng s1) (bmem (line_env (str "+CONTINUE " ++ id) mem)) else Ret (rng s1)) = Ret r') as [r' Er'].
  { case_bool_decide as H; [|by eexists]. unfold createReplicationBacklog. rewrite H. by eexists. }
  rewrite Er'. bind_red. eexists. split; [done|]. simpl. by rewrite E2.
Qed.

(** The slave after +FULLRESYNC. *)
Lemma full_understood s id off mem :
  id_ok id → (LLONG_MIN ≤ off ≤ LLONG_MAX)%Z →
  slaveTryPartialResynchronization (line_env (str "+FULLRESYNC " ++ id ++ " "%char :: fmt off) mem) s
  = Ret (replicationDiscardCachedMaster (set_initial s id off), PSYNC_FULLRESYNC).
Proof.
  intros Hid Hoff. pose proof Hid as [_ Hp]. destruct (plain_no_line id Hp) as (_ & _ & Hn & _). unfold slaveTryPartialResynchronization.
  assert (sync_reply (line_env (str "+FULLRESYNC " ++ id ++ " "%char :: fmt off) mem) = str "+FULLRESYNC " ++ id ++ " "%char :: fmt off) as ->.
  { unfold sync_reply. simpl line. apply cstr_id. rewrite nul_free_app, nul_free_app, nul_free_cons.
    split; [unfold nul_free, str; concrete|]. split; [done|]. split; [done|apply fmt_plain]. }
  rewrite bool_decide_eq_false_2 by done.
  change (starts_with (str "+FULLRESYNC") (str "+FULLRESYNC " ++ id ++ " "%char :: fmt off)) with true. cbv beta iota.
  rewrite full_parsed by done. by rewrite strtoll_fmt.
Qed.

Lemma fmt_no_newline v : LF ∉ fmt v.
Proof. destruct (fmt_word v) as [_ H]. by destruct (plain_no_line _ H). Qed.

(** The answer to a full resynchronization is understood. *)
Lemma full_resync_agrees ids c off s mem rest :
  id_ok (replid ids) → (LLONG_MIN ≤ off ≤ LLONG_MAX)%Z → has (o_flags c) CLIENT_PRE_PSYNC = false →
  ∃ c' l s', replicationSetupSlaveForFullResync ids c off true = (c', l ++ CRLF)
    ∧ o_replstate c' = SLAVE_STATE_WAIT_BGSAVE_END
    ∧ syncReadLine 256 ((l ++ CRLF) ++ rest) = Some (l, rest)
    ∧ slaveTryPartialResynchronization (line_env l mem) s = Ret (s', PSYNC_FULLRESYNC)
    ∧ master_replid s' = replid ids ∧ master_initial_offset s' = off ∧ cached_master s' = None.
Proof.
  intros Hid Hoff Hf. unfold replicationSetupSlaveForFullResync. simpl. rewrite Hf.
  eexists _, (str "+FULLRESYNC " ++ replid ids ++ " "%char :: fmt off), _. split_and!; [| | |by apply full_understood|done..].
  - f_equal. unfold full_line. rewrite <-!app_assoc. done.
  - done.
  - rewrite <-app_assoc. pose proof (fmt_length off Hoff). apply id_line_ok; [done|simpl; lia|simpl; lia|unfold str; concrete|].
    apply not_elem_of_cons. split; [done|apply fmt_no_newline].
Qed.

(** ** The missing bytes *)

(** A slave that is not being fed takes no replies. *)
Lemma slave_takes_nothing e c l :
  has (o_flags c) (Z.lor CLIENT_LUA CLIENT_MODULE) = false → has (o_flags c) CLIENT_SLAVE = true →
  has (o_flags c) CLIENT_UNDER_FEED = false → foldl (addReplySds e) c l = c.
Proof.
  intros H1 H2 H3. induction l as [|s l IH]; [done|]. cbn [foldl].
  assert (addReplySds e c s = c) as ->; [|done].
  unfold addReplySds, addReplyString, prepareClientToWrite. rewrite H1, H2, H3.
  by destruct (has (o_flags c) (Z.lor CLIENT_REPLY_OFF CLIENT_REPLY_SKIP)), (has (o_flags c) CLIENT_MASTER && negb (has (o_flags c) CLIENT_MASTER_FORCE_REPLY)).
Qed.

(** A client that asks for a synchronization. *)
Definition asking (c : oclient) : Prop :=
  has (o_flags c) (Z.lor CLIENT_LUA CLIENT_MODULE) = false ∧ has (o_flags c) CLIENT_UNDER_FEED = false
  ∧ clientHasPendingReplies c = false.

(** C27: when a partial resynchronization is granted, the slave understands the answer:
    it is connected again, with the id of the master and the offset it had.  The bytes
    from that offset to the offset of the master are what it misses, and they are
    given to [addReplySds]; but the client is a slave by then and not being fed, so
    [prepareClientToWrite] refuses them: nothing is sent, however far the slave is
    behind. *)
Theorem partial_resync_gap e r base st ids c s m mem rest :
  represents r base st → id_ok (replid ids) → id_ok (m_replid m) → asking c →
  repl_state s = REPL_STATE_RECEIVE_PSYNC → cached_master s = Some m →
  (LLONG_MIN ≤ m_reploff m < LLONG_MAX)%Z → m_replid m = replid ids →
  (master_repl_offset r - Z.min (repl_backlog_size r) (zlen st) ≤ m_reploff m ≤ master_repl_offset r)%Z →
  ∃ bs c' l s',
    masterTryPartialResynchronization r ids SLAVE_CAPA_PSYNC2 true (m_replid m) (fmt (m_reploff m + 1))
      = Ret (Continue (l ++ CRLF) bs (master_repl_offset r - m_reploff m))
    ∧ concat bs = drop (Z.to_nat (m_reploff m - base)) st
    ∧ answer_psync e r ids SLAVE_CAPA_PSYNC2 c (m_replid m) (fmt (m_reploff m + 1)) = Ret (Some (c', l ++ CRLF))
    ∧ syncReadLine 256 ((l ++ CRLF) ++ rest) = Some (l, rest)
    ∧ slaveTryPartialResynchronization (line_env l mem) s = Ret (s', PSYNC_CONTINUE)
    ∧ repl_state s' = REPL_STATE_CONNECTED
    ∧ master s' = Some (mk_m (replid ids) (m_reploff m) (repl_transfer_s s) (m_pre_psync m) false)
    ∧ pending c' = [] ∧ clientHasPendingReplies c' = false ∧ o_replstate c' = SLAVE_STATE_ONLINE.
Proof.
  intros HR Hid Hidm (Hc1 & Hc2 & Hc3) Es Em Ho Hi Hw.
  destruct (psync_represents r base st ids SLAVE_CAPA_PSYNC2 (m_replid m) (fmt (m_reploff m + 1)) HR) as (bs & E & Hbs).
  destruct (continue_parsed s m (replid ids) mem Em Hid Hidm) as (s' & E' & Es' & _ & Em').
  assert (string2ll (fmt (m_reploff m + 1)) = Some (m_reploff m + 1)%Z) as E2 by (apply string2ll_iff; split; [done|lia]).
  rewrite E2 in E. rewrite (bool_decide_eq_true_2 (_ ∧ _)) in E by lia.
  assert (strcasecmp_eq (m_replid m) (replid ids) = true) as E3 by (rewrite Hi; by apply bool_decide_eq_true_2).
  rewrite E3 in E. simpl in E. unfold answer_psync. rewrite E. bind_red.
  assert (has (o_flags (online_slave c)) (Z.lor CLIENT_LUA CLIENT_MODULE) = false
    ∧ has (o_flags (online_slave c)) CLIENT_SLAVE = true ∧ has (o_flags (online_slave c)) CLIENT_UNDER_FEED = false) as (F1 & F2 & F3).
  { simpl. rewrite !has_lor, Hc1, Hc2. split_and!; [done|by rewrite orb_true_r|done]. }
  rewrite slave_takes_nothing by done.
  exists bs, (online_slave c), (str "+CONTINUE " ++ replid ids), s'. split_and!; try done.
  - do 2 f_equal. lia.
  - rewrite (Hbs _ E2) by lia. f_equal. lia.
  - rewrite <-!app_assoc. pose proof (id_line_ok (str "+CONTINUE ") (replid ids) [] rest Hid) as HL.
    rewrite app_nil_r, <-app_assoc in HL. apply HL; [simpl; lia|simpl; lia|unfold str; concrete|by apply not_elem_of_nil].
  - unfold clientHasPendingReplies in Hc3. apply orb_false_iff in Hc3 as [Hb Hr]. rewrite bool_decide_eq_false in Hb, Hr.
    unfold pending. simpl. rewrite (dec_stable Hb), (dec_stable Hr). apply drop_nil.
Qed.

(** A slave that has all but the last five bytes of the stream. *)
Definition sample_stream : bytes := str "0123456789".
Definition sample_ring : ring := mk_ring (Some (sample_stream ++ replicate 6 NUL)) 16 10 10 101 110.
Definition sample_client : oclient := mk_o 0 7 0 false [] 0 [] 0 0.

Lemma sample_id_ok : id_ok sample_id.
Proof. split; [done|]. apply Forall_replicate. split_and!; done. Qed.

Lemma partial_resync_gap_witness :
  ∃ bs c' l s',
    masterTryPartialResynchronization sample_ring (mk_ids sample_id sample_id (-1)) SLAVE_CAPA_PSYNC2 true sample_id (fmt 106)
      = Ret (Continue (l ++ CRLF) bs 5)
    ∧ concat bs = str "56789"
    ∧ answer_psync (default_env 0) sample_ring (mk_ids sample_id sample_id (-1)) SLAVE_CAPA_PSYNC2 sample_client sample_id (fmt 106)
      = Ret (Some (c', l ++ CRLF))
    ∧ syncReadLine 256 ((l ++ CRLF) ++ []) = Some (l, [])
    ∧ slaveTryPartialResynchronization (line_env l (replicate 16 NUL)) (sample_slave REPL_STATE_RECEIVE_PSYNC) = Ret (s', PSYNC_CONTINUE)
    ∧ repl_state s' = REPL_STATE_CONNECTED
    ∧ master s' = Some (mk_m sample_id 105 9 false false)
    ∧ pending c' = [] ∧ clientHasPendingReplies c' = false ∧ o_replstate c' = SLAVE_STATE_ONLINE.
Proof.
  apply (partial_resync_gap (default_env 0) sample_ring 100 sample_stream (mk_ids sample_id sample_id (-1)) sample_client
           (sample_slave REPL_STATE_RECEIVE_PSYNC) (mk_m sample_id 105 (-1) false false) (replicate 16 NUL) []).
  - exists (sample_stream ++ replicate 6 NUL). split_and!; try reflexivity. split; try reflexivity.
    intros k Hk. change (zlen sample_stream) with 10%Z in Hk. change (repl_backlog_size sample_ring) with 16%Z in *. rewrite Z.mod_small by lia. rewrite Nat2Z.id.
    apply lookup_app_l. change (k < 10). lia.
  - exact sample_id_ok.
  - exact sample_id_ok.
  - split_and!; reflexivity.
  - reflexivity.
  - reflexivity.
  - unfold LLONG_MIN, LLONG_MAX. simpl. lia.
  - reflexivity.
  - vm_compute. split; discriminate.
Defined.

(** The seven calls of a slave with a password, over to the answer of PSYNC. *)
Lemma handshake_conversation_witness :
  talk (sample_slave REPL_STATE_CONNECTING) (replicate 5 (line_env (str "+OK") []))
  = Ret (set_state (set_initial (sample_slave REPL_STATE_CONNECTING) sample_id (-1)) REPL_STATE_RECEIVE_PSYNC,
      [str "PING" ++ CRLF; str "AUTH secret" ++ CRLF; str "REPLCONF listening-port 6379" ++ CRLF;
       str "REPLCONF capa eof capa psync2" ++ CRLF; str "PSYNC " ++ sample_id ++ str " 106" ++ CRLF])
  ∧ Forall2 read_as (sync_command <$> commands (sample_slave REPL_STATE_CONNECTING)) (commands (sample_slave REPL_STATE_CONNECTING)).
Proof.
  apply (handshake_conversation (sample_slave REPL_STATE_CONNECTING) (replicate 5 (line_env (str "+OK") []))).
  - reflexivity.
  - split_and!; [by apply (bool_decide_unpack _); vm_compute|exact I|split; [done|exact (proj2 sample_id_ok)]].
  - apply Forall_replicate. split_and!; reflexivity.
  - reflexivity.
Defined.
