(* ===== verification/Fdset.v ===== *)
(** * Writing a snapshot to the sockets of many slaves

    The child process of a diskless synchronization: the rio target of src/src/rio.c that
    writes to a set of descriptors, and [rdbSaveRioWithEOFMark] of src/src/rdb.c, which
    frames the snapshot with a mark.  Sockets are blocking; what they answer to writes is
    a list, after which they take everything.

    A target whose state is still zero at the end has got every byte, whatever the
    others did. *)
From Stdlib Require Import Ascii.
From S2P Require Import Prelude Sds Resp.

Definition EIO : Z := 5.
Definition EWOULDBLOCK : Z := 11.
Definition ETIMEDOUT : Z := 110.

(** [write] takes some bytes (0 is an error without a number), or fails with [errno]. *)
Inductive answer := Took (n : nat) | Refused (errno : Z).

(** A descriptor: its [state], the answers of its socket and what it has taken. *)
Record target := mk_t { t_state : Z; t_plan : list answer; t_sent : bytes }.

Record fdset := mk_fdset { fds : list target; f_buf : bytes; f_pos : Z }.

(** The loop until all of [p] is written: what was taken, [errno] when it was left early,
    and the answers that are left. *)
Fixpoint write_all (p : bytes) (plan : list answer) : bytes * option Z * list answer :=
  match plan with
  | [] => (p, None, [])
  | Took n :: plan =>
    if bool_decide (n = 0) then ([], Some 0%Z, plan)
    else if bool_decide (length p ≤ n) then (p, None, plan)
    else let '(b, err, plan) := write_all (drop n p) plan in (take n p ++ b, err, plan)
  | Refused e :: plan => ([], Some (if bool_decide (e = EWOULDBLOCK) then ETIMEDOUT else e), plan)
  end.

(** A descriptor that has failed is passed over. *)
Definition send_chunk (c : bytes) (t : target) : target :=
  if bool_decide (t_state t ≠ 0)%Z then t
  else
    let '(b, err, plan) := write_all c (t_plan t) in
    let state := match err with None => 0%Z | Some e => if bool_decide (e = 0)%Z then EIO else e end in
    mk_t state plan (t_sent t ++ b).

Definition broken (r : fdset) : nat := length (filter (λ t, t_state t ≠ 0%Z) (fds r)).

(** [while(len)], in chunks of a kilobyte; [false] when all descriptors had failed before. *)
Fixpoint chunk_loop (fuel : nat) (r : fdset) (p : bytes) : out (fdset * bool) :=
  if bool_decide (p = []) then Ret (r, true)
  else
    match fuel with
    | 0 => Fail OutOfFuel
    | S fuel =>
      let c := take 1024 p in
      let all := bool_decide (broken r = length (fds r)) in
      let r := mk_fdset (send_chunk c <$> fds r) (f_buf r) (f_pos r) in
      if all then Ret (r, false) else chunk_loop fuel (mk_fdset (fds r) (f_buf r) (f_pos r + zlen c)) (drop 1024 p)
    end.

(** [None] is NULL, with a length of zero: a flush. *)
Definition rioFdsetWrite (r : fdset) (buf : option bytes) : out (fdset * bool) :=
  let s := default [] buf in
  let doflush := bool_decide (buf = None) in
  let '(r, doflush) :=
    if bool_decide (s ≠ []) then
      let b := sdscatlen (f_buf r) s (length s) in (mk_fdset (fds r) b (f_pos r), bool_decide (zlen b > PROTO_IOBUF_LEN)%Z)
    else (r, doflush) in
  if doflush then
    '(r, ok) ← chunk_loop (length (f_buf r)) r (f_buf r);
    if (ok : bool) then Ret (mk_fdset (fds r) [] (f_pos r), true) else Ret (r, false)
  else Ret (r, true).

Definition rioFdsetFlush (r : fdset) : out (fdset * bool) := rioFdsetWrite r None.

Definition rioInitWithFdset (plans : list (list answer)) : fdset := mk_fdset ((λ p, mk_t 0 p []) <$> plans) [] 0.

Definition rioWrite (r : fdset) (s : bytes) : out (fdset * bool) :=
  if bool_decide (s = []) then Ret (r, true) else rioFdsetWrite r (Some s).

(** Writes until one fails. *)
Fixpoint rio_writes (r : fdset) (l : list bytes) : out (fdset * bool) :=
  match l with
  | [] => Ret (r, true)
  | s :: l => '(r, ok) ← rioWrite r s; if (ok : bool) then rio_writes r l else Ret (r, false)
  end.

(** [pieces]: the strings [rdbSaveRio] writes. *)
Definition rdbSaveRioWithEOFMark (r : fdset) (eofmark : bytes) (pieces : list bytes) : out (fdset * bool) :=
  rio_writes r ([str "$EOF:"; eofmark; CRLF] ++ pieces ++ [eofmark]).

(** The child: the states and what was sent are what it reports. *)
Definition send_snapshot (plans : list (list answer)) (eofmark : bytes) (pieces : list bytes) : out (list target * bool) :=
  '(r, ok) ← rdbSaveRioWithEOFMark (rioInitWithFdset plans) eofmark pieces;
  '(r, ok) ← (if (ok : bool) then rioFdsetFlush r else Ret (r, false));
  Ret (fds r, ok).

(** ** Every byte, or an error *)

Lemma write_all_spec plan : ∀ p b err left,
  write_all p plan = (b, err, left) → err = None → b = p.
Proof.
  induction plan as [|[n|e] plan IH]; intros p b err left E He; simpl in E; [by simplify_eq| |by simplify_eq].
  case_bool_decide; [by simplify_eq|]. case_bool_decide; [by simplify_eq|].
  destruct (write_all (drop n p) plan) as [[b1 err1] left1] eqn:E1. simplify_eq. rewrite (IH _ _ _ _ E1 eq_refl). apply take_drop.
Qed.

(** A target in order has got exactly these bytes. *)
Definition got (d : bytes) (t : target) : Prop := t_state t = 0%Z → t_sent t = d.

Lemma send_chunk_got d c t : got d t → got (d ++ c) (send_chunk c t).
Proof.
  intros H Hs. unfold send_chunk in *. case_bool_decide as Ht; [done|]. destruct (write_all c (t_plan t)) as [[b err] plan] eqn:E.
  simpl in *. destruct err as [e|]; [case_bool_decide; [discriminate Hs|done]|].
  rewrite (write_all_spec _ _ _ _ _ E eq_refl), H; [done|]. destruct (decide (t_state t = 0%Z)); done.
Qed.

Lemma chunk_loop_spec fuel : ∀ r p d,
  length p ≤ fuel → Forall (got d) (fds r) →
  ∃ r' ok, chunk_loop fuel r p = Ret (r', ok) ∧ length (fds r') = length (fds r) ∧ (ok = true → Forall (got (d ++ p)) (fds r')).
Proof.
  induction fuel as [|fuel IH]; intros r p d Hl Hg; simpl; case_bool_decide as Hp.
  1,3: subst p; eexists _, _; split; [done|]; split; [done|]; by rewrite app_nil_r.
  - destruct p; [done|simpl in Hl; lia].
  - set (r1 := mk_fdset _ _ _). case_bool_decide.
    + eexists _, _. split; [done|]. split; [|done]. unfold r1. simpl. by rewrite length_fmap.
    + assert (Forall (got (d ++ take 1024 p)) (fds r1)) as Hg1.
      { apply Forall_fmap. eapply Forall_impl; [exact Hg|]. intros t. apply send_chunk_got. }
      edestruct (IH (mk_fdset (fds r1) (f_buf r1) (f_pos r1 + zlen (take 1024 p))) (drop 1024 p)) as (r' & ok & E & H1 & H2);
        [|exact Hg1|].
      { rewrite length_drop. destruct p as [|x p]; [done|]. apply (Nat.le_trans _ (length (x :: p) - 1)); [lia|]. simpl in *. lia. }
      exists r', ok. split; [exact E|]. split; [rewrite H1; apply length_fmap|]. intros Hok. specialize (H2 Hok).
      by rewrite <-app_assoc, take_drop in H2.
Qed.

(** The set as a whole: [all] was written to it, a part of it is still in the buffer. *)
Definition holding (all : bytes) (r : fdset) : Prop := ∃ d, all = d ++ f_buf r ∧ Forall (got d) (fds r).

Lemma fdset_write all r buf :
  holding all r → ∃ r' ok, rioFdsetWrite r buf = Ret (r', ok) ∧ length (fds r') = length (fds r)
    ∧ (ok = true → holding (all ++ default [] buf) r' ∧ (buf = None → f_buf r' = [])).
Proof.
  intros (d & -> & Hg). unfold rioFdsetWrite.
  assert (∀ b r1, fds r1 = fds r → f_buf r1 = b → ∃ r' ok,
    ('(r2, ok) ← chunk_loop (length b) r1 b; if (ok : bool) then Ret (mk_fdset (fds r2) [] (f_pos r2), true) else Ret (r2, false)) = Ret (r', ok)
    ∧ length (fds r') = length (fds r) ∧ (ok = true → holding (d ++ b) r' ∧ f_buf r' = [])) as HF.
  { intros b r1 E1 E2. rewrite <-E1 in Hg. destruct (chunk_loop_spec (length b) r1 b d (Nat.le_refl _) Hg) as (r2 & ok & -> & H1 & H2). bind_red.
    rewrite <-E1. destruct ok; [|by eexists _, _]. eexists _, _. split; [done|]. split; [done|]. intros _. split; [|done].
    exists (d ++ b). simpl. rewrite app_nil_r. split; [done|by apply H2]. }
  destruct buf as [s|]; simpl.
  - case_bool_decide as Hs.
    + unfold sdscatlen. rewrite take_ge by done. simpl. case_bool_decide.
      * destruct (HF (f_buf r ++ s) (mk_fdset (fds r) (f_buf r ++ s) (f_pos r)) eq_refl eq_refl) as (r' & ok & -> & H1 & H2).
        exists r', ok. split; [done|]. split; [done|]. intros Hok. rewrite <-app_assoc. split; [by apply H2|done].
      * eexists _, _. split; [done|]. split; [done|]. intros _. split; [|done]. exists d. simpl. by rewrite app_assoc.
    + assert (s = []) as -> by (destruct s; done). eexists _, _. split; [done|]. split; [done|]. intros _. split; [|done]. exists d. by rewrite app_nil_r.
  - destruct (HF (f_buf r) r eq_refl eq_refl) as (r' & ok & -> & H1 & H2). exists r', ok. split; [done|]. split; [done|].
    intros Hok. rewrite app_nil_r. destruct (H2 Hok). done.
Qed.

Lemma rio_writes_spec l : ∀ all r,
  holding all r → ∃ r' ok, rio_writes r l = Ret (r', ok) ∧ length (fds r') = length (fds r) ∧ (ok = true → holding (all ++ concat l) r').
Proof.
  induction l as [|s l IH]; intros all r Hr; cbn [rio_writes concat].
  { eexists _, _. split; [done|]. split; [done|]. by rewrite app_nil_r. }
  assert (∃ r' ok, rioWrite r s = Ret (r', ok) ∧ length (fds r') = length (fds r) ∧ (ok = true → holding (all ++ s) r')) as (r1 & ok & -> & H1 & H2).
  { unfold rioWrite. case_bool_decide as Hs; [subst s; eexists _, _; by rewrite app_nil_r|].
    destruct (fdset_write all r (Some s) Hr) as (r1 & ok & -> & H1 & H2). exists r1, ok. split; [done|]. split; [done|]. intros Hok. by apply H2. }
  bind_red. destruct ok; [|by eexists _, _]. destruct (IH (all ++ s) r1 (H2 eq_refl)) as (r' & ok & -> & H3 & H4).
  exists r', ok. split; [done|]. split; [congruence|]. intros Hok. rewrite app_assoc. by apply H4.
Qed.

(** The child ends, there is a report for every descriptor, and when it succeeds the
    descriptors without an error have got the whole snapshot in its frame. *)
Lemma snapshot_sent plans eofmark pieces :
  ∃ ts ok, send_snapshot plans eofmark pieces = Ret (ts, ok) ∧ length ts = length plans
    ∧ (ok = true → Forall (got (str "$EOF:" ++ eofmark ++ CRLF ++ concat pieces ++ eofmark)) ts).
Proof.
  assert (holding [] (rioInitWithFdset plans)) as H0 by (exists []; split; [done|]; apply Forall_fmap, Forall_true; done).
  destruct (rio_writes_spec ([str "$EOF:"; eofmark; CRLF] ++ pieces ++ [eofmark]) [] _ H0) as (r & ok & E & Hn & Hh).
  unfold send_snapshot, rdbSaveRioWithEOFMark. rewrite E. bind_red. simpl in Hn. rewrite length_fmap in Hn.
  destruct ok; [|bind_red; by eexists _, _]. destruct (fdset_write _ r None (Hh eq_refl)) as (r' & ok & E' & Hn' & Hh').
  unfold rioFdsetFlush. rewrite E'. bind_red. eexists _, _. split; [done|]. split; [congruence|]. intros Hok.
  destruct (Hh' Hok) as [(d & Ed & Hd) Hb]. rewrite (Hb eq_refl), !app_nil_r in Ed. subst d.
  rewrite concat_app, concat_app in Hd. cbn [concat app default] in Hd. rewrite !app_nil_r, <-!app_assoc in Hd. exact Hd.
Qed.

(** *** One socket that takes everything is enough *)

Definition healthy (i : nat) (r : fdset) : Prop := ∃ t, fds r !! i = Some t ∧ t_state t = 0%Z ∧ t_plan t = [].

Lemma healthy_not_all i r : healthy i r → broken r ≠ length (fds r).
Proof.
  intros (t & Hi & Hs & _) E. unfold broken in E. apply list_elem_of_lookup_2 in Hi.
  assert (∀ l : list target, length (filter (λ t, t_state t ≠ 0%Z) l) = length l → Forall (λ t, t_state t ≠ 0%Z) l) as HF.
  { induction l as [|x l IH]; [done|]. rewrite filter_cons. case_decide; simpl; intros El; [constructor; [done|apply IH; lia]|].
    pose proof (length_filter (λ t, t_state t ≠ 0%Z) l). lia. }
  specialize (HF _ E). rewrite Forall_forall in HF. by apply (HF t).
Qed.

Lemma chunk_loop_healthy i fuel : ∀ r p,
  healthy i r → length p ≤ fuel → ∃ r', chunk_loop fuel r p = Ret (r', true) ∧ healthy i r'.
Proof.
  induction fuel as [|fuel IH]; intros r p Hh Hl; simpl; case_bool_decide as Hp; [by eexists| |by eexists|].
  { destruct p; [done|simpl in Hl; lia]. }
  rewrite bool_decide_eq_false_2 by (by apply (healthy_not_all i)). apply IH.
  - destruct Hh as (t & Hi & Hs & He). exists (send_chunk (take 1024 p) t). cbn [fds]. rewrite list_lookup_fmap, Hi.
    split; [done|]. unfold send_chunk. by rewrite Hs, He.
  - rewrite length_drop. destruct p as [|x p]; [done|]. apply (Nat.le_trans _ (length (x :: p) - 1)); [lia|]. simpl in *. lia.
Qed.

Lemma fdset_write_healthy i r buf :
  healthy i r → ∃ r', rioFdsetWrite r buf = Ret (r', true) ∧ healthy i r'.
Proof.
  intros Hh. unfold rioFdsetWrite. case_bool_decide as Hs.
  - case_bool_decide; [|by eexists]. destruct (chunk_loop_healthy i _ (mk_fdset (fds r) (sdscatlen (f_buf r) (default [] buf) (length (default [] buf))) (f_pos r))
      (sdscatlen (f_buf r) (default [] buf) (length (default [] buf))) Hh (Nat.le_refl _)) as (r' & E & H'). simpl in *. rewrite E. bind_red. by eexists.
  - case_bool_decide; [|by eexists]. destruct (chunk_loop_healthy i _ r (f_buf r) Hh (Nat.le_refl _)) as (r' & -> & H'). bind_red. by eexists.
Qed.

(** A slave whose socket takes everything is served, whatever the others do. *)
Lemma snapshot_served plans eofmark pieces i :
  plans !! i = Some [] →
  ∃ ts t, send_snapshot plans eofmark pieces = Ret (ts, true) ∧ ts !! i = Some t ∧ t_state t = 0%Z
    ∧ t_sent t = str "$EOF:" ++ eofmark ++ CRLF ++ concat pieces ++ eofmark.
Proof.
  intros Hi. assert (healthy i (rioInitWithFdset plans)) as H0.
  { exists (mk_t 0 [] []). split; [|done]. simpl. by rewrite list_lookup_fmap, Hi. }
  assert (∀ l r, healthy i r → ∃ r', rio_writes r l = Ret (r', true) ∧ healthy i r') as HW.
  { induction l as [|s l IH]; intros r Hr; cbn [rio_writes]; [by eexists|]. unfold rioWrite. case_bool_decide; [bind_red; by apply IH|].
    destruct (fdset_write_healthy i r (Some s) Hr) as (r1 & -> & H1). bind_red. by apply IH. }
  destruct (snapshot_sent plans eofmark pieces) as (ts & ok & E & _ & Hok). rewrite E. revert E. unfold send_snapshot, rdbSaveRioWithEOFMark.
  destruct (HW ([str "$EOF:"; eofmark; CRLF] ++ pieces ++ [eofmark]) _ H0) as (r & -> & Hr). bind_red.
  destruct (fdset_write_healthy i r None Hr) as (r' & E' & (t & Ht & Hs & _)). unfold rioFdsetFlush. rewrite E'. bind_red. intros [= <- <-].
  exists (fds r'), t. split; [done|]. split; [done|]. split; [done|]. specialize (Hok eq_refl). rewrite Forall_lookup in Hok. by apply (Hok i).
Qed.

(** Three slaves; the second one stops in the middle, the third takes little at a time. *)
Lemma three_slaves :
  let snd x := str "$EOF:mark" ++ CRLF ++ x in
  match send_snapshot [[]; [Took 4; Refused EWOULDBLOCK]; replicate 20 (Took 1)] (str "mark") [str "RE"; str "DIS"] with
  | Ret (ts, ok) => ok = true ∧ t_sent <$> ts = [snd (str "REDISmark"); str "$EOF"; snd (str "REDISmark")]
                    ∧ t_state <$> ts = [0%Z; ETIMEDOUT; 0%Z]
  | Fail _ => False
  end.
Proof. vm_compute. done. Qed.
