(* ===== verification/SyncMaster.v ===== *)
(** * A master and the synchronization of its slaves

    src/src/replication.c on the side of the master: REPLCONF, SYNC and PSYNC, the
    snapshot that is started for the slaves that wait, sending it, and the commands that
    are collected in the output buffers meanwhile; snapshots go to a file that is sent
    afterwards, or straight to the sockets (repl-diskless-sync).  For a top-level master
    (masterhost is NULL).  What [rdbSave] writes for a data set is an argument, and so are
    the results of fork, of files and of sockets.

    The theorems at the end: every slave gets the id and an offset, the snapshot of
    exactly that offset, and the stream from there on; and reads it. *)
From Stdlib Require Import Ascii.
From S2P Require Import Prelude Sds GraphText Locate Util Args Resp Call Backlog Gate Output Handshake Psync Fdset.

Definition SLAVE_STATE_SEND_BULK : Z := 8.
Definition SLAVE_CAPA_EOF : Z := 1.
Definition NET_IP_STR_LEN : Z := 46.

(** A client; [s_id] is its own number, [repldb] is the open snapshot (its length is [repldbsize]), [s_wire]
    everything that was written to the socket. *)
Record sslave := mk_s {
  s_id : Z; s_conn : oclient; slave_capa : Z; slave_listening_port : Z; slave_ip : bytes;
  psync_initial_offset : Z; repl_ack_off : Z;
  repldb : option bytes; repldboff : nat; replpreamble : option bytes; s_wire : bytes }.

Definition set_conn (s : sslave) (c : oclient) : sslave :=
  mk_s (s_id s) c (slave_capa s) (slave_listening_port s) (slave_ip s) (psync_initial_offset s) (repl_ack_off s) (repldb s) (repldboff s)
    (replpreamble s) (s_wire s).
Definition set_capa (s : sslave) (n : Z) : sslave :=
  mk_s (s_id s) (s_conn s) n (slave_listening_port s) (slave_ip s) (psync_initial_offset s) (repl_ack_off s) (repldb s) (repldboff s)
    (replpreamble s) (s_wire s).
Definition set_address (s : sslave) (port : Z) (ip : bytes) : sslave :=
  mk_s (s_id s) (s_conn s) (slave_capa s) port ip (psync_initial_offset s) (repl_ack_off s) (repldb s) (repldboff s) (replpreamble s) (s_wire s).
Definition set_offset (s : sslave) (off : Z) : sslave :=
  mk_s (s_id s) (s_conn s) (slave_capa s) (slave_listening_port s) (slave_ip s) off (repl_ack_off s) (repldb s) (repldboff s)
    (replpreamble s) (s_wire s).
Definition set_ack (s : sslave) (off : Z) : sslave :=
  mk_s (s_id s) (s_conn s) (slave_capa s) (slave_listening_port s) (slave_ip s) (psync_initial_offset s) off (repldb s) (repldboff s)
    (replpreamble s) (s_wire s).
Definition set_db (s : sslave) (db : option bytes) (off : nat) (pre : option bytes) : sslave :=
  mk_s (s_id s) (s_conn s) (slave_capa s) (slave_listening_port s) (slave_ip s) (psync_initial_offset s) (repl_ack_off s) db off pre (s_wire s).
(** [write(fd,b,..)]: the bytes go out. *)
Definition put_wire (s : sslave) (b : bytes) : sslave :=
  mk_s (s_id s) (s_conn s) (slave_capa s) (slave_listening_port s) (slave_ip s) (psync_initial_offset s) (repl_ack_off s) (repldb s) (repldboff s)
    (replpreamble s) (s_wire s ++ b).

Definition set_replstate (c : oclient) (n : Z) (put : bool) : oclient :=
  mk_o (o_flags c) (o_fd c) n put (o_buf c) (sentlen c) (o_reply c) (reply_bytes c) (obuf_soft_limit_reached_time c).

Definition s_state (s : sslave) : Z := o_replstate (s_conn s).
Definition waits (n : Z) (s : sslave) : bool := bool_decide (s_state s = n).

(** A background process, with the data it writes: to the file, or to the sockets of
    the clients [ids]. *)
Inductive child := ToDisk (dump : bytes) | ToSockets (ids : list Z) (dump : bytes).
Definition dump_of (c : child) : bytes := match c with ToDisk d => d | ToSockets _ d => d end.

(** [rdb_child]: the background process, with its type; [rdb]: the file
    [server.rdb_filename]; [leaving]: clients that were sent an error and are to be
    closed; [executed]: the commands executed so far, which determine the data set, each
    with the id of the slave that sent it, if any. *)
Definition entry : Type := option Z * list bytes.

Record mserver := mk_ms {
  slaves : list sslave; leaving : list sslave; m_ring : ring; m_ids : repl_ids;
  rdb_child : option child; aof_child : bool; rdb : option bytes; executed : list entry }.

Definition set_slaves (m : mserver) (l : list sslave) : mserver :=
  mk_ms l (leaving m) (m_ring m) (m_ids m) (rdb_child m) (aof_child m) (rdb m) (executed m).
Definition set_leaving (m : mserver) (l : list sslave) : mserver :=
  mk_ms (slaves m) l (m_ring m) (m_ids m) (rdb_child m) (aof_child m) (rdb m) (executed m).
Definition set_history (m : mserver) (r : ring) (i : repl_ids) : mserver :=
  mk_ms (slaves m) (leaving m) r i (rdb_child m) (aof_child m) (rdb m) (executed m).
Definition set_child (m : mserver) (c : option child) (f : option bytes) : mserver :=
  mk_ms (slaves m) (leaving m) (m_ring m) (m_ids m) c (aof_child m) f (executed m).
Definition execute_as (m : mserver) (o : option Z) (argv : list robj) : mserver :=
  mk_ms (slaves m) (leaving m) (m_ring m) (m_ids m) (rdb_child m) (aof_child m) (rdb m) (executed m ++ [(o, texts argv)]).
Definition execute (m : mserver) (argv : list robj) : mserver := execute_as m None argv.

(** The commands, and those that did not come from slave [id]. *)
Definition cmds (l : list entry) : list (list bytes) := l.*2.
Definition without (id : Z) (l : list entry) : list (list bytes) := (filter (λ e, e.1 ≠ Some id) l).*2.
Definition unheard (id : Z) (l : list entry) : Prop := Forall (λ e, e.1 ≠ Some id) l.

(** The world: the limits of output buffers, whether fork, writes, handlers (for a
    descriptor) and opening the snapshot succeed, new ids and memory; the timer: is it time
    for a PING, is a slave (by descriptor) silent, or nobody there, for too long; and for
    diskless synchronization: the option, whether the delay is over, [pipe], the mark, the
    sizes of the pieces the snapshot is written in, the answers of the sockets (for a
    client), and whether the report of the child can be read. *)
Record world := mk_w {
  w_out : oenv; fork_ok : bool; net_ok : Z → bool; handler_ok : Z → bool; w_open : bool; w_id : bytes; w_mem : bytes;
  w_ping : bool; w_late : Z → bool; w_idle : bool;
  w_diskless : bool; w_delay : bool; w_pipe : bool; w_mark : bytes; w_cut : list nat; w_plan : Z → list answer; w_report : bool }.

Fixpoint cut (sizes : list nat) (b : bytes) : list bytes :=
  match sizes with [] => [b] | n :: sizes => take n b :: cut sizes (drop n b) end.

(** ** REPLCONF *)

(** [dataset l]: what [rdbSave] writes after the commands [l]. *)
Section master.
Context (dataset : list (list bytes) → bytes) (w : world).

Definition add_reply (s : sslave) (b : bytes) : sslave := set_conn s (addReplyString (w_out w) (s_conn s) b).
(** Three strings, as [addReplyErrorLength] adds them. *)
Definition addReplyErrorLength (s : sslave) (e : bytes) : sslave := add_reply (add_reply (add_reply s (str "-ERR ")) e) CRLF.
Definition add_error (s : sslave) (e : string) : sslave := addReplyErrorLength s (str e).
(** Newlines in the text become spaces. *)
Definition addReplyErrorFormat (s : sslave) (e : bytes) : sslave :=
  addReplyErrorLength s ((λ c, if bool_decide (c = CR) || bool_decide (c = LF) then " "%char else c) <$> e).

(** [None]: the client was freed. *)
Definition putSlaveOnline (s : sslave) : option sslave :=
  let s := set_conn s (set_replstate (s_conn s) SLAVE_STATE_ONLINE false) in
  if handler_ok w (o_fd (s_conn s)) then Some s else None.

(** The loop over pairs; [getack]: the answer is an ACK to the own master, which a
    top-level master does not have. *)
Fixpoint replconf_loop (s : sslave) (argv : list bytes) : option sslave :=
  match argv with
  | opt :: val :: argv =>
    if strcasecmp_eq opt (str "listening-port") then
      match string2ll val with
      | None => Some (add_error s "value is not an integer or out of range")
      | Some p => replconf_loop (set_address s (int_of p) (slave_ip s)) argv
      end
    else if strcasecmp_eq opt (str "ip-address") then
      if bool_decide (zlen val < NET_IP_STR_LEN)%Z then replconf_loop (set_address s (slave_listening_port s) val) argv
      else Some (addReplyErrorFormat s (str "REPLCONF ip-address provided by slave instance is too long: " ++ fmt (zlen val) ++ str " bytes"))
    else if strcasecmp_eq opt (str "capa") then
      let s := if strcasecmp_eq val (str "eof") then set_capa s (Z.lor (slave_capa s) SLAVE_CAPA_EOF)
               else if strcasecmp_eq val (str "psync2") then set_capa s (Z.lor (slave_capa s) SLAVE_CAPA_PSYNC2) else s in
      replconf_loop s argv
    else if strcasecmp_eq opt (str "ack") then
      if negb (has (o_flags (s_conn s)) CLIENT_SLAVE) then Some s
      else
        match string2ll val with
        | None => Some s
        | Some off =>
          let s := if bool_decide (off > repl_ack_off s)%Z then set_ack s off else s in
          if put_online_on_ack (s_conn s) && waits SLAVE_STATE_ONLINE s then putSlaveOnline s else Some s
        end
    else if strcasecmp_eq opt (str "getack") then Some s
    else Some (addReplyErrorFormat s (str "Unrecognized REPLCONF option: " ++ cstr opt))
  | _ => Some (add_reply s (str "+OK" ++ CRLF))
  end.

(** [argv] without the name of the command. *)
Definition replconfCommand (s : sslave) (argv : list bytes) : option sslave :=
  if bool_decide (Nat.odd (length argv)) then Some (add_reply s (str "-ERR syntax error" ++ CRLF)) else replconf_loop s argv.

(** ** Starting a snapshot *)

Definition setup_full (ids : repl_ids) (s : sslave) (off : Z) : sslave :=
  let '(c, line) := replicationSetupSlaveForFullResync ids (s_conn s) off (net_ok w (o_fd (s_conn s))) in
  put_wire (set_offset (set_conn s c) off) line.

Definition rdbSaveBackground (m : mserver) : mserver * bool :=
  if aof_child m || bool_decide (is_Some (rdb_child m)) then (m, false)
  else if fork_ok w then (set_child m (Some (ToDisk (dataset (cmds (executed m))))) (rdb m), true) else (m, false).

Definition waiting : sslave → bool := waits SLAVE_STATE_WAIT_BGSAVE_START.

(** The slaves that wait are set up for the offset of now. *)
Definition setup_waiting (m : mserver) : mserver :=
  set_slaves m ((λ s, if waiting s then setup_full (m_ids m) s (master_repl_offset (m_ring m)) else s) <$> slaves m).

(** Without a fork the slaves that were set up wait again. *)
Definition rdbSaveToSlavesSockets (m : mserver) : mserver * bool :=
  if aof_child m || bool_decide (is_Some (rdb_child m)) then (m, false)
  else if negb (w_pipe w) then (m, false)
  else
    let clientids := s_id <$> filter (λ s, waiting s = true) (slaves m) in
    let m := setup_waiting m in
    if fork_ok w then (set_child m (Some (ToSockets clientids (dataset (cmds (executed m))))) (rdb m), true)
    else
      let back s := set_conn s (set_replstate (s_conn s) SLAVE_STATE_WAIT_BGSAVE_START (put_online_on_ack (s_conn s))) in
      (set_slaves m ((λ s, if bool_decide (s_id s ∈ clientids) then back s else s) <$> slaves m), false).

(** The slave is no longer one, is told so, and will be closed. *)
Definition refuse (s : sslave) : sslave :=
  let s := set_conn s (set_oflags (s_conn s) (Z.ldiff (o_flags (s_conn s)) CLIENT_SLAVE)) in
  let s := add_error s "BGSAVE failed, replication can't continue" in
  set_conn s (set_oflags (s_conn s) (Z.lor (o_flags (s_conn s)) CLIENT_CLOSE_AFTER_REPLY)).

Definition startBgsaveForReplication (m : mserver) (mincapa : Z) : mserver :=
  let socket_target := w_diskless w && has mincapa SLAVE_CAPA_EOF in
  let '(m, ok) := if bool_decide (repl_backlog (m_ring m) = None) then (m, false)
                  else if socket_target then rdbSaveToSlavesSockets m else rdbSaveBackground m in
  if (ok : bool) then if socket_target then m else setup_waiting m
  else
    set_leaving (set_slaves m (filter (λ s, waiting s = false) (slaves m)))
      (leaving m ++ (refuse <$> filter (λ s, waiting s = true) (slaves m))).

(** What all slaves that wait can do; -1 when there is none. *)
Definition min_capa (l : list sslave) : Z :=
  foldl (λ n s, if waiting s then if bool_decide (n = -1)%Z then slave_capa s else Z.land n (slave_capa s) else n) (-1)%Z l.

(** ** SYNC and PSYNC *)

Definition copyClientOutputBuffer (dst src : oclient) : oclient :=
  mk_o (o_flags dst) (o_fd dst) (o_replstate dst) (put_online_on_ack dst) (o_buf src) (sentlen dst) (o_reply src) (reply_bytes src)
    (obuf_soft_limit_reached_time dst).

(** What is done for the new last slave [c]: a snapshot that is being written to disk is
    shared with a slave that has waited from its beginning, or the next one has to be
    waited for, or one is started, by the timer when it goes to the sockets. *)
Definition sync_full (m : mserver) (c : sslave) : mserver :=
  match rdb_child m with
  | Some (ToDisk _) =>
    match list_find (λ s, waits SLAVE_STATE_WAIT_BGSAVE_END s = true) (slaves m) with
    | Some (_, s) =>
      if bool_decide (Z.land (slave_capa c) (slave_capa s) = slave_capa s) then
        let c := set_conn c (copyClientOutputBuffer (s_conn c) (s_conn s)) in
        set_slaves m (slaves m ++ [setup_full (m_ids m) c (psync_initial_offset s)])
      else set_slaves m (slaves m ++ [c])
    | None => set_slaves m (slaves m ++ [c])
    end
  | Some (ToSockets _ _) => set_slaves m (slaves m ++ [c])
  | None =>
    let m := set_slaves m (slaves m ++ [c]) in
    if w_diskless w && has (slave_capa c) SLAVE_CAPA_EOF then m
    else if aof_child m then m else startBgsaveForReplication m (slave_capa c)
  end.

Definition changeReplicationId (i : repl_ids) : repl_ids := mk_ids (w_id w) (replid2 i) (second_replid_offset i).

(** The third word is a number, when it is looked at. *)
Definition offset_given (argv : list bytes) : bool :=
  negb (strcasecmp_eq (default [] (argv !! 0)) (str "psync")) || bool_decide (is_Some (string2ll (default [] (argv !! 2)))).

(** The client becomes a slave, or remains what it is with an answer.  Without a number
    it is answered an error and becomes a slave all the same. *)
Definition syncCommand (m : mserver) (c : sslave) (argv : list bytes) : out (mserver * option sslave) :=
  if has (o_flags (s_conn c)) CLIENT_SLAVE then Ret (m, Some c)
  else if clientHasPendingReplies (s_conn c) then Ret (m, Some (add_error c "SYNC and PSYNC are invalid with pending output"))
  else
    let psync := strcasecmp_eq (default [] (argv !! 0)) (str "psync") in
    r ← (if psync
         then masterTryPartialResynchronization (m_ring m) (m_ids m) (slave_capa c) (net_ok w (o_fd (s_conn c)))
                (default [] (argv !! 1)) (default [] (argv !! 2))
         else Ret FullResync);
    match r with
    | Continue line data _ =>
      let c := put_wire (set_conn c (foldl (addReplySds (w_out w)) (online_slave (s_conn c)) data)) line in
      Ret (set_slaves m (slaves m ++ [c]), None)
    | Dropped => Ret (set_slaves m (slaves m ++ [set_conn c (freeClientAsync (online_slave (s_conn c)))]), None)
    | FullResync =>
      let c := if offset_given argv then c else add_error c "value is not an integer or out of range" in
      let f := o_flags (s_conn c) in
      let f := if psync then f else Z.lor f CLIENT_PRE_PSYNC in
      let c := set_conn c (set_replstate (set_oflags (s_conn c) (Z.lor f CLIENT_SLAVE)) SLAVE_STATE_WAIT_BGSAVE_START
                             (put_online_on_ack (s_conn c))) in
      let c := set_db c None (repldboff c) (replpreamble c) in
      m ← (if bool_decide (slaves m = []) && bool_decide (repl_backlog (m_ring m) = None) then
             r ← createReplicationBacklog (m_ring m) (w_mem w);
             Ret (set_history m r (clearReplicationId2 (changeReplicationId (m_ids m))))
           else Ret m);
      Ret (sync_full m c, None)
    end.

(** ** Sending the snapshot *)

(** A slave at the end of a background save, to disk or to sockets ([socket]): [None] is
    freed.  A slave that was served over its socket is not sent anything until it has
    acknowledged. *)
Definition after_save (ok socket : bool) (file : option bytes) (s : sslave) : option sslave :=
  if waits SLAVE_STATE_WAIT_BGSAVE_END s then
    if socket then Some (set_conn s (set_replstate (s_conn s) SLAVE_STATE_ONLINE true))
    else
      match file with
      | Some db =>
        if ok && w_open w then
          let s := set_db s (Some db) 0 (Some ("$"%char :: fmt (zlen db) ++ CRLF)) in
          let s := set_conn s (set_replstate (s_conn s) SLAVE_STATE_SEND_BULK (put_online_on_ack (s_conn s))) in
          if handler_ok w (o_fd (s_conn s)) then Some s else None
        else None
      | None => None
      end
  else Some s.

Definition updateSlavesWaitingBgsave (m : mserver) (ok socket : bool) : mserver :=
  let startbgsave := existsb waiting (slaves m) in
  let mincapa := min_capa (slaves m) in
  let m := set_slaves m (omap (after_save ok socket (rdb m)) (slaves m)) in
  if startbgsave then startBgsaveForReplication m mincapa else m.

(** A process that succeeds has renamed its file. *)
Definition backgroundSaveDoneHandlerDisk (m : mserver) (dump : bytes) (ok : bool) : mserver :=
  updateSlavesWaitingBgsave (set_child m None (if ok then Some dump else rdb m)) ok false.

(** The report of the child has the state of every client it served. *)
Definition reported (report : list (Z * target)) (s : sslave) : option sslave :=
  if waits SLAVE_STATE_WAIT_BGSAVE_END s then
    match list_find (λ p, p.1 = s_id s) report with
    | Some (_, (_, t)) => if bool_decide (t_state t = 0)%Z then Some (put_wire s (t_sent t)) else None
    | None => None
    end
  else Some s.

(** What the child sent is put on the wires here: nobody else writes to them meanwhile.
    Its exit code is zero when it was not killed ([ok]) and all its writes succeeded. *)
Definition backgroundSaveDoneHandlerSocket (m : mserver) (clientids : list Z) (dump : bytes) (ok : bool) : out mserver :=
  '(ts, sent) ← send_snapshot (w_plan w <$> clientids) (w_mark w) (cut (w_cut w) dump);
  let ok := ok && sent in
  let report := if ok && w_report w then zip clientids ts else [] in
  let m := set_child m None (rdb m) in
  let m := set_slaves m (omap (reported report) (slaves m)) in
  Ret (updateSlavesWaitingBgsave m ok true).

(** The background process has ended. *)
Definition backgroundSaveDoneHandler (m : mserver) (ok : bool) : out mserver :=
  match rdb_child m with
  | None => Ret m
  | Some (ToDisk dump) => Ret (backgroundSaveDoneHandlerDisk m dump ok)
  | Some (ToSockets clientids dump) => backgroundSaveDoneHandlerSocket m clientids dump ok
  end.

(** The data part of [sendBulkToSlave]; the inner [None] is freed. *)
Definition send_data (s : sslave) (r : wres) : out (option sslave) :=
  match repldb s with
  | None => Fail Dangling
  | Some db =>
    let buf := take (Z.to_nat PROTO_IOBUF_LEN) (drop (repldboff s) db) in
    if bool_decide (buf = []) then Ret None
    else
      match r with
      | Again => Ret (Some s)
      | Broken => Ret None
      | Wrote n =>
        let b := take n buf in
        let s := set_db (put_wire s b) (Some db) (repldboff s + length b) None in
        if bool_decide (repldboff s = length db) then Ret (putSlaveOnline (set_db s None (repldboff s) None)) else Ret (Some s)
      end
  end.

(** [r1], [r2]: the answers of [write] to the preamble and to the data. *)
Definition sendBulkToSlave (s : sslave) (r1 r2 : wres) : out (option sslave) :=
  match replpreamble s with
  | Some p =>
    match r1 with
    | Again | Broken => Ret None
    | Wrote n =>
      let s := set_db (put_wire s (take n p)) (repldb s) (repldboff s) (Some (drop n p)) in
      if bool_decide (drop n p = []) then send_data (set_db s (repldb s) (repldboff s) None) r2 else Ret (Some s)
    end
  | None => send_data s r2
  end.

(** ** The stream *)

Definition replicationFeedSlaves (m : mserver) (argv : list robj) : out mserver :=
  if bool_decide (repl_backlog (m_ring m) = None) && bool_decide (slaves m = []) then Ret m
  else if bool_decide (slaves m ≠ []) && bool_decide (repl_backlog (m_ring m) = None) then Fail AssertFail
  else
    r ← feed_command (m_ring m) (texts argv);
    l ← out_fold (λ l s, c ← feed_slave (w_out w) (s_conn s) argv; Ret (l ++ [set_conn s c])) [] (slaves m);
    Ret (set_slaves (set_history m r (m_ids m)) l).

(** The command of slave [id] goes to all others. *)
Definition replicationFeedExSlave (m : mserver) (id : Z) (argv : list robj) : out mserver :=
  if bool_decide (repl_backlog (m_ring m) = None) && bool_decide (slaves m = []) then Ret m
  else if bool_decide (slaves m ≠ []) && bool_decide (repl_backlog (m_ring m) = None) then Fail AssertFail
  else
    r ← feed_command (m_ring m) (texts argv);
    l ← out_fold (λ l s, c ← feed_ex_slave (w_out w) (s_conn s) (bool_decide (s_id s = id)) argv;
                         Ret (l ++ [set_conn s c])) [] (slaves m);
    Ret (set_slaves (set_history m r (m_ids m)) l).

(** [replicationCron] of a master: a PING in the stream, a newline for slaves that wait,
    slaves that are silent are freed, and so is the backlog when nobody needs it, with a
    new id; and a snapshot when no process is running. *)
Definition presync (c : option child) (s : sslave) : bool :=
  waiting s || waits SLAVE_STATE_WAIT_BGSAVE_END s && match c with Some (ToSockets _ _) => false | _ => true end.

Definition timed_out (s : sslave) : bool :=
  waits SLAVE_STATE_ONLINE s && negb (has (o_flags (s_conn s)) CLIENT_PRE_PSYNC) && w_late w (o_fd (s_conn s)).

Definition replicationCron (m : mserver) : out mserver :=
  let ping := [Raw (str "PING")] in
  m ← (if w_ping w && bool_decide (slaves m ≠ []) then replicationFeedSlaves (execute m ping) ping else Ret m);
  let newline s := if presync (rdb_child m) s && net_ok w (o_fd (s_conn s)) then put_wire s [LF] else s in
  let m := set_slaves m (newline <$> slaves m) in
  let m := set_slaves m (filter (λ s, timed_out s = false) (slaves m)) in
  m ← (if bool_decide (slaves m = []) && bool_decide (is_Some (repl_backlog (m_ring m))) && w_idle w then
         r ← freeReplicationBacklog (m_ring m) (length (slaves m));
         Ret (set_history m r (clearReplicationId2 (changeReplicationId (m_ids m))))
       else Ret m);
  Ret (match rdb_child m with
       | None =>
         if negb (aof_child m) && existsb waiting (slaves m) && (negb (w_diskless w) || w_delay w)
         then startBgsaveForReplication m (min_capa (slaves m)) else m
       | Some _ => m
       end).

(** An event of one slave; [None]: the client was freed. *)
Definition for_slave (m : mserver) (i : nat) (f : sslave → out (option sslave)) : out mserver :=
  match slaves m !! i with
  | None => Ret m
  | Some s =>
    r ← f s;
    Ret (set_slaves m (match r with Some s' => <[i := s']> (slaves m) | None => delete i (slaves m) end))
  end.

(** The socket of a slave that is online takes bytes. *)
Definition flush (s : sslave) (ws : list wres) : out (option sslave) :=
  if waits SLAVE_STATE_ONLINE s && negb (put_online_on_ack (s_conn s)) then
    '(r, b, _) ← writeToClient true (s_conn s) ws;
    Ret (match r with Some c => Some (put_wire (set_conn s c) b) | None => None end)
  else Ret (Some s).
End master.

(** A client asks for a synchronization; a background save is started for another
    reason, or ends; an append only file is being rewritten or not; a command is
    executed and replicated to all slaves, or, when it came from slave [id], to the
    others; the socket of slave [i] takes a part of the snapshot, or of its buffer; an
    ACK; slave [i] is lost; the timer. *)
Inductive mevent :=
  | MSync (c : sslave) (argv : list bytes)
  | MSave
  | MSaved (ok : bool)
  | MAof (b : bool)
  | MFeed (argv : list robj)
  | MFeedEx (id : Z) (argv : list robj)
  | MBulk (i : nat) (r1 r2 : wres)
  | MFlush (i : nat) (ws : list wres)
  | MAck (i : nat) (off : bytes)
  | MLost (i : nat)
  | MTick.

(** A slave that waits for the end of a snapshot that is written to disk has not been
    sent any of it, and sends no commands yet. *)
Definition disk (ch : option child) : bool := match ch with Some (ToDisk _) => true | _ => false end.
Definition mute (m : mserver) (id : Z) : bool :=
  disk (rdb_child m) && existsb (λ s, bool_decide (s_id s = id) && waits SLAVE_STATE_WAIT_BGSAVE_END s) (slaves m).

Definition mstep (dataset : list (list bytes) → bytes) (m : mserver) (ev : world * mevent) : out mserver :=
  let w := ev.1 in
  match ev.2 with
  | MSync c argv => '(m, _) ← syncCommand dataset w m c argv; Ret m
  | MSave => Ret (rdbSaveBackground dataset w m).1
  | MSaved ok => backgroundSaveDoneHandler dataset w m ok
  | MAof b => Ret (mk_ms (slaves m) (leaving m) (m_ring m) (m_ids m) (rdb_child m) b (rdb m) (executed m))
  | MFeed argv => replicationFeedSlaves w (execute m argv) argv
  | MFeedEx id argv => if mute m id then Ret m else replicationFeedExSlave w (execute_as m (Some id) argv) id argv
  | MBulk i r1 r2 => for_slave m i (λ s, if waits SLAVE_STATE_SEND_BULK s then sendBulkToSlave w s r1 r2 else Ret (Some s))
  | MFlush i ws => for_slave m i (λ s, flush s ws)
  | MAck i off => for_slave m i (λ s, Ret (replconfCommand w s [str "ack"; off]))
  | MLost i => for_slave m i (λ _, Ret None)
  | MTick => replicationCron dataset w m
  end.

(** ** What feeding leaves alone *)

Definition closing (c : oclient) : bool := has (o_flags c) CLIENT_CLOSE_ASAP.
Definition pre_psync (c : oclient) : bool := has (o_flags c) CLIENT_PRE_PSYNC.

(** A client that is to be closed stays so. *)
Definition steady (c c' : oclient) : Prop :=
  sentlen c' = sentlen c ∧ o_replstate c' = o_replstate c ∧ pre_psync c' = pre_psync c ∧ (closing c' = false → closing c = false)
  ∧ put_online_on_ack c' = put_online_on_ack c.

Definition keeps (c : oclient) (m : out oclient) : Prop := ∀ c', m = Ret c' → steady c c'.

Lemma steady_trans c1 c2 c3 : steady c1 c2 → steady c2 c3 → steady c1 c3.
Proof. intros (A1 & A2 & A3 & A4 & A5) (B1 & B2 & B3 & B4 & B5). split_and!; [congruence..|auto|congruence]. Qed.

Lemma keeps_bind c m k : keeps c m → (∀ c1, steady c c1 → keeps c1 (k c1)) → keeps c (m ≫= k).
Proof.
  intros Hm Hk c' E. destruct m as [c1|]; [|discriminate E]. apply (steady_trans c c1); [by apply Hm|].
  apply (Hk c1); [by apply Hm|exact E].
Qed.

Lemma keeps_ret c c' : steady c c' → keeps c (Ret c').
Proof. intros H c1 [= <-]. done. Qed.

Lemma prepare_steady c : steady c (prepareClientToWrite c).1.
Proof.
  unfold prepareClientToWrite. repeat case_match; try done. split_and!; try done; unfold closing, pre_psync; simpl; rewrite has_lor.
  - by rewrite orb_false_r.
  - by intros [? _]%orb_false_iff.
Qed.

Lemma limit_ack e c : put_online_on_ack (asyncCloseClientOnOutputBufferLimitReached e c) = put_online_on_ack c.
Proof.
  unfold asyncCloseClientOnOutputBufferLimitReached. destruct (_ || _); [done|].
  destruct (checkClientOutputBufferLimits e c) as [c1 r] eqn:E.
  assert (put_online_on_ack c1 = put_online_on_ack c) as <-.
  { unfold checkClientOutputBufferLimits in E. repeat case_match; by simplify_eq. }
  unfold freeClientAsync. by repeat case_match.
Qed.

Lemma limit_steady e c : steady c (asyncCloseClientOnOutputBufferLimitReached e c).
Proof.
  pose proof (limit_buffers e c) as (_ & H2 & _ & _ & H5 & _ & H6). split; [done|]. split; [done|].
  unfold closing, pre_psync. rewrite limit_ack. destruct H5 as [->| ->]; [done|]. rewrite !has_lor.
  split; [by rewrite orb_false_r|by split; [intros [? _]%orb_false_iff|]].
Qed.

Lemma add_string_steady e c s : steady c (add_string e c s).
Proof.
  assert (steady c (addReplyToList e c s)) as HL.
  { unfold addReplyToList. destruct (has (o_flags c) CLIENT_CLOSE_AFTER_REPLY); [done|].
    eapply steady_trans; [|apply limit_steady]. repeat case_match; done. }
  unfold add_string, addReplyToBuffer. repeat case_match; simplify_eq; done.
Qed.

Lemma addReplyString_steady e c s : steady c (addReplyString e c s).
Proof.
  unfold addReplyString. pose proof (prepare_steady c) as HP. destruct (prepareClientToWrite c) as [c1 []]; simpl in *; [|done].
  by apply (steady_trans c c1), add_string_steady.
Qed.

Lemma addReply_keeps e c o : keeps c (addReply e c o).
Proof.
  unfold addReply. pose proof (prepare_steady c) as HP. destruct (prepareClientToWrite c) as [c1 []]; simpl in *; [|by apply keeps_ret].
  assert (∀ s, steady c (add_string e c1 s)) as HA by (intros s; apply (steady_trans c c1); [done|apply add_string_steady]).
  destruct o as [s|n]; [apply keeps_ret, HA|].
  intros c'. destruct (_ && _); [|intros E; out_inv E; simplify_eq; apply HA].
  destruct (decoded n) as [s|]; [|by intros]. simpl. intros E. specialize (HA s). revert E HA. unfold add_string.
  destruct (addReplyToBuffer c1 s) as [c2 []]; simpl; intros; by simplify_eq.
Qed.

Lemma prefix_keeps e c n p : keeps c (addReplyLongLongWithPrefix e c n p).
Proof.
  unfold addReplyLongLongWithPrefix. repeat case_bool_decide; try apply addReply_keeps.
  intros c' E. out_inv E. simplify_eq. apply addReplyString_steady.
Qed.

Lemma bulk_keeps e c o : keeps c (addReplyBulk e c o).
Proof.
  unfold addReplyBulk. apply keeps_bind.
  - unfold addReplyBulkLen. intros c' E. destruct (object_len o) as [len|]; [|discriminate E]. simpl in E.
    case_bool_decide; [by apply (addReply_keeps e c _ c' E)|by apply (prefix_keeps e c _ _ c' E)].
  - intros c1 _. apply keeps_bind; [apply addReply_keeps|]. intros c2 _. apply addReply_keeps.
Qed.

Lemma feed_slave_keeps e c argv : keeps c (feed_slave e c argv).
Proof.
  unfold feed_slave. set (c0 := set_oflags c _).
  assert (steady c c0) as H0.
  { split_and!; try done; unfold closing, pre_psync; simpl; rewrite has_lor; [by rewrite orb_false_r|by intros [? _]%orb_false_iff]. }
  case_bool_decide; [by apply keeps_ret|]. intros c' E. destruct (feed_args e c0 argv) as [c1|] eqn:E1; [|discriminate E]. simplify_eq/=.
  assert (steady c0 c1) as H1.
  { revert c1 E1. change (keeps c0 (feed_args e c0 argv)). unfold feed_args. apply keeps_bind.
    - unfold addReplyMultiBulkLen. case_bool_decide; [apply addReply_keeps|apply prefix_keeps].
    - intros c2 _. revert c2. induction argv as [|a argv IH]; intros c2; cbn [out_fold]; [by apply keeps_ret|].
      apply keeps_bind; [apply bulk_keeps|]. intros c3 _. apply IH. }
  eapply steady_trans; [eapply steady_trans; [exact H0|exact H1]|].
  split_and!; try done; unfold closing, pre_psync; simpl.
  - by apply has_ldiff_other.
  - by rewrite has_ldiff_other.
Qed.

(** ** What a slave gets *)

Section streams.
Context (dataset : list (list bytes) → bytes) (size : Z) (Hsize : (0 < size)%Z).

(** The connection of a slave. *)
Record conn_ok (c : oclient) : Prop := {
  cn_out : o_ok c;
  cn_complete : complete c;
  cn_flags : ∃ b, link_flags ToSlave b (o_flags c);
  cn_fd : (0 < o_fd c)%Z;
}.

(** [log]: the commands executed until [now], the offset.  [off] was the offset after
    the commands [l1]; the commands [l2] have been executed since. *)
Definition moment (now : Z) (log : list entry) (off : Z) (l1 l2 : list entry) : Prop :=
  log = l1 ++ l2 ∧ off = (now - zlen (wire (cmds l2)))%Z.
Definition newlines (l : bytes) : Prop := Forall (λ c, c = LF) l.

(** The answer to PSYNC, none to SYNC; the snapshot. *)
Definition opening (ids : repl_ids) (c : oclient) (off : Z) : bytes := if pre_psync c then [] else full_line ids off.
Definition bulk_of (db : bytes) : bytes := ("$"%char :: fmt (zlen db) ++ CRLF) ++ db.
Definition frame (f : form) (db : bytes) : bytes :=
  match f with Count => bulk_of db | Mark m => str "$EOF:" ++ m ++ CRLF ++ db ++ m end.

(** What is on the wire before the stream: after the answers to earlier commands, and
    newlines while the slave waited for a snapshot to be started, the id and the offset,
    and newlines. *)
Definition opened (ids : repl_ids) (s : sslave) (b : bytes) : Prop :=
  ∃ w0 nl, newlines nl ∧ b = w0 ++ opening ids (s_conn s) (psync_initial_offset s) ++ nl.

Definition wait_start (s : sslave) : Prop := pending (s_conn s) = [] ∧ sentlen (s_conn s) = 0.

(** In all states the stream that follows is the commands executed since, except those of
    the slave itself.  A slave that others may still share a snapshot with has sent none. *)
Definition wait_end (ch : option child) (ids : repl_ids) (now : Z) (log : list entry) (s : sslave) : Prop :=
  ∃ l1 l2, moment now log (psync_initial_offset s) l1 l2 ∧ dump_of <$> ch = Some (dataset (cmds l1))
  ∧ pending (s_conn s) = wire (without (s_id s) l2) ∧ sentlen (s_conn s) = 0
  ∧ (disk ch = true → unheard (s_id s) l2) ∧ (closing (s_conn s) = false → opened ids s (s_wire s)).

Definition send_bulk (ids : repl_ids) (now : Z) (log : list entry) (s : sslave) : Prop :=
  ∃ l1 l2, moment now log (psync_initial_offset s) l1 l2 ∧ pending (s_conn s) = wire (without (s_id s) l2)
  ∧ repldb s = Some (dataset (cmds l1)) ∧ repldboff s ≤ length (dataset (cmds l1))
  ∧ (closing (s_conn s) = false → ∃ b, opened ids s b
      ∧ s_wire s ++ default [] (replpreamble s) ++ drop (repldboff s) (dataset (cmds l1)) = b ++ bulk_of (dataset (cmds l1))).

(** A full synchronization: on the wire are the id and the offset, the snapshot after the
    commands [l1], and a part of the commands [l2], none until a slave that has to
    acknowledge has done so; or a partial one. *)
Definition full_stream (f : form) (ids : repl_ids) (s : sslave) (l1 l2 : list (list bytes)) : Prop :=
  ∃ b sent, opened ids s b ∧ s_wire s = b ++ frame f (dataset l1) ++ sent ∧ sent ++ pending (s_conn s) = wire l2
    ∧ (put_online_on_ack (s_conn s) = true → sent = []).

Definition partial_stream (ids : repl_ids) (s : sslave) (l2 : list (list bytes)) : Prop :=
  ∃ w0 capa, s_wire s ++ pending (s_conn s) = w0 ++ continue_line ids capa ++ wire l2.

Definition streaming (ids : repl_ids) (now : Z) (log : list entry) (s : sslave) : Prop :=
  ∃ l1 l2, log = l1 ++ l2
  ∧ (psync_initial_offset s = (now - zlen (wire (cmds l2)))%Z ∧ (∃ f, full_stream f ids s (cmds l1) (without (s_id s) l2))
     ∨ partial_stream ids s (without (s_id s) l2)).

Definition slave_ok (ch : option child) (ids : repl_ids) (now : Z) (log : list entry) (s : sslave) : Prop :=
  conn_ok (s_conn s)
  ∧ (s_state s = SLAVE_STATE_WAIT_BGSAVE_START ∧ wait_start s
     ∨ s_state s = SLAVE_STATE_WAIT_BGSAVE_END ∧ wait_end ch ids now log s
     ∨ s_state s = SLAVE_STATE_SEND_BULK ∧ send_bulk ids now log s
     ∨ s_state s = SLAVE_STATE_ONLINE ∧ (closing (s_conn s) = false → streaming ids now log s)).

(** The master: no slaves without a backlog. *)
Definition master_ok (m : mserver) : Prop :=
  repl_backlog_size (m_ring m) = size
  ∧ match repl_backlog (m_ring m) with
    | None => slaves m = []
    | Some _ => (∃ base st, represents (m_ring m) base st)
                ∧ Forall (slave_ok (rdb_child m) (m_ids m) (master_repl_offset (m_ring m)) (executed m)) (slaves m)
    end.

(** The state tells which case it is. *)
Lemma ok_start ch ids now log s : slave_ok ch ids now log s → s_state s = SLAVE_STATE_WAIT_BGSAVE_START → wait_start s.
Proof. intros [_ [[_ H]|[[E _]|[[E _]|[E _]]]]] Hst; [done|rewrite Hst in E; discriminate E..]. Qed.

Lemma ok_end ch ids now log s : slave_ok ch ids now log s → s_state s = SLAVE_STATE_WAIT_BGSAVE_END → wait_end ch ids now log s.
Proof. intros [_ [[E _]|[[_ H]|[[E _]|[E _]]]]] Hst; try done; rewrite Hst in E; discriminate E. Qed.

Lemma ok_bulk ch ids now log s : slave_ok ch ids now log s → s_state s = SLAVE_STATE_SEND_BULK → send_bulk ids now log s.
Proof. intros [_ [[E _]|[[E _]|[[_ H]|[E _]]]]] Hst; try done; rewrite Hst in E; discriminate E. Qed.

Lemma ok_online ch ids now log s :
  slave_ok ch ids now log s → s_state s = SLAVE_STATE_ONLINE → closing (s_conn s) = false →
  streaming ids now log s.
Proof. intros [_ [[E _]|[[E _]|[[E _]|[_ H]]]]] Hst; try done; rewrite Hst in E; discriminate E. Qed.

Lemma wire_snoc l c : wire (l ++ [c]) = wire l ++ encode c.
Proof. rewrite wire_app. f_equal. unfold wire. simpl. by rewrite app_nil_r. Qed.

Lemma cmds_snoc l o c : cmds (l ++ [(o, c)]) = cmds l ++ [c].
Proof. unfold cmds. by rewrite fmap_app. Qed.

Lemma without_snoc id l o c : without id (l ++ [(o, c)]) = without id l ++ (if bool_decide (o = Some id) then [] else [c]).
Proof.
  unfold without. rewrite filter_app, fmap_app, filter_cons. f_equal.
  case_bool_decide; [by rewrite decide_False by (simpl; tauto)|by rewrite decide_True by done].
Qed.

Lemma unheard_all id l : unheard id l → without id l = cmds l.
Proof.
  unfold without, cmds. induction 1 as [|e l He _ IH]; [done|]. rewrite filter_cons, decide_True by done. simpl. by f_equal.
Qed.

Lemma moment_app now log off l1 l2 o c :
  moment now log off l1 l2 → moment (now + zlen (encode c)) (log ++ [(o, c)]) off l1 (l2 ++ [(o, c)]).
Proof. intros [-> ->]. split; [by rewrite app_assoc|]. rewrite cmds_snoc, wire_snoc, zlen_app. lia. Qed.

Lemma moment_now now log : moment now log now log [].
Proof. split; [by rewrite app_nil_r|]. unfold wire, zlen. simpl. lia. Qed.

(** *** Feeding *)

Lemma opened_conn ids s c b : pre_psync c = pre_psync (s_conn s) → opened ids s b → opened ids (set_conn s c) b.
Proof. intros E (w0 & nl & H & ->). exists w0, nl. unfold opening. simpl. by rewrite E. Qed.

(** What the connection of a slave gets, [origin] or not. *)
Lemma feed_conn e c argv origin :
  conn_ok c → o_replstate c ≠ SLAVE_STATE_WAIT_BGSAVE_START → Forall in_range argv → sized (texts argv) →
  ∃ c', feed_ex_slave e c origin argv = Ret c' ∧ conn_ok c' ∧ steady c c'
    ∧ pending c' = pending c ++ wire (if origin then [] else [texts argv]).
Proof.
  intros [Hc Hcom [fb Hf] Hfd] Hst Hr Hz. destruct origin.
  - eexists. split; [done|]. destruct Hc as [K1 K2 K3].
    split; [split; [by split|done|exists true; by apply (mark_on ToSlave fb)|done]|]. split; [|simpl; by rewrite app_nil_r].
    split_and!; try done; unfold closing, pre_psync; simpl; rewrite has_lor; [by rewrite orb_false_r|by intros [? _]%orb_false_iff].
  - assert (link_ok ToSlave fb c) as HL by (by split).
    destruct (feed_spec e ToSlave fb c argv HL Hr Hz) as (c' & E & [Hc' Hcom' Hf' Hfd' _] & HP). simpl in E.
    exists c'. split; [done|]. split; [split; [done|done|by exists false|done]|]. split; [by apply (feed_slave_keeps e c argv)|].
    rewrite HP. unfold wire. simpl. by rewrite app_nil_r.
Qed.

Lemma feed_slave_ok e ch ids now log s o argv :
  slave_ok ch ids now log s → Forall in_range argv → sized (texts argv) →
  (o = Some (s_id s) → disk ch && waits SLAVE_STATE_WAIT_BGSAVE_END s = false) →
  ∃ c, feed_ex_slave e (s_conn s) (bool_decide (o = Some (s_id s))) argv = Ret c
    ∧ slave_ok ch ids (now + zlen (encode (texts argv))) (log ++ [(o, texts argv)]) (set_conn s c).
Proof.
  intros HSO Hr Hz Hm. pose proof HSO as [HC HS].
  destruct (decide (s_state s = SLAVE_STATE_WAIT_BGSAVE_START)) as [E0|E0].
  { pose proof (ok_start _ _ _ _ _ HSO E0) as [Hp Hs]. unfold feed_ex_slave, feed_slave. rewrite (bool_decide_eq_true_2 (_ = SLAVE_STATE_WAIT_BGSAVE_START)) by (exact E0).
    set (c := set_oflags (s_conn s) _). exists c. split; [by destruct (bool_decide _)|]. split.
    - destruct HC as [[K1 K2 K3] Hcom [fb Hf] Hfd]. split; [by split|done|exists true; by apply (mark_on ToSlave fb)|done].
    - left. done. }
  set (org := bool_decide (o = Some (s_id s))) in *.
  destruct (feed_conn e (s_conn s) argv org HC E0 Hr Hz) as (c & E & HC' & (S1 & S2 & S3 & S4 & S5) & HP).
  exists c. split; [done|]. split; [done|]. unfold s_state in *. simpl. rewrite S2.
  assert (∀ l2, pending (s_conn s) = wire (without (s_id s) l2) →
    pending c = wire (without (s_id s) (l2 ++ [(o, texts argv)]))) as HW.
  { intros l2 H. by rewrite HP, H, without_snoc, wire_app. }
  destruct HS as [[E1 _]|[[E1 H]|[[E1 H]|[E1 H]]]]; [done|right; left|right; right; left|right; right; right]; (split; [done|]).
  - destruct H as (l1 & l2 & H1 & H2 & H3 & H4 & H5 & H6). exists l1, (l2 ++ [(o, texts argv)]).
    split; [by apply moment_app|]. split; [done|]. split; [by apply HW|]. split; [simpl; by rewrite S1|]. split.
    + intros Hd. apply Forall_app. split; [by apply H5|]. constructor; [|done]. simpl. intros Ho. specialize (Hm Ho).
      rewrite Hd in Hm. unfold waits, s_state in Hm. rewrite E1 in Hm. discriminate Hm.
    + intros Hcl. apply opened_conn; [done|]. auto.
  - destruct H as (l1 & l2 & H1 & H2 & H3 & H4 & H5). exists l1, (l2 ++ [(o, texts argv)]). split; [by apply moment_app|].
    split; [by apply HW|]. split; [done|]. split; [done|].
    intros Hcl. destruct (H5 (S4 Hcl)) as (b & Hb & Eb). exists b. split; [by apply opened_conn|done].
  - intros Hcl. destruct (H (S4 Hcl)) as (l1 & l2 & El & Hs). exists l1, (l2 ++ [(o, texts argv)]). split; [by rewrite El, app_assoc|].
    rewrite cmds_snoc, wire_snoc, zlen_app. unfold full_stream, partial_stream. cbn [set_conn s_id]. rewrite without_snoc, wire_app. fold org.
    destruct Hs as [(Ho & f & b & sent & Hb & Ew & Ep & Ha)|(w0 & capa & Eb)]; [left|right].
    + split; [simpl; lia|]. exists f, b, sent. split; [by apply opened_conn|]. split; [done|].
      cbn [set_conn s_conn]. rewrite HP, app_assoc, Ep, S5. done.
    + exists w0, capa. cbn [set_conn s_wire s_conn]. rewrite HP, app_assoc, Eb, <-!app_assoc. done.
Qed.

(** *** Starting a snapshot *)

Lemma free_async_ok c : conn_ok c → conn_ok (freeClientAsync c).
Proof.
  intros [[K1 K2 K3] Hcom [b Hf] Hfd]. unfold freeClientAsync. case_match; [by split; [split| |exists b|]|].
  split; [by split|done|exists b; by apply close_flags|done].
Qed.

Lemma free_async_closing c : has (o_flags c) CLIENT_LUA = false → closing (freeClientAsync c) = true.
Proof.
  intros Hl. unfold freeClientAsync. rewrite Hl, orb_false_r. destruct (has (o_flags c) CLIENT_CLOSE_ASAP) eqn:E; [done|].
  unfold closing. simpl. by rewrite has_lor, orb_true_r.
Qed.

Lemma conn_not_lua c : conn_ok c → has (o_flags c) CLIENT_LUA = false.
Proof.
  intros [_ _ [b (H & _)] _]. unfold has in *. rewrite bool_decide_eq_false in *. intros H'. apply H. intros E. apply H'.
  apply Z.bits_inj'. intros n Hn. apply (f_equal (λ z, Z.testbit z n)) in E. rewrite Z.land_spec, Z.lor_spec, Z.bits_0 in E.
  rewrite Z.land_spec, Z.bits_0. destruct (Z.testbit (o_flags c) n), (Z.testbit CLIENT_LUA n); done.
Qed.

Lemma setup_full_ok w ch ids now log s off l1 l2 :
  conn_ok (s_conn s) → sentlen (s_conn s) = 0 → pending (s_conn s) = wire (without (s_id s) l2) → moment now log off l1 l2 →
  dump_of <$> ch = Some (dataset (cmds l1)) → unheard (s_id s) l2 → slave_ok ch ids now log (setup_full w ids s off).
Proof.
  intros HC Hs Hp Hw Hch Hun. unfold setup_full, replicationSetupSlaveForFullResync. set (c0 := mk_o _ _ SLAVE_STATE_WAIT_BGSAVE_END _ _ _ _ _ _).
  assert (conn_ok c0) as HC0 by (destruct HC as [[K1 K2 K3] Hcom Hf Hfd]; by split; [split|..]).
  change (has (o_flags c0) CLIENT_PRE_PSYNC) with (pre_psync c0).
  destruct (pre_psync c0) eqn:Epre; [|destruct (net_ok w (o_fd (s_conn s)))].
  - split; [done|]. right. left. split; [done|]. exists l1, l2. split; [done|]. split; [done|]. split; [done|]. split; [done|]. split; [done|].
    intros _. exists (s_wire s), []. split; [apply Forall_nil; done|]. unfold opening. cbn [set_conn s_conn put_wire set_offset]. rewrite Epre. simpl. by rewrite app_nil_r.
  - split; [done|]. right. left. split; [done|]. exists l1, l2. split; [done|]. split; [done|]. split; [done|]. split; [done|]. split; [done|].
    intros _. exists (s_wire s), []. split; [apply Forall_nil; done|]. unfold opening. cbn [set_conn s_conn put_wire set_offset]. rewrite Epre.
    cbn [psync_initial_offset s_wire]. by rewrite app_nil_r.
  - assert (∃ f, freeClientAsync c0 = set_oflags c0 f) as [f Ef].
    { unfold freeClientAsync. case_match; [by exists (o_flags c0)|by eexists]. }
    split; [by apply free_async_ok|]. right. left. unfold s_state, wait_end. cbn [set_conn s_conn put_wire set_offset psync_initial_offset].
    pose proof (free_async_closing c0 (conn_not_lua c0 HC0)) as Hcl. rewrite Hcl, Ef. split; [done|]. by exists l1, l2.
Qed.

(** A slave does not depend on a process there was not. *)
Lemma no_child_ok ch ids now log s : slave_ok None ids now log s → slave_ok ch ids now log s.
Proof. intros [HC [H|[[_ (l1 & l2 & _ & H & _)]|H]]]; [|discriminate H|]; split; auto. Qed.

Lemma setup_waiting_ok w m now c :
  now = master_repl_offset (m_ring m) → dump_of c = dataset (cmds (executed m)) →
  Forall (slave_ok None (m_ids m) now (executed m)) (slaves m) →
  Forall (slave_ok (Some c) (m_ids m) now (executed m)) (slaves (setup_waiting w m)).
Proof.
  intros -> Hd HS. apply Forall_fmap. eapply Forall_impl; [exact HS|]. intros s Hs. simpl.
  destruct (waiting s) eqn:Hw; [|by apply no_child_ok]. apply bool_decide_eq_true in Hw.
  destruct (ok_start _ _ _ _ _ Hs Hw) as [Hp Hse]. destruct Hs as [HC _].
  apply (setup_full_ok w _ _ _ _ _ _ (executed m) []); [done..|apply moment_now|simpl; by rewrite Hd|by apply Forall_nil].
Qed.

(** What starting a process does to the server, when it is the only one. *)
Lemma disk_fields w m :
  rdbSaveBackground dataset w m = (m, false)
  ∨ rdb_child m = None ∧ rdbSaveBackground dataset w m = (set_child m (Some (ToDisk (dataset (cmds (executed m))))) (rdb m), true).
Proof.
  unfold rdbSaveBackground. destruct (aof_child m || bool_decide (is_Some (rdb_child m))) eqn:E; [by left|].
  apply orb_false_iff in E as [_ E]. apply bool_decide_eq_false, none_not_some in E. destruct (fork_ok w); [by right|by left].
Qed.

Lemma sockets_fields w m :
  rdbSaveToSlavesSockets dataset w m = (m, false)
  ∨ rdb_child m = None ∧ (∃ l, rdbSaveToSlavesSockets dataset w m
       = (set_child (setup_waiting w m) (Some (ToSockets l (dataset (cmds (executed m))))) (rdb m), true))
  ∨ ∃ l, rdbSaveToSlavesSockets dataset w m = (set_slaves m l, false)
      ∧ ∀ s, s ∈ l → waiting s = false → s ∈ slaves m.
Proof.
  unfold rdbSaveToSlavesSockets. destruct (aof_child m || bool_decide (is_Some (rdb_child m))) eqn:E; [by left|].
  apply orb_false_iff in E as [_ E]. apply bool_decide_eq_false, none_not_some in E. destruct (w_pipe w); [|by left]. simpl.
  set (ids := s_id <$> _). destruct (fork_ok w); [by right; left; split; [|exists ids]|].
  right. right. eexists. split; [reflexivity|]. intros s Hs Hw. apply list_elem_of_fmap in Hs as (s1 & -> & Hs1).
  case_bool_decide as Hid; [done|]. apply list_elem_of_fmap in Hs1 as (s0 & -> & Hs0). destruct (waiting s0) eqn:Hw0; [|done].
  destruct Hid. apply list_elem_of_fmap. exists s0. split; [|by apply list_elem_of_filter].
  unfold setup_full. by destruct (replicationSetupSlaveForFullResync _ _ _ _).
Qed.

Lemma start_ok w m n : master_ok m → master_ok (startBgsaveForReplication dataset w m n).
Proof.
  intros [Hsz HM]. unfold startBgsaveForReplication. destruct (repl_backlog (m_ring m)) as [mem|] eqn:Eb.
  2:{ rewrite bool_decide_eq_true_2 by done. split; [done|]. simpl. by rewrite Eb, HM. }
  rewrite bool_decide_eq_false_2 by done. destruct HM as (HR & HS). set (sock := w_diskless w && _).
  assert (∀ l, (∀ s, s ∈ l → waiting s = false → s ∈ slaves m) →
    Forall (slave_ok (rdb_child m) (m_ids m) (master_repl_offset (m_ring m)) (executed m)) (filter (λ s, waiting s = false) l)) as HF.
  { intros l Hl. rewrite Forall_forall in *. intros s [Hw Hs]%list_elem_of_filter. auto. }
  assert (∀ c r, rdb_child m = None → dump_of c = dataset (cmds (executed m)) → master_ok (set_child (setup_waiting w m) (Some c) r)) as HW.
  { intros c r Hn Hd. split; [done|]. simpl. rewrite Eb. split; [done|]. rewrite Hn in HS. by apply (setup_waiting_ok w m). }
  destruct sock.
  - destruct (sockets_fields w m) as [->|[[Hn [l ->]]|(l & -> & Hl)]]; [|by apply HW|].
    + split; [done|]. simpl. rewrite Eb. split; [done|]. by apply HF.
    + split; [done|]. simpl. rewrite Eb. split; [done|]. by apply HF.
  - destruct (disk_fields w m) as [->|[Hn ->]]; [|by apply (HW (ToDisk _))].
    split; [done|]. simpl. rewrite Eb. split; [done|]. by apply HF.
Qed.

(** *** A new slave *)

(** An ordinary client that has got all its replies may ask. *)
Record fresh_client (c : oclient) : Prop := {
  fr_out : o_ok c;
  fr_complete : complete c;
  fr_flags : has (o_flags c) (Z.lor CLIENT_LUA CLIENT_MODULE) = false
    ∧ has (o_flags c) (Z.lor CLIENT_REPLY_OFF CLIENT_REPLY_SKIP) = false ∧ has (o_flags c) CLIENT_CLOSE_AFTER_REPLY = false
    ∧ has (o_flags c) CLIENT_MASTER = false ∧ has (o_flags c) CLIENT_UNDER_FEED = false;
  fr_fd : (0 < o_fd c)%Z;
}.

Lemma slave_flags f g :
  has f (Z.lor CLIENT_LUA CLIENT_MODULE) = false ∧ has f (Z.lor CLIENT_REPLY_OFF CLIENT_REPLY_SKIP) = false
    ∧ has f CLIENT_CLOSE_AFTER_REPLY = false ∧ has f CLIENT_MASTER = false ∧ has f CLIENT_UNDER_FEED = false →
  g = f ∨ g = Z.lor f CLIENT_PRE_PSYNC → link_flags ToSlave false (Z.lor g CLIENT_SLAVE).
Proof.
  intros (H1 & H2 & H3 & H4 & H5) Hg. unfold link_flags. rewrite !has_lor.
  assert (∀ x, has CLIENT_PRE_PSYNC x = false → has g x = has f x) as Hx.
  { intros x Hx. destruct Hg as [->| ->]; [done|]. by rewrite has_lor, Hx, orb_false_r. }
  change (mark_of ToSlave) with CLIENT_UNDER_FEED. rewrite !Hx, H1, H2, H3, H4, H5 by done. split_and!; try done. apply orb_true_r.
Qed.

Lemma fresh_empty c :
  o_ok c → clientHasPendingReplies c = false → pending c = [] ∧ sentlen c = 0.
Proof.
  intros Hc Hp. destruct (no_pending c Hc Hp) as (H & Eb & Er). split; [done|]. destruct (ok_sent c Hc) as [H0|[H0|(_ & o & rest & E & _)]]; [done| |congruence].
  rewrite Eb in H0. simpl in H0. lia.
Qed.

Lemma no_end_without_child ids now log s : slave_ok None ids now log s → waits SLAVE_STATE_WAIT_BGSAVE_END s = false.
Proof.
  intros [_ [[E _]|[[_ (l1 & l2 & _ & H & _)]|[[E _]|[E _]]]]]; [|discriminate H|..]; unfold waits; rewrite E; done.
Qed.

Lemma copy_ok ch ids now log c s id :
  slave_ok ch ids now log s → disk ch = true → unheard id log →
  waits SLAVE_STATE_WAIT_BGSAVE_END s = true → conn_ok c → sentlen c = 0 →
  conn_ok (copyClientOutputBuffer c (s_conn s))
  ∧ ∃ l1 l2, dump_of <$> ch = Some (dataset (cmds l1)) ∧ moment now log (psync_initial_offset s) l1 l2
    ∧ unheard id l2 ∧ pending (copyClientOutputBuffer c (s_conn s)) = wire (without id l2).
Proof.
  intros HSO Hd Hid Hw%bool_decide_eq_true [[K1 K2 K3] Hcom Hf Hfd] Hz.
  destruct (ok_end _ _ _ _ _ HSO Hw) as (l1 & l2 & H1 & H2 & H3 & H4 & H5 & _).
  assert (unheard id l2) as Hid2 by (destruct H1 as [-> _]; by apply Forall_app in Hid as [_ ?]). destruct HSO as [HCs _]. destruct HCs as [[L1 L2 L3] Lcom _ _]. split.
  - split; [split; simpl; [done|done|by left]|done|done|done].
  - exists l1, l2. split; [done|]. split; [done|]. split; [done|]. rewrite (unheard_all id l2) by done.
    rewrite <-(unheard_all (s_id s) l2), <-H3 by auto. unfold pending. simpl. by rewrite Hz, H4.
Qed.

Lemma add_slave_ok m s :
  repl_backlog_size (m_ring m) = size → (∃ base st, represents (m_ring m) base st) →
  Forall (slave_ok (rdb_child m) (m_ids m) (master_repl_offset (m_ring m)) (executed m)) (slaves m) →
  slave_ok (rdb_child m) (m_ids m) (master_repl_offset (m_ring m)) (executed m) s → master_ok (set_slaves m (slaves m ++ [s])).
Proof.
  intros Hsz HR HS Hs. pose proof HR as (base & st & mem & Eb & _). split; [done|]. simpl. rewrite Eb. split; [done|].
  apply Forall_app. split; [done|]. by constructor.
Qed.

Lemma sync_full_ok w m c :
  repl_backlog_size (m_ring m) = size → (∃ base st, represents (m_ring m) base st) →
  Forall (slave_ok (rdb_child m) (m_ids m) (master_repl_offset (m_ring m)) (executed m)) (slaves m) →
  conn_ok (s_conn c) → s_state c = SLAVE_STATE_WAIT_BGSAVE_START → wait_start c → unheard (s_id c) (executed m) →
  master_ok (sync_full dataset w m c).
Proof.
  intros Hsz HR HS HC Hst Hws Hun. pose proof (λ s, add_slave_ok m s Hsz HR HS) as HA.
  assert (slave_ok (rdb_child m) (m_ids m) (master_repl_offset (m_ring m)) (executed m) c) as HcS by (split; [done|by left]).
  unfold sync_full. destruct (rdb_child m) as [[dump|l dump]|] eqn:Ec.
  - destruct (list_find _ (slaves m)) as [[i s]|] eqn:Ef; [|by apply HA]. apply list_find_Some in Ef as (Hi & Hw & _).
    case_bool_decide; [|by apply HA]. apply HA. rewrite Forall_lookup in HS.
    destruct (copy_ok _ _ _ _ (s_conn c) s (s_id c) (HS _ _ Hi) eq_refl Hun Hw HC (proj2 Hws)) as (H1 & l1 & l2 & H2 & H3 & H4 & H5).
    by apply (setup_full_ok w _ _ _ _ _ _ l1 l2); [|apply Hws|..].
  - by apply HA.
  - specialize (HA c HcS). destruct (_ && _); [done|]. destruct (aof_child m) eqn:Ea; simpl; rewrite Ea; [done|]. by apply start_ok.
Qed.

Lemma created_ok m mem r :
  createReplicationBacklog (m_ring m) mem = Ret r → zlen mem = size → repl_backlog_size (m_ring m) = size →
  (∃ base st, represents r base st) ∧ repl_backlog_size r = repl_backlog_size (m_ring m).
Proof.
  unfold createReplicationBacklog. intros E Hm Hs. destruct (repl_backlog (m_ring m)); [discriminate E|]. simplify_eq.
  split; [|done]. exists (master_repl_offset (m_ring m)), []. by apply represents_new; rewrite ?Hs.
Qed.

Lemma psync_total r ids capa written a1 a2 :
  repl_backlog r = None ∨ (∃ base st, represents r base st) →
  ∃ res, masterTryPartialResynchronization r ids capa written a1 a2 = Ret res
    ∧ match res with Continue line _ _ => line = continue_line ids capa ∧ repl_backlog r ≠ None | Dropped => repl_backlog r ≠ None | FullResync => True end.
Proof.
  intros Hr. unfold masterTryPartialResynchronization. destruct (string2ll a2) as [o|]; [|by eexists].
  destruct (negb (strcasecmp_eq a1 (replid ids)) && _); [by eexists|].
  destruct (decide (repl_backlog r = None)) as [E|E]; [rewrite bool_decide_eq_true_2 by done; by eexists|].
  rewrite (bool_decide_eq_false_2 (repl_backlog r = None)) by done. cbn [orb].
  destruct (bool_decide (o < repl_backlog_off r)%Z || bool_decide (o > repl_backlog_off r + repl_backlog_histlen r)%Z) eqn:Ew; [by eexists|].
  destruct written; [|by eexists]. cbn [negb]. destruct Hr as [|(base & st & HR)]; [done|].
  apply orb_false_iff in Ew as [W1%bool_decide_eq_false W2%bool_decide_eq_false].
  destruct (reply_represents r base st o HR) as (bs & -> & _); [lia|]. bind_red. by eexists.
Qed.

Lemma online_conn c : fresh_client c → conn_ok (online_slave c).
Proof.
  intros [[K1 K2 K3] Hcom Hf Hfd]. split; [by split|done| |done]. exists false. apply (slave_flags (o_flags c)); [done|by left].
Qed.

Lemma online_takes_nothing e c l : fresh_client c → foldl (addReplySds e) (online_slave c) l = online_slave c.
Proof.
  intros Hf. destruct (online_conn c Hf) as [_ _ _ _]. destruct Hf as [_ _ (H1 & _ & _ & _ & H5) _].
  apply slave_takes_nothing; unfold online_slave; cbn [o_flags]; rewrite has_lor; [by rewrite H1|by rewrite orb_true_r|by rewrite H5].
Qed.

Lemma syncCommand_ok w m c argv :
  master_ok m → fresh_client (s_conn c) → offset_given argv = true → zlen (w_mem w) = size → unheard (s_id c) (executed m) →
  ∃ m' r, syncCommand dataset w m c argv = Ret (m', r) ∧ master_ok m'.
Proof.
  intros HM Hfr Hof Hmem Hun. unfold syncCommand. rewrite Hof. destruct (has (o_flags (s_conn c)) CLIENT_SLAVE); [by eexists _, _|].
  destruct (clientHasPendingReplies (s_conn c)) eqn:Ep; [by eexists _, _|].
  destruct (fresh_empty _ (fr_out _ Hfr) Ep) as [Hpe Hse]. set (psync := strcasecmp_eq _ _). pose proof HM as [Hsz HM'].
  assert (repl_backlog (m_ring m) = None ∨ (∃ base st, represents (m_ring m) base st)) as Hb.
  { destruct (repl_backlog (m_ring m)); [right; apply HM'|by left]. }
  assert (∃ res, (if psync then masterTryPartialResynchronization (m_ring m) (m_ids m) (slave_capa c) (net_ok w (o_fd (s_conn c)))
      (default [] (argv !! 1)) (default [] (argv !! 2)) else Ret FullResync) = Ret res
    ∧ match res with Continue line _ _ => line = continue_line (m_ids m) (slave_capa c) ∧ repl_backlog (m_ring m) ≠ None
                   | Dropped => repl_backlog (m_ring m) ≠ None | FullResync => True end) as (res & -> & Hres).
  { destruct psync; [by apply psync_total|by eexists]. }
  bind_red. pose proof (online_conn _ Hfr) as HCo. destruct res as [|line data n|].
  - set (f := if psync then _ else _). set (c1 := set_conn c _).
    assert (conn_ok (s_conn c1)) as HC1.
    { destruct Hfr as [[K1 K2 K3] Hcom Hf Hfd]. split; [by split|done|exists false; apply (slave_flags (o_flags (s_conn c))); [done|]|done].
      unfold f. destruct psync; auto. }
    destruct (repl_backlog (m_ring m)) as [mem|] eqn:Eb.
    + rewrite (bool_decide_eq_false_2 (Some mem = None)), andb_false_r by done. bind_red. eexists _, _. split; [done|].
      destruct HM' as (HR & HS). by apply (sync_full_ok w m).
    + rewrite HM'. rewrite !bool_decide_eq_true_2 by done. cbn [andb].
      destruct (createReplicationBacklog (m_ring m) (w_mem w)) as [r|] eqn:Er.
      2:{ unfold createReplicationBacklog in Er. by rewrite Eb in Er. }
      destruct (created_ok m (w_mem w) r Er Hmem Hsz) as [HR Hsz']. bind_red. eexists _, _. split; [done|].
      apply sync_full_ok; simpl; [by rewrite Hsz'|done|by rewrite HM'|done|done|done|done].
  - destruct Hres as [-> Hne]. eexists _, _. split; [done|]. destruct (repl_backlog (m_ring m)); [|done].
    destruct HM' as (HR & HS). apply add_slave_ok; [done..|]. rewrite online_takes_nothing by done.
    split; [done|]. right; right; right. split; [done|]. intros _. exists (executed m), []. split; [by rewrite app_nil_r|]. right.
    exists (s_wire c), (slave_capa c). cbn [set_conn put_wire s_wire s_conn].
    change (pending (online_slave (s_conn c))) with (pending (s_conn c)). rewrite Hpe. unfold wire. simpl. by rewrite !app_nil_r.
  - eexists _, _. split; [done|]. destruct (repl_backlog (m_ring m)); [|done]. destruct HM' as (HR & HS).
    apply add_slave_ok; [done..|]. split; [by apply free_async_ok|]. right; right; right. split.
    + unfold s_state, freeClientAsync. simpl. by case_match.
    + intros Hcl. cbn [set_conn s_conn] in Hcl. by rewrite free_async_closing in Hcl by (by apply conn_not_lua).
Qed.

(** *** The snapshot *)

Lemma put_state_ok c n b : conn_ok c → conn_ok (set_replstate c n b).
Proof. intros [[K1 K2 K3] Hcom Hf Hfd]. by split; [split|..]. Qed.

(** A slave the process has ended for; [file] is what it wrote when it succeeded. *)
Lemma after_save_ok w dump ok file ids now log s s' :
  slave_ok (Some (ToDisk dump)) ids now log s → (ok = true → file = Some dump) → after_save w ok false file s = Some s' →
  slave_ok None ids now log s'.
Proof.
  intros HSO Hf E. pose proof HSO as [HC HS]. unfold after_save, waits in E. case_bool_decide as Hst.
  - destruct (ok_end _ _ _ _ _ HSO Hst) as (l1 & l2 & H1 & H2 & H3 & H4 & _ & H5). simpl in H2. injection H2 as ->.
    destruct file as [db|]; [|discriminate E]. destruct (ok && w_open w) eqn:Eok; [|discriminate E]. apply andb_true_iff in Eok as [-> _].
    specialize (Hf eq_refl). injection Hf as ->. case_match; [|discriminate E]. injection E as <-.
    split; [by apply put_state_ok|]. right; right; left. split; [done|].
    exists l1, l2. split; [done|]. split; [done|]. split; [done|]. split; [simpl; lia|]. intros Hcl. exists (s_wire s). split; [exact (H5 Hcl)|done].
  - injection E as <-. split; [done|]. destruct HS as [H|[[E1 _]|H]]; [by left|done|by right; right].
Qed.

Lemma cut_concat sizes : ∀ b, concat (cut sizes b) = b.
Proof. induction sizes as [|n sizes IH]; intros b; simpl; [by rewrite app_nil_r|]. by rewrite IH, take_drop. Qed.

(** A slave that was served over its socket, or has never been waiting for it. *)
Lemma served_ok w l dump ok report file ids now log s s1 s' :
  slave_ok (Some (ToSockets l dump)) ids now log s → Forall (λ p, got (frame (Mark (w_mark w)) dump) p.2) report →
  reported report s = Some s1 → after_save w ok true file s1 = Some s' → slave_ok None ids now log s'.
Proof.
  intros HSO Hr E1 E2. pose proof HSO as [HC HS]. unfold reported, waits in E1. case_bool_decide as Hst.
  - destruct (ok_end _ _ _ _ _ HSO Hst) as (l1 & l2 & [Hl Ho] & H2 & H3 & H4 & _ & H5). simpl in H2. injection H2 as ->.
    destruct (list_find _ report) as [[i [id t]]|] eqn:Ef; [|discriminate E1]. apply list_find_Some in Ef as (Hi & _ & _).
    case_bool_decide as Ht; [|discriminate E1]. injection E1 as <-. rewrite Forall_lookup in Hr. specialize (Hr _ _ Hi Ht). simpl in Hr.
    unfold after_save, waits in E2. rewrite bool_decide_eq_true_2 in E2 by done. injection E2 as <-.
    split; [by apply put_state_ok|]. right; right; right. split; [done|]. intros Hcl. exists l1, l2. split; [done|]. left. split; [done|].
    exists (Mark (w_mark w)), (s_wire s), []. split; [exact (H5 Hcl)|]. cbn [set_conn put_wire s_wire s_conn]. rewrite Hr, app_nil_r.
    by split; [|split; [exact H3|]].
  - injection E1 as <-. unfold after_save, waits in E2. rewrite bool_decide_eq_false_2 in E2 by done. injection E2 as <-.
    split; [done|]. destruct HS as [H|[[E _]|H]]; [by left|done|by right; right].
Qed.

Lemma saved_ok w m ok : master_ok m → returns (backgroundSaveDoneHandler dataset w m ok) master_ok.
Proof.
  intros HM. unfold backgroundSaveDoneHandler. destruct (rdb_child m) as [[dump|l dump]|] eqn:Ec; [| |by apply returns_ret].
  - apply returns_ret. unfold backgroundSaveDoneHandlerDisk, updateSlavesWaitingBgsave. set (m1 := set_slaves _ _).
    assert (master_ok m1) as H1.
    { destruct HM as [Hsz HM]. split; [done|]. simpl. destruct (repl_backlog (m_ring m)); [|by rewrite HM]. destruct HM as (HR & HS).
      split; [done|]. apply Forall_forall. intros s' Hs'. apply list_elem_of_omap in Hs' as (s & Hs & E).
      rewrite Forall_forall, Ec in HS. refine (after_save_ok w dump ok _ _ _ _ s s' (HS s Hs) _ E). by intros ->. }
    destruct (existsb _ _); [by apply start_ok|done].
  - unfold backgroundSaveDoneHandlerSocket.
    destruct (snapshot_sent (w_plan w <$> l) (w_mark w) (cut (w_cut w) dump)) as (ts & sent & -> & _ & Hts). bind_red. apply returns_ret.
    set (report := if _ : bool then _ else _). unfold updateSlavesWaitingBgsave. set (m1 := set_slaves (set_slaves _ _) _).
    assert (Forall (λ p, got (frame (Mark (w_mark w)) dump) p.2) report) as Hrep.
    { unfold report. destruct sent; [|rewrite andb_false_r; by apply Forall_nil]. destruct (_ && _); [|by apply Forall_nil].
      specialize (Hts eq_refl). rewrite cut_concat in Hts. apply Forall_forall. intros [id t] Hp. apply elem_of_zip_r in Hp.
      rewrite Forall_forall in Hts. by apply Hts. }
    assert (master_ok m1) as H1.
    { destruct HM as [Hsz HM]. split; [done|]. simpl. destruct (repl_backlog (m_ring m)); [|by rewrite HM]. destruct HM as (HR & HS).
      split; [done|]. apply Forall_forall. intros s' Hs'. apply list_elem_of_omap in Hs' as (s1 & Hs1 & E2).
      apply list_elem_of_omap in Hs1 as (s & Hs & E1). rewrite Forall_forall, Ec in HS. by apply (served_ok w l dump (ok && sent) report (rdb m) _ _ _ s s1 s' (HS s Hs)). }
    destruct (existsb _ _); [by apply start_ok|done].
Qed.

Lemma online_slave_ok w ch ids now log s s' :
  conn_ok (s_conn s) → putSlaveOnline w s = Some s' →
  (closing (s_conn s) = false → streaming ids now log s) → slave_ok ch ids now log s'.
Proof.
  intros HC E HF. unfold putSlaveOnline in E. case_match; [|discriminate E]. injection E as <-.
  split; [by apply put_state_ok|]. right; right; right. split; [done|]. intros Hcl.
  destruct (HF Hcl) as (l1 & l2 & El & [(Ho & f & b & sent & H1 & H2 & H3 & _)|HP]); exists l1, l2; (split; [done|]); [left|by right].
  split; [done|]. by exists f, b, sent.
Qed.

Lemma opened_same ids s s' b :
  s_conn s' = s_conn s → psync_initial_offset s' = psync_initial_offset s → opened ids s b → opened ids s' b.
Proof. intros E1 E2 (w0 & nl & H & ->). exists w0, nl. by rewrite E1, E2. Qed.

(** Nothing of the preamble is left. *)
Lemma send_data_ok w ch ids now log s r :
  slave_ok ch ids now log s → s_state s = SLAVE_STATE_SEND_BULK → default [] (replpreamble s) = [] →
  ∃ o, send_data w s r = Ret o ∧ ∀ s', o = Some s' → slave_ok ch ids now log s'.
Proof.
  intros HSO Hst Hpre. pose proof HSO as [HC _]. destruct (ok_bulk _ _ _ _ _ HSO Hst) as (l1 & l2 & H1 & H2 & H3 & H4 & H5).
  unfold send_data. rewrite H3. set (db := dataset (cmds l1)) in *. set (buf := take _ (drop (repldboff s) db)).
  case_bool_decide as Hb; [by eexists|]. destruct r as [n| |]; [|exists (Some s); split; [done|]; by intros s' [= <-]|by eexists].
  set (b := take n buf). set (s1 := set_db (put_wire s b) (Some db) (repldboff s + length b) None).
  assert (drop (repldboff s) db = b ++ drop (repldboff s + length b) db) as Ed.
  { rewrite <-drop_drop. unfold b, buf. rewrite take_take. set (k := n `min` _).
    rewrite length_take. rewrite <-(take_drop k (drop (repldboff s) db)) at 1. f_equal.
    destruct (decide (k ≤ length (drop (repldboff s) db))); [by rewrite Nat.min_l|]. rewrite Nat.min_r by lia. rewrite !drop_ge; [done|lia|lia]. }
  assert (repldboff s + length b ≤ length db) as Hle.
  { apply (f_equal length) in Ed. rewrite length_app, !length_drop in Ed. lia. }
  assert (closing (s_conn s) = false → ∃ b0, opened ids s b0 ∧ (s_wire s ++ b) ++ drop (repldboff s + length b) db = b0 ++ bulk_of db) as Hw.
  { intros Hcl. destruct (H5 Hcl) as (b0 & Ho & E). exists b0. split; [done|]. rewrite Hpre in E. simpl in E. by rewrite <-app_assoc, <-Ed. }
  cbn [repldboff s1 set_db]. case_bool_decide as Hend.
  - eexists. split; [done|]. intros s' Es'. refine (online_slave_ok w ch ids now log (set_db s1 None (repldboff s + length b) None) s' HC Es' _). intros Hcl.
    destruct (Hw Hcl) as (b0 & Ho & E). destruct H1 as [-> Eo]. exists l1, l2. split; [done|]. left. split; [done|].
    exists Count, b0, []. split; [by apply (opened_same ids s)|]. rewrite drop_ge, app_nil_r in E by lia. rewrite app_nil_r. done.
  - eexists. split; [done|]. intros s' [= <-]. split; [done|]. right; right; left. split; [done|].
    exists l1, l2. split; [done|]. split; [done|]. split; [done|]. split; [done|]. intros Hcl. destruct (Hw Hcl) as (b0 & Ho & E).
    exists b0. split; [by apply (opened_same ids s)|exact E].
Qed.

Lemma sendBulk_ok w ch ids now log s r1 r2 :
  slave_ok ch ids now log s → s_state s = SLAVE_STATE_SEND_BULK →
  ∃ o, sendBulkToSlave w s r1 r2 = Ret o ∧ ∀ s', o = Some s' → slave_ok ch ids now log s'.
Proof.
  intros HSO Hst. unfold sendBulkToSlave. destruct (replpreamble s) as [p|] eqn:Ep.
  2:{ apply send_data_ok; [done|done|by rewrite Ep]. }
  destruct r1 as [n| |]; [|by eexists..]. set (s1 := set_db (put_wire s (take n p)) (repldb s) (repldboff s) (Some (drop n p))).
  destruct (ok_bulk _ _ _ _ _ HSO Hst) as (l1 & l2 & H1 & H2 & H3 & H4 & H5). destruct HSO as [HC _].
  assert (∀ q, q = Some (drop n p) ∨ q = None ∧ drop n p = [] → slave_ok ch ids now log (set_db s1 (repldb s) (repldboff s) q)) as HQ.
  { intros q Hq. split; [done|]. right; right; left. split; [done|]. exists l1, l2. split; [done|]. split; [done|]. split; [done|]. split; [done|].
    intros Hcl. destruct (H5 Hcl) as (b0 & Ho & E). exists b0. split; [by apply (opened_same ids s)|].
    unfold s1. cbn [set_db put_wire s_wire replpreamble repldboff psync_initial_offset]. rewrite <-E, Ep. cbn [default].
    rewrite <-(take_drop n p) at 2. destruct Hq as [->|[-> ->]]; unfold default, id; cbn [from_option]; by rewrite <-!app_assoc. }
  case_bool_decide as Hd; [apply send_data_ok; [by apply HQ; right|done|done]|].
  exists (Some s1). split; [done|]. intros s' [= <-]. apply (HQ (Some (drop n p))). by left.
Qed.

(** *** Writing, ACKs and the timer *)

Lemma write_loop_ack limit fuel : ∀ c ws tot w,
  write_loop fuel limit c ws tot = Ret w → put_online_on_ack (w_client w) = put_online_on_ack c.
Proof.
  induction fuel as [|fuel IH]; intros c ws tot w E; cbn [write_loop] in E; (destruct (negb _); [by simplify_eq|]); [discriminate E|].
  unfold next_node in E. repeat (case_match || out_inv E); simplify_eq; try done; simpl.
  all: match goal with H : write_loop _ _ _ _ _ = Ret _ |- _ => rewrite (IH _ _ _ _ H) end; done.
Qed.

Lemma write_ack c ws r b left :
  writeToClient true c ws = Ret (r, b, left) → ∀ c', r = Some c' → put_online_on_ack c' = put_online_on_ack c.
Proof.
  unfold writeToClient. intros E c' ->. destruct (write_loop _ _ c ws 0) as [w|] eqn:Ew; [|discriminate E]. apply write_loop_ack in Ew.
  rewrite <-Ew. simpl in E. repeat case_match; by simplify_eq.
Qed.

Lemma flush_ok ch ids now log s ws :
  slave_ok ch ids now log s → ∃ o, flush s ws = Ret o ∧ ∀ s', o = Some s' → slave_ok ch ids now log s'.
Proof.
  intros HSO. pose proof HSO as [[Hc Hcom Hf Hfd] _]. unfold flush.
  destruct (waits SLAVE_STATE_ONLINE s && negb (put_online_on_ack (s_conn s))) eqn:Eg; [|exists (Some s); split; [done|]; by intros s' [= <-]].
  apply andb_true_iff in Eg as [Hst%bool_decide_eq_true Hack%negb_true_iff].
  destruct (writeToClient_spec true (s_conn s) ws Hc Hcom) as (r & b & left & Ew & _ & HT & _). pose proof (write_ack _ _ _ _ _ Ew) as HA.
  rewrite Ew. bind_red. clear Ew.
  eexists. split; [done|]. intros s' Es'. destruct r as [c|]; [|discriminate Es']. injection Es' as <-.
  specialize (HA c eq_refl). destruct (HT c eq_refl) as (T1 & T2 & (T3 & T4 & T5) & T6 & _).
  pose proof (ok_online _ _ _ _ _ HSO Hst) as H.
  split; [split; [done|done|simpl; by rewrite T3|simpl; by rewrite T4]|]. right; right; right.
  split; [unfold s_state in *; simpl; by rewrite T5|]. intros Hcl. unfold closing in Hcl. cbn [set_conn put_wire s_conn] in Hcl. rewrite T3 in Hcl.
  assert ((s_wire s ++ b) ++ pending c = s_wire s ++ pending (s_conn s)) as Ew by (by rewrite T6, app_assoc).
  destruct (H Hcl) as (l1 & l2 & El & [(H1 & f & b0 & sent & Ho & E1 & E2 & _)|(w0 & capa & E)]); exists l1, l2; (split; [done|]); [left|right].
  - split; [done|]. exists f, b0, (sent ++ b). cbn [set_conn put_wire s_conn s_wire s_id]. split_and!.
    + destruct Ho as (w0 & nl & Hnl & ->). exists w0, nl. split; [done|]. unfold opening, pre_psync. cbn [set_conn put_wire s_conn]. by rewrite T3.
    + by rewrite E1, <-!app_assoc.
    + by rewrite <-E2, T6, app_assoc.
    + by rewrite HA, Hack.
  - exists w0, capa. cbn [set_conn put_wire s_conn s_wire s_id]. by rewrite Ew.
Qed.

Lemma ack_ok w ch ids now log s off s' :
  slave_ok ch ids now log s → replconfCommand w s [str "ack"; off] = Some s' → slave_ok ch ids now log s'.
Proof.
  intros HSO E. assert (∀ n, slave_ok ch ids now log (set_ack s n)) as HA by (intros n; exact HSO).
  assert (∀ s1 s2, slave_ok ch ids now log s1 → s_state s1 = SLAVE_STATE_ONLINE → putSlaveOnline w s1 = Some s2 →
    slave_ok ch ids now log s2) as HO.
  { intros s1 s2 H1 Hst E2. refine (online_slave_ok w ch ids now log s1 s2 (proj1 H1) E2 _). exact (ok_online _ _ _ _ _ H1 Hst). }
  change (replconfCommand w s [str "ack"; off]) with
    (if negb (has (o_flags (s_conn s)) CLIENT_SLAVE) then Some s
     else match string2ll off with
          | None => Some s
          | Some off => let s := if bool_decide (off > repl_ack_off s)%Z then set_ack s off else s in
                        if put_online_on_ack (s_conn s) && waits SLAVE_STATE_ONLINE s then putSlaveOnline w s else Some s
          end) in E.
  destruct (negb _); [by injection E as <-|]. destruct (string2ll off) as [n|]; [|by injection E as <-]. cbv zeta in E.
  set (s1 := if bool_decide _ then _ else s) in E. assert (slave_ok ch ids now log s1) as H1 by (unfold s1; case_bool_decide; auto).
  destruct (put_online_on_ack (s_conn s1) && waits SLAVE_STATE_ONLINE s1) eqn:Eg; [|by injection E as <-].
  apply andb_true_iff in Eg as [_ Hst%bool_decide_eq_true]. by apply (HO s1).
Qed.

Lemma newline_ok w ch ids now log s :
  slave_ok ch ids now log s →
  slave_ok ch ids now log (if presync ch s && net_ok w (o_fd (s_conn s)) then put_wire s [LF] else s).
Proof.
  intros Hs. destruct (presync ch s && net_ok w (o_fd (s_conn s))) eqn:Ep; [|done]. apply andb_true_iff in Ep as [Ep _]. unfold presync in Ep.
  destruct (decide (s_state s = SLAVE_STATE_WAIT_BGSAVE_START)) as [E|E].
  - split; [apply Hs|]. left. split; [done|]. exact (ok_start _ _ _ _ _ Hs E).
  - unfold waiting, waits in Ep. rewrite (bool_decide_eq_false_2 _ E) in Ep. apply andb_true_iff in Ep as [Ep%bool_decide_eq_true _].
    destruct (ok_end _ _ _ _ _ Hs Ep) as (l1 & l2 & H1 & H2 & H3 & H4 & H4' & H5). split; [apply Hs|]. right; left. split; [done|].
    exists l1, l2. split; [done|]. split; [done|]. split; [done|]. split; [done|]. split; [done|]. intros Hcl. destruct (H5 Hcl) as (w0 & nl & Hnl & Ew).
    exists w0, (nl ++ [LF]). split; [apply Forall_app; by split; [|constructor]|].
    cbn [put_wire s_wire s_conn psync_initial_offset]. rewrite Ew. by rewrite <-!app_assoc.
Qed.

(** The loop over the slaves. *)
Lemma feeds_ok e ch ids now log o argv l : ∀ acc,
  Forall (slave_ok ch ids now log) l → Forall in_range argv → sized (texts argv) →
  Forall (λ s, o = Some (s_id s) → disk ch && waits SLAVE_STATE_WAIT_BGSAVE_END s = false) l →
  ∃ l', out_fold (λ l s, c ← feed_ex_slave e (s_conn s) (bool_decide (o = Some (s_id s))) argv; Ret (l ++ [set_conn s c])) acc l
      = Ret (acc ++ l')
    ∧ Forall (slave_ok ch ids (now + zlen (encode (texts argv))) (log ++ [(o, texts argv)])) l'.
Proof.
  induction l as [|s l IH]; intros acc HS Hr Hz Hm; cbn [out_fold]; [exists []; by rewrite app_nil_r|].
  apply Forall_cons in HS as [Hs HS]. apply Forall_cons in Hm as [Hm1 Hm].
  destruct (feed_slave_ok e ch ids now log s o argv Hs Hr Hz Hm1) as (c & -> & Hc). bind_red.
  destruct (IH (acc ++ [set_conn s c]) HS Hr Hz Hm) as (l' & E & HL). exists (set_conn s c :: l').
  split; [by rewrite E, <-app_assoc|by constructor].
Qed.

Lemma out_fold_ext {A B} (f g : A → B → out A) l : ∀ a, (∀ a b, f a b = g a b) → out_fold f a l = out_fold g a l.
Proof. induction l as [|b l IH]; intros a H; [done|]. cbn [out_fold]. rewrite H. destruct (g a b); [|done]. by apply IH. Qed.

(** Both ways of feeding. *)
Lemma feed_any_ok w m o argv (feed1 : sslave → out oclient) :
  master_ok m → Forall in_range argv → sized (texts argv) →
  (∀ s, feed1 s = feed_ex_slave (w_out w) (s_conn s) (bool_decide (o = Some (s_id s))) argv) →
  (∀ id, o = Some id → mute m id = false) →
  returns (let m := execute_as m o argv in
    if bool_decide (repl_backlog (m_ring m) = None) && bool_decide (slaves m = []) then Ret m
    else if bool_decide (slaves m ≠ []) && bool_decide (repl_backlog (m_ring m) = None) then Fail AssertFail
    else
      r ← feed_command (m_ring m) (texts argv);
      l ← out_fold (λ l s, c ← feed1 s; Ret (l ++ [set_conn s c])) [] (slaves m);
      Ret (set_slaves (set_history m r (m_ids m)) l)) master_ok.
Proof.
  intros [Hsz HM] Hr Hz Hf Hm. simpl. destruct (repl_backlog (m_ring m)) as [mem|] eqn:Eb.
  2:{ rewrite HM. apply returns_ret. split; [done|]. simpl. by rewrite Eb. }
  rewrite !(bool_decide_eq_false_2 (Some mem = None)), andb_false_r by done. cbn [andb]. destruct HM as ((base & st & HR) & HS).
  destruct (feed_command_represents base (m_ring m) st (texts argv) Hz HR) as (r & -> & HR' & Hs'). bind_red.
  destruct (feeds_ok (w_out w) _ _ _ _ o argv (slaves m) [] HS Hr Hz) as (l & El & HL).
  { apply Forall_forall. intros s Hs Ho. specialize (Hm _ Ho). unfold mute in Hm. destruct (disk (rdb_child m)); [|done].
    cbn [andb] in Hm |- *. apply not_true_iff_false. intros Hw. apply not_true_iff_false in Hm. apply Hm, existsb_exists. exists s.
    split; [by apply list_elem_of_In|]. by rewrite bool_decide_eq_true_2. }
  rewrite (out_fold_ext _ (λ l s, c ← feed_ex_slave (w_out w) (s_conn s) (bool_decide (o = Some (s_id s))) argv; Ret (l ++ [set_conn s c])))
    by (intros; by rewrite Hf).
  rewrite El. bind_red. apply returns_ret.
  split; [simpl; congruence|]. simpl. pose proof HR' as (mem' & -> & _ & _ & E' & _). pose proof HR as (_ & _ & _ & _ & E & _).
  split; [by exists base, (st ++ encode (texts argv))|]. rewrite zlen_app in E'.
  by replace (master_repl_offset r) with (master_repl_offset (m_ring m) + zlen (encode (texts argv)))%Z by lia.
Qed.

Lemma feed_master_ok w m argv :
  master_ok m → Forall in_range argv → sized (texts argv) → returns (replicationFeedSlaves w (execute m argv) argv) master_ok.
Proof.
  intros HM Hr Hz. apply (feed_any_ok w m None argv (λ s, feed_slave (w_out w) (s_conn s) argv)); try done.
Qed.

Lemma feed_ex_ok w m id argv :
  master_ok m → Forall in_range argv → sized (texts argv) → mute m id = false →
  returns (replicationFeedExSlave w (execute_as m (Some id) argv) id argv) master_ok.
Proof.
  intros HM Hr Hz Hm.
  apply (feed_any_ok w m (Some id) argv (λ s, feed_ex_slave (w_out w) (s_conn s) (bool_decide (s_id s = id)) argv)); try done.
  - intros s. f_equal. apply bool_decide_ext. split; congruence.
  - by intros id' [= <-].
Qed.

Lemma kept_slaves_ok m l :
  master_ok m →
  (∀ ids now log, Forall (slave_ok (rdb_child m) ids now log) (slaves m) → Forall (slave_ok (rdb_child m) ids now log) l) →
  (slaves m = [] → l = []) → master_ok (set_slaves m l).
Proof.
  intros [Hsz HM] H H0. split; [done|]. simpl. destruct (repl_backlog (m_ring m)); [|by apply H0].
  destruct HM as [HR HS]. split; [done|]. by apply H.
Qed.

Lemma tick_ok w m : master_ok m → returns (replicationCron dataset w m) master_ok.
Proof.
  intros HM. unfold replicationCron. eapply returns_bind with (P := master_ok).
  { destruct (_ && _); [|by apply returns_ret]. apply feed_master_ok; [done|by repeat constructor|]. split; [vm_compute; congruence|].
    repeat constructor. vm_compute. congruence. }
  clear m HM. intros m HM. set (m1 := set_slaves m _). set (m2 := set_slaves m1 _).
  assert (master_ok m2) as H2.
  { apply kept_slaves_ok; [apply kept_slaves_ok; [done| |by intros ->]| |].
    - intros ids now log H. apply Forall_fmap. eapply Forall_impl; [exact H|]. intros s. apply newline_ok.
    - intros ids now log H. by apply Forall_filter.
    - by intros ->. }
  clearbody m2. clear m1 m HM. eapply returns_bind with (P := master_ok).
  - destruct (_ && _ && _) eqn:Eg; [|by apply returns_ret].
    apply andb_true_iff in Eg as [[Es%bool_decide_eq_true _]%andb_true_iff _]. rewrite Es. unfold freeReplicationBacklog. simpl.
    apply returns_ret. split; [apply H2|]. done.
  - intros m HM. apply returns_ret. destruct (rdb_child m); [done|]. destruct (_ && _ && _); [by apply start_ok|done].
Qed.

Lemma for_slave_ok m i f :
  master_ok m →
  (∀ ch ids now log s, slave_ok ch ids now log s → ∃ o, f s = Ret o ∧ ∀ s', o = Some s' → slave_ok ch ids now log s') →
  returns (for_slave m i f) master_ok.
Proof.
  intros HM Hf. unfold for_slave. destruct (slaves m !! i) as [s|] eqn:Ei; [|by apply returns_ret].
  destruct HM as [Hsz HM]. destruct (repl_backlog (m_ring m)) eqn:Eb; [|by rewrite HM in Ei].
  destruct HM as (HR & HS). pose proof HS as HS'. rewrite Forall_lookup in HS'.
  destruct (Hf _ _ _ _ s (HS' _ _ Ei)) as (o & -> & Ho). bind_red. apply returns_ret. split; [done|]. simpl. rewrite Eb.
  split; [done|]. destruct o as [s'|]; [apply Forall_insert; [done|by apply Ho]|by apply Forall_delete].
Qed.

(** Clients that ask are ordinary ones and give a number, memory has the right size, and integers are
    longs. *)
Definition event_ok (ev : world * mevent) : Prop :=
  match ev.2 with
  | MSync c argv => fresh_client (s_conn c) ∧ offset_given argv = true ∧ zlen (w_mem ev.1) = size
  | MFeed argv | MFeedEx _ argv => Forall in_range argv ∧ sized (texts argv)
  | _ => True
  end.

(** Ids of clients are not used again: a client that asks for a synchronization has not
    sent commands as a slave; [seen] are the ids of those that have. *)
Fixpoint ids_fresh (seen : list Z) (evs : list (world * mevent)) : Prop :=
  match evs with
  | [] => True
  | (_, MSync c _) :: evs => s_id c ∉ seen ∧ ids_fresh seen evs
  | (_, MFeedEx id _) :: evs => ids_fresh (id :: seen) evs
  | _ :: evs => ids_fresh seen evs
  end.

Definition heard (m : mserver) : list Z := omap fst (executed m).

Lemma heard_unheard id m : id ∉ heard m → unheard id (executed m).
Proof.
  intros H. apply Forall_forall. intros [o c] He. simpl. intros ->. apply H. apply list_elem_of_omap. by exists (Some id, c).
Qed.

Lemma ids_fresh_mono evs : ∀ seen seen', seen' ⊆ seen → ids_fresh seen evs → ids_fresh seen' evs.
Proof.
  induction evs as [|[w ev] evs IH]; intros seen seen' Hs; [done|]. destruct ev; simpl; try by apply IH.
  - intros [H1 H2]. split; [set_solver|by eapply IH].
  - apply IH. set_solver.
Qed.

(** Only feeding adds to the log. *)
Lemma start_log w m n : executed (startBgsaveForReplication dataset w m n) = executed m.
Proof.
  unfold startBgsaveForReplication. destruct (bool_decide _); [done|]. destruct (w_diskless w && _).
  - by destruct (sockets_fields w m) as [->|[[_ [l ->]]|(l & -> & _)]].
  - by destruct (disk_fields w m) as [->|[_ ->]].
Qed.

Lemma sync_full_log w m c : executed (sync_full dataset w m c) = executed m.
Proof. unfold sync_full. repeat case_match; try done. by rewrite start_log. Qed.

Lemma syncCommand_log w m c argv m' r : syncCommand dataset w m c argv = Ret (m', r) → executed m' = executed m.
Proof.
  unfold syncCommand. intros E. destruct (has _ CLIENT_SLAVE); [by simplify_eq|]. destruct (clientHasPendingReplies _); [by simplify_eq|].
  cbv zeta in E. destruct (if strcasecmp_eq _ _ then masterTryPartialResynchronization _ _ _ _ _ _ else _) as [[|line data n|]|]; [|by simplify_eq/=..|discriminate E].
  cbn [mbind out_bind] in E. set (c1 := set_db _ _ _ _) in E.
  destruct (if bool_decide (slaves m = []) && _ then _ else _) as [m1|] eqn:E1; [|discriminate E].
  simpl in E. injection E as <- _. rewrite sync_full_log. destruct (_ && _); [|by simplify_eq].
  destruct (createReplicationBacklog _ _) as [r1|]; [|discriminate E1]. by simplify_eq/=.
Qed.

Lemma saved_log w m ok m' : backgroundSaveDoneHandler dataset w m ok = Ret m' → executed m' = executed m.
Proof.
  unfold backgroundSaveDoneHandler, backgroundSaveDoneHandlerDisk, backgroundSaveDoneHandlerSocket, updateSlavesWaitingBgsave.
  intros E. destruct (rdb_child m) as [[dump|l dump]|]; [| |by simplify_eq].
  - injection E as <-. destruct (existsb _ _); [by rewrite start_log|done].
  - destruct (send_snapshot _ _ _) as [[ts sent]|]; [|discriminate E]. simpl in E. injection E as <-.
    destruct (existsb _ _); [by rewrite start_log|done].
Qed.

Lemma for_slave_log m i f m' : for_slave m i f = Ret m' → executed m' = executed m.
Proof. unfold for_slave. intros E. case_match; [|by simplify_eq]. out_inv E. by simplify_eq. Qed.

Lemma feed_log w m argv m' : replicationFeedSlaves w m argv = Ret m' → executed m' = executed m.
Proof. unfold replicationFeedSlaves. intros E. repeat (case_match || out_inv E); by simplify_eq. Qed.

Lemma feed_ex_log w m id argv m' : replicationFeedExSlave w m id argv = Ret m' → executed m' = executed m.
Proof. unfold replicationFeedExSlave. intros E. repeat (case_match || out_inv E); by simplify_eq. Qed.

Lemma heard_log m m' : executed m' = executed m → heard m' ⊆ heard m.
Proof. unfold heard. by intros ->. Qed.

Lemma heard_none m argv : heard (execute m argv) = heard m.
Proof. unfold heard, execute, execute_as. simpl. rewrite omap_app. simpl. by rewrite app_nil_r. Qed.

Lemma tick_log w m m' : replicationCron dataset w m = Ret m' → heard m' ⊆ heard m.
Proof.
  unfold replicationCron. intros E.
  destruct (if _ && _ then replicationFeedSlaves _ _ _ else Ret m) as [m1|] eqn:E1; [|discriminate E].
  assert (heard m1 ⊆ heard m) as H1.
  { destruct (_ && _); [|by simplify_eq]. apply feed_log in E1. rewrite <-(heard_none m [Raw (str "PING")]). by apply heard_log. }
  etransitivity; [|exact H1]. clear H1 E1. cbn [mbind out_bind] in E. apply heard_log.
  cbv zeta in E. set (m2 := set_slaves (set_slaves m1 _) _) in E. change (executed m1) with (executed m2). clearbody m2.
  destruct (if bool_decide (slaves m2 = []) && _ && _ then _ else _) as [m3|] eqn:E3; [|discriminate E].
  assert (executed m3 = executed m2) as <-.
  { destruct (_ && _ && _); [|by simplify_eq]. destruct (freeReplicationBacklog _ _); [|discriminate E3]. by simplify_eq/=. }
  cbn [mbind out_bind] in E. injection E as <-. clear E3. destruct (rdb_child m3); [done|]. destruct (_ && _ && _); [by rewrite start_log|done].
Qed.

Lemma mstep_heard m ev m' :
  mstep dataset m ev = Ret m' → heard m' ⊆ (match ev.2 with MFeedEx id _ => [id] | _ => [] end) ++ heard m.
Proof.
  destruct ev as [w ev]. unfold mstep. cbn [fst snd]. destruct ev as [c argv| |ok|b|argv|id argv|i r1 r2|i ws|i off|i|]; intros E; cbn [app].
  - destruct (syncCommand _ _ _ _ _) as [[m1 r]|] eqn:E1; [|discriminate E]. simpl in E. injection E as <-. apply heard_log. by eapply syncCommand_log.
  - injection E as <-. apply heard_log. by destruct (disk_fields w m) as [->|[_ ->]].
  - apply heard_log. by eapply saved_log.
  - by injection E as <-.
  - rewrite <-(heard_none m argv). apply heard_log. by eapply feed_log.
  - destruct (mute m id); [injection E as <-; set_solver|]. apply feed_ex_log in E. unfold heard. rewrite E. simpl. rewrite omap_app. simpl. set_solver.
  - apply heard_log. by eapply for_slave_log.
  - apply heard_log. by eapply for_slave_log.
  - apply heard_log. by eapply for_slave_log.
  - apply heard_log. by eapply for_slave_log.
  - by eapply tick_log.
Qed.

Lemma mstep_ok m ev :
  master_ok m → event_ok ev → (∀ c argv, ev.2 = MSync c argv → s_id c ∉ heard m) → returns (mstep dataset m ev) master_ok.
Proof.
  intros HM He Hn. destruct ev as [w ev]. unfold mstep, event_ok in *. simpl in *.
  destruct ev as [c argv| |ok|b|argv|id argv|i r1 r2|i ws|i off|i|].
  - destruct He as (Hf & Ho & Hm). destruct (syncCommand_ok w m c argv HM Hf Ho Hm (heard_unheard _ _ (Hn _ _ eq_refl))) as (m' & r & -> & HM'). bind_red. by apply returns_ret.
  - apply returns_ret. destruct HM as [Hsz HM]. destruct (disk_fields w m) as [->|[Hnc ->]]; [done|].
    split; [done|]. simpl. rewrite Hnc in HM.
    destruct (repl_backlog (m_ring m)); [|done]. destruct HM as (HR & HS). split; [done|].
    eapply Forall_impl; [exact HS|]. intros s. apply no_child_ok.
  - by apply saved_ok.
  - by apply returns_ret.
  - apply feed_master_ok; tauto.
  - destruct (mute m id) eqn:Em; [by apply returns_ret|]. apply feed_ex_ok; tauto.
  - apply for_slave_ok; [done|]. intros ch ids now log s Hs. unfold waits. case_bool_decide; [by apply sendBulk_ok|].
    exists (Some s). split; [done|]. by intros s' [= <-].
  - apply for_slave_ok; [done|]. intros. by apply flush_ok.
  - apply for_slave_ok; [done|]. intros ch ids now log s Hs. eexists. split; [done|]. intros s' E. by apply (ack_ok w ch ids now log s off).
  - apply for_slave_ok; [done|]. intros. by exists None.
  - by apply tick_ok.
Qed.

Lemma run_ok evs : ∀ m,
  master_ok m → Forall event_ok evs → ids_fresh (heard m) evs → returns (out_fold (mstep dataset) m evs) master_ok.
Proof.
  induction evs as [|ev evs IH]; intros m HM He Hn; cbn [out_fold]; [by apply returns_ret|]. apply Forall_cons in He as [He1 He].
  destruct (mstep_ok m ev HM He1) as (m' & E & HM').
  { intros c argv Hev. destruct ev as [w ev]. simpl in Hev. subst ev. by destruct Hn. }
  rewrite E. bind_red. apply IH; [done|done|]. pose proof (mstep_heard m ev m' E) as Hh.
  destruct ev as [w ev]. destruct ev; simpl in Hn, Hh; try (eapply ids_fresh_mono; [exact Hh|]; done).
  eapply ids_fresh_mono; [exact Hh|]. by destruct Hn.
Qed.
End streams.

(** C24: a master starts without slaves.  Clients with new ids ask for synchronizations
    at any time (a PSYNC with a number for an offset), snapshots are started for them or
    for other reasons, succeed or fail, commands of users are executed meanwhile and sent
    to all slaves, commands of slaves are executed and sent to the other slaves, sockets
    take as much as they like and break, slaves are lost, the timer runs and frees the
    backlog: no check fails.  (Slaves send commands that get no reply, and ACKs, and send
    nothing while a snapshot for them is being written to disk.)  For every slave that is not about to be closed:
    - while it waits for a snapshot to be started nothing is in its buffers;
    - from the start of its snapshot on there is an offset such that it has been sent, or
      has in its buffers and in the file to be sent, the id of the master and this offset
      (unless it asked with SYNC), newlines, the snapshot of the data set after exactly
      the commands executed before this offset, and then, of the commands executed since,
      exactly those that did not come from the slave itself, in order and nothing else;
    - after a partial resynchronization it has been sent the answer, and then, of the
      commands executed since it was granted, those that did not come from itself.
    This holds also for slaves that share the snapshot of an earlier one, and for slaves
    whose snapshot goes straight to the socket, which are sent no command before they
    acknowledge. *)
Theorem full_sync_streams dataset size m evs :
  (0 < size)%Z → slaves m = [] → repl_backlog (m_ring m) = None → repl_backlog_size (m_ring m) = size →
  Forall (event_ok size) evs → ids_fresh (heard m) evs → returns (out_fold (mstep dataset) m evs) (master_ok dataset size).
Proof.
  intros Hsize Hs Hb Hz He Hn. apply run_ok; [done| |done|done]. split; [done|]. by rewrite Hb.
Qed.

(** ** The other side *)

(** Calls of [readSyncBulkPayload] until the size of the snapshot is known. *)
Fixpoint await_bulk (n : nat) (s : rserver) (mem stream : bytes) : out (rserver * bytes) :=
  match n with
  | 0 => Ret (s, stream)
  | S n =>
    match syncReadLine 1024 stream with
    | None => Ret (s, stream)
    | Some (l, rest) =>
      s ← readSyncBulkPayload (header_env l mem) s;
      if bool_decide (repl_transfer_size (xfer s) = -1)%Z then await_bulk n s mem rest else Ret (s, rest)
    end
  end.

Lemma newline_read s mem :
  repl_transfer_size (xfer s) = (-1)%Z → readSyncBulkPayload (header_env [] mem) s = Ret s.
Proof. intros E. unfold readSyncBulkPayload. by rewrite E. Qed.

Lemma await_newlines nl : ∀ n s mem rest,
  newlines nl → repl_transfer_size (xfer s) = (-1)%Z → length nl ≤ n →
  await_bulk n s mem (nl ++ rest) = await_bulk (n - length nl) s mem rest.
Proof.
  induction nl as [|c nl IH]; intros n s mem rest Hnl Es Hl; [by rewrite Nat.sub_0_r|]. apply Forall_cons in Hnl as [-> Hnl].
  destruct n as [|n]; [simpl in Hl; lia|]. cbn [await_bulk app].
  assert (syncReadLine 1024 (LF :: nl ++ rest) = Some ([], nl ++ rest)) as -> by reflexivity.
  rewrite newline_read by done. bind_red. rewrite bool_decide_eq_true_2 by done. simpl in Hl. rewrite IH by (done || lia). done.
Qed.

(** The announcement fits on one line. *)
Definition line_ok (f : form) : Prop := match f with Count => True | Mark m => LF ∉ m end.

Lemma frame_line f db tail :
  form_ok f db → line_ok f → syncReadLine 1024 (frame f db ++ tail) = Some (announcement f db, payload f db ++ tail).
Proof.
  intros Hf Hl. destruct f as [|m]; cbn [frame announcement payload form_ok line_ok] in *.
  - unfold bulk_of. rewrite <-app_comm_cons, <-!app_assoc, app_comm_cons, fmt_nonneg by lia. rewrite <-!app_assoc.
    apply (read_line_spec _ _ _ []).
    + rewrite <-fmt_nonneg by lia. apply not_elem_of_cons. split; [done|apply fmt_no_newline].
    + pose proof (fmt_length (zlen db) ltac:(unfold LLONG_MIN; lia)) as Hn. rewrite fmt_nonneg in Hn by lia. simpl length.
      etransitivity; [|apply (Nat.le_add_r 24 999)]. lia.
  - destruct Hf as (Hm & _). rewrite <-!app_assoc. rewrite (app_assoc (str "$EOF:") m). apply (read_line_spec _ _ _ []).
    + apply not_elem_of_app. split; [unfold str; concrete|done].
    + rewrite length_app, Hm. apply Nat.leb_le. reflexivity.
Qed.

Lemma await_header f n s mem db tail :
  form_ok f db → line_ok f → repl_state s = REPL_STATE_TRANSFER → repl_backlog (rng s) = None →
  repl_transfer_size (xfer s) = (-1)%Z → repl_transfer_read (xfer s) = 0%Z → x_file (xfer s) = Some [] →
  ∃ x, await_bulk (S n) s mem (frame f db ++ tail) = Ret (set_xfer s x, payload f db ++ tail) ∧ downloading f db [] (set_xfer s x).
Proof.
  intros Hf Hl E1 E2 E3 E4 E5. destruct (header_read f db mem s Hf E1 E2 E3 E4 E5) as (x & E & HD). exists x. split; [|done].
  cbn [await_bulk]. rewrite frame_line, E by done. bind_red. rewrite bool_decide_eq_false_2; [done|].
  destruct HD as (_ & _ & _ & _ & HD). destruct f; [destruct HD as [_ ->]; simpl in Hf; lia|by destruct HD as (_ & -> & _)].
Qed.

(** C25: the slave on the other side of such a connection, waiting for the answer to
    PSYNC, reads the answer, passes over the newlines, and receives the snapshot in reads
    of any sizes, from a file or (before it acknowledges) straight from the process that
    writes it: it ends connected, with the snapshot of the master after the commands
    [l1], the id of the master and the offset of this moment, and what is left to read,
    now and later, is exactly the commands [l2] executed since (less its own). *)
Theorem slave_follows dataset f ids sl l1 l2 e s mem reads :
  full_stream dataset f ids sl l1 l2 → f = Count ∨ put_online_on_ack (s_conn sl) = true → pre_psync (s_conn sl) = false →
  id_ok (replid ids) → (LLONG_MIN ≤ psync_initial_offset sl ≤ LLONG_MAX)%Z →
  form_ok f (dataset l1) → line_ok f → open_ok e = true → Handshake.event_ok e = true →
  Forall (λ n, 0 < n) reads → length (payload f (dataset l1)) ≤ length reads →
  ∃ w0 stream l rest n s1 s2 s3 s4 left,
    s_wire sl = w0 ++ stream
    ∧ syncReadLine 256 stream = Some (l, rest)
    ∧ slaveTryPartialResynchronization (line_env l mem) s = Ret (s1, PSYNC_FULLRESYNC)
    ∧ start_transfer e s1 false = Ret (s2, [])
    ∧ await_bulk n s2 mem rest = Ret (s3, payload f (dataset l1) ++ left)
    ∧ download s3 mem (payload f (dataset l1) ++ left) reads = Ret (s4, left)
    ∧ synchronized s2 s4 (dataset l1) mem ∧ master_replid s2 = replid ids ∧ master_initial_offset s2 = psync_initial_offset sl
    ∧ left ++ pending (s_conn sl) = wire l2.
Proof.
  intros (b & sent & (w0 & nl & Hnl & Hb) & Hw & Hsent & Hack) Hfa Hpre Hid Hoff Hf Hlf Ho Hev Hr Hl.
  set (off := psync_initial_offset sl) in *. set (db := dataset l1) in *.
  unfold opening in Hb. rewrite Hpre in Hb. rewrite Hb in Hw.
  set (l := str "+FULLRESYNC " ++ replid ids ++ " "%char :: fmt off).
  assert (full_line ids off = l ++ CRLF) as El by (unfold full_line, l; by rewrite <-!app_assoc).
  set (s1 := replicationDiscardCachedMaster (set_initial s (replid ids) off)).
  assert (∃ s2, start_transfer e s1 false = Ret (s2, []) ∧ repl_state s2 = REPL_STATE_TRANSFER ∧ repl_backlog (rng s2) = None
    ∧ repl_transfer_size (xfer s2) = (-1)%Z ∧ repl_transfer_read (xfer s2) = 0%Z ∧ x_file (xfer s2) = Some []
    ∧ master_replid s2 = replid ids ∧ master_initial_offset s2 = off) as (s2 & E2 & F1 & F2 & F3 & F4 & F5 & F6 & F7).
  { unfold start_transfer, freeReplicationBacklog. simpl. rewrite Ho, Hev. by eexists. }
  destruct (await_header f 0 s2 mem db sent Hf Hlf F1 F2 F3 F4 F5) as (x & E3 & HD).
  destruct (download_spec f db mem sent reads [] (set_xfer s2 x) (payload f db) Hf HD) as (s4 & E4 & HS); [done| |by destruct Hfa; auto|done|done|].
  { destruct f; simpl in *; intros E; [rewrite E in Hf; unfold zlen in Hf; simpl in Hf; lia|].
    apply app_nil in E as [_ ->]. by destruct Hf. }
  exists w0, (l ++ CRLF ++ nl ++ frame f db ++ sent), l, (nl ++ frame f db ++ sent), (length nl + 1), s1, s2, (set_xfer s2 x), s4, sent.
  split; [by rewrite Hw, El, <-!app_assoc|]. split.
  { pose proof (fmt_length off Hoff). apply id_line_ok; [done|simpl; lia|simpl; lia|unfold str; concrete|].
    apply not_elem_of_cons. split; [done|apply fmt_no_newline]. }
  split; [by apply full_understood|]. split; [done|]. split; [|by split_and!].
  rewrite await_newlines by (done || lia). replace (length nl + 1 - length nl) with 1 by lia. exact E3.
Qed.

(** ** Examples *)

(** Two slaves, the second while the snapshot for the first is being written, with a
    command replicated before and after it has come; the first one is served to the end. *)
Definition sync_dataset (l : list (list bytes)) : bytes := str "RDB" ++ fmt (zlen l).
Definition sync_world (diskless : bool) : world :=
  mk_w (default_env 0) true (λ _, true) (λ _, true) true sample_id (replicate 64 NUL) false (λ _, false) false
    diskless true true sample_id [1; 2] (λ _, [Took 3]) true.
Definition sync_client (fd : Z) : sslave := mk_s fd (mk_o 0 fd 0 false [] 0 [] 0 0) 3 6380 [] 0 0 None 0 None (str "+OK").
Definition sync_master : mserver := mk_ms [] [] (mk_ring None 64 0 0 0 100) (mk_ids [] [] (-1)) None false None [(None, [str "SET"; str "k"; str "v"])].
Definition sync_events : list (world * mevent) := pair (sync_world false) <$>
  [MSync (sync_client 7) [str "PSYNC"; str "?"; str "-1"]; MFeed [Raw (str "union"); IntObj 5]; MTick;
   MSync (sync_client 8) [str "PSYNC"; str "?"; str "-1"]; MFeed [Raw (str "PING")]; MSaved true;
   MBulk 0 (Wrote 3) Again; MBulk 0 (Wrote 100) (Wrote 2); MBulk 0 Again (Wrote 100);
   MFeedEx 7 [Raw (str "split"); Raw (str "a")]; MFeedEx 8 [Raw (str "find")]; MFlush 0 [Wrote 10; Wrote 200]].

Lemma sync_events_ok : Forall (event_ok 64) sync_events.
Proof.
  assert (∀ fd, (0 < fd)%Z → fresh_client (s_conn (sync_client fd))) as Hf.
  { intros fd Hfd. split; [split; [done|done|by left]|by apply Forall_nil|split_and!; reflexivity|done]. }
  assert (∀ argv, Forall (λ o, match o with Raw a => (zlen a <= LLONG_MAX)%Z | IntObj n => n = 5%Z end) argv →
    (zlen argv ≤ LLONG_MAX)%Z → Forall in_range argv ∧ sized (texts argv)) as Ha.
  { intros argv H Hz. split; [|split; [by rewrite texts_zlen|]].
    - eapply Forall_impl; [exact H|]. intros [a|n]; [done|]. intros ->. unfold in_range, LLONG_MIN, LLONG_MAX. lia.
    - apply Forall_fmap. eapply Forall_impl; [exact H|]. intros [a|n]; [done|]. intros ->. by vm_compute. }
  unfold sync_events. repeat (apply Forall_cons; split).
  all: try exact I; try (split; [by apply Hf|by split]); try (by apply Forall_nil).
  all: apply Ha; [repeat constructor; vm_compute; congruence|vm_compute; congruence].
Qed.

Lemma sync_events_fresh : ids_fresh (heard sync_master) sync_events.
Proof. simpl. split; [apply not_elem_of_nil|]. split; [apply not_elem_of_nil|exact I]. Qed.

Lemma full_sync_streams_witness :
  ∃ m, out_fold (mstep sync_dataset) sync_master sync_events = Ret m ∧ master_ok sync_dataset 64 m
    ∧ s_wire <$> head (slaves m) = Some (str "+OK+FULLRESYNC " ++ sample_id ++ str " 100" ++ CRLF ++ [LF] ++ str "$4" ++ CRLF
        ++ str "RDB1" ++ str "*2" ++ CRLF ++ str "$5" ++ CRLF ++ str "union" ++ CRLF ++ str "$1" ++ CRLF ++ str "5" ++ CRLF
        ++ str "*1" ++ CRLF ++ str "$4" ++ CRLF ++ str "PING" ++ CRLF ++ str "*1" ++ CRLF ++ str "$4" ++ CRLF ++ str "find" ++ CRLF).
Proof.
  destruct (full_sync_streams sync_dataset 64 sync_master sync_events) as (m & E & HM).
  - lia.
  - reflexivity.
  - reflexivity.
  - reflexivity.
  - exact sync_events_ok.
  - exact sync_events_fresh.
  - exists m. split; [exact E|]. split; [exact HM|]. vm_compute in E. injection E as <-. vm_compute. reflexivity.
Defined.

Lemma slave_follows_witness :
  let l2 := [[str "union"; str "x"]] in
  let sl := put_wire (set_offset (sync_client 7) 100) (full_line (mk_ids sample_id [] (-1)) 100 ++ [LF] ++ bulk_of (sync_dataset []) ++ wire l2) in
  ∃ w0 stream l rest n s1 s2 s3 s4 left,
    s_wire sl = w0 ++ stream
    ∧ syncReadLine 256 stream = Some (l, rest)
    ∧ slaveTryPartialResynchronization (line_env l []) (sample_slave REPL_STATE_RECEIVE_PSYNC) = Ret (s1, PSYNC_FULLRESYNC)
    ∧ start_transfer (line_env [] []) s1 false = Ret (s2, [])
    ∧ await_bulk n s2 [] rest = Ret (s3, sync_dataset [] ++ left)
    ∧ download s3 [] (sync_dataset [] ++ left) (replicate 6 2) = Ret (s4, left)
    ∧ synchronized s2 s4 (sync_dataset []) [] ∧ master_replid s2 = sample_id ∧ master_initial_offset s2 = 100%Z
    ∧ left ++ [] = wire l2.
Proof.
  intros l2 sl.
  apply (slave_follows sync_dataset Count (mk_ids sample_id [] (-1)) sl [] l2 (line_env [] [])
           (sample_slave REPL_STATE_RECEIVE_PSYNC) [] (replicate 6 2)).
  - exists (str "+OK" ++ full_line (mk_ids sample_id [] (-1)) 100 ++ [LF]), (wire l2).
    split; [exists (str "+OK"), [LF]; split; [by apply Forall_cons_2; [|apply Forall_nil]|reflexivity]|].
    split; [vm_compute; reflexivity|]. split; [reflexivity|discriminate].
  - by left.
  - reflexivity.
  - exact sample_id_ok.
  - unfold LLONG_MIN, LLONG_MAX. simpl. lia.
  - vm_compute. split; [reflexivity|discriminate].
  - exact I.
  - reflexivity.
  - reflexivity.
  - apply Forall_replicate. lia.
  - vm_compute. lia.
Defined.

(** The same slaves served straight from the process: the timer starts it, and what was
    executed meanwhile is sent after the slave has acknowledged. *)
Lemma diskless_run :
  ∃ m, out_fold (mstep sync_dataset) sync_master (pair (sync_world true) <$>
      [MSync (sync_client 7) [str "PSYNC"; str "?"; str "-1"]; MSync (sync_client 8) [str "PSYNC"; str "?"; str "-1"]; MTick;
       MFeed [Raw (str "PING")]; MSaved true; MFlush 0 [Wrote 100]; MFlush 1 [Wrote 100]; MAck 1 (str "100"); MFlush 1 [Wrote 100]]) = Ret m
    ∧ let sent := str "+OK" ++ [LF] ++ str "+FULLRESYNC " ++ sample_id ++ str " 100" ++ CRLF ++ frame (Mark sample_id) (str "RDB1") in
      s_wire <$> slaves m = [sent; sent ++ encode [str "PING"]].
Proof. eexists. split; [vm_compute; reflexivity|]. vm_compute. reflexivity. Qed.

(** PSYNC with an offset that is no number goes on with a full synchronization, but the
    error it was answered is in the buffer of the slave, ahead of the stream. *)
Lemma psync_offset_error :
  ('(m, _) ← syncCommand sync_dataset (sync_world false) sync_master (sync_client 7) [str "PSYNC"; str "?"; str "none"];
   Ret ((λ s, (s_state s, pending (s_conn s))) <$> slaves m))
  = Ret [(SLAVE_STATE_WAIT_BGSAVE_END, str "-ERR value is not an integer or out of range" ++ CRLF)].
Proof. vm_compute. reflexivity. Qed.
