(* ===== verification/Wait.v ===== *)
(** * WAIT: synchronous replication

    src/src/replication.c (waitCommand, replicationCountAcksByOffset,
    processClientsWaitingReplicas), src/src/blocked.c and the parts of beforeSleep and
    clientsCronHandleTimeout in src/src/server.c for clients blocked in WAIT, on the master
    of SyncMaster.

    The theorem: clients are let go exactly when enough slaves have acknowledged, although
    the code counts the slaves only for some of them. *)
From Stdlib Require Import Ascii.
From S2P Require Import Prelude Sds GraphText Util Resp Call Backlog Gate Output Handshake Psync Fdset SyncMaster.

Definition CLIENT_BLOCKED : Z := Z.shiftl 1 4.
Definition CLIENT_UNBLOCKED : Z := Z.shiftl 1 7.

(** A client: [woff] is the offset after its last command, [reploffset], [numreplicas] and
    [timeout] its blocking state. *)
Record wclient := mk_wc { wc_flags : Z; woff : Z; timeout : Z; reploffset : Z; numreplicas : Z }.

Definition set_wflags (c : wclient) (f : Z) : wclient := mk_wc f (woff c) (timeout c) (reploffset c) (numreplicas c).
Definition set_bpop (c : wclient) (t off n : Z) : wclient := mk_wc (wc_flags c) (woff c) t off n.

Inductive wreply := WError (e : string) | WInt (n : Z).

(** [answered]: the replies, in order. *)
Record wserver := mk_ws {
  ws_m : mserver; clients_waiting_acks : list wclient; get_ack_from_slaves : bool;
  unblocked_clients : list wclient; answered : list (wclient * wreply) }.

(** A sum of [long long]; where it does not fit C leaves it open, and two's complement
    is taken here. *)
Definition llong_of (z : Z) : Z := ((z + 2 ^ 63) mod 2 ^ 64 - 2 ^ 63)%Z.

(** [None] is C_ERR with the reply given. *)
Definition getTimeoutFromObjectOrReply (arg : bytes) (mstime : Z) : Z + string :=
  match string2ll arg with
  | None => inr "timeout is not an integer or out of range"
  | Some tval =>
    if bool_decide (tval < 0)%Z then inr "timeout is negative"
    else if bool_decide (tval > 0)%Z then inl (llong_of (tval + mstime)) else inl tval
  end.

Definition replicationCountAcksByOffset (l : list sslave) (offset : Z) : Z :=
  zlen (filter (λ s, s_state s = SLAVE_STATE_ONLINE ∧ (offset ≤ repl_ack_off s)%Z) l).

Definition blockClient (c : wclient) : wclient := set_wflags c (Z.lor (wc_flags c) CLIENT_BLOCKED).

(** [unblockClient] after the client was taken off the list; it is not entered twice
    among those to be served. *)
Definition unblockClient (s : wserver) (c : wclient) : wserver :=
  let c := set_wflags c (Z.ldiff (wc_flags c) CLIENT_BLOCKED) in
  if has (wc_flags c) CLIENT_UNBLOCKED then s
  else mk_ws (ws_m s) (clients_waiting_acks s) (get_ack_from_slaves s)
         (unblocked_clients s ++ [set_wflags c (Z.lor (wc_flags c) CLIENT_UNBLOCKED)]) (answered s).

Definition set_waiting (s : wserver) (l : list wclient) (ack : bool) : wserver :=
  mk_ws (ws_m s) l ack (unblocked_clients s) (answered s).
Definition reply_to (s : wserver) (c : wclient) (r : wreply) : wserver :=
  mk_ws (ws_m s) (clients_waiting_acks s) (get_ack_from_slaves s) (unblocked_clients s) (answered s ++ [(c, r)]).

(** [slave]: the instance has a master. *)
Definition waitCommand (s : wserver) (c : wclient) (slave : bool) (mstime : Z) (a1 a2 : bytes) : wserver :=
  if slave then
    reply_to s c (WError "WAIT cannot be used with slave instances. Please also note that since Redis 4.0 if a slave is configured to be writable (which is not the default) writes to slaves are just local and are not propagated.")
  else
    match string2ll a1 with
    | None => reply_to s c (WError "value is not an integer or out of range")
    | Some n =>
      match getTimeoutFromObjectOrReply a2 mstime with
      | inr e => reply_to s c (WError e)
      | inl t =>
        let ackreplicas := replicationCountAcksByOffset (slaves (ws_m s)) (woff c) in
        if bool_decide (n ≤ ackreplicas)%Z || has (wc_flags c) CLIENT_MULTI then reply_to s c (WInt ackreplicas)
        else
          let c := set_bpop c t (woff c) (int_of n) in
          set_waiting s (clients_waiting_acks s ++ [blockClient c]) true
      end
    end.

(** The loop over the clients that wait: those that stay, and those that are let go with
    their replies.  The last count is used again for clients that ask for less. *)
Fixpoint waiting_loop (l : list sslave) (last_offset last_numreplicas : Z) (cs : list wclient)
    : list wclient * list (wclient * Z) :=
  match cs with
  | [] => ([], [])
  | c :: cs =>
    if bool_decide (last_offset ≠ 0)%Z && bool_decide (last_offset > reploffset c)%Z && bool_decide (last_numreplicas > numreplicas c)%Z then
      let '(stay, go) := waiting_loop l last_offset last_numreplicas cs in (stay, (c, last_numreplicas) :: go)
    else
      let n := replicationCountAcksByOffset l (reploffset c) in
      if bool_decide (n >= numreplicas c)%Z then
        let '(stay, go) := waiting_loop l (reploffset c) n cs in (stay, (c, n) :: go)
      else let '(stay, go) := waiting_loop l last_offset last_numreplicas cs in (c :: stay, go)
  end.

Definition let_go (s : wserver) (p : wclient * Z) : wserver := reply_to (unblockClient s p.1) p.1 (WInt p.2).

Definition processClientsWaitingReplicas (s : wserver) : wserver :=
  let '(stay, go) := waiting_loop (slaves (ws_m s)) 0 0 (clients_waiting_acks s) in
  foldl let_go (set_waiting s stay (get_ack_from_slaves s)) go.

(** The part of [beforeSleep]: slaves are asked for an ACK, in the stream. *)
Definition getack : list robj := [Raw (str "REPLCONF"); Raw (str "GETACK"); Raw (str "*")].

Definition beforeSleep (w : world) (s : wserver) : out wserver :=
  s ← (if get_ack_from_slaves s then
         m ← replicationFeedSlaves w (execute (ws_m s) getack) getack;
         Ret (mk_ws m (clients_waiting_acks s) false (unblocked_clients s) (answered s))
       else Ret s);
  Ret (if bool_decide (clients_waiting_acks s = []) then s else processClientsWaitingReplicas s).

(** The timer, for a client blocked in WAIT (number [i] of the list). *)
Definition clientsCronHandleTimeout (s : wserver) (i : nat) (now_ms : Z) : wserver :=
  match clients_waiting_acks s !! i with
  | None => s
  | Some c =>
    if bool_decide (timeout c ≠ 0)%Z && bool_decide (timeout c < now_ms)%Z then
      let s := reply_to s c (WInt (replicationCountAcksByOffset (slaves (ws_m s)) (reploffset c))) in
      unblockClient (set_waiting s (delete i (clients_waiting_acks s)) (get_ack_from_slaves s)) c
    else s
  end.

(** ** Counting *)

Lemma filter_length_mono {A} (P Q : A → Prop) `{!∀ x, Decision (P x), !∀ x, Decision (Q x)} (l : list A) :
  (∀ x, P x → Q x) → length (filter P l) ≤ length (filter Q l).
Proof.
  intros HPQ. induction l as [|x l IH]; [done|]. rewrite !filter_cons. destruct (decide (P x)) as [HP|HP].
  - rewrite decide_True by auto. simpl. lia.
  - destruct (decide (Q x)); simpl; lia.
Qed.

(** The lower the offset the more slaves have reached it. *)
Lemma count_mono l off off' :
  (off' ≤ off)%Z → (replicationCountAcksByOffset l off ≤ replicationCountAcksByOffset l off')%Z.
Proof.
  intros H. unfold replicationCountAcksByOffset, zlen. apply Nat2Z.inj_le, filter_length_mono. intros s [H1 H2]. split; [done|lia].
Qed.

(** What a client asks for. *)
Definition enough (l : list sslave) (c : wclient) : Prop := (numreplicas c ≤ replicationCountAcksByOffset l (reploffset c))%Z.
Global Instance enough_dec l c : Decision (enough l c) := Z_le_dec _ _.

Lemma waiting_loop_spec l cs : ∀ last n,
  last = 0%Z ∨ (n ≤ replicationCountAcksByOffset l last)%Z →
  let '(stay, go) := waiting_loop l last n cs in
  stay = filter (λ c, ¬ enough l c) cs ∧ go.*1 = filter (enough l) cs
  ∧ Forall (λ p, (numreplicas p.1 ≤ p.2 ≤ replicationCountAcksByOffset l (reploffset p.1))%Z) go.
Proof.
  induction cs as [|c cs IH]; intros last n Hn; [done|]. cbn [waiting_loop]. rewrite !filter_cons.
  destruct (bool_decide (last ≠ 0)%Z && bool_decide (last > reploffset c)%Z && bool_decide (n > numreplicas c)%Z) eqn:Eg.
  - rewrite !andb_true_iff, !bool_decide_eq_true in Eg. destruct Eg as [[Hl Ho] Hc]. destruct Hn as [|Hn]; [done|].
    pose proof (count_mono l last (reploffset c) ltac:(lia)) as Hm.
    assert (enough l c) as He by (unfold enough; lia). rewrite (decide_True _ _ He), decide_False by tauto.
    specialize (IH last n (or_intror Hn)). destruct (waiting_loop l last n cs) as [stay go]. destruct IH as (-> & <- & IH).
    split; [done|]. split; [done|]. constructor; [simpl; lia|done].
  - clear Eg. case_bool_decide as Hc.
    + assert (enough l c) as He by (unfold enough; lia). rewrite (decide_True _ _ He), decide_False by tauto.
      specialize (IH (reploffset c) (replicationCountAcksByOffset l (reploffset c)) (or_intror (Z.le_refl _))).
      destruct (waiting_loop l (reploffset c) _ cs) as [stay go]. destruct IH as (-> & <- & IH).
      split; [done|]. split; [done|]. constructor; [simpl; lia|done].
    + assert (¬ enough l c) as He by (unfold enough; lia). rewrite (decide_False _ _ He), decide_True by done.
      specialize (IH last n Hn). destruct (waiting_loop l last n cs) as [stay go]. by destruct IH as (-> & <- & IH).
Qed.

Lemma let_go_spec go : ∀ s,
  let s' := foldl let_go s go in
  ws_m s' = ws_m s ∧ clients_waiting_acks s' = clients_waiting_acks s ∧ get_ack_from_slaves s' = get_ack_from_slaves s
  ∧ answered s' = answered s ++ ((λ p, (p.1, WInt p.2)) <$> go).
Proof.
  induction go as [|p go IH]; intros s; simpl; [by rewrite app_nil_r|]. destruct (IH (let_go s p)) as (-> & -> & -> & ->).
  unfold let_go, unblockClient. destruct (has _ CLIENT_UNBLOCKED); simpl; by rewrite <-app_assoc.
Qed.

(** C26: before the server sleeps, slaves are asked to acknowledge (which does not disturb
    what they are sent) when a client has begun to wait.  Then exactly the clients are let
    go for which enough slaves have acknowledged the offset of their last command; each is
    told a number of slaves that is at least what it asked for and at most the number that
    have acknowledged.  The others stay in the list, in order. *)
Theorem wait_answered dataset size w s :
  (0 < size)%Z → master_ok dataset size (ws_m s) →
  returns (beforeSleep w s) (λ s',
    let l := slaves (ws_m s') in
    master_ok dataset size (ws_m s') ∧ get_ack_from_slaves s' = false
    ∧ clients_waiting_acks s' = filter (λ c, ¬ enough l c) (clients_waiting_acks s)
    ∧ ∃ go, answered s' = answered s ++ ((λ p, (p.1, WInt p.2)) <$> go) ∧ go.*1 = filter (enough l) (clients_waiting_acks s)
      ∧ Forall (λ p, (numreplicas p.1 ≤ p.2 ≤ replicationCountAcksByOffset l (reploffset p.1))%Z) go).
Proof.
  intros Hsize HM. unfold beforeSleep.
  eapply returns_bind with (P := λ s1, master_ok dataset size (ws_m s1) ∧ get_ack_from_slaves s1 = false
    ∧ clients_waiting_acks s1 = clients_waiting_acks s ∧ answered s1 = answered s).
  { destruct (get_ack_from_slaves s) eqn:Eg; [|by apply returns_ret]. eapply returns_bind.
    - apply (feed_master_ok dataset size w (ws_m s) getack); [done|by repeat constructor|].
      split; [vm_compute; congruence|]. repeat constructor; vm_compute; congruence.
    - intros m Hm. by apply returns_ret. }
  intros s1 (H1 & H2 & <- & <-). apply returns_ret. case_bool_decide as Hn.
  - rewrite Hn. split; [done|]. split; [done|]. split; [done|]. exists []. by rewrite app_nil_r.
  - unfold processClientsWaitingReplicas. pose proof (waiting_loop_spec (slaves (ws_m s1)) (clients_waiting_acks s1) 0 0 (or_introl eq_refl)) as Hl.
    destruct (waiting_loop _ 0 0 _) as [stay go]. destruct Hl as (-> & Hgo & Hr).
    destruct (let_go_spec go (set_waiting s1 (filter (λ c, ¬ enough (slaves (ws_m s1)) c) (clients_waiting_acks s1)) (get_ack_from_slaves s1)))
      as (-> & -> & -> & ->). simpl. split; [done|]. split; [done|]. split; [done|]. by exists go.
Qed.

(** ** Examples *)

(** One slave is there and has acknowledged 100.  A client asks for it at offset 90, and
    another one for two slaves; the third asks for 2^32, of which nothing is left in an
    int. *)
Definition wait_slave (ack : Z) : sslave := set_ack (set_conn (sync_client 7) (online_slave (s_conn (sync_client 7)))) ack.
Definition wait_state : wserver :=
  let s := mk_ws (set_slaves sync_master [wait_slave 100]) [] false [] [] in
  let s := waitCommand s (mk_wc 0 120 0 0 0) false 0 (str "1") (str "0") in
  let s := waitCommand s (mk_wc 0 90 0 0 0) false 0 (str "2") (str "500") in
  waitCommand s (mk_wc 0 90 0 0 0) false 0 (str "4294967296") (str "0").

(** The one that asked for more slaves than there can ever be is answered at once, the
    first one after an ACK of 130. *)
Lemma wait_truncates :
  let s := processClientsWaitingReplicas wait_state in
  snd <$> answered s = [WInt 1]
  ∧ numreplicas <$> clients_waiting_acks wait_state = [1; 2; 0]%Z
  ∧ snd <$> answered (processClientsWaitingReplicas (mk_ws (set_slaves sync_master [wait_slave 130]) (clients_waiting_acks s) false [] [])) = [WInt 1].
Proof. vm_compute. done. Qed.

(** A timeout of almost 2^63 milliseconds is over at once. *)
Lemma wait_timeout_overflows :
  let s := mk_ws (set_slaves sync_master [wait_slave 100]) [] false [] [] in
  let s := waitCommand s (mk_wc 0 120 0 0 0) false 1000 (str "1") (str "9223372036854775807") in
  snd <$> answered (clientsCronHandleTimeout s 0 1001) = [WInt 0].
Proof. vm_compute. done. Qed.

(** After the run of SyncMaster, with two slaves. *)
Lemma wait_answered_witness :
  ∃ m, out_fold (mstep sync_dataset) sync_master sync_events = Ret m ∧ length (slaves m) = 2
    ∧ let s := mk_ws m (clients_waiting_acks wait_state) true [] [] in
      returns (beforeSleep (sync_world false) s) (λ s',
        let l := slaves (ws_m s') in
        master_ok sync_dataset 64 (ws_m s') ∧ get_ack_from_slaves s' = false
        ∧ clients_waiting_acks s' = filter (λ c, ¬ enough l c) (clients_waiting_acks s)
        ∧ ∃ go, answered s' = answered s ++ ((λ p, (p.1, WInt p.2)) <$> go) ∧ go.*1 = filter (enough l) (clients_waiting_acks s)
          ∧ Forall (λ p, (numreplicas p.1 ≤ p.2 ≤ replicationCountAcksByOffset l (reploffset p.1))%Z) go).
Proof.
  destruct (run_ok sync_dataset 64 ltac:(lia) sync_events sync_master) as (m & E & HM); [split; reflexivity|exact sync_events_ok|exact sync_events_fresh|].
  exists m. split; [exact E|]. split; [vm_compute in E; injection E as <-; reflexivity|]. intros s.
  apply (wait_answered sync_dataset 64 (sync_world false) s); [lia|exact HM].
Defined.
