(* ===== verification/Multi.v ===== *)
(** * Transactions

    src/src/multi.c: MULTI, EXEC, DISCARD, WATCH and UNWATCH.  The watched keys are
    stored twice: every client has the list of the keys it watches, and every
    database has a hash table from keys to lists of clients.  A key that is modified
    is looked up in the table, and the clients in its list are marked.

    Databases and clients are numbered by their positions in [server.db] and
    [server.clients].  The lists of clients are shared between the tables and the
    code that changes them in place: the tables hold pointers into a heap of lists,
    and a list that has been freed is no longer there. *)
From stdpp Require Import gmap.
From S2P Require Import Prelude Sds Call Dict DictMap Gate.

(** The same length and the same bytes. *)
Definition dictSdsKeyCompare (key1 key2 : bytes) : bool := bool_decide (key1 = key2).

(** The replies of these commands. *)
Inductive mreply :=
  | ReplyOk | MultiNested | DiscardWithoutMulti | ExecWithoutMulti | WatchInsideMulti | ExecAborted | NullMultiBulk
  | MultiBulkLen (n : nat).

(** [O] are the objects in the databases, [Q] the queued commands. *)
Record redisDb (O : Type) := mk_db { db_dict : dict bytes O; db_watched : dict bytes nat }.
Arguments mk_db {O}.
Arguments db_dict {O}.
Arguments db_watched {O}.

Record mclient (Q : Type) := mk_mclient {
  m_flags : Z; m_db : nat; mstate : list Q; watched_keys : list (nat * bytes) }.
Arguments mk_mclient {Q}.
Arguments m_flags {Q}.
Arguments m_db {Q}.
Arguments mstate {Q}.
Arguments watched_keys {Q}.

Record world (O Q : Type) := mk_world {
  dbs : list (redisDb O); lists : gmap nat (list nat); next_list : nat; mclients : list (mclient Q) }.
Arguments mk_world {O Q}.
Arguments dbs {O Q}.
Arguments lists {O Q}.
Arguments next_list {O Q}.
Arguments mclients {O Q}.

(** What EXEC needs of the rest of the server, whose state is [X]: replies, running a
    queued command (which may change its arguments), the flags of a command, sending
    MULTI to slaves and append only file, setting the arguments of the client back to
    what they were, whether the server is a master, and writing EXEC to the backlog
    if there is one. *)
Record xops (O Q X : Type) := mk_xops {
  x_reply : X → nat → mreply → X;
  x_call : X → world O Q → nat → Q → out (X * world O Q * Q);
  x_flags : Q → Z;
  x_multi : X → out X;
  x_restore : X → X → X;
  x_master : X → bool;
  x_exec : X → out X }.
Arguments mk_xops {O Q X}.
Arguments x_reply {O Q X}.
Arguments x_call {O Q X}.
Arguments x_flags {O Q X}.
Arguments x_multi {O Q X}.
Arguments x_restore {O Q X}.
Arguments x_master {O Q X}.
Arguments x_exec {O Q X}.

Section multi.
Context {O Q : Type} (hash : bytes → Z).
Implicit Types (w : world O Q) (c : nat) (cl : mclient Q).

(** ** Access to the parts of the state *)

Definition get_db w (i : nat) : out (redisDb O) :=
  match dbs w !! i with Some db => Ret db | None => Fail OutOfBounds end.
Definition get_list w (p : nat) : out (list nat) :=
  match lists w !! p with Some l => Ret l | None => Fail OutOfBounds end.
Definition get_client w c : out (mclient Q) :=
  match mclients w !! c with Some cl => Ret cl | None => Fail OutOfBounds end.

Definition set_db w (i : nat) (db : redisDb O) : world O Q :=
  mk_world (<[i := db]> (dbs w)) (lists w) (next_list w) (mclients w).
Definition set_watched w (i : nat) (db : redisDb O) (d : dict bytes nat) : world O Q :=
  set_db w i (mk_db (db_dict db) d).
Definition set_list w (p : nat) (l : list nat) : world O Q :=
  mk_world (dbs w) (<[p := l]> (lists w)) (next_list w) (mclients w).
Definition free_list w (p : nat) : world O Q :=
  mk_world (dbs w) (delete p (lists w)) (next_list w) (mclients w).
Definition set_client w c cl : world O Q :=
  mk_world (dbs w) (lists w) (next_list w) (<[c := cl]> (mclients w)).

Definition with_flags cl (f : Z) : mclient Q := mk_mclient f (m_db cl) (mstate cl) (watched_keys cl).
Definition with_mstate cl (q : list Q) : mclient Q := mk_mclient (m_flags cl) (m_db cl) q (watched_keys cl).
Definition with_watched cl (ks : list (nat * bytes)) : mclient Q := mk_mclient (m_flags cl) (m_db cl) (mstate cl) ks.

(** [listCreate]: a new empty list. *)
Definition new_list w : world O Q * nat :=
  (mk_world (dbs w) (<[next_list w := []]> (lists w)) (S (next_list w)) (mclients w), next_list w).

(** ** Watched keys *)

(** The list of clients of a key, created when there is none. *)
Definition clients_of (can : bool) w (i : nat) (key : bytes) : out (world O Q * nat) :=
  db ← get_db w i;
  '(d, r) ← dictFetchValue hash dictSdsKeyCompare (db_watched db) key;
  match r with
  | Some p => Ret (set_watched w i db d, p)
  | None =>
    let '(w, p) := new_list w in
    '(d, _) ← dictAdd hash dictSdsKeyCompare can d key p;
    Ret (set_watched w i db d, p)
  end.

Definition watchForKey (can : bool) w c (key : bytes) : out (world O Q) :=
  cl ← get_client w c;
  if existsb (λ wk, bool_decide (wk.1 = m_db cl) && bool_decide (key = wk.2)) (watched_keys cl) then Ret w
  else
    '(w, p) ← clients_of can w (m_db cl) key;
    l ← get_list w p;
    Ret (set_client (set_list w p (l ++ [c])) c (with_watched cl (watched_keys cl ++ [(m_db cl, key)]))).

(** One watched key, the first of the list of the client. *)
Definition unwatch_key w c (wk : nat * bytes) : out (world O Q) :=
  db ← get_db w wk.1;
  '(d, r) ← dictFetchValue hash dictSdsKeyCompare (db_watched db) wk.2;
  match r with
  | None => Fail AssertFail
  | Some p =>
    l ← get_list w p;
    match list_find (λ x, x = c) l with
    | None => Fail NullDeref
    | Some (j, _) =>
      let l := delete j l in
      w ← (if bool_decide (l = []) then
             '(d, _) ← dictDelete hash dictSdsKeyCompare d wk.2;
             Ret (free_list (set_watched w wk.1 db d) p)
           else Ret (set_list (set_watched w wk.1 db d) p l));
      cl ← get_client w c;
      Ret (set_client w c (with_watched cl (tail (watched_keys cl))))
    end
  end.

Definition unwatchAllKeys w c : out (world O Q) :=
  cl ← get_client w c;
  out_fold (λ w wk, unwatch_key w c wk) w (watched_keys cl).

Definition mark w c : out (world O Q) :=
  cl ← get_client w c; Ret (set_client w c (with_flags cl (Z.lor (m_flags cl) CLIENT_DIRTY_CAS))).

Definition touchWatchedKey w (i : nat) (key : bytes) : out (world O Q) :=
  db ← get_db w i;
  if bool_decide (dictSize (db_watched db) = 0)%Z then Ret w
  else
    '(d, r) ← dictFetchValue hash dictSdsKeyCompare (db_watched db) key;
    let w := set_watched w i db d in
    match r with
    | None => Ret w
    | Some p => l ← get_list w p; out_fold mark w l
    end.

(** The watched keys of one client when a database ([None] for all) is flushed. *)
Definition flush_key (dbid : option nat) c w (wk : nat * bytes) : out (world O Q) :=
  if bool_decide (dbid = None ∨ dbid = Some wk.1) then
    db ← get_db w wk.1;
    '(d, r) ← dictFind hash dictSdsKeyCompare (db_dict db) wk.2;
    let w := set_db w wk.1 (mk_db d (db_watched db)) in
    match r with Some _ => mark w c | None => Ret w end
  else Ret w.

Definition touchWatchedKeysOnFlush w (dbid : option nat) : out (world O Q) :=
  out_fold (λ w c, cl ← get_client w c; out_fold (flush_key dbid c) w (watched_keys cl)) w (seq 0 (length (mclients w))).

(** ** Transactions *)

(** [freeClientMultiState] and [initClientMultiState] on the queue. *)
Definition discardTransaction w c : out (world O Q) :=
  cl ← get_client w c;
  unwatchAllKeys (set_client w c (with_flags (with_mstate cl [])
    (Z.ldiff (m_flags cl) (Z.lor (Z.lor CLIENT_MULTI CLIENT_DIRTY_CAS) CLIENT_DIRTY_EXEC)))) c.

Definition queueMultiCommand w c (q : Q) : out (world O Q) :=
  cl ← get_client w c; Ret (set_client w c (with_mstate cl (mstate cl ++ [q]))).

Definition flagTransaction w c : out (world O Q) :=
  cl ← get_client w c;
  Ret (if has (m_flags cl) CLIENT_MULTI
       then set_client w c (with_flags cl (Z.lor (m_flags cl) CLIENT_DIRTY_EXEC)) else w).

Definition selectDb w c (i : nat) : out (world O Q) :=
  cl ← get_client w c;
  Ret (if bool_decide (i < length (dbs w)) then set_client w c (mk_mclient (m_flags cl) i (mstate cl) (watched_keys cl)) else w).

Section commands.
Context {X : Type} (ops : xops O Q X).
Implicit Types (x : X).

Definition multiCommand x w c : out (X * world O Q) :=
  cl ← get_client w c;
  if has (m_flags cl) CLIENT_MULTI then Ret (x_reply ops x c MultiNested, w)
  else Ret (x_reply ops x c ReplyOk, set_client w c (with_flags cl (Z.lor (m_flags cl) CLIENT_MULTI))).

Definition discardCommand x w c : out (X * world O Q) :=
  cl ← get_client w c;
  if negb (has (m_flags cl) CLIENT_MULTI) then Ret (x_reply ops x c DiscardWithoutMulti, w)
  else w ← discardTransaction w c; Ret (x_reply ops x c ReplyOk, w).

Definition watchCommand (can : bool) x w c (keys : list bytes) : out (X * world O Q) :=
  cl ← get_client w c;
  if has (m_flags cl) CLIENT_MULTI then Ret (x_reply ops x c WatchInsideMulti, w)
  else w ← out_fold (λ w k, watchForKey can w c k) w keys; Ret (x_reply ops x c ReplyOk, w).

Definition unwatchCommand x w c : out (X * world O Q) :=
  w ← unwatchAllKeys w c;
  cl ← get_client w c;
  Ret (x_reply ops x c ReplyOk, set_client w c (with_flags cl (Z.ldiff (m_flags cl) CLIENT_DIRTY_CAS))).

(** MULTI is sent once, before the first command that is neither read-only nor
    administrative. *)
Definition propagate_once x (q : Q) (must_propagate : bool) : out (X * bool) :=
  if negb must_propagate && negb (has (x_flags ops q) (Z.lor Table.CMD_READONLY Table.CMD_ADMIN))
  then x ← x_multi ops x; Ret (x, true)
  else Ret (x, must_propagate).

(** The loop over the queue: the commands as they are after they ran, and whether
    MULTI has been sent. *)
Fixpoint exec_loop x w c (qs : list Q) (must_propagate : bool) : out (X * world O Q * list Q * bool) :=
  match qs with
  | [] => Ret (x, w, [], must_propagate)
  | q :: qs =>
    '(x, must_propagate) ← propagate_once x q must_propagate;
    '(x, w, q) ← x_call ops x w c q;
    '(x, w, qs, must_propagate) ← exec_loop x w c qs must_propagate;
    Ret (x, w, q :: qs, must_propagate)
  end.

(** The flag of the result: [server.dirty] was incremented. *)
Definition execCommand x w c : out (X * world O Q * bool) :=
  let was_master := x_master ops x in
  let orig := x in
  cl ← get_client w c;
  if negb (has (m_flags cl) CLIENT_MULTI) then Ret (x_reply ops x c ExecWithoutMulti, w, false)
  else if has (m_flags cl) (Z.lor CLIENT_DIRTY_CAS CLIENT_DIRTY_EXEC) then
    let x := x_reply ops x c (if has (m_flags cl) CLIENT_DIRTY_EXEC then ExecAborted else NullMultiBulk) in
    w ← discardTransaction w c; Ret (x, w, false)
  else
    w ← unwatchAllKeys w c;
    let x := x_reply ops x c (MultiBulkLen (length (mstate cl))) in
    '(x, w, qs, must_propagate) ← exec_loop x w c (mstate cl) false;
    let x := x_restore ops orig x in
    cl ← get_client w c;
    w ← discardTransaction (set_client w c (with_mstate cl qs)) c;
    if (must_propagate : bool) then
      x ← (if was_master && negb (x_master ops x) then x_exec ops x else Ret x);
      Ret (x, w, true)
    else Ret (x, w, false).
End commands.
End multi.
