(* ===== verification/Watch.v ===== *)
(** * Watched keys

    The two representations of the watched keys in Multi.v agree: the hash tables of
    the databases are an index of the lists of the clients.  On that, transactions
    with WATCH refine a specification without the index: a client has a set of
    watched keys, a modification of a key marks the clients that watch it, and EXEC
    runs the queue exactly when the client is not marked. *)
From stdpp Require Import gmap.
From S2P Require Import Prelude Sds Call Dict DictMap Table Gate Multi.

Section index.
Context {O Q : Type} (hash : bytes → Z) (Hrange : ∀ s, (0 ≤ hash s < 2 ^ 64)%Z).
Implicit Types (w : world O Q) (i : nat) (k : bytes) (c p : nat).

#[local] Instance sds_dict_type : DictType hash dictSdsKeyCompare id (λ _, True).
Proof.
  split; [exact Hrange|by intros k1 k2 _ _ [= ->]|]. intros k1 k2 _ _. unfold dictSdsKeyCompare. apply bool_decide_eq_true.
Qed.

Notation fine := (dict_ok (hashFunction := hash) (canon := id) (valid := λ _, True)).
Notation map_of d := (to_map (canon := (id : bytes → bytes)) d).

(** The list of a key in the tables, as a pointer and as a list of clients. *)
Definition ptr w i k : option nat :=
  match dbs w !! i with Some db => snd <$> map_of (db_watched db) !! k | None => None end.
Definition watchers w i k : list nat :=
  match ptr w i k with Some p => default [] (lists w !! p) | None => [] end.

(** The key spaces of the databases. *)
Definition keyspace w : list (gmap bytes (bytes * O)) := (λ db, map_of (db_dict db)) <$> dbs w.

(** The tables: every entry has a list of its own, which is not empty. *)
Record idx_ok w : Prop := {
  ix_dict i db : dbs w !! i = Some db →
    fine (db_watched db) ∧ fine (db_dict db) ∧ (dictSize (db_watched db) ≤ Z.of_nat (next_list w))%Z;
  ix_ptr i k p : ptr w i k = Some p → p < next_list w ∧ ∃ l, lists w !! p = Some l ∧ l ≠ [];
  ix_inj i k i' k' p : ptr w i k = Some p → ptr w i' k' = Some p → i = i' ∧ k = k';
}.

(** The list of one key is replaced. *)
Definition upd (f : nat → bytes → list nat) i k (l : list nat) : nat → bytes → list nat :=
  λ i' k', if bool_decide (i' = i ∧ k' = k) then l else f i' k'.

Lemma fetch_spec w i db k :
  idx_ok w → dbs w !! i = Some db →
  ∃ d, dictFetchValue hash dictSdsKeyCompare (db_watched db) k = Ret (d, ptr w i k)
    ∧ fine d ∧ map_of d = map_of (db_watched db).
Proof.
  intros Hw E. destruct (ix_dict w Hw i db E) as (Hd & _ & _). unfold dictFetchValue.
  destruct (dictFind_spec (canon := id) (valid := λ _, True) (db_watched db) k Hd I) as (d & -> & Hd' & HE & _). bind_red.
  exists d. split; [|split; [done|exact (to_map_perm _ d Hd HE)]]. f_equal. f_equal. unfold ptr. rewrite E.
  change (id k) with k. by destruct (map_of (db_watched db) !! k).
Qed.

(** One database is replaced: the pointers of the others stay. *)
Lemma ptr_set_watched w i db d i' k :
  dbs w !! i = Some db →
  ptr (set_watched w i db d) i' k = if bool_decide (i' = i) then snd <$> map_of d !! k else ptr w i' k.
Proof.
  intros E. unfold ptr, set_watched, set_db. cbn [dbs]. case_bool_decide as Hi.
  - subst i'. by rewrite list_lookup_insert_eq by (by apply lookup_lt_Some in E).
  - by rewrite list_lookup_insert_ne.
Qed.

Lemma keyspace_set_watched w i db d : dbs w !! i = Some db → keyspace (set_watched w i db d) = keyspace w.
Proof.
  intros E. unfold keyspace, set_watched, set_db. cbn [dbs]. rewrite list_fmap_insert. cbn [db_dict].
  apply list_insert_id. by rewrite list_lookup_fmap, E.
Qed.

Lemma dict_set_watched w i db d n :
  idx_ok w → dbs w !! i = Some db → fine d → (dictSize d ≤ Z.of_nat n)%Z → next_list w ≤ n →
  ∀ i' db', dbs (set_watched w i db d) !! i' = Some db' →
    fine (db_watched db') ∧ fine (db_dict db') ∧ (dictSize (db_watched db') ≤ Z.of_nat n)%Z.
Proof.
  intros Hw E Hd Hs Hn i' db'. unfold set_watched, set_db. cbn [dbs]. intros E'.
  destruct (decide (i = i')) as [<-|Hi].
  - rewrite list_lookup_insert_eq in E' by (by apply lookup_lt_Some in E). injection E' as <-. cbn [db_watched db_dict].
    destruct (ix_dict w Hw i db E) as (_ & Hk & _). done.
  - rewrite list_lookup_insert_ne in E' by done. destruct (ix_dict w Hw i' db' E') as (H1 & H2 & H3). split_and!; [done|done|lia].
Qed.

(** ** Adding and removing a client *)

(** What makes the tables of a new state fine when the pointer of one key is [p]. *)
Lemma idx_put w w' i k p l :
  idx_ok w →
  (∀ i' db, dbs w' !! i' = Some db →
    fine (db_watched db) ∧ fine (db_dict db) ∧ (dictSize (db_watched db) ≤ Z.of_nat (next_list w'))%Z) →
  (∀ i' k', ptr w' i' k' = if bool_decide (i' = i ∧ k' = k) then Some p else ptr w i' k') →
  (ptr w i k = Some p ∨ p = next_list w ∧ next_list w < next_list w') → next_list w ≤ next_list w' →
  lists w' !! p = Some l → l ≠ [] → (∀ p', p' ≠ p → p' < next_list w → lists w' !! p' = lists w !! p') →
  idx_ok w' ∧ ∀ i' k', watchers w' i' k' = upd (watchers w) i k l i' k'.
Proof.
  intros Hw Hd HP Hp Hn Hl Hne Ho.
  assert (∀ i' k' p', ptr w i' k' = Some p' → (i' = i ∧ k' = k) ∨ p' ≠ p) as Hother.
  { intros i' k' p' E. destruct Hp as [Ep|[-> _]]; [|right; apply (ix_ptr w Hw) in E; lia].
    destruct (decide (p' = p)) as [->|]; [left; by apply (ix_inj w Hw i' k' i k p)|by right]. }
  split; [split|].
  - exact Hd.
  - intros i' k' p' E'. rewrite HP in E'. case_bool_decide as Hik.
    + injection E' as <-. split; [|by exists l]. destruct Hp as [Ep|[-> ?]]; [apply (ix_ptr w Hw) in Ep; lia|done].
    + destruct (ix_ptr w Hw i' k' p' E') as (H1 & l' & El & Hl'). split; [lia|]. exists l'. split; [|done].
      destruct (Hother i' k' p' E') as [?|Hpp]; [done|]. by rewrite Ho.
  - intros i1 k1 i2 k2 p' E1 E2. rewrite HP in E1, E2. repeat case_bool_decide;
      repeat match goal with H : _ ∧ _ |- _ => destruct H as [-> ->] end; [done| | |by apply (ix_inj w Hw i1 k1 i2 k2 p')].
    + injection E2 as <-. by destruct (Hother i1 k1 p E1) as [[-> ->]|].
    + injection E1 as <-. by destruct (Hother i2 k2 p E2) as [[-> ->]|].
  - intros i' k'. unfold watchers at 1. rewrite HP. unfold upd. case_bool_decide as Hik; [by rewrite Hl|].
    unfold watchers. destruct (ptr w i' k') as [p'|] eqn:E'; [|done]. destruct (Hother i' k' p' E') as [?|Hpp]; [done|].
    rewrite Ho; [done|done|]. by apply (ix_ptr w Hw) in E' as [? _].
Qed.

(** The same when the entry of the key is gone. *)
Lemma idx_drop w w' i k p :
  idx_ok w →
  (∀ i' db, dbs w' !! i' = Some db →
    fine (db_watched db) ∧ fine (db_dict db) ∧ (dictSize (db_watched db) ≤ Z.of_nat (next_list w'))%Z) →
  (∀ i' k', ptr w' i' k' = if bool_decide (i' = i ∧ k' = k) then None else ptr w i' k') →
  ptr w i k = Some p → next_list w' = next_list w → (∀ p', p' ≠ p → lists w' !! p' = lists w !! p') →
  idx_ok w' ∧ ∀ i' k', watchers w' i' k' = upd (watchers w) i k [] i' k'.
Proof.
  intros Hw Hd HP Hp Hn Ho.
  assert (∀ i' k' p', ptr w' i' k' = Some p' → ptr w i' k' = Some p' ∧ p' ≠ p) as Hother.
  { intros i' k' p' E. rewrite HP in E. case_bool_decide as Hik; [done|]. split; [done|]. intros ->.
    apply Hik. by apply (ix_inj w Hw i' k' i k p). }
  split; [split|].
  - exact Hd.
  - intros i' k' p' [E' Hpp]%Hother. rewrite Hn, Ho by done. by apply (ix_ptr w Hw) in E'.
  - intros i1 k1 i2 k2 p' [E1 _]%Hother [E2 _]%Hother. by apply (ix_inj w Hw i1 k1 i2 k2 p').
  - intros i' k'. unfold watchers at 1. destruct (ptr w' i' k') as [p'|] eqn:E'.
    + destruct (Hother i' k' p' E') as [E1 Hpp]. rewrite Ho by done. rewrite HP in E'. unfold upd.
      case_bool_decide; [done|]. unfold watchers. by rewrite E1.
    + rewrite HP in E'. unfold upd. case_bool_decide; [done|]. unfold watchers. by rewrite E'.
Qed.

(** The table of a database is replaced by one with the entry of [k] set. *)
Lemma ptr_put w w0 i db d k r :
  dbs w !! i = Some db → dbs w0 = dbs w → map_of d = partial_alter (λ _, r) k (map_of (db_watched db)) →
  ∀ i' k', ptr (set_watched w0 i db d) i' k' = if bool_decide (i' = i ∧ k' = k) then snd <$> r else ptr w i' k'.
Proof.
  intros E E0 Hm i' k'. rewrite ptr_set_watched by (by rewrite E0). case_bool_decide as Hi.
  - subst i'. rewrite Hm. destruct (decide (k' = k)) as [->|Hk].
    + by rewrite lookup_partial_alter_eq, bool_decide_eq_true_2.
    + rewrite lookup_partial_alter_ne, bool_decide_eq_false_2 by (done || by intros [_ ?]). unfold ptr. by rewrite E.
  - rewrite bool_decide_eq_false_2 by (by intros [? _]). unfold ptr. by rewrite E0.
Qed.

Lemma map_of_same w i db k p :
  dbs w !! i = Some db → ptr w i k = Some p →
  ∃ k', map_of (db_watched db) !! k = Some (k', p) ∧
    map_of (db_watched db) = partial_alter (λ _, Some (k', p)) k (map_of (db_watched db)).
Proof.
  intros E Ep. unfold ptr in Ep. rewrite E in Ep. destruct (map_of (db_watched db) !! k) as [[k' p']|] eqn:Ek; [|done].
  injection Ep as ->. exists k'. split; [done|]. symmetry. exact (insert_id _ k (k', p) Ek).
Qed.

(** Everything but the tables of watched keys. *)
Definition rest_same w w' : Prop := mclients w' = mclients w ∧ keyspace w' = keyspace w.

Lemma clients_of_spec can w i k c :
  idx_ok w → i < length (dbs w) → (Z.of_nat (next_list w) ≤ 2 ^ 60)%Z →
  ∃ w1 p, clients_of hash can w i k = Ret (w1, p) ∧ lists w1 !! p = Some (watchers w i k)
    ∧ (let w' := set_list w1 p (watchers w i k ++ [c]) in
       idx_ok w' ∧ rest_same w w' ∧ next_list w' ≤ S (next_list w)
       ∧ ∀ i' k', watchers w' i' k' = upd (watchers w) i k (watchers w i k ++ [c]) i' k').
Proof.
  intros Hw Hi Hb. unfold clients_of, get_db. apply lookup_lt_is_Some_2 in Hi as [db E]. rewrite E. bind_red.
  destruct (fetch_spec w i db k Hw E) as (d & -> & Hd & Hm). bind_red.
  destruct (ix_dict w Hw i db E) as (Hd0 & _ & Hs). rewrite (dictSize_map _ Hd0), <-Hm, <-(dictSize_map d Hd) in Hs.
  assert (∀ l : list nat, l ++ [c] ≠ []) as Hne by (by intros []).
  destruct (ptr w i k) as [p|] eqn:Ep.
  - destruct (ix_ptr w Hw i k p Ep) as (Hp & l & El & _). destruct (map_of_same w i db k p E Ep) as (k' & _ & Ek).
    assert (watchers w i k = l) as EW by (unfold watchers; by rewrite Ep, El).
    exists (set_watched w i db d), p. rewrite EW. split; [done|]. split; [done|]. cbv zeta.
    destruct (idx_put w (set_list (set_watched w i db d) p (l ++ [c])) i k p (l ++ [c]) Hw) as [H1 H2];
      [|rewrite <-Hm in Ek; exact (ptr_put w w i db d k _ E eq_refl ltac:(by rewrite <-Hm))|by left|done|apply lookup_insert_eq|done| |].
    + by apply (dict_set_watched w i db d _ Hw E Hd).
    + intros p' Hpp _. by apply lookup_insert_ne.
    + split_and!; [done|split; [done|by apply keyspace_set_watched]|simpl; lia|done].
  - assert (map_of d !! k = None) as Hnone.
    { rewrite Hm. unfold ptr in Ep. rewrite E in Ep. by destruct (map_of (db_watched db) !! k). }
    assert (watchers w i k = []) as -> by (unfold watchers; by rewrite Ep).
    destruct (dictAdd_spec (canon := id) (valid := λ _, True) can d k (next_list w) Hd) as (d' & Ea & Hd' & _ & Hm');
      [lia|done|]. change (id k) with k in *. rewrite Hnone in Hm'.
    unfold new_list. rewrite Ea. bind_red. set (w0 := mk_world _ _ _ _).
    exists (set_watched w0 i db d'), (next_list w). split; [done|]. split; [apply lookup_insert_eq|]. cbv zeta.
    destruct (idx_put w (set_list (set_watched w0 i db d') (next_list w) ([] ++ [c])) i k (next_list w) ([] ++ [c]) Hw) as [H1 H2];
      [|exact (ptr_put w w0 i db d' k _ E eq_refl ltac:(by rewrite Hm', Hm))|right; simpl; lia|simpl; lia|apply lookup_insert_eq|done| |].
    + apply (dict_set_watched w i db d' (S (next_list w)) Hw E Hd'); [|lia].
      rewrite (dictSize_map d' Hd'), Hm', map_size_insert_None by done. rewrite (dictSize_map d Hd) in Hs. lia.
    + intros p' Hpp _. simpl. by rewrite !lookup_insert_ne by lia.
    + split_and!; [done|split; [done|exact (keyspace_set_watched w0 i db d' E)]|simpl; lia|done].
Qed.

(** The client is taken out of the list of a key; an empty list goes with its entry. *)
Lemma unwatch_key_spec w c cl i k :
  idx_ok w → mclients w !! c = Some cl → c ∈ watchers w i k →
  ∃ w' j, unwatch_key hash w c (i, k) = Ret w' ∧ watchers w i k !! j = Some c
    ∧ idx_ok w' ∧ mclients w' = <[c := with_watched cl (tail (watched_keys cl))]> (mclients w)
    ∧ keyspace w' = keyspace w ∧ next_list w' = next_list w
    ∧ ∀ i' k', watchers w' i' k' = upd (watchers w) i k (delete j (watchers w i k)) i' k'.
Proof.
  intros Hw Hc Hin. unfold unwatch_key, get_db. cbn [fst snd].
  assert (∃ p, ptr w i k = Some p) as [p Ep].
  { unfold watchers in Hin. destruct (ptr w i k) as [p|]; [by exists p|by apply not_elem_of_nil in Hin]. }
  destruct (dbs w !! i) as [db|] eqn:E; [|unfold ptr in Ep; by rewrite E in Ep]. bind_red.
  destruct (fetch_spec w i db k Hw E) as (d & -> & Hd & Hm). bind_red. rewrite Ep.
  destruct (ix_dict w Hw i db E) as (Hd0 & _ & Hs). rewrite (dictSize_map _ Hd0), <-Hm, <-(dictSize_map d Hd) in Hs.
  destruct (ix_ptr w Hw i k p Ep) as (Hp & l & El & _). destruct (map_of_same w i db k p E Ep) as (k' & Ek & Ek').
  assert (watchers w i k = l) as EW by (unfold watchers; by rewrite Ep, El). rewrite EW in Hin |- *.
  unfold get_list. rewrite El. bind_red.
  destruct (list_find (λ x, x = c) l) as [[j x]|] eqn:Ef;
    [|rewrite list_find_None, Forall_forall in Ef; by destruct (Ef c Hin)].
  apply list_find_Some in Ef as (Ej & -> & _). unfold get_client. case_bool_decide as He.
  - unfold dictDelete.
    destruct (dictGenericDelete_spec (canon := id) (valid := λ _, True) d k Hd I) as (d' & -> & Hd' & _ & Hm'). bind_red.
    cbn [free_list set_watched set_db mclients]. rewrite Hc. bind_red. eexists _, j. split; [done|]. split; [done|]. rewrite He.
    change (id k) with k in *.
    destruct (idx_drop w (free_list (set_watched w i db d') p) i k p Hw) as [H1 H2];
      [|exact (ptr_put w w i db d' k None E eq_refl ltac:(by rewrite Hm', Hm))|done|done| |].
    + apply (dict_set_watched w i db d' _ Hw E Hd'); [|done].
      rewrite (dictSize_map d' Hd'), Hm'. rewrite (dictSize_map d Hd) in Hs. etrans; [|exact Hs].
      apply Nat2Z.inj_le, map_subseteq_size, delete_subseteq.
    + intros p' Hpp. by apply lookup_delete_ne.
    + split_and!; [destruct H1 as [H11 H12 H13]; by split|done|by apply keyspace_set_watched|done|exact H2].
  - bind_red. cbn [set_list set_watched set_db mclients]. rewrite Hc. bind_red. eexists _, j. split; [done|]. split; [done|].
    destruct (idx_put w (set_list (set_watched w i db d) p (delete j l)) i k p (delete j l) Hw) as [H1 H2];
      [|exact (ptr_put w w i db d k _ E eq_refl ltac:(by rewrite Hm))|by left|done|apply lookup_insert_eq|done| |].
    + by apply (dict_set_watched w i db d _ Hw E Hd).
    + intros p' Hpp _. by apply lookup_insert_ne.
    + split_and!; [destruct H1 as [H11 H12 H13]; by split|done|by apply keyspace_set_watched|done|exact H2].
Qed.

(** ** The index and the lists of the clients *)

Definition watches w c (wk : nat * bytes) : Prop :=
  match mclients w !! c with Some cl => wk ∈ watched_keys cl | None => False end.

Record w_ok w : Prop := {
  wo_idx : idx_ok w;
  wo_nodup i k : NoDup (watchers w i k);
  wo_sync i k c : c ∈ watchers w i k ↔ watches w c (i, k);
  wo_client c cl : mclients w !! c = Some cl → NoDup (watched_keys cl) ∧ m_db cl < length (dbs w);
}.

Lemma keyspace_dbs w w' : keyspace w' = keyspace w → length (dbs w') = length (dbs w).
Proof. intros E. apply (f_equal length) in E. unfold keyspace in E. by rewrite !length_fmap in E. Qed.

Lemma watches_set w c cl cl' c' wk :
  mclients w !! c = Some cl →
  watches (set_client w c cl') c' wk ↔ if bool_decide (c' = c) then wk ∈ watched_keys cl' else watches w c' wk.
Proof.
  intros E. unfold watches, set_client. cbn [mclients]. case_bool_decide as H.
  - subst. by rewrite list_lookup_insert_eq by (by apply lookup_lt_Some in E).
  - by rewrite list_lookup_insert_ne.
Qed.

(** A client whose watched keys stay. *)
Lemma w_ok_client w c cl cl' :
  w_ok w → mclients w !! c = Some cl → watched_keys cl' = watched_keys cl → m_db cl' < length (dbs w) →
  w_ok (set_client w c cl').
Proof.
  intros [[H1 H2 H3] Hn Hs Hc] E Ew Hdb. split; [by split|exact Hn| |].
  - intros i k c'. rewrite (watches_set w c cl) by done. change (watchers (set_client w c cl') i k) with (watchers w i k).
    rewrite Hs. case_bool_decide as Hcc; [subst; unfold watches; by rewrite E, Ew|done].
  - intros c' cl''. cbn [set_client mclients dbs]. intros E'. destruct (decide (c = c')) as [<-|Hcc].
    + rewrite list_lookup_insert_eq in E' by (by apply lookup_lt_Some in E). injection E' as <-.
      rewrite Ew. by destruct (Hc c cl E).
    + rewrite list_lookup_insert_ne in E' by done. by apply (Hc c').
Qed.

(** The list of one key and the keys of one client change together. *)
Lemma w_ok_key w w' c cl cl' i k l :
  w_ok w → mclients w !! c = Some cl → idx_ok w' → keyspace w' = keyspace w → mclients w' = <[c := cl']> (mclients w) →
  (∀ i' k', watchers w' i' k' = upd (watchers w) i k l i' k') →
  m_db cl' = m_db cl → NoDup l → NoDup (watched_keys cl') →
  (∀ c', c' ∈ l ↔ if bool_decide (c' = c) then (i, k) ∈ watched_keys cl' else c' ∈ watchers w i k) →
  (∀ wk, wk ≠ (i, k) → wk ∈ watched_keys cl' ↔ wk ∈ watched_keys cl) →
  w_ok w'.
Proof.
  intros Hw E Hi Hk Hm HW Hdb Hl Hn Hc Ho. split; [done| | |].
  - intros i' k'. rewrite HW. unfold upd. case_bool_decide; [done|by apply (wo_nodup w)].
  - intros i' k' c'. rewrite HW.
    transitivity (watches (set_client w c cl') c' (i', k')); [|unfold watches, set_client; cbn [mclients]; by rewrite Hm].
    rewrite (watches_set w c cl) by done. unfold upd.
    case_bool_decide as Hik; [destruct Hik as [-> ->]; rewrite Hc; case_bool_decide; [done|by apply (wo_sync w Hw)]|].
    rewrite (wo_sync w Hw). case_bool_decide as Hcc; [|done]. subst c'. unfold watches. rewrite E. symmetry. apply Ho.
    intros [= -> ->]. by apply Hik.
  - intros c' cl''. rewrite Hm, (keyspace_dbs w w' Hk). destruct (decide (c = c')) as [<-|Hcc]; intros E'.
    + rewrite list_lookup_insert_eq in E' by (by apply lookup_lt_Some in E). injection E' as <-.
      rewrite Hdb. by destruct (wo_client w Hw c cl E).
    + rewrite list_lookup_insert_ne in E' by done. by apply (wo_client w Hw c').
Qed.

(** ** The operations on watched keys *)

(** A key is added at the end unless it is there. *)
Definition add_key (ks : list (nat * bytes)) (wk : nat * bytes) : list (nat * bytes) :=
  if bool_decide (wk ∈ ks) then ks else ks ++ [wk].

Lemma watchForKey_spec can w c cl k :
  w_ok w → mclients w !! c = Some cl → (Z.of_nat (next_list w) ≤ 2 ^ 60)%Z →
  ∃ w', watchForKey hash can w c k = Ret w' ∧ w_ok w' ∧ keyspace w' = keyspace w
    ∧ mclients w' = <[c := with_watched cl (add_key (watched_keys cl) (m_db cl, k))]> (mclients w)
    ∧ next_list w' ≤ S (next_list w).
Proof.
  intros Hw E Hb. unfold watchForKey, get_client. rewrite E. bind_red. unfold add_key.
  destruct (wo_client w Hw c cl E) as [Hnd Hdb]. case_bool_decide as Hin.
  - assert (existsb (λ wk, bool_decide (wk.1 = m_db cl) && bool_decide (k = wk.2)) (watched_keys cl) = true) as ->.
    { apply existsb_exists. exists (m_db cl, k). split; [by apply list_elem_of_In|]. by rewrite !bool_decide_eq_true_2. }
    exists w. split_and!; [done|done|done| |lia]. symmetry. apply list_insert_id. rewrite E. by destruct cl.
  - assert (existsb (λ wk, bool_decide (wk.1 = m_db cl) && bool_decide (k = wk.2)) (watched_keys cl) = false) as ->.
    { apply not_true_is_false. intros ([i k'] & Hx & Hb')%existsb_exists. apply Hin. apply list_elem_of_In in Hx.
      simpl in Hb'. apply andb_true_iff in Hb' as [->%bool_decide_eq_true ->%bool_decide_eq_true]. done. }
    destruct (clients_of_spec can w (m_db cl) k c (wo_idx w Hw) Hdb Hb) as (w1 & p & -> & El & Hi & [Hm Hk] & Hn & HW).
    bind_red. unfold get_list. rewrite El. bind_red. eexists. split; [done|].
    assert (c ∉ watchers w (m_db cl) k) as Hnot.
    { rewrite (wo_sync w Hw). unfold watches. by rewrite E. }
    split_and!; [|exact Hk|simpl; simpl in Hm; by rewrite Hm|exact Hn].
    eapply (w_ok_key w _ c cl (with_watched cl (watched_keys cl ++ [(m_db cl, k)])) (m_db cl) k (watchers w (m_db cl) k ++ [c]) Hw E); [| | |exact HW|done| | | |].
    + destruct Hi as [H1 H2 H3]. by split.
    + exact Hk.
    + simpl. simpl in Hm. by rewrite Hm.
    + apply NoDup_app. split_and!; [by apply (wo_nodup w)| |apply NoDup_singleton]. by intros c' Hc' ->%list_elem_of_singleton.
    + simpl. apply NoDup_app. split_and!; [done| |apply NoDup_singleton]. by intros c' Hc' ->%list_elem_of_singleton.
    + intros c'. rewrite elem_of_app, list_elem_of_singleton. simpl. case_bool_decide; [|naive_solver].
      subst. rewrite elem_of_app, list_elem_of_singleton. naive_solver.
    + intros wk Hwk. simpl. rewrite elem_of_app, list_elem_of_singleton. naive_solver.
Qed.

Lemma unwatch_fold_spec c ks : ∀ w cl,
  w_ok w → mclients w !! c = Some cl → watched_keys cl = ks →
  ∃ w', out_fold (λ w wk, unwatch_key hash w c wk) w ks = Ret w' ∧ w_ok w' ∧ keyspace w' = keyspace w
    ∧ mclients w' = <[c := with_watched cl []]> (mclients w) ∧ next_list w' = next_list w.
Proof.
  induction ks as [|[i k] ks IH]; intros w cl Hw E Ek; cbn [out_fold].
  { exists w. split_and!; [done|done|done| |done]. symmetry. apply list_insert_id. rewrite E, <-Ek. by destruct cl. }
  destruct (wo_client w Hw c cl E) as [Hnd Hdb]. pose proof (wo_nodup w Hw i k) as Hnl.
  assert (c ∈ watchers w i k) as Hin by (rewrite (wo_sync w Hw); unfold watches; rewrite E, Ek; by left).
  destruct (unwatch_key_spec w c cl i k (wo_idx w Hw) E Hin) as (w1 & j & -> & Ej & Hi & Hm & Hk & Hn & HW). bind_red.
  rewrite Ek in Hm, Hnd. cbn [tail] in Hm. apply NoDup_cons in Hnd as [Hni Hnd].
  assert (watchers w i k ≡ₚ c :: delete j (watchers w i k)) as HP by (by apply delete_Permutation).
  assert (w_ok w1) as Hw1.
  { rewrite HP in Hnl. apply NoDup_cons in Hnl as [Hc Hnl].
    apply (w_ok_key w w1 c cl (with_watched cl ks) i k (delete j (watchers w i k)) Hw E Hi Hk Hm HW); [done|done|done| |].
    - intros c'. simpl. case_bool_decide as Hcc; [subst; naive_solver|]. rewrite HP at 2. rewrite elem_of_cons. naive_solver.
    - intros wk Hwk. simpl. rewrite Ek, elem_of_cons. naive_solver. }
  destruct (IH w1 (with_watched cl ks) Hw1) as (w' & -> & Hw' & Hk' & Hm' & Hn'); [|done|].
  { rewrite Hm. apply list_lookup_insert_eq. by apply lookup_lt_Some in E. }
  exists w'. split_and!; [done|done|by rewrite Hk'| |by rewrite Hn']. by rewrite Hm', Hm, list_insert_insert_eq.
Qed.

Lemma unwatchAllKeys_spec w c cl :
  w_ok w → mclients w !! c = Some cl →
  ∃ w', unwatchAllKeys hash w c = Ret w' ∧ w_ok w' ∧ keyspace w' = keyspace w
    ∧ mclients w' = <[c := with_watched cl []]> (mclients w) ∧ next_list w' = next_list w.
Proof. intros Hw E. unfold unwatchAllKeys, get_client. rewrite E. bind_red. by apply unwatch_fold_spec. Qed.

(** ** Marking clients *)

Definition marked (cl : mclient Q) : mclient Q := with_flags cl (Z.lor (m_flags cl) CLIENT_DIRTY_CAS).
Definition mark_if (b : bool) (cl : mclient Q) : mclient Q := if b then marked cl else cl.

Lemma marked_idem cl : marked (marked cl) = marked cl.
Proof. unfold marked, with_flags. simpl. f_equal. by rewrite <-Z.lor_assoc, Z.lor_diag. Qed.

(** [w] with the clients changed only by marks, decided by [f]. *)
Definition marks w w' (f : nat → mclient Q → bool) : Prop :=
  w_ok w' ∧ keyspace w' = keyspace w ∧ next_list w' = next_list w
  ∧ mclients w' = imap (λ c cl, mark_if (f c cl) cl) (mclients w).

Lemma marks_ext w w' f g :
  marks w w' f → (∀ c cl, mclients w !! c = Some cl → f c cl = g c cl) → marks w w' g.
Proof.
  intros (H1 & H2 & H3 & H4) Hfg. split_and!; [done|done|done|]. rewrite H4. apply imap_ext. intros c cl E. by rewrite (Hfg c cl E).
Qed.

Lemma marks_trans w1 w2 w3 f g :
  marks w1 w2 f → marks w2 w3 g → (∀ c cl, g c (mark_if (f c cl) cl) = g c cl) →
  marks w1 w3 (λ c cl, f c cl || g c cl).
Proof.
  intros (H1 & H2 & H3 & H4) (H5 & H6 & H7 & H8) Hg. split_and!; [done|by rewrite H6|by rewrite H7|].
  rewrite H8, H4. apply list_eq. intros c. rewrite !list_lookup_imap. destruct (mclients w1 !! c) as [cl|]; [|done]. simpl.
  f_equal. rewrite Hg. unfold mark_if. destruct (f c cl), (g c cl); simpl; [apply marked_idem|done|done|done].
Qed.

Lemma marks_refl w : w_ok w → marks w w (λ _ _, false).
Proof.
  intros Hw. split_and!; [done|done|done|]. symmetry. apply list_eq. intros c. rewrite list_lookup_imap.
  by destruct (mclients w !! c).
Qed.

Lemma mark_spec w c :
  w_ok w → c < length (mclients w) → ∃ w', mark w c = Ret w' ∧ marks w w' (λ c' _, bool_decide (c' = c)).
Proof.
  intros Hw [cl E]%lookup_lt_is_Some_2. unfold mark, get_client. rewrite E. bind_red. eexists. split; [done|].
  split_and!; [|done|done|].
  - apply (w_ok_client w c cl); [done|done|done|]. by destruct (wo_client w Hw c cl E).
  - apply list_eq. intros c'. rewrite list_lookup_imap. cbn [set_client mclients].
    destruct (decide (c = c')) as [<-|Hc].
    + rewrite list_lookup_insert_eq by (by apply lookup_lt_Some in E). rewrite E. simpl. by rewrite bool_decide_eq_true_2.
    + rewrite list_lookup_insert_ne by done. destruct (mclients w !! c'); [|done]. simpl. by rewrite bool_decide_eq_false_2.
Qed.

Lemma marks_clients w w' f : marks w w' f → length (mclients w') = length (mclients w).
Proof. intros (_ & _ & _ & ->). apply length_imap. Qed.

Lemma mark_fold_spec l : ∀ w,
  w_ok w → (∀ c, c ∈ l → c < length (mclients w)) →
  ∃ w', out_fold mark w l = Ret w' ∧ marks w w' (λ c _, bool_decide (c ∈ l)).
Proof.
  induction l as [|c l IH]; intros w Hw Hl; cbn [out_fold].
  { exists w. split; [done|]. apply (marks_ext _ _ _ _ (marks_refl w Hw)). intros c cl _. symmetry.
    apply bool_decide_eq_false_2, not_elem_of_nil. }
  destruct (mark_spec w c Hw) as (w1 & -> & HM); [apply Hl; by left|]. bind_red.
  destruct (IH w1) as (w' & -> & HM'); [apply HM| |].
  { intros c' Hc'. rewrite (marks_clients _ _ _ HM). apply Hl. by right. }
  exists w'. split; [done|]. apply (marks_ext _ _ _ _ (marks_trans _ _ _ _ _ HM HM' (λ _ _, eq_refl))).
  intros c' cl _. repeat case_bool_decide; simpl; try done; set_solver.
Qed.

(** A modified key marks exactly the clients that watch it. *)
Lemma touch_spec w i k :
  w_ok w → i < length (dbs w) →
  ∃ w', touchWatchedKey hash w i k = Ret w' ∧ marks w w' (λ _ cl, bool_decide ((i, k) ∈ watched_keys cl)).
Proof.
  intros Hw [db E]%lookup_lt_is_Some_2. unfold touchWatchedKey, get_db. rewrite E. bind_red.
  destruct (ix_dict w (wo_idx w Hw) i db E) as (Hd0 & Hk0 & Hs0).
  assert (∀ c cl, mclients w !! c = Some cl → bool_decide (c ∈ watchers w i k) = bool_decide ((i, k) ∈ watched_keys cl)) as Hwat.
  { intros c cl Ec. apply bool_decide_ext. rewrite (wo_sync w Hw). unfold watches. by rewrite Ec. }
  case_bool_decide as Hz.
  { exists w. split; [done|]. apply (marks_ext _ _ _ _ (marks_refl w Hw)). intros c cl Ec. rewrite <-(Hwat c cl Ec).
    symmetry. apply bool_decide_eq_false_2. rewrite (dictSize_map _ Hd0) in Hz.
    unfold watchers, ptr. rewrite E. rewrite (map_size_empty_inv (map_of (db_watched db))) by lia. apply not_elem_of_nil. }
  destruct (fetch_spec w i db k (wo_idx w Hw) E) as (d & -> & Hd & Hm). bind_red.
  assert (∀ i' k', ptr (set_watched w i db d) i' k' = ptr w i' k') as HP.
  { intros i' k'. rewrite ptr_set_watched by done. case_bool_decide; [|done]. subst. unfold ptr. by rewrite E, Hm. }
  assert (∀ i' k', watchers (set_watched w i db d) i' k' = watchers w i' k') as HW
    by (intros i' k'; unfold watchers; by rewrite HP).
  assert (w_ok (set_watched w i db d)) as Hw1.
  { destruct Hw as [[Hi1 Hi2 Hi3] Hn Hsy Hc]. split; [split| | |].
    - apply (dict_set_watched w i db d _ (Build_idx_ok w Hi1 Hi2 Hi3) E Hd); [|done].
      by rewrite (dictSize_map d Hd), Hm, <-(dictSize_map _ Hd0).
    - intros i' k' p. rewrite HP. apply Hi2.
    - intros i1 k1 i2 k2 p. rewrite !HP. apply Hi3.
    - intros i' k'. rewrite HW. apply Hn.
    - intros i' k' c. rewrite HW. apply Hsy.
    - intros c cl Ec. rewrite (keyspace_dbs w); [by apply (Hc c)|by apply keyspace_set_watched]. }
  destruct (mark_fold_spec (watchers w i k) (set_watched w i db d) Hw1) as (w' & Ef & H1 & H2 & H3 & H4).
  { intros c. rewrite (wo_sync w Hw). unfold watches. simpl. destruct (mclients w !! c) eqn:Ec; [|done].
    intros _. by apply lookup_lt_Some in Ec. }
  exists w'. split.
  - rewrite <-Ef. unfold watchers. destruct (ptr w i k) as [p|] eqn:Ep; [|done].
    destruct (ix_ptr w (wo_idx w Hw) i k p Ep) as (_ & l & El & _). unfold get_list. cbn [set_watched set_db lists]. by rewrite El.
  - apply (marks_ext _ _ (λ c _, bool_decide (c ∈ watchers w i k))); [|exact Hwat].
    split_and!; [done|by rewrite H2, keyspace_set_watched|done|done].
Qed.

(** *** Flushing *)

Definition present (ks : list (gmap bytes (bytes * O))) (wk : nat * bytes) : bool :=
  match ks !! wk.1 with Some m => bool_decide (is_Some (m !! wk.2)) | None => false end.
Definition flushes (ks : list (gmap bytes (bytes * O))) (dbid : option nat) (wk : nat * bytes) : bool :=
  bool_decide (dbid = None ∨ dbid = Some wk.1) && present ks wk.

(** A key space is replaced by another one. *)
Lemma w_ok_new_keyspace w i db d :
  w_ok w → dbs w !! i = Some db → fine d → w_ok (set_db w i (mk_db d (db_watched db))).
Proof.
  intros [[Hi1 Hi2 Hi3] Hn Hs Hc] E Hd. set (w' := set_db _ _ _).
  assert (∀ i' k, ptr w' i' k = ptr w i' k) as HP.
  { intros i' k. unfold ptr, w', set_db. cbn [dbs]. destruct (decide (i = i')) as [<-|Hii].
    - rewrite list_lookup_insert_eq by (by apply lookup_lt_Some in E). by rewrite E.
    - by rewrite list_lookup_insert_ne. }
  assert (∀ i' k, watchers w' i' k = watchers w i' k) as HW by (intros i' k; unfold watchers; by rewrite HP).
  split; [split| | |].
  - intros i' db'. unfold w', set_db. cbn [dbs]. destruct (decide (i = i')) as [<-|Hii]; intros E'.
    + rewrite list_lookup_insert_eq in E' by (by apply lookup_lt_Some in E). injection E' as <-.
      destruct (Hi1 i db E) as (H1 & _ & H3). done.
    + rewrite list_lookup_insert_ne in E' by done. by apply (Hi1 i').
  - intros i' k p. rewrite HP. apply Hi2.
  - intros i1 k1 i2 k2 p. rewrite !HP. apply Hi3.
  - intros i' k. rewrite HW. apply Hn.
  - intros i' k c. rewrite HW. apply Hs.
  - intros c cl Ec. unfold w', set_db. cbn [dbs]. rewrite length_insert. by apply (Hc c).
Qed.

(** A lookup in the key space may rehash it. *)
Lemma w_ok_keyspace w i db d :
  w_ok w → dbs w !! i = Some db → fine d → map_of d = map_of (db_dict db) →
  w_ok (set_db w i (mk_db d (db_watched db))) ∧ keyspace (set_db w i (mk_db d (db_watched db))) = keyspace w.
Proof.
  intros Hw E Hd Hm. split; [by apply w_ok_new_keyspace|].
  unfold keyspace, set_db. cbn [dbs]. rewrite list_fmap_insert. cbn [db_dict]. apply list_insert_id.
  by rewrite list_lookup_fmap, E, Hm.
Qed.

Lemma flush_key_spec w dbid c wk :
  w_ok w → c < length (mclients w) → wk.1 < length (dbs w) →
  ∃ w', flush_key hash dbid c w wk = Ret w' ∧ marks w w' (λ c' _, bool_decide (c' = c) && flushes (keyspace w) dbid wk).
Proof.
  intros Hw Hc [db E]%lookup_lt_is_Some_2. unfold flush_key, flushes. case_bool_decide as Hd; simpl.
  2: { exists w. split; [done|]. apply (marks_ext _ _ _ _ (marks_refl w Hw)). intros. by rewrite andb_false_r. }
  unfold get_db. rewrite E. bind_red. destruct (ix_dict w (wo_idx w Hw) wk.1 db E) as (_ & Hk & _).
  destruct (dictFind_spec (canon := id) (valid := λ _, True) (db_dict db) wk.2 Hk I) as (d & -> & Hd' & HE & _). bind_red.
  change (id wk.2) with wk.2. pose proof (to_map_perm _ d Hk HE) as Hm.
  destruct (w_ok_keyspace w wk.1 db d Hw E Hd' Hm) as [Hw1 HK].
  assert (present (keyspace w) wk = bool_decide (is_Some (map_of (db_dict db) !! wk.2))) as ->.
  { unfold present, keyspace. by rewrite list_lookup_fmap, E. }
  destruct (map_of (db_dict db) !! wk.2) as [e|].
  - destruct (mark_spec _ c Hw1 Hc) as (w' & -> & HM). exists w'. split; [done|].
    destruct HM as (H1 & H2 & H3 & H4). split_and!; [done|by rewrite H2|done|]. rewrite H4. apply imap_ext. intros c' cl _.
    rewrite (bool_decide_eq_true_2 (is_Some _)) by done. by rewrite andb_true_r.
  - eexists. split; [done|]. destruct (marks_refl _ Hw1) as (H1 & H2 & H3 & H4). split_and!; [done|exact HK|done|].
    rewrite H4. apply imap_ext. intros c' cl _. rewrite (bool_decide_eq_false_2 (is_Some _)) by (by intros []).
    by rewrite andb_false_r.
Qed.

Lemma flush_client_spec dbid c ks : ∀ w,
  w_ok w → c < length (mclients w) → Forall (λ wk, wk.1 < length (dbs w)) ks →
  ∃ w', out_fold (flush_key hash dbid c) w ks = Ret w'
    ∧ marks w w' (λ c' _, bool_decide (c' = c) && existsb (flushes (keyspace w) dbid) ks).
Proof.
  induction ks as [|wk ks IH]; intros w Hw Hc Hk; cbn [out_fold].
  { exists w. split; [done|]. apply (marks_ext _ _ _ _ (marks_refl w Hw)). intros. by rewrite andb_false_r. }
  apply Forall_cons in Hk as [Hk1 Hk].
  destruct (flush_key_spec w dbid c wk Hw Hc Hk1) as (w1 & -> & HM). bind_red. pose proof HM as (Hw1 & HK & _ & _).
  destruct (IH w1 Hw1) as (w' & -> & HM'); [by rewrite (marks_clients _ _ _ HM)|by rewrite (keyspace_dbs w w1 HK)|].
  exists w'. split; [done|]. apply (marks_ext _ _ _ _ (marks_trans _ _ _ _ _ HM HM' (λ _ _, eq_refl))).
  intros c' cl _. rewrite HK. simpl. by destruct (bool_decide (c' = c)).
Qed.

Lemma watched_range w c cl wk : w_ok w → mclients w !! c = Some cl → wk ∈ watched_keys cl → wk.1 < length (dbs w).
Proof.
  intros Hw E Hin. destruct wk as [i k]. assert (c ∈ watchers w i k) as H by (rewrite (wo_sync w Hw); unfold watches; by rewrite E).
  unfold watchers, ptr in H. simpl. destruct (dbs w !! i) eqn:Ei; [by apply lookup_lt_Some in Ei|]. by apply not_elem_of_nil in H.
Qed.

Lemma mark_if_keys b (cl : mclient Q) : watched_keys (mark_if b cl) = watched_keys cl.
Proof. by destruct b. Qed.

Lemma flush_fold_spec dbid l : ∀ w,
  w_ok w → (∀ c, c ∈ l → c < length (mclients w)) →
  ∃ w', out_fold (λ w c, cl ← get_client w c; out_fold (flush_key hash dbid c) w (watched_keys cl)) w l = Ret w'
    ∧ marks w w' (λ c cl, bool_decide (c ∈ l) && existsb (flushes (keyspace w) dbid) (watched_keys cl)).
Proof.
  induction l as [|c l IH]; intros w Hw Hl; cbn [out_fold].
  { exists w. split; [done|]. apply (marks_ext _ _ _ _ (marks_refl w Hw)). intros c cl _.
    by rewrite (bool_decide_eq_false_2 (c ∈ [])) by apply not_elem_of_nil. }
  destruct (lookup_lt_is_Some_2 (mclients w) c) as [cl E]; [apply Hl; by left|].
  assert (get_client w c = Ret cl) as -> by (unfold get_client; by rewrite E). bind_red.
  destruct (flush_client_spec dbid c (watched_keys cl) w Hw) as (w1 & -> & HM); [apply Hl; by left| |].
  { apply Forall_forall. intros wk. by apply (watched_range w c cl). }
  bind_red. pose proof HM as (Hw1 & HK & _ & _). destruct (IH w1 Hw1) as (w' & -> & HM').
  { intros c' Hc'. rewrite (marks_clients _ _ _ HM). apply Hl. by right. }
  exists w'. split; [done|]. eapply marks_ext; [apply (marks_trans _ _ _ _ _ HM HM')|].
  { intros c' cl'. simpl. by rewrite mark_if_keys. }
  intros c' cl' E'. simpl. rewrite HK. destruct (decide (c' = c)) as [->|Hcc].
  - simplify_eq. rewrite (bool_decide_eq_true_2 (c = c)), (bool_decide_eq_true_2 (c ∈ c :: l)) by (done || by left). simpl.
    destruct (existsb _ _); [done|]. by rewrite andb_false_r.
  - rewrite (bool_decide_eq_false_2 (c' = c)) by done. simpl. f_equal. apply bool_decide_ext. set_solver.
Qed.

Lemma flush_spec w dbid :
  w_ok w →
  ∃ w', touchWatchedKeysOnFlush hash w dbid = Ret w'
    ∧ marks w w' (λ _ cl, existsb (flushes (keyspace w) dbid) (watched_keys cl)).
Proof.
  intros Hw. unfold touchWatchedKeysOnFlush.
  destruct (flush_fold_spec dbid (seq 0 (length (mclients w))) w Hw) as (w' & -> & HM); [intros c; rewrite elem_of_seq; lia|].
  exists w'. split; [done|]. apply (marks_ext _ _ _ _ HM). intros c cl E%lookup_lt_Some.
  by rewrite bool_decide_eq_true_2 by (rewrite elem_of_seq; lia).
Qed.
End index.
