(* ===== verification/Transaction.v ===== *)
(** * Transactions refine a specification without an index

    Sequences of operations of many clients on the transactions of Multi.v, and the
    specification they refine: a client has flags, a queue and a set of watched keys.
    The consequence: EXEC after WATCH runs the queue exactly when none of the watched
    keys was modified in between. *)
From stdpp Require Import gmap.
From S2P Require Import Prelude Sds Call Dict DictMap Table Gate Multi Watch.

Section flags.
Lemma has_ldiff f g h : has (Z.ldiff f g) h = has f (Z.ldiff h g).
Proof.
  unfold has. assert (Z.land (Z.ldiff f g) h = Z.land f (Z.ldiff h g)) as ->; [|done].
  apply Z.bits_inj'. intros n Hn. rewrite !Z.land_spec, !Z.ldiff_spec. by destruct (Z.testbit f n), (Z.testbit g n), (Z.testbit h n).
Qed.

Lemma has_lor_r f g h : has f (Z.lor g h) = has f g || has f h.
Proof.
  unfold has. rewrite Z.land_lor_distr_r. repeat case_bool_decide; try done; rewrite Z.lor_eq_0_iff in *; tauto.
Qed.

Lemma has_0 f : has f 0 = false.
Proof. unfold has. by rewrite Z.land_0_r. Qed.
End flags.

Inductive event (Q : Type) := Replied (c : nat) (r : mreply) | Ran (c : nat) (q : Q) | SentMulti.
Arguments Replied {Q}.
Arguments Ran {Q}.
Arguments SentMulti {Q}.

(** What clients and the rest of the server do: the operations of a client [c], a key
    that is modified, a database that is flushed, other changes of a key space. *)
Inductive op (O Q : Type) :=
  | Watch (c : nat) (can : bool) (keys : list bytes) | Unwatch (c : nat) | Multi (c : nat) | Enqueue (c : nat) (q : Q)
  | QueueError (c : nat) | Discard (c : nat) | Exec (c : nat) | Select (c : nat) (i : nat)
  | Touch (i : nat) (k : bytes) | FlushDb (dbid : option nat) | SetKeyspace (i : nat) (d : dict bytes O).
Arguments Watch {O Q}.
Arguments Unwatch {O Q}.
Arguments Multi {O Q}.
Arguments Enqueue {O Q}.
Arguments QueueError {O Q}.
Arguments Discard {O Q}.
Arguments Exec {O Q}.
Arguments Select {O Q}.
Arguments Touch {O Q}.
Arguments FlushDb {O Q}.
Arguments SetKeyspace {O Q}.

(** A client of the specification. *)
Record tx (Q : Type) := mk_tx {
  t_multi : bool; t_dirty : bool; t_error : bool; t_db : nat; t_queue : list Q; t_keys : gset (nat * bytes) }.
Arguments mk_tx {Q}.
Arguments t_multi {Q}.
Arguments t_dirty {Q}.
Arguments t_error {Q}.
Arguments t_db {Q}.
Arguments t_queue {Q}.
Arguments t_keys {Q}.

Section transactions.
Context {O Q : Type} (hash : bytes → Z) (qflags : Q → Z) (touches : Q → list (nat * bytes)).
Notation world := (world O Q).
Notation op := (op O Q).
Notation keyspaces := (list (gmap bytes (bytes * O))).

(** ** Runs of the program

    A queued command is known by its flags and the keys it modifies. *)
Definition touch_keys (w : world) (ks : list (nat * bytes)) : out world :=
  out_fold (λ w wk, touchWatchedKey hash w wk.1 wk.2) w ks.

Definition log_ops : xops O Q (list (event Q)) :=
  mk_xops (λ x c r, x ++ [Replied c r])
    (λ x w c q, w ← touch_keys w (touches q); Ret (x ++ [Ran c q], w, q))
    qflags (λ x, Ret (x ++ [SentMulti])) (λ _ x, x) (λ _, true) (λ x, Ret x).

Definition step (x : list (event Q)) (w : world) (o : op) : out (list (event Q) * world) :=
  match o with
  | Watch c can keys => watchCommand hash log_ops can x w c keys
  | Unwatch c => unwatchCommand hash log_ops x w c
  | Multi c => multiCommand log_ops x w c
  | Enqueue c q => w ← queueMultiCommand w c q; Ret (x, w)
  | QueueError c => w ← flagTransaction w c; Ret (x, w)
  | Discard c => discardCommand hash log_ops x w c
  | Exec c => '(x, w, _) ← execCommand hash log_ops x w c; Ret (x, w)
  | Select c i => w ← selectDb w c i; Ret (x, w)
  | Touch i k => w ← touchWatchedKey hash w i k; Ret (x, w)
  | FlushDb dbid => w ← touchWatchedKeysOnFlush hash w dbid; Ret (x, w)
  | SetKeyspace i d => db ← get_db w i; Ret (x, set_db w i (mk_db d (db_watched db)))
  end.

Fixpoint run (x : list (event Q)) (w : world) (os : list op) : out (list (event Q) * world) :=
  match os with [] => Ret (x, w) | o :: os => '(x, w) ← step x w o; run x w os end.

(** ** The specification *)

Definition touched (wk : nat * bytes) (t : tx Q) : tx Q :=
  if bool_decide (wk ∈ t_keys t) then mk_tx (t_multi t) true (t_error t) (t_db t) (t_queue t) (t_keys t) else t.
Definition touched_all (ts : list (tx Q)) (ks : list (nat * bytes)) : list (tx Q) :=
  foldl (λ ts wk, touched wk <$> ts) ts ks.
Definition idle (t : tx Q) : tx Q := mk_tx false false false (t_db t) [] ∅.
Definition set_keys (t : tx Q) (ks : gset (nat * bytes)) : tx Q :=
  mk_tx (t_multi t) (t_dirty t) (t_error t) (t_db t) (t_queue t) ks.

(** MULTI goes out before the first command that is neither read-only nor
    administrative. *)
Fixpoint exec_events (c : nat) (qs : list Q) (sent : bool) : list (event Q) :=
  match qs with
  | [] => []
  | q :: qs =>
    if negb sent && negb (has (qflags q) (Z.lor CMD_READONLY CMD_ADMIN))
    then SentMulti :: Ran c q :: exec_events c qs true else Ran c q :: exec_events c qs sent
  end.

Definition spec_exec (c : nat) (t : tx Q) (ts : list (tx Q)) : list (event Q) * list (tx Q) :=
  if negb (t_multi t) then ([Replied c ExecWithoutMulti], ts)
  else if t_dirty t || t_error t
  then ([Replied c (if t_error t then ExecAborted else NullMultiBulk)], <[c := idle t]> ts)
  else (Replied c (MultiBulkLen (length (t_queue t))) :: exec_events c (t_queue t) false,
        touched_all (<[c := idle t]> ts) (t_queue t ≫= touches)).

Definition spec_flush (ks : keyspaces) (dbid : option nat) (t : tx Q) : tx Q :=
  if bool_decide (∃ wk, wk ∈ t_keys t ∧ flushes ks dbid wk = true)
  then mk_tx (t_multi t) true (t_error t) (t_db t) (t_queue t) (t_keys t) else t.

(** An operation of the client [c]. *)
Definition spec_client (n : nat) (o : op) (c : nat) (t : tx Q) (ts : list (tx Q)) : list (event Q) * list (tx Q) :=
  match o with
  | Watch _ _ keys =>
    if t_multi t then ([Replied c WatchInsideMulti], ts)
    else ([Replied c ReplyOk], <[c := set_keys t (t_keys t ∪ list_to_set ((λ k, (t_db t, k)) <$> keys))]> ts)
  | Unwatch _ => ([Replied c ReplyOk], <[c := mk_tx (t_multi t) false (t_error t) (t_db t) (t_queue t) ∅]> ts)
  | Multi _ =>
    if t_multi t then ([Replied c MultiNested], ts)
    else ([Replied c ReplyOk], <[c := mk_tx true (t_dirty t) (t_error t) (t_db t) (t_queue t) (t_keys t)]> ts)
  | Enqueue _ q => ([], <[c := mk_tx (t_multi t) (t_dirty t) (t_error t) (t_db t) (t_queue t ++ [q]) (t_keys t)]> ts)
  | QueueError _ =>
    ([], <[c := mk_tx (t_multi t) (t_dirty t) (t_multi t || t_error t) (t_db t) (t_queue t) (t_keys t)]> ts)
  | Discard _ => if t_multi t then ([Replied c ReplyOk], <[c := idle t]> ts) else ([Replied c DiscardWithoutMulti], ts)
  | Exec _ => spec_exec c t ts
  | Select _ i =>
    ([], <[c := mk_tx (t_multi t) (t_dirty t) (t_error t) (if bool_decide (i < n) then i else t_db t) (t_queue t) (t_keys t)]> ts)
  | _ => ([], ts)
  end.

(** The client an operation is of. *)
Definition owner (o : op) : option nat :=
  match o with
  | Watch c _ _ | Unwatch c | Multi c | Enqueue c _ | QueueError c | Discard c | Exec c | Select c _ => Some c
  | Touch _ _ | FlushDb _ | SetKeyspace _ _ => None
  end.

Notation state := (keyspaces * list (tx Q))%type.

Definition spec_step (s : state) (o : op) : list (event Q) * state :=
  match o with
  | Touch i k => ([], (s.1, touched (i, k) <$> s.2))
  | FlushDb dbid => ([], (s.1, spec_flush s.1 dbid <$> s.2))
  | SetKeyspace i d => ([], (<[i := to_map (canon := id) d]> s.1, s.2))
  | o =>
    match owner o with
    | Some c =>
      match s.2 !! c with
      | Some t => let '(evs, ts) := spec_client (length s.1) o c t s.2 in (evs, (s.1, ts))
      | None => ([], s)
      end
    | None => ([], s)
    end
  end.

Fixpoint spec_run (s : state) (os : list op) : list (event Q) * state :=
  match os with
  | [] => ([], s)
  | o :: os => let '(evs, s) := spec_step s o in let '(evs', s) := spec_run s os in (evs ++ evs', s)
  end.

(** ** Refinement *)

Definition abs (cl : mclient Q) : tx Q :=
  mk_tx (has (m_flags cl) CLIENT_MULTI) (has (m_flags cl) CLIENT_DIRTY_CAS) (has (m_flags cl) CLIENT_DIRTY_EXEC)
    (m_db cl) (mstate cl) (list_to_set (watched_keys cl)).
Definition abs_world (w : world) : state := (keyspace w, abs <$> mclients w).

Context (Hrange : ∀ s, (0 ≤ hash s < 2 ^ 64)%Z).
Notation w_ok := (w_ok hash).
Implicit Types (w : world) (cl : mclient Q).

Lemma abs_marked cl : abs (marked cl) = mk_tx (t_multi (abs cl)) true (t_error (abs cl)) (t_db (abs cl)) (t_queue (abs cl)) (t_keys (abs cl)).
Proof.
  unfold abs, marked. simpl. f_equal; rewrite has_lor; [|by rewrite orb_true_r|].
  - change (has CLIENT_DIRTY_CAS CLIENT_MULTI) with false. by rewrite orb_false_r.
  - change (has CLIENT_DIRTY_CAS CLIENT_DIRTY_EXEC) with false. by rewrite orb_false_r.
Qed.

Lemma abs_touched wk cl : abs (mark_if (bool_decide (wk ∈ watched_keys cl)) cl) = touched wk (abs cl).
Proof.
  unfold touched, abs at 2. cbn [t_keys]. rewrite (bool_decide_ext (wk ∈ (list_to_set (watched_keys cl) : gset _)) (wk ∈ watched_keys cl))
    by apply elem_of_list_to_set. case_bool_decide; [|done]. apply abs_marked.
Qed.

Lemma abs_flushed ks dbid cl :
  abs (mark_if (existsb (flushes ks dbid) (watched_keys cl)) cl) = spec_flush ks dbid (abs cl).
Proof.
  unfold spec_flush. assert (existsb (flushes ks dbid) (watched_keys cl)
    = bool_decide (∃ wk, wk ∈ t_keys (abs cl) ∧ flushes ks dbid wk = true)) as ->.
  { apply eq_true_iff_eq. rewrite bool_decide_eq_true, existsb_exists. split; intros (wk & H1 & H2); exists wk; split; try done.
    - apply elem_of_list_to_set. by apply list_elem_of_In.
    - apply list_elem_of_In. by apply elem_of_list_to_set in H1. }
  case_bool_decide; [|done]. apply abs_marked.
Qed.

Lemma marks_abs w w' f g :
  marks hash w w' (λ _, f) → (∀ cl, abs (mark_if (f cl) cl) = g (abs cl)) → abs_world w' = (keyspace w, g <$> (abs <$> mclients w)).
Proof.
  intros (_ & HK & _ & HM) Hg. unfold abs_world. rewrite HK, HM. f_equal. rewrite <-list_fmap_compose. apply list_eq. intros c.
  rewrite !list_lookup_fmap, list_lookup_imap. destruct (mclients w !! c) as [cl|]; [|done]. simpl. by rewrite Hg.
Qed.

(** A client after [discardTransaction]. *)
Lemma abs_discard cl :
  abs (with_watched (with_flags (with_mstate cl [])
    (Z.ldiff (m_flags cl) (Z.lor (Z.lor CLIENT_MULTI CLIENT_DIRTY_CAS) CLIENT_DIRTY_EXEC))) []) = idle (abs cl).
Proof.
  unfold abs, idle. simpl. rewrite !has_ldiff.
  change (Z.ldiff CLIENT_MULTI _) with 0%Z. change (Z.ldiff CLIENT_DIRTY_CAS _) with 0%Z.
  change (Z.ldiff CLIENT_DIRTY_EXEC _) with 0%Z. by rewrite has_0.
Qed.

Lemma abs_lookup (w : world) c t : (abs <$> mclients w) !! c = Some t → ∃ cl, mclients w !! c = Some cl ∧ t = abs cl.
Proof. rewrite list_lookup_fmap. intros (cl & -> & E)%fmap_Some. by exists cl. Qed.

Lemma discard_spec w c cl :
  w_ok w → mclients w !! c = Some cl →
  ∃ w', discardTransaction hash w c = Ret w' ∧ w_ok w' ∧ next_list w' = next_list w
    ∧ abs_world w' = (keyspace w, <[c := idle (abs cl)]> (abs <$> mclients w)).
Proof.
  intros Hw E. unfold discardTransaction, get_client. rewrite E. bind_red.
  set (cl' := with_flags _ _).
  assert (w_ok (set_client w c cl')) as Hw1.
  { apply (w_ok_client hash w c cl); [done|done|done|]. by destruct (wo_client hash w Hw c cl E). }
  destruct (unwatchAllKeys_spec hash Hrange (set_client w c cl') c cl' Hw1) as (w' & -> & Hw' & HK & HM & HN).
  { apply list_lookup_insert_eq. by apply lookup_lt_Some in E. }
  exists w'. split_and!; [done|done|done|]. unfold abs_world. rewrite HK, HM. f_equal. simpl.
  rewrite list_insert_insert_eq, list_fmap_insert. f_equal. apply abs_discard.
Qed.

Lemma watch_fold_spec can c keys : ∀ w cl,
  w_ok w → mclients w !! c = Some cl → (Z.of_nat (next_list w + length keys) ≤ 2 ^ 60)%Z →
  ∃ w', out_fold (λ w k, watchForKey hash can w c k) w keys = Ret w' ∧ w_ok w' ∧ keyspace w' = keyspace w
    ∧ next_list w' ≤ next_list w + length keys
    ∧ ∃ ks, mclients w' = <[c := with_watched cl ks]> (mclients w)
        ∧ (list_to_set ks : gset (nat * bytes)) = list_to_set (watched_keys cl) ∪ list_to_set ((λ k, (m_db cl, k)) <$> keys).
Proof.
  induction keys as [|k keys IH]; intros w cl Hw E Hb; cbn [out_fold].
  { exists w. split_and!; [done|done|done|lia|]. exists (watched_keys cl). split; [|set_solver].
    symmetry. apply list_insert_id. rewrite E. by destruct cl. }
  simpl in Hb. destruct (watchForKey_spec hash Hrange can w c cl k Hw E) as (w1 & -> & Hw1 & HK & HM & HN); [lia|]. bind_red.
  destruct (IH w1 (with_watched cl (add_key (watched_keys cl) (m_db cl, k))) Hw1) as (w' & -> & Hw' & HK' & HN' & ks & HM' & Hks).
  { rewrite HM. apply list_lookup_insert_eq. by apply lookup_lt_Some in E. }
  { lia. }
  exists w'. split_and!; [done|done|by rewrite HK'|simpl; lia|]. exists ks. split.
  - by rewrite HM', HM, list_insert_insert_eq.
  - rewrite Hks. simpl. unfold add_key. case_bool_decide as Hin; [|set_solver].
    assert ((m_db cl, k) ∈ (list_to_set (watched_keys cl) : gset _)) by (by apply elem_of_list_to_set). set_solver.
Qed.

Lemma touch_keys_spec ks : ∀ w,
  w_ok w → (∀ wk, wk ∈ ks → wk.1 < length (dbs w)) →
  ∃ w', touch_keys w ks = Ret w' ∧ w_ok w' ∧ next_list w' = next_list w
    ∧ abs_world w' = (keyspace w, touched_all (abs <$> mclients w) ks)
    ∧ ∀ c cl, mclients w !! c = Some cl → watched_keys cl = [] → mclients w' !! c = Some cl.
Proof.
  induction ks as [|[i k] ks IH]; intros w Hw Hk; unfold touch_keys; cbn [out_fold]; [by exists w|].
  destruct (touch_spec hash Hrange w i k Hw) as (w1 & E1 & HM); [apply (Hk (i, k)); by left|].
  cbn [fst snd]. rewrite E1. bind_red. pose proof (marks_abs w w1 _ _ HM (abs_touched (i, k))) as HA.
  destruct HM as (Hw1 & HK & HN & HM). destruct (IH w1 Hw1) as (w' & E' & Hw' & HN' & HA' & HC).
  { intros wk Hwk. rewrite (keyspace_dbs w w1 HK). apply Hk. by right. }
  unfold touch_keys in E'. exists w'. split_and!; [done|done|lia| |].
  - rewrite HA', HK. injection HA as HA1 HA2. simpl. by rewrite HA2.
  - intros c cl Ec Ek. apply HC; [|done]. rewrite HM, list_lookup_imap, Ec. simpl. by rewrite Ek, bool_decide_eq_false_2 by apply not_elem_of_nil.
Qed.

(** A client that watches nothing is not marked. *)
Lemma touched_insert c t ks : ∀ ts,
  t_keys t = ∅ →
  touched_all (<[c := t]> ts) ks = <[c := t]> (touched_all ts ks).
Proof.
  induction ks as [|wk ks IH]; intros ts Ht; [done|]. unfold touched_all. cbn [foldl]. rewrite list_fmap_insert.
  assert (touched wk t = t) as -> by (unfold touched; rewrite Ht; by rewrite bool_decide_eq_false_2 by set_solver).
  by apply IH.
Qed.

Context (n : nat) (Hq : ∀ q wk, wk ∈ touches q → wk.1 < n).

Lemma exec_loop_spec c cl qs : ∀ x w sent,
  w_ok w → length (dbs w) = n → mclients w !! c = Some cl → watched_keys cl = [] →
  ∃ w' b, exec_loop log_ops x w c qs sent = Ret (x ++ exec_events c qs sent, w', qs, b) ∧ w_ok w'
    ∧ next_list w' = next_list w ∧ mclients w' !! c = Some cl
    ∧ abs_world w' = (keyspace w, touched_all (abs <$> mclients w) (qs ≫= touches)).
Proof.
  induction qs as [|q qs IH]; intros x w sent Hw Hn E Ek; cbn [exec_loop exec_events].
  { exists w, sent. by rewrite app_nil_r. }
  destruct (touch_keys_spec (touches q) w Hw) as (w1 & E1 & Hw1 & HN & HA & HC); [intros wk; rewrite Hn; apply Hq|].
  injection HA as HK HT.
  assert (∀ x' sent', ∃ w' b, exec_loop log_ops (x' ++ [Ran c q]) w1 c qs sent' = Ret (x' ++ Ran c q :: exec_events c qs sent', w', qs, b)
    ∧ w_ok w' ∧ next_list w' = next_list w ∧ mclients w' !! c = Some cl
    ∧ abs_world w' = (keyspace w, touched_all (abs <$> mclients w) ((q :: qs) ≫= touches))) as Hrest.
  { intros x' sent'. destruct (IH (x' ++ [Ran c q]) w1 sent' Hw1) as (w' & b & -> & Hw' & HN' & Ec' & HA');
      [by rewrite (keyspace_dbs w w1)|by apply HC|done|].
    exists w', b. rewrite <-app_assoc. split_and!; [done|done|lia|done|]. rewrite HA', HK, HT. cbn [mbind list_bind].
    unfold touched_all. by rewrite foldl_app. }
  unfold propagate_once. cbn [log_ops x_flags x_multi x_call].
  destruct (negb sent && _); bind_red; rewrite E1; bind_red.
  - destruct (Hrest (x ++ [SentMulti]) true) as (w' & b & E' & H). rewrite E'. bind_red. rewrite <-app_assoc. by exists w', b.
  - destruct (Hrest x sent) as (w' & b & E' & H). rewrite E'. bind_red. by exists w', b.
Qed.

Lemma exec_spec x w c cl :
  w_ok w → length (dbs w) = n → mclients w !! c = Some cl →
  ∃ w' b, execCommand hash log_ops x w c = Ret (x ++ (spec_exec c (abs cl) (abs <$> mclients w)).1, w', b)
    ∧ w_ok w' ∧ next_list w' = next_list w
    ∧ abs_world w' = (keyspace w, (spec_exec c (abs cl) (abs <$> mclients w)).2).
Proof.
  intros Hw Hn E. unfold execCommand, get_client. rewrite E. bind_red. unfold spec_exec. cbn [abs t_multi t_dirty t_error t_queue].
  destruct (has (m_flags cl) CLIENT_MULTI); cbn [negb]; [|by exists w, false].
  rewrite has_lor_r. destruct (_ || _).
  { destruct (discard_spec w c cl Hw E) as (w' & -> & Hw' & HN & HA). bind_red. by exists w', false. }
  destruct (unwatchAllKeys_spec hash Hrange w c cl Hw E) as (w1 & -> & Hw1 & HK & HM & HN). bind_red. cbn [log_ops x_reply x_master].
  destruct (exec_loop_spec c (with_watched cl []) (mstate cl) (x ++ [Replied c (MultiBulkLen (length (mstate cl)))]) w1 false Hw1)
    as (w2 & b & -> & Hw2 & HN2 & E2 & HA2); [by rewrite (keyspace_dbs w w1)| |done|].
  { rewrite HM. apply list_lookup_insert_eq. by apply lookup_lt_Some in E. }
  bind_red. rewrite E2. bind_red. injection HA2 as HK2 HA2.
  set (w3 := set_client w2 c _).
  assert (w_ok w3) as Hw3.
  { apply (w_ok_client hash w2 c (with_watched cl [])); [done|done|done|]. by destruct (wo_client hash w2 Hw2 c _ E2). }
  destruct (discard_spec w3 c (with_mstate (with_watched cl []) (mstate cl)) Hw3) as (w' & -> & Hw' & HN' & HA').
  { apply list_lookup_insert_eq. by apply lookup_lt_Some in E2. }
  bind_red. exists w', b. split; [|split_and!; [done|rewrite HN'; simpl; lia|]].
  - rewrite <-app_assoc. simpl. by destruct b.
  - rewrite HA'. change (keyspace w3) with (keyspace w2). rewrite HK2, HK. f_equal. unfold w3. cbn [set_client mclients snd].
    rewrite list_fmap_insert, list_insert_insert_eq, HA2, HM, list_fmap_insert, !touched_insert by done.
    by rewrite list_insert_insert_eq.
Qed.

(** ** All operations *)

Definition op_ok (m : nat) (o : op) : Prop :=
  match o with
  | Touch i _ => i < n
  | SetKeyspace i d => i < n ∧ dict_ok (hashFunction := hash) (canon := id) (valid := λ _, True) d
  | _ => match owner o with Some c => c < m | None => True end
  end.

(** The keys watched for the first time. *)
Definition cost (o : op) : nat := match o with Watch _ _ keys => length keys | _ => 0 end.

Definition simulated (x : list (event Q)) w (o : op) (r : list (event Q) * state) : Prop :=
  ∃ w', step x w o = Ret (x ++ r.1, w') ∧ w_ok w' ∧ abs_world w' = r.2 ∧ next_list w' ≤ next_list w + cost o.

Lemma simulated_set x w o c cl cl' evs :
  w_ok w → mclients w !! c = Some cl → watched_keys cl' = watched_keys cl → m_db cl' < length (dbs w) →
  step x w o = Ret (x ++ evs, set_client w c cl') → simulated x w o (evs, (keyspace w, <[c := abs cl']> (abs <$> mclients w))).
Proof.
  intros Hw E Ek Hdb Es. exists (set_client w c cl'). split_and!; [done|by apply (w_ok_client hash w c cl)| |simpl; lia].
  unfold abs_world. simpl. by rewrite list_fmap_insert.
Qed.

Lemma simulated_id x w o evs : w_ok w → step x w o = Ret (x ++ evs, w) → simulated x w o (evs, abs_world w).
Proof. intros Hw Es. exists w. split_and!; [done|done|done|lia]. Qed.

Lemma watch_step x w c cl can keys :
  w_ok w → mclients w !! c = Some cl → (Z.of_nat (next_list w + length keys) ≤ 2 ^ 60)%Z →
  let r := spec_client n (Watch c can keys) c (abs cl) (abs <$> mclients w) in
  simulated x w (Watch c can keys) (r.1, (keyspace w, r.2)).
Proof.
  intros Hw E Hb. assert (get_client w c = Ret cl) as Eg by (unfold get_client; by rewrite E).
  unfold spec_client. cbn [abs t_multi]. destruct (has (m_flags cl) CLIENT_MULTI) eqn:HM; cbv zeta.
  { apply simulated_id; [done|]. simpl. unfold watchCommand. rewrite Eg. bind_red. by rewrite HM. }
  destruct (watch_fold_spec can c keys w cl Hw E Hb) as (w' & Ef & Hw' & HK & HN & ks & HM' & Hks).
  exists w'. split_and!; [|done| |done].
  - simpl. unfold watchCommand. rewrite Eg. bind_red. rewrite HM, Ef. by bind_red.
  - unfold abs_world. rewrite HK, HM', list_fmap_insert. simpl. unfold set_keys, abs at 1. simpl. by rewrite Hks, HM.
Qed.

Lemma unwatch_step x w c cl :
  w_ok w → mclients w !! c = Some cl →
  let r := spec_client n (Unwatch c) c (abs cl) (abs <$> mclients w) in
  simulated x w (Unwatch c) (r.1, (keyspace w, r.2)).
Proof.
  intros Hw E. destruct (wo_client hash w Hw c cl E) as [_ Hdb].
  destruct (unwatchAllKeys_spec hash Hrange w c cl Hw E) as (w' & Eu & Hw' & HK & HM & HN).
  assert (mclients w' !! c = Some (with_watched cl [])) as E'.
  { rewrite HM. apply list_lookup_insert_eq. by apply lookup_lt_Some in E. }
  set (cl' := with_flags (with_watched cl []) (Z.ldiff (m_flags cl) CLIENT_DIRTY_CAS)).
  exists (set_client w' c cl'). split_and!; [|apply (w_ok_client hash w' c (with_watched cl [])); [done|done|done|]| |simpl; lia].
  - simpl. unfold unwatchCommand. rewrite Eu. bind_red. unfold get_client. rewrite E'. by bind_red.
  - simpl. by rewrite (keyspace_dbs w w' HK).
  - unfold abs_world. change (keyspace (set_client w' c cl')) with (keyspace w'). cbn [set_client mclients].
    rewrite HK, HM, list_insert_insert_eq, list_fmap_insert. simpl. do 2 f_equal. unfold cl', abs. simpl. rewrite !has_ldiff.
    change (Z.ldiff CLIENT_MULTI CLIENT_DIRTY_CAS) with CLIENT_MULTI. change (Z.ldiff CLIENT_DIRTY_CAS CLIENT_DIRTY_CAS) with 0%Z.
    change (Z.ldiff CLIENT_DIRTY_EXEC CLIENT_DIRTY_CAS) with CLIENT_DIRTY_EXEC. by rewrite has_0.
Qed.

(** A flag that is set. *)
Lemma abs_multi cl :
  abs (with_flags cl (Z.lor (m_flags cl) CLIENT_MULTI))
  = mk_tx true (t_dirty (abs cl)) (t_error (abs cl)) (t_db (abs cl)) (t_queue (abs cl)) (t_keys (abs cl)).
Proof.
  unfold abs. simpl. rewrite !has_lor. change (has CLIENT_MULTI CLIENT_MULTI) with true.
  change (has CLIENT_MULTI CLIENT_DIRTY_CAS) with false. change (has CLIENT_MULTI CLIENT_DIRTY_EXEC) with false.
  by rewrite orb_true_r, !orb_false_r.
Qed.

Lemma abs_error cl :
  abs (with_flags cl (Z.lor (m_flags cl) CLIENT_DIRTY_EXEC))
  = mk_tx (t_multi (abs cl)) (t_dirty (abs cl)) true (t_db (abs cl)) (t_queue (abs cl)) (t_keys (abs cl)).
Proof.
  unfold abs. simpl. rewrite !has_lor. change (has CLIENT_DIRTY_EXEC CLIENT_DIRTY_EXEC) with true.
  change (has CLIENT_DIRTY_EXEC CLIENT_DIRTY_CAS) with false. change (has CLIENT_DIRTY_EXEC CLIENT_MULTI) with false.
  by rewrite orb_true_r, !orb_false_r.
Qed.

Lemma client_step x w o c cl :
  w_ok w → length (dbs w) = n → mclients w !! c = Some cl → owner o = Some c →
  (Z.of_nat (next_list w + cost o) ≤ 2 ^ 60)%Z →
  let r := spec_client n o c (abs cl) (abs <$> mclients w) in
  simulated x w o (r.1, (keyspace w, r.2)).
Proof.
  intros Hw Hn E Ho Hb. destruct (wo_client hash w Hw c cl E) as [_ Hdb].
  assert (get_client w c = Ret cl) as Eg by (unfold get_client; by rewrite E).
  destruct o; try discriminate Ho; injection Ho as ->; cbv zeta.
  - by apply watch_step.
  - by apply unwatch_step.
  - unfold spec_client. destruct (t_multi (abs cl)) eqn:HM; [apply simulated_id; [done|]|rewrite <-abs_multi; apply (simulated_set x w _ c cl); try done];
      cbn [step]; unfold multiCommand; rewrite Eg; bind_red; simpl in HM; by rewrite HM.
  - apply (simulated_set x w _ c cl (with_mstate cl (mstate cl ++ [q]))); [done|done|done|done|].
    cbn [step]. unfold queueMultiCommand. rewrite Eg. bind_red. by rewrite app_nil_r.
  - unfold spec_client. destruct (t_multi (abs cl)) eqn:HM; cbn [orb fst snd].
    + pose proof (abs_error cl) as HA. rewrite HM in HA. rewrite <-HA. apply (simulated_set x w _ c cl); [done|done|done|done|]. cbn [step]. unfold flagTransaction.
      rewrite Eg. bind_red. simpl in HM. by rewrite HM, app_nil_r.
    + rewrite list_insert_id; [|rewrite list_lookup_fmap, E; simpl in *; unfold abs; by rewrite HM].
      apply simulated_id; [done|]. cbn [step]. unfold flagTransaction. rewrite Eg. bind_red. simpl in HM. by rewrite HM, app_nil_r.
  - unfold spec_client. destruct (t_multi (abs cl)) eqn:HM; simpl in HM.
    + destruct (discard_spec w c cl Hw E) as (w' & Ed & Hw' & HN & HA). exists w'. split_and!; [|done|done|lia].
      cbn [step]. unfold discardCommand. rewrite Eg. bind_red. rewrite HM. cbn [negb]. rewrite Ed. by bind_red.
    + apply simulated_id; [done|]. cbn [step]. unfold discardCommand. rewrite Eg. bind_red. by rewrite HM.
  - destruct (exec_spec x w c cl Hw Hn E) as (w' & b & Ee & Hw' & HN & HA). exists w'. split_and!; [|done|done|lia].
    cbn [step]. rewrite Ee. by bind_red.
  - unfold spec_client. case_bool_decide as Hi; cbn [fst snd].
    + apply (simulated_set x w _ c cl (mk_mclient (m_flags cl) i (mstate cl) (watched_keys cl))); [done|done|done|simpl; lia|].
      cbn [step]. unfold selectDb. rewrite Eg. bind_red. by rewrite bool_decide_eq_true_2, app_nil_r by lia.
    + rewrite list_insert_id; [|by rewrite list_lookup_fmap, E]. apply simulated_id; [done|]. cbn [step]. unfold selectDb.
      rewrite Eg. bind_red. by rewrite bool_decide_eq_false_2, app_nil_r by lia.
Qed.

Lemma keyspace_length w : length (keyspace w) = length (dbs w).
Proof. apply length_fmap. Qed.

Lemma step_spec x w o :
  w_ok w → length (dbs w) = n → op_ok (length (mclients w)) o → (Z.of_nat (next_list w + cost o) ≤ 2 ^ 60)%Z →
  simulated x w o (spec_step (abs_world w) o).
Proof.
  intros Hw Hn Ho Hb.
  assert (∀ c, owner o = Some c → c < length (mclients w) → simulated x w o
    (match (abs <$> mclients w) !! c with
     | Some t => let '(evs, ts) := spec_client n o c t (abs <$> mclients w) in (evs, (keyspace w, ts))
     | None => ([], abs_world w) end)) as Hclient.
  { intros c Hc [cl E]%lookup_lt_is_Some_2. rewrite list_lookup_fmap, E. simpl.
    pose proof (client_step x w o c cl Hw Hn E Hc Hb) as H. cbv zeta in H. by destruct (spec_client _ _ _ _ _). }
  destruct o; simpl in Ho; try (cbn [spec_step owner abs_world fst snd]; rewrite keyspace_length, Hn; by apply Hclient).
  - destruct (touch_spec hash Hrange w i k Hw) as (w' & Et & HM); [by rewrite Hn|]. exists w'. split_and!.
    + cbn [step]. rewrite Et. bind_red. by rewrite app_nil_r.
    + apply HM.
    + by rewrite (marks_abs w w' _ _ HM (abs_touched (i, k))).
    + destruct HM as (_ & _ & -> & _). lia.
  - destruct (flush_spec hash Hrange w dbid Hw) as (w' & Et & HM). exists w'. split_and!.
    + cbn [step]. rewrite Et. bind_red. by rewrite app_nil_r.
    + apply HM.
    + by rewrite (marks_abs w w' _ _ HM (abs_flushed (keyspace w) dbid)).
    + destruct HM as (_ & _ & -> & _). lia.
  - destruct Ho as [Hi Hd]. destruct (lookup_lt_is_Some_2 (dbs w) i) as [db E]; [by rewrite Hn|].
    eexists. split_and!; [|by apply (w_ok_new_keyspace hash w i db d Hw E)| |simpl; lia].
    + cbn [step]. unfold get_db. rewrite E. bind_red. by rewrite app_nil_r.
    + unfold abs_world, keyspace. cbn [set_db dbs mclients spec_step fst snd]. by rewrite list_fmap_insert.
Qed.

Lemma spec_step_length s o : length (spec_step s o).2.1 = length s.1 ∧ length (spec_step s o).2.2 = length s.2.
Proof.
  assert (∀ ks ts, length (touched_all ts ks) = length ts) as Ht.
  { intros ks. induction ks as [|wk ks IH]; intros ts; [done|]. unfold touched_all. cbn [foldl].
    etrans; [apply IH|]. apply length_fmap. }
  destruct o; cbn [spec_step owner fst snd]; rewrite ?length_insert, ?length_fmap; try done.
  all: destruct (s.2 !! c) as [t|]; [|done]; cbn [spec_client]; unfold spec_exec.
  all: repeat match goal with |- context [if ?b then _ else _] => destruct b end; cbn [fst snd]; by rewrite ?Ht, ?length_insert.
Qed.

Definition total_cost (os : list op) : nat := sum_list_with cost os.

Lemma run_spec os : ∀ x w,
  w_ok w → length (dbs w) = n → Forall (op_ok (length (mclients w))) os →
  (Z.of_nat (next_list w + total_cost os) ≤ 2 ^ 60)%Z →
  ∃ w', run x w os = Ret (x ++ (spec_run (abs_world w) os).1, w') ∧ w_ok w' ∧ abs_world w' = (spec_run (abs_world w) os).2.
Proof.
  induction os as [|o os IH]; intros x w Hw Hn Ho Hb; cbn [run spec_run].
  { exists w. by rewrite app_nil_r. }
  apply Forall_cons in Ho as [Ho Hos]. unfold total_cost in *. cbn [sum_list_with] in Hb.
  destruct (step_spec x w o Hw Hn Ho) as (w1 & E1 & Hw1 & HA & HN); [lia|]. rewrite E1. bind_red.
  pose proof (spec_step_length (abs_world w) o) as [L1 L2]. destruct (spec_step (abs_world w) o) as [evs s] eqn:Es. simpl in *.
  assert (length (dbs w1) = n) as Hn1 by (rewrite <-keyspace_length; change (keyspace w1) with (abs_world w1).1; rewrite HA, L1, keyspace_length; done).
  assert (length (mclients w1) = length (mclients w)) as Hm1.
  { apply (f_equal (length ∘ snd)) in HA. simpl in HA. rewrite length_fmap in HA. rewrite HA, L2. apply length_fmap. }
  destruct (IH (x ++ evs) w1 Hw1 Hn1) as (w' & -> & Hw' & HA'); [by rewrite Hm1|lia|].
  exists w'. rewrite HA in *. destruct (spec_run s os) as [evs' s']. simpl in *. by rewrite app_assoc.
Qed.

(** ** Runs from the start *)

Definition init_world (m : nat) : world :=
  mk_world (replicate n (mk_db dictCreate dictCreate)) ∅ 0 (replicate m (mk_mclient 0 0 [] [])).
Definition init_spec (m : nat) : state := (replicate n ∅, replicate m (mk_tx false false false 0 [] ∅)).

Lemma init_ok m : 0 < n → w_ok (init_world m) ∧ abs_world (init_world m) = init_spec m.
Proof.
  intros Hn. assert (∀ i k, ptr (init_world m) i k = None) as HP.
  { intros i k. unfold ptr, init_world. cbn [dbs]. destruct (replicate n (mk_db dictCreate dictCreate) !! i) as [db|] eqn:E; [|done].
    apply lookup_replicate in E as [-> _]. done. }
  assert (∀ i k, watchers (init_world m) i k = []) as HW by (intros i k; unfold watchers; by rewrite HP).
  split; [split; [split| | |]|].
  - intros i db [-> _]%lookup_replicate. simpl. split_and!; [apply dict_ok_create|apply dict_ok_create|done].
  - intros i k p. by rewrite HP.
  - intros i k i' k' p. by rewrite HP.
  - intros i k. rewrite HW. constructor.
  - intros i k c. rewrite HW. unfold watches, init_world. cbn [mclients].
    destruct (replicate m (mk_mclient 0 0 [] []) !! c) as [cl|] eqn:E; [apply lookup_replicate in E as [-> _]; simpl|]; set_solver.
  - intros c cl [-> _]%lookup_replicate. simpl. split; [constructor|by rewrite length_replicate].
  - unfold abs_world, init_spec, keyspace, init_world. cbn [dbs mclients]. rewrite !fmap_replicate. done.
Qed.

(** *** Keys modified in a run of the specification *)

Definition step_modifies (s : state) (o : op) (wk : nat * bytes) : Prop :=
  match o with
  | Touch i k => (i, k) = wk
  | FlushDb dbid => flushes s.1 dbid wk = true
  | Exec c =>
    match s.2 !! c with
    | Some t => t_multi t = true ∧ t_dirty t || t_error t = false ∧ wk ∈ t_queue t ≫= touches
    | None => False
    end
  | _ => False
  end.

Fixpoint modifies (s : state) (os : list op) (wk : nat * bytes) : Prop :=
  match os with [] => False | o :: os => step_modifies s o wk ∨ modifies (spec_step s o).2 os wk end.

(** A client changed by others: only its mark, and only if [P]. *)
Record dirtied (P : Prop) (t t' : tx Q) : Prop := {
  di_dirty : t_dirty t' = true ↔ t_dirty t = true ∨ P;
  di_multi : t_multi t' = t_multi t;
  di_error : t_error t' = t_error t;
  di_db : t_db t' = t_db t;
  di_queue : t_queue t' = t_queue t;
  di_keys : t_keys t' = t_keys t;
}.

Lemma dirtied_refl (P : Prop) t : ¬ P → dirtied P t t.
Proof. intros H. split; tauto. Qed.

Lemma dirtied_set (P : Prop) t :
  P → dirtied P t (mk_tx (t_multi t) true (t_error t) (t_db t) (t_queue t) (t_keys t)).
Proof. intros H. split; simpl; tauto. Qed.

Lemma dirtied_trans (P1 P2 P : Prop) t1 t2 t3 :
  dirtied P1 t1 t2 → dirtied P2 t2 t3 → (P ↔ P1 ∨ P2) → dirtied P t1 t3.
Proof. intros [H1 H2 H3 H4 H5 H6] [K1 K2 K3 K4 K5 K6] HP. split; [tauto|congruence|congruence|congruence|congruence|congruence]. Qed.

Lemma dirtied_iff (P P' : Prop) t t' : dirtied P t t' → (P' ↔ P) → dirtied P' t t'.
Proof. intros [H1 H2 H3 H4 H5 H6] HP. split; [tauto|done|done|done|done|done]. Qed.

Lemma touched_dirtied wk t : dirtied (wk ∈ t_keys t) t (touched wk t).
Proof. unfold touched. case_bool_decide; [by apply dirtied_set|by apply dirtied_refl]. Qed.

Lemma touched_all_dirtied ks : ∀ ts c t,
  ts !! c = Some t → ∃ t', touched_all ts ks !! c = Some t' ∧ dirtied (∃ wk, wk ∈ ks ∧ wk ∈ t_keys t) t t'.
Proof.
  induction ks as [|wk ks IH]; intros ts c t E.
  { exists t. split; [done|]. apply dirtied_refl. intros (wk & H & _). by apply not_elem_of_nil in H. }
  destruct (IH (touched wk <$> ts) c (touched wk t)) as (t' & E' & HD); [by rewrite list_lookup_fmap, E|].
  exists t'. split; [done|]. pose proof (touched_dirtied wk t) as HD1. apply (dirtied_trans _ _ _ _ _ _ HD1 HD).
  rewrite (di_keys _ _ _ HD1). setoid_rewrite elem_of_cons. naive_solver.
Qed.

Lemma others_step s o c t :
  owner o ≠ Some c → s.2 !! c = Some t →
  ∃ t', (spec_step s o).2.2 !! c = Some t' ∧ dirtied (∃ wk, wk ∈ t_keys t ∧ step_modifies s o wk) t t'.
Proof.
  intros Ho E.
  assert (∀ c' t' ts', owner o = Some c' → (<[c' := t']> ts' : list (tx Q)) !! c = ts' !! c) as Hne.
  { intros c' t' ts' Ec. apply list_lookup_insert_ne. intros ->. done. }
  assert (¬ (∃ wk, wk ∈ t_keys t ∧ step_modifies s o wk) → (spec_step s o).2.2 !! c = s.2 !! c →
    ∃ t', (spec_step s o).2.2 !! c = Some t' ∧ dirtied (∃ wk, wk ∈ t_keys t ∧ step_modifies s o wk) t t') as Hid.
  { intros Hno Es. exists t. split; [by rewrite Es|by apply dirtied_refl]. }
  destruct o; try (apply Hid; [by intros (wk & _ & [])|cbn [spec_step owner fst snd]; try done;
    destruct (s.2 !! c0) as [t0|]; [|done]; cbn [spec_client];
    repeat match goal with |- context [if ?b then _ else _] => destruct b end; cbn [fst snd]; try done; by apply Hne]).
  - cbn [spec_step owner] in *. destruct (s.2 !! c0) as [t0|] eqn:E0.
    2: { apply Hid; [|done]. cbn [step_modifies]. rewrite E0. by intros (wk & _ & []). }
    cbn [spec_client] in *. unfold spec_exec in *. cbn [step_modifies] in *. rewrite E0 in *.
    destruct (t_multi t0); cbn [negb] in *; [|apply Hid; [naive_solver|done]].
    destruct (t_dirty t0 || t_error t0); cbn [fst snd] in *; [apply Hid; [naive_solver|by apply Hne]|].
    destruct (touched_all_dirtied (t_queue t0 ≫= touches) (<[c0 := idle t0]> s.2) c t) as (t' & E' & HD); [by rewrite Hne|].
    exists t'. split; [done|]. apply (dirtied_iff _ _ _ _ HD). naive_solver.
  - exists (touched (i, k) t). split; [cbn [spec_step snd]; by rewrite list_lookup_fmap, E|].
    apply (dirtied_iff _ _ _ _ (touched_dirtied (i, k) t)). cbn [step_modifies]. naive_solver.
  - exists (spec_flush s.1 dbid t). split; [cbn [spec_step snd]; by rewrite list_lookup_fmap, E|]. unfold spec_flush.
    cbn [step_modifies]. case_bool_decide as Hf; [by apply dirtied_set|by apply dirtied_refl].
  - apply Hid; [by intros (wk & _ & [])|done].
Qed.

Lemma others_run os : ∀ s c t,
  Forall (λ o, owner o ≠ Some c) os → s.2 !! c = Some t →
  ∃ t', (spec_run s os).2.2 !! c = Some t' ∧ dirtied (∃ wk, wk ∈ t_keys t ∧ modifies s os wk) t t'.
Proof.
  induction os as [|o os IH]; intros s c t Ho E; cbn [spec_run modifies].
  { exists t. split; [done|]. apply dirtied_refl. naive_solver. }
  apply Forall_cons in Ho as [Ho Hos]. destruct (others_step s o c t Ho E) as (t1 & E1 & HD1).
  destruct (spec_step s o) as [evs s1]. simpl in *. destruct (IH s1 c t1 Hos E1) as (t' & E' & HD').
  destruct (spec_run s1 os) as [evs' s']. simpl in *. exists t'. split; [done|].
  apply (dirtied_trans _ _ _ _ _ _ HD1 HD'). rewrite (di_keys _ _ _ HD1). naive_solver.
Qed.

(** *** WATCH, then MULTI, then EXEC *)

Lemma spec_run_app s os os' :
  spec_run s (os ++ os') = ((spec_run s os).1 ++ (spec_run (spec_run s os).2 os').1, (spec_run (spec_run s os).2 os').2).
Proof.
  revert s. induction os as [|o os IH]; intros s; simpl; [by destruct (spec_run s os')|].
  destruct (spec_step s o) as [evs s1]. rewrite IH. destruct (spec_run s1 os) as [evs1 s2]. simpl. by rewrite app_assoc.
Qed.

Lemma modifies_app os os' wk : ∀ s, modifies s (os ++ os') wk ↔ modifies s os wk ∨ modifies (spec_run s os).2 os' wk.
Proof.
  induction os as [|o os IH]; intros s; simpl; [tauto|]. rewrite IH. destruct (spec_step s o) as [evs s1]. simpl.
  destruct (spec_run s1 os). simpl. tauto.
Qed.

Lemma enqueue_run c qs : ∀ s t,
  s.2 !! c = Some t →
  (spec_run s (Enqueue c <$> qs)).2 = (s.1, <[c := mk_tx (t_multi t) (t_dirty t) (t_error t) (t_db t) (t_queue t ++ qs) (t_keys t)]> s.2)
  ∧ ∀ wk, ¬ modifies s (Enqueue c <$> qs) wk.
Proof.
  induction qs as [|q qs IH]; intros [ks ts] t E.
  { simpl. split; [|tauto]. f_equal. rewrite app_nil_r. symmetry. apply list_insert_id. simpl in E. rewrite E. by destruct t. }
  simpl in E. pose proof (lookup_lt_Some _ _ _ E) as Hlt. rewrite fmap_cons. cbn [spec_run modifies].
  assert (spec_step (ks, ts) (Enqueue c q)
    = ([], (ks, <[c := mk_tx (t_multi t) (t_dirty t) (t_error t) (t_db t) (t_queue t ++ [q]) (t_keys t)]> ts))) as ->.
  { cbn [spec_step owner fst snd]. by rewrite E. }
  destruct (IH (ks, <[c := mk_tx (t_multi t) (t_dirty t) (t_error t) (t_db t) (t_queue t ++ [q]) (t_keys t)]> ts)
    (mk_tx (t_multi t) (t_dirty t) (t_error t) (t_db t) (t_queue t ++ [q]) (t_keys t))) as [H1 H2].
  { simpl. by apply list_lookup_insert_eq. }
  simpl in *. destruct (spec_run _ _) as [evs s']. simpl in *. split; [|intros wk [[]|H]; by apply (H2 wk)].
  rewrite H1. simpl. by rewrite list_insert_insert_eq, <-app_assoc.
Qed.

(** What the client does between WATCH and EXEC, with the operations of others. *)
Definition attempt (c : nat) (os1 : list op) (qs : list Q) (os2 : list op) : list op :=
  os1 ++ Multi c :: (Enqueue c <$> qs) ++ os2.

Lemma attempt_spec s c t os1 qs os2 :
  s.2 !! c = Some t → t_multi t = false → t_queue t = [] → Forall (λ o, owner o ≠ Some c) (os1 ++ os2) →
  ∃ t', (spec_run s (attempt c os1 qs os2)).2.2 !! c = Some t' ∧ t_multi t' = true ∧ t_error t' = t_error t ∧ t_queue t' = qs
    ∧ (t_dirty t' = true ↔ t_dirty t = true ∨ ∃ wk, wk ∈ t_keys t ∧ modifies s (attempt c os1 qs os2) wk).
Proof.
  intros E Hm Hqu Ho. apply Forall_app in Ho as [Ho1 Ho2]. unfold attempt.
  destruct (others_run os1 s c t Ho1 E) as (t1 & E1 & [D1 M1 R1 B1 Q1 K1]).
  setoid_rewrite modifies_app. rewrite spec_run_app. cbn [snd]. set (s1 := (spec_run s os1).2) in *.
  cbn [spec_run modifies].
  assert (spec_step s1 (Multi c) = ([Replied c ReplyOk],
    (s1.1, <[c := mk_tx true (t_dirty t1) (t_error t1) (t_db t1) (t_queue t1) (t_keys t1)]> s1.2))) as ->.
  { cbn [spec_step owner]. rewrite E1. cbn [spec_client]. by rewrite M1, Hm. }
  cbn [snd]. set (s2 := (s1.1, _)).
  assert (s2.2 !! c = Some (mk_tx true (t_dirty t1) (t_error t1) (t_db t1) (t_queue t1) (t_keys t1))) as E2.
  { simpl. apply list_lookup_insert_eq. by apply lookup_lt_Some in E1. }
  destruct (enqueue_run c qs s2 _ E2) as [H3 N3]. setoid_rewrite modifies_app.
  pose proof (spec_run_app s2 (Enqueue c <$> qs) os2) as Ha. destruct (spec_run s2 ((Enqueue c <$> qs) ++ os2)) as [evs s3].
  injection Ha as _ Ha. cbn [snd]. rewrite Ha. set (s4 := (spec_run s2 (Enqueue c <$> qs)).2) in *.
  assert (s4.2 !! c = Some (mk_tx true (t_dirty t1) (t_error t1) (t_db t1) (t_queue t1 ++ qs) (t_keys t1))) as E4.
  { rewrite H3. simpl. apply list_lookup_insert_eq. rewrite length_insert. by apply lookup_lt_Some in E1. }
  destruct (others_run os2 s4 c _ Ho2 E4) as (t5 & E5 & [D5 M5 R5 B5 Q5 K5]). exists t5. simpl in *.
  split_and!; [done|by rewrite M5|congruence|by rewrite Q5, Q1, Hqu|].
  rewrite D5, D1. rewrite K1. cbn [step_modifies]. split.
  - intros [[H|(wk & H & H')]|(wk & H & H')]; [by left|right; exists wk; tauto|right; exists wk; tauto].
  - intros [H|(wk & H & [H'|[[]|[H'|H']]])]; [tauto|left; right; by exists wk|by apply N3 in H'|right; by exists wk].
Qed.

(** C33: any interleaving of the operations of any number of clients (WATCH, UNWATCH,
    MULTI, queueing, errors, DISCARD, EXEC, SELECT) with modifications and flushes of
    keys runs without a fault and gives the replies, executed commands and states of
    the specification, in which a client just has a set of watched keys and a
    modification marks the clients whose set has the key. *)
Theorem transactions_refine m os :
  0 < n → Forall (op_ok m) os → (Z.of_nat (total_cost os) ≤ 2 ^ 60)%Z →
  ∃ w', run [] (init_world m) os = Ret ((spec_run (init_spec m) os).1, w')
    ∧ w_ok w' ∧ abs_world w' = (spec_run (init_spec m) os).2.
Proof.
  intros Hn Ho Hb. destruct (init_ok m Hn) as [Hw HA].
  destruct (run_spec os [] (init_world m) Hw) as (w' & E & Hw' & HA').
  - apply length_replicate.
  - simpl. by rewrite length_replicate.
  - done.
  - exists w'. rewrite HA in E, HA'. done.
Qed.

(** C34: optimistic locking: a client that is in no transaction, watches nothing and is
    not marked sends WATCH, MULTI, commands and EXEC, while others do what they like.
    EXEC runs the commands, in order, exactly when none of the watched keys was
    modified after WATCH (by a command, by the EXEC of another client or by a
    flush); otherwise it answers with a null reply and runs nothing. *)
Theorem watch_guards_exec m os0 c can keys os1 qs os2 t :
  0 < n → let os := os0 ++ Watch c can keys :: attempt c os1 qs os2 in
  Forall (op_ok m) (os ++ [Exec c]) → (Z.of_nat (total_cost (os ++ [Exec c])) ≤ 2 ^ 60)%Z →
  (spec_run (init_spec m) os0).2.2 !! c = Some t → t = idle t → Forall (λ o, owner o ≠ Some c) (os1 ++ os2) →
  let watched := (spec_run (init_spec m) (os0 ++ [Watch c can keys])).2 in
  let conflict := ∃ k, k ∈ keys ∧ modifies watched (attempt c os1 qs os2) (t_db t, k) in
  ∃ x w evs w', run [] (init_world m) os = Ret (x, w) ∧ run [] (init_world m) (os ++ [Exec c]) = Ret (x ++ evs, w')
    ∧ (conflict → evs = [Replied c NullMultiBulk])
    ∧ (¬ conflict → evs = Replied c (MultiBulkLen (length qs)) :: exec_events c qs false).
Proof.
  intros Hn os Ho Hb E Et Hoth watched conflict. destruct (init_ok m Hn) as [Hw HA].
  destruct (run_spec (os ++ [Exec c]) [] (init_world m) Hw) as (w' & E' & _ & _);
    [apply length_replicate|simpl; by rewrite length_replicate|done|].
  apply Forall_app in Ho as [Ho _].
  destruct (run_spec os [] (init_world m) Hw) as (w & Ew & _ & _); [apply length_replicate|simpl; by rewrite length_replicate| |].
  { unfold total_cost in *. rewrite sum_list_with_app in Hb. simpl in *. lia. }
  rewrite HA in E', Ew. rewrite spec_run_app in E'. cbn [fst app] in E', Ew. eexists _, w, _, w'. split; [exact Ew|]. split; [exact E'|].
  assert (watched.2 !! c = Some (set_keys t (list_to_set (pair (t_db t) <$> keys)))) as Ec.
  { unfold watched. rewrite spec_run_app. cbn [snd spec_run]. set (s0 := (spec_run (init_spec m) os0).2) in *.
    cbn [spec_step owner]. rewrite E. cbn [spec_client]. rewrite Et. cbn [idle t_multi]. simpl.
    rewrite list_lookup_insert_eq by (by apply lookup_lt_Some in E). unfold set_keys. simpl. by rewrite union_empty_l_L. }
  destruct (attempt_spec watched c _ os1 qs os2 Ec) as (t' & E1 & M1 & R1 & Q1 & D1);
    [by rewrite Et|by rewrite Et|done|].
  assert ((spec_run (init_spec m) os).2 = (spec_run watched (attempt c os1 qs os2)).2) as Es.
  { unfold os, watched. rewrite cons_middle, app_assoc. by rewrite spec_run_app. }
  rewrite Es. cbn [spec_run spec_step owner]. rewrite E1. cbn [spec_client]. unfold spec_exec. rewrite M1, R1, Q1. cbn [negb].
  assert (t_dirty t' = true ↔ conflict) as Hconf.
  { rewrite D1. unfold conflict. cbn [set_keys t_dirty t_keys]. assert (t_dirty t = false) as -> by (by rewrite Et).
    split.
    - intros [?|(wk & Hk & Hm)]; [done|]. apply elem_of_list_to_set, list_elem_of_fmap in Hk as (k & -> & Hk). by exists k.
    - intros (k & Hk & Hm). right. exists (t_db t, k). split; [|done]. apply elem_of_list_to_set, list_elem_of_fmap. by exists k. }
  rewrite Et. cbn [set_keys idle t_error]. rewrite orb_false_r. clear -Hconf.
  destruct (t_dirty t'); cbn [fst]; rewrite app_nil_r; split; intros H; [done|tauto|by apply Hconf in H|done].
Qed.
End transactions.

(** Two clients and one database; a command is the list of the keys it modifies. *)
Definition sample_touches (q : list bytes) : list (nat * bytes) := pair 0 <$> q.
Definition sample_hash (s : bytes) : Z := Z.of_nat (length s) mod 2 ^ 64.

Lemma sample_range s : (0 ≤ sample_hash s < 2 ^ 64)%Z.
Proof. apply Z.mod_pos_bound. done. Qed.

Lemma sample_touches_db q wk : wk ∈ sample_touches q → wk.1 < 1.
Proof. intros (k & -> & _)%list_elem_of_fmap. simpl. lia. Qed.

Definition sample_ops : list (op unit (list bytes)) :=
  [Watch 0 true [str "a"; str "b"]; Multi 0; Enqueue 0 [str "c"]; Touch 0 (str "b"); Exec 0].

Lemma transactions_refine_witness :
  ∃ w', run sample_hash (λ _, 0%Z) sample_touches [] (init_world 1 2) sample_ops
      = Ret ([Replied 0 ReplyOk; Replied 0 ReplyOk; Replied 0 NullMultiBulk], w') ∧ w_ok sample_hash w'.
Proof.
  destruct (transactions_refine (O := unit) sample_hash (λ _, 0%Z) sample_touches sample_range 1 sample_touches_db 2 sample_ops)
    as (w' & E & Hw & _).
  - lia.
  - repeat constructor.
  - vm_compute. discriminate.
  - exists w'. split; [exact E|exact Hw].
Defined.

Lemma watch_guards_exec_witness :
  ∃ x w evs w', run sample_hash (λ _, 0%Z) sample_touches [] (init_world (O := unit) 1 2)
      [Watch 0 true [str "a"]; Touch 0 (str "b"); Multi 0; Enqueue 0 [str "a"]; Watch 1 true [str "a"]] = Ret (x, w)
    ∧ run sample_hash (λ _, 0%Z) sample_touches [] (init_world (O := unit) 1 2)
      [Watch 0 true [str "a"]; Touch 0 (str "b"); Multi 0; Enqueue 0 [str "a"]; Watch 1 true [str "a"]; Exec 0] = Ret (x ++ evs, w')
    ∧ evs = [Replied 0 (MultiBulkLen 1); SentMulti; Ran 0 [str "a"]].
Proof.
  destruct (watch_guards_exec (O := unit) sample_hash (λ _, 0%Z) sample_touches sample_range 1 sample_touches_db 2
    [] 0 true [str "a"] [Touch 0 (str "b")] [[str "a"]] [Watch 1 true [str "a"]] (mk_tx false false false 0 [] ∅))
    as (x & w & evs & w' & E1 & E2 & _ & E3).
  - lia.
  - repeat constructor.
  - vm_compute. discriminate.
  - reflexivity.
  - reflexivity.
  - repeat constructor; discriminate.
  - exists x, w, evs, w'. split; [exact E1|]. split; [exact E2|]. apply E3. intros (k & Hk & Hm).
    apply list_elem_of_singleton in Hk as ->. simpl in Hm. destruct Hm as [Hm|Hm]; [discriminate Hm|tauto].
Defined.
