(* ===== verification/ExecUfs.v ===== *)
(** * Transactions of union-find commands

    EXEC of Multi.v on the instances of Call.v: every queued command goes through
    [call], and so does EXEC itself.  The commands of a transaction are executed and
    sent as if they had come one by one; the block MULTI ... EXEC that keeps them
    together is not sent. *)
From stdpp Require Import gmap.
From S2P Require Import Prelude Sds Commands Query Control Init Call Dict DictMap Table Gate Multi Watch Transaction.

(** A queued command: arguments, flags and handler. *)
Record ucmd := mk_ucmd { u_argv : list bytes; u_flags : Z; u_proc : server → client → out (server * client) }.

(** The rest of the server: the instance, the client that sends EXEC, and its replies
    in their order. *)
Record xstate := mk_xstate { x_inst : instance; x_cl : client; x_out : list (mreply + reply) }.

Definition set_inst (x : xstate) (i : instance) : xstate := mk_xstate i (x_cl x) (x_out x).

(** The client with other arguments, and its replies not yet in the output. *)
Definition with_argv (cl : client) (argv : list bytes) : client :=
  mk_client argv (c_master cl) (c_port cl) (flag_ufs cl) [].

(** What [call] does after the handler: [dirty] says whether [server.dirty] grew. *)
Definition after_call (i : instance) (c : client) (id : Z) (slave dirty : bool) (flags : Z) : out instance :=
  let cflags := 0%Z in
  if has flags CMD_CALL_PROPAGATE && bool_decide (Z.land cflags CLIENT_PREVENT_PROP ≠ CLIENT_PREVENT_PROP) then
    let pf := propagate_flags dirty cflags (flag_ufs c) flags in
    if bool_decide (pf ≠ PROPAGATE_NONE) then
      if masterhost (srv i) && negb (repl_slave_ro i) then
        if negb (c_master c) then propagateToMaster i (c_argv c) pf else Ret i
      else if slave then propagateExSlave i id (c_argv c) pf
      else propagate i (c_argv c) pf
    else Ret i
  else Ret i.

Lemma call_after proc i c id slave flags :
  call proc i c id slave flags =
    ('(st, c) ← proc (srv i) (set_flag c 0); i ← after_call (set_srv i st) c id slave false flags; Ret (i, c)).
Proof. unfold call. by destruct (proc (srv i) (set_flag c 0)) as [[st c']|]. Qed.

Section exec.
Context {O : Type} (hash : bytes → Z) (id : Z) (slave : bool).
Implicit Types (x : xstate) (w : world O ucmd) (c : nat).

Definition ufs_ops : xops O ucmd xstate :=
  mk_xops
    (λ x _ r, mk_xstate (x_inst x) (x_cl x) (x_out x ++ [inl r]))
    (λ x w _ q,
      '(i, cl) ← call (u_proc q) (x_inst x) (with_argv (x_cl x) (u_argv q)) id slave CMD_CALL_FULL;
      Ret (mk_xstate i cl (x_out x ++ (inr <$> c_replies cl)), w, mk_ucmd (c_argv cl) (u_flags q) (u_proc q)))
    u_flags
    (λ x, i ← propagate (x_inst x) [str "MULTI"] (Z.lor PROPAGATE_AOF PROPAGATE_REPL); Ret (set_inst x i))
    (λ orig x, mk_xstate (x_inst x) (with_argv (x_cl x) (c_argv (x_cl orig))) (x_out x))
    (λ x, negb (masterhost (srv (x_inst x))))
    (λ x, Ret (set_inst x (feed_backlog (x_inst x) [str "EXEC"]))).

(** [call] with [execCommand] as the handler. *)
Definition call_exec x w c : out (xstate * world O ucmd) :=
  let x := mk_xstate (x_inst x) (set_flag (x_cl x) 0) (x_out x) in
  '(x, w, dirty) ← execCommand hash ufs_ops x w c;
  i ← after_call (x_inst x) (x_cl x) id slave dirty CMD_CALL_FULL;
  Ret (set_inst x i, w).

(** ** The commands one by one *)

(** As if the client had sent them without MULTI. *)
Fixpoint one_by_one (i : instance) (cl : client) (qs : list ucmd) : out (instance * client * list reply) :=
  match qs with
  | [] => Ret (i, cl, [])
  | q :: qs =>
    '(i, cl) ← call (u_proc q) i (with_argv cl (u_argv q)) id slave CMD_CALL_FULL;
    '(i, cl', rs) ← one_by_one i cl qs;
    Ret (i, cl', c_replies cl ++ rs)
  end.

Lemma exec_loop_ufs c w qs : ∀ x,
  Forall (λ q, has (u_flags q) CMD_READONLY = true) qs →
  match one_by_one (x_inst x) (x_cl x) qs with
  | Ret (i, cl, rs) => ∃ qs', exec_loop ufs_ops x w c qs false = Ret (mk_xstate i cl (x_out x ++ (inr <$> rs)), w, qs', false)
  | Fail f => exec_loop ufs_ops x w c qs false = Fail f
  end.
Proof.
  induction qs as [|q qs IH]; intros x Hq; cbn [one_by_one exec_loop].
  { exists []. rewrite app_nil_r. by destruct x. }
  apply Forall_cons in Hq as [Hq Hqs]. unfold propagate_once. cbn [ufs_ops x_flags x_call negb andb].
  rewrite has_lor_r, Hq. cbn [orb negb]. bind_red.
  destruct (call _ _ _ _ _ _) as [[i cl]|f]; bind_red; [|done].
  specialize (IH (mk_xstate i cl (x_out x ++ (inr <$> c_replies cl))) Hqs). cbn [x_inst x_cl x_out] in IH.
  destruct (one_by_one i cl qs) as [[[i' cl'] rs]|f]; bind_red; [|by rewrite IH].
  destruct IH as (qs' & ->). bind_red. rewrite fmap_app, app_assoc. by eexists.
Qed.
End exec.

(** The queue is dropped, whatever it has become. *)
Lemma discard_mstate {O} hash (w : world O ucmd) c cl qs :
  mclients w !! c = Some cl → discardTransaction hash (set_client w c (with_mstate cl qs)) c = discardTransaction hash w c.
Proof.
  intros E. unfold discardTransaction, get_client. cbn [set_client mclients].
  rewrite list_lookup_insert_eq by (by apply lookup_lt_Some in E). rewrite E. bind_red.
  unfold set_client. simpl. by rewrite list_insert_insert_eq.
Qed.

(** C35: EXEC of union-find commands that is neither aborted nor outside MULTI does to
    the server what the commands do one by one, fails when they do, and answers with
    their replies.  MULTI is not sent to anybody; but the flag that the last command
    leaves on the client makes [call] send EXEC itself, like a union or split. *)
Theorem exec_union_find {O} hash id slave x (w : world O ucmd) c cl :
  (∀ s, (0 ≤ hash s < 2 ^ 64)%Z) → w_ok hash w → mclients w !! c = Some cl →
  has (m_flags cl) CLIENT_MULTI = true → has (m_flags cl) (Z.lor CLIENT_DIRTY_CAS CLIENT_DIRTY_EXEC) = false →
  Forall (λ q, has (u_flags q) CMD_READONLY = true) (mstate cl) →
  ∃ w', w_ok hash w' ∧ abs_world w' = (keyspace w, <[c := idle (abs cl)]> (abs <$> mclients w)) ∧
    call_exec hash id slave x w c =
      ('(i, u, rs) ← one_by_one id slave (x_inst x) (set_flag (x_cl x) 0) (mstate cl);
       let u := with_argv u (c_argv (x_cl x)) in
       i ← after_call i u id slave false CMD_CALL_FULL;
       Ret (mk_xstate i u (x_out x ++ inl (MultiBulkLen (length (mstate cl))) :: (inr <$> rs)), w')).
Proof.
  intros Hrange Hw E Hm Hd Hq. unfold call_exec, execCommand, get_client. rewrite E. bind_red. rewrite Hm, Hd. cbn [negb].
  destruct (unwatchAllKeys_spec hash Hrange w c cl Hw E) as (w1 & -> & Hw1 & HK & HM & HN). bind_red.
  pose proof (exec_loop_ufs (O := O) id slave c w1 (mstate cl)
    (x_reply (ufs_ops id slave : xops O ucmd xstate) (mk_xstate (x_inst x) (set_flag (x_cl x) 0) (x_out x)) c
      (MultiBulkLen (length (mstate cl)))) Hq) as HL.
  cbn [x_reply ufs_ops x_inst x_cl x_out] in HL |- *.
  assert (mclients w1 !! c = Some (with_watched cl [])) as E1.
  { rewrite HM. apply list_lookup_insert_eq. by apply lookup_lt_Some in E. }
  destruct (discard_spec hash Hrange w1 c (with_watched cl []) Hw1 E1) as (w' & Ed & Hw' & _ & HA).
  exists w'. split; [done|]. split.
  { rewrite HA, HK, HM. f_equal. by rewrite list_fmap_insert, list_insert_insert_eq. }
  destruct (one_by_one id slave (x_inst x) (set_flag (x_cl x) 0) (mstate cl)) as [[[i u] rs]|f]; [|by rewrite HL].
  destruct HL as (qs' & ->). bind_red. rewrite E1. bind_red. rewrite (discard_mstate hash w1 c _ qs' E1), Ed. bind_red.
  cbn [x_restore ufs_ops x_inst x_cl x_out set_flag c_argv]. rewrite <-app_assoc. done.
Qed.

(** A transaction with one union, on a writable slave: the master gets the union and
    an EXEC, but no MULTI. *)
Definition union_cmd : ucmd :=
  mk_ucmd [str "union"; str "a"; str "b"; str "u"] CMD_READONLY (λ st c, Ret (st, set_flag c 1)).

Definition exec_world : world unit ucmd :=
  set_client (init_world 1 1) 0 (mk_mclient CLIENT_MULTI 0 [union_cmd] []).

Lemma exec_world_ok : w_ok sum_hash exec_world.
Proof.
  apply (w_ok_client sum_hash (init_world 1 1) 0 (mk_mclient 0 0 [] [])); [|reflexivity|reflexivity|simpl; lia].
  apply (init_ok sum_hash (λ _, []) case_range); [by intros q wk ?%not_elem_of_nil|lia].
Qed.

Definition exec_state : xstate :=
  mk_xstate (mk_inst (mk_server true 6380 None 0 None None None) false false [] None [] (Some []))
    (mk_client [str "EXEC"] false 0 0 []) [].

Lemma exec_union_find_witness :
  ∃ x' w', call_exec sum_hash 7 false exec_state exec_world 0 = Ret (x', w')
    ∧ master_link (x_inst x') = Some [[str "union"; str "a"; str "b"; str "u"]; [str "EXEC"]]
    ∧ x_out x' = [inl (MultiBulkLen 1)].
Proof.
  destruct (exec_union_find sum_hash 7 false exec_state exec_world 0 (mk_mclient CLIENT_MULTI 0 [union_cmd] []))
    as (w' & _ & _ & E).
  - apply case_range.
  - exact exec_world_ok.
  - reflexivity.
  - reflexivity.
  - reflexivity.
  - repeat constructor.
  - do 2 eexists. split; [exact E|]. split; reflexivity.
Defined.

(** In general: a transaction whose last command set the flag sends EXEC to the master
    of a writable slave, after what the commands sent. *)
Lemma stray_exec i u id slave :
  flag_ufs u = 1%Z → masterhost (srv i) = true → repl_slave_ro i = false → c_master u = false → aof_on i = false →
  after_call i u id slave false CMD_CALL_FULL = Ret (replicationFeedMaster i (c_argv u)).
Proof.
  intros Hf Hm Hr Hc Ha. unfold after_call. rewrite Hf, Hm, Hr, Hc. cbn [andb negb].
  change (has CMD_CALL_FULL CMD_CALL_PROPAGATE && _) with true. cbn match. rewrite bool_decide_eq_true_2 by done.
  unfold propagateToMaster, feedAppendOnlyFile. by rewrite Ha.
Qed.
