(* ===== verification/Adlist.v ===== *)
(** * Adlist: the doubly linked lists of src/src/adlist.c

    Lists of objects, of state spaces and of vertices are [list]s of this file;
    the other files model them as Rocq lists.  Here the nodes live in a heap, the
    operations follow the pointer manipulations of the code, and the theorems
    show that the operations implement those on Rocq lists, leave other nodes of
    the heap alone and never follow a NULL or freed pointer. *)
From S2P Require Import Prelude.

(** A [listNode *], NULL is [None]. *)
Definition loc := positive.

Section adlist.
Context {V : Type} `{!EqDecision V}.
Implicit Types (v : V) (p q : option loc).

Record listNode := mk_node { prev : option loc; next : option loc; value : V }.

(** The nodes allocated with [zmalloc], and the values given to a free method. *)
Record heap := mk_heap { nodes : gmap loc listNode; freed : list V }.

(** The function pointers of a list; a failing [dup] returns NULL. *)
Record methods := mk_methods {
  dup : option (V → option V); free : bool; matchm : option (V → V → bool) }.

Record alist := mk_alist { head : option loc; tail : option loc; meths : methods; len : Z }.

Record listIter := mk_iter { it_next : option loc; direction : Z }.
Definition AL_START_HEAD : Z := 0.
Definition AL_START_TAIL : Z := 1.

(** [unsigned long] *)
Definition ulong (z : Z) : Z := z mod 2 ^ 64.

(** ** Access to nodes *)

Definition nget (h : heap) p : out listNode :=
  match p with
  | None => Fail NullDeref
  | Some p => match nodes h !! p with Some n => Ret n | None => Fail Dangling end
  end.

Definition nput (h : heap) p (n : listNode) : out heap :=
  match p with
  | None => Fail NullDeref
  | Some p => match nodes h !! p with
              | Some _ => Ret (mk_heap (<[p := n]> (nodes h)) (freed h))
              | None => Fail Dangling
              end
  end.

Definition set_next (h : heap) p q : out heap :=
  n ← nget h p; nput h p (mk_node (prev n) q (value n)).
Definition set_prev (h : heap) p q : out heap :=
  n ← nget h p; nput h p (mk_node q (next n) (value n)).

(** [zmalloc] of a node (which does not return NULL) and the first stores. *)
Definition new_node (h : heap) (n : listNode) : heap * loc :=
  let p := fresh (dom (nodes h)) in (mk_heap (<[p := n]> (nodes h)) (freed h), p).

Definition zfree (h : heap) p : out heap :=
  match p with
  | None => Ret h
  | Some p => match nodes h !! p with
              | Some _ => Ret (mk_heap (delete p (nodes h)) (freed h))
              | None => Fail Dangling
              end
  end.

(** [if (list->free) list->free(value);] *)
Definition call_free (l : alist) (h : heap) v : heap :=
  if free (meths l) then mk_heap (nodes h) (freed h ++ [v]) else h.

(** ** Operations *)

Definition listCreate : alist := mk_alist None None (mk_methods None false None) 0.

(** [while(len--)] *)
Fixpoint empty_loop (n : nat) (l : alist) (h : heap) (current : option loc) : out heap :=
  match n with
  | 0 => Ret h
  | S n =>
    c ← nget h current;
    let h := call_free l h (value c) in
    h ← zfree h current;
    empty_loop n l h (next c)
  end.

Definition listEmpty (l : alist) (h : heap) : out (alist * heap) :=
  h ← empty_loop (Z.to_nat (len l)) l h (head l);
  Ret (mk_alist None None (meths l) 0, h).

(** The list itself is freed: only the heap is left. *)
Definition listRelease (l : alist) (h : heap) : out heap :=
  '(_, h) ← listEmpty l h; Ret h.

Definition listAddNodeHead (l : alist) (h : heap) v : out (alist * heap) :=
  if bool_decide (len l = 0)%Z then
    let '(h, node) := new_node h (mk_node None None v) in
    Ret (mk_alist (Some node) (Some node) (meths l) (ulong (len l + 1)), h)
  else
    let '(h, node) := new_node h (mk_node None (head l) v) in
    h ← set_prev h (head l) (Some node);
    Ret (mk_alist (Some node) (tail l) (meths l) (ulong (len l + 1)), h).

Definition listAddNodeTail (l : alist) (h : heap) v : out (alist * heap) :=
  if bool_decide (len l = 0)%Z then
    let '(h, node) := new_node h (mk_node None None v) in
    Ret (mk_alist (Some node) (Some node) (meths l) (ulong (len l + 1)), h)
  else
    let '(h, node) := new_node h (mk_node (tail l) None v) in
    h ← set_next h (tail l) (Some node);
    Ret (mk_alist (head l) (Some node) (meths l) (ulong (len l + 1)), h).

Definition listInsertNode (l : alist) (h : heap) (old_node : option loc) v (after : bool)
    : out (alist * heap) :=
  o ← nget h old_node;
  let n := if after then mk_node old_node (next o) v else mk_node (prev o) old_node v in
  let '(h, node) := new_node h n in
  let l :=
    if after then
      if bool_decide (tail l = old_node) then mk_alist (head l) (Some node) (meths l) (len l) else l
    else
      if bool_decide (head l = old_node) then mk_alist (Some node) (tail l) (meths l) (len l) else l in
  h ← (if bool_decide (prev n ≠ None) then set_next h (prev n) (Some node) else Ret h);
  h ← (if bool_decide (next n ≠ None) then set_prev h (next n) (Some node) else Ret h);
  Ret (mk_alist (head l) (tail l) (meths l) (ulong (len l + 1)), h).

Definition listDelNode (l : alist) (h : heap) (node : option loc) : out (alist * heap) :=
  n ← nget h node;
  '(l, h) ← (match prev n with
             | Some _ => h ← set_next h (prev n) (next n); Ret (l, h)
             | None => Ret (mk_alist (next n) (tail l) (meths l) (len l), h)
             end);
  n ← nget h node;
  '(l, h) ← (match next n with
             | Some _ => h ← set_prev h (next n) (prev n); Ret (l, h)
             | None => Ret (mk_alist (head l) (prev n) (meths l) (len l), h)
             end);
  n ← nget h node;
  let h := call_free l h (value n) in
  h ← zfree h node;
  Ret (mk_alist (head l) (tail l) (meths l) (ulong (len l - 1)), h).

Definition listGetIterator (l : alist) (dir : Z) : listIter :=
  mk_iter (if bool_decide (dir = AL_START_HEAD) then head l else tail l) dir.
Definition listRewind (l : alist) : listIter := mk_iter (head l) AL_START_HEAD.
Definition listRewindTail (l : alist) : listIter := mk_iter (tail l) AL_START_TAIL.

(** The new state of the iterator and the current node. *)
Definition listNext (h : heap) (it : listIter) : out (listIter * option loc) :=
  match it_next it with
  | None => Ret (it, None)
  | Some _ =>
    n ← nget h (it_next it);
    Ret (mk_iter (if bool_decide (direction it = AL_START_HEAD) then next n else prev n)
           (direction it), it_next it)
  end.

(** The loop of [listDup]; [None] when the dup method failed. *)
Fixpoint dup_loop (fuel : nat) (copy : alist) (h : heap) (it : listIter)
    : out (option alist * heap) :=
  '(it, node) ← listNext h it;
  match node with
  | None => Ret (Some copy, h)
  | Some _ =>
    match fuel with
    | 0 => Fail OutOfFuel
    | S fuel =>
      n ← nget h node;
      match (match dup (meths copy) with Some f => f (value n) | None => Some (value n) end) with
      | None => h ← listRelease copy h; Ret (None, h)
      | Some v => '(copy, h) ← listAddNodeTail copy h v; dup_loop fuel copy h it
      end
    end
  end.

Definition listDup (orig : alist) (h : heap) : out (option alist * heap) :=
  let copy := mk_alist None None (meths orig) 0 in
  dup_loop (Z.to_nat (len orig)) copy h (listRewind orig).

Fixpoint search_loop (fuel : nat) (l : alist) (h : heap) (it : listIter) (key : V)
    : out (option loc) :=
  '(it, node) ← listNext h it;
  match node with
  | None => Ret None
  | Some _ =>
    match fuel with
    | 0 => Fail OutOfFuel
    | S fuel =>
      n ← nget h node;
      if (match matchm (meths l) with Some f => f (value n) key | None => bool_decide (key = value n) end)
      then Ret node else search_loop fuel l h it key
    end
  end.

Definition listSearchKey (l : alist) (h : heap) (key : V) : out (option loc) :=
  search_loop (Z.to_nat (len l)) l h (listRewind l) key.

(** [while(index-- && n) n = n->next;] and the same backwards. *)
Fixpoint index_loop (k : nat) (h : heap) (step : listNode → option loc) (n : option loc)
    : out (option loc) :=
  match k with
  | 0 => Ret n
  | S k => match n with
           | None => Ret None
           | Some _ => c ← nget h n; index_loop k h step (step c)
           end
  end.

Definition listIndex (l : alist) (h : heap) (index : Z) : out (option loc) :=
  if bool_decide (index < 0)%Z then index_loop (Z.to_nat (- index - 1)) h prev (tail l)
  else index_loop (Z.to_nat index) h next (head l).

Definition listRotate (l : alist) (h : heap) : out (alist * heap) :=
  let tl := tail l in
  if bool_decide (len l ≤ 1)%Z then Ret (l, h)
  else
    t ← nget h tl;
    let l := mk_alist (head l) (prev t) (meths l) (len l) in
    h ← set_next h (tail l) None;
    h ← set_prev h (head l) tl;
    h ← set_prev h tl None;
    h ← set_next h tl (head l);
    Ret (mk_alist tl (tail l) (meths l) (len l), h).

Definition listJoin (l o : alist) (h : heap) : out (alist * alist * heap) :=
  h ← (match head o with Some _ => set_prev h (head o) (tail l) | None => Ret h end);
  '(l, h) ← (match tail l with
             | Some _ => h ← set_next h (tail l) (head o); Ret (l, h)
             | None => Ret (mk_alist (head o) (tail l) (meths l) (len l), h)
             end);
  let l := match tail o with Some _ => mk_alist (head l) (tail o) (meths l) (len l) | None => l end in
  let l := mk_alist (head l) (tail l) (meths l) (ulong (len l + len o)) in
  Ret (l, mk_alist None None (meths o) 0, h).

(** ** Representation of a list *)

Abbreviation cells := (list (loc * V)).
Implicit Types (xs ys : cells) (m : gmap loc listNode).

Definition first xs p : option loc := match xs with [] => p | (a, _) :: _ => Some a end.
Definition final p xs : option loc := match last xs with Some (a, _) => Some a | None => p end.
Definition locs xs : list loc := xs.*1.

(** The nodes [xs] are linked in this order, after [p] and before [q]. *)
Fixpoint dll m p xs q : Prop :=
  match xs with
  | [] => True
  | (a, v) :: xs => m !! a = Some (mk_node p (first xs q) v) ∧ dll m (Some a) xs q
  end.

Record rep (h : heap) (l : alist) xs : Prop := {
  rep_dll : dll (nodes h) None xs None;
  rep_nodup : NoDup (locs xs);
  rep_head : head l = first xs None;
  rep_tail : tail l = final None xs;
  rep_len : len l = Z.of_nat (length xs);
  rep_small : (Z.of_nat (length xs) < 2 ^ 64)%Z;
}.

(** Only the nodes [ps] may differ. *)
Definition touches (ps : list loc) m m' : Prop := ∀ a, a ∉ ps → m' !! a = m !! a.

Lemma first_app xs ys q : first (xs ++ ys) q = first xs (first ys q).
Proof. by destruct xs as [|[??]]. Qed.

Lemma final_snoc p xs a v : final p (xs ++ [(a, v)]) = Some a.
Proof. unfold final. by rewrite last_snoc. Qed.

Lemma final_cons p a v xs : final p ((a, v) :: xs) = final (Some a) xs.
Proof.
  unfold final. rewrite last_cons. by destruct (last xs) as [[]|].
Qed.

Lemma final_app p xs ys : final p (xs ++ ys) = final (final p xs) ys.
Proof.
  revert p. induction xs as [|[a v] xs IH]; intros p; [done|]. simpl. by rewrite !final_cons, IH.
Qed.

Lemma final_in xs a : final None xs = Some a → a ∈ locs xs.
Proof.
  destruct xs as [|[b w] xs _] using rev_ind; [done|]. rewrite final_snoc. intros [= ->].
  unfold locs. rewrite fmap_app. set_solver.
Qed.

Lemma final_some p xs : xs ≠ [] → ∃ a, final p xs = Some a ∧ a ∈ locs xs.
Proof.
  destruct xs as [|[b w] xs _] using rev_ind; [done|]. intros _. exists b. rewrite final_snoc.
  split; [done|]. unfold locs. rewrite fmap_app. set_solver.
Qed.

Lemma final_indep p q xs : xs ≠ [] → final p xs = final q xs.
Proof. destruct xs as [|[b w] xs _] using rev_ind; [done|]. intros _. by rewrite !final_snoc. Qed.

Lemma first_indep_nonempty xs p q : xs ≠ [] → first xs p = first xs q.
Proof. by destruct xs as [|[??]]. Qed.

Lemma first_in xs a : first xs None = Some a → a ∈ locs xs.
Proof. destruct xs as [|[b w] xs]; [done|]. intros [= ->]. unfold locs. set_solver. Qed.

Lemma dll_app m p xs ys q :
  dll m p (xs ++ ys) q ↔ dll m p xs (first ys q) ∧ dll m (final p xs) ys q.
Proof.
  revert p. induction xs as [|[a v] xs IH]; intros p; simpl; [tauto|].
  rewrite IH, first_app, final_cons. tauto.
Qed.

Lemma dll_frame m m' ps p xs q :
  dll m p xs q → touches ps m m' → (∀ a, a ∈ locs xs → a ∉ ps) → dll m' p xs q.
Proof.
  intros Hd Ht Hps. revert p Hd. induction xs as [|[a v] xs IH]; intros p; [done|].
  intros [Ha Hd]. split.
  - rewrite Ht; [done|]. apply Hps. unfold locs. set_solver.
  - apply IH; [|done]. intros b Hb. apply Hps. unfold locs in *. set_solver.
Qed.

Lemma dll_lookup m p xs q a : dll m p xs q → a ∈ locs xs → is_Some (m !! a).
Proof.
  revert p. induction xs as [|[b v] xs IH]; intros p Hd Ha; [by apply elem_of_nil in Ha|].
  destruct Hd as [Hb Hd]. unfold locs in Ha. rewrite fmap_cons in Ha.
  apply elem_of_cons in Ha as [->|Ha]; [by eexists|by eapply IH].
Qed.

(** *** Redirecting one pointer *)

Definition link_next m p q : gmap loc listNode :=
  match p with Some a => alter (λ n, mk_node (prev n) q (value n)) a m | None => m end.
Definition link_prev m p q : gmap loc listNode :=
  match p with Some a => alter (λ n, mk_node q (next n) (value n)) a m | None => m end.

Lemma set_next_link h a q :
  is_Some (nodes h !! a) → set_next h (Some a) q = Ret (mk_heap (link_next (nodes h) (Some a) q) (freed h)).
Proof.
  intros [n Hn]. unfold set_next, nget, nput. rewrite Hn. bind_red. do 2 f_equal.
  simpl. apply map_eq. intros b. destruct (decide (a = b)) as [->|Hne].
  - by rewrite lookup_insert_eq, lookup_alter_eq, Hn.
  - by rewrite lookup_insert_ne, lookup_alter_ne.
Qed.

Lemma set_prev_link h a q :
  is_Some (nodes h !! a) → set_prev h (Some a) q = Ret (mk_heap (link_prev (nodes h) (Some a) q) (freed h)).
Proof.
  intros [n Hn]. unfold set_prev, nget, nput. rewrite Hn. bind_red. do 2 f_equal.
  simpl. apply map_eq. intros b. destruct (decide (a = b)) as [->|Hne].
  - by rewrite lookup_insert_eq, lookup_alter_eq, Hn.
  - by rewrite lookup_insert_ne, lookup_alter_ne.
Qed.

Lemma link_next_touches m p q ps : (∀ a, p = Some a → a ∈ ps) → touches ps m (link_next m p q).
Proof.
  intros Hp a Ha. destruct p as [b|]; [|done]. simpl. rewrite lookup_alter_ne; [done|].
  intros ->. by apply Ha, Hp.
Qed.

Lemma link_prev_touches m p q ps : (∀ a, p = Some a → a ∈ ps) → touches ps m (link_prev m p q).
Proof.
  intros Hp a Ha. destruct p as [b|]; [|done]. simpl. rewrite lookup_alter_ne; [done|].
  intros ->. by apply Ha, Hp.
Qed.

Lemma touches_trans ps m1 m2 m3 : touches ps m1 m2 → touches ps m2 m3 → touches ps m1 m3.
Proof. intros H1 H2 a Ha. by rewrite H2, H1. Qed.

Lemma touches_mono ps ps' m m' : touches ps m m' → ps ⊆ ps' → touches ps' m m'.
Proof. intros H Hs a Ha. apply H. set_solver. Qed.

Lemma dll_link_next m p xs q q' :
  dll m p xs q → NoDup (locs xs) → dll (link_next m (final None xs) q') p xs q'.
Proof.
  destruct xs as [|[a v] xs _] using rev_ind; [done|]. rewrite final_snoc. intros [H1 [H2 _]]%dll_app Hnd.
  unfold locs in Hnd. rewrite fmap_app in Hnd. apply NoDup_app in Hnd as (_ & Hd & _).
  apply dll_app. split.
  - eapply dll_frame; [exact H1|apply (link_next_touches _ _ _ [a])|].
    + intros b [= ->]. by left.
    + intros b Hb Hba. apply (Hd b Hb). set_solver.
  - split; [|done]. simpl. by rewrite lookup_alter_eq, H2.
Qed.

Lemma dll_link_prev m p xs q p' :
  dll m p xs q → NoDup (locs xs) → dll (link_prev m (first xs None) p') p' xs q.
Proof.
  destruct xs as [|[a v] xs]; [done|]. intros [H1 H2] [Ha Hnd]%NoDup_cons. split.
  - simpl. by rewrite lookup_alter_eq, H1.
  - eapply dll_frame; [exact H2|apply (link_prev_touches _ _ _ [a])|].
    + intros b [= ->]. by left.
    + intros b Hb ->%list_elem_of_singleton. done.
Qed.

(** *** Linking in a new node, unlinking a node *)

Lemma locs_app xs ys : locs (xs ++ ys) = locs xs ++ locs ys.
Proof. apply fmap_app. Qed.

Lemma dll_not_in m p xs q a : dll m p xs q → m !! a = None → a ∉ locs xs.
Proof. intros Hd Ha Hin. destruct (dll_lookup _ _ _ _ _ Hd Hin) as [n Hn]. congruence. Qed.

Section link.
Context m xs ys (a : loc) (v : V).
Context (Hx : dll m None xs (first ys None)) (Hy : dll m (final None xs) ys None).
Context (Hnd : NoDup (locs (xs ++ ys))).

Lemma final_not_in b : final None xs = Some b → b ∉ locs ys.
Proof.
  intros Hb Hin. rewrite locs_app in Hnd. apply NoDup_app in Hnd as (_ & Hd & _).
  by apply (Hd b); [apply final_in|].
Qed.

Lemma first_not_in b : first ys None = Some b → b ∉ locs xs.
Proof.
  intros Hb Hin. rewrite locs_app in Hnd. apply NoDup_app in Hnd as (_ & Hd & _).
  by apply (Hd b Hin), first_in.
Qed.

(** Redirecting the two pointers around a gap. *)
Lemma dll_bridge p q :
  let m' := link_prev (link_next m (final None xs) p) (first ys None) q in
  dll m' None xs p ∧ dll m' q ys None.
Proof.
  assert (NoDup (locs xs) ∧ NoDup (locs ys)) as [Hnx Hny].
  { rewrite locs_app in Hnd. by apply NoDup_app in Hnd as (? & _ & ?). }
  pose proof (link_next_touches m (final None xs) p (locs xs) (final_in xs)) as T1.
  split.
  - eapply (dll_frame (link_next m (final None xs) p) _ (option_list (first ys None)));
      [by eapply dll_link_next|apply link_prev_touches|].
    + intros b ->. by left.
    + intros b Hb Hf. destruct (first ys None) as [c|] eqn:Ec; [|by apply elem_of_nil in Hf].
      apply list_elem_of_singleton in Hf as ->. by apply (first_not_in c).
  - eapply dll_link_prev; [|done]. eapply dll_frame; [exact Hy|exact T1|].
    intros b Hb Hb'. rewrite locs_app in Hnd. apply NoDup_app in Hnd as (_ & Hd & _). by apply (Hd b).
Qed.
End link.

Lemma dll_insert m xs ys a v :
  dll m None (xs ++ ys) None → NoDup (locs (xs ++ ys)) → m !! a = None →
  dll (link_prev (link_next (<[a := mk_node (final None xs) (first ys None) v]> m) (final None xs) (Some a))
         (first ys None) (Some a)) None (xs ++ (a, v) :: ys) None.
Proof.
  intros Hd Hnd Ha. pose proof (dll_not_in _ _ _ _ _ Hd Ha) as Hni.
  pose proof Hd as [Hx Hy]%dll_app. set (n := mk_node _ _ v). set (m1 := <[a := n]> m).
  assert (touches [a] m m1) as T1.
  { intros b Hb. unfold m1. rewrite lookup_insert_ne; set_solver. }
  assert (∀ zs, zs = xs ∨ zs = ys → ∀ b, b ∈ locs zs → b ∉ [a]) as Hna.
  { intros zs Hzs b Hb ->%list_elem_of_singleton. apply Hni. rewrite locs_app. set_solver. }
  destruct (dll_bridge m1 xs ys) with (p := Some a) (q := Some a) as [Hx' Hy']; try done.
  { eapply dll_frame; [exact Hx|exact T1|]. apply Hna. by left. }
  { eapply dll_frame; [exact Hy|exact T1|]. apply Hna. by right. }
  apply dll_app. split; [exact Hx'|]. split; [|exact Hy'].
  rewrite locs_app in Hni.
  assert (m1 !! a = Some n) as Hm1 by (unfold m1; by rewrite lookup_insert_eq).
  rewrite (link_prev_touches _ _ _ (locs ys) (first_in ys)) by set_solver.
  rewrite (link_next_touches _ _ _ (locs xs) (final_in xs)) by set_solver. done.
Qed.

Lemma dll_unlink m xs ys a v :
  dll m None (xs ++ (a, v) :: ys) None → NoDup (locs (xs ++ (a, v) :: ys)) →
  dll (delete a (link_prev (link_next m (final None xs) (first ys None)) (first ys None) (final None xs)))
    None (xs ++ ys) None.
Proof.
  intros [Hx [Ha Hy]]%dll_app Hnd. rewrite locs_app in Hnd.
  apply NoDup_app in Hnd as (Nx & Hd & [Nay Ny]%NoDup_cons).
  assert (a ∉ locs xs) as Nax by (intros H; apply (Hd a H); by left).
  assert (NoDup (locs (xs ++ ys))) as Hnd'.
  { rewrite locs_app. apply NoDup_app. split_and!; [done| |done].
    intros b Hb Hb'. apply (Hd b Hb). by right. }
  set (m' := link_prev _ _ _).
  assert (dll m' None xs (first ys None) ∧ dll m' (final None xs) ys None) as [Hx' Hy'].
  { unfold m'. split.
    - eapply (dll_frame (link_next m (final None xs) (first ys None)) _ (locs ys));
        [by eapply dll_link_next|by apply link_prev_touches, first_in|].
      intros b Hb Hb'. apply (Hd b Hb). by right.
    - eapply dll_link_prev; [|done]. eapply (dll_frame m _ (locs xs)); [exact Hy|by apply link_next_touches, final_in|].
      intros b Hb Hb'. apply (Hd b Hb'). by right. }
  apply (dll_frame m' _ [a]).
  - by apply dll_app.
  - intros b Hb. rewrite lookup_delete_ne; set_solver.
  - intros b Hb ->%list_elem_of_singleton. rewrite locs_app in Hb. set_solver.
Qed.

(** ** The operations on representations *)

Lemma rep_nil h l xs : rep h l xs → bool_decide (len l = 0)%Z = bool_decide (xs = []).
Proof.
  intros R. rewrite (rep_len _ _ _ R). apply bool_decide_ext. destruct xs; simpl; split; done || lia.
Qed.

Lemma ulong_small z : (0 ≤ z < 2 ^ 64)%Z → ulong z = z.
Proof. apply Z.mod_small. Qed.

(** What every insertion gives: a fresh node [a] with value [v] between [xs] and [ys]. *)
Definition inserted_at (l : alist) (h : heap) xs ys v (r : out (alist * heap)) : Prop :=
  ∃ l' h' a, r = Ret (l', h') ∧ nodes h !! a = None ∧ rep h' l' (xs ++ (a, v) :: ys)
    ∧ touches (a :: locs (xs ++ ys)) (nodes h) (nodes h') ∧ freed h' = freed h ∧ meths l' = meths l.

Definition room xs : Prop := (Z.of_nat (length xs) + 1 < 2 ^ 64)%Z.

Lemma fresh_none (h : heap) : nodes h !! fresh (dom (nodes h)) = None.
Proof. apply not_elem_of_dom, is_fresh. Qed.

Lemma inserted_intro l h xs ys v hd tl :
  rep h l (xs ++ ys) → room (xs ++ ys) →
  let a := fresh (dom (nodes h)) in
  hd = first (xs ++ (a, v) :: ys) None → tl = final None (xs ++ (a, v) :: ys) →
  inserted_at l h xs ys v
    (Ret (mk_alist hd tl (meths l) (ulong (len l + 1)),
       mk_heap (link_prev (link_next (<[a := mk_node (final None xs) (first ys None) v]> (nodes h))
         (final None xs) (Some a)) (first ys None) (Some a)) (freed h))).
Proof.
  intros [Hd Hnd _ _ Hl Hs] Hroom a Hhd Htl. unfold room in Hroom.
  pose proof (fresh_none h) as Hf. fold a in Hf.
  eexists _, _, a. split; [done|]. split; [done|]. split; [|split; [|done]].
  - pose proof (dll_not_in _ _ _ _ _ Hd Hf) as Hni. split.
    + by apply dll_insert.
    + rewrite locs_app in *. apply NoDup_app in Hnd as (N1 & Hdis & N2).
      apply NoDup_app. split; [done|]. simpl. split; [|apply NoDup_cons; set_solver].
      intros b Hb [->|Hb']%elem_of_cons; [set_solver|]. by apply (Hdis b).
    + done.
    + done.
    + simpl. rewrite length_app in Hl, Hroom. rewrite Hl, length_app. simpl. rewrite ulong_small; lia.
    + rewrite length_app in Hroom. rewrite length_app. simpl. lia.
  - simpl. apply (touches_trans _ _ (<[a := mk_node (final None xs) (first ys None) v]> (nodes h))).
    { intros b Hb. rewrite lookup_insert_ne; [done|]. set_solver. }
    rewrite locs_app. eapply touches_trans; [apply link_next_touches|apply link_prev_touches].
    + intros b Hb%final_in. set_solver.
    + intros b Hb%first_in. set_solver.
Qed.

Lemma new_node_in h n a : is_Some (nodes h !! a) → is_Some (nodes (new_node h n).1 !! a).
Proof.
  intros Ha. simpl. destruct (decide (fresh (dom (nodes h)) = a)) as [<-|Hne].
  - by rewrite lookup_insert_eq.
  - by rewrite lookup_insert_ne.
Qed.

Lemma listAddNodeHead_spec l h xs v :
  rep h l xs → room xs → inserted_at l h [] xs v (listAddNodeHead l h v).
Proof.
  intros R Hroom. pose proof R as [Hd Hnd Hh Ht Hl Hs]. unfold listAddNodeHead. rewrite (rep_nil h l xs R).
  case_bool_decide as E.
  - subst xs. by apply (inserted_intro l h [] [] v).
  - destruct xs as [|[b w] xs]; [done|]. simpl in Hh. rewrite Hh.
    change (new_node h ?n) with ((new_node h n).1, (new_node h n).2). cbn iota.
    rewrite set_prev_link.
    2:{ apply new_node_in. destruct Hd as [Hb _]. by eexists. }
    bind_red. apply (inserted_intro l h [] ((b, w) :: xs) v); [done|done|done|].
    rewrite Ht. simpl. by rewrite !final_cons.
Qed.

Lemma listAddNodeTail_spec l h xs v :
  rep h l xs → room xs → inserted_at l h xs [] v (listAddNodeTail l h v).
Proof.
  intros R Hroom. pose proof R as [Hd Hnd Hh Ht Hl Hs]. unfold listAddNodeTail. rewrite (rep_nil h l xs R).
  case_bool_decide as E.
  - subst xs. by apply (inserted_intro l h [] [] v).
  - destruct (final_some None xs E) as (b & Hb & Hin). rewrite Ht, Hb.
    change (new_node h ?n) with ((new_node h n).1, (new_node h n).2). cbn iota.
    rewrite set_next_link.
    2:{ apply new_node_in. by eapply dll_lookup. }
    bind_red. rewrite <-(app_nil_r xs) in R, Hroom.
    pose proof (inserted_intro l h xs [] v (head l) (Some (fresh (dom (nodes h)))) R Hroom) as Hi.
    rewrite Hb in Hi. apply Hi.
    + rewrite Hh, first_app. by destruct xs as [|[??]].
    + by rewrite final_snoc.
Qed.

(** The node in the middle of a list. *)
Lemma dll_get m xs b w ys :
  dll m None (xs ++ (b, w) :: ys) None → m !! b = Some (mk_node (final None xs) (first ys None) w).
Proof. by intros [_ [Hb _]]%dll_app. Qed.

Lemma rep_get h l xs b w ys :
  rep h l (xs ++ (b, w) :: ys) → nget h (Some b) = Ret (mk_node (final None xs) (first ys None) w).
Proof. intros R. unfold nget. by rewrite (dll_get _ xs b w ys (rep_dll _ _ _ R)). Qed.

(** The end tests of the code: a node is the last (first) one when nothing follows
    (precedes). *)
Lemma final_is xs b w ys :
  NoDup (locs (xs ++ (b, w) :: ys)) → final None (xs ++ (b, w) :: ys) = Some b ↔ ys = [].
Proof.
  rewrite locs_app. intros (_ & _ & [Hb _]%NoDup_cons)%NoDup_app.
  rewrite final_app, final_cons. split; [|by intros ->].
  intros E. destruct (decide (ys = [])) as [|Hne]; [done|].
  destruct (final_some (Some b) ys Hne) as (a & Ea & Ha).
  assert (a = b) as -> by congruence. by destruct (Hb Ha).
Qed.

Lemma first_is xs b w ys :
  NoDup (locs (xs ++ (b, w) :: ys)) → first (xs ++ (b, w) :: ys) None = Some b ↔ xs = [].
Proof.
  rewrite locs_app. intros (_ & Hd & _)%NoDup_app. split; [|by intros ->].
  destruct xs as [|[a u] xs]; [done|]. simpl. intros [= ->]. destruct (Hd b); simpl; by left.
Qed.

Lemma listInsertNode_after l h xs b w ys v :
  rep h l (xs ++ (b, w) :: ys) → room (xs ++ (b, w) :: ys) →
  inserted_at l h (xs ++ [(b, w)]) ys v (listInsertNode l h (Some b) v true).
Proof.
  intros R Hroom. pose proof R as [Hd Hnd Hh Ht Hl Hs]. unfold listInsertNode.
  rewrite (rep_get h l xs b w ys R). bind_red. cbn [next prev].
  change (new_node h ?n) with ((new_node h n).1, (new_node h n).2). cbn iota.
  set (a := (new_node h (mk_node (Some b) (first ys None) v)).2).
  rewrite (bool_decide_eq_true_2 (Some b ≠ None)) by done.
  rewrite set_next_link by (apply new_node_in; rewrite (dll_get _ xs b w ys Hd); by eexists). bind_red.
  assert (xs ++ (b, w) :: ys = (xs ++ [(b, w)]) ++ ys) as Eq by by rewrite <-app_assoc.
  pose proof R as R'. pose proof Hroom as Hroom'. rewrite Eq in R', Hroom'.
  set (tl := if bool_decide (tail l = Some b) then Some a else tail l).
  pose proof (inserted_intro l h (xs ++ [(b, w)]) ys v (head l) tl R' Hroom') as Hi.
  rewrite final_snoc in Hi.
  assert (tl = final None ((xs ++ [(b, w)]) ++ (a, v) :: ys)) as Htl.
  { unfold tl. rewrite Ht, (final_app _ (xs ++ _)), final_cons.
    case_bool_decide as E; rewrite (final_is xs b w ys Hnd) in E; [by subst|].
    rewrite final_app, final_cons. by apply final_indep. }
  assert (head l = first ((xs ++ [(b, w)]) ++ (a, v) :: ys) None) as Hhd.
  { rewrite Hh, !first_app. by destruct xs as [|[??]]. }
  specialize (Hi Hhd Htl).
  destruct (first ys None) as [c|] eqn:Ec.
  - rewrite (bool_decide_eq_true_2 (Some c ≠ None)) by done.
    rewrite set_prev_link.
    2:{ cbn [nodes link_next]. apply lookup_alter_is_Some, new_node_in.
        eapply dll_lookup; [exact Hd|]. rewrite locs_app. apply first_in in Ec. set_solver. }
    bind_red. unfold tl in Hi. by case_bool_decide.
  - rewrite (bool_decide_eq_false_2 (None ≠ None)) by tauto. bind_red. unfold tl in Hi. by case_bool_decide.
Qed.

Lemma listInsertNode_before l h xs b w ys v :
  rep h l (xs ++ (b, w) :: ys) → room (xs ++ (b, w) :: ys) →
  inserted_at l h xs ((b, w) :: ys) v (listInsertNode l h (Some b) v false).
Proof.
  intros R Hroom. pose proof R as [Hd Hnd Hh Ht Hl Hs]. unfold listInsertNode.
  rewrite (rep_get h l xs b w ys R). bind_red. cbn [next prev].
  change (new_node h ?n) with ((new_node h n).1, (new_node h n).2). cbn iota.
  set (a := (new_node h (mk_node (final None xs) (Some b) v)).2).
  set (hd := if bool_decide (head l = Some b) then Some a else head l).
  pose proof (inserted_intro l h xs ((b, w) :: ys) v hd (tail l) R Hroom) as Hi.
  assert (hd = first (xs ++ (a, v) :: (b, w) :: ys) None) as Hhd.
  { unfold hd. rewrite Hh. case_bool_decide as E; rewrite (first_is xs b w ys Hnd) in E; [by subst|].
    rewrite !first_app. by destruct xs as [|[??]]. }
  assert (tail l = final None (xs ++ (a, v) :: (b, w) :: ys)) as Htl.
  { rewrite Ht, !final_app. by rewrite !final_cons. }
  specialize (Hi Hhd Htl). rewrite (bool_decide_eq_true_2 (Some b ≠ None)) by done.
  assert (is_Some (nodes h !! b)) as Hb by (rewrite (dll_get _ xs b w ys Hd); by eexists).
  destruct (final None xs) as [c|] eqn:Ec.
  - rewrite (bool_decide_eq_true_2 (Some c ≠ None)) by done.
    rewrite set_next_link.
    2:{ apply new_node_in. eapply dll_lookup; [exact Hd|]. rewrite locs_app. apply final_in in Ec. set_solver. }
    bind_red. rewrite set_prev_link.
    2:{ cbn [nodes link_next]. by apply lookup_alter_is_Some, new_node_in. }
    bind_red. unfold hd in Hi. by case_bool_decide.
  - rewrite (bool_decide_eq_false_2 (None ≠ None)) by tauto. bind_red.
    rewrite set_prev_link by by apply new_node_in. bind_red. unfold hd in Hi. by case_bool_decide.
Qed.

(** *** Deletion *)

Definition freed_by (l : alist) (vs : list V) : list V := if free (meths l) then vs else [].

Lemma call_free_nodes l h v : nodes (call_free l h v) = nodes h.
Proof. unfold call_free. by destruct (free (meths l)). Qed.

Lemma call_free_freed l h v : freed (call_free l h v) = freed h ++ freed_by l [v].
Proof. unfold call_free, freed_by. destruct (free (meths l)); [done|]. by rewrite app_nil_r. Qed.

(** The two halves of unlinking: the predecessor (or the head), and the successor (or
    the tail). *)
Lemma unlink_next l h xs b w ys :
  rep h l (xs ++ (b, w) :: ys) →
  (match final None xs with
   | Some _ => h0 ← set_next h (final None xs) (first ys None); Ret (l, h0)
   | None => Ret (mk_alist (first ys None) (tail l) (meths l) (len l), h)
   end) = Ret (mk_alist (first (xs ++ ys) None) (tail l) (meths l) (len l),
               mk_heap (link_next (nodes h) (final None xs) (first ys None)) (freed h)).
Proof.
  intros [Hd _ Hh _ _ _]. destruct (final None xs) as [c|] eqn:Ec.
  - rewrite set_next_link; [|eapply dll_lookup; [exact Hd|]; rewrite locs_app; apply final_in in Ec; set_solver].
    bind_red. do 2 f_equal. destruct l; simpl in *. f_equal.
    rewrite Hh, !first_app. by destruct xs as [|[??]].
  - destruct xs as [|[??] xs _] using rev_ind; [|by rewrite final_snoc in Ec]. by destruct h.
Qed.

Lemma unlink_prev l0 l h xs b w ys :
  rep h l (xs ++ (b, w) :: ys) →
  let m1 := link_next (nodes h) (final None xs) (first ys None) in
  (match first ys None with
   | Some _ => h0 ← set_prev (mk_heap m1 (freed h)) (first ys None) (final None xs); Ret (l0, h0)
   | None => Ret (mk_alist (head l0) (final None xs) (meths l0) (len l0), mk_heap m1 (freed h))
   end) = Ret (mk_alist (head l0) (if bool_decide (ys = []) then final None xs else tail l0) (meths l0) (len l0),
               mk_heap (link_prev m1 (first ys None) (final None xs)) (freed h)).
Proof.
  intros [Hd _ _ _ _ _] m1. destruct ys as [|[c u] ys]; [done|]. cbn [first].
  rewrite set_prev_link; [bind_red; by destruct l0|]. cbn [nodes].
  assert (is_Some (nodes h !! c)) as [n Hn].
  { eapply dll_lookup; [exact Hd|]. rewrite locs_app. simpl. set_solver. }
  unfold m1. destruct (final None xs) as [d|]; simpl; [|by eexists]. by apply lookup_alter_is_Some.
Qed.

Lemma listDelNode_spec l h xs b w ys :
  rep h l (xs ++ (b, w) :: ys) →
  ∃ l' h', listDelNode l h (Some b) = Ret (l', h') ∧ rep h' l' (xs ++ ys) ∧ nodes h' !! b = None
    ∧ touches (locs (xs ++ (b, w) :: ys)) (nodes h) (nodes h')
    ∧ freed h' = freed h ++ freed_by l [w] ∧ meths l' = meths l.
Proof.
  intros R. pose proof R as [Hd Hnd Hh Ht Hl Hs]. pose proof (dll_get _ _ _ _ _ Hd) as Hb.
  pose proof Hnd as Hnd'. rewrite locs_app in Hnd'.
  apply NoDup_app in Hnd' as (Nx & Hdis & [Nby Ny]%NoDup_cons). simpl in Hdis, Nby.
  assert (b ∉ locs xs) as Nbx by (intros H; apply (Hdis b H); by left).
  set (m1 := link_next (nodes h) (final None xs) (first ys None)).
  set (m2 := link_prev m1 (first ys None) (final None xs)).
  assert (m1 !! b = nodes h !! b) as E1
    by (apply (link_next_touches _ _ _ (locs xs)); [apply final_in|done]).
  assert (m2 !! b = m1 !! b) as E2
    by (apply (link_prev_touches _ _ _ (locs ys)); [apply first_in|done]).
  assert (∀ m', m' !! b = nodes h !! b →
    nget (mk_heap m' (freed h)) (Some b) = Ret (mk_node (final None xs) (first ys None) w)) as G.
  { intros m' E'. unfold nget. cbn [nodes]. by rewrite E', Hb. }
  unfold listDelNode. rewrite (rep_get h l xs b w ys R). bind_red. cbn [prev next].
  rewrite (unlink_next l h xs b w ys R). fold m1.
  bind_red. rewrite (G m1) by done. bind_red. cbn [prev next].
  rewrite (unlink_prev _ l h xs b w ys R). fold m1 m2. bind_red. cbn [head tail meths len]. rewrite (G m2) by congruence. bind_red.
  cbn [value]. unfold zfree. rewrite call_free_nodes. cbn [nodes]. rewrite E2, E1, Hb. bind_red.
  eexists _, _. split; [done|]. split; [|split; [|split; [|split]]]; cbn [nodes freed meths].
  - split; cbn [nodes head tail len].
    + by apply dll_unlink with (v := w).
    + rewrite locs_app. apply NoDup_app. split_and!; [done| |done]. intros x Hx Hx'. apply (Hdis x Hx). by right.
    + done.
    + rewrite Ht, final_app, final_cons. case_bool_decide as E; [subst; by rewrite app_nil_r|].
      rewrite final_app. by apply final_indep.
    + rewrite length_app in Hl, Hs. simpl in Hl, Hs. rewrite Hl, length_app. rewrite ulong_small; lia.
    + rewrite length_app in Hs. simpl in Hs. rewrite length_app. lia.
  - apply lookup_delete_eq.
  - rewrite locs_app. simpl. eapply touches_trans; [|intros x Hx; rewrite lookup_delete_ne; [done|set_solver]].
    eapply touches_trans; [apply link_next_touches|apply link_prev_touches].
    + intros x Hx%final_in. set_solver.
    + intros x Hx%first_in. set_solver.
  - by rewrite call_free_freed.
  - done.
Qed.

Lemma empty_loop_spec xs : ∀ l h p,
  dll (nodes h) p xs None → NoDup (locs xs) →
  ∃ h', empty_loop (length xs) l h (first xs None) = Ret h'
    ∧ (∀ a, a ∈ locs xs → nodes h' !! a = None) ∧ touches (locs xs) (nodes h) (nodes h')
    ∧ freed h' = freed h ++ freed_by l (xs.*2).
Proof.
  induction xs as [|[a v] xs IH]; intros l h p Hd Hnd; cbn [empty_loop length].
  { exists h. split_and!; try done; [set_solver|]. unfold freed_by. by destruct (free _); rewrite app_nil_r. }
  destruct Hd as [Ha Hd]. apply NoDup_cons in Hnd as [Hni Hnd].
  unfold nget. cbn [first]. rewrite Ha. bind_red. cbn [value next]. unfold zfree.
  rewrite call_free_nodes, Ha. bind_red.
  destruct (IH l (mk_heap (delete a (nodes h)) (freed (call_free l h v))) (Some a)) as (h' & E & Hgone & Ht & Hf).
  { apply (dll_frame (nodes h) _ [a] _ _ _ Hd).
    - intros b Hb. cbn [nodes]. rewrite lookup_delete_ne; set_solver.
    - intros b Hb ->%list_elem_of_singleton. done. }
  { done. }
  exists h'. split; [exact E|]. split; [|split].
  - intros b [->|Hb]%elem_of_cons; [|by apply Hgone]. rewrite Ht by done. cbn [nodes]. apply lookup_delete_eq.
  - intros b [Hne Hb]%not_elem_of_cons. rewrite Ht by done. cbn [nodes]. by rewrite lookup_delete_ne.
  - rewrite Hf. cbn [freed]. rewrite call_free_freed, <-app_assoc. f_equal. unfold freed_by. by destruct (free _).
Qed.

Lemma listEmpty_spec l h xs :
  rep h l xs →
  ∃ l' h', listEmpty l h = Ret (l', h') ∧ rep h' l' [] ∧ (∀ a, a ∈ locs xs → nodes h' !! a = None)
    ∧ touches (locs xs) (nodes h) (nodes h') ∧ freed h' = freed h ++ freed_by l (xs.*2).
Proof.
  intros [Hd Hnd Hh _ Hl _]. destruct (empty_loop_spec xs l h None Hd Hnd) as (h' & E & ? & ? & ?).
  unfold listEmpty. rewrite Hl, Nat2Z.id, Hh, E. bind_red. eexists _, h'. split_and!; try done.
  split; try done. constructor.
Qed.

(** *** Iteration *)

(** [listNext] called [n] times. *)
Fixpoint visit (n : nat) (h : heap) (it : listIter) : out (list loc) :=
  match n with
  | 0 => Ret []
  | S n => '(it, node) ← listNext h it;
           match node with None => Ret [] | Some a => rest ← visit n h it; Ret (a :: rest) end
  end.

Lemma visit_forward h xs : ∀ p n,
  dll (nodes h) p xs None → length xs < n →
  visit n h (mk_iter (first xs None) AL_START_HEAD) = Ret (locs xs).
Proof.
  induction xs as [|[a v] xs IH]; intros p n Hd Hn; destruct n as [|n]; simpl in Hn; try lia; [done|].
  destruct Hd as [Ha Hd]. cbn [visit]. unfold listNext, nget. cbn [it_next first]. rewrite Ha. bind_red.
  cbn [direction next]. rewrite bool_decide_eq_true_2 by done. by rewrite (IH (Some a)) by (done || lia).
Qed.

Lemma visit_backward h xs : ∀ q n,
  dll (nodes h) None xs q → length xs < n →
  visit n h (mk_iter (final None xs) AL_START_TAIL) = Ret (reverse (locs xs)).
Proof.
  induction xs as [|[a v] xs IH] using rev_ind; intros q n Hd Hn;
    rewrite ?length_app in Hn; destruct n as [|n]; simpl in Hn; try lia; [done|].
  apply dll_app in Hd as [Hd [Ha _]]. cbn [visit]. unfold listNext, nget. cbn [it_next].
  rewrite final_snoc, Ha. bind_red. cbn [direction prev].
  rewrite bool_decide_eq_false_2 by done. rewrite (IH (Some a)) by (done || lia). bind_red.
  by rewrite locs_app, reverse_app.
Qed.

Lemma nget_at h a n : nodes h !! a = Some n → nget h (Some a) = Ret n.
Proof. intros H. unfold nget. by rewrite H. Qed.

Lemma listNext_at h a n :
  nodes h !! a = Some n →
  listNext h (mk_iter (Some a) AL_START_HEAD) = Ret (mk_iter (next n) AL_START_HEAD, Some a).
Proof.
  intros H. unfold listNext. cbn [it_next]. rewrite (nget_at h a n H). bind_red. cbn [direction].
  by rewrite bool_decide_eq_true_2.
Qed.

(** *** Search *)

Definition matches (l : alist) (key v : V) : bool :=
  match matchm (meths l) with Some f => f v key | None => bool_decide (key = v) end.

Lemma search_loop_spec l h key xs : ∀ p fuel,
  dll (nodes h) p xs None → length xs ≤ fuel →
  search_loop fuel l h (mk_iter (first xs None) AL_START_HEAD) key =
    Ret (first (filter (λ x, matches l key x.2 = true) xs) None).
Proof.
  induction xs as [|[a v] xs IH]; intros p fuel Hd Hn; [by destruct fuel|].
  destruct fuel as [|fuel]; simpl in Hn; [lia|]. destruct Hd as [Ha Hd].
  cbn [search_loop first]. rewrite (listNext_at h a _ Ha). bind_red.
  rewrite (nget_at h a _ Ha). bind_red. cbn [value next]. fold (matches l key v).
  rewrite filter_cons. cbn [snd]. destruct (matches l key v).
  - by rewrite decide_True.
  - rewrite decide_False by done. apply (IH (Some a)); [done|lia].
Qed.

Lemma listSearchKey_spec l h xs key :
  rep h l xs → listSearchKey l h key = Ret (first (filter (λ x, matches l key x.2 = true) xs) None).
Proof.
  intros [Hd _ Hh _ Hl _]. unfold listSearchKey, listRewind. rewrite Hh, Hl, Nat2Z.id.
  by apply (search_loop_spec l h key xs None).
Qed.

(** *** Indexing *)

Lemma index_forward h xs : ∀ p k,
  dll (nodes h) p xs None → index_loop k h next (first xs None) = Ret (locs xs !! k).
Proof.
  induction xs as [|[a v] xs IH]; intros p k Hd; [by destruct k|].
  destruct k as [|k]; [done|]. destruct Hd as [Ha Hd]. cbn [index_loop first]. unfold nget. rewrite Ha.
  bind_red. cbn [next]. by rewrite (IH (Some a)).
Qed.

Lemma index_backward h xs : ∀ q k,
  dll (nodes h) None xs q → index_loop k h prev (final None xs) = Ret (reverse (locs xs) !! k).
Proof.
  induction xs as [|[a v] xs IH] using rev_ind; intros q k Hd; [by destruct k|].
  apply dll_app in Hd as [Hd [Ha _]]. rewrite final_snoc, locs_app, reverse_app.
  destruct k as [|k]; [done|]. cbn [index_loop]. unfold nget. rewrite Ha.
  bind_red. cbn [prev]. by rewrite (IH (Some a)).
Qed.

Lemma listIndex_spec l h xs i :
  rep h l xs →
  listIndex l h i = Ret (if bool_decide (i < 0)%Z then reverse (locs xs) !! Z.to_nat (- i - 1)
                         else locs xs !! Z.to_nat i).
Proof.
  intros [Hd _ Hh Ht _ _]. unfold listIndex. case_bool_decide.
  - rewrite Ht. by eapply index_backward.
  - rewrite Hh. by eapply index_forward.
Qed.

(** *** Copies *)

Definition dup_value (l : alist) (v : V) : option V :=
  match dup (meths l) with Some f => f v | None => Some v end.

(** The state of the loop: [ys] has been copied, into new nodes only. *)
Record copying (h0 h : heap) (copy : alist) ys : Prop := {
  cp_rep : rep h copy ys;
  cp_new : ∀ a, a ∈ locs ys → nodes h0 !! a = None;
  cp_touch : touches (locs ys) (nodes h0) (nodes h);
  cp_freed : freed h = freed h0;
}.

Lemma dup_loop_spec h0 xs : ∀ p fuel copy h ys,
  copying h0 h copy ys → dll (nodes h0) p xs None → length xs ≤ fuel →
  (Z.of_nat (length ys + length xs) < 2 ^ 64)%Z →
  ∃ r h', dup_loop fuel copy h (mk_iter (first xs None) AL_START_HEAD) = Ret (r, h') ∧
    match mapM (dup_value copy) (xs.*2) with
    | Some vs => ∃ copy' zs, r = Some copy' ∧ copying h0 h' copy' zs ∧ zs.*2 = ys.*2 ++ vs
        ∧ meths copy' = meths copy
    | None => r = None ∧ nodes h' = nodes h0
    end.
Proof.
  induction xs as [|[a v] xs IH]; intros p fuel copy h ys Hc Hd Hn Hs.
  { exists (Some copy), h. split; [by destruct fuel|]. exists copy, ys. split_and!; try done. by rewrite app_nil_r. }
  destruct fuel as [|fuel]; simpl in Hn; [lia|]. destruct Hd as [Ha Hd]. pose proof Hc as [R Hnew Ht Hf].
  assert (nodes h !! a = Some (mk_node p (first xs None) v)) as Ha'.
  { rewrite Ht; [done|]. intros Hin%Hnew. congruence. }
  cbn [dup_loop first]. rewrite (listNext_at h a _ Ha'). bind_red.
  rewrite (nget_at h a _ Ha'). bind_red. cbn [value next].
  rewrite fmap_cons. cbn [mapM snd].
  fold (dup_value copy v). destruct (dup_value copy v) as [v'|] eqn:Ev; simpl.
  - simpl in Hs. destruct (listAddNodeTail_spec copy h ys v' R) as (copy' & h' & b & -> & Hb & R' & Ht' & Hf' & Hm).
    { unfold room. lia. }
    bind_red. rewrite app_nil_r in Ht'.
    assert (copying h0 h' copy' (ys ++ [(b, v')])) as Hc'.
    { split; [done| | |congruence]; rewrite locs_app.
      - intros c [Hc0| ->%list_elem_of_singleton]%elem_of_app; [by apply Hnew|].
        rewrite <-Ht; [done|]. by eapply dll_not_in; [apply R|].
      - intros c Hcn. rewrite Ht', Ht by set_solver. done. }
    assert (∀ w, dup_value copy' w = dup_value copy w) as Edv by (intros w; unfold dup_value; by rewrite Hm).
    destruct (IH (Some a) fuel copy' h' (ys ++ [(b, v')]) Hc' Hd) as (r & h'' & E & Hr).
    { lia. } { rewrite length_app. simpl. lia. }
    exists r, h''. split; [exact E|].
    rewrite (mapM_ext (dup_value copy') (dup_value copy)) in Hr by done.
    destruct (mapM (dup_value copy) xs.*2) as [vs|]; simpl; [|done].
    destruct Hr as (copy'' & zs & -> & Hc'' & Hz & Hm'). exists copy'', zs. split_and!; try done; [|congruence].
    rewrite Hz, fmap_app, <-app_assoc. done.
  - destruct (listEmpty_spec copy h ys R) as (l' & h' & E & _ & Hgone & Ht' & _).
    exists None, h'. unfold listRelease. rewrite E. bind_red. split; [done|]. split; [done|].
    apply map_eq. intros c. destruct (decide (c ∈ locs ys)) as [Hc'|Hc'].
    + by rewrite Hgone, Hnew.
    + by rewrite Ht', Ht.
Qed.

(** *** Rotation and concatenation *)

Lemma link_is_some m p q a :
  is_Some (m !! a) → is_Some (link_next m p q !! a) ∧ is_Some (link_prev m p q !! a).
Proof. intros Ha. destruct p as [b|]; [|done]. simpl. by rewrite !lookup_alter_is_Some. Qed.

Lemma first_some p xs : xs ≠ [] → ∃ a, first xs p = Some a ∧ a ∈ locs xs.
Proof. destruct xs as [|[a v] xs]; [done|]. intros _. exists a. split; [done|]. by left. Qed.

Lemma listRotate_spec l h xs b w :
  rep h l (xs ++ [(b, w)]) → xs ≠ [] →
  ∃ l' h', listRotate l h = Ret (l', h') ∧ rep h' l' ((b, w) :: xs)
    ∧ touches (locs (xs ++ [(b, w)])) (nodes h) (nodes h') ∧ freed h' = freed h ∧ meths l' = meths l.
Proof.
  intros R Hne. pose proof R as [Hd Hnd Hh Ht Hl Hs]. pose proof Hd as [Hx [Hb _]]%dll_app.
  rewrite locs_app in Hnd. apply NoDup_app in Hnd as (Nx & Hdis & _).
  assert (b ∉ locs xs) as Hbx by (intros H; apply (Hdis b H); by left).
  destruct (final_some None xs Hne) as (c & Ec & Hcx), (first_some None xs Hne) as (a & Ea & Hax).
  rewrite final_snoc in Ht. rewrite first_app, (first_indep_nonempty xs _ None Hne), Ea in Hh.
  assert (∀ d, d ∈ locs xs → is_Some (nodes h !! d)) as Hsome by (intros; by eapply dll_lookup).
  unfold listRotate. rewrite bool_decide_eq_false_2.
  2:{ rewrite Hl, length_app. destruct xs; [done|]. simpl. lia. }
  rewrite Ht. rewrite (nget_at h b _ Hb). bind_red. cbn [prev tail head].
  rewrite Ec, Hh. cbn [head tail meths len].
  rewrite set_next_link by auto. bind_red.
  set (m1 := link_next (nodes h) (Some c) None).
  rewrite set_prev_link by (cbn [nodes]; apply link_is_some; auto). bind_red. cbn [nodes freed].
  set (m2 := link_prev m1 (Some a) (Some b)).
  assert (is_Some (m2 !! b)) as Hb2 by (apply link_is_some, link_is_some; by eexists).
  rewrite set_prev_link by done. bind_red. cbn [nodes freed]. set (m3 := link_prev m2 (Some b) None).
  rewrite set_next_link by (by apply link_is_some). bind_red. cbn [nodes freed].
  set (m4 := link_next m3 (Some b) (Some a)).
  assert (touches [b] m2 m4) as T24.
  { eapply touches_trans; [apply link_prev_touches|apply link_next_touches]; intros ? [= ->]; by left. }
  assert (touches (locs xs) (nodes h) m2) as T02.
  { eapply touches_trans; [apply link_next_touches|apply link_prev_touches]; by intros ? [= <-]. }
  eexists _, _. split; [done|]. split; [|split; [|done]].
  - split; cbn [nodes head tail len].
    + split.
      * unfold m4, m3. simpl. rewrite !lookup_alter_eq, T02, Hb by done. simpl. by rewrite Ea.
      * apply (dll_frame m2 _ [b]); [|done|intros d Hd' ->%list_elem_of_singleton; done].
        unfold m2. rewrite <-Ea. apply dll_link_prev with (p := None); [|done].
        unfold m1. rewrite <-Ec. by apply dll_link_next with (q := first [(b, w)] None).
    + by apply NoDup_cons.
    + done.
    + rewrite final_cons, (final_indep _ None xs Hne). done.
    + rewrite Hl, length_app. simpl. lia.
    + rewrite length_app in Hs. simpl in *. lia.
  - cbn [nodes]. rewrite locs_app. intros d Hd'. rewrite T24, T02 by set_solver. done.
Qed.

Lemma listJoin_spec l o h xs ys :
  rep h l xs → rep h o ys → (∀ a, a ∈ locs xs → a ∉ locs ys) →
  (Z.of_nat (length xs + length ys) < 2 ^ 64)%Z →
  ∃ l' o' h', listJoin l o h = Ret (l', o', h') ∧ rep h' l' (xs ++ ys) ∧ rep h' o' []
    ∧ touches (locs (xs ++ ys)) (nodes h) (nodes h') ∧ freed h' = freed h
    ∧ meths l' = meths l ∧ meths o' = meths o.
Proof.
  intros [Dx Nx Hh Ht Hl Hs] [Dy Ny Hh' Ht' Hl' Hs'] Hdis Hsum.
  set (m1 := link_prev (nodes h) (first ys None) (final None xs)).
  set (m2 := link_next m1 (final None xs) (first ys None)).
  assert (match head o with Some _ => set_prev h (head o) (tail l) | None => Ret h end =
    Ret (mk_heap m1 (freed h))) as E1.
  { rewrite Hh', Ht. unfold m1. destruct (first ys None) as [a|] eqn:Ea; [|by destruct h].
    rewrite set_prev_link; [done|]. eapply dll_lookup; [exact Dy|by apply first_in]. }
  assert (match tail l with
          | Some _ => h0 ← set_next (mk_heap m1 (freed h)) (tail l) (head o); Ret (l, h0)
          | None => Ret (mk_alist (head o) (tail l) (meths l) (len l), mk_heap m1 (freed h))
          end = Ret (mk_alist (first (xs ++ ys) None) (tail l) (meths l) (len l), mk_heap m2 (freed h))) as E2.
  { rewrite Ht, Hh'. unfold m2. destruct (final None xs) as [a|] eqn:Ea.
    - rewrite set_next_link.
      2:{ apply link_is_some. eapply dll_lookup; [exact Dx|by apply final_in]. }
      bind_red. do 2 f_equal. destruct l; simpl in *. rewrite first_app, Hh.
      destruct xs as [|[??]]; [done|]. by rewrite Ht.
    - destruct xs as [|[??] xs _] using rev_ind; [done|by rewrite final_snoc in Ea]. }
  unfold listJoin. rewrite E1. bind_red. rewrite E2. bind_red.
  eexists _, _, _. split; [done|]. split; [|split; [|split; [|split; [done|split]]]]; cbn [nodes freed].
  - split; cbn [nodes head tail len meths].
    + apply dll_app. split.
      * apply dll_link_next with (q := None); [|done].
        eapply dll_frame; [exact Dx|by apply link_prev_touches, first_in|done].
      * eapply dll_frame; [|by apply link_next_touches, final_in|].
        { by eapply dll_link_prev. } intros a Ha Ha'. by apply (Hdis a).
    + rewrite locs_app. apply NoDup_app. by split_and!.
    + by destruct (tail o).
    + rewrite Ht', final_app. destruct ys as [|[c u] ys _] using rev_ind; [done|]. by rewrite !final_snoc.
    + destruct (tail o); cbn [len]; rewrite Hl, Hl', length_app, ulong_small; lia.
    + rewrite length_app. lia.
  - split; try done. constructor.
  - rewrite locs_app. eapply touches_trans; [apply link_prev_touches|apply link_next_touches].
    + intros a Ha%first_in. set_solver.
    + intros a Ha%final_in. set_solver.
  - by destruct (tail o).
  - done.
Qed.
End adlist.

#[global] Arguments listNode : clear implicits.
#[global] Arguments heap : clear implicits.
#[global] Arguments alist : clear implicits.

(** ** Properties *)

(** An empty heap and a list of two numbers in it. *)
Definition heap0 : heap nat := mk_heap ∅ [].
Definition heap2 : heap nat :=
  mk_heap {[ 1%positive := mk_node None (Some 2%positive) 10; 2%positive := mk_node (Some 1%positive) None 20 ]} [].
Definition list2 : alist nat := mk_alist (Some 1%positive) (Some 2%positive) (mk_methods None true None) 2.

Lemma list0_rep : rep heap0 listCreate [].
Proof. split; try done. constructor. Qed.

Lemma list2_rep : rep heap2 list2 [(1%positive, 10); (2%positive, 20)].
Proof. split; try done. apply (bool_decide_unpack _). by vm_compute. Qed.

(** [listAddNodeHead] and [listAddNodeTail] put one new node before, or after,
    all others: the list stays well linked in both directions, its length counts
    the nodes, and no node outside the list changes. *)
Theorem adlist_add {V} (l : alist V) h xs v :
  rep h l xs → room xs →
  inserted_at l h [] xs v (listAddNodeHead l h v) ∧ inserted_at l h xs [] v (listAddNodeTail l h v).
Proof. intros. split; [by apply listAddNodeHead_spec|by apply listAddNodeTail_spec]. Qed.

Lemma adlist_add_witness :
  inserted_at list2 heap2 [(1%positive, 10); (2%positive, 20)] [] 30 (listAddNodeTail list2 heap2 30).
Proof. apply (adlist_add list2 heap2); [exact list2_rep|done]. Defined.

(** [listInsertNode] puts one new node directly after, or before, a node of the list. *)
Theorem adlist_insert {V} (l : alist V) h xs b w ys v :
  rep h l (xs ++ (b, w) :: ys) → room (xs ++ (b, w) :: ys) →
  inserted_at l h (xs ++ [(b, w)]) ys v (listInsertNode l h (Some b) v true)
  ∧ inserted_at l h xs ((b, w) :: ys) v (listInsertNode l h (Some b) v false).
Proof. intros. split; [by apply listInsertNode_after|by apply listInsertNode_before]. Qed.

Lemma adlist_insert_witness :
  inserted_at list2 heap2 [(1%positive, 10)] [(2%positive, 20)] 15
    (listInsertNode list2 heap2 (Some 1%positive) 15 true).
Proof. apply (adlist_insert list2 heap2 [] 1%positive 10 [(2%positive, 20)] 15); [exact list2_rep|done]. Defined.

(** [listDelNode] removes exactly one node: its neighbours are linked to each
    other, the value goes to the free method once, the node is freed, and an
    iterator that had just returned the node goes on with the nodes after it. *)
Theorem adlist_delete {V} (l : alist V) h xs b w ys :
  rep h l (xs ++ (b, w) :: ys) →
  ∃ l' h' it', listDelNode l h (Some b) = Ret (l', h')
    ∧ rep h' l' (xs ++ ys) ∧ nodes h' !! b = None
    ∧ touches (locs (xs ++ (b, w) :: ys)) (nodes h) (nodes h')
    ∧ freed h' = freed h ++ (if free (meths l) then [w] else [])
    ∧ listNext h (mk_iter (Some b) AL_START_HEAD) = Ret (it', Some b)
    ∧ visit (S (length ys)) h' it' = Ret (locs ys).
Proof.
  intros R. destruct (listDelNode_spec l h xs b w ys R) as (l' & h' & E & R' & Hg & Ht & Hf & _).
  pose proof (dll_get _ _ _ _ _ (rep_dll _ _ _ R)) as Hb.
  eexists l', h', _. do 5 (split; [done|]). split; [by apply listNext_at|]. cbn [next].
  destruct R' as [Hd _ _ _ _ _]. apply dll_app in Hd as [_ Hd]. apply (visit_forward h' ys (final None xs)); [done|lia].
Qed.

Lemma adlist_delete_witness :
  ∃ l' h', listDelNode list2 heap2 (Some 1%positive) = Ret (l', h') ∧ rep h' l' [(2%positive, 20)].
Proof.
  destruct (adlist_delete list2 heap2 [] 1%positive 10 [(2%positive, 20)] list2_rep)
    as (l' & h' & it' & E & R & _). exists l', h'. split; [exact E|exact R].
Defined.

(** an iterator from the head returns every node once, in order, and then
    NULL; one from the tail returns them in the opposite order. *)
Theorem adlist_iterate {V} (l : alist V) h xs :
  rep h l xs →
  visit (S (length xs)) h (listGetIterator l AL_START_HEAD) = Ret (locs xs)
  ∧ visit (S (length xs)) h (listGetIterator l AL_START_TAIL) = Ret (reverse (locs xs)).
Proof.
  intros [Hd _ Hh Ht _ _]. unfold listGetIterator.
  rewrite (bool_decide_eq_true_2 (AL_START_HEAD = AL_START_HEAD)) by done.
  rewrite (bool_decide_eq_false_2 (AL_START_TAIL = AL_START_HEAD)) by done. rewrite Hh, Ht.
  split; [eapply visit_forward|eapply visit_backward]; (done || lia).
Qed.

Lemma adlist_iterate_witness :
  visit 3 heap2 (listGetIterator list2 AL_START_TAIL) = Ret [2%positive; 1%positive].
Proof. apply (adlist_iterate list2 heap2 [(1%positive, 10); (2%positive, 20)] list2_rep). Defined.

(** [listSearchKey] returns the first node whose value matches, and NULL when
    there is none; [listIndex] returns the node at a position counted from the
    head, or from the tail for negative positions, and NULL out of range. *)
Theorem adlist_lookup {V} `{!EqDecision V} (l : alist V) h xs key i :
  rep h l xs →
  listSearchKey l h key = Ret (first (filter (λ x, matches l key x.2 = true) xs) None)
  ∧ listIndex l h i = Ret (if bool_decide (i < 0)%Z then reverse (locs xs) !! Z.to_nat (- i - 1)
                           else locs xs !! Z.to_nat i).
Proof. intros. split; [by apply listSearchKey_spec|by apply listIndex_spec]. Qed.

Lemma adlist_lookup_witness :
  listSearchKey list2 heap2 20 = Ret (Some 2%positive) ∧ listIndex list2 heap2 (-2) = Ret (Some 1%positive).
Proof.
  destruct (adlist_lookup list2 heap2 _ 20 (-2)%Z list2_rep) as [E1 E2].
  split; [rewrite E1|rewrite E2]; by vm_compute.
Defined.

(** [listDup] copies a list into new nodes, with the values the dup method
    returns, and leaves the original alone; when the method fails for a value it
    returns NULL and frees everything it had allocated. *)
Theorem adlist_dup {V} (l : alist V) h xs :
  rep h l xs →
  ∃ r h', listDup l h = Ret (r, h') ∧
    match mapM (dup_value l) (xs.*2) with
    | Some vs => ∃ copy zs, r = Some copy ∧ rep h' copy zs ∧ zs.*2 = vs ∧ rep h' l xs
        ∧ (∀ a, a ∈ locs zs → nodes h !! a = None) ∧ meths copy = meths l
    | None => r = None ∧ nodes h' = nodes h
    end.
Proof.
  intros R. pose proof R as [Hd Hnd Hh Ht Hl Hs]. unfold listDup, listRewind. rewrite Hh, Hl, Nat2Z.id.
  destruct (dup_loop_spec h xs None (length xs) (mk_alist None None (meths l) 0) h []) as (r & h' & E & Hr);
    [|done|done|done|].
  { split; try done; [|set_solver]. split; try done. constructor. }
  exists r, h'. split; [exact E|]. rewrite (mapM_ext _ (dup_value l)) in Hr by done.
  destruct (mapM (dup_value l) xs.*2) as [vs|]; [|exact Hr].
  destruct Hr as (copy & zs & -> & [Rc Hnew Htc _] & Hz & Hm). exists copy, zs.
  split_and!; try done. split; try done. eapply dll_frame; [exact Hd|exact Htc|].
  intros a Ha Hza. destruct (dll_lookup _ _ _ _ _ Hd Ha) as [n Hn]. rewrite Hnew in Hn; done.
Qed.

Lemma adlist_dup_witness :
  ∃ copy zs h', listDup list2 heap2 = Ret (Some copy, h') ∧ rep h' copy zs ∧ zs.*2 = [10; 20].
Proof.
  destruct (adlist_dup list2 heap2 _ list2_rep) as (r & h' & E & copy & zs & -> & R & Hz & _).
  exists copy, zs, h'. split; [exact E|]. split; [exact R|exact Hz].
Defined.

(** [listRotate] moves the last node to the front; [listJoin] appends the nodes
    of another list, which is left empty. *)
Theorem adlist_rotate_join {V} (l o : alist V) h xs b w ys :
  rep h l (xs ++ [(b, w)]) → rep h o ys → (∀ a, a ∈ locs (xs ++ [(b, w)]) → a ∉ locs ys) →
  xs ≠ [] → (Z.of_nat (length (xs ++ [(b, w)]) + length ys) < 2 ^ 64)%Z →
  (∃ l' h', listRotate l h = Ret (l', h') ∧ rep h' l' ((b, w) :: xs)
     ∧ touches (locs (xs ++ [(b, w)])) (nodes h) (nodes h'))
  ∧ (∃ l' o' h', listJoin l o h = Ret (l', o', h') ∧ rep h' l' ((xs ++ [(b, w)]) ++ ys) ∧ rep h' o' []).
Proof.
  intros R Ro Hdis Hne Hs. split.
  - destruct (listRotate_spec l h xs b w R Hne) as (l' & h' & E & R' & T & _). by exists l', h'.
  - destruct (listJoin_spec l o h _ ys R Ro Hdis Hs) as (l' & o' & h' & E & R' & Ro' & _).
    by exists l', o', h'.
Qed.

Lemma adlist_rotate_join_witness :
  ∃ l' h', listRotate list2 heap2 = Ret (l', h') ∧ rep h' l' [(2%positive, 20); (1%positive, 10)].
Proof.
  destruct (adlist_rotate_join list2 listCreate heap2 [(1%positive, 10)] 2%positive 20 [])
    as [(l' & h' & E & R & _) _]; [exact list2_rep| |set_solver|done|done|].
  - split; try done. constructor.
  - exists l', h'. split; [exact E|exact R].
Defined.
