(* ===== verification/SdsHdr.v ===== *)
(** * SdsHdr: sds strings with their headers

    The header level of src/src/sds.h and src/src/sds.c: an [sds] is a flags byte
    that encodes one of five header types, length and capacity fields of the
    width of the type, and the allocated bytes.  The theorems show that every
    operation keeps the header consistent with the buffer and refines the
    operation on contents of the same name in Sds.v; growing never loses bytes
    and always leaves the room asked for. *)
From Stdlib Require Import Ascii.
From S2P Require Import Prelude Sds.
Local Open Scope Z_scope.

Definition SDS_MAX_PREALLOC : Z := 1024 * 1024.
Definition SDS_TYPE_5 : Z := 0.
Definition SDS_TYPE_8 : Z := 1.
Definition SDS_TYPE_16 : Z := 2.
Definition SDS_TYPE_32 : Z := 3.
Definition SDS_TYPE_64 : Z := 4.
Definition SDS_TYPE_MASK : Z := 7.
Definition SDS_TYPE_BITS : Z := 3.

(** [s[-1]], the fields before it (unused for type 5) and [s[0]], [s[1]], ... *)
Record sdshdr := mk_hdr { flags : Z; hlen : Z; halloc : Z; buf : bytes }.

Definition set_buf (s : sdshdr) (b : bytes) : sdshdr := mk_hdr (flags s) (hlen s) (halloc s) b.

Definition SDS_TYPE_5_LEN (f : Z) : Z := Z.shiftr f SDS_TYPE_BITS.
Definition type_of (s : sdshdr) : Z := Z.land (flags s) SDS_TYPE_MASK.

(** The width of the fields of a header type. *)
Definition width (type : Z) : Z :=
  match type with 1 => 8 | 2 => 16 | 3 => 32 | _ => 64 end.

(** ** sds.h *)

Definition sdslen (s : sdshdr) : Z :=
  match type_of s with 0 => SDS_TYPE_5_LEN (flags s) | 1 | 2 | 3 | 4 => hlen s | _ => 0 end.

(** [alloc - len] in the type of the fields, promoted to [size_t]. *)
Definition sdsavail (s : sdshdr) : Z :=
  match type_of s with
  | 0 => 0
  | 1 | 2 => (halloc s - hlen s) mod 2 ^ 64
  | 3 => (halloc s - hlen s) mod 2 ^ 32
  | 4 => (halloc s - hlen s) mod 2 ^ 64
  | _ => 0
  end.

Definition sdssetlen (s : sdshdr) (newlen : Z) : sdshdr :=
  match type_of s with
  | 0 => mk_hdr (Z.lor SDS_TYPE_5 (Z.shiftl newlen SDS_TYPE_BITS) mod 2 ^ 8) (hlen s) (halloc s) (buf s)
  | 1 | 2 | 3 | 4 => mk_hdr (flags s) (newlen mod 2 ^ width (type_of s)) (halloc s) (buf s)
  | _ => s
  end.

Definition sdsinclen (s : sdshdr) (inc : Z) : sdshdr :=
  match type_of s with
  | 0 => let newlen := (SDS_TYPE_5_LEN (flags s) + inc) mod 2 ^ 8 in
         mk_hdr (Z.lor SDS_TYPE_5 (Z.shiftl newlen SDS_TYPE_BITS) mod 2 ^ 8) (hlen s) (halloc s) (buf s)
  | 1 | 2 | 3 | 4 => mk_hdr (flags s) ((hlen s + inc) mod 2 ^ width (type_of s)) (halloc s) (buf s)
  | _ => s
  end.

Definition sdsalloc (s : sdshdr) : Z :=
  match type_of s with 0 => SDS_TYPE_5_LEN (flags s) | 1 | 2 | 3 | 4 => halloc s | _ => 0 end.

Definition sdssetalloc (s : sdshdr) (newlen : Z) : sdshdr :=
  match type_of s with
  | 1 | 2 | 3 | 4 => mk_hdr (flags s) (hlen s) (newlen mod 2 ^ width (type_of s)) (buf s)
  | _ => s
  end.

(** ** sds.c *)

Definition sdsHdrSize (type : Z) : Z :=
  match Z.land type SDS_TYPE_MASK with 0 => 1 | 1 => 3 | 2 => 5 | 3 => 9 | 4 => 17 | _ => 0 end.

Definition sdsReqType (string_size : Z) : Z :=
  if bool_decide (string_size < 2 ^ 5) then SDS_TYPE_5
  else if bool_decide (string_size < 2 ^ 8) then SDS_TYPE_8
  else if bool_decide (string_size < 2 ^ 16) then SDS_TYPE_16
  else if bool_decide (string_size < 2 ^ 32) then SDS_TYPE_32
  else SDS_TYPE_64.

Definition size_t (z : Z) : Z := z mod 2 ^ 64.

(** [memcpy] into a buffer at [off]. *)
Definition poke (b : bytes) (off : Z) (t : bytes) : out bytes :=
  let n := Z.to_nat off in
  if bool_decide (0 ≤ off ∧ (n + length t ≤ length b)%nat)
  then Ret (take n b ++ t ++ drop (n + length t) b) else Fail BufferOverflow.

(** Reading [len] bytes of an object that holds [t] and a terminator. *)
Definition peek (t : bytes) (len : Z) : out bytes :=
  if bool_decide (0 ≤ len ∧ (Z.to_nat len ≤ length t + 1)%nat)
  then Ret (take (Z.to_nat len) (t ++ [NUL])) else Fail OutOfBounds.

(** The bytes of the string and its terminator. *)
Definition peek_buf (b : bytes) (len : Z) : out bytes :=
  if bool_decide (0 ≤ len ∧ (Z.to_nat len ≤ length b)%nat)
  then Ret (take (Z.to_nat len) b) else Fail OutOfBounds.

Section memory.
(** The unspecified contents of newly allocated memory. *)
Context (junk : nat → bytes).

(** The buffer of an allocation of [hdrlen+len+1] bytes. *)
Definition bufsize (hdrlen len : Z) : nat := Z.to_nat (size_t (hdrlen + len + 1) - hdrlen).
Definition s_malloc (hdrlen len : Z) : bytes := junk (bufsize hdrlen len).
Definition s_realloc (b : bytes) (hdrlen len : Z) : bytes :=
  let n := bufsize hdrlen len in take n b ++ junk (n - length b)%nat.

Definition sdsnewlen (init : option bytes) (initlen : Z) : out sdshdr :=
  let type := sdsReqType initlen in
  let type := if bool_decide (type = SDS_TYPE_5 ∧ initlen = 0) then SDS_TYPE_8 else type in
  let hdrlen := sdsHdrSize type in
  let b := match init with
           | Some _ => s_malloc hdrlen initlen
           | None => replicate (bufsize hdrlen initlen) NUL
           end in
  let s := match type with
           | 0 => mk_hdr (Z.lor type (Z.shiftl initlen SDS_TYPE_BITS) mod 2 ^ 8) 0 0 b
           | _ => mk_hdr type (initlen mod 2 ^ width type) (initlen mod 2 ^ width type) b
           end in
  b ← (match init with
       | Some init => if bool_decide (initlen ≠ 0) then t ← peek init initlen; poke b 0 t else Ret b
       | None => Ret b
       end);
  b ← poke b initlen [NUL];
  Ret (set_buf s b).

Definition sdsempty : out sdshdr := sdsnewlen (Some []) 0.

Definition sdsnew (init : option bytes) : out sdshdr :=
  let initlen := match init with None => 0 | Some i => Z.of_nat (strlen i) end in
  sdsnewlen init initlen.

(** The content a C program sees at [s]: the buffer up to the stored length. *)
Definition content (s : sdshdr) : bytes := take (Z.to_nat (sdslen s)) (buf s).

Definition sdsdup (s : sdshdr) : out sdshdr := sdsnewlen (Some (content s)) (sdslen s).

Definition sdsupdatelen (s : sdshdr) : sdshdr := sdssetlen s (Z.of_nat (strlen (buf s))).

Definition sdsclear (s : sdshdr) : out sdshdr :=
  let s := sdssetlen s 0 in
  b ← poke (buf s) 0 [NUL]; Ret (set_buf s b).

Definition sdsMakeRoomFor (s : sdshdr) (addlen : Z) : out sdshdr :=
  let oldtype := type_of s in
  if bool_decide (addlen ≤ sdsavail s) then Ret s
  else
    let len := sdslen s in
    let newlen := size_t (len + addlen) in
    let newlen := if bool_decide (newlen < SDS_MAX_PREALLOC) then size_t (newlen * 2)
                  else size_t (newlen + SDS_MAX_PREALLOC) in
    let type := sdsReqType newlen in
    let type := if bool_decide (type = SDS_TYPE_5) then SDS_TYPE_8 else type in
    let hdrlen := sdsHdrSize type in
    if bool_decide (oldtype = type) then
      Ret (sdssetalloc (set_buf s (s_realloc (buf s) hdrlen newlen)) newlen)
    else
      t ← peek_buf (buf s) (len + 1);
      b ← poke (s_malloc hdrlen newlen) 0 t;
      Ret (sdssetalloc (sdssetlen (mk_hdr type 0 0 b) len) newlen).

Definition sdsRemoveFreeSpace (s : sdshdr) : out sdshdr :=
  let oldtype := type_of s in
  let oldhdrlen := sdsHdrSize oldtype in
  let len := sdslen s in
  let type := sdsReqType len in
  let hdrlen := sdsHdrSize type in
  if bool_decide (oldtype = type ∨ SDS_TYPE_8 < type) then
    Ret (sdssetalloc (set_buf s (s_realloc (buf s) oldhdrlen len)) len)
  else
    t ← peek_buf (buf s) (len + 1);
    b ← poke (s_malloc hdrlen len) 0 t;
    Ret (sdssetalloc (sdssetlen (mk_hdr type 0 0 b) len) len).

Definition sdsAllocSize (s : sdshdr) : Z := sdsHdrSize (flags s) + sdsalloc s + 1.

(** The conditions of the assertions, with the conversions of the code. *)
Definition incr_ok (s : sdshdr) (incr : Z) : bool :=
  match type_of s with
  | 0 => let oldlen := SDS_TYPE_5_LEN (flags s) in
         bool_decide ((0 < incr ∧ oldlen + incr < 32) ∨ (incr < 0 ∧ (- incr) mod 2 ^ 32 ≤ oldlen))
  | 1 | 2 => bool_decide ((0 ≤ incr ∧ incr ≤ halloc s - hlen s) ∨ (incr < 0 ∧ (- incr) mod 2 ^ 32 ≤ hlen s))
  | 3 => bool_decide ((0 ≤ incr ∧ incr mod 2 ^ 32 ≤ (halloc s - hlen s) mod 2 ^ 32)
                      ∨ (incr < 0 ∧ (- incr) mod 2 ^ 32 ≤ hlen s))
  | 4 => bool_decide ((0 ≤ incr ∧ incr mod 2 ^ 64 ≤ (halloc s - hlen s) mod 2 ^ 64)
                      ∨ (incr < 0 ∧ (- incr) mod 2 ^ 64 ≤ hlen s))
  | _ => true
  end.

Definition sdsIncrLen (s : sdshdr) (incr : Z) : out sdshdr :=
  if negb (incr_ok s incr) then Fail AssertFail
  else
    let s' := match type_of s with
              | 0 => mk_hdr (Z.lor SDS_TYPE_5 (Z.shiftl (SDS_TYPE_5_LEN (flags s) + incr) SDS_TYPE_BITS)
                               mod 2 ^ 8) (hlen s) (halloc s) (buf s)
              | _ => sdsinclen s incr
              end in
    let len := match type_of s with
               | 0 => SDS_TYPE_5_LEN (flags s) + incr
               | 1 | 2 | 3 | 4 => hlen s'
               | _ => 0
               end in
    b ← poke (buf s') len [NUL]; Ret (set_buf s' b).

Definition sdsgrowzero (s : sdshdr) (len : Z) : out sdshdr :=
  let curlen := sdslen s in
  if bool_decide (len ≤ curlen) then Ret s
  else
    s ← sdsMakeRoomFor s (len - curlen);
    b ← poke (buf s) curlen (replicate (Z.to_nat (len - curlen + 1)) NUL);
    Ret (sdssetlen (set_buf s b) len).

Definition sdscatlen (s : sdshdr) (t : bytes) (len : Z) : out sdshdr :=
  let curlen := sdslen s in
  s ← sdsMakeRoomFor s len;
  t ← peek t len;
  b ← poke (buf s) curlen t;
  let s := sdssetlen (set_buf s b) (curlen + len) in
  b ← poke (buf s) (curlen + len) [NUL];
  Ret (set_buf s b).

Definition sdscat (s : sdshdr) (t : bytes) : out sdshdr := sdscatlen s t (Z.of_nat (strlen t)).

Definition sdscatsds (s t : sdshdr) : out sdshdr := sdscatlen s (content t) (sdslen t).

Definition sdscpylen (s : sdshdr) (t : bytes) (len : Z) : out sdshdr :=
  s ← (if bool_decide (sdsalloc s < len) then sdsMakeRoomFor s (size_t (len - sdslen s)) else Ret s);
  t ← peek t len;
  b ← poke (buf s) 0 t;
  b ← poke b len [NUL];
  Ret (sdssetlen (set_buf s b) len).

Definition sdscpy (s : sdshdr) (t : bytes) : out sdshdr := sdscpylen s t (Z.of_nat (strlen t)).
End memory.

(** ** Consistent headers *)

(** The lengths a header type can store. *)
Definition cap (type : Z) : Z := if bool_decide (type = 0) then 32 else 2 ^ width type.

Record hdr_ok (s : sdshdr) : Prop := {
  ok_type : 0 ≤ type_of s ≤ 4;
  ok_len : 0 ≤ sdslen s ≤ sdsalloc s;
  ok_cap : sdsalloc s < cap (type_of s);
  ok_buf : (Z.to_nat (sdsalloc s) + 1 ≤ length (buf s))%nat;
  ok_nul : buf s !! Z.to_nat (sdslen s) = Some NUL;
}.

(** Case analysis on a header type. *)
Ltac by_type H :=
  match type of H with
  | 0 ≤ ?t ≤ 4 =>
    let E := fresh "Et" in
    assert (t = 0 ∨ t = 1 ∨ t = 2 ∨ t = 3 ∨ t = 4) as [E | [E | [E | [E | E]]]] by lia
  end.

Lemma type5_flags n :
  0 ≤ n < 32 →
  let f := Z.lor SDS_TYPE_5 (Z.shiftl n SDS_TYPE_BITS) mod 2 ^ 8 in
  Z.land f SDS_TYPE_MASK = 0 ∧ SDS_TYPE_5_LEN f = n.
Proof.
  intros Hn f. assert (f = n * 8) as ->.
  { unfold f. rewrite Z.lor_0_l, Z.shiftl_mul_pow2 by (unfold SDS_TYPE_BITS; lia).
    apply Z.mod_small. unfold SDS_TYPE_BITS. lia. }
  split.
  - change SDS_TYPE_MASK with (Z.ones 3). rewrite Z.land_ones by lia. change (2 ^ 3) with 8. by apply Z.mod_mul.
  - unfold SDS_TYPE_5_LEN, SDS_TYPE_BITS. rewrite Z.shiftr_div_pow2 by lia. change (2 ^ 3) with 8. by apply Z.div_mul.
Qed.

Lemma setlen_spec s n :
  0 ≤ type_of s ≤ 4 → 0 ≤ n < cap (type_of s) →
  type_of (sdssetlen s n) = type_of s ∧ sdslen (sdssetlen s n) = n ∧ buf (sdssetlen s n) = buf s
  ∧ sdsalloc (sdssetlen s n) = if bool_decide (type_of s = 0) then n else sdsalloc s.
Proof.
  intros Ht Hn. by_type Ht; unfold sdssetlen, cap in *; rewrite Et in *; simpl in Hn.
  1:{ destruct (type5_flags n Hn) as [E1 E2].
      unfold sdslen, sdsalloc, type_of. cbn [flags buf]. rewrite E1. by rewrite E2. }
  all: unfold sdslen, sdsalloc; split; [exact Et|]; unfold type_of; cbn [flags hlen halloc buf];
    fold (type_of s); rewrite Et; cbn [width]; rewrite ?Z.mod_small by lia; done.
Qed.

Lemma setalloc_spec s n :
  0 ≤ type_of s ≤ 4 → 0 ≤ n < cap (type_of s) →
  type_of (sdssetalloc s n) = type_of s ∧ sdslen (sdssetalloc s n) = sdslen s
  ∧ buf (sdssetalloc s n) = buf s
  ∧ sdsalloc (sdssetalloc s n) = if bool_decide (type_of s = 0) then sdslen s else n.
Proof.
  intros Ht Hn. by_type Ht; unfold sdssetalloc, cap in *; rewrite Et in *; simpl in Hn.
  1:{ unfold sdslen, sdsalloc. by rewrite Et. }
  all: unfold sdslen, sdsalloc; split; [exact Et|]; unfold type_of; cbn [flags hlen halloc buf];
    fold (type_of s); rewrite Et; cbn [width]; rewrite ?Z.mod_small by lia; done.
Qed.

Lemma avail_spec s :
  hdr_ok s → sdsavail s = if bool_decide (type_of s = 0) then 0 else sdsalloc s - sdslen s.
Proof.
  intros [Ht Hl Hc _ _]. by_type Ht; unfold sdsavail, sdsalloc, sdslen, cap in *; rewrite Et in *;
    simpl in *; rewrite ?Z.mod_small by lia; done.
Qed.

Lemma set_buf_fields s b :
  type_of (set_buf s b) = type_of s ∧ sdslen (set_buf s b) = sdslen s
  ∧ sdsalloc (set_buf s b) = sdsalloc s ∧ buf (set_buf s b) = b.
Proof. done. Qed.

Lemma setlen_set_buf s n b b' : set_buf (sdssetlen (set_buf s b) n) b' = sdssetlen (set_buf s b') n.
Proof.
  unfold sdssetlen. change (type_of (set_buf s b)) with (type_of s).
  change (type_of (set_buf s b')) with (type_of s). by repeat case_match.
Qed.

(** The smallest type that can store a length. *)
Lemma reqtype_spec n :
  0 ≤ n < 2 ^ 64 → 0 ≤ sdsReqType n ≤ 4 ∧ n < cap (sdsReqType n)
  ∧ (∀ t, 0 ≤ t ≤ 4 → n < cap t → sdsReqType n ≤ t).
Proof.
  intros Hn. unfold sdsReqType. repeat case_bool_decide; unfold SDS_TYPE_5, SDS_TYPE_8, SDS_TYPE_16,
    SDS_TYPE_32, SDS_TYPE_64; (split; [lia|]); (split; [unfold cap; simpl; lia|]);
    intros t Ht Hc; by_type Ht; subst t; unfold cap in Hc; simpl in Hc; lia.
Qed.

Lemma type_small t : 0 ≤ t ≤ 4 → Z.land t SDS_TYPE_MASK = t.
Proof. intros Ht. by_type Ht; by subst t. Qed.

Lemma hdrsize_spec t : 0 ≤ t ≤ 4 → 1 ≤ sdsHdrSize t ≤ 17.
Proof. intros Ht. by_type Ht; subst t; by vm_compute. Qed.

(** ** Buffers *)

Lemma length_poke b off t b' : poke b off t = Ret b' → length b' = length b.
Proof.
  unfold poke. case_bool_decide as H; [|done]. intros [= <-]. rewrite !length_app, length_take, length_drop. lia.
Qed.

Lemma poke_ok b (n : nat) t :
  (n + length t ≤ length b)%nat → poke b (Z.of_nat n) t = Ret (take n b ++ t ++ drop (n + length t) b).
Proof. intros H. unfold poke. rewrite Nat2Z.id, bool_decide_eq_true_2 by lia. done. Qed.

Lemma poke_inv b (n : nat) t b' :
  poke b (Z.of_nat n) t = Ret b' →
  (n + length t ≤ length b)%nat ∧ b' = take n b ++ t ++ drop (n + length t) b.
Proof. unfold poke. rewrite Nat2Z.id. case_bool_decide; [|done]. intros [= <-]. split; [lia|done]. Qed.

Lemma bufsize_ok h n : 0 ≤ h → 0 ≤ n → h + n + 1 < 2 ^ 64 → bufsize h n = Z.to_nat (n + 1).
Proof. intros. unfold bufsize, size_t. rewrite Z.mod_small by lia. f_equal. lia. Qed.

(** ** What a string holds *)

Definition holds (s : sdshdr) (c : bytes) : Prop := hdr_ok s ∧ content s = c.

Lemma holds_shape s c :
  holds s c → ∃ rest, buf s = c ++ NUL :: rest ∧ sdslen s = Z.of_nat (length c).
Proof.
  intros [[Ht Hl Hc Hb Hn] <-]. unfold content.
  exists (drop (S (Z.to_nat (sdslen s))) (buf s)). split.
  - by rewrite <-(drop_S _ NUL), take_drop by done.
  - rewrite length_take. lia.
Qed.

Lemma holds_intro s c rest :
  0 ≤ type_of s ≤ 4 → buf s = c ++ NUL :: rest → sdslen s = Z.of_nat (length c) →
  sdslen s ≤ sdsalloc s < cap (type_of s) → (Z.to_nat (sdsalloc s) + 1 ≤ length (buf s))%nat →
  holds s c.
Proof.
  intros Ht Hb Hl Ha Hlen. split.
  - split; [done|lia|lia|done|]. rewrite Hl, Nat2Z.id, Hb. by rewrite lookup_app_r, Nat.sub_diag by lia.
  - unfold content. by rewrite Hl, Nat2Z.id, Hb, take_app_length.
Qed.

Section refinement.
Context (junk : nat → bytes) (Hjunk : ∀ n, length (junk n) = n).

(** Lengths that leave room for the preallocation and the header. *)
Definition small (n : Z) : Prop := 0 ≤ n ∧ n + SDS_MAX_PREALLOC + 18 < 2 ^ 64.

Lemma newlen_spec n (m := if bool_decide (size_t n < SDS_MAX_PREALLOC) then size_t (size_t n * 2)
                          else size_t (size_t n + SDS_MAX_PREALLOC)) :
  small n → n ≤ m ∧ m + 18 < 2 ^ 64.
Proof.
  intros [H0 H1]. unfold m, size_t, SDS_MAX_PREALLOC in *. rewrite (Z.mod_small n) by lia.
  case_bool_decide; rewrite Z.mod_small by lia; lia.
Qed.

(** A realloc keeps the string and its terminator. *)
Lemma realloc_shape b c rest h n :
  b = c ++ NUL :: rest → 0 ≤ h → Z.of_nat (length c) ≤ n → h + n + 1 < 2 ^ 64 →
  ∃ rest', s_realloc junk b h n = c ++ NUL :: rest' ∧ length (s_realloc junk b h n) = Z.to_nat (n + 1).
Proof.
  intros -> Hh Hn Hs. unfold s_realloc. rewrite bufsize_ok by lia. set (k := Z.to_nat (n + 1)).
  exists (take (k - length c - 1) rest ++ junk (k - length (c ++ NUL :: rest))). split.
  - rewrite take_app. rewrite (take_ge c) by lia. destruct (k - length c)%nat as [|j] eqn:E; [lia|].
    cbn [take]. rewrite <-app_assoc. simpl. by rewrite Nat.sub_0_r.
  - rewrite !length_app, length_take, Hjunk, !length_app. simpl. lia.
Qed.

(** Copying the string and its terminator into a new buffer. *)
Lemma copy_shape b c rest h n :
  b = c ++ NUL :: rest → 0 ≤ h → Z.of_nat (length c) ≤ n → h + n + 1 < 2 ^ 64 →
  ∃ b' rest', (t ← peek_buf b (Z.of_nat (length c) + 1); poke (s_malloc junk h n) 0 t) = Ret b'
    ∧ b' = c ++ NUL :: rest' ∧ length b' = Z.to_nat (n + 1).
Proof.
  intros -> Hh Hn Hs. unfold peek_buf.
  replace (Z.to_nat (Z.of_nat (length c) + 1)) with (S (length c)) by lia.
  rewrite bool_decide_eq_true_2 by (rewrite length_app; simpl; lia). bind_red.
  assert (take (S (length c)) (c ++ NUL :: rest) = c ++ [NUL]) as ->.
  { rewrite take_app, take_ge by lia. replace (S (length c) - length c)%nat with 1%nat by lia. done. }
  unfold s_malloc. rewrite bufsize_ok by lia. change 0 with (Z.of_nat 0).
  rewrite poke_ok by (rewrite length_app, Hjunk; simpl; lia).
  eexists _, _. split; [done|]. split; [by rewrite take_0, <-app_assoc|].
  rewrite !length_app, length_take, length_drop, Hjunk. simpl. lia.
Qed.

Lemma type_of_new t b : 0 ≤ t ≤ 4 → type_of (mk_hdr t 0 0 b) = t.
Proof. intros Ht. unfold type_of. cbn [flags]. by apply type_small. Qed.

(** A new header of type [t] for a copied string. *)
Lemma new_header t b c rest n :
  0 ≤ t ≤ 4 → b = c ++ NUL :: rest → length b = Z.to_nat (n + 1) →
  Z.of_nat (length c) ≤ n → (t = 0 → n = Z.of_nat (length c)) → n < cap t →
  holds (sdssetalloc (sdssetlen (mk_hdr t 0 0 b) (Z.of_nat (length c))) n) c
  ∧ sdsalloc (sdssetalloc (sdssetlen (mk_hdr t 0 0 b) (Z.of_nat (length c))) n) = n
  ∧ type_of (sdssetalloc (sdssetlen (mk_hdr t 0 0 b) (Z.of_nat (length c))) n) = t.
Proof.
  intros Ht Hb Hlb Hn H0 Hc. pose proof (type_of_new t b Ht) as Et.
  destruct (setlen_spec (mk_hdr t 0 0 b) (Z.of_nat (length c))) as (T1 & L1 & B1 & A1); [by rewrite Et|rewrite Et; lia|].
  set (s1 := sdssetlen _ _) in *. rewrite Et in T1.
  destruct (setalloc_spec s1 n) as (T2 & L2 & B2 & A2); [by rewrite T1|rewrite T1; lia|].
  set (s2 := sdssetalloc _ _) in *. rewrite T1 in T2, A2.
  assert (sdsalloc s2 = n) as EA.
  { rewrite A2. case_bool_decide; [|done]. rewrite L1. by rewrite H0. }
  split; [|done]. apply (holds_intro s2 c rest).
  - by rewrite T2.
  - by rewrite B2, B1.
  - by rewrite L2, L1.
  - rewrite EA, L2, L1, T2. lia.
  - rewrite EA, B2, B1. cbn [buf]. lia.
Qed.

Lemma sdsMakeRoomFor_spec s c addlen :
  holds s c → 0 ≤ addlen → small (sdslen s + addlen) →
  ∃ s', sdsMakeRoomFor junk s addlen = Ret s' ∧ holds s' c ∧ addlen ≤ sdsavail s'.
Proof.
  intros Hh Ha Hs. pose proof Hh as [Hok _]. destruct (holds_shape s c Hh) as (rest & Hb & Hl).
  pose proof Hok as [Ht Hlen Hcap Hbuf Hn]. unfold sdsMakeRoomFor.
  case_bool_decide as Hav; [by exists s|].
  destruct (newlen_spec _ Hs) as [Hm Hm2]. set (m := if bool_decide (size_t _ < _) then _ else _) in *.
  destruct (reqtype_spec m) as (Tt & Tc & _); [destruct Hs; lia|].
  set (type := if bool_decide (sdsReqType m = SDS_TYPE_5) then SDS_TYPE_8 else sdsReqType m).
  assert (1 ≤ type ≤ 4 ∧ m < cap type) as [Htype Hmc].
  { unfold type, SDS_TYPE_5, SDS_TYPE_8. case_bool_decide as E; [|lia]. rewrite E in Tc.
    unfold cap in *. simpl in *. lia. }
  pose proof (hdrsize_spec type ltac:(lia)) as Hhs.
  case_bool_decide as Eold.
  - destruct (realloc_shape (buf s) c rest (sdsHdrSize type) m) as (rest' & Eb & Elen); [done|lia..|].
    set (s1 := set_buf s _). destruct (set_buf_fields s (s_realloc junk (buf s) (sdsHdrSize type) m)) as (T1 & L1 & _ & B1).
    fold s1 in T1, L1, B1.
    destruct (setalloc_spec s1 m) as (T2 & L2 & B2 & A2); [by rewrite T1|rewrite T1, Eold; lia|].
    set (s2 := sdssetalloc s1 m) in *. rewrite T1, Eold, bool_decide_eq_false_2 in A2 by lia.
    exists s2. split; [done|]. assert (holds s2 c) as Hh2.
    { apply (holds_intro s2 c rest').
      - by rewrite T2, T1.
      - by rewrite B2, B1.
      - by rewrite L2, L1.
      - rewrite A2, L2, L1, T2, T1, Eold. lia.
      - rewrite A2, B2, B1, Elen. lia. }
    split; [done|]. destruct Hh2 as [Hok2 _]. rewrite (avail_spec s2 Hok2), T2, T1, Eold, A2, L2, L1.
    rewrite bool_decide_eq_false_2 by lia. lia.
  - rewrite Hl. destruct (copy_shape (buf s) c rest (sdsHdrSize type) m) as (b' & rest' & Eb & Eb' & Elen); [done|lia..|].
    unfold mbind in Eb. destruct (peek_buf _ _) as [t|]; [|done]. bind_red. simpl in Eb. rewrite Eb. bind_red.
    destruct (new_header type b' c rest' m) as (Hh2 & A2 & T2); [lia|done|done|lia|lia|done|].
    eexists. split; [done|]. split; [done|]. destruct (holds_shape _ _ Hh2) as (_ & _ & L2). destruct Hh2 as [Hok2 _].
    rewrite (avail_spec _ Hok2), T2, A2, L2. rewrite bool_decide_eq_false_2 by lia. lia.
Qed.

(** Storing a new string and its terminator over the old one from [off] on. *)
Lemma rewrite_string s c off t n :
  holds s c → (off ≤ length c)%nat → n = Z.of_nat (off + length t) →
  n ≤ sdslen s + sdsavail s ∨ n ≤ sdslen s →
  ∃ b, poke (buf s) (Z.of_nat off) (t ++ [NUL]) = Ret b
    ∧ holds (sdssetlen (set_buf s b) n) (take off c ++ t).
Proof.
  intros Hh Hoff Hn Hroom. pose proof Hh as [Hok _]. destruct (holds_shape s c Hh) as (rest & Hb & Hl).
  pose proof Hok as [Ht Hlen Hcap Hbuf _]. rewrite (avail_spec s Hok) in Hroom.
  assert (n ≤ sdsalloc s) as Hna by (case_bool_decide; lia).
  rewrite poke_ok by (rewrite length_app; simpl; lia). eexists. split; [done|].
  set (b := take off (buf s) ++ _). destruct (set_buf_fields s b) as (T1 & L1 & A1 & B1).
  set (s1 := set_buf s b) in *.
  destruct (setlen_spec s1 n) as (T2 & L2 & B2 & A2); [by rewrite T1|rewrite T1; lia|].
  assert (length b = length (buf s)) as Elen.
  { unfold b. rewrite !length_app, length_take, length_drop. simpl.
    lia. }
  apply (holds_intro _ _ (drop (off + length (t ++ [NUL])) (buf s))).
  - by rewrite T2, T1.
  - rewrite B2, B1. unfold b. rewrite Hb at 1. rewrite take_app_le by done. by rewrite <-!app_assoc.
  - rewrite L2, length_app, length_take. lia.
  - rewrite A2, L2, T2, T1, A1. destruct (bool_decide _); lia.
  - rewrite A2, B2, B1, Elen, T1, A1. destruct (bool_decide _); lia.
Qed.

Lemma sdsgrowzero_spec s c len :
  holds s c → small len →
  ∃ s', sdsgrowzero junk s len = Ret s' ∧ holds s' (Sds.sdsgrowzero c (Z.to_nat len)).
Proof.
  intros Hh Hs. destruct (holds_shape s c Hh) as (_ & _ & Hl). unfold sdsgrowzero, Sds.sdsgrowzero.
  destruct Hs as [H0 H1]. case_bool_decide as E1.
  - rewrite bool_decide_eq_true_2 by lia. by exists s.
  - rewrite bool_decide_eq_false_2 by lia.
    destruct (sdsMakeRoomFor_spec s c (len - sdslen s)) as (s' & -> & Hh' & Hav); [done|lia|split; lia|].
    bind_red. destruct (holds_shape s' c Hh') as (_ & _ & Hl').
    destruct (rewrite_string s' c (length c) (replicate (Z.to_nat len - length c) NUL) len) as (b & Eb & Hb);
      [done|done|rewrite length_replicate; lia|lia|].
    replace (replicate (Z.to_nat (len - sdslen s + 1)) NUL) with (replicate (Z.to_nat len - length c) NUL ++ [NUL]).
    2:{ rewrite <-replicate_S_end. f_equal. lia. }
    rewrite Hl, Eb. bind_red. eexists. split; [done|]. by rewrite take_ge in Hb.
Qed.

(** Storing a string and then its terminator is one store. *)
Lemma poke_nul b (off : nat) t b1 b2 n :
  poke b (Z.of_nat off) t = Ret b1 → n = Z.of_nat (off + length t) →
  poke b (Z.of_nat off) (t ++ [NUL]) = Ret b2 → poke b1 n [NUL] = Ret b2.
Proof.
  intros [H1 ->]%poke_inv -> [H2 ->]%poke_inv. rewrite length_app in H2. simpl in H2.
  rewrite poke_ok by (rewrite !length_app, length_take, length_drop; simpl; lia).
  f_equal. rewrite !app_assoc. rewrite take_app_length' by (rewrite length_app, length_take; lia).
  rewrite <-!app_assoc. do 3 f_equal. rewrite drop_app_ge by (rewrite length_take; lia).
  rewrite drop_app_ge by (rewrite length_take; lia). rewrite drop_drop, length_take, length_app. f_equal. simpl. lia.
Qed.

Lemma sdscatlen_spec s c t len :
  holds s c → 0 ≤ len → (Z.to_nat len ≤ length t)%nat → small (sdslen s + len) →
  ∃ s', sdscatlen junk s t len = Ret s' ∧ holds s' (Sds.sdscatlen c t (Z.to_nat len)).
Proof.
  intros Hh H0 Ht Hs. destruct (holds_shape s c Hh) as (_ & _ & Hl). unfold sdscatlen.
  destruct (sdsMakeRoomFor_spec s c len Hh H0 Hs) as (s' & -> & Hh' & Hav). bind_red.
  unfold peek. rewrite bool_decide_eq_true_2 by lia. bind_red.
  rewrite take_app_le by lia. set (t' := take (Z.to_nat len) t).
  assert (length t' = Z.to_nat len) as Et by (unfold t'; rewrite length_take; lia).
  destruct (holds_shape s' c Hh') as (rest & Hb & Hl').
  destruct (rewrite_string s' c (length c) t' (sdslen s + len)) as (b & Eb & Hhb); [done|done|lia|lia|].
  assert ((length c + length t' ≤ length (buf s'))%nat) as Hfit.
  { apply poke_inv in Eb as [Hb' _]. rewrite length_app in Hb'. simpl in Hb'. lia. }
  rewrite Hl. rewrite (poke_ok (buf s') (length c) t') by done. bind_red.
  set (b1 := take _ (buf s') ++ _). rewrite <-Hl.
  destruct (setlen_spec (set_buf s' b1) (sdslen s + len)) as (_ & _ & B2 & _).
  { apply Hh'. } { destruct Hh' as [[? ? ? ? ?] ?]. rewrite avail_spec in Hav by done.
    change (type_of (set_buf s' b1)) with (type_of s'). case_bool_decide; lia. }
  rewrite B2. cbn [buf set_buf].
  rewrite (poke_nul (buf s') (length c) t' b1 b); [|by apply poke_ok|lia|done]. bind_red.
  eexists. split; [done|]. unfold Sds.sdscatlen. fold t'. rewrite take_ge in Hhb by done.
  by rewrite setlen_set_buf.
Qed.

Lemma sdscpylen_spec s c t len :
  holds s c → 0 ≤ len → (Z.to_nat len ≤ length t)%nat → small len →
  ∃ s', sdscpylen junk s t len = Ret s' ∧ holds s' (Sds.sdscpylen c t (Z.to_nat len)).
Proof.
  intros Hh H0 Ht Hs. pose proof Hh as [[_ Hlen _ _ _] _]. unfold sdscpylen.
  assert (∃ s1, (if bool_decide (sdsalloc s < len) then sdsMakeRoomFor junk s (size_t (len - sdslen s)) else Ret s)
    = Ret s1 ∧ holds s1 c ∧ (len ≤ sdslen s1 + sdsavail s1 ∨ len ≤ sdslen s1)) as (s1 & -> & Hh1 & Hroom).
  { destruct Hs. case_bool_decide as E.
    - unfold size_t, SDS_MAX_PREALLOC in *. rewrite Z.mod_small by lia.
      destruct (sdsMakeRoomFor_spec s c (len - sdslen s)) as (s1 & E1 & Hh1 & Hav);
        [done|lia|split; unfold SDS_MAX_PREALLOC; lia|].
      exists s1. split_and!; try done. destruct (holds_shape s c Hh) as (_ & _ & Hl).
      destruct (holds_shape s1 c Hh1) as (_ & _ & Hl1). lia.
    - exists s. split_and!; try done. pose proof Hh as [Hok _]. rewrite (avail_spec s Hok).
      case_bool_decide as E0; [|lia]. right. revert E. unfold sdsalloc, sdslen. rewrite E0. lia. }
  bind_red. unfold peek. rewrite bool_decide_eq_true_2 by lia. bind_red. rewrite take_app_le by lia.
  set (t' := take (Z.to_nat len) t).
  assert (length t' = Z.to_nat len) as Et by (unfold t'; rewrite length_take; lia).
  destruct (rewrite_string s1 c 0 t' len) as (b & Eb & Hhb); [done|lia|lia|done|].
  pose proof Eb as [Hfit _]%poke_inv. rewrite length_app in Hfit. simpl in Hfit.
  change 0 with (Z.of_nat 0). rewrite poke_ok by lia. bind_red.
  rewrite (poke_nul (buf s1) 0 t' _ b); [|apply poke_ok; lia|lia|done]. bind_red. by eexists.
Qed.

Lemma sdsclear_spec s c : holds s c → ∃ s', sdsclear s = Ret s' ∧ holds s' [].
Proof.
  intros Hh. pose proof Hh as [[_ Hlen _ _ _] _].
  destruct (rewrite_string s c 0 [] 0) as (b & Eb & Hhb); [done|lia|done|lia|].
  unfold sdsclear. assert (buf (sdssetlen s 0) = buf s) as -> by (unfold sdssetlen; by repeat case_match).
  change 0 with (Z.of_nat 0) at 2. change ([NUL]) with ([] ++ [NUL]). rewrite Eb. bind_red. eexists. split; [done|].
  assert (sdssetlen s 0 = sdssetlen (set_buf s (buf s)) 0) as -> by by destruct s.
  by rewrite setlen_set_buf.
Qed.

Lemma sdsnewlen_spec t len :
  0 ≤ len → (Z.to_nat len ≤ length t)%nat → len + 18 < 2 ^ 64 →
  ∃ s, sdsnewlen junk (Some t) len = Ret s ∧ holds s (Sds.sdsnewlen t (Z.to_nat len))
    ∧ sdsalloc s = len ∧ type_of s = (if bool_decide (len = 0) then SDS_TYPE_8 else sdsReqType len).
Proof.
  intros H0 Ht Hs. unfold sdsnewlen. destruct (reqtype_spec len) as (Tt & Tc & _); [lia|].
  set (type := if bool_decide (sdsReqType len = SDS_TYPE_5 ∧ len = 0) then SDS_TYPE_8 else sdsReqType len).
  assert (0 ≤ type ≤ 4 ∧ len < cap type) as [Htype Hcap].
  { unfold type. case_bool_decide as E; [|done]. destruct E as [_ ->]. by vm_compute. }
  pose proof (hdrsize_spec type Htype) as Hhs. set (t' := take (Z.to_nat len) t).
  assert (length t' = Z.to_nat len) as Et by (unfold t'; rewrite length_take; lia).
  unfold s_malloc. rewrite bufsize_ok by lia. set (b := junk _).
  assert (length b = Z.to_nat (len + 1)) as Eb by apply Hjunk.
  assert ((if bool_decide (len ≠ 0) then t0 ← peek t len; poke b 0 t0 else Ret b) = poke b (Z.of_nat 0) t') as ->.
  { case_bool_decide as E.
    - unfold peek. rewrite bool_decide_eq_true_2 by lia. bind_red. by rewrite take_app_le by lia.
    - subst len. by rewrite poke_ok by (rewrite Eb; simpl; lia). }
  rewrite poke_ok by (simpl; lia). bind_red.
  erewrite (poke_nul b 0 t' _ _ len); [|apply poke_ok; simpl; lia|simpl; lia|].
  2:{ apply poke_ok. rewrite length_app. simpl. lia. }
  bind_red. eexists. split; [done|]. rewrite take_0. cbn [app]. set (b' := (t' ++ [NUL]) ++ _).
  assert (length b' = Z.to_nat (len + 1)) as Eb'.
  { unfold b'. rewrite !length_app, length_drop, Eb. simpl. lia. }
  assert (∃ s, (match type with
    | 0 => mk_hdr (Z.lor type (Z.shiftl len SDS_TYPE_BITS) mod 2 ^ 8) 0 0 b
    | _ => mk_hdr type (len mod 2 ^ width type) (len mod 2 ^ width type) b end) = s
    ∧ type_of s = type ∧ sdslen s = len ∧ sdsalloc s = len) as (s & Es & T1 & L1 & A1).
  { eexists. split; [done|]. by_type Htype; rewrite Et0; unfold cap in Hcap; rewrite Et0 in Hcap; simpl in Hcap.
    1:{ destruct (type5_flags len) as [E1 E2]; [lia|]. unfold sdslen, sdsalloc, type_of. cbn [flags].
        change (Z.lor 0) with (Z.lor SDS_TYPE_5). by rewrite E1, E2. }
    all: unfold sdslen, sdsalloc, type_of; cbn [flags hlen halloc width]; rewrite Z.mod_small by lia; done. }
  rewrite Es. destruct (set_buf_fields s b') as (T2 & L2 & A2 & B2). split; [|split].
  - apply (holds_intro _ _ (drop (length (t' ++ [NUL])) b)).
    + by rewrite T2, T1.
    + rewrite B2. unfold b'. by rewrite <-app_assoc.
    + rewrite L2, L1. unfold Sds.sdsnewlen. fold t'. lia.
    + rewrite L2, L1, A2, A1, T2, T1. lia.
    + rewrite A2, A1, B2. lia.
  - by rewrite A2, A1.
  - rewrite T2, T1. unfold type. case_bool_decide as H1; case_bool_decide as H2; try tauto.
    destruct H1. split; [by rewrite H2|done].
Qed.

Lemma sdsRemoveFreeSpace_spec s c :
  holds s c → sdslen s + 18 < 2 ^ 64 →
  ∃ s', sdsRemoveFreeSpace junk s = Ret s' ∧ holds s' c ∧ sdsalloc s' = sdslen s
    ∧ length (buf s') = Z.to_nat (sdslen s + 1).
Proof.
  intros Hh Hs. pose proof Hh as [Hok _]. destruct (holds_shape s c Hh) as (rest & Hb & Hl).
  pose proof Hok as [Ht Hlen Hcap Hbuf Hn]. unfold sdsRemoveFreeSpace.
  destruct (reqtype_spec (sdslen s)) as (Tt & Tc & _); [lia|].
  pose proof (hdrsize_spec _ Ht) as Hh1. pose proof (hdrsize_spec _ Tt) as Hh2.
  case_bool_decide as E.
  - destruct (realloc_shape (buf s) c rest (sdsHdrSize (type_of s)) (sdslen s)) as (rest' & Eb & Elen); [done|lia..|].
    set (b := s_realloc _ _ _ _) in *. destruct (set_buf_fields s b) as (T1 & L1 & A1 & B1).
    set (s1 := set_buf s b) in *.
    destruct (setalloc_spec s1 (sdslen s)) as (T2 & L2 & B2 & A2); [by rewrite T1|rewrite T1; lia|].
    assert (sdsalloc (sdssetalloc s1 (sdslen s)) = sdslen s) as EA.
    { rewrite A2, L1. by destruct (bool_decide _). }
    eexists. split; [done|]. split; [|split; [done|by rewrite B2, B1]]. apply (holds_intro _ c rest').
    + by rewrite T2, T1.
    + by rewrite B2, B1.
    + by rewrite L2, L1.
    + rewrite EA, L2, L1, T2, T1. lia.
    + rewrite EA, B2, B1. lia.
  - destruct (copy_shape (buf s) c rest (sdsHdrSize (sdsReqType (sdslen s))) (sdslen s))
      as (b' & rest' & Eb & Eb' & Elen); [done|lia..|].
    rewrite <-Hl in Eb. unfold mbind in Eb. destruct (peek_buf _ _) as [t|]; [|done]. bind_red. simpl in Eb.
    rewrite Eb. bind_red. destruct (new_header (sdsReqType (sdslen s)) b' c rest' (sdslen s)) as (Hh3 & A3 & T3);
      [done|done|done|lia|lia|done|].
    rewrite <-Hl in Hh3, A3, T3. eexists. split; [done|]. split_and!; try done.
    assert (∀ s0 n m, buf (sdssetalloc (sdssetlen s0 n) m) = buf s0) as Hbuf'.
    { intros. unfold sdssetalloc, sdssetlen. by repeat case_match. }
    by rewrite Hbuf'.
Qed.

(** [sdsIncrLen] makes bytes written after the string part of it, or cuts some off. *)
Lemma sdsIncrLen_spec s c incr :
  holds s c → - sdslen s ≤ incr ≤ sdsavail s → (type_of s = 0 → incr ≠ 0) →
  ∃ s', sdsIncrLen s incr = Ret s' ∧ holds s' (take (Z.to_nat (sdslen s + incr)) (buf s)).
Proof.
  intros Hh Hi Hz. pose proof Hh as [Hok _]. destruct (holds_shape s c Hh) as (rest & Hb & Hl).
  pose proof Hok as [Ht Hlen Hcap Hbuf Hn]. rewrite (avail_spec s Hok) in Hi.
  assert (0 ≤ sdslen s + incr ≤ sdsalloc s) as Hr by (case_bool_decide; lia).
  set (n := sdslen s + incr) in *.
  assert (incr_ok s incr = true) as Hcond.
  { unfold incr_ok. by_type Ht; unfold cap in Hcap; unfold sdslen, sdsalloc in *; rewrite Et in *; simpl in *;
      apply bool_decide_eq_true_2; rewrite ?(Z.mod_small (halloc s - hlen s)) by lia;
      (destruct (decide (incr < 0)); [right|left]); rewrite ?Z.mod_small by lia; lia. }
  unfold sdsIncrLen. rewrite Hcond. cbn [negb].
  destruct (setlen_spec s n) as (T1 & L1 & B1 & A1); [done|lia|].
  assert ((match type_of s with
           | 0 => mk_hdr (Z.lor SDS_TYPE_5 (Z.shiftl (SDS_TYPE_5_LEN (flags s) + incr) SDS_TYPE_BITS) mod 2 ^ 8)
                    (hlen s) (halloc s) (buf s)
           | _ => sdsinclen s incr end) = sdssetlen s n) as ->.
  { unfold sdssetlen, sdsinclen, n, sdslen. by_type Ht; by rewrite Et. }
  assert (match type_of s with 0 => SDS_TYPE_5_LEN (flags s) + incr | 1 | 2 | 3 | 4 => hlen (sdssetlen s n) | _ => 0 end = n) as ->.
  { pose proof L1 as L. unfold sdslen in L. rewrite T1 in L.
    by_type Ht; rewrite Et in L; rewrite Et; [|exact L..]. unfold n, sdslen. by rewrite Et. }
  rewrite B1. assert (poke (buf s) n [NUL] = poke (buf s) (Z.of_nat (Z.to_nat n)) [NUL]) as -> by (f_equal; lia).
  rewrite poke_ok by (simpl; lia). bind_red. eexists. split; [done|].
  set (b := take (Z.to_nat n) (buf s) ++ _).
  assert (length b = length (buf s)) as Elen.
  { unfold b. rewrite !length_app, length_take, length_drop. simpl. lia. }
  destruct (set_buf_fields (sdssetlen s n) b) as (T2 & L2 & A2 & B2).
  apply (holds_intro _ _ (drop (Z.to_nat n + 1) (buf s))).
  - by rewrite T2, T1.
  - by rewrite B2.
  - rewrite L2, L1, length_take. lia.
  - rewrite L2, L1, A2, A1, T2, T1. destruct (bool_decide _); lia.
  - rewrite A2, A1, B2, Elen. destruct (bool_decide _); lia.
Qed.
End refinement.

(** ** Properties *)

(** C39: [sdsnewlen] makes a consistent string with the bytes given and no spare
    room.  A string that is not empty gets the smallest header type that can store
    its length; the empty string gets type 8, although type 5 could store it. *)
Theorem hdr_new junk t len :
  (∀ n, length (junk n) = n) → 0 ≤ len → (Z.to_nat len ≤ length t)%nat → len + 18 < 2 ^ 64 →
  ∃ s, sdsnewlen junk (Some t) len = Ret s ∧ holds s (Sds.sdsnewlen t (Z.to_nat len))
    ∧ sdsalloc s = len
    ∧ (len = 0 → type_of s = SDS_TYPE_8)
    ∧ (len ≠ 0 → len < cap (type_of s) ∧ ∀ type, 0 ≤ type ≤ 4 → len < cap type → type_of s ≤ type).
Proof.
  intros Hj H0 Ht Hs. destruct (sdsnewlen_spec junk Hj t len H0 Ht Hs) as (s & E & Hh & Ha & Htype).
  exists s. do 3 (split; [done|]). rewrite Htype.
  split; [intros ->; by rewrite bool_decide_eq_true_2|intros Hne]. rewrite bool_decide_eq_false_2 by done.
  destruct (reqtype_spec len) as (_ & Hc & Hmin); [lia|]. split; [done|]. intros. by apply Hmin.
Qed.

Definition fill (n : nat) : bytes := replicate n "#"%char.

Lemma fill_length n : length (fill n) = n.
Proof. apply length_replicate. Qed.

Lemma hdr_new_witness :
  ∃ s, sdsnewlen fill (Some (str "abc")) 3 = Ret s ∧ holds s (str "abc").
Proof.
  destruct (hdr_new fill (str "abc") 3 fill_length) as (s & E & H & _); [lia|simpl; lia|lia|].
  exists s. split; [exact E|exact H].
Defined.

(** [sdsMakeRoomFor] succeeds for every length that does not overflow, keeps
    the string and leaves at least the room asked for, whatever header types the
    old and the new length need. *)
Theorem hdr_make_room junk s c addlen :
  (∀ n, length (junk n) = n) → holds s c → 0 ≤ addlen → small (sdslen s + addlen) →
  ∃ s', sdsMakeRoomFor junk s addlen = Ret s' ∧ holds s' c ∧ addlen ≤ sdsavail s'.
Proof. intros. by apply sdsMakeRoomFor_spec. Qed.

Lemma abc_holds : ∃ s, sdsnewlen fill (Some (str "abc")) 3 = Ret s ∧ holds s (str "abc") ∧ sdslen s = 3.
Proof.
  destruct (sdsnewlen_spec fill fill_length (str "abc") 3) as (s & E & H & _); [lia|simpl; lia|lia|].
  exists s. split; [exact E|]. split; [exact H|]. by destruct (holds_shape s _ H) as (_ & _ & ->).
Qed.

Lemma hdr_make_room_witness :
  ∃ s s', sdsnewlen fill (Some (str "abc")) 3 = Ret s ∧ sdsMakeRoomFor fill s 300 = Ret s'
    ∧ holds s' (str "abc") ∧ 300 ≤ sdsavail s'.
Proof.
  destruct abc_holds as (s & E & H & L).
  destruct (hdr_make_room fill s (str "abc") 300 fill_length H) as (s' & E' & H' & A).
  - lia.
  - rewrite L. split; unfold SDS_MAX_PREALLOC; lia.
  - exists s, s'. split; [exact E|]. split; [exact E'|]. split; [exact H'|exact A].
Defined.

(** C38: the header-level [sdscatlen], [sdscpylen], [sdsgrowzero] and [sdsclear]
    refine the operations on contents: they succeed without writing outside the
    allocation, and the string holds what the operation of Sds.v returns. *)
Theorem hdr_refines_content junk s c t len :
  (∀ n, length (junk n) = n) → holds s c → 0 ≤ len → (Z.to_nat len ≤ length t)%nat →
  small (sdslen s + len) →
  (∃ s', sdscatlen junk s t len = Ret s' ∧ holds s' (Sds.sdscatlen c t (Z.to_nat len)))
  ∧ (∃ s', sdscpylen junk s t len = Ret s' ∧ holds s' (Sds.sdscpylen c t (Z.to_nat len)))
  ∧ (∃ s', sdsgrowzero junk s len = Ret s' ∧ holds s' (Sds.sdsgrowzero c (Z.to_nat len)))
  ∧ (∃ s', sdsclear s = Ret s' ∧ holds s' (Sds.sdsclear c)).
Proof.
  intros Hj Hh H0 Ht Hs. destruct (holds_shape s c Hh) as (_ & _ & Hl).
  assert (small len) as Hs' by (destruct Hs; split; lia). split_and!.
  - by apply sdscatlen_spec.
  - by apply sdscpylen_spec.
  - by apply sdsgrowzero_spec.
  - by apply sdsclear_spec with (c := c).
Qed.

Lemma hdr_refines_content_witness :
  ∃ s s', sdsnewlen fill (Some (str "abc")) 3 = Ret s ∧ sdscatlen fill s (str "def") 3 = Ret s'
    ∧ holds s' (str "abcdef").
Proof.
  destruct abc_holds as (s & E & H & L).
  destruct (hdr_refines_content fill s (str "abc") (str "def") 3 fill_length H) as [(s' & E' & H') _].
  - lia.
  - simpl. lia.
  - rewrite L. split; unfold SDS_MAX_PREALLOC; lia.
  - exists s, s'. split; [exact E|]. split; [exact E'|exact H'].
Defined.

(** [sdsRemoveFreeSpace] keeps the string and leaves no spare byte;
    [sdsIncrLen] within the spare room makes the bytes written there part of the
    string, and with a negative increment cuts the string. *)
Theorem hdr_resize junk s c incr :
  (∀ n, length (junk n) = n) → holds s c → sdslen s + 18 < 2 ^ 64 →
  - sdslen s ≤ incr ≤ sdsavail s → (type_of s = 0 → incr ≠ 0) →
  (∃ s', sdsRemoveFreeSpace junk s = Ret s' ∧ holds s' c ∧ sdsalloc s' = sdslen s
     ∧ length (buf s') = Z.to_nat (sdslen s + 1))
  ∧ (∃ s', sdsIncrLen s incr = Ret s' ∧ holds s' (take (Z.to_nat (sdslen s + incr)) (buf s))).
Proof.
  intros. split; [by apply sdsRemoveFreeSpace_spec|by apply sdsIncrLen_spec with (c := c)].
Qed.

Lemma hdr_resize_witness :
  ∃ s s', sdsnewlen fill (Some (str "abc")) 3 = Ret s ∧ sdsIncrLen s (-1) = Ret s'
    ∧ holds s' (take 2 (buf s)).
Proof.
  destruct abc_holds as (s & E & H & L).
  destruct (hdr_resize fill s (str "abc") (-1) fill_length H) as [_ (s' & E' & H')].
  - rewrite L. lia.
  - rewrite L. rewrite avail_spec by apply H. destruct H as [[_ Hl _ _ _] _].
    destruct (bool_decide _); lia.
  - done.
  - rewrite L in H'. exists s, s'. split; [exact E|]. split; [exact E'|exact H'].
Defined.

(** A type-5 string rejects the increment 0 that all other types accept. *)
Lemma incr_zero_type5 s : type_of s = 0 → sdsIncrLen s 0 = Fail AssertFail.
Proof.
  intros Et. unfold sdsIncrLen, incr_ok. rewrite Et. rewrite bool_decide_eq_false_2; [done|]. lia.
Qed.
